(* ===== verification/_CoqProject ===== *)
-Q . S2P
Prelude.v
Words.v
Calendar.v
TimeTypes.v
GmTime.v
TimeCore.v
Temporal.v
Ctype.v
Interval.v
TimeParse.v
ThrLock.v
RbTree.v
Hash.v
NumConv.v
Decimal.v
DecInt.v
DecArith.v
DecSub.v
DecMul.v
DecDiv.v
DecGuess.v
DecQuot.v
DecDivSpec.v
DecMod.v
DecRound.v
DecRoundSpec.v
DecShift.v
DecText.v
DecTextSpec.v
DecBin.v
DecKey.v
DecLoad.v
Qsort.v
StrSort.v
Unicase.v
Utf8.v
Collation.v
CollBin.v
Like.v
LikeBin.v
CollHash.v
HashSpec.v
RwLock.v
RwInv.v
InnoLock.v
InnoInv.v
InnoDead.v
InnoReq.v
InnoRow.v
InnoSpec.v
