(* ===== verification/Prelude.v ===== *)
(** Drizzle: the value types of the server and the data structures below it.

    Drizzle is a SQL server.  Its kernel, [src/drizzled], has the types of SQL
    values (dates and times, decimals, strings in UTF-8), the order of values
    for comparison, hashing and sorting, the structures that hold rows and keys
    (hash table, red-black tree, sort buffers) and the table locks of the
    sessions.  These parts call each other as follows.

    - A temporal value is read from text, a number or an epoch value, checked
      against the calendar, moved by intervals and printed.
    - A number is read and printed as 64-bit integer or as decimal; a decimal is
      stored in rows in a binary format that [memcmp] orders.
    - A string is decoded character by character, its characters are weighed by
      the tables of a collation; comparison, sort key, hash and LIKE go by the
      weights.  The hash table compares keys by a collation.
    - Sorting sorts pointers to sort keys, by radix or by quicksort.
    - A session locks its tables in a fixed order before it uses them.
    - In the storage engine a transaction locks the records it reads and writes,
      and threads protect shared memory by latches.

    * Files

    Every definition that models code is preceded by the lines of the source it
    translates.

    [Prelude] (this file): machine integers with their wrap-around, lists and
    arithmetic shared by all files.  [Words]: buffers with checked access ([rd],
    [wr], [None] outside), [let?] for code that may fail, the number a list of
    words denotes, [memcmp].

    Time.
    - [Calendar]: [calendar.cc], day numbers, leap years, weeks, epoch range.
    - [TimeTypes]: the records [type::Time] and [struct tm] of [type/time.h].
    - [GmTime]: [util/gmtime.cc].
    - [TimeCore]: numbers and weeks of [type/time.cc] and [time_functions.cc].
    - [TimeParse]: text readers and printers and the epoch conversion of
      [type/time.cc], with the character classes of [Ctype] ([ctype-utf8.cc],
      [charset.h]).
    - [Temporal]: the classes of [temporal.cc].
    - [Interval]: [temporal_interval.cc].

    Numbers.
    - [NumConv]: [internal/int2str.cc], [longlong2str.cc], [llstr.cc] and
      [my_strtoll10.cc].
    - [Decimal] (the type and its invariant [wf]), [DecInt] (64-bit integers),
      [DecArith] and [DecSub] (addition, subtraction, comparison), [DecMul]
      (multiplication), [DecDiv] (division and remainder), [DecRound]
      (rounding), [DecShift] (moving of the point), [DecText] (text), [DecBin],
      [DecKey] and [DecLoad] (the binary format): [type/decimal.cc] and
      [type/decimal.h].  The proofs on division are in
      [DecGuess] (the estimate of a word of the quotient), [DecQuot] (a step
      and the loop of long division), [DecDivSpec] and [DecMod]; those on
      rounding in [DecRoundSpec], those on text in [DecTextSpec].

    Strings.
    - [Utf8]: the character conversions of [ctype-utf8.cc] and [ctype-mb.cc] and
      the library [utf8/core.h], [utf8/checked.h].
    - [Unicase]: the tables of [ctype-utf8.cc].  [Collation]:
      [utf8mb4_general_ci].  [CollBin]: [utf8mb4_bin] and the 8-bit binary
      collation of [ctype-mb.cc], [ctype-bin.cc] and [internal/m_string.h].
    - [Like], [LikeBin]: the matchers of both collations.

    Structures.
    - [Hash]: [my_hash.cc], over any collation that keeps the law of the class
      [Collation].  [CollHash]: [utf8mb4_general_ci] keeps it.  [HashSpec]: the
      table refines a bag of records.
    - [RbTree]: [tree.cc], over any order of keys (class [KeyOrder]).
    - [Qsort]: [internal/mf_qsort.cc], over any comparison (class
      [Comparison]).  [StrSort]: [internal/mf_sort.cc], [mf_radix.cc] and
      [ptr_cmp.cc].
    - [ThrLock]: [thr_lock.cc], the steps of several sessions as a relation.

    Storage engine.
    - [RwLock]: the read-write latch of InnoDB ([plugin/innobase/sync/sync0rw.cc],
      [include/sync0rw.ic]) and the events it waits for ([os/os0sync.cc]); every
      access to the memory of the latch is a step of a thread.  [RwInv]: its
      invariant.
    - [InnoLock]: the record and table locks of its transactions
      ([plugin/innobase/lock/lock0lock.cc], with parts of [trx/trx0trx.cc]),
      their queues and the search for deadlocks.  [InnoInv]: the invariant, and
      that granting and releasing keep it.  [InnoDead]: the search.  [InnoReq]:
      the requests.  [InnoRow]: unlocking, and the insertion and removal of
      records.  [InnoSpec]: the steps of transactions and the theorems.

    * What the theorems show

    - Calendar: the conversions between dates and day numbers are inverse to
      each other and count the days of the Gregorian calendar; [gmtime] and
      the week of a date agree with them; numbers, texts and epoch values of a
      valid time are read back as they were written; differences of times and
      intervals of time and months are exact, with their errors.
    - Decimals: addition, subtraction, multiplication and comparison compute
      with the rational numbers that the digits denote; division gives the
      quotient cut to the words of the result, the remainder is that of the
      quotient cut to an integer, rounding (into another decimal or in place)
      gives the multiple of the unit that its mode asks for; integers survive the
      way through a decimal, a text is read as the number it denotes and printed
      numbers are read back, the binary format is read back and ordered.  The
      theorems state the room that the buffers need and the cases that the code
      gets wrong.
    - Strings: the encodings are inverse to each other, the two decoders agree;
      comparison is that of the weights padded with spaces, sort keys order as
      the comparison does, equal strings have equal hashes, case mapping keeps
      strings well formed; LIKE matches what the pattern says.
    - Structures: the hash table behaves as a bag under every sequence of
      operations, the tree keeps its invariant and its elements, the sorts
      return a sorted permutation and stay inside their stack and buffers.
    - Locks: no two active locks are incompatible, whatever the interleaving, as
      long as no owner asks for a stronger write lock than it has; waking grants
      some request, but for one state; several tables are locked in one order.
    - Latches: for any number of threads and any interleaving, a writer is
      alone, the word of the latch counts the holders, and a thread that sleeps
      has another one that will wake it.
    - Locks of transactions: whatever transactions do, granted locks on the same
      record or table are compatible, whoever waits is blocked by a lock ahead
      of it, no transactions wait for each other in a circle, so that every wait
      ends at a transaction that runs; requests return what their result says,
      the locks of a removed record pass to the gap, and the end of a
      transaction frees its locks.

    Some theorems and lemmas state what goes wrong: a reader that misses an
    overflow, a lock that wakes nobody, a LIKE that never returns, a hash that
    reads past an empty key, a quotient written past its buffer, a remainder with
    its digits in the wrong place, a number that is rounded away, a text longer
    than its buffer, months before the year 0, a granted table lock reported with
    a code that callers do not know.

    * Conventions, bounds and fuel

    A C integer is a [Z] with the conversion of its type written out ([u8],
    [u32], [u64], [i32], [i64] below); [long] has 64 bits.  Where the source
    counts things in memory (digits of a buffer, bytes of a string) the count
    is a [Z] or a [nat], and a theorem that needs it bounds the count by the
    range of its type.  [None] is an access outside an array, a failed
    assertion or the end of the fuel, as each file says; the theorems show
    [Some].  The word of a latch and the counts of its events do not wrap
    around, and memory is always to be had.

    Loops take as fuel what bounds their turns: the length of the string or
    array for loops that consume it; the number of days divided by 365 for the
    years of [gmtime]; the words of a decimal for its loops; the number of
    records for a walk along the links of the hash table; twice the number of
    elements for the ranges of quicksort; the length of the pattern for the
    recursion of LIKE; 203 for the search for a deadlock, which the source stops
    at the depth 200, and the number of locks for its victims.  In every case the
    theorem about the operation holds with this fuel and so shows that the loop
    has ended.

    Code that is not in the repository is a parameter: the C library's
    [timegm], the callbacks of the structures, and the order of pointers.

    * Not modelled

    Floating point ([dtoa.cc]) and its conversions to decimals;
    [TemporalFormat], which needs regular expressions; the range of a LIKE
    pattern in an index and the Boyer-Moore search; the Unicode collation
    algorithm and the 8-bit collations; fields and rows, items, parser,
    optimizer, sessions and statements, replication, plugins, the clients and
    the storage engines but for the latches and the locks of InnoDB, of
    which AUTO_INC locks, implicit locks and the moves of locks between pages
    are missing.  Most of these orchestrate other parts, do input and output,
    are generated, or are systems of their own. *)

From Stdlib Require Import ZArith Lia ZifyBool List Bool.
From Stdlib Require Import Ascii String.
Import ListNotations.
Local Open Scope Z_scope.

(** ** Machine integers

    A value of a C integer type is kept as a [Z]; the conversions below are
    the ones the compiler inserts (modular for unsigned types, two's
    complement for signed ones). *)

Definition wrap (w z : Z) : Z := z mod 2 ^ w.

Definition swrap (w z : Z) : Z := (z + 2 ^ (w - 1)) mod 2 ^ w - 2 ^ (w - 1).

Definition u8 (z : Z) : Z := wrap 8 z.
Definition u32 (z : Z) : Z := wrap 32 z.
Definition u64 (z : Z) : Z := wrap 64 z.
Definition i32 (z : Z) : Z := swrap 32 z.
Definition i64 (z : Z) : Z := swrap 64 z.

Definition is_u8 (z : Z) : Prop := 0 <= z < 256.
Definition is_u32 (z : Z) : Prop := 0 <= z < 4294967296.
Definition is_u64 (z : Z) : Prop := 0 <= z < 18446744073709551616.
Definition is_i32 (z : Z) : Prop := -2147483648 <= z < 2147483648.
Definition is_i64 (z : Z) : Prop := -9223372036854775808 <= z < 9223372036854775808.

Lemma u8_eq z : u8 z = z mod 256.
Proof. reflexivity. Qed.

Lemma u32_eq z : u32 z = z mod 4294967296.
Proof. reflexivity. Qed.

Lemma u64_eq z : u64 z = z mod 18446744073709551616.
Proof. reflexivity. Qed.

Lemma u8_small z : 0 <= z < 256 -> u8 z = z.
Proof. intros; rewrite u8_eq; apply Z.mod_small; lia. Qed.

Lemma u32_small z : 0 <= z < 4294967296 -> u32 z = z.
Proof. intros; rewrite u32_eq; apply Z.mod_small; lia. Qed.

Lemma u64_small z : 0 <= z < 18446744073709551616 -> u64 z = z.
Proof. intros; rewrite u64_eq; apply Z.mod_small; lia. Qed.

Lemma i32_small z : -2147483648 <= z < 2147483648 -> i32 z = z.
Proof.
  intros H; unfold i32, swrap; change (2 ^ (32 - 1)) with 2147483648;
  change (2 ^ 32) with 4294967296; rewrite Z.mod_small; lia.
Qed.

Lemma i64_small z :
  -9223372036854775808 <= z < 9223372036854775808 -> i64 z = z.
Proof.
  intros H; unfold i64, swrap; change (2 ^ (64 - 1)) with 9223372036854775808;
  change (2 ^ 64) with 18446744073709551616; rewrite Z.mod_small; lia.
Qed.

Lemma u8_range z : 0 <= u8 z < 256.
Proof. rewrite u8_eq; apply Z.mod_pos_bound; lia. Qed.

Lemma u32_range z : 0 <= u32 z < 4294967296.
Proof. rewrite u32_eq; apply Z.mod_pos_bound; lia. Qed.

Lemma u64_range z : 0 <= u64 z < 18446744073709551616.
Proof. rewrite u64_eq; apply Z.mod_pos_bound; lia. Qed.

Lemma u32_idem z : u32 (u32 z) = u32 z.
Proof. apply u32_small, u32_range. Qed.

Lemma u32_add_mod z k : u32 (z + k * 4294967296) = u32 z.
Proof. rewrite !u32_eq, Z.mod_add; lia. Qed.

(** Only the last conversion of a chain of modular operations matters. *)
Lemma u32_add_l a b : u32 (u32 a + b) = u32 (a + b).
Proof. rewrite !u32_eq; apply Zplus_mod_idemp_l. Qed.

Lemma u32_add_r a b : u32 (a + u32 b) = u32 (a + b).
Proof. rewrite !u32_eq; apply Zplus_mod_idemp_r. Qed.

Lemma u32_sub_l a b : u32 (u32 a - b) = u32 (a - b).
Proof. rewrite !u32_eq; apply Zminus_mod_idemp_l. Qed.

Lemma u32_sub_r a b : u32 (a - u32 b) = u32 (a - b).
Proof. rewrite !u32_eq; apply Zminus_mod_idemp_r. Qed.

Lemma u32_mul_l a b : u32 (u32 a * b) = u32 (a * b).
Proof. rewrite !u32_eq; apply Zmult_mod_idemp_l. Qed.

Lemma u32_mul_r a b : u32 (a * u32 b) = u32 (a * b).
Proof. rewrite !u32_eq; apply Zmult_mod_idemp_r. Qed.

Lemma u64_add_l a b : u64 (u64 a + b) = u64 (a + b).
Proof. rewrite !u64_eq; apply Zplus_mod_idemp_l. Qed.

Lemma u64_add_r a b : u64 (a + u64 b) = u64 (a + b).
Proof. rewrite !u64_eq; apply Zplus_mod_idemp_r. Qed.

(** Storing an unsigned 64-bit value in a signed variable keeps its residue. *)
Lemma i64_u64 z : i64 (u64 z) = i64 z.
Proof.
  unfold i64, swrap, u64, wrap; change (2 ^ (64 - 1)) with 9223372036854775808;
  change (2 ^ 64) with 18446744073709551616; rewrite Zplus_mod_idemp_l; reflexivity.
Qed.

(** ** Tactics *)

(** [lia] after [/], [mod], [÷] and [rem] have been turned into equations. *)
Ltac dlia := Z.to_euclidean_division_equations; lia.

(** Remove from the goal (or a hypothesis) the conversions whose argument is
    provably in range. *)
Ltac unwrap :=
  repeat match goal with
  | |- context [u32 ?e] => rewrite (u32_small e) by lia
  | |- context [u64 ?e] => rewrite (u64_small e) by lia
  | |- context [i32 ?e] => rewrite (i32_small e) by lia
  | |- context [i64 ?e] => rewrite (i64_small e) by lia
  | |- context [u8 ?e] => rewrite (u8_small e) by lia
  end.

Ltac unwrap_in H :=
  repeat match type of H with
  | context [u32 ?e] => rewrite (u32_small e) in H by lia
  | context [u64 ?e] => rewrite (u64_small e) in H by lia
  | context [i32 ?e] => rewrite (i32_small e) in H by lia
  | context [i64 ?e] => rewrite (i64_small e) in H by lia
  | context [u8 ?e] => rewrite (u8_small e) in H by lia
  end.

(** Case split on the first boolean test of the goal, keeping it as an
    equation that [lia] reads. *)
Ltac case_if :=
  match goal with
  | |- context [if ?b then _ else _] => match type of b with bool => destruct b eqn:? end
  end.

Ltac case_if_in H :=
  match type of H with
  | context [if ?b then _ else _] => match type of b with bool => destruct b eqn:? end
  end.

(** C division and remainder, corrected to round down. *)
Lemma floor_split z k : 0 < k ->
  (if Z.rem z k <? 0 then (Z.rem z k + k, z ÷ k - 1) else (Z.rem z k, z ÷ k))
  = (z mod k, z / k).
Proof.
  intros Hk; pose proof (Z.quot_rem' z k) as E.
  assert (- k < Z.rem z k < k) by (pose proof (Z.rem_bound_abs z k ltac:(lia)); lia).
  case_if; f_equal.
  - apply (Z.mod_unique_pos z k (z ÷ k - 1)); [lia|]; rewrite E at 1; ring.
  - apply (Z.div_unique_pos z k _ (Z.rem z k + k)); [lia|]; rewrite E at 1; ring.
  - apply (Z.mod_unique_pos z k (z ÷ k)); [lia|exact E].
  - apply (Z.div_unique_pos z k _ (Z.rem z k)); [lia|exact E].
Qed.

Create HintDb cint.
Create Rewrite HintDb cint.
#[export] Hint Rewrite u32_idem u32_add_l u32_add_r u32_sub_l u32_sub_r u32_mul_l u32_mul_r
  : cint.
#[export] Hint Resolve u8_range u32_range u64_range : cint.

(** ** Arrays and strings *)

(** C array read; an index out of the array is undefined behaviour in the
    source and reads the default 0 here. *)
Definition aget (a : list Z) (i : Z) : Z :=
  if i <? 0 then 0 else nth (Z.to_nat i) a 0.

(** Evaluate the reads of a constant table at a constant index. *)
Ltac aget_eval :=
  repeat match goal with
  | |- context [aget ?a ?i] =>
      let v := eval vm_compute in (aget a i) in
      match v with context [match _ with _ => _ end] => fail 1 | _ => change (aget a i) with v end
  | H : context [aget ?a ?i] |- _ =>
      let v := eval vm_compute in (aget a i) in
      match v with context [match _ with _ => _ end] => fail 1 | _ => change (aget a i) with v in H end
  end.

Fixpoint bytes_of_string (s : string) : list Z :=
  match s with
  | EmptyString => []
  | String c s' => Z.of_nat (nat_of_ascii c) :: bytes_of_string s'
  end.

(** ** Printed numbers

    [printf] of an unsigned decimal number, as bytes; 20 digits hold every
    64-bit value. *)

Fixpoint dec_digits (fuel : nat) (n : Z) (acc : list Z) : list Z :=
  match fuel with
  | O => acc
  | S fuel' =>
      let acc := (48 + n mod 10) :: acc in
      if n <? 10 then acc else dec_digits fuel' (n / 10) acc
  end.

(** [%u] and [%0wu]. *)
Definition fmt_u (n : Z) : list Z := dec_digits 20 n [].

Definition fmt_0u (w : nat) (n : Z) : list Z :=
  repeat 48 (w - List.length (fmt_u n)) ++ fmt_u n.

(** [snprintf] into a buffer of [to_len > 0] bytes: the bytes before the
    terminating zero, and the length that was asked for. *)
Definition snprintf (to_len : nat) (out : list Z) : list Z * Z :=
  (firstn (to_len - 1) out, Z.of_nat (List.length out)).

(** The last [w] decimal digits. *)
Fixpoint last_digits (w : nat) (n : Z) (acc : list Z) : list Z :=
  match w with
  | O => acc
  | S w' => last_digits w' (n / 10) ((48 + n mod 10) :: acc)
  end.

Lemma last_digits_length w : forall n acc,
  List.length (last_digits w n acc) = (w + List.length acc)%nat.
Proof. induction w as [|w IH]; intros; cbn; [reflexivity|rewrite IH; cbn; lia]. Qed.

Lemma last_digits_zero w : forall acc, last_digits w 0 acc = repeat 48 w ++ acc.
Proof.
  induction w as [|w IH]; intros acc; [reflexivity|].
  cbn [last_digits]; change (0 / 10) with 0; change (48 + 0 mod 10) with 48.
  rewrite IH; cbn [repeat app]; rewrite app_comm_cons, repeat_cons, <- app_assoc; reflexivity.
Qed.

Lemma dec_digits_pad w fuel : (w <= fuel)%nat -> forall n acc,
  0 <= n < 10 ^ Z.of_nat w -> (0 < w)%nat ->
  repeat 48 (w + List.length acc - List.length (dec_digits fuel n acc)) ++ dec_digits fuel n acc
  = last_digits w n acc.
Proof.
  revert fuel; induction w as [|w IH]; intros fuel Hf n acc Hn Hw; [lia|].
  destruct fuel as [|fuel]; [lia|]; cbn [dec_digits last_digits].
  destruct (Z.ltb_spec n 10) as [Hs|Hs].
  - rewrite (Z.div_small n 10), last_digits_zero by lia; f_equal; f_equal; cbn; lia.
  - destruct w as [|w]; [cbn in Hn; lia|].
    rewrite <- (IH fuel) by (rewrite ?Nat2Z.inj_succ, ?Z.pow_succ_r in *; dlia || lia).
    f_equal; f_equal; cbn [List.length]; lia.
Qed.

(** A number of at most [w] digits is printed by [%0wu] on exactly [w]. *)
Lemma fmt_0u_digits w n : (0 < w <= 20)%nat -> 0 <= n < 10 ^ Z.of_nat w ->
  fmt_0u w n = last_digits w n [].
Proof.
  intros Hw Hn; unfold fmt_0u, fmt_u.
  rewrite <- (dec_digits_pad w 20) by lia; cbn [List.length]; rewrite Nat.add_0_r; reflexivity.
Qed.

(** Reading decimal digits. *)
Definition is_digit (c : Z) : Prop := 48 <= c <= 57.

Definition digits_value (l : list Z) (v : Z) : Z := fold_left (fun v c => v * 10 + (c - 48)) l v.

Lemma digits_value_app l l' v : digits_value (l ++ l') v = digits_value l' (digits_value l v).
Proof. apply fold_left_app. Qed.

Lemma digits_value_ge l : Forall is_digit l -> forall v, 0 <= v -> v <= digits_value l v.
Proof.
  unfold is_digit; induction 1 as [|c l Hc _ IH]; intros v Hv; [cbn; lia|].
  unfold digits_value in *; cbn [fold_left]; specialize (IH (v * 10 + (c - 48)) ltac:(lia)); lia.
Qed.

Lemma dec_digits_spec fuel : forall n acc, 0 <= n < 10 ^ Z.of_nat fuel -> (0 < fuel)%nat ->
  exists ds, dec_digits fuel n acc = ds ++ acc /\ Forall is_digit ds /\ ds <> [] /\
    digits_value ds 0 = n.
Proof.
  unfold is_digit; induction fuel as [|fuel IH]; intros n acc Hn Hf; [lia|]; cbn [dec_digits].
  destruct (Z.ltb_spec n 10).
  - exists [48 + n mod 10]; rewrite Z.mod_small by lia; split; [reflexivity|].
    split; [apply Forall_cons; [lia|apply Forall_nil]|split; [discriminate|unfold digits_value; cbn [fold_left]; lia]].
  - destruct fuel as [|fuel]; [cbn in Hn; lia|].
    destruct (IH (n / 10) (48 + n mod 10 :: acc)) as (ds & E & Hd & Hne & Hv);
      [rewrite Nat2Z.inj_succ, Z.pow_succ_r in Hn by lia; dlia|lia|].
    exists (ds ++ [48 + n mod 10]); rewrite E, <- app_assoc; split; [reflexivity|].
    split; [apply Forall_app; split; [exact Hd|apply Forall_cons; [dlia|apply Forall_nil]]|].
    split; [destruct ds; discriminate|].
    rewrite digits_value_app, Hv; unfold digits_value; cbn [fold_left]; dlia.
Qed.

(** [%u] writes at least one digit, and they denote the number. *)
Lemma fmt_u_spec n : 0 <= n < 100000000000000000000 ->
  Forall is_digit (fmt_u n) /\ fmt_u n <> [] /\ digits_value (fmt_u n) 0 = n.
Proof.
  intros Hn; unfold fmt_u.
  destruct (dec_digits_spec 20 n []) as (ds & E & R); [exact Hn|lia|].
  rewrite app_nil_r in E; rewrite E; exact R.
Qed.

Lemma digits_value_zeros k l : digits_value (repeat 48 k ++ l) 0 = digits_value l 0.
Proof. induction k as [|k IH]; [reflexivity|exact IH]. Qed.

(** [%0wu] writes digits that denote the number, [w] of them if they suffice. *)
Lemma fmt_0u_spec w n : (0 < w <= 20)%nat -> 0 <= n < 100000000000000000000 ->
  Forall is_digit (fmt_0u w n) /\ fmt_0u w n <> [] /\ digits_value (fmt_0u w n) 0 = n /\
  (n < 10 ^ Z.of_nat w -> List.length (fmt_0u w n) = w).
Proof.
  intros Hw Hn; destruct (fmt_u_spec n Hn) as (Hd & Hne & Hv); split; [|split; [|split]].
  - apply Forall_app; split; [apply Forall_forall; intros c Hc|exact Hd].
    apply repeat_spec in Hc; subst c; unfold is_digit; lia.
  - unfold fmt_0u; intros E; apply app_eq_nil in E; tauto.
  - unfold fmt_0u; rewrite digits_value_zeros; exact Hv.
  - intros Hs; rewrite fmt_0u_digits by lia; rewrite last_digits_length; cbn; lia.
Qed.

Lemma dec_digits_length w : forall fuel n acc, 0 <= n < 10 ^ Z.of_nat w -> (0 < w)%nat ->
  (List.length (dec_digits fuel n acc) <= w + List.length acc)%nat.
Proof.
  induction w as [|w IH]; intros fuel n acc Hn Hw; [lia|].
  destruct fuel as [|fuel]; cbn [dec_digits]; [lia|].
  destruct (Z.ltb_spec n 10); [cbn; lia|].
  destruct w as [|w]; [cbn in Hn; lia|].
  specialize (IH fuel (n / 10) (48 + n mod 10 :: acc)).
  rewrite (Nat2Z.inj_succ (S w)), Z.pow_succ_r in Hn by lia.
  cbn [List.length] in IH; lapply IH; [intros H'; lapply H'; [lia|lia]|dlia].
Qed.

Lemma fmt_0u_length_le w w' n : (0 < w')%nat -> (w <= w')%nat -> 0 <= n < 10 ^ Z.of_nat w' ->
  (List.length (fmt_0u w n) <= w')%nat.
Proof.
  intros Hw Hww Hn; unfold fmt_0u, fmt_u.
  pose proof (dec_digits_length w' 20 n [] Hn Hw) as L; cbn [List.length] in L.
  rewrite length_app, repeat_length; lia.
Qed.
