(* ===== verification/Words.v ===== *)
(** Buffers of machine words and the numbers they denote.

    A C array that a routine walks with pointers is a list; a pointer into it
    is an index.  [rd] and [wr] give [None] outside the array, so a routine
    that returns [Some] has stayed inside its buffers.  A list of words, the
    most significant one first, denotes a number in a base: [bval].  The
    loops that several routines share (copying and clearing words downwards)
    are here with the equation that each of them satisfies. *)

From Stdlib Require Import ZArith Lia ZifyBool List Bool.
From S2P Require Import Prelude.
Import ListNotations.
Local Open Scope Z_scope.

(** ** Computations that may fail *)

Declare Scope fail_scope.

Definition obind {A B : Type} (a : option A) (f : A -> option B) : option B :=
  match a with Some x => f x | None => None end.

Notation "'let?' x ':=' a 'in' b" := (obind a (fun x => b))
  (at level 10, x pattern, a at level 100, b at level 200,
   format "'[v' 'let?'  x  ':='  a  'in' '/' b ']'") : fail_scope.

Local Open Scope fail_scope.

Lemma obind_Some {A B} (a : option A) (f : A -> option B) r :
  obind a f = Some r -> exists x, a = Some x /\ f x = Some r.
Proof. destruct a as [x|]; [eauto|discriminate]. Qed.

(** Replace a successful [let?] in [H] by its parts. *)
Ltac bind_in H x Hx := apply obind_Some in H as (x & Hx & H).

(** ** Lists by position *)

Definition zlen {A} (l : list A) : Z := Z.of_nat (List.length l).

Lemma zlen_nil {A} : zlen (@nil A) = 0.
Proof. reflexivity. Qed.

Lemma zlen_cons {A} (x : A) l : zlen (x :: l) = zlen l + 1.
Proof. unfold zlen; cbn [List.length]; lia. Qed.

Lemma zlen_app {A} (l l' : list A) : zlen (l ++ l') = zlen l + zlen l'.
Proof. unfold zlen; rewrite length_app; lia. Qed.

Lemma zlen_nonneg {A} (l : list A) : 0 <= zlen l.
Proof. unfold zlen; lia. Qed.

Lemma zlen_repeat {A} (x : A) n : zlen (repeat x n) = Z.of_nat n.
Proof. unfold zlen; rewrite repeat_length; reflexivity. Qed.

Lemma zlen_zero {A} (l : list A) : zlen l = 0 -> l = [].
Proof. destruct l; [reflexivity|rewrite zlen_cons; pose proof (zlen_nonneg l); lia]. Qed.

Lemma zlen_length {A} (l : list A) n : zlen l = Z.of_nat n <-> List.length l = n.
Proof. unfold zlen; lia. Qed.

Create Rewrite HintDb zlen.
#[export] Hint Rewrite @zlen_nil @zlen_cons @zlen_app @zlen_repeat : zlen.

(** Close a goal about lengths of lists. *)
Ltac llia :=
  autorewrite with zlen in *;
  repeat match goal with
  | |- context [zlen ?l] => lazymatch goal with H : 0 <= zlen l |- _ => fail | _ => pose proof (zlen_nonneg l) end
  | _ : context [zlen ?l] |- _ => lazymatch goal with H : 0 <= zlen l |- _ => fail | _ => pose proof (zlen_nonneg l) end
  end; lia.

(** [llia] without the hypotheses on powers, which only slow it down. *)
Ltac flat := repeat match goal with H : context [_ ^ _] |- _ => clear H end.
Ltac flia := flat; llia.

(** Move the brackets of a concatenation. *)
Ltac regroup a b := replace a with b by (rewrite <- ?app_assoc; reflexivity).

(** The first [n] elements and the rest, for a count kept as a [Z]. *)
Definition ztake {A} (n : Z) (l : list A) : list A := firstn (Z.to_nat n) l.
Definition zdrop {A} (n : Z) (l : list A) : list A := skipn (Z.to_nat n) l.

Lemma ztake_zdrop {A} n (l : list A) : ztake n l ++ zdrop n l = l.
Proof. apply firstn_skipn. Qed.

Lemma zlen_ztake {A} n (l : list A) : 0 <= n <= zlen l -> zlen (ztake n l) = n.
Proof. unfold zlen, ztake; rewrite length_firstn; lia. Qed.

Lemma zlen_zdrop {A} n (l : list A) : 0 <= n <= zlen l -> zlen (zdrop n l) = zlen l - n.
Proof. unfold zlen, zdrop; rewrite length_skipn; lia. Qed.

Lemma ztake_app {A} n (l l' : list A) : n = zlen l -> ztake n (l ++ l') = l.
Proof.
  intros ->; unfold ztake, zlen; rewrite Nat2Z.id, firstn_app, Nat.sub_diag, firstn_all.
  cbn; apply app_nil_r.
Qed.

Lemma zdrop_app {A} n (l l' : list A) : n = zlen l -> zdrop n (l ++ l') = l'.
Proof.
  intros ->; unfold zdrop, zlen; rewrite Nat2Z.id, skipn_app, Nat.sub_diag, skipn_all; reflexivity.
Qed.

(** Cut a list at a position inside it. *)
Lemma zsplit {A} n (l : list A) : 0 <= n <= zlen l ->
  exists l1 l2, l = l1 ++ l2 /\ zlen l1 = n /\ zlen l2 = zlen l - n.
Proof.
  intros H; exists (ztake n l), (zdrop n l).
  rewrite ztake_zdrop, zlen_ztake, zlen_zdrop by exact H; auto.
Qed.

Lemma app_eq_len {A} (l1 l2 m1 m2 : list A) : zlen l1 = zlen l2 -> l1 ++ m1 = l2 ++ m2 -> l1 = l2 /\ m1 = m2.
Proof.
  revert l2; induction l1 as [|x l1 IH]; intros [|y l2] L E; try llia; [auto|].
  injection E as -> E; destruct (IH l2) as [-> ->]; [llia|exact E|auto].
Qed.

(** The two halves of a list of equal elements. *)
Lemma app_eq_repeat {A} (x : A) l l' n : l ++ l' = repeat x n ->
  l = repeat x (length l) /\ l' = repeat x (length l').
Proof.
  intros E; assert (n = length l + length l')%nat as ->
    by (rewrite <- length_app, E, repeat_length; reflexivity).
  rewrite repeat_app in E; apply app_eq_len in E; [exact E|unfold zlen; rewrite repeat_length; reflexivity].
Qed.

Lemma zlen_last {A} (l : list A) : 0 < zlen l -> exists l' x, l = l' ++ [x].
Proof.
  intros H; destruct (exists_last (l := l)) as (l' & x & E);
    [intros E; subst l; cbv in H; discriminate|eauto].
Qed.

(** ** Buffers *)

Section buffers.
Context {A : Type}.
Implicit Types (b pre post : list A) (x v : A) (i j : Z).

Definition rd (b : list A) (i : Z) : option A :=
  if i <? 0 then None else nth_error b (Z.to_nat i).

Definition wr (b : list A) (i : Z) (v : A) : option (list A) :=
  if (0 <=? i) && (i <? zlen b) then Some (ztake i b ++ v :: zdrop (i + 1) b) else None.

Lemma rd_at pre x post i : i = zlen pre -> rd (pre ++ x :: post) i = Some x.
Proof.
  intros ->; unfold rd; destruct (Z.ltb_spec (zlen pre) 0); [llia|].
  unfold zlen; rewrite Nat2Z.id, nth_error_app2, Nat.sub_diag by lia; reflexivity.
Qed.

Lemma rd_in b i x : rd b i = Some x -> In x b.
Proof. unfold rd; destruct (i <? 0); [discriminate|apply nth_error_In]. Qed.

Lemma rd_Some b i : 0 <= i < zlen b -> exists x, rd b i = Some x.
Proof.
  intros H; destruct (zsplit i b) as (l1 & l2 & -> & L1 & L2); [lia|].
  destruct l2 as [|x l2]; [llia|]; exists x; apply rd_at; lia.
Qed.

Lemma wr_at pre x post i v : i = zlen pre -> wr (pre ++ x :: post) i v = Some (pre ++ v :: post).
Proof.
  intros ->; unfold wr; rewrite ztake_app by reflexivity.
  replace (pre ++ x :: post) with ((pre ++ [x]) ++ post) at 2 by (rewrite <- app_assoc; reflexivity).
  rewrite zdrop_app by llia.
  replace ((0 <=? zlen pre) && (zlen pre <? zlen (pre ++ x :: post))) with true; [reflexivity|].
  symmetry; apply andb_true_intro; split; llia.
Qed.

Lemma rd_0 x b : rd (x :: b) 0 = Some x.
Proof. reflexivity. Qed.

Lemma wr_0 x b v : wr (x :: b) 0 v = Some (v :: b).
Proof. apply (wr_at [] x b 0 v); reflexivity. Qed.

Lemma wr_Some b i v : 0 <= i < zlen b -> exists b', wr b i v = Some b'.
Proof.
  intros H; unfold wr; replace ((0 <=? i) && (i <? zlen b)) with true by lia; eauto.
Qed.

Lemma wr_zlen b i v b' : wr b i v = Some b' -> zlen b' = zlen b.
Proof.
  unfold wr; destruct (Z.leb_spec 0 i), (Z.ltb_spec i (zlen b)); cbn [andb]; try discriminate.
  intros [= <-]; autorewrite with zlen; rewrite zlen_ztake, zlen_zdrop by lia; lia.
Qed.

Lemma rd_None b i : ~ 0 <= i < zlen b -> rd b i = None.
Proof.
  intros H; unfold rd; destruct (Z.ltb_spec i 0); [reflexivity|].
  apply nth_error_None; unfold zlen in H; lia.
Qed.

Lemma rd_bounds b i x : rd b i = Some x -> 0 <= i < zlen b.
Proof.
  intros H; destruct (Z.le_gt_cases 0 i), (Z.lt_ge_cases i (zlen b)); auto;
    rewrite rd_None in H by lia; discriminate.
Qed.

Lemma wr_split b i v b' : wr b i v = Some b' ->
  exists pre x post, b = pre ++ x :: post /\ b' = pre ++ v :: post /\ i = zlen pre.
Proof.
  intros H; assert (0 <= i < zlen b) as Hi
    by (unfold wr in H; destruct (Z.leb_spec 0 i), (Z.ltb_spec i (zlen b)); auto; discriminate).
  destruct (zsplit i b) as (pre & [|x post] & -> & L1 & L2); [lia|exfalso; llia|].
  rewrite wr_at in H by lia; injection H as <-; exists pre, x, post; auto.
Qed.

Lemma rd_wr b i v b' j : wr b i v = Some b' -> rd b' j = if i =? j then Some v else rd b j.
Proof.
  intros (pre & x & post & -> & -> & ->)%wr_split; destruct (Z.eqb_spec (zlen pre) j) as [<-|N]; [apply rd_at; reflexivity|].
  unfold rd; destruct (Z.ltb_spec j 0); [reflexivity|]; unfold zlen in N.
  destruct (Nat.lt_ge_cases (Z.to_nat j) (length pre)); [rewrite !nth_error_app1 by lia; reflexivity|].
  rewrite !nth_error_app2 by lia; destruct (Z.to_nat j - length pre)%nat eqn:E; [lia|reflexivity].
Qed.

Lemma rd_ext b b' : zlen b = zlen b' -> (forall i, 0 <= i < zlen b -> rd b i = rd b' i) -> b = b'.
Proof.
  intros L H; apply nth_error_ext; intros n.
  destruct (Nat.lt_ge_cases n (length b)) as [Hn|Hn].
  - specialize (H (Z.of_nat n)); unfold rd, zlen in H; rewrite Nat2Z.id in H.
    destruct (Z.ltb_spec (Z.of_nat n) 0); [lia|apply H; lia].
  - unfold zlen in L; rewrite (proj2 (nth_error_None b n)), (proj2 (nth_error_None b' n)) by lia; reflexivity.
Qed.
End buffers.

(** [while (n--) *--buf0= *--buf1;] *)
Fixpoint copy_down (n : nat) (src t : list Z) (p0 p1 : Z) : option (list Z * Z * Z) :=
  match n with
  | O => Some (t, p0, p1)
  | S n' =>
      let? w := rd src (p1 - 1) in
      let? t := wr t (p0 - 1) w in
      copy_down n' src t (p0 - 1) (p1 - 1)
  end.

(** [while (n--) *--buf0= 0;] *)
Fixpoint zero_down (n : nat) (t : list Z) (p0 : Z) : option (list Z * Z) :=
  match n with
  | O => Some (t, p0)
  | S n' => let? t := wr t (p0 - 1) 0 in zero_down n' t (p0 - 1)
  end.

(** [while (n--) *buf0++= v;] *)
Fixpoint fill_up (n : nat) (v : Z) (t : list Z) (p0 : Z) : option (list Z * Z) :=
  match n with
  | O => Some (t, p0)
  | S n' => let? t := wr t p0 v in fill_up n' v t (p0 + 1)
  end.

Lemma copy_down_eq n m mid pre post pre1 post1 p0 p1 :
  zlen m = Z.of_nat n -> zlen mid = Z.of_nat n ->
  p0 = zlen pre + Z.of_nat n -> p1 = zlen pre1 + Z.of_nat n ->
  copy_down n (pre1 ++ m ++ post1) (pre ++ mid ++ post) p0 p1
  = Some (pre ++ m ++ post, zlen pre, zlen pre1).
Proof.
  revert m mid post post1 p0 p1; induction n as [|n IH]; intros m mid post post1 p0 p1 Hm Hmid -> ->.
  - rewrite (zlen_zero m), (zlen_zero mid) by lia; cbn; f_equal; f_equal; [f_equal|]; lia.
  - destruct (zlen_last m) as (m' & x & ->); [lia|].
    destruct (zlen_last mid) as (mid' & y & ->); [lia|].
    cbn [copy_down]; rewrite <- !app_assoc; cbn [app].
    rewrite (app_assoc pre1 m'), (app_assoc pre mid'), rd_at by llia; cbn [obind].
    rewrite wr_at by llia; cbn [obind]; rewrite <- !app_assoc.
    apply IH; llia.
Qed.

Lemma zero_down_eq n mid pre post p0 :
  zlen mid = Z.of_nat n -> p0 = zlen pre + Z.of_nat n ->
  zero_down n (pre ++ mid ++ post) p0 = Some (pre ++ repeat 0 n ++ post, zlen pre).
Proof.
  revert mid post p0; induction n as [|n IH]; intros mid post p0 Hmid ->.
  - rewrite (zlen_zero mid) by lia; cbn; f_equal; f_equal; lia.
  - destruct (zlen_last mid) as (mid' & y & ->); [lia|].
    cbn [zero_down]; rewrite <- !app_assoc; cbn [app].
    rewrite (app_assoc pre mid'), wr_at by llia; cbn [obind]; rewrite <- app_assoc.
    rewrite (IH mid') by llia; cbn [repeat]; rewrite (repeat_cons n), <- app_assoc; reflexivity.
Qed.

Lemma fill_up_eq n v mid pre post p0 :
  zlen mid = Z.of_nat n -> p0 = zlen pre ->
  fill_up n v (pre ++ mid ++ post) p0 = Some (pre ++ repeat v n ++ post, zlen pre + Z.of_nat n).
Proof.
  revert mid pre p0; induction n as [|n IH]; intros mid pre p0 Hmid ->.
  - rewrite (zlen_zero mid) by lia; cbn; f_equal; f_equal; lia.
  - destruct mid as [|y mid]; [llia|]; cbn [fill_up app].
    rewrite wr_at by llia; cbn [obind].
    replace (pre ++ v :: mid ++ post) with ((pre ++ [v]) ++ mid ++ post) by (rewrite <- app_assoc; reflexivity).
    rewrite (IH mid) by llia; rewrite <- app_assoc; cbn [repeat app]; f_equal; f_equal; llia.
Qed.

(** ** Numbers in a base *)

Section base.
Context (b : Z) (Hb : 1 < b).

(** The number that the words denote, the most significant one first. *)
Fixpoint bval (l : list Z) : Z :=
  match l with
  | [] => 0
  | w :: l' => w * b ^ zlen l' + bval l'
  end.

Definition digit_ok (w : Z) : Prop := 0 <= w < b.

Lemma bval_app l l' : bval (l ++ l') = bval l * b ^ zlen l' + bval l'.
Proof.
  induction l as [|w l IH]; cbn [bval app]; [lia|].
  rewrite IH, zlen_app, Z.pow_add_r by apply zlen_nonneg; ring.
Qed.

Lemma bval_cons w l : bval (w :: l) = w * b ^ zlen l + bval l.
Proof. reflexivity. Qed.

Lemma bval_one w : bval [w] = w.
Proof. cbn [bval]; rewrite zlen_nil; change (b ^ 0) with 1; ring. Qed.

Lemma bval_snoc l w : bval (l ++ [w]) = bval l * b + w.
Proof. rewrite bval_app, bval_one; change (zlen [w]) with 1; rewrite Z.pow_1_r; reflexivity. Qed.

Lemma bval_zeros n : bval (repeat 0 n) = 0.
Proof. induction n as [|n IH]; [reflexivity|cbn [repeat bval]; rewrite IH; ring]. Qed.

Lemma bpow_pos n : 0 <= n -> 0 < b ^ n.
Proof. intros; apply Z.pow_pos_nonneg; lia. Qed.

Lemma bval_bounds l : Forall digit_ok l -> 0 <= bval l < b ^ zlen l.
Proof.
  unfold digit_ok; induction 1 as [|w l Hw _ IH]; [cbn; lia|].
  cbn [bval]; rewrite zlen_cons, Z.pow_add_r, Z.pow_1_r by llia.
  pose proof (bpow_pos (zlen l) ltac:(llia)); nia.
Qed.

(** A bounded list of words is determined by its length and its number. *)
Lemma bval_inj l l' : Forall digit_ok l -> Forall digit_ok l' -> zlen l = zlen l' ->
  bval l = bval l' -> l = l'.
Proof.
  intros H; revert l'; induction H as [|w l Hw Hl IH]; intros l' Hl' L E.
  - symmetry; apply zlen_zero; llia.
  - destruct Hl' as [|w' l' Hw' Hl']; [llia|]; cbn [bval] in E.
    assert (zlen l = zlen l') as Ll by llia.
    pose proof (bval_bounds _ Hl); pose proof (bval_bounds _ Hl'); rewrite <- Ll in *.
    assert (w = w') by nia; subst w'; f_equal; apply IH; [assumption|assumption|lia].
Qed.

(** The words after the first [n] denote the remainder, and those before it
    the quotient, by the power at that position. *)
Lemma bval_div l l' : Forall digit_ok l' -> bval (l ++ l') / b ^ zlen l' = bval l.
Proof.
  intros H%bval_bounds; rewrite bval_app; symmetry.
  apply (Z.div_unique_pos _ _ _ (bval l')); [exact H|ring].
Qed.

Lemma bval_mod l l' : Forall digit_ok l' -> bval (l ++ l') mod b ^ zlen l' = bval l'.
Proof.
  intros H%bval_bounds; rewrite bval_app; symmetry.
  apply (Z.mod_unique_pos _ _ (bval l)); [exact H|ring].
Qed.

Lemma bval_zero l : Forall digit_ok l -> bval l = 0 -> l = repeat 0 (List.length l).
Proof.
  intros H E; apply bval_inj; [exact H| | |rewrite bval_zeros; exact E].
  - apply Forall_forall; intros x Hx%repeat_spec; subst x; unfold digit_ok; lia.
  - rewrite zlen_repeat; reflexivity.
Qed.

(** Lists of the same length are ordered as their numbers. *)
Lemma bval_lt_head x y l l' : Forall digit_ok l -> Forall digit_ok l' -> zlen l = zlen l' ->
  x < y -> bval (x :: l) < bval (y :: l').
Proof.
  intros H1%bval_bounds H2%bval_bounds L Hxy; cbn [bval]; rewrite <- L in *; nia.
Qed.

End base.

Arguments bval b l : simpl never.

(** The order of two numbers of which the high parts decide. *)
Lemma compare_split a a' X t t' : 0 <= t < X -> 0 <= t' < X ->
  (a * X + t ?= a' * X + t') = match a ?= a' with Eq => t ?= t' | c => c end.
Proof.
  intros H H'; destruct (Z.compare_spec a a') as [->|L|G].
  - destruct (Z.compare_spec t t'); [apply Z.compare_eq_iff|apply Z.compare_lt_iff|apply Z.compare_gt_iff]; lia.
  - apply Z.compare_lt_iff; nia.
  - apply Z.compare_gt_iff; nia.
Qed.

(** [memcmp] of two blocks of the same size. *)
Fixpoint memcmp (a b : list Z) : comparison :=
  match a, b with
  | x :: a', y :: b' => match x ?= y with Eq => memcmp a' b' | c => c end
  | _, _ => Eq
  end.

Lemma memcmp_value a : Forall (digit_ok 256) a -> forall b, Forall (digit_ok 256) b -> zlen a = zlen b ->
  memcmp a b = (bval 256 a ?= bval 256 b).
Proof.
  induction 1 as [|x a Hx Ha IH]; intros [|y b] Hb L; try (exfalso; llia); [reflexivity|].
  inversion_clear Hb; cbn [memcmp]; rewrite !bval_cons; assert (zlen a = zlen b) as E by llia.
  rewrite <- E, compare_split by (apply bval_bounds || (rewrite E; apply bval_bounds); (assumption || lia)).
  rewrite IH by assumption; reflexivity.
Qed.

Lemma memcmp_refl a : memcmp a a = Eq.
Proof. induction a; cbn [memcmp]; [|rewrite Z.compare_refl]; auto. Qed.

Lemma memcmp_app a a' : zlen a = zlen a' -> forall b b',
  memcmp (a ++ b) (a' ++ b') = match memcmp a a' with Eq => memcmp b b' | c => c end.
Proof.
  revert a'; induction a as [|x a IH]; intros [|y a'] L b b'; try (exfalso; llia); [reflexivity|].
  cbn [app memcmp]; destruct (x ?= y); auto; apply IH; llia.
Qed.

Lemma memcmp_Eq a : forall b, zlen a = zlen b -> memcmp a b = Eq -> a = b.
Proof.
  induction a as [|x a IH]; intros [|y b] L H; try (exfalso; llia); [reflexivity|]; cbn [memcmp] in H.
  destruct (Z.compare_spec x y); try discriminate; subst; f_equal; apply IH; [llia|exact H].
Qed.

(** ** Bits *)

Lemma lor_add a n b : 0 <= n -> 0 <= b < 2 ^ n -> Z.lor (a * 2 ^ n) b = a * 2 ^ n + b.
Proof.
  intros Hn Hb; symmetry; rewrite <- Z.lxor_lor, <- Z.add_nocarry_lxor; try reflexivity.
  all: apply Z.bits_inj'; intros i Hi; rewrite Z.land_spec, Z.bits_0; destruct (Z.lt_ge_cases i n).
  all: try (rewrite Z.mul_pow2_bits_low by lia; reflexivity).
  all: replace b with (b mod 2 ^ n) by (apply Z.mod_small, Hb); rewrite Z.mod_pow2_bits_high by lia; apply andb_false_r.
Qed.

(** Evaluate the powers of constants. *)
Ltac pows :=
  repeat match goal with |- context [?a ^ ?b] => let v := eval vm_compute in (a ^ b) in change (a ^ b) with v end.

(** A property of every byte, by evaluation. *)
Lemma byte_all (P : Z -> bool) : forallb P (map Z.of_nat (seq 0 256)) = true -> forall b, 0 <= b < 256 -> P b = true.
Proof.
  intros F b H; rewrite forallb_forall in F; apply F, in_map_iff; exists (Z.to_nat b); split; [lia|apply in_seq; lia].
Qed.
