(* ===== verification/Calendar.v ===== *)
(** The proleptic Gregorian calendar of [src/drizzled/calendar.cc] and
    [src/drizzled/calendar.h]: day numbers, leap years, weekdays, periods. *)

From Stdlib Require Import ZArith Lia ZifyBool List Bool.
From S2P Require Import Prelude.
Import ListNotations.
Local Open Scope Z_scope.

(** ** Model *)

(** src/drizzled/calendar.h:41-41 JULIAN_DAY_NUMBER_AT_ABSOLUTE_DAY_ONE *)
Definition JULIAN_DAY_NUMBER_AT_ABSOLUTE_DAY_ONE : Z := 1721425.

(** src/drizzled/calendar.h:46-46 UNIX_EPOCH_MIN_YEARS *)
Definition UNIX_EPOCH_MIN_YEARS : Z := 1970.

(** src/drizzled/calendar.h:47-47 UNIX_EPOCH_MAX_YEARS *)
Definition UNIX_EPOCH_MAX_YEARS : Z := 2038.

(** src/drizzled/calendar.h:49-49 CALENDAR_YY_PART_YEAR *)
Definition CALENDAR_YY_PART_YEAR : Z := 70.

(** src/drizzled/calendar.h:68-77 calendar *)
Inductive calendar : Type := GREGORIAN | JULIAN | HEBREW | ISLAM.

(** src/drizzled/calendar.cc:47-47 __leap_days_in_month *)
Definition leap_days_in_month : list Z :=
  [31; 29; 31; 30; 31; 30; 31; 31; 30; 31; 30; 31].

(** src/drizzled/calendar.cc:48-48 __normal_days_in_month *)
Definition normal_days_in_month : list Z :=
  [31; 28; 31; 30; 31; 30; 31; 31; 30; 31; 30; 31].

(** src/drizzled/calendar.cc:49-49 __leap_days_to_end_month *)
Definition leap_days_to_end_month : list Z :=
  [0; 31; 60; 91; 121; 151; 182; 213; 244; 274; 305; 335; 366].

(** src/drizzled/calendar.cc:50-50 __normal_days_to_end_month *)
Definition normal_days_to_end_month : list Z :=
  [0; 31; 59; 90; 120; 150; 181; 212; 243; 273; 304; 334; 365].

(** src/drizzled/calendar.cc:225-234 days_in_year_julian

    The body is the comparison itself, so the result is 0 or 1. *)
Definition days_in_year_julian (year : Z) : Z :=
  if Z.land year 3 =? 0 then 1 else 0.

(** src/drizzled/calendar.cc:236-252 days_in_year_gregorian *)
Definition days_in_year_gregorian (year : Z) : Z :=
  if Z.land year 1 =? 1 then 365
  else if (Z.land year 3 =? 0)
          && (negb (year mod 100 =? 0)
              || ((year mod 400 =? 0) && negb (year =? 0)))
       then 366 else 365.

(** src/drizzled/calendar.cc:197-223 days_in_year *)
Definition days_in_year (year : Z) (c : calendar) : Z :=
  match c with
  | GREGORIAN => days_in_year_gregorian year
  | _ => days_in_year_julian year
  end.

(** src/drizzled/calendar.h:309-319 is_leap_year *)
Definition is_leap_year (y : Z) (c : calendar) : bool :=
  days_in_year y c =? 366.

(** src/drizzled/calendar.h:321-328 is_gregorian_leap_year *)
Definition is_gregorian_leap_year (y : Z) : bool :=
  days_in_year_gregorian y =? 366.

(** src/drizzled/calendar.h:330-337 is_julian_leap_year *)
Definition is_julian_leap_year (y : Z) : bool :=
  days_in_year_julian y =? 366.

(** src/drizzled/calendar.cc:52-62 days_in_month *)
Definition days_in_month (y : Z) (c : calendar) : list Z :=
  if is_leap_year y c then leap_days_in_month else normal_days_in_month.

(** src/drizzled/calendar.cc:64-70 days_to_end_month *)
Definition days_to_end_month (y : Z) (c : calendar) : list Z :=
  if is_leap_year y c then leap_days_to_end_month else normal_days_to_end_month.

(** src/drizzled/calendar.cc:73-110 julian_day_number_from_gregorian_date

    [14 - month] and its quotient are unsigned; the rest is [int64_t]. *)
Definition julian_day_number_from_gregorian_date (year month day : Z) : Z :=
  let a := u32 (14 - month) / 12 in
  let y := i64 (u32 (year + 4800) - a) in
  let m := i64 (month + 12 * a - 3) in
  i64 (day + (153 * m + 2) ÷ 5 + 365 * y + y ÷ 4 - y ÷ 100 + y ÷ 400 - 32045).

(** src/drizzled/calendar.cc:112-122 absolute_day_number_to_julian_day_number *)
Definition absolute_day_number_to_julian_day_number (absolute_day : Z) : Z :=
  i64 (absolute_day + JULIAN_DAY_NUMBER_AT_ABSOLUTE_DAY_ONE).

(** src/drizzled/calendar.cc:124-134 julian_day_number_to_absolute_day_number *)
Definition julian_day_number_to_absolute_day_number (julian_day : Z) : Z :=
  i64 (julian_day - JULIAN_DAY_NUMBER_AT_ABSOLUTE_DAY_ONE).

(** src/drizzled/calendar.cc:136-173 gregorian_date_from_julian_day_number

    The three out parameters are the result.  [(int64_t)((double)d + 1.5)]
    truncates towards zero; [d] is far below 2^52, so the sum is exact. *)
Definition gregorian_date_from_julian_day_number (julian_day : Z) : Z * Z * Z :=
  let j := i64 (julian_day + 32044) in
  let g := j ÷ 146097 in
  let dg := Z.rem j 146097 in
  let c := (dg ÷ 36524 + 1) * 3 ÷ 4 in
  let dc := dg - c * 36524 in
  let b := dc ÷ 1461 in
  let db := Z.rem dc 1461 in
  let a := (db ÷ 365 + 1) * 3 ÷ 4 in
  let da := db - a * 365 in
  let y := g * 400 + c * 100 + b * 4 + a in
  let m := (da * 5 + 308) ÷ 153 - 2 in
  let d := da - (m + 4) * 153 ÷ 5 + 122 in
  let Y := y - 4800 + (m + 2) ÷ 12 in
  let M := Z.rem (m + 2) 12 + 1 in
  let D := (2 * d + 3) ÷ 2 in
  (u32 Y, u32 M, u32 D).

(** src/drizzled/calendar.cc:175-195 gregorian_date_from_absolute_day_number *)
Definition gregorian_date_from_absolute_day_number (absolute_day : Z) : Z * Z * Z :=
  gregorian_date_from_julian_day_number
    (absolute_day_number_to_julian_day_number absolute_day).

(** src/drizzled/calendar.cc:254-287 day_of_week *)
Definition day_of_week (day_number : Z) (sunday_is_first_day_of_week : bool) : Z :=
  let tmp := u32 (Z.rem day_number 7) in
  if sunday_is_first_day_of_week
  then (if tmp =? 6 then 0 else u32 (tmp + 1))
  else tmp.

(** src/drizzled/calendar.cc:289-308 is_valid_gregorian_date

    [month - 1] indexes a 12 element array, so the caller guarantees
    [1 <= month <= 12]. *)
Definition is_valid_gregorian_date (year month day : Z) : bool :=
  if year <? 1 then false
  else if negb (month =? 2)
       then day <=? aget normal_days_in_month (u32 (month - 1))
       else day <=? aget (days_in_month year GREGORIAN) 1.

(** src/drizzled/calendar.cc:310-321 days_in_gregorian_year_month *)
Definition days_in_gregorian_year_month (year month : Z) : Z :=
  aget (days_in_month year GREGORIAN) (u32 (month - 1)).

(** src/drizzled/calendar.cc:323-379 in_unix_epoch_range *)
Definition in_unix_epoch_range (year month day hour minute second : Z) : bool :=
  if (month =? 0) || (day =? 0) then false
  else if (year <? UNIX_EPOCH_MAX_YEARS) && (year >=? UNIX_EPOCH_MIN_YEARS) then true
  else if year <? UNIX_EPOCH_MIN_YEARS then false
  else if year =? UNIX_EPOCH_MAX_YEARS then
    if month >? 1 then false
    else if day >? 19 then false
    else if day <? 19 then true
    else
      let seconds := u32 (hour * 60 * 60 + minute * 60 + second) in
      seconds <=? 3 * 60 * 60 + 14 * 60 + 7
  else false.

(** src/drizzled/calendar.cc:465-484 year_month_to_months *)
Definition year_month_to_months (year_month : Z) : Z :=
  if year_month =? 0 then 0
  else
    let years := year_month / 100 in
    let years := if years <? CALENDAR_YY_PART_YEAR then u32 (years + 2000)
                 else if years <? 100 then u32 (years + 1900) else years in
    let months := year_month mod 100 in
    u32 (years * 12 + u32 (months - 1)).

(** src/drizzled/calendar.cc:486-503 months_to_year_month *)
Definition months_to_year_month (months : Z) : Z :=
  if months =? 0 then 0
  else
    let years := months / 12 in
    let years := if years <? 100
                 then u32 (years + (if years <? CALENDAR_YY_PART_YEAR then 2000 else 1900))
                 else years in
    u32 (years * 100 + months mod 12 + 1).

(** ** Specification and lemmas *)

(** The dates the calendar code is meant for. *)
Definition valid_date (y m d : Z) : Prop :=
  1 <= y < 4294962496 /\ 1 <= m <= 12 /\ 1 <= d <= days_in_gregorian_year_month y m.

(** The Gregorian rule, stated with divisibility. *)
Definition gregorian_rule (y : Z) : Prop :=
  y mod 4 = 0 /\ (y mod 100 <> 0 \/ y mod 400 = 0).

(** The day after a date. *)
Definition next_day (y m d : Z) : Z * Z * Z :=
  if d <? days_in_gregorian_year_month y m then (y, m, d + 1)
  else if m <? 12 then (y, m + 1, 1)
  else (y + 1, 1, 1).

Definition lex_lt (y1 m1 d1 y2 m2 d2 : Z) : Prop :=
  y1 < y2 \/ (y1 = y2 /\ (m1 < m2 \/ (m1 = m2 /\ d1 < d2))).

Lemma land_3_mod y : Z.land y 3 = y mod 4.
Proof. exact (Z.land_ones y 2 ltac:(lia)). Qed.

Lemma land_1_mod y : Z.land y 1 = y mod 2.
Proof. exact (Z.land_ones y 1 ltac:(lia)). Qed.

Lemma days_in_year_gregorian_cases y : 1 <= y ->
  (gregorian_rule y /\ days_in_year_gregorian y = 366)
  \/ (~ gregorian_rule y /\ days_in_year_gregorian y = 365).
Proof.
  intros Hy; unfold days_in_year_gregorian, gregorian_rule.
  rewrite land_3_mod, land_1_mod; repeat case_if; dlia.
Qed.

Lemma month_cases (m : Z) : 1 <= m <= 12 ->
  m = 1 \/ m = 2 \/ m = 3 \/ m = 4 \/ m = 5 \/ m = 6 \/
  m = 7 \/ m = 8 \/ m = 9 \/ m = 10 \/ m = 11 \/ m = 12.
Proof. lia. Qed.

Ltac split_month H :=
  apply month_cases in H;
  repeat match type of H with _ \/ _ => destruct H as [H|H] end; subst.

Lemma days_in_month_table y m : 1 <= m <= 12 ->
  days_in_gregorian_year_month y m =
  if m =? 2 then (if days_in_year_gregorian y =? 366 then 29 else 28)
  else if (m =? 4) || (m =? 6) || (m =? 9) || (m =? 11) then 30 else 31.
Proof.
  intros Hm; unfold days_in_gregorian_year_month, days_in_month, is_leap_year.
  split_month Hm; cbn [days_in_year]; destruct (days_in_year_gregorian y =? 366);
  reflexivity.
Qed.

(** The day number with the machine conversions gone. *)
Definition jdn_z (y m d : Z) : Z :=
  let a := if m <=? 2 then 1 else 0 in
  let y' := y + 4800 - a in
  let m' := m + 12 * a - 3 in
  d + (153 * m' + 2) / 5 + 365 * y' + y' / 4 - y' / 100 + y' / 400 - 32045.

Lemma jdn_unwrap y m d :
  1 <= y < 4294962496 -> 1 <= m <= 12 -> 0 <= d < 4294967296 ->
  julian_day_number_from_gregorian_date y m d = jdn_z y m d.
Proof.
  intros Hy Hm Hd; unfold julian_day_number_from_gregorian_date, jdn_z.
  rewrite (u32_small (14 - m)), (u32_small (y + 4800)) by lia.
  replace ((14 - m) / 12) with (if m <=? 2 then 1 else 0) by (case_if; dlia).
  assert (0 <= (if m <=? 2 then 1 else 0) <= 1
          /\ 0 <= m + 12 * (if m <=? 2 then 1 else 0) - 3 <= 11) as [Ha Hm']
    by (case_if; lia).
  set (a := if m <=? 2 then 1 else 0) in *.
  rewrite (i64_small (y + 4800 - a)), (i64_small (m + 12 * a - 3)) by lia.
  rewrite !Z.quot_div_nonneg by lia.
  apply i64_small; dlia.
Qed.

Lemma valid_date_bounds y m d : valid_date y m d ->
  1 <= y < 4294962496 /\ 1 <= m <= 12 /\ 1 <= d <= 31.
Proof.
  intros (Hy & Hm & Hd); rewrite days_in_month_table in Hd by lia.
  repeat (destruct (_ : bool) in Hd); lia.
Qed.

Lemma jdn_valid y m d : valid_date y m d ->
  julian_day_number_from_gregorian_date y m d = jdn_z y m d.
Proof. intros H%valid_date_bounds; apply jdn_unwrap; lia. Qed.

(** *** Position of a day in the 400, 100, 4 and 1 year cycles *)

(** A March-based year [g c b a] with the rest-of-year days [doy]; only the
    last day of a leap year has [doy = 365]. *)
Definition cycle_ok (g c b a doy : Z) : Prop :=
  0 <= g /\ 0 <= c <= 3 /\ 0 <= b <= 24 /\ 0 <= a <= 3 /\ 0 <= doy <= 365 /\
  (doy = 365 -> a = 3 /\ (b <> 24 \/ c = 3)).

Definition cycle_year (g c b a : Z) : Z := 400 * g + 100 * c + 4 * b + a.

Definition cycle_day (g c b a doy : Z) : Z :=
  146097 * g + 36524 * c + 1461 * b + 365 * a + doy.

Lemma cycle_split y : 0 <= y -> exists g c b a,
  y = cycle_year g c b a /\ 0 <= g /\ 0 <= c <= 3 /\ 0 <= b <= 24 /\ 0 <= a <= 3 /\
  y / 4 = 100 * g + 25 * c + b /\ y / 100 = 4 * g + c /\ y / 400 = g.
Proof.
  intros Hy; unfold cycle_year.
  exists (y / 400), (y / 100 mod 4), (y / 4 mod 25), (y mod 4); dlia.
Qed.

Lemma cycle_day_of_year y g c b a doy :
  y = cycle_year g c b a -> 0 <= y ->
  y / 4 = 100 * g + 25 * c + b -> y / 100 = 4 * g + c -> y / 400 = g ->
  365 * y + y / 4 - y / 100 + y / 400 + doy = cycle_day g c b a doy.
Proof. unfold cycle_year, cycle_day; lia. Qed.

Lemma cycle_leap y g c b a : 0 <= y ->
  y = cycle_year g c b a -> 0 <= c <= 3 -> 0 <= b <= 24 -> 0 <= a <= 3 ->
  gregorian_rule (y + 1) <-> a = 3 /\ (b <> 24 \/ c = 3).
Proof. unfold gregorian_rule, cycle_year; intros; subst; split; dlia. Qed.

Lemma cycle_day_inv j : 0 <= j -> exists g c b a doy,
  cycle_ok g c b a doy /\ j = cycle_day g c b a doy.
Proof.
  intros Hj; unfold cycle_ok, cycle_day.
  set (g := j / 146097); set (dg := j mod 146097).
  set (c := Z.min 3 (dg / 36524)); set (dc := dg - 36524 * c).
  set (b := dc / 1461); set (db := dc mod 1461).
  set (a := Z.min 3 (db / 365)).
  exists g, c, b, a, (db - 365 * a).
  assert (0 <= dg < 146097 /\ j = 146097 * g + dg) as [Hdg Ej] by (unfold g, dg; dlia).
  assert (0 <= c <= 3 /\ 0 <= dc <= 36524 /\ (dc = 36524 -> c = 3)) as (Hc & Hdc & Lc)
    by (unfold dc, c in *; dlia).
  assert (0 <= b <= 24 /\ 0 <= db < 1461 /\ dc = 1461 * b + db) as (Hb & Hdb & Edc)
    by (unfold b, db; dlia).
  assert (0 <= a <= 3 /\ 0 <= db - 365 * a <= 365 /\ (db - 365 * a = 365 -> a = 3))
    as (Ha & Hdoy & La) by (unfold a; dlia).
  repeat split; try lia; unfold dc in *; lia.
Qed.

(** What the code computes from a day number, by cycle position. *)
Lemma gregorian_date_cycle g c b a doy :
  cycle_ok g c b a doy -> cycle_day g c b a doy < 9223372036854775808 ->
  let m := (doy * 5 + 308) / 153 - 2 in
  gregorian_date_from_julian_day_number (cycle_day g c b a doy - 32044) =
  (u32 (cycle_year g c b a - 4800 + (m + 2) / 12),
   u32 ((m + 2) mod 12 + 1),
   u32 (doy - (m + 4) * 153 / 5 + 122 + 1)).
Proof.
  intros (Hg & Hc & Hb & Ha & Hdoy & Hleap) Hmax m.
  unfold gregorian_date_from_julian_day_number.
  assert (0 <= cycle_day g c b a doy) by (unfold cycle_day; lia).
  rewrite (i64_small (_ - 32044 + 32044)) by lia.
  rewrite Z.sub_add.
  set (dg := 36524 * c + 1461 * b + 365 * a + doy).
  replace (cycle_day g c b a doy ÷ 146097) with g by (unfold cycle_day; dlia).
  replace (Z.rem (cycle_day g c b a doy) 146097) with dg by (unfold cycle_day, dg; dlia).
  replace ((dg ÷ 36524 + 1) * 3 ÷ 4) with c by (unfold dg; dlia).
  replace ((dg - c * 36524) ÷ 1461) with b by (unfold dg; dlia).
  replace (Z.rem (dg - c * 36524) 1461) with (365 * a + doy) by (unfold dg; dlia).
  replace (((365 * a + doy) ÷ 365 + 1) * 3 ÷ 4) with a by dlia.
  replace (365 * a + doy - a * 365) with doy by lia.
  rewrite (Z.quot_div_nonneg (doy * 5 + 308)) by lia.
  fold m.
  assert (0 <= m <= 11) by (unfold m; dlia).
  assert (0 <= doy - (m + 4) * 153 / 5 + 122) by (unfold m; dlia).
  rewrite (Z.quot_div_nonneg (m + 2)), (Z.quot_div_nonneg ((m + 4) * 153)),
    (Z.rem_mod_nonneg (m + 2)), (Z.quot_div_nonneg (2 * _ + 3)) by lia.
  f_equal; [f_equal; f_equal; unfold cycle_year; lia | f_equal; dlia].
Qed.

(** 1 for January and February, which the March-based year counts last. *)
Definition jan_feb (m : Z) : Z := if m <=? 2 then 1 else 0.

Definition day_of_march_year (m d : Z) : Z :=
  d - 1 + (153 * (m + 12 * jan_feb m - 3) + 2) / 5.

Lemma valid_date_leap_day y m d : valid_date y m d ->
  0 <= day_of_march_year m d <= 365 /\
  (day_of_march_year m d = 365 -> m = 2 /\ gregorian_rule y).
Proof.
  intros (Hy & Hm & Hd); rewrite days_in_month_table in Hd by lia.
  pose proof (days_in_year_gregorian_cases y ltac:(lia)) as Hl.
  unfold day_of_march_year, jan_feb.
  split_month Hm; cbn -[Z.mul Z.add Z.div Z.sub] in *; try dlia.
  destruct (days_in_year_gregorian y =? 366) eqn:E; split; try dlia;
  intros; split; [reflexivity|]; destruct Hl as [[Hr _]|[_ Hr]]; [exact Hr|]; dlia.
Qed.

Lemma date_cycle y m d : valid_date y m d -> exists g c b a,
  cycle_ok g c b a (day_of_march_year m d) /\
  julian_day_number_from_gregorian_date y m d
    = cycle_day g c b a (day_of_march_year m d) - 32044 /\
  cycle_year g c b a = y + 4800 - jan_feb m.
Proof.
  intros H; rewrite jdn_valid by exact H.
  destruct (valid_date_leap_day _ _ _ H) as [Hdoy Hl].
  apply valid_date_bounds in H as (Hy & Hm & Hd).
  assert (0 <= jan_feb m <= 1) by (unfold jan_feb; case_if; lia).
  destruct (cycle_split (y + 4800 - jan_feb m) ltac:(lia))
    as (g & c & b & a & Ey & Hg & Hc & Hb & Ha & E4 & E100 & E400).
  exists g, c, b, a; split; [|split; [|lia]].
  - unfold cycle_ok; repeat (split; [lia|]).
    intros E; destruct (Hl E) as [-> Hr].
    change (jan_feb 2) with 1 in *.
    eapply (cycle_leap (y + 4800 - 1)); try lia; try exact Ey.
    unfold gregorian_rule in *; dlia.
  - rewrite <- (cycle_day_of_year _ _ _ _ _ _ Ey ltac:(lia) E4 E100 E400).
    unfold jdn_z, day_of_march_year; fold (jan_feb m); lia.
Qed.

(** Decoding of the month and day from the day of the March-based year. *)
Lemma month_decode m d : 1 <= m <= 12 ->
  1 <= d <= (if m =? 2 then 29
             else if (m =? 4) || (m =? 6) || (m =? 9) || (m =? 11) then 30 else 31) ->
  let k := (day_of_march_year m d * 5 + 308) / 153 - 2 in
  (k + 2) / 12 = jan_feb m /\ (k + 2) mod 12 + 1 = m /\
  day_of_march_year m d - (k + 4) * 153 / 5 + 122 + 1 = d.
Proof.
  intros Hm Hd k; unfold k, day_of_march_year, jan_feb; clear k.
  split_month Hm; cbn -[Z.mul Z.add Z.div Z.sub Z.modulo] in *; dlia.
Qed.

Lemma day_of_march_year_surj doy : 0 <= doy <= 365 -> exists m d,
  1 <= m <= 12 /\ doy = day_of_march_year m d /\
  1 <= d <= (if m =? 2 then if doy =? 365 then 29 else 28
             else if (m =? 4) || (m =? 6) || (m =? 9) || (m =? 11) then 30 else 31).
Proof.
  intros Hdoy.
  set (k := (doy * 5 + 308) / 153 - 2).
  exists ((k + 2) mod 12 + 1), (doy - (k + 4) * 153 / 5 + 123).
  assert (0 <= k <= 11) as Hk by (unfold k; dlia).
  assert (153 * (k + 2) <= doy * 5 + 308 < 153 * (k + 3)) as Hk2 by (unfold k; dlia).
  clearbody k; unfold day_of_march_year, jan_feb.
  assert (k = 0 \/ k = 1 \/ k = 2 \/ k = 3 \/ k = 4 \/ k = 5 \/ k = 6 \/ k = 7 \/
          k = 8 \/ k = 9 \/ k = 10 \/ k = 11) as C by lia.
  repeat (destruct C as [->|C]); try subst k;
  cbn -[Z.mul Z.add Z.sub]; repeat case_if; try lia; dlia.
Qed.

Lemma valid_date_day_limit y m d : valid_date y m d ->
  1 <= d <= (if m =? 2 then 29
             else if (m =? 4) || (m =? 6) || (m =? 9) || (m =? 11) then 30 else 31).
Proof.
  intros (_ & Hm & Hd); rewrite days_in_month_table in Hd by lia.
  destruct (m =? 2); [|lia]; destruct (_ =? 366) in Hd; lia.
Qed.

Lemma jdn_lt_bound y m d : valid_date y m d ->
  1721426 <= julian_day_number_from_gregorian_date y m d < 9223372036854775808 - 32044.
Proof.
  intros H; rewrite jdn_valid by exact H; apply valid_date_bounds in H as (Hy & Hm & Hd).
  unfold jdn_z; case_if; dlia.
Qed.

Lemma valid_date_of_march y m d : 1 <= y < 4294962496 -> 1 <= m <= 12 ->
  1 <= d <= (if m =? 2 then if day_of_march_year m d =? 365 then 29 else 28
             else if (m =? 4) || (m =? 6) || (m =? 9) || (m =? 11) then 30 else 31) ->
  (day_of_march_year m d = 365 -> m = 2 -> gregorian_rule y) -> valid_date y m d.
Proof.
  intros Hy Hm Hd Hl; split; [lia|split; [lia|]].
  rewrite days_in_month_table by lia.
  pose proof (days_in_year_gregorian_cases y ltac:(lia)) as Hc.
  destruct (Z.eqb_spec m 2); [subst m|exact Hd].
  destruct (Z.eqb_spec (day_of_march_year 2 d) 365) as [E|E].
  - destruct Hc as [[_ ->]|[Hn _]]; [cbn; lia|exfalso; auto].
  - destruct Hc as [[_ ->]|[_ ->]]; cbn; lia.
Qed.

Lemma cycle_day_date g c b a doy y :
  cycle_ok g c b a doy -> cycle_year g c b a = y -> 4800 <= y < 4294967295 ->
  1721426 <= cycle_day g c b a doy - 32044 ->
  exists y' m d, valid_date y' m d /\
    julian_day_number_from_gregorian_date y' m d = cycle_day g c b a doy - 32044.
Proof.
  intros (Hg & Hc & Hb & Ha & Hdoy & Hleap) Ey Hy Hmin.
  destruct (day_of_march_year_surj doy Hdoy) as (m & d & Hm & -> & Hd).
  assert (0 <= jan_feb m <= 1) by (unfold jan_feb; case_if; lia).
  exists (y - 4800 + jan_feb m), m, d.
  assert (1 <= y - 4800 + jan_feb m).
  { enough (~ (y = 4800 /\ jan_feb m = 0)) by lia.
    intros [-> Hj]; unfold cycle_year, cycle_day, day_of_march_year in *.
    rewrite Hj in *; assert (3 <= m) by (unfold jan_feb in Hj; destruct (m <=? 2) eqn:E; lia).
    assert (d <= 31) by (repeat case_if_in Hd; lia).
    dlia. }
  assert (valid_date (y - 4800 + jan_feb m) m d) as V.
  { apply valid_date_of_march; try lia; intros E ->.
    change (jan_feb 2) with 1; destruct (Hleap E) as [-> Hbc].
    unfold gregorian_rule, cycle_year in *; dlia. }
  split; [exact V|].
  destruct (date_cycle _ _ _ V) as (g' & c' & b' & a' & Hok & -> & Ey').
  enough (g = g' /\ c = c' /\ b = b' /\ a = a') as (-> & -> & -> & ->) by reflexivity.
  destruct Hok as (? & ? & ? & ? & _); unfold cycle_year in *; lia.
Qed.

Lemma gregorian_of_valid y m d : valid_date y m d ->
  gregorian_date_from_julian_day_number (julian_day_number_from_gregorian_date y m d)
  = (y, m, d).
Proof.
  intros V; pose proof (jdn_lt_bound _ _ _ V) as Hb.
  destruct (date_cycle _ _ _ V) as (g & c & b & a & Hok & E & Ey); rewrite E in *.
  rewrite gregorian_date_cycle by (exact Hok || lia).
  pose proof (valid_date_day_limit _ _ _ V) as Hd.
  apply valid_date_bounds in V as (Hy & Hm & Hd').
  destruct (month_decode m d Hm Hd) as (E1 & E2 & E3).
  rewrite E1, E2, E3, Ey.
  replace (y + 4800 - jan_feb m - 4800 + jan_feb m) with y by lia.
  unwrap; reflexivity.
Qed.

Lemma jdn_surj j : 1721426 <= j < 1568000000000 -> exists y m d,
  valid_date y m d /\ julian_day_number_from_gregorian_date y m d = j.
Proof.
  intros Hj; destruct (cycle_day_inv (j + 32044) ltac:(lia)) as (g & c & b & a & doy & Hok & E).
  replace j with (cycle_day g c b a doy - 32044) in * by lia.
  apply (cycle_day_date g c b a doy (cycle_year g c b a)); auto; [|lia].
  destruct Hok as (? & ? & ? & ? & ? & _); unfold cycle_day, cycle_year in *; lia.
Qed.

Lemma jdn_mono y1 m1 d1 y2 m2 d2 :
  valid_date y1 m1 d1 -> valid_date y2 m2 d2 -> lex_lt y1 m1 d1 y2 m2 d2 ->
  julian_day_number_from_gregorian_date y1 m1 d1
  < julian_day_number_from_gregorian_date y2 m2 d2.
Proof.
  intros V1 V2 L.
  pose proof (valid_date_leap_day _ _ _ V1) as [R1 L1].
  pose proof (valid_date_leap_day _ _ _ V2) as [R2 L2].
  pose proof (valid_date_day_limit _ _ _ V1) as D1.
  rewrite !jdn_valid by assumption.
  apply valid_date_bounds in V1 as (Hy1 & Hm1 & Hd1), V2 as (Hy2 & Hm2 & Hd2).
  replace (jdn_z y1 m1 d1) with
    (let z := y1 + 4800 - jan_feb m1 in
     365 * z + z / 4 - z / 100 + z / 400 + day_of_march_year m1 d1 - 32044)
    by (unfold jdn_z, day_of_march_year, jan_feb; cbv zeta; case_if; lia).
  replace (jdn_z y2 m2 d2) with
    (let z := y2 + 4800 - jan_feb m2 in
     365 * z + z / 4 - z / 100 + z / 400 + day_of_march_year m2 d2 - 32044)
    by (unfold jdn_z, day_of_march_year, jan_feb; cbv zeta; case_if; lia).
  cbv zeta.
  set (z1 := y1 + 4800 - jan_feb m1) in *; set (z2 := y2 + 4800 - jan_feb m2) in *.
  assert (z1 < z2 \/ (z1 = z2 /\ day_of_march_year m1 d1 < day_of_march_year m2 d2)) as [Hz|[-> Hz]].
  { unfold z1, z2, day_of_march_year, jan_feb.
    destruct (Z.leb_spec m1 2), (Z.leb_spec m2 2); unfold lex_lt in L;
    (destruct (Z.eq_dec m1 m2); [subst m2; lia|]);
    repeat case_if_in D1; dlia. }
  - assert (day_of_march_year m1 d1 = 365 -> gregorian_rule (z1 + 1)) as L1'.
    { intros E; destruct (L1 E) as [-> Hr]; unfold z1; change (jan_feb 2) with 1.
      unfold gregorian_rule in *; dlia. }
    destruct (Z.eq_dec (day_of_march_year m1 d1) 365) as [E|E].
    + specialize (L1' E); unfold gregorian_rule in L1'; dlia.
    + dlia.
  - lia.
Qed.

Lemma next_day_valid y m d : valid_date y m d -> y < 4294962495 ->
  let '(y', m', d') := next_day y m d in
  valid_date y' m' d' /\
  julian_day_number_from_gregorian_date y' m' d'
  = julian_day_number_from_gregorian_date y m d + 1.
Proof.
  intros V Hlast; pose proof V as (Hy & Hm & Hd).
  assert (let '(y', m', d') := next_day y m d in
    1 <= y' < 4294962496 /\ 1 <= m' <= 12 /\ 1 <= d' <= days_in_gregorian_year_month y' m') as V'.
  { unfold next_day; destruct (Z.ltb_spec d (days_in_gregorian_year_month y m)) as [L|L];
    [lia|]; destruct (Z.ltb_spec m 12);
    (split; [lia|split; [lia|]]; rewrite days_in_month_table by lia; repeat case_if; lia). }
  unfold next_day in *; destruct (Z.ltb_spec d (days_in_gregorian_year_month y m)) as [L|L];
  [|destruct (Z.ltb_spec m 12)]; (split; [exact V'|]).
  - rewrite !jdn_valid by assumption; unfold jdn_z; lia.
  - rewrite !jdn_valid by assumption.
    rewrite days_in_month_table in Hd, L by lia.
    pose proof (days_in_year_gregorian_cases y ltac:(lia)) as Hl.
    unfold gregorian_rule in Hl; clear V V' Hlast.
    split_month Hm; cbn -[Z.mul Z.add Z.div Z.sub Z.modulo] in Hd, L;
    unfold jdn_z;
    repeat match goal with |- context [if ?k <=? 2 then _ else _] =>
      let b := eval vm_compute in (k <=? 2) in change (k <=? 2) with b end;
    cbv iota; try dlia.
    destruct (Z.eqb_spec (days_in_year_gregorian y) 366) as [E|E];
    destruct Hl as [[Hr Er]|[Hr Er]]; try lia; dlia.
  - rewrite !jdn_valid by assumption; rewrite days_in_month_table in Hd, L by lia.
    replace m with 12 in * by lia; cbn in Hd, L; unfold jdn_z; cbn -[Z.mul Z.add Z.div Z.sub].
    dlia.
Qed.

Lemma days_in_month_range y m : 1 <= m <= 12 ->
  28 <= days_in_gregorian_year_month y m <= 31.
Proof. intros Hm; rewrite days_in_month_table by exact Hm; repeat case_if; lia. Qed.

(** The first of the next month, resp. year, comes one month length later. *)
Lemma month_start_succ y m : 1 <= y < 4294962495 -> 1 <= m <= 12 ->
  (if m <? 12 then jdn_z y (m + 1) 1 else jdn_z (y + 1) 1 1)
  = jdn_z y m 1 + days_in_gregorian_year_month y m.
Proof.
  intros Hy Hm; pose proof (days_in_month_range y m Hm) as Hr.
  assert (valid_date y m (days_in_gregorian_year_month y m)) as V
    by (split; [lia|split; [lia|lia]]).
  pose proof (next_day_valid _ _ _ V ltac:(lia)) as N; unfold next_day in N.
  rewrite Z.ltb_irrefl, (jdn_valid _ _ _ V) in N.
  destruct (m <? 12); destruct N as [V' N]; rewrite (jdn_valid _ _ _ V') in N;
  rewrite N; unfold jdn_z; lia.
Qed.

Lemma lex_lt_total y1 m1 d1 y2 m2 d2 :
  lex_lt y1 m1 d1 y2 m2 d2 \/ (y1 = y2 /\ m1 = m2 /\ d1 = d2) \/ lex_lt y2 m2 d2 y1 m1 d1.
Proof. unfold lex_lt; lia. Qed.

Lemma jdn_order y1 m1 d1 y2 m2 d2 : valid_date y1 m1 d1 -> valid_date y2 m2 d2 ->
  (julian_day_number_from_gregorian_date y1 m1 d1
   < julian_day_number_from_gregorian_date y2 m2 d2
   <-> lex_lt y1 m1 d1 y2 m2 d2).
Proof.
  intros V1 V2; split; [|apply jdn_mono; assumption]; intros L.
  destruct (lex_lt_total y1 m1 d1 y2 m2 d2) as [|[(-> & -> & ->)|G]]; [assumption|lia|].
  pose proof (jdn_mono _ _ _ _ _ _ V2 V1 G); lia.
Qed.

Lemma jdn_inj y1 m1 d1 y2 m2 d2 : valid_date y1 m1 d1 -> valid_date y2 m2 d2 ->
  julian_day_number_from_gregorian_date y1 m1 d1
  = julian_day_number_from_gregorian_date y2 m2 d2 -> y1 = y2 /\ m1 = m2 /\ d1 = d2.
Proof.
  intros V1 V2 E; destruct (lex_lt_total y1 m1 d1 y2 m2 d2) as [G|[|G]]; [|assumption|];
  apply jdn_order in G; auto; lia.
Qed.

Lemma jdn_le_9999 y m d : valid_date y m d ->
  julian_day_number_from_gregorian_date y m d <= 5373484 -> y <= 9999.
Proof.
  intros V L; destruct (Z.le_gt_cases y 9999) as [|Hy]; [assumption|exfalso].
  assert (valid_date 9999 12 31) as V9 by (vm_compute; intuition discriminate).
  pose proof (jdn_mono _ _ _ _ _ _ V9 V ltac:(unfold lex_lt; lia)) as G.
  change (julian_day_number_from_gregorian_date 9999 12 31) with 5373484 in G; lia.
Qed.

(** ** Properties *)

(** C21. Decoding the Julian day number of a valid Gregorian date gives the
    date back: [gregorian_date_from_julian_day_number] is a left inverse of
    [julian_day_number_from_gregorian_date]. *)
Theorem date_of_day_number_of_date y m d : valid_date y m d ->
  gregorian_date_from_julian_day_number (julian_day_number_from_gregorian_date y m d)
  = (y, m, d).
Proof. apply gregorian_of_valid. Qed.

Lemma date_of_day_number_of_date_witness :
  gregorian_date_from_julian_day_number (julian_day_number_from_gregorian_date 2012 2 29)
  = (2012, 2, 29).
Proof. apply date_of_day_number_of_date; vm_compute; intuition discriminate. Defined.

(** Every day number from 0001-01-01 on is decoded into a valid date whose
    day number is the one decoded: the two conversions are inverse bijections. *)
Theorem day_number_of_date_of_day_number j : 1721426 <= j < 1568000000000 ->
  let '(y, m, d) := gregorian_date_from_julian_day_number j in
  valid_date y m d /\ julian_day_number_from_gregorian_date y m d = j.
Proof.
  intros Hj; destruct (jdn_surj j Hj) as (y & m & d & V & <-).
  rewrite gregorian_of_valid; auto.
Qed.

Lemma day_number_of_date_of_day_number_witness :
  let '(y, m, d) := gregorian_date_from_julian_day_number 2451545 in
  valid_date y m d /\ julian_day_number_from_gregorian_date y m d = 2451545.
Proof. apply (day_number_of_date_of_day_number 2451545); lia. Defined.

(** The day number counts days: the day after a valid date is valid and has
    the next day number, and 0001-01-01 has absolute day number 1. *)
Theorem day_number_counts_days y m d : valid_date y m d -> y < 4294962495 ->
  julian_day_number_to_absolute_day_number (julian_day_number_from_gregorian_date 1 1 1) = 1 /\
  let '(y', m', d') := next_day y m d in
  valid_date y' m' d' /\
  julian_day_number_from_gregorian_date y' m' d'
  = julian_day_number_from_gregorian_date y m d + 1.
Proof. intros V Hy; split; [reflexivity|]; apply next_day_valid; assumption. Qed.

Lemma day_number_counts_days_witness :
  julian_day_number_to_absolute_day_number (julian_day_number_from_gregorian_date 1 1 1) = 1 /\
  let '(y', m', d') := next_day 1900 2 28 in
  valid_date y' m' d' /\
  julian_day_number_from_gregorian_date y' m' d'
  = julian_day_number_from_gregorian_date 1900 2 28 + 1.
Proof.
  apply (day_number_counts_days 1900 2 28); [vm_compute; intuition discriminate|lia].
Defined.

(** Comparing Julian day numbers is comparing dates: on valid dates the
    order of the day numbers is the lexicographic order of (year, month, day). *)
Theorem day_number_order y1 m1 d1 y2 m2 d2 :
  valid_date y1 m1 d1 -> valid_date y2 m2 d2 ->
  (julian_day_number_from_gregorian_date y1 m1 d1
   < julian_day_number_from_gregorian_date y2 m2 d2
   <-> lex_lt y1 m1 d1 y2 m2 d2).
Proof.
  apply jdn_order.
Qed.

Lemma day_number_order_witness :
  (julian_day_number_from_gregorian_date 1999 12 31
   < julian_day_number_from_gregorian_date 2000 1 1
   <-> lex_lt 1999 12 31 2000 1 1).
Proof. apply day_number_order; vm_compute; intuition discriminate. Defined.

(** Seconds since 1970-01-01 00:00:00 of a date and time (2440588 is the day
    number of 1970-01-01). *)
Definition unix_seconds (y m d hour minute second : Z) : Z :=
  (julian_day_number_from_gregorian_date y m d - 2440588) * 86400
  + hour * 3600 + minute * 60 + second.

Lemma unix_day_range y m d : valid_date y m d ->
  (y < 1970 -> julian_day_number_from_gregorian_date y m d < 2440588) /\
  (1970 <= y -> 2440588 <= julian_day_number_from_gregorian_date y m d) /\
  (y < 2038 -> julian_day_number_from_gregorian_date y m d < 2465425) /\
  (y = 2038 -> m = 1 -> julian_day_number_from_gregorian_date y m d = 2465424 + d) /\
  (y = 2038 -> 2 <= m -> 2465456 <= julian_day_number_from_gregorian_date y m d) /\
  (2039 <= y -> 2465456 <= julian_day_number_from_gregorian_date y m d).
Proof.
  intros V; pose proof (valid_date_bounds _ _ _ V) as (Hy & Hm & Hd).
  rewrite jdn_valid by exact V; unfold jdn_z.
  pose proof (valid_date_day_limit _ _ _ V) as D.
  destruct (Z.leb_spec m 2).
  - repeat split; intros; try subst y; try dlia.
  - repeat split; intros; try subst y; dlia.
Qed.

Lemma in_unix_epoch_range_iff y m d hour minute second :
  valid_date y m d -> 0 <= hour <= 23 -> 0 <= minute <= 59 -> 0 <= second <= 59 ->
  (in_unix_epoch_range y m d hour minute second = true
   <-> 0 <= unix_seconds y m d hour minute second <= 2147483647).
Proof.
  intros V Hh Hmi Hs; pose proof (unix_day_range _ _ _ V) as (R1 & R2 & R3 & R4 & R5 & R6).
  apply valid_date_bounds in V as (Hy & Hm & Hd).
  unfold in_unix_epoch_range, unix_seconds, UNIX_EPOCH_MIN_YEARS, UNIX_EPOCH_MAX_YEARS.
  rewrite (u32_small (_ * _ * _ + _ + _)) by lia.
  generalize dependent (julian_day_number_from_gregorian_date y m d); intros j R1 R2 R3 R4 R5 R6.
  repeat case_if; lia.
Qed.

(** [in_unix_epoch_range] accepts exactly the valid dates and times whose
    seconds since 1970-01-01 00:00:00 fit a signed 32-bit [time_t]. *)
Theorem unix_epoch_range_exact y m d hour minute second :
  valid_date y m d -> 0 <= hour <= 23 -> 0 <= minute <= 59 -> 0 <= second <= 59 ->
  (in_unix_epoch_range y m d hour minute second = true
   <-> 0 <= unix_seconds y m d hour minute second <= 2147483647).
Proof. apply in_unix_epoch_range_iff. Qed.

Lemma unix_epoch_range_exact_witness :
  (in_unix_epoch_range 2038 1 19 3 14 7 = true
   <-> 0 <= unix_seconds 2038 1 19 3 14 7 <= 2147483647)
  /\ (in_unix_epoch_range 2038 1 19 3 14 8 = true
   <-> 0 <= unix_seconds 2038 1 19 3 14 8 <= 2147483647).
Proof.
  split; apply unix_epoch_range_exact; try lia; vm_compute; intuition discriminate.
Defined.

(** A period [YYYYMM] survives the conversion to months and back; a two
    digit year is first expanded to 1970-2069. *)
Theorem period_round_trip y m :
  0 <= y < 42949670 -> 1 <= m <= 12 ->
  let Y := if y <? 70 then y + 2000 else if y <? 100 then y + 1900 else y in
  year_month_to_months (y * 100 + m) = Y * 12 + m - 1 /\
  months_to_year_month (year_month_to_months (y * 100 + m)) = Y * 100 + m.
Proof.
  intros Hy Hm Y.
  assert (year_month_to_months (y * 100 + m) = Y * 12 + m - 1) as E.
  { unfold year_month_to_months, CALENDAR_YY_PART_YEAR.
    destruct (Z.eqb_spec (y * 100 + m) 0); [lia|].
    replace ((y * 100 + m) / 100) with y by dlia.
    replace ((y * 100 + m) mod 100) with m by dlia.
    subst Y; repeat case_if; unwrap; lia. }
  split; [exact E|rewrite E].
  assert (100 <= Y < 42949670) by (subst Y; repeat case_if; lia).
  clearbody Y; unfold months_to_year_month.
  destruct (Z.eqb_spec (Y * 12 + m - 1) 0); [lia|].
  replace ((Y * 12 + m - 1) / 12) with Y by dlia.
  replace ((Y * 12 + m - 1) mod 12) with (m - 1) by dlia.
  destruct (Z.ltb_spec Y 100); [lia|]; unwrap; lia.
Qed.

Lemma period_round_trip_witness :
  year_month_to_months (69 * 100 + 7) = 2069 * 12 + 7 - 1 /\
  months_to_year_month (year_month_to_months (69 * 100 + 7)) = 2069 * 100 + 7.
Proof. apply (period_round_trip 69 7); lia. Defined.

(** The Julian proleptic branch of the calendar never finds a leap year:
    [days_in_year_julian] returns the truth value of its test instead of a
    number of days. *)
Theorem julian_calendar_has_no_leap_year y :
  is_leap_year y JULIAN = false /\ is_julian_leap_year y = false.
Proof.
  unfold is_leap_year, is_julian_leap_year; cbn [days_in_year].
  unfold days_in_year_julian; case_if; split; reflexivity.
Qed.
