(* ===== verification/TimeTypes.v ===== *)
(** The broken-down time of [src/drizzled/type/time.h] ([type::Time]), the C
    library's [struct tm] and the constants both parts of the time code use. *)

From Stdlib Require Import ZArith Lia ZifyBool List Bool.
From S2P Require Import Prelude.
Import ListNotations.
Local Open Scope Z_scope.

(** src/drizzled/type/time.h:84-88 timestamp_t *)
Inductive timestamp_t : Type :=
| DRIZZLE_TIMESTAMP_NONE | DRIZZLE_TIMESTAMP_ERROR
| DRIZZLE_TIMESTAMP_DATE | DRIZZLE_TIMESTAMP_DATETIME | DRIZZLE_TIMESTAMP_TIME.

(** src/drizzled/type/time.h:84-88 timestamp_t

    The values of the enumerators; the code orders them as integers. *)
Definition timestamp_code (t : timestamp_t) : Z :=
  match t with
  | DRIZZLE_TIMESTAMP_NONE => -2
  | DRIZZLE_TIMESTAMP_ERROR => -1
  | DRIZZLE_TIMESTAMP_DATE => 0
  | DRIZZLE_TIMESTAMP_DATETIME => 1
  | DRIZZLE_TIMESTAMP_TIME => 2
  end.

(** src/drizzled/type/time.h:90-95 cut_t *)
Inductive cut_t : Type := VALID | CUT | INVALID.

(** src/drizzled/type/time.h:151-154 Time *)
Record Time : Type := mkTime {
  year : Z; month : Z; day : Z; hour : Z; minute : Z; second : Z;
  second_part : Z; neg : bool; time_type : timestamp_t }.

(** src/drizzled/type/time.h:156-161 Time::reset *)
Definition reset : Time :=
  mkTime 0 0 0 0 0 0 0 false DRIZZLE_TIMESTAMP_DATE.

(** src/drizzled/type/time.h:97-104 is_valid *)
Definition datetime_is_valid (value : Z) : bool := negb (value =? -1).

(** src/drizzled/type/time.h:46-47 YY_PART_YEAR *)
Definition YY_PART_YEAR : Z := 70.

(** src/drizzled/type/time.h:41-44 TIMESTAMP_MIN_YEAR *)
Definition TIMESTAMP_MIN_YEAR : Z := 1900 + YY_PART_YEAR - 1.
Definition TIMESTAMP_MIN_VALUE : Z := 1.

(** src/drizzled/type/time.h:49-51 TIME_FUZZY_DATE *)
Definition TIME_FUZZY_DATE : Z := 1.
Definition TIME_DATETIME_ONLY : Z := 2.

(** src/drizzled/type/time.h:53-58 TIME_NO_ZERO_IN_DATE *)
Definition TIME_NO_ZERO_IN_DATE : Z := 65536 * 2 * 2 * 2 * 2 * 2 * 2 * 2.
Definition TIME_NO_ZERO_DATE : Z := TIME_NO_ZERO_IN_DATE * 2.
Definition TIME_INVALID_DATES : Z := TIME_NO_ZERO_DATE * 2.

(** src/drizzled/type/time.h:60-61 DRIZZLE_TIME_WARN_TRUNCATED *)
Definition DRIZZLE_TIME_WARN_TRUNCATED : Z := 1.
Definition DRIZZLE_TIME_WARN_OUT_OF_RANGE : Z := 2.

(** src/drizzled/type/time.h:63-66 TIME_MAX_HOUR *)
Definition TIME_MAX_HOUR : Z := 838.
Definition TIME_MAX_MINUTE : Z := 59.
Definition TIME_MAX_SECOND : Z := 59.

(** src/drizzled/type/time.h:191-199 Time::isValidEpoch *)
Definition isValidEpoch (t : Time) : bool :=
  negb ((year t <? TIMESTAMP_MIN_YEAR)
        || ((year t =? TIMESTAMP_MIN_YEAR) && ((month t <? 12) || (day t <? 31)))).

(** The fields of the C library's [struct tm] the sources use. *)
Record tm : Type := mkTm {
  tm_sec : Z; tm_min : Z; tm_hour : Z; tm_mday : Z; tm_mon : Z; tm_year : Z;
  tm_wday : Z; tm_yday : Z; tm_isdst : Z }.
