(* ===== verification/GmTime.v ===== *)
(** The broken-down UTC time of an epoch value:
    [src/drizzled/util/gmtime.cc], both overloads.

    The year loop of the source runs until the remaining days fit the year;
    it is modelled with as many steps of fuel as years can pass
    ([dayno / 365 + 1]), and [gmtime_tm_correct] shows that the loop has always
    reached its exit condition by then.  The month loop needs at most 11 steps. *)

From Stdlib Require Import ZArith Lia ZifyBool List Bool.
From S2P Require Import Prelude Calendar TimeTypes.
Import ListNotations.
Local Open Scope Z_scope.

(** ** Model *)

(** src/drizzled/util/gmtime.cc:42-44 SECS_DAY *)
Definition YEAR0 : Z := 1900.
Definition EPOCH_YR : Z := 1970.
Definition SECS_DAY : Z := 24 * 60 * 60.

(** src/drizzled/util/gmtime.cc:45-45 LEAPYEAR *)
Definition LEAPYEAR (y : Z) : bool :=
  (Z.rem y 4 =? 0) && (negb (Z.rem y 100 =? 0) || (Z.rem y 400 =? 0)).

(** src/drizzled/util/gmtime.cc:46-46 YEARSIZE *)
Definition YEARSIZE (y : Z) : Z := if LEAPYEAR y then 366 else 365.

(** src/drizzled/util/gmtime.cc:52-56 _ytab *)
Definition ytab (leap : bool) : list Z :=
  if leap then [31; 29; 31; 30; 31; 30; 31; 31; 30; 31; 30; 31]
  else [31; 28; 31; 30; 31; 30; 31; 31; 30; 31; 30; 31].

(** src/drizzled/util/gmtime.cc:73-77 gmtime *)
Fixpoint year_loop (fuel : nat) (dayno y : Z) : Z * Z :=
  match fuel with
  | O => (dayno, y)
  | S fuel' =>
      if dayno >=? YEARSIZE y
      then year_loop fuel' (u64 (dayno - YEARSIZE y)) (i32 (y + 1))
      else (dayno, y)
  end.

(** src/drizzled/util/gmtime.cc:81-85 gmtime *)
Fixpoint month_loop (fuel : nat) (dayno mon : Z) (leap : bool) : Z * Z :=
  match fuel with
  | O => (dayno, mon)
  | S fuel' =>
      if dayno >=? aget (ytab leap) mon
      then month_loop fuel' (u64 (dayno - aget (ytab leap) mon)) (i32 (mon + 1)) leap
      else (dayno, mon)
  end.

Definition year_fuel (dayno : Z) : nat := Z.to_nat (dayno / 365 + 1).

(** src/drizzled/util/gmtime.cc:58-90 gmtime

    [None] is the null pointer. *)
Definition gmtime_tm (timer : Z) : option tm :=
  if timer <? 0 then None
  else
    let dayclock := u64 timer mod SECS_DAY in
    let dayno := u64 timer / SECS_DAY in
    let sec := dayclock mod 60 in
    let min := dayclock mod 3600 / 60 in
    let hr := dayclock / 3600 in
    let wday := (dayno + 4) mod 7 in
    let '(dayno, y) := year_loop (year_fuel dayno) dayno EPOCH_YR in
    let yday := dayno in
    let '(dayno, mon) := month_loop 12 dayno 0 (LEAPYEAR y) in
    Some (mkTm sec min hr (i32 (dayno + 1)) mon (i32 (y - YEAR0)) wday yday 0).

(** src/drizzled/util/gmtime.cc:92-122 gmtime

    The overload that fills a [type::Time], left alone for a negative timer;
    its month counter starts at the 0 set by [reset]. *)
Definition gmtime_Time (timer : Z) (tmbuf : Time) : Time :=
  if timer <? 0 then tmbuf
  else
    let dayclock := u64 timer mod SECS_DAY in
    let dayno := u64 timer / SECS_DAY in
    let '(dayno, y) := year_loop (year_fuel dayno) dayno EPOCH_YR in
    let '(dayno, mon) := month_loop 12 dayno (month reset) (LEAPYEAR y) in
    mkTime (u32 y) (u32 (mon + 1)) (u32 (dayno + 1))
           (dayclock / 3600) (dayclock mod 3600 / 60) (dayclock mod 60)
           (second_part reset) (neg reset) DRIZZLE_TIMESTAMP_DATETIME.

(** ** Lemmas *)

Lemma YEARSIZE_gregorian y : 1 <= y -> YEARSIZE y = days_in_year_gregorian y.
Proof.
  intros Hy; unfold YEARSIZE, LEAPYEAR.
  rewrite !Z.rem_mod_nonneg by lia.
  destruct (days_in_year_gregorian_cases y Hy) as [[Hr ->]|[Hr ->]];
  unfold gregorian_rule in Hr; case_if; lia.
Qed.

Lemma LEAPYEAR_gregorian y : 1 <= y -> LEAPYEAR y = (days_in_year_gregorian y =? 366).
Proof.
  intros Hy; rewrite <- YEARSIZE_gregorian by exact Hy.
  unfold YEARSIZE; destruct (LEAPYEAR y); reflexivity.
Qed.

Lemma year_start_succ y : 1 <= y < 4294962495 ->
  jdn_z (y + 1) 1 1 = jdn_z y 1 1 + YEARSIZE y.
Proof.
  intros Hy; rewrite YEARSIZE_gregorian by lia.
  destruct (days_in_year_gregorian_cases y ltac:(lia)) as [[Hr ->]|[Hr ->]];
  unfold gregorian_rule in Hr; unfold jdn_z; cbn -[Z.mul Z.add Z.div Z.sub]; dlia.
Qed.

Lemma year_loop_spec fuel : forall dayno y,
  1 <= y -> y + dayno / 365 < 2147483647 -> 0 <= dayno < 18446744073709551616 ->
  (Z.to_nat (dayno / 365) < fuel)%nat ->
  let '(dayno', y') := year_loop fuel dayno y in
  y <= y' < 2147483648 /\ 0 <= dayno' < YEARSIZE y' /\
  jdn_z y' 1 1 + dayno' = jdn_z y 1 1 + dayno.
Proof.
  induction fuel as [|fuel IH]; intros dayno y Hy Hmax Hd Hf; [lia|].
  assert (365 <= YEARSIZE y <= 366) by (unfold YEARSIZE; case_if; lia).
  cbn [year_loop]; rewrite Z.geb_leb; destruct (Z.leb_spec (YEARSIZE y) dayno).
  - assert (1 <= dayno / 365 /\ (dayno - YEARSIZE y) / 365 <= dayno / 365 - 1
            /\ 0 <= (dayno - YEARSIZE y) / 365) as (? & ? & ?) by dlia.
    unwrap.
    specialize (IH (dayno - YEARSIZE y) (y + 1) ltac:(lia) ltac:(lia) ltac:(lia) ltac:(lia)).
    destruct (year_loop fuel _ _) as [dayno' y'].
    rewrite year_start_succ in IH by lia; lia.
  - assert (0 <= dayno / 365) by dlia; lia.
Qed.

Lemma month_loop_spec y : 1 <= y < 4294962495 -> forall fuel mon dayno,
  0 <= mon <= 11 -> 0 <= dayno < 366 -> (12 - Z.to_nat mon <= fuel)%nat ->
  jdn_z y (mon + 1) 1 + dayno < jdn_z y 1 1 + YEARSIZE y ->
  let '(dayno', mon') := month_loop fuel dayno mon (LEAPYEAR y) in
  0 <= mon' <= 11 /\ 0 <= dayno' < days_in_gregorian_year_month y (mon' + 1) /\
  jdn_z y (mon' + 1) 1 + dayno' = jdn_z y (mon + 1) 1 + dayno.
Proof.
  intros Hy; induction fuel as [|fuel IH]; intros mon dayno Hmon Hd Hf Hlt; [lia|].
  assert (aget (ytab (LEAPYEAR y)) mon = days_in_gregorian_year_month y (mon + 1)) as Et.
  { unfold days_in_gregorian_year_month, days_in_month, is_leap_year.
    rewrite LEAPYEAR_gregorian by lia; cbn [days_in_year].
    replace (u32 (mon + 1 - 1)) with mon by (unwrap; lia).
    destruct (_ =? 366); reflexivity. }
  cbn [month_loop]; rewrite Et, Z.geb_leb.
  pose proof (days_in_month_table y (mon + 1) ltac:(lia)) as Ht.
  pose proof (days_in_month_range y (mon + 1) ltac:(lia)).
  destruct (Z.leb_spec (days_in_gregorian_year_month y (mon + 1)) dayno); [|lia].
  pose proof (month_start_succ y (mon + 1) ltac:(lia) ltac:(lia)) as Ms.
  destruct (Z.ltb_spec (mon + 1) 12).
  - rewrite (u64_small (dayno - _)), (i32_small (mon + 1)) by lia.
    specialize (IH (mon + 1) (dayno - days_in_gregorian_year_month y (mon + 1))
                  ltac:(lia) ltac:(lia) ltac:(lia)).
    destruct (month_loop fuel _ _ _) as [dayno' mon'].
    rewrite Ms in IH; lia.
  - rewrite year_start_succ in Ms by lia; lia.
Qed.

Lemma jdn_1970 : jdn_z 1970 1 1 = 2440588.
Proof. reflexivity. Qed.

Lemma jdn_z_day y m d : jdn_z y m d = jdn_z y m 1 + (d - 1).
Proof. unfold jdn_z; lia. Qed.

(** What both overloads compute: the year, month and rest of a day count
    since 1970-01-01. *)
Lemma day_split_spec dayno : 0 <= dayno < 783000000000 ->
  let '(yday, y) := year_loop (year_fuel dayno) dayno EPOCH_YR in
  let '(mday, mon) := month_loop 12 yday 0 (LEAPYEAR y) in
  1970 <= y < 2147483648 /\ 0 <= mon <= 11 /\
  valid_date y (mon + 1) (mday + 1) /\
  julian_day_number_from_gregorian_date y (mon + 1) (mday + 1) = 2440588 + dayno /\
  julian_day_number_from_gregorian_date y 1 1 + yday = 2440588 + dayno /\
  0 <= yday < YEARSIZE y.
Proof.
  intros Hd; unfold EPOCH_YR, year_fuel.
  assert (0 <= dayno / 365 < 2145205480) by dlia.
  pose proof (year_loop_spec (Z.to_nat (dayno / 365 + 1)) dayno 1970
    ltac:(lia) ltac:(lia) ltac:(lia) ltac:(lia)) as Y.
  destruct (year_loop _ _ _) as [yday y]; destruct Y as (Hy & Hyd & Ey).
  assert (YEARSIZE y <= 366) by (unfold YEARSIZE; case_if; lia).
  pose proof (month_loop_spec y ltac:(lia) 12 0 yday ltac:(lia) ltac:(lia) ltac:(lia)
    ltac:(change (0 + 1) with 1; lia)) as M.
  destruct (month_loop _ _ _ _) as [mday mon]; destruct M as (Hmon & Hmd & Em).
  change (0 + 1) with 1 in Em.
  assert (valid_date y (mon + 1) (mday + 1)) as V by (split; [lia|split; lia]).
  rewrite (jdn_valid _ _ _ V), (jdn_unwrap y 1 1), jdn_z_day, jdn_1970 in * by lia.
  repeat split; try lia; apply V.
Qed.

Lemma gmtime_tm_spec timer :
  0 <= timer < 67651200000000000 ->
  exists t, gmtime_tm timer = Some t /\
    let y := tm_year t + 1900 in
    valid_date y (tm_mon t + 1) (tm_mday t) /\
    0 <= tm_hour t <= 23 /\ 0 <= tm_min t <= 59 /\ 0 <= tm_sec t <= 59 /\
    unix_seconds y (tm_mon t + 1) (tm_mday t) (tm_hour t) (tm_min t) (tm_sec t) = timer /\
    tm_wday t = day_of_week
      (julian_day_number_from_gregorian_date y (tm_mon t + 1) (tm_mday t)) true /\
    julian_day_number_from_gregorian_date y 1 1 + tm_yday t
    = julian_day_number_from_gregorian_date y (tm_mon t + 1) (tm_mday t).
Proof.
  intros Ht.
  unfold gmtime_tm; destruct (Z.ltb_spec timer 0); [lia|].
  rewrite (u64_small timer) by lia.
  assert (0 <= timer / SECS_DAY < 783000000000) as Hd by (unfold SECS_DAY; dlia).
  pose proof (day_split_spec _ Hd) as D.
  destruct (year_loop _ _ _) as [yday y], (month_loop _ _ _ _) as [mday mon].
  destruct D as (Hy & Hmon & V & Ej & Ejy & Hyd).
  pose proof (valid_date_bounds _ _ _ V).
  eexists; split; [reflexivity|]; cbn [tm_year tm_mon tm_mday tm_hour tm_min tm_sec tm_wday tm_yday].
  rewrite (i32_small (mday + 1)), (i32_small (y - YEAR0)) by (unfold YEAR0; lia).
  replace (y - YEAR0 + 1900) with y by (unfold YEAR0; lia).
  split; [exact V|]; rewrite <- !and_assoc; split; [split|lia].
  - unfold unix_seconds; rewrite Ej; unfold SECS_DAY in *; dlia.
  - rewrite Ej; unfold day_of_week; rewrite Z.rem_mod_nonneg by lia.
    set (dn := timer / SECS_DAY) in *.
    assert (0 <= (2440588 + dn) mod 7 < 7) by (apply Z.mod_pos_bound; lia).
    rewrite (u32_small ((2440588 + dn) mod 7)) by lia.
    destruct (Z.eqb_spec ((2440588 + dn) mod 7) 6); unwrap; dlia.
Qed.

(** ** Properties *)

(** C24. [gmtime] terminates on every non-negative time of less than 67651200000000000
    seconds, which is within the years up to 2^31, with a valid Gregorian date and time of day that denote exactly that many
    seconds since 1970-01-01, the right weekday and the right day of the year;
    a negative time gives the null pointer. *)
Theorem gmtime_tm_correct timer :
  0 <= timer < 67651200000000000 ->
  (forall t, t < 0 -> gmtime_tm t = None) /\
  exists t, gmtime_tm timer = Some t /\
    let y := tm_year t + 1900 in
    valid_date y (tm_mon t + 1) (tm_mday t) /\
    0 <= tm_hour t <= 23 /\ 0 <= tm_min t <= 59 /\ 0 <= tm_sec t <= 59 /\
    unix_seconds y (tm_mon t + 1) (tm_mday t) (tm_hour t) (tm_min t) (tm_sec t) = timer /\
    tm_wday t = day_of_week
      (julian_day_number_from_gregorian_date y (tm_mon t + 1) (tm_mday t)) true /\
    julian_day_number_from_gregorian_date y 1 1 + tm_yday t
    = julian_day_number_from_gregorian_date y (tm_mon t + 1) (tm_mday t).
Proof.
  intros Ht; split; [|apply gmtime_tm_spec; exact Ht].
  intros t Hn; unfold gmtime_tm; destruct (Z.ltb_spec t 0); [reflexivity|lia].
Qed.

Lemma gmtime_tm_correct_witness :
  (forall t, t < 0 -> gmtime_tm t = None) /\
  exists t, gmtime_tm 951782400 = Some t /\
    let y := tm_year t + 1900 in
    valid_date y (tm_mon t + 1) (tm_mday t) /\
    0 <= tm_hour t <= 23 /\ 0 <= tm_min t <= 59 /\ 0 <= tm_sec t <= 59 /\
    unix_seconds y (tm_mon t + 1) (tm_mday t) (tm_hour t) (tm_min t) (tm_sec t) = 951782400 /\
    tm_wday t = day_of_week
      (julian_day_number_from_gregorian_date y (tm_mon t + 1) (tm_mday t)) true /\
    julian_day_number_from_gregorian_date y 1 1 + tm_yday t
    = julian_day_number_from_gregorian_date y (tm_mon t + 1) (tm_mday t).
Proof. apply (gmtime_tm_correct 951782400); lia. Defined.

(** The two overloads of [gmtime] agree: the [type::Time] one holds the
    same date and time of day with ordinal month and full year. *)
Theorem gmtime_overloads_agree timer buf :
  0 <= timer < 67651200000000000 ->
  exists t, gmtime_tm timer = Some t /\
  gmtime_Time timer buf =
    mkTime (tm_year t + 1900) (tm_mon t + 1) (tm_mday t) (tm_hour t) (tm_min t) (tm_sec t)
           0 false DRIZZLE_TIMESTAMP_DATETIME.
Proof.
  intros Ht; unfold gmtime_tm, gmtime_Time; destruct (Z.ltb_spec timer 0); [lia|].
  rewrite (u64_small timer) by lia.
  assert (0 <= timer / SECS_DAY < 783000000000) as Hd by (unfold SECS_DAY; dlia).
  pose proof (day_split_spec _ Hd) as D.
  change (month reset) with 0.
  destruct (year_loop _ _ _) as [yday y], (month_loop _ _ _ _) as [mday mon].
  destruct D as (Hy & Hmon & V & _); pose proof (valid_date_bounds _ _ _ V).
  eexists; split; [reflexivity|]; cbn.
  rewrite (i32_small (mday + 1)), (i32_small (y - YEAR0)) by (unfold YEAR0; lia).
  unfold YEAR0; unwrap; f_equal; lia.
Qed.

Lemma gmtime_overloads_agree_witness :
  exists t, gmtime_tm 2147483647 = Some t /\
  gmtime_Time 2147483647 reset =
    mkTime (tm_year t + 1900) (tm_mon t + 1) (tm_mday t) (tm_hour t) (tm_min t) (tm_sec t)
           0 false DRIZZLE_TIMESTAMP_DATETIME.
Proof. apply (gmtime_overloads_agree 2147483647 reset); lia. Defined.
