(* ===== verification/TimeCore.v ===== *)
(** Day numbers and numeric forms of [type::Time]: the table-driven part of
    [src/drizzled/type/time.cc] and [src/drizzled/time_functions.cc].

    [long] is 64 bits, [int] and [uint32_t] are 32 bits. *)

From Stdlib Require Import ZArith Lia ZifyBool List Bool.
From S2P Require Import Prelude Calendar TimeTypes GmTime.
Import ListNotations.
Local Open Scope Z_scope.

(** ** Model: [type/time.cc] *)

(** src/drizzled/type/time.cc:39-46 log_10_int *)
Definition log_10_int : list Z :=
  [1; 10; 100; 1000; 10000; 100000; 1000000; 10000000;
   100000000; 1000000000; 10000000000; 100000000000;
   1000000000000; 10000000000000; 100000000000000;
   1000000000000000; 10000000000000000; 100000000000000000;
   1000000000000000000; 10000000000000000000].

(** src/drizzled/type/time.cc:56-56 days_at_timestart *)
Definition days_at_timestart : Z := 719528.

(** src/drizzled/type/time.cc:57-57 days_in_month *)
Definition days_in_month_tab : list Z :=
  [31; 28; 31; 30; 31; 30; 31; 31; 30; 31; 30; 31; 0].

(** src/drizzled/type/time.cc:66-72 calc_days_in_year *)
Definition calc_days_in_year (y : Z) : Z :=
  if (Z.land y 3 =? 0)
     && (negb (y mod 100 =? 0) || ((y mod 400 =? 0) && negb (y =? 0)))
  then 366 else 365.

Definition flag_set (flags f : Z) : bool := negb (Z.land flags f =? 0).

(** src/drizzled/type/time.cc:76-121 Time::check

    The result and the new value of [was_cut]. *)
Definition check (t : Time) (not_zero_date : bool) (flags : Z) (was_cut : cut_t)
  : bool * cut_t :=
  if not_zero_date then
    if ((flag_set flags TIME_NO_ZERO_IN_DATE || negb (flag_set flags TIME_FUZZY_DATE))
        && ((month t =? 0) || (day t =? 0)))
       || (negb (flag_set flags TIME_INVALID_DATES)
           && negb (month t =? 0)
           && (day t >? aget days_in_month_tab (u32 (month t - 1)))
           && (negb (month t =? 2) || negb (calc_days_in_year (year t) =? 366)
               || negb (day t =? 29)))
    then (true, INVALID)
    else (false, was_cut)
  else if flag_set flags TIME_NO_ZERO_DATE then (true, was_cut)
  else (false, was_cut).

(** src/drizzled/type/time.cc:697-735 check_time_range

    The return value, the adjusted time and the adjusted warning mask. *)
Definition check_time_range (t : Time) (warning : Z) : Z * Time * Z :=
  if (minute t >=? 60) || (second t >=? 60) then (1, t, warning)
  else
    let hr := u32 (hour t + u32 (24 * day t)) in
    if (hr <=? TIME_MAX_HOUR)
       && (negb (hr =? TIME_MAX_HOUR) || negb (minute t =? TIME_MAX_MINUTE)
           || negb (second t =? TIME_MAX_SECOND) || (second_part t =? 0))
    then (0, t, warning)
    else (0, mkTime (year t) (month t) 0 TIME_MAX_HOUR TIME_MAX_MINUTE TIME_MAX_SECOND 0
                    (neg t) (time_type t),
          Z.lor warning DRIZZLE_TIME_WARN_OUT_OF_RANGE).

(** src/drizzled/type/time.cc:767-783 year_2000_handling *)
Definition year_2000_handling (y : Z) : Z :=
  let y := u32 (y + 1900) in
  if y <? 1900 + YY_PART_YEAR then u32 (y + 100) else y.

(** src/drizzled/type/time.cc:786-815 calc_daynr *)
Definition calc_daynr (y m d : Z) : Z :=
  if (y =? 0) && (m =? 0) && (d =? 0) then 0
  else
    let delsum := i64 (365 * y + u32 (31 * u32 (m - 1)) + d) in
    let '(y, delsum) :=
      if m <=? 2 then (u32 (y - 1), delsum)
      else (y, i64 (delsum - u32 (m * 4 + 23) ÷ 10)) in
    let temp := i32 (u32 (u32 (y / 100 + 1) * 3)) ÷ 4 in
    i64 (delsum + i32 y ÷ 4 - temp).

(** src/drizzled/type/time.cc:1014-1026 Time::store

    From a [struct tm]. *)
Definition store_tm (from : tm) : Time :=
  mkTime (u32 (Z.rem (i32 (tm_year from + 1900)) 10000)) (u32 (tm_mon from + 1))
         (u32 (tm_mday from)) (u32 (tm_hour from)) (u32 (tm_min from))
         (u32 (tm_sec from)) 0 false DRIZZLE_TIMESTAMP_DATETIME.

(** src/drizzled/type/time.cc:1040-1049 Time::store

    From an epoch value and its microseconds. *)
Definition store_epoch_usec (this : Time) (from from_fractional_seconds : Z) : Time :=
  let t := gmtime_Time from this in
  mkTime (year t) (month t) (day t) (hour t) (minute t) (second t)
         from_fractional_seconds (neg t) DRIZZLE_TIMESTAMP_DATETIME.

(** src/drizzled/type/time.cc:1035-1038 Time::store *)
Definition store_epoch (this : Time) (from : Z) : Time := store_epoch_usec this from 0.

(** src/drizzled/type/time.cc:1028-1032 Time::store

    From a [timeval], given by its two members. *)
Definition store_timeval (this : Time) (tv_sec tv_usec : Z) : Time :=
  let t := store_epoch_usec this tv_sec (u32 tv_usec) in
  mkTime (year t) (month t) (day t) (hour t) (minute t) (second t)
         (second_part t) (neg t) DRIZZLE_TIMESTAMP_DATETIME.

(** src/drizzled/type/time.cc:1051-1058 Time::truncate *)
Definition truncate (this : Time) (arg : timestamp_t) : Time :=
  mkTime 0 0 0 (hour this) (minute this) (second this) (second_part this) (neg this) arg.

(** src/drizzled/type/time.cc:1242-1273 Time::convert

    To a number: [UL] and [ULL] arithmetic is unsigned 64-bit. *)
Definition convert_datetime (t : Time) (arg : timestamp_t) : Z :=
  let date := u64 (year t * 10000 + month t * 100 + day t) in
  let tod := u64 (hour t * 10000 + minute t * 100 + second t) in
  match arg with
  | DRIZZLE_TIMESTAMP_DATETIME => i64 (u64 (u64 (date * 1000000) + tod))
  | DRIZZLE_TIMESTAMP_DATE => i64 date
  | DRIZZLE_TIMESTAMP_TIME => i64 tod
  | DRIZZLE_TIMESTAMP_NONE | DRIZZLE_TIMESTAMP_ERROR => 0
  end.

(** The three outcomes of the case analysis of [number_to_datetime] on the
    magnitude of the number: jump to [err], or to [ok] with a number and type. *)
Inductive ntd_class : Type :=
| NtdErr (ty : timestamp_t)
| NtdOk (nr : Z) (ty : timestamp_t).

(** src/drizzled/type/time.cc:1160-1199 number_to_datetime *)
Definition ntd_classify (nr : Z) : ntd_class :=
  let DATE := DRIZZLE_TIMESTAMP_DATE in
  let DATETIME := DRIZZLE_TIMESTAMP_DATETIME in
  if (nr =? 0) || (nr >=? 10000101000000) then NtdOk nr DATETIME
  else if nr <? 101 then NtdErr DATE
  else if nr <=? (YY_PART_YEAR - 1) * 10000 + 1231 then
    NtdOk ((nr + 20000000) * 1000000) DATE
  else if nr <? YY_PART_YEAR * 10000 + 101 then NtdErr DATE
  else if nr <=? 991231 then NtdOk ((nr + 19000000) * 1000000) DATE
  else if nr <? 10000101 then NtdErr DATE
  else if nr <=? 99991231 then NtdOk (nr * 1000000) DATE
  else if nr <? 101000000 then NtdErr DATE
  else if nr <=? (YY_PART_YEAR - 1) * 10000000000 + 1231235959 then
    NtdOk (nr + 20000000000000) DATETIME
  else if nr <? YY_PART_YEAR * 10000000000 + 101000000 then NtdErr DATETIME
  else if nr <=? 991231235959 then NtdOk (nr + 19000000000000) DATETIME
  else NtdOk nr DATETIME.

(** src/drizzled/type/time.cc:1201-1209 number_to_datetime *)
Definition ntd_fields (nr : Z) (ty : timestamp_t) : Time :=
  let part1 := nr ÷ 1000000 in
  let part2 := nr - part1 * 1000000 in
  let y := u32 (i32 (part1 ÷ 10000)) in
  let part1 := Z.rem part1 10000 in
  let mo := u32 (i32 part1 ÷ 100) in
  let d := u32 (Z.rem (i32 part1) 100) in
  let h := u32 (i32 (part2 ÷ 10000)) in
  let part2 := Z.rem part2 10000 in
  let mi := u32 (i32 part2 ÷ 100) in
  let s := u32 (Z.rem (i32 part2) 100) in
  mkTime y mo d h mi s 0 false ty.

(** src/drizzled/type/time.cc:1125-1226 number_to_datetime

    The returned number, the broken-down time and [was_cut]. *)
Definition number_to_datetime (nr flags : Z) : Z * Time * cut_t :=
  match ntd_classify nr with
  | NtdErr ty => (-1, mkTime 0 0 0 0 0 0 0 false ty, CUT)
  | NtdOk nr ty =>
      let t := ntd_fields nr ty in
      let '(bad, was_cut) := check t (negb (nr =? 0)) flags VALID in
      if (year t <=? 9999) && (month t <=? 12) && (day t <=? 31) && (hour t <=? 23)
         && (minute t <=? 59) && (second t <=? 59)
      then
        if negb bad then (nr, t, was_cut)
        else if (nr =? 0) && flag_set flags TIME_NO_ZERO_DATE then (-1, t, was_cut)
        else (-1, t, CUT)
      else if (nr =? 0) && flag_set flags TIME_NO_ZERO_DATE then (-1, t, VALID)
      else (-1, t, CUT)
  end.

(** ** Model: [time_functions.cc] *)

(** src/drizzled/definitions.h:214-216 WEEK_MONDAY_FIRST *)
Definition WEEK_MONDAY_FIRST : Z := 1.
Definition WEEK_YEAR : Z := 2.
Definition WEEK_FIRST_WEEKDAY : Z := 4.

(** src/drizzled/definitions.h:220-220 MAX_DAY_NUMBER *)
Definition MAX_DAY_NUMBER : Z := 3652424.

(** src/drizzled/time_functions.cc:37-40 calc_weekday *)
Definition calc_weekday (daynr : Z) (sunday_first_day_of_week : bool) : Z :=
  i32 (Z.rem (i64 (daynr + 5 + (if sunday_first_day_of_week then 1 else 0))) 7).

(** src/drizzled/time_functions.cc:65-66 calc_week

    The test that decides whether the week of January 1 is week 1. *)
Definition week_late (first_weekday : bool) (weekday : Z) : bool :=
  (first_weekday && negb (weekday =? 0)) || (negb first_weekday && (weekday >=? 4)).

(** src/drizzled/time_functions.cc:65-80 calc_week *)
Definition calc_week_finish (week_year first_weekday : bool)
    (yr daynr first_daynr weekday : Z) : Z * Z :=
  let days := if week_late first_weekday weekday
              then u32 (daynr - u32 (first_daynr + u32 (7 - weekday)))
              else u32 (daynr - u32 (first_daynr - weekday)) in
  if week_year && (days >=? 52 * 7) then
    let weekday := u32 (weekday + calc_days_in_year yr) mod 7 in
    if (negb first_weekday && (weekday <? 4)) || (first_weekday && (weekday =? 0))
    then (1, u32 (yr + 1))
    else (u32 (days / 7 + 1), yr)
  else (u32 (days / 7 + 1), yr).

(** src/drizzled/time_functions.cc:43-81 calc_week

    The week number and the year it belongs to. *)
Definition calc_week (t : Time) (week_behaviour : Z) : Z * Z :=
  let daynr := u32 (calc_daynr (year t) (month t) (day t)) in
  let first_daynr := u32 (calc_daynr (year t) 1 1) in
  let monday_first := flag_set week_behaviour WEEK_MONDAY_FIRST in
  let week_year := flag_set week_behaviour WEEK_YEAR in
  let first_weekday := flag_set week_behaviour WEEK_FIRST_WEEKDAY in
  let weekday := u32 (calc_weekday first_daynr (negb monday_first)) in
  let yr := year t in
  if (month t =? 1) && (day t <=? u32 (7 - weekday)) then
    if negb week_year && week_late first_weekday weekday then (0, yr)
    else
      let yr := u32 (yr - 1) in
      let days := calc_days_in_year yr in
      calc_week_finish true first_weekday yr daynr (u32 (first_daynr - days))
        (u32 (u32 (weekday + 53 * 7) - days) mod 7)
  else calc_week_finish week_year first_weekday yr daynr first_daynr weekday.

(** src/drizzled/time_functions.cc:101-105 get_date_from_daynr *)
Fixpoint daynr_year_loop (fuel : nat) (day_of_year y : Z) : Z * Z :=
  match fuel with
  | O => (day_of_year, y)
  | S fuel' =>
      let days_in_year := calc_days_in_year y in
      if day_of_year >? days_in_year
      then daynr_year_loop fuel' (u32 (day_of_year - days_in_year)) (u32 (y + 1))
      else (day_of_year, y)
  end.

(** src/drizzled/time_functions.cc:116-120 get_date_from_daynr

    [month_pos] walks the 13 entry table; the count is the month. *)
Fixpoint daynr_month_loop (month_pos : list Z) (day_of_year m : Z) : Z * Z :=
  match month_pos with
  | [] => (day_of_year, m)
  | len :: rest =>
      if day_of_year >? len
      then daynr_month_loop rest (u32 (day_of_year - len)) (u32 (m + 1))
      else (day_of_year, m)
  end.

(** src/drizzled/time_functions.cc:84-125 get_date_from_daynr

    Year, month and day.  The estimate of the year is at most one year early
    ([get_date_from_daynr_correct]), so 3 steps of the year loop are enough. *)
Definition get_date_from_daynr (daynr : Z) : Z * Z * Z :=
  if (daynr <=? 365) || (daynr >=? 3652500) then (0, 0, 0)
  else
    let y := u32 (daynr * 100 ÷ 36525) in
    let temp := u32 (u32 (u32 (y - 1) / 100 + 1) * 3) / 4 in
    let day_of_year := u32 (u32 (u32 (daynr - y * 365) - u32 (y - 1) / 4) + temp) in
    let '(day_of_year, y) := daynr_year_loop 3 day_of_year y in
    let days_in_year := calc_days_in_year y in
    let '(day_of_year, leap_day) :=
      if (days_in_year =? 366) && (day_of_year >? 31 + 28)
      then (u32 (day_of_year - 1), if u32 (day_of_year - 1) =? 31 + 28 then 1 else 0)
      else (day_of_year, 0) in
    let '(day_of_year, m) := daynr_month_loop days_in_month_tab day_of_year 1 in
    (y, m, u32 (day_of_year + leap_day)).

(** src/drizzled/time_functions.cc:192-239 calc_time_diff

    The sign flag, the seconds and the microseconds. *)
Definition calc_time_diff (t1 t2 : Time) (l_sign : Z) : bool * Z * Z :=
  let days :=
    match time_type t1 with
    | DRIZZLE_TIMESTAMP_TIME => i64 (day t1 - l_sign * day t2)
    | _ =>
        let d := calc_daynr (year t1) (month t1) (day t1) in
        match time_type t2 with
        | DRIZZLE_TIMESTAMP_TIME => i64 (d - l_sign * day t2)
        | _ => i64 (d - l_sign * calc_daynr (year t2) (month t2) (day t2))
        end
    end in
  let microseconds :=
    i64 ((days * 86400 + (hour t1 * 3600 + minute t1 * 60 + second t1)
          - l_sign * (hour t2 * 3600 + minute t2 * 60 + second t2)) * 1000000
         + second_part t1 - l_sign * second_part t2) in
  let neg := microseconds <? 0 in
  let microseconds := if neg then i64 (- microseconds) else microseconds in
  (neg, microseconds ÷ 1000000, Z.rem microseconds 1000000).

(** ** Lemmas *)

Lemma calc_days_in_year_gregorian y : 1 <= y ->
  calc_days_in_year y = days_in_year_gregorian y.
Proof.
  intros Hy; unfold calc_days_in_year, days_in_year_gregorian.
  rewrite land_3_mod, land_1_mod; repeat case_if; dlia.
Qed.

Lemma calc_days_in_year_cases y : 1 <= y ->
  (gregorian_rule y /\ calc_days_in_year y = 366)
  \/ (~ gregorian_rule y /\ calc_days_in_year y = 365).
Proof.
  intros Hy; rewrite calc_days_in_year_gregorian by exact Hy.
  apply days_in_year_gregorian_cases; exact Hy.
Qed.

(** The two day counts of the server differ by a constant. *)
Lemma calc_daynr_jdn_z y m d : 1 <= y < 2147483647 -> 1 <= m <= 12 -> 0 <= d < 4294967296 ->
  calc_daynr y m d = jdn_z y m d - 1721060.
Proof.
  intros Hy Hm Hd; unfold calc_daynr.
  replace ((y =? 0) && (m =? 0) && (d =? 0)) with false by lia.
  rewrite (u32_small (m - 1)), (u32_small (31 * (m - 1))), (i64_small (365 * y + _ + d)) by lia.
  destruct (Z.leb_spec m 2).
  - rewrite (u32_small (y - 1)), (u32_small ((y - 1) / 100 + 1)) by dlia.
    rewrite (u32_small (_ * 3)), (i32_small (y - 1)) by dlia.
    rewrite (i32_small (_ * 3)) by dlia.
    rewrite i64_small by dlia.
    unfold jdn_z; replace (m <=? 2) with true by lia; split_month Hm; try lia; dlia.
  - rewrite (u32_small (m * 4 + 23)), (i64_small (_ - (m * 4 + 23) ÷ 10)) by dlia.
    rewrite (u32_small (y / 100 + 1)), (u32_small (_ * 3)), (i32_small y) by dlia.
    rewrite (i32_small (_ * 3)) by dlia.
    rewrite i64_small by dlia.
    unfold jdn_z; replace (m <=? 2) with false by lia; split_month Hm; try lia; dlia.
Qed.

Lemma calc_daynr_valid y m d : valid_date y m d -> y < 2147483647 ->
  calc_daynr y m d = julian_day_number_from_gregorian_date y m d - 1721060.
Proof.
  intros V Hy; rewrite (jdn_valid _ _ _ V); apply valid_date_bounds in V.
  apply calc_daynr_jdn_z; lia.
Qed.

Lemma daynr_bounds y m d : valid_date y m d -> y <= 9999 ->
  366 <= calc_daynr y m d <= 3652424.
Proof.
  intros V Hy; rewrite calc_daynr_valid by (exact V || lia).
  rewrite (jdn_valid _ _ _ V); pose proof (valid_date_day_limit _ _ _ V) as D.
  pose proof (valid_date_bounds _ _ _ V) as (Hy' & Hm & Hd).
  unfold jdn_z; destruct (Z.leb_spec m 2); [dlia|].
  split_month Hm; cbn -[Z.mul Z.add Z.div Z.sub] in D; try lia; dlia.
Qed.

Lemma leap_step y : 1 <= y ->
  (y + 4800) / 4 - (y + 4800) / 100 + (y + 4800) / 400 =
  (y + 4800 - 1) / 4 - (y + 4800 - 1) / 100 + (y + 4800 - 1) / 400
  + (if calc_days_in_year y =? 366 then 1 else 0).
Proof.
  intros Hy; pose proof (calc_days_in_year_cases y Hy) as C; unfold gregorian_rule in C.
  destruct C as [[Hr ->]|[Hr ->]]; cbn [Z.eqb Pos.eqb]; dlia.
Qed.

(** Days of a common year before each month. *)
Definition days_before_month : list Z :=
  [0; 31; 59; 90; 120; 151; 181; 212; 243; 273; 304; 334].

(** Day of the year from the month. *)
Lemma day_of_year_table y m d : 1 <= y -> 1 <= m <= 12 ->
  jdn_z y m d - jdn_z y 1 1 + 1 =
  aget days_before_month (m - 1) + d
  + (if (calc_days_in_year y =? 366) && (m >? 2) then 1 else 0).
Proof.
  intros Hy Hm; pose proof (leap_step y Hy) as L; unfold jdn_z.
  replace (m <=? 2) with (negb (m >? 2)) by lia.
  destruct (Z.gtb_spec m 2); cbn [negb andb Z.leb Z.compare Pos.compare Pos.compare_cont];
  rewrite ?andb_false_r, ?andb_true_r, ?Z.sub_0_r;
  revert L; generalize ((y + 4800) / 4), ((y + 4800) / 100), ((y + 4800) / 400),
    ((y + 4800 - 1) / 4), ((y + 4800 - 1) / 100), ((y + 4800 - 1) / 400),
    (if calc_days_in_year y =? 366 then 1 else 0); intros;
  split_month Hm; aget_eval; try lia; dlia.
Qed.

Lemma year_len_jdn y : 1 <= y < 4294962495 ->
  jdn_z (y + 1) 1 1 = jdn_z y 1 1 + calc_days_in_year y.
Proof.
  intros Hy; rewrite calc_days_in_year_gregorian, <- YEARSIZE_gregorian by lia.
  apply year_start_succ; exact Hy.
Qed.

Lemma jan1_mono y0 y : 1 <= y0 <= y -> y < 4294962495 ->
  jdn_z y0 1 1 + 365 * (y - y0) <= jdn_z y 1 1 <= jdn_z y0 1 1 + 366 * (y - y0).
Proof. intros; unfold jdn_z; cbn -[Z.mul Z.add Z.div Z.sub]; dlia. Qed.

Lemma daynr_year_loop_spec y k : 1 <= k <= calc_days_in_year y -> 1 <= y <= 10000 ->
  forall fuel y0 doy, 1 <= y0 <= y -> (Z.to_nat (y - y0) < fuel)%nat ->
  jdn_z y0 1 1 + doy = jdn_z y 1 1 + k ->
  daynr_year_loop fuel doy y0 = (k, y).
Proof.
  intros Hk Hy; induction fuel as [|fuel IH]; intros y0 doy Hy0 Hf E; [lia|].
  cbn [daynr_year_loop]; rewrite Z.gtb_ltb.
  assert (365 <= calc_days_in_year y0 <= 366) by (unfold calc_days_in_year; case_if; lia).
  destruct (Z.eq_dec y0 y) as [->|Hne].
  - replace doy with k by lia.
    destruct (Z.ltb_spec (calc_days_in_year y) k); [lia|reflexivity].
  - pose proof (year_len_jdn y0 ltac:(lia)) as L.
    pose proof (jan1_mono (y0 + 1) y ltac:(lia) ltac:(lia)) as M.
    destruct (Z.ltb_spec (calc_days_in_year y0) doy); [|lia].
    pose proof (jan1_mono y0 y ltac:(lia) ltac:(lia)).
    assert (calc_days_in_year y <= 366) by (unfold calc_days_in_year; case_if; lia).
    rewrite (u32_small (doy - _)), (u32_small (y0 + 1)) by lia.
    apply IH; lia.
Qed.

Definition sumZ (l : list Z) : Z := fold_right Z.add 0 l.

Lemma sumZ_nonneg l : Forall (fun x => 0 <= x) l -> 0 <= sumZ l.
Proof. unfold sumZ; induction 1; cbn [fold_right]; lia. Qed.

Lemma daynr_month_loop_app pre len rest e : 1 <= e <= len ->
  Forall (fun x => 0 <= x) pre -> sumZ pre + e < 4294967296 -> forall m,
  0 <= m -> m + Z.of_nat (length pre) < 4294967296 ->
  daynr_month_loop (pre ++ len :: rest) (sumZ pre + e) m = (e, m + Z.of_nat (length pre)).
Proof.
  intros He Hp; induction Hp as [|x pre Hx Hp IH]; intros Hs m Hm Hl;
  cbn [app daynr_month_loop length] in *; rewrite Z.gtb_ltb.
  - destruct (Z.ltb_spec len (sumZ [] + e)); cbn in *; [lia|]; f_equal; lia.
  - pose proof (sumZ_nonneg pre Hp).
    change (sumZ (x :: pre)) with (x + sumZ pre) in *.
    destruct (Z.ltb_spec x (x + sumZ pre + e)); [|lia].
    rewrite (u32_small (x + _ + e - x)), (u32_small (m + 1)) by lia.
    replace (x + sumZ pre + e - x) with (sumZ pre + e) by lia.
    rewrite IH by lia; f_equal; lia.
Qed.

Lemma daynr_month_loop_spec m e :
  1 <= m <= 12 -> 1 <= e <= aget normal_days_in_month (m - 1) ->
  daynr_month_loop days_in_month_tab (aget days_before_month (m - 1) + e) 1 = (e, m).
Proof.
  intros Hm He.
  assert (exists pre len rest, days_in_month_tab = pre ++ len :: rest /\
    len = aget normal_days_in_month (m - 1) /\ sumZ pre = aget days_before_month (m - 1) /\
    Z.of_nat (length pre) = m - 1 /\ Forall (fun x => 0 <= x) pre /\
    sumZ pre <= 366 /\ len <= 31)
    as (pre & len & rest & Et & El & Es & Hn & Hp & Hs & Hlen).
  { exists (firstn (Z.to_nat (m - 1)) days_in_month_tab),
      (aget normal_days_in_month (m - 1)), (skipn (Z.to_nat m) days_in_month_tab).
    clear He; split_month Hm; repeat split; try reflexivity; try (vm_compute; discriminate);
    repeat constructor; vm_compute; discriminate. }
  rewrite <- El in He; rewrite <- Es, Et, daynr_month_loop_app; try lia; try assumption.
  f_equal; lia.
Qed.

(** The last steps of [get_date_from_daynr]: the leap day is set apart, then
    the month table is walked. *)
Lemma month_day_split (leap : bool) m d k :
  1 <= m <= 12 ->
  1 <= d <= (if m =? 2 then if leap then 29 else 28
             else if (m =? 4) || (m =? 6) || (m =? 9) || (m =? 11) then 30 else 31) ->
  k = aget days_before_month (m - 1) + d + (if leap && (m >? 2) then 1 else 0) ->
  let '(doy, leap_day) :=
    if leap && (k >? 31 + 28)
    then (u32 (k - 1), if u32 (k - 1) =? 31 + 28 then 1 else 0) else (k, 0) in
  let '(e, m') := daynr_month_loop days_in_month_tab doy 1 in
  m' = m /\ u32 (e + leap_day) = d.
Proof.
  intros Hm Hd Ek.
  destruct (leap && (m =? 2) && (d =? 29)) eqn:E29.
  - assert (leap = true /\ m = 2 /\ d = 29) as (-> & -> & ->) by lia.
    subst k; vm_compute; auto.
  - assert (d <= aget normal_days_in_month (m - 1)) as He
      by (clear Ek; split_month Hm; aget_eval; destruct leap; cbn in *; lia).
    assert (0 <= aget days_before_month (m - 1) <= 334 /\ aget normal_days_in_month (m - 1) <= 31 /\
      (m <= 2 -> aget days_before_month (m - 1) + aget normal_days_in_month (m - 1) <= 59) /\
      (2 < m -> 59 <= aget days_before_month (m - 1))) as (B1 & B2 & B3 & B4)
      by (clear - Hm; split_month Hm; aget_eval; lia).
    assert (0 <= k < 400) by (destruct leap, (m >? 2); cbn in Ek; lia).
    pose proof (daynr_month_loop_spec m d Hm ltac:(lia)) as L.
    destruct (leap && (k >? 31 + 28)) eqn:Eb.
    + assert (2 < m /\ k - 1 = aget days_before_month (m - 1) + d) as [Hm2 Ek1].
      { destruct leap; cbn in Eb, Ek; [|discriminate].
        destruct (Z.gtb_spec m 2); lia. }
      rewrite (u32_small (k - 1)), Ek1, L by lia.
      split; [reflexivity|]; destruct (Z.eqb_spec (aget days_before_month (m - 1) + d) (31 + 28));
      unwrap; lia.
    + assert (k = aget days_before_month (m - 1) + d) as ->
        by (destruct leap; cbn in Eb, Ek; destruct (Z.gtb_spec m 2); lia).
      rewrite L; split; [reflexivity|unwrap; lia].
Qed.

Lemma get_date_from_daynr_valid y m d : valid_date y m d ->
  calc_daynr y m d < 3652500 -> y <= 10000 ->
  get_date_from_daynr (calc_daynr y m d) = (y, m, d).
Proof.
  intros V Hmax Hy.
  pose proof (valid_date_bounds _ _ _ V) as (Hy' & Hm & Hd).
  rewrite (calc_daynr_jdn_z y m d) in * by lia.
  pose proof (day_of_year_table y m d ltac:(lia) Hm) as T.
  set (k := jdn_z y m d - jdn_z y 1 1 + 1) in T.
  assert (1 <= k <= calc_days_in_year y) as Hk.
  { unfold k in *; clear k.
    pose proof V as (_ & _ & Hd'); rewrite days_in_month_table in Hd' by lia.
    rewrite T, calc_days_in_year_gregorian by lia.
    pose proof (days_in_year_gregorian_cases y ltac:(lia)) as C.
    destruct (Z.eqb_spec (days_in_year_gregorian y) 366); split_month Hm; aget_eval;
    cbn -[Z.add] in Hd'; cbn -[Z.add]; lia. }
  set (n := jdn_z y m d - 1721060) in *.
  assert (n = jdn_z y 1 1 - 1721061 + k) as En by (unfold n, k; lia).
  assert (365 <= calc_days_in_year y <= 366) by (unfold calc_days_in_year; case_if; lia).
  assert (1 <= n * 100 ÷ 36525 <= y /\ y <= n * 100 ÷ 36525 + 1) as Hg.
  { rewrite En; unfold jdn_z in *; cbn -[Z.mul Z.add Z.div Z.sub] in *.
    pose proof (calc_days_in_year_cases y ltac:(lia)) as C; unfold gregorian_rule in C.
    clear T; destruct C as [[[Hr _] C]|[_ C]]; rewrite C in *; clear C; dlia. }
  set (y0 := n * 100 ÷ 36525) in *.
  unfold get_date_from_daynr.
  replace ((n <=? 365) || (n >=? 3652500)) with false
    by (unfold jdn_z in En; cbn -[Z.mul Z.add Z.div Z.sub] in En; dlia).
  fold y0; rewrite (u32_small y0), (u32_small (y0 - 1)) by lia.
  assert (1 <= n - y0 * 365 - (y0 - 1) / 4 + ((y0 - 1) / 100 + 1) * 3 / 4 < 4000 /\
    jdn_z y0 1 1 + (n - y0 * 365 - (y0 - 1) / 4 + ((y0 - 1) / 100 + 1) * 3 / 4)
    = jdn_z y 1 1 + k) as [Hdoy Ejan].
  { pose proof (jan1_mono y0 y ltac:(lia) ltac:(lia)).
    assert (jdn_z y0 1 1 = 1721061 + y0 * 365 + (y0 - 1) / 4 - ((y0 - 1) / 100 + 1) * 3 / 4)
      by (unfold jdn_z; cbn -[Z.mul Z.add Z.div Z.sub]; clear -Hg; dlia).
    lia. }
  rewrite (u32_small ((y0 - 1) / 100 + 1)), (u32_small (_ * 3)) by (clear - Hg Hy; dlia).
  assert (u32 (u32 (u32 (n - y0 * 365) - (y0 - 1) / 4) + ((y0 - 1) / 100 + 1) * 3 / 4)
          = n - y0 * 365 - (y0 - 1) / 4 + ((y0 - 1) / 100 + 1) * 3 / 4) as ->.
  { autorewrite with cint; apply u32_small; lia. }
  rewrite (daynr_year_loop_spec y k Hk ltac:(lia) 3) by lia.
  pose proof V as (_ & _ & Hd'); rewrite days_in_month_table in Hd' by lia.
  rewrite <- calc_days_in_year_gregorian in Hd' by lia.
  pose proof (month_day_split _ m d k Hm Hd' T) as S.
  destruct (if (_ =? 366) && _ then _ else _) as [doy leap_day] in S |- *.
  destruct (daynr_month_loop _ _ _) as [e m']; destruct S as [-> ->]; reflexivity.
Qed.

Lemma get_date_valid n : 366 <= n <= 3652424 -> exists y m d,
  get_date_from_daynr n = (y, m, d) /\ valid_date y m d /\ y <= 9999 /\ calc_daynr y m d = n.
Proof.
  intros Hn; destruct (jdn_surj (n + 1721060) ltac:(lia)) as (y & m & d & V & E).
  pose proof (jdn_le_9999 _ _ _ V ltac:(lia)) as Hy.
  assert (calc_daynr y m d = n) as En by (rewrite calc_daynr_valid by (auto || lia); lia).
  exists y, m, d; rewrite <- En at 1; rewrite get_date_from_daynr_valid by (auto || lia); auto.
Qed.

(** *** Weeks *)

Lemma calc_weekday_mod n b : 0 <= n < 4294967296 ->
  calc_weekday n b = (n + 5 + (if b then 1 else 0)) mod 7.
Proof.
  intros Hn; unfold calc_weekday.
  assert (0 <= (if b then 1 else 0) <= 1) by (destruct b; lia).
  rewrite i64_small, Z.rem_mod_nonneg by lia.
  apply i32_small; dlia.
Qed.

(** ISO 8601: a week belongs to the year of its Thursday.  [F] and [F + len]
    are the day numbers of January 1 of the year and of the next one. *)
Definition iso_week (n F w : Z) : Prop :=
  let thursday := n - (n + 5) mod 7 + 3 in
  F <= thursday /\ w = (thursday - F) / 7 + 1.

Lemma iso_finish yr n F len F2 wd :
  len = calc_days_in_year yr -> 1 <= yr < 10001 ->
  366 <= F < 4000000 -> wd = (F + 5) mod 7 -> F2 = F + len ->
  F + 7 - wd <= n -> n < F2 + 7 - (F2 + 5) mod 7 ->
  let '(w, Y) := calc_week_finish true false yr n F wd in
  (Y = yr /\ iso_week n F w /\ n - (n + 5) mod 7 + 3 < F2)
  \/ (Y = yr + 1 /\ iso_week n F2 w /\ n - (n + 5) mod 7 + 3 < F2 + 365).
Proof.
  intros El Hyr HF Ewd EF2 Hlo Hhi; unfold calc_week_finish, week_late, iso_week.
  rewrite <- El.
  assert (len = 365 \/ len = 366) by (subst len; unfold calc_days_in_year; case_if; lia).
  clear El; assert (0 <= wd < 7) by (subst wd; apply Z.mod_pos_bound; lia).
  cbn [andb orb negb]; rewrite !Z.geb_leb.
  assert (Hn : exists q r, n + 5 = 7 * q + r /\ 0 <= r < 7 /\ (n + 5) mod 7 = r)
    by (exists ((n + 5) / 7), ((n + 5) mod 7); dlia).
  assert (HFq : exists p, F + 5 = 7 * p + wd) by (exists ((F + 5) / 7); dlia).
  destruct Hn as (q & r & En & Hr & Er), HFq as (p & Ep); rewrite Er.
  destruct (Z.leb_spec 4 wd).
  - rewrite (u32_small (7 - wd)), (u32_small (F + _)), (u32_small (n - _)),
      (u32_small (wd + len)), (u32_small (_ / 7 + 1)), (u32_small (yr + 1)) by dlia.
    repeat case_if; [right|left|left]; (split; [lia|]); dlia.
  - rewrite (u32_small (F - wd)), (u32_small (n - _)),
      (u32_small (wd + len)), (u32_small (_ / 7 + 1)), (u32_small (yr + 1)) by dlia.
    repeat case_if; [right|left|left]; (split; [lia|]); dlia.
Qed.

Lemma calc_daynr_jan1 y : 1 <= y < 10001 ->
  366 <= calc_daynr y 1 1 < 4000000 /\
  calc_daynr (y + 1) 1 1 = calc_daynr y 1 1 + calc_days_in_year y.
Proof.
  intros Hy; rewrite !calc_daynr_jdn_z by lia.
  pose proof (year_len_jdn y ltac:(lia)).
  pose proof (jan1_mono 1 y ltac:(lia) ltac:(lia)).
  change (jdn_z 1 1 1) with 1721426 in *; lia.
Qed.

Lemma daynr_in_year y m d : valid_date y m d -> y < 10001 ->
  calc_daynr y 1 1 <= calc_daynr y m d < calc_daynr (y + 1) 1 1 /\
  (m = 1 -> calc_daynr y m d = calc_daynr y 1 1 + d - 1) /\
  (m <> 1 -> calc_daynr y 1 1 + 31 <= calc_daynr y m d).
Proof.
  intros V Hy; pose proof (valid_date_bounds _ _ _ V) as (Hy' & Hm & Hd).
  rewrite (proj2 (calc_daynr_jan1 y ltac:(lia))), !calc_daynr_jdn_z by lia.
  pose proof (day_of_year_table y m d ltac:(lia) Hm) as T.
  destruct V as (_ & _ & Hd'); rewrite days_in_month_table in Hd' by lia.
  rewrite <- calc_days_in_year_gregorian in Hd' by lia.
  assert (calc_days_in_year y = 365 \/ calc_days_in_year y = 366)
    by (unfold calc_days_in_year; case_if; lia).
  destruct (Z.eqb_spec (calc_days_in_year y) 366); split_month Hm;
  revert T; aget_eval; intros T; cbn -[Z.add] in Hd', T; lia.
Qed.

(** *** Numbers as dates *)

Lemma ntd_fields_decode n ty : 0 <= n < 9223372036854775808 ->
  ntd_fields n ty =
  mkTime (n / 10000000000) (n / 100000000 mod 100) (n / 1000000 mod 100)
         (n / 10000 mod 100) (n / 100 mod 100) (n mod 100) 0 false ty.
Proof.
  intros Hn; unfold ntd_fields.
  replace (n - n ÷ 1000000 * 1000000) with (n mod 1000000) by dlia.
  rewrite (Z.quot_div_nonneg n), (Z.quot_div_nonneg (n / 1000000)),
    (Z.quot_div_nonneg (n mod 1000000)), (Z.rem_mod_nonneg (n / 1000000)),
    (Z.rem_mod_nonneg (n mod 1000000)) by dlia.
  rewrite (i32_small (n / 1000000 / 10000)), (i32_small (n mod 1000000 / 10000)),
    (i32_small (n / 1000000 mod 10000)), (i32_small (n mod 1000000 mod 10000)) by dlia.
  rewrite !Z.quot_div_nonneg, !Z.rem_mod_nonneg by dlia.
  rewrite !u32_small by dlia; f_equal; dlia.
Qed.

Lemma convert_datetime_digits t : 0 <= year t <= 9999 -> 0 <= month t <= 99 ->
  0 <= day t <= 99 -> 0 <= hour t <= 99 -> 0 <= minute t <= 99 -> 0 <= second t <= 99 ->
  convert_datetime t DRIZZLE_TIMESTAMP_DATETIME
  = (year t * 10000 + month t * 100 + day t) * 1000000
    + (hour t * 10000 + minute t * 100 + second t).
Proof.
  intros; unfold convert_datetime.
  rewrite (u64_small (year t * _ + _ + _)), (u64_small (hour t * _ + _ + _)) by lia.
  rewrite (u64_small (_ * 1000000)), (u64_small (_ * 1000000 + _)) by lia.
  apply i64_small; lia.
Qed.

Lemma days_in_month_tab_gregorian y m : 1 <= y -> 1 <= m <= 12 ->
  days_in_gregorian_year_month y m
  = if (m =? 2) && (calc_days_in_year y =? 366) then 29 else aget days_in_month_tab (u32 (m - 1)).
Proof.
  intros Hy Hm; rewrite days_in_month_table, <- calc_days_in_year_gregorian by lia.
  split_month Hm; cbn -[calc_days_in_year]; try reflexivity; case_if; reflexivity.
Qed.

Lemma check_ok t nz flags c : check t nz flags VALID = (false, c) ->
  0 <= month t <= 12 -> 0 <= day t ->
  c = VALID /\
  (nz = true -> flag_set flags TIME_INVALID_DATES = false -> 1 <= month t -> 1 <= year t ->
   day t <= days_in_gregorian_year_month (year t) (month t)) /\
  (nz = true -> flag_set flags TIME_FUZZY_DATE = false -> 1 <= month t /\ 1 <= day t).
Proof.
  unfold check; intros E Hm Hd; destruct nz.
  - case_if_in E; [discriminate|]; inversion E; subst c; split; [reflexivity|].
    split; intros _ F; rewrite F in Heqb; [intros Hm1 Hy|].
    + rewrite days_in_month_tab_gregorian by lia.
      assert (month t = 2 -> aget days_in_month_tab (u32 (month t - 1)) = 28)
        by (intros ->; reflexivity).
      case_if; lia.
    + destruct (flag_set flags TIME_NO_ZERO_IN_DATE); lia.
  - case_if_in E; inversion E; subst; intuition discriminate.
Qed.

(** *** Intervals of time *)

(** Microseconds since 1970-01-01 of a broken-down date and time. *)
Definition time_usec (t : Time) : Z :=
  unix_seconds (year t) (month t) (day t) (hour t) (minute t) (second t) * 1000000
  + second_part t.

(** Length in microseconds of a TIME value, whose days count 24 hours. *)
Definition duration_usec (t : Time) : Z :=
  (((24 * day t + hour t) * 60 + minute t) * 60 + second t) * 1000000 + second_part t.

Definition time_in_range (t : Time) : Prop :=
  0 <= hour t <= 23 /\ 0 <= minute t <= 59 /\ 0 <= second t <= 59 /\
  0 <= second_part t <= 999999.

(** ** Properties *)

(** [get_date_from_daynr] inverts [calc_daynr] on the whole SQL range: every
    day number from 0001-01-01 to 9999-12-31 is decoded into the valid date it
    is the number of, and every valid date is recovered from its number. *)
Theorem get_date_from_daynr_correct n : 366 <= n <= MAX_DAY_NUMBER ->
  (let '(y, m, d) := get_date_from_daynr n in
   valid_date y m d /\ y <= 9999 /\ calc_daynr y m d = n) /\
  (forall y m d, valid_date y m d -> y <= 9999 -> calc_daynr y m d = n ->
   get_date_from_daynr n = (y, m, d)).
Proof.
  unfold MAX_DAY_NUMBER; intros Hn; split.
  - destruct (get_date_valid n Hn) as (y & m & d & -> & R); exact R.
  - intros y m d V Hy <-; apply get_date_from_daynr_valid; auto; lia.
Qed.

Lemma get_date_from_daynr_correct_witness :
  let '(y, m, d) := get_date_from_daynr 734927 in
  valid_date y m d /\ y <= 9999 /\ calc_daynr y m d = 734927.
Proof.
  apply (proj1 (get_date_from_daynr_correct 734927 ltac:(unfold MAX_DAY_NUMBER; lia))).
Defined.

(** In ISO 8601 mode (weeks start on Monday, week counted in its own year)
    [calc_week] returns the year that contains the Thursday of the date's week
    and the ordinal of that Thursday in the year. *)
Theorem calc_week_iso t : valid_date (year t) (month t) (day t) -> 2 <= year t <= 9999 ->
  let n := calc_daynr (year t) (month t) (day t) in
  let thursday := n - calc_weekday n false + 3 in
  let '(w, Y) := calc_week t (Z.lor WEEK_MONDAY_FIRST WEEK_YEAR) in
  calc_daynr Y 1 1 <= thursday < calc_daynr (Y + 1) 1 1 /\
  w = (thursday - calc_daynr Y 1 1) / 7 + 1.
Proof.
  intros V Hy n thursday; pose proof (daynr_in_year _ _ _ V ltac:(lia)) as (Hn & Hjan & Hrest).
  fold n in Hn, Hjan, Hrest.
  pose proof (calc_daynr_jan1 (year t) ltac:(lia)) as [HF HF2].
  pose proof (calc_daynr_jan1 (year t - 1) ltac:(lia)) as [HP HP2].
  pose proof (calc_daynr_jan1 (year t + 1) ltac:(lia)) as [_ HN2].
  replace (year t - 1 + 1) with (year t) in HP2 by lia.
  pose proof (valid_date_bounds _ _ _ V) as (_ & Hm & Hd).
  assert (forall z, 365 <= calc_days_in_year z <= 366) as LD
    by (intros; unfold calc_days_in_year; case_if; lia).
  pose proof (LD (year t)) as L0; pose proof (LD (year t - 1)) as L1;
  pose proof (LD (year t + 1)) as L2.
  assert (thursday = n - (n + 5) mod 7 + 3) as ET
    by (unfold thursday; rewrite calc_weekday_mod, Z.add_0_r by lia; reflexivity).
  unfold calc_week; fold n; set (F := calc_daynr (year t) 1 1) in *.
  change (flag_set _ WEEK_MONDAY_FIRST) with true; change (flag_set _ WEEK_YEAR) with true.
  change (flag_set _ WEEK_FIRST_WEEKDAY) with false; cbn [negb andb].
  rewrite (u32_small n), (u32_small F), calc_weekday_mod, Z.add_0_r by lia.
  set (wd := (F + 5) mod 7); assert (0 <= wd < 7) by (apply Z.mod_pos_bound; lia).
  rewrite (u32_small wd), (u32_small (7 - wd)) by lia.
  destruct ((month t =? 1) && (day t <=? 7 - wd)) eqn:EB.
  - rewrite (u32_small (year t - 1)), (u32_small (F - _)), (u32_small (wd + _)),
      (u32_small (_ - _)) by lia.
    pose proof (iso_finish (year t - 1) n _ _ F _ eq_refl ltac:(lia) HP eq_refl ltac:(lia)
                  ltac:(clear - L1 Hn HP2; dlia) ltac:(fold wd; lia)) as S.
    replace (F - calc_days_in_year (year t - 1)) with (calc_daynr (year t - 1) 1 1) by lia.
    assert ((wd + 53 * 7 - calc_days_in_year (year t - 1)) mod 7
            = (calc_daynr (year t - 1) 1 1 + 5) mod 7) as -> by (unfold wd; dlia).
    destruct (calc_week_finish _ _ _ _ _ _) as [w Y]; unfold iso_week in S; cbv zeta in S.
    rewrite <- ET in S; destruct S as [(-> & S)|(-> & S)];
    replace (year t - 1 + 1) with (year t) by lia; fold F; lia.
  - pose proof (iso_finish (year t) n F _ _ wd eq_refl ltac:(lia) HF eq_refl HF2
                  ltac:(lia) ltac:(dlia)) as S.
    destruct (calc_week_finish _ _ _ _ _ _) as [w Y]; unfold iso_week in S; cbv zeta in S.
    rewrite <- ET in S; destruct S as [(-> & S)|(-> & S)]; fold F; lia.
Qed.

Lemma calc_week_iso_witness :
  calc_week (mkTime 2010 1 3 0 0 0 0 false DRIZZLE_TIMESTAMP_DATE) 3 = (53, 2009) /\
  let t := mkTime 2010 1 3 0 0 0 0 false DRIZZLE_TIMESTAMP_DATE in
  let n := calc_daynr (year t) (month t) (day t) in
  let thursday := n - calc_weekday n false + 3 in
  let '(w, Y) := calc_week t (Z.lor WEEK_MONDAY_FIRST WEEK_YEAR) in
  calc_daynr Y 1 1 <= thursday < calc_daynr (Y + 1) 1 1 /\
  w = (thursday - calc_daynr Y 1 1) / 7 + 1.
Proof.
  split; [reflexivity|].
  apply (calc_week_iso (mkTime 2010 1 3 0 0 0 0 false DRIZZLE_TIMESTAMP_DATE));
  [vm_compute; intuition discriminate|cbn; lia].
Defined.

(** Whatever 64-bit number and flags it is given, [number_to_datetime]
    either returns -1 or the [YYYYMMDDhhmmss] number of the fields it stored,
    which are in range; and without TIME_INVALID_DATES a stored date with
    nonzero month is one of the calendar. *)
Theorem number_to_datetime_sound nr flags : is_i64 nr ->
  let '(r, t, was_cut) := number_to_datetime nr flags in
  r = -1 \/
  (was_cut = VALID /\ r = convert_datetime t DRIZZLE_TIMESTAMP_DATETIME /\
   0 <= year t <= 9999 /\ 0 <= month t <= 12 /\ 0 <= day t <= 31 /\ time_in_range t /\
   (flag_set flags TIME_INVALID_DATES = false -> 1 <= month t -> 1 <= year t ->
    day t <= days_in_gregorian_year_month (year t) (month t)) /\
   (flag_set flags TIME_FUZZY_DATE = false -> r <> 0 -> 1 <= month t /\ 1 <= day t)).
Proof.
  unfold is_i64; intros Hnr; unfold number_to_datetime.
  destruct (ntd_classify nr) as [ty|n ty] eqn:EC; [left; reflexivity|].
  assert (0 <= n < 9223372036854775808) as Hn
    by (unfold ntd_classify, YY_PART_YEAR in EC; repeat case_if_in EC; inversion EC; lia).
  rewrite ntd_fields_decode by exact Hn.
  set (t := mkTime _ _ _ _ _ _ _ _ _).
  destruct (check t (negb (n =? 0)) flags VALID) as [[] c] eqn:CK; [cbn [negb]; repeat case_if; left; reflexivity|].
  case_if; [|case_if; left; reflexivity]; cbn [negb]; right.
  assert (0 <= month t /\ 0 <= day t /\ 0 <= hour t /\ 0 <= minute t /\ 0 <= second t /\ 0 <= year t)
    by (cbn; clear - Hn; dlia).
  destruct (check_ok _ _ _ _ CK ltac:(lia) ltac:(lia)) as (-> & C1 & C2).
  assert (n = convert_datetime t DRIZZLE_TIMESTAMP_DATETIME) as En
    by (rewrite convert_datetime_digits by lia; cbn; clear; dlia).
  repeat (split; [first [reflexivity|exact En|lia|unfold time_in_range; cbn in *; lia]|]).
  split; [intros Fi Hm Hy; apply C1; auto|intros Ff Hz; apply C2; auto].
  - destruct (Z.eqb_spec n 0) as [->|]; [cbn in Hy; lia|reflexivity].
  - destruct (Z.eqb_spec n 0); [contradiction|reflexivity].
Qed.

Lemma number_to_datetime_sound_witness :
  let '(r, t, was_cut) := number_to_datetime 20120229235959 0 in
  r = 20120229235959 /\
  (r = -1 \/
  (was_cut = VALID /\ r = convert_datetime t DRIZZLE_TIMESTAMP_DATETIME /\
   0 <= year t <= 9999 /\ 0 <= month t <= 12 /\ 0 <= day t <= 31 /\ time_in_range t /\
   (flag_set 0 TIME_INVALID_DATES = false -> 1 <= month t -> 1 <= year t ->
    day t <= days_in_gregorian_year_month (year t) (month t)) /\
   (flag_set 0 TIME_FUZZY_DATE = false -> r <> 0 -> 1 <= month t /\ 1 <= day t))).
Proof.
  split; [reflexivity|].
  apply (number_to_datetime_sound 20120229235959 0); unfold is_i64; lia.
Defined.

Lemma check_valid t flags : valid_date (year t) (month t) (day t) ->
  check t true flags VALID = (false, VALID).
Proof.
  intros V; pose proof (valid_date_bounds _ _ _ V) as (Hy & Hm & Hd).
  destruct V as (_ & _ & Hd'); rewrite days_in_month_tab_gregorian in Hd' by lia.
  unfold check; case_if; [exfalso|reflexivity].
  assert (month t = 2 -> aget days_in_month_tab (u32 (month t - 1)) = 28)
    by (intros ->; reflexivity).
  destruct (flag_set flags TIME_NO_ZERO_IN_DATE), (flag_set flags TIME_FUZZY_DATE),
    (flag_set flags TIME_INVALID_DATES); case_if_in Hd'; lia.
Qed.

Lemma number_to_datetime_ok nr flags n ty t :
  ntd_classify nr = NtdOk n ty -> 0 < n < 9223372036854775808 ->
  ntd_fields n ty = t -> valid_date (year t) (month t) (day t) -> year t <= 9999 ->
  time_in_range t -> number_to_datetime nr flags = (n, t, VALID).
Proof.
  intros E Hn Et V Hy (R1 & R2 & R3 & R4); unfold number_to_datetime.
  rewrite E, Et; replace (n =? 0) with false by lia; cbn [negb].
  rewrite (check_valid _ _ V); apply valid_date_bounds in V as (V1 & V2 & V3).
  case_if; [reflexivity|lia].
Qed.

(** C22. Every valid date and time of the years 100 to 9999 is read back from its
    [YYYYMMDDhhmmss] number, under any flags. *)
Theorem number_to_datetime_round_trip t flags :
  valid_date (year t) (month t) (day t) -> 100 <= year t <= 9999 -> time_in_range t ->
  second_part t = 0 -> neg t = false -> time_type t = DRIZZLE_TIMESTAMP_DATETIME ->
  number_to_datetime (convert_datetime t DRIZZLE_TIMESTAMP_DATETIME) flags
  = (convert_datetime t DRIZZLE_TIMESTAMP_DATETIME, t, VALID).
Proof.
  intros V Hy R Hp Hn Ht; pose proof (valid_date_bounds _ _ _ V) as (V1 & V2 & V3).
  pose proof R as (R1 & R2 & R3 & R4); rewrite convert_datetime_digits by lia.
  apply number_to_datetime_ok with (ty := DRIZZLE_TIMESTAMP_DATETIME); auto; try lia.
  - unfold ntd_classify, YY_PART_YEAR; repeat (case_if; try lia); reflexivity.
  - rewrite ntd_fields_decode by lia; destruct t; cbn in *; subst; f_equal; dlia.
Qed.

Lemma number_to_datetime_round_trip_witness :
  let t := mkTime 2012 2 29 23 59 59 0 false DRIZZLE_TIMESTAMP_DATETIME in
  number_to_datetime (convert_datetime t DRIZZLE_TIMESTAMP_DATETIME) 0
  = (convert_datetime t DRIZZLE_TIMESTAMP_DATETIME, t, VALID).
Proof.
  apply (number_to_datetime_round_trip
    (mkTime 2012 2 29 23 59 59 0 false DRIZZLE_TIMESTAMP_DATETIME) 0);
  try reflexivity; vm_compute; intuition discriminate.
Defined.

(** The shortened numeric forms: [YYYYMMDD] reads as midnight of that date,
    and [YYMMDD] as the date of the years 1970 to 2069 with these two digits. *)
Theorem number_to_datetime_short_forms y m d flags :
  valid_date y m d -> y <= 9999 ->
  let t := mkTime y m d 0 0 0 0 false DRIZZLE_TIMESTAMP_DATE in
  let nr := convert_datetime t DRIZZLE_TIMESTAMP_DATETIME in
  (1000 <= y -> number_to_datetime (y * 10000 + m * 100 + d) flags = (nr, t, VALID)) /\
  (1970 <= y <= 2069 ->
   number_to_datetime (y mod 100 * 10000 + m * 100 + d) flags = (nr, t, VALID)).
Proof.
  intros V Hy t nr; pose proof (valid_date_bounds _ _ _ V) as (V1 & V2 & V3).
  assert (nr = (y * 10000 + m * 100 + d) * 1000000) as ->
    by (unfold nr; rewrite convert_datetime_digits; cbn; lia).
  assert (ntd_fields ((y * 10000 + m * 100 + d) * 1000000) DRIZZLE_TIMESTAMP_DATE = t)
    by (rewrite ntd_fields_decode by lia; unfold t; f_equal; dlia).
  assert (time_in_range t) by (unfold time_in_range; cbn; lia).
  split; intros Hr; (apply number_to_datetime_ok with (ty := DRIZZLE_TIMESTAMP_DATE); auto; try lia);
  unfold ntd_classify, YY_PART_YEAR; repeat (case_if; try dlia); f_equal; dlia.
Qed.

Lemma number_to_datetime_short_forms_witness :
  number_to_datetime 691231 0
  = (20691231000000, mkTime 2069 12 31 0 0 0 0 false DRIZZLE_TIMESTAMP_DATE, VALID).
Proof.
  apply (number_to_datetime_short_forms 2069 12 31 0); [vm_compute; intuition discriminate|lia..].
Defined.

(** [calc_time_diff] of two valid date-times is the exact difference of the
    two instants: sign, whole seconds and microseconds of its magnitude. *)
Theorem calc_time_diff_exact t1 t2 :
  valid_date (year t1) (month t1) (day t1) -> valid_date (year t2) (month t2) (day t2) ->
  year t1 <= 9999 -> year t2 <= 9999 -> time_in_range t1 -> time_in_range t2 ->
  time_type t1 = DRIZZLE_TIMESTAMP_DATETIME -> time_type t2 = DRIZZLE_TIMESTAMP_DATETIME ->
  let '(neg, s, us) := calc_time_diff t1 t2 1 in
  (if neg then -1 else 1) * (s * 1000000 + us) = time_usec t1 - time_usec t2 /\
  0 <= s /\ 0 <= us < 1000000 /\ (neg = true <-> time_usec t1 < time_usec t2).
Proof.
  intros V1 V2 Y1 Y2 R1 R2 T1 T2; unfold calc_time_diff, time_in_range in *.
  rewrite T1, T2; pose proof (daynr_bounds _ _ _ V1 Y1); pose proof (daynr_bounds _ _ _ V2 Y2).
  assert (time_usec t1 - time_usec t2 =
    ((calc_daynr (year t1) (month t1) (day t1) - 1 * calc_daynr (year t2) (month t2) (day t2)) * 86400
     + (hour t1 * 3600 + minute t1 * 60 + second t1)
     - 1 * (hour t2 * 3600 + minute t2 * 60 + second t2)) * 1000000
    + second_part t1 - 1 * second_part t2) as E
    by (unfold time_usec, unix_seconds; rewrite !calc_daynr_valid by (assumption || lia); lia).
  rewrite (i64_small (calc_daynr _ _ _ - _)) by lia; rewrite <- E.
  set (D := time_usec t1 - time_usec t2) in *; rewrite (i64_small D) by lia.
  destruct (Z.ltb_spec D 0); rewrite ?(i64_small (- D)) by lia;
  (split; [dlia|split; [dlia|split; [dlia|split; [lia|intros; try discriminate; lia]]]]).
Qed.

Lemma calc_time_diff_exact_witness :
  let t1 := mkTime 2011 12 31 23 59 59 999999 false DRIZZLE_TIMESTAMP_DATETIME in
  let t2 := mkTime 2012 1 1 0 0 0 0 false DRIZZLE_TIMESTAMP_DATETIME in
  calc_time_diff t1 t2 1 = (true, 0, 1) /\
  let '(neg, s, us) := calc_time_diff t1 t2 1 in
  (if neg then -1 else 1) * (s * 1000000 + us) = time_usec t1 - time_usec t2 /\
  0 <= s /\ 0 <= us < 1000000 /\ (neg = true <-> time_usec t1 < time_usec t2).
Proof.
  split; [reflexivity|].
  apply (calc_time_diff_exact
    (mkTime 2011 12 31 23 59 59 999999 false DRIZZLE_TIMESTAMP_DATETIME)
    (mkTime 2012 1 1 0 0 0 0 false DRIZZLE_TIMESTAMP_DATETIME));
  try reflexivity; vm_compute; intuition discriminate.
Defined.

(** The largest TIME value, 838:59:59, in microseconds. *)
Definition time_max_usec : Z := ((838 * 60 + 59) * 60 + 59) * 1000000.

(** [check_time_range] rejects exactly the values whose minutes or seconds
    are not below 60; any other duration is replaced by its minimum with
    838:59:59, and the out-of-range warning is raised exactly when that
    changes it. *)
Theorem check_time_range_clamps t warning :
  0 <= day t <= 99999999 -> 0 <= hour t <= 99999999 ->
  0 <= minute t -> 0 <= second t -> 0 <= second_part t <= 999999 ->
  let '(ret, t', warning') := check_time_range t warning in
  (ret = 1 <-> 60 <= minute t \/ 60 <= second t) /\
  (ret = 0 ->
   duration_usec t' = Z.min (duration_usec t) time_max_usec /\
   (time_max_usec < duration_usec t ->
    warning' = Z.lor warning DRIZZLE_TIME_WARN_OUT_OF_RANGE) /\
   (duration_usec t <= time_max_usec -> t' = t /\ warning' = warning)).
Proof.
  intros Hd Hh Hm Hs Hp; unfold check_time_range.
  rewrite (u32_small (24 * day t)), (u32_small (hour t + _)) by lia.
  unfold duration_usec, time_max_usec, TIME_MAX_HOUR, TIME_MAX_MINUTE, TIME_MAX_SECOND.
  case_if; [split; [lia|discriminate]|].
  case_if; (split; [lia|intros _]); cbn [day hour minute second second_part].
  - split; [lia|split; [lia|auto]].
  - split; [lia|split; [reflexivity|lia]].
Qed.

Lemma check_time_range_clamps_witness :
  let t := mkTime 0 0 35 0 0 0 0 false DRIZZLE_TIMESTAMP_TIME in
  let '(ret, t', warning') := check_time_range t 0 in
  ret = 0 /\ hour t' = 838 /\
  (ret = 0 ->
   duration_usec t' = Z.min (duration_usec t) time_max_usec /\
   (time_max_usec < duration_usec t -> warning' = Z.lor 0 DRIZZLE_TIME_WARN_OUT_OF_RANGE) /\
   (duration_usec t <= time_max_usec -> t' = t /\ warning' = 0)).
Proof.
  split; [reflexivity|split; [reflexivity|]].
  refine (proj2 (check_time_range_clamps
    (mkTime 0 0 35 0 0 0 0 false DRIZZLE_TIMESTAMP_TIME) 0 _ _ _ _ _)); cbn; lia.
Defined.
