(* ===== verification/Temporal.v ===== *)
(** The temporal classes of [src/drizzled/temporal.cc] and [temporal.h]: [Date],
    [Time], [DateTime], [Timestamp], [MicroTimestamp] and [NanoTimestamp].

    All of them only add methods to the data of the base class, so an object is
    a [Temporal] record, and the dynamic class an argument of the methods that
    make a virtual call.  A method that updates [*this] returns the new record;
    [rhs] and [*this] may be the same object, which every method allows because
    it reads a member of [rhs] before it writes it.

    The C library's [timegm] is a parameter of the operations that call it. *)

From Stdlib Require Import ZArith Lia ZifyBool List Bool.
From S2P Require Import Prelude Calendar TimeTypes GmTime TimeCore.
Import ListNotations.
Local Open Scope Z_scope.

(** ** Model: data *)

(** src/drizzled/temporal.h:44-67 DRIZZLE_MAX_SECONDS *)
Definition DRIZZLE_MAX_SECONDS : Z := 59.
Definition DRIZZLE_MAX_SECONDS_WITH_LEAP : Z := 61.
Definition DRIZZLE_MAX_MINUTES : Z := 59.
Definition DRIZZLE_MAX_HOURS : Z := 23.
Definition DRIZZLE_MAX_MONTHS : Z := 12.
Definition DRIZZLE_MAX_YEARS_SQL : Z := 9999.
Definition DRIZZLE_MIN_YEARS_SQL : Z := 1.
Definition DRIZZLE_SECONDS_IN_MINUTE : Z := 60.
Definition DRIZZLE_SECONDS_IN_HOUR : Z := 60 * 60.
Definition DRIZZLE_SECONDS_IN_DAY : Z := 60 * 60 * 24.
Definition DRIZZLE_YY_PART_YEAR : Z := 70.

(** src/drizzled/temporal.h:79-93 Temporal *)
Record Temporal : Type := mkTemporal {
  _calendar : calendar;
  _years : Z; _months : Z; _days : Z;
  _hours : Z; _minutes : Z; _seconds : Z;
  _epoch_seconds : Z;
  _useconds : Z; _nseconds : Z;
  _overflow : bool }.

(** The dynamic class of an object. *)
Inductive temporal_class : Type :=
| CDate | CTime | CDateTime | CTimestamp | CMicroTimestamp | CNanoTimestamp.

(** src/drizzled/temporal.cc:64-76 Temporal::Temporal *)
Definition Temporal_new : Temporal := mkTemporal GREGORIAN 0 0 0 0 0 0 0 0 0 false.

(** src/drizzled/temporal.h:109-110 set_nseconds *)
Definition set_nseconds (n : Z) (t : Temporal) : Temporal :=
  mkTemporal (_calendar t) (_years t) (_months t) (_days t) (_hours t) (_minutes t)
             (_seconds t) (_epoch_seconds t) (_useconds t) n (_overflow t).

(** src/drizzled/temporal.h:113-114 set_useconds *)
Definition set_useconds (u : Z) (t : Temporal) : Temporal :=
  mkTemporal (_calendar t) (_years t) (_months t) (_days t) (_hours t) (_minutes t)
             (_seconds t) (_epoch_seconds t) u (_nseconds t) (_overflow t).

(** src/drizzled/temporal.h:122-124 set_epoch_seconds *)
Definition set_epoch_seconds_to (e : Z) (t : Temporal) : Temporal :=
  mkTemporal (_calendar t) (_years t) (_months t) (_days t) (_hours t) (_minutes t)
             (_seconds t) e (_useconds t) (_nseconds t) (_overflow t).

(** src/drizzled/temporal.h:127-138 set_seconds, set_minutes, set_hours *)
Definition set_time (h m s : Z) (t : Temporal) : Temporal :=
  mkTemporal (_calendar t) (_years t) (_months t) (_days t) h m s
             (_epoch_seconds t) (_useconds t) (_nseconds t) (_overflow t).

(** src/drizzled/temporal.h:139-150 set_days, set_months, set_years *)
Definition set_date (y m d : Z) (t : Temporal) : Temporal :=
  mkTemporal (_calendar t) y m d (_hours t) (_minutes t) (_seconds t)
             (_epoch_seconds t) (_useconds t) (_nseconds t) (_overflow t).

(** src/drizzled/temporal.h:97-101 _reset *)
Definition Temporal_reset (t : Temporal) : Temporal :=
  mkTemporal (_calendar t) 0 0 0 0 0 0 0 0 0 (_overflow t).

(** src/drizzled/temporal.cc:78-83 _cumulative_seconds_in_time *)
Definition _cumulative_seconds_in_time (t : Temporal) : Z :=
  u64 (_hours t * 3600 + _minutes t * 60 + _seconds t).

Definition jdn_of (t : Temporal) : Z :=
  julian_day_number_from_gregorian_date (_years t) (_months t) (_days t).

(** ** Model: validity *)

Section Validity.
Variable t : Temporal.

(** src/drizzled/temporal.cc:1353-1358 Date::is_valid *)
Definition Date_is_valid : bool :=
  (_years t >=? DRIZZLE_MIN_YEARS_SQL) && (_years t <=? DRIZZLE_MAX_YEARS_SQL)
  && (_months t >=? 1) && (_months t <=? DRIZZLE_MAX_MONTHS)
  && (_days t >=? 1) && (_days t <=? days_in_gregorian_year_month (_years t) (_months t)).

(** src/drizzled/temporal.cc:1360-1368 Time::is_valid *)
Definition Time_is_valid : bool :=
  (_years t =? 0) && (_months t =? 0) && (_days t =? 0)
  && (_hours t <=? DRIZZLE_MAX_HOURS) && (_minutes t <=? DRIZZLE_MAX_MINUTES)
  && (_seconds t <=? DRIZZLE_MAX_SECONDS).

(** src/drizzled/temporal.cc:1370-1381 Time::is_fuzzy_valid *)
Definition Time_is_fuzzy_valid : bool :=
  if Time_is_valid then true
  else
    (_years t >=? DRIZZLE_MIN_YEARS_SQL) && (_years t <=? DRIZZLE_MAX_YEARS_SQL)
    && (_months t >=? 1) && (_months t <=? DRIZZLE_MAX_MONTHS)
    && (_days t >=? 1) && (_days t <=? days_in_gregorian_year_month (_years t) (_months t))
    && (_hours t <=? DRIZZLE_MAX_HOURS) && (_minutes t <=? DRIZZLE_MAX_MINUTES)
    && (_seconds t <=? DRIZZLE_MAX_SECONDS).

(** src/drizzled/temporal.cc:1383-1391 DateTime::is_valid *)
Definition DateTime_is_valid : bool :=
  (_years t >=? DRIZZLE_MIN_YEARS_SQL) && (_years t <=? DRIZZLE_MAX_YEARS_SQL)
  && (_months t >=? 1) && (_months t <=? DRIZZLE_MAX_MONTHS)
  && (_days t >=? 1) && (_days t <=? days_in_gregorian_year_month (_years t) (_months t))
  && (_hours t <=? DRIZZLE_MAX_HOURS) && (_minutes t <=? DRIZZLE_MAX_MINUTES)
  && (_seconds t <=? DRIZZLE_MAX_SECONDS_WITH_LEAP).

(** src/drizzled/temporal.cc:1393-1398 Timestamp::is_valid *)
Definition Timestamp_is_valid : bool :=
  DateTime_is_valid
  && in_unix_epoch_range (_years t) (_months t) (_days t) (_hours t) (_minutes t) (_seconds t)
  && (_seconds t <=? DRIZZLE_MAX_SECONDS).

(** src/drizzled/temporal.cc:1400-1404 MicroTimestamp::is_valid *)
Definition MicroTimestamp_is_valid : bool := Timestamp_is_valid && (_useconds t <=? 999999).

(** src/drizzled/temporal.cc:1406-1411 NanoTimestamp::is_valid *)
Definition NanoTimestamp_is_valid : bool :=
  Timestamp_is_valid && (_useconds t <=? 999999) && (_nseconds t <=? 999999999).

(** src/drizzled/temporal.h:164-169 is_valid

    The virtual call. *)
Definition is_valid (c : temporal_class) : bool :=
  match c with
  | CDate => Date_is_valid
  | CTime => Time_is_valid
  | CDateTime => DateTime_is_valid
  | CTimestamp => Timestamp_is_valid
  | CMicroTimestamp => MicroTimestamp_is_valid
  | CNanoTimestamp => NanoTimestamp_is_valid
  end.

(** src/drizzled/temporal.cc:1194-1197 Date::in_unix_epoch *)
Definition Date_in_unix_epoch : bool :=
  in_unix_epoch_range (_years t) (_months t) (_days t) 0 0 0.

(** src/drizzled/temporal.cc:1199-1202 DateTime::in_unix_epoch *)
Definition DateTime_in_unix_epoch : bool :=
  in_unix_epoch_range (_years t) (_months t) (_days t) (_hours t) (_minutes t) (_seconds t).

(** src/drizzled/temporal.h:290-291 in_unix_epoch

    The virtual call; [Time] has no such method. *)
Definition in_unix_epoch (c : temporal_class) : bool :=
  match c with CDate => Date_in_unix_epoch | CTime => false | _ => DateTime_in_unix_epoch end.

(** src/drizzled/temporal.h:280-286 is_valid_date, is_valid_datetime, is_valid_time, is_valid_timestamp

    And their overrides in [Time] and [Timestamp]. *)
Definition is_valid_date (c : temporal_class) : bool :=
  match c with CTime => false | _ => is_valid c end.

(** src/drizzled/temporal.h:468-471 is_valid_time *)
Definition is_valid_time (c : temporal_class) : bool :=
  match c with CTime => is_valid c | _ => false end.

(** src/drizzled/temporal.h:727-727 is_valid_timestamp *)
Definition is_valid_timestamp (c : temporal_class) : bool :=
  match c with
  | CTime => false
  | CDate | CDateTime => is_valid c && in_unix_epoch c
  | _ => is_valid c
  end.

End Validity.

(** ** Model: comparisons *)

Section Comparisons.
Variables this rhs : Temporal.

(** src/drizzled/temporal.cc:178-187 Time::operator== *)
Definition Time_eq : bool :=
  (_hours this =? _hours rhs) && (_minutes this =? _minutes rhs)
  && (_seconds this =? _seconds rhs) && (_useconds this =? _useconds rhs)
  && (_nseconds this =? _nseconds rhs).

(** src/drizzled/temporal.cc:188-191 Time::operator!= *)
Definition Time_ne : bool := negb Time_eq.

(** src/drizzled/temporal.cc:192-195 Time::operator< *)
Definition Time_lt : bool :=
  _cumulative_seconds_in_time this <? _cumulative_seconds_in_time rhs.

(** src/drizzled/temporal.cc:196-199 Time::operator<= *)
Definition Time_le : bool :=
  _cumulative_seconds_in_time this <=? _cumulative_seconds_in_time rhs.

(** src/drizzled/temporal.cc:200-203 Time::operator> *)
Definition Time_gt : bool :=
  _cumulative_seconds_in_time this >? _cumulative_seconds_in_time rhs.

(** src/drizzled/temporal.cc:204-207 Time::operator>= *)
Definition Time_ge : bool :=
  _cumulative_seconds_in_time this >=? _cumulative_seconds_in_time rhs.

(** src/drizzled/temporal.cc:298-305 Date::operator== *)
Definition Date_eq_Date : bool :=
  (_years this =? _years rhs) && (_months this =? _months rhs) && (_days this =? _days rhs).

(** src/drizzled/temporal.cc:306-309 Date::operator!= *)
Definition Date_ne_Date : bool := negb Date_eq_Date.

(** src/drizzled/temporal.cc:310-315 Date::operator< *)
Definition Date_lt_Date : bool := jdn_of this <? jdn_of rhs.

(** src/drizzled/temporal.cc:316-321 Date::operator<= *)
Definition Date_le_Date : bool := jdn_of this <=? jdn_of rhs.

(** src/drizzled/temporal.cc:322-325 Date::operator> *)
Definition Date_gt_Date : bool := negb Date_le_Date.

(** src/drizzled/temporal.cc:326-329 Date::operator>= *)
Definition Date_ge_Date : bool := negb Date_lt_Date.

(** src/drizzled/temporal.cc:336-348 Date::operator== *)
Definition Date_eq_DateTime : bool :=
  (_years this =? _years rhs) && (_months this =? _months rhs) && (_days this =? _days rhs)
  && (_hours this =? _hours rhs) && (_minutes this =? _minutes rhs)
  && (_seconds this =? _seconds rhs) && (_useconds this =? _useconds rhs)
  && (_nseconds this =? _nseconds rhs).

(** src/drizzled/temporal.cc:349-352 Date::operator!= *)
Definition Date_ne_DateTime : bool := negb Date_eq_DateTime.

(** src/drizzled/temporal.cc:353-363 Date::operator< *)
Definition Date_lt_DateTime : bool :=
  let days_left := jdn_of this in
  let days_right := jdn_of rhs in
  if days_left <? days_right then true
  else if days_left >? days_right then false
  else _cumulative_seconds_in_time this <? _cumulative_seconds_in_time rhs.

(** src/drizzled/temporal.cc:364-374 Date::operator<= *)
Definition Date_le_DateTime : bool :=
  let days_left := jdn_of this in
  let days_right := jdn_of rhs in
  if days_left <? days_right then true
  else if days_left >? days_right then false
  else _cumulative_seconds_in_time this <=? _cumulative_seconds_in_time rhs.

(** src/drizzled/temporal.cc:375-378 Date::operator> *)
Definition Date_gt_DateTime : bool := negb Date_le_DateTime.

(** src/drizzled/temporal.cc:379-382 Date::operator>= *)
Definition Date_ge_DateTime : bool := negb Date_lt_DateTime.

(** src/drizzled/temporal.cc:809-812 Date::operator== *)
Definition Date_eq_Timestamp : bool :=
  (_years this =? _years rhs) && (_months this =? _months rhs) && (_days this =? _days rhs).

(** src/drizzled/temporal.cc:813-816 Date::operator!= *)
Definition Date_ne_Timestamp : bool := negb Date_eq_Timestamp.

(** src/drizzled/temporal.cc:817-830 Date::operator< *)
Definition Date_lt_Timestamp : bool :=
  if _years this <? _years rhs then true
  else if _years this >? _years rhs then false
  else if _months this <? _months rhs then true
  else if _months this >? _months rhs then false
  else _days this <? _days rhs.

(** src/drizzled/temporal.cc:831-834 Date::operator<= *)
Definition Date_le_Timestamp : bool := Date_lt_Timestamp || Date_eq_Timestamp.

(** src/drizzled/temporal.cc:835-838 Date::operator> *)
Definition Date_gt_Timestamp : bool := negb Date_le_Timestamp.

(** src/drizzled/temporal.cc:839-842 Date::operator>= *)
Definition Date_ge_Timestamp : bool := negb Date_lt_Timestamp.

(** src/drizzled/temporal.cc:846-849 Timestamp::operator== *)
Definition Timestamp_eq_Date : bool :=
  (_years this =? _years rhs) && (_months this =? _months rhs) && (_days this =? _days rhs).

(** src/drizzled/temporal.cc:850-853 Timestamp::operator!= *)
Definition Timestamp_ne_Date : bool := negb Timestamp_eq_Date.

(** src/drizzled/temporal.cc:854-867 Timestamp::operator< *)
Definition Timestamp_lt_Date : bool :=
  if _years this <? _years rhs then true
  else if _years this >? _years rhs then false
  else if _months this <? _months rhs then true
  else if _months this >? _months rhs then false
  else _days this <? _days rhs.

(** src/drizzled/temporal.cc:868-871 Timestamp::operator<= *)
Definition Timestamp_le_Date : bool := Timestamp_lt_Date || Timestamp_eq_Date.

(** src/drizzled/temporal.cc:872-875 Timestamp::operator> *)
Definition Timestamp_gt_Date : bool := negb Timestamp_le_Date.

(** src/drizzled/temporal.cc:876-879 Timestamp::operator>= *)
Definition Timestamp_ge_Date : bool := negb Timestamp_lt_Date.

(** src/drizzled/temporal.cc:883-887 Timestamp::operator== *)
Definition Timestamp_eq_DateTime : bool :=
  (_years this =? _years rhs) && (_months this =? _months rhs) && (_days this =? _days rhs)
  && (_hours this =? _hours rhs) && (_minutes this =? _minutes rhs)
  && (_seconds this =? _seconds rhs).

(** src/drizzled/temporal.cc:888-891 Timestamp::operator!= *)
Definition Timestamp_ne_DateTime : bool := negb Timestamp_eq_DateTime.

(** src/drizzled/temporal.cc:892-920 Timestamp::operator< *)
Definition Timestamp_lt_DateTime : bool :=
  if _years this <? _years rhs then true
  else if _years this >? _years rhs then false
  else if _months this <? _months rhs then true
  else if _months this >? _months rhs then false
  else if _days this <? _days rhs then true
  else if _days this >? _days rhs then false
  else if _hours this <? _hours rhs then true
  else if _hours this >? _hours rhs then false
  else if _minutes this <? _minutes rhs then true
  else if _minutes this >? _minutes rhs then false
  else _seconds this <? _seconds rhs.

(** src/drizzled/temporal.cc:921-924 Timestamp::operator<= *)
Definition Timestamp_le_DateTime : bool := Timestamp_lt_DateTime || Timestamp_eq_DateTime.

(** src/drizzled/temporal.cc:925-928 Timestamp::operator> *)
Definition Timestamp_gt_DateTime : bool := negb Timestamp_le_DateTime.

(** src/drizzled/temporal.cc:929-932 Timestamp::operator>= *)
Definition Timestamp_ge_DateTime : bool := negb Timestamp_lt_DateTime.

(** src/drizzled/temporal.cc:936-939 Timestamp::operator== *)
Definition Timestamp_eq : bool := _epoch_seconds this =? _epoch_seconds rhs.

(** src/drizzled/temporal.cc:940-943 Timestamp::operator!= *)
Definition Timestamp_ne : bool := negb Timestamp_eq.

(** src/drizzled/temporal.cc:944-947 Timestamp::operator< *)
Definition Timestamp_lt : bool := _epoch_seconds this <? _epoch_seconds rhs.

(** src/drizzled/temporal.cc:948-951 Timestamp::operator<= *)
Definition Timestamp_le : bool := _epoch_seconds this <=? _epoch_seconds rhs.

(** src/drizzled/temporal.cc:952-955 Timestamp::operator> *)
Definition Timestamp_gt : bool := negb Timestamp_le.

(** src/drizzled/temporal.cc:956-959 Timestamp::operator>= *)
Definition Timestamp_ge : bool := negb Timestamp_lt.

End Comparisons.

(** ** Model: arithmetic

    [int64_t second_diff] is assigned from a [uint64_t]; [(uint32_t) second_diff / k]
    casts before it divides, [second_diff%= k] is signed; the difference of the
    microseconds is taken in [uint32_t] and only then widened. *)

(** src/drizzled/temporal.cc:236-240 Time::operator-

    The three members are written from the seconds; these lines are repeated in
    every arithmetic operator. *)
Definition put_seconds (second_diff : Z) (t : Temporal) : Temporal :=
  let h := u32 second_diff / DRIZZLE_SECONDS_IN_HOUR in
  let second_diff := Z.rem second_diff DRIZZLE_SECONDS_IN_HOUR in
  let m := u32 second_diff / DRIZZLE_SECONDS_IN_MINUTE in
  let second_diff := Z.rem second_diff DRIZZLE_SECONDS_IN_MINUTE in
  set_time h m (u32 second_diff) t.

(** src/drizzled/temporal.cc:421-428 Date::operator- *)
Definition put_useconds (lhs_useconds rhs_useconds : Z) (t : Temporal) : Temporal :=
  let microsecond_diff := u32 (lhs_useconds - rhs_useconds) in
  if microsecond_diff <? 0
  then set_useconds (u32 (i64 (-1 * microsecond_diff)))
         (set_time (_hours t) (_minutes t) (u32 (_seconds t - 1)) t)
  else set_useconds (u32 microsecond_diff) t.

Definition second_sub (a b : Temporal) : Z :=
  i64 (u64 (_cumulative_seconds_in_time a - _cumulative_seconds_in_time b)).

Definition second_add (a b : Temporal) : Z :=
  i64 (u64 (_cumulative_seconds_in_time a + _cumulative_seconds_in_time b)).

(** src/drizzled/temporal.cc:413-414 Date::operator- *)
Definition borrow_day (second_diff : Z) (t : Temporal) : Temporal :=
  if second_diff <? 0 then set_date (_years t) (_months t) (u32 (_days t - 1)) t else t.

(** src/drizzled/temporal.cc:451-455 Date::operator+

    The carried day and the remaining seconds. *)
Definition carry_day (second_diff : Z) (t : Temporal) : Temporal * Z :=
  if second_diff >=? DRIZZLE_SECONDS_IN_DAY
  then (set_date (_years t) (_months t) (u32 (_days t + 1)) t,
        Z.rem second_diff DRIZZLE_SECONDS_IN_DAY)
  else (t, second_diff).

(** src/drizzled/temporal.cc:561-563 Date::operator-

    The date members are written from a day number. *)
Definition put_jdn (day : Z) (t : Temporal) : Temporal :=
  let '(y, m, d) := gregorian_date_from_julian_day_number day in set_date y m d t.

Section Arithmetic.
Variables this rhs : Temporal.

(** src/drizzled/temporal.cc:231-243 Time::operator- *)
Definition Time_minus : Temporal := put_seconds (second_sub this rhs) Temporal_new.

(** src/drizzled/temporal.cc:244-258 Time::operator+ *)
Definition Time_plus : Temporal := put_seconds (second_add this rhs) Temporal_new.

(** src/drizzled/temporal.cc:264-277 Time::operator+= *)
Definition Time_plus_assign : Temporal := put_seconds (second_add this rhs) this.

(** src/drizzled/temporal.cc:278-291 Time::operator-= *)
Definition Time_minus_assign : Temporal := put_seconds (second_sub this rhs) this.

(** src/drizzled/temporal.cc:388-431 Date::operator-

    The [DateTime] that is built is returned as a [Date]. *)
Definition Date_minus_Time : Temporal :=
  let result := set_date (_years this) (_months this) (_days this) Temporal_new in
  let second_diff := second_sub this rhs in
  let result := borrow_day second_diff result in
  let result := put_seconds second_diff result in
  put_useconds (_useconds this) (_useconds rhs) result.

(** src/drizzled/temporal.cc:432-473 Date::operator+ *)
Definition Date_plus_Time : Temporal :=
  let result := set_date (_years this) (_months this) (_days this) Temporal_new in
  let '(result, second_diff) := carry_day (second_add this rhs) result in
  let result := put_seconds second_diff result in
  put_useconds (_useconds this) (_useconds rhs) result.

(** src/drizzled/temporal.cc:479-511 Date::operator+= *)
Definition Date_plus_assign_Time : Temporal :=
  let '(this', second_diff) := carry_day (second_add this rhs) this in
  let this' := put_seconds second_diff this' in
  put_useconds (_useconds this) (_useconds rhs) this'.

(** src/drizzled/temporal.cc:512-548 Date::operator-= *)
Definition Date_minus_assign_Time : Temporal :=
  let second_diff := second_sub this rhs in
  let this' := borrow_day second_diff this in
  let this' := put_seconds second_diff this' in
  put_useconds (_useconds this) (_useconds rhs) this'.

(** src/drizzled/temporal.cc:554-565 Date::operator- *)
Definition Date_minus_Date : Temporal := put_jdn (i64 (jdn_of this - jdn_of rhs)) Temporal_new.

(** src/drizzled/temporal.cc:566-582 Date::operator+ *)
Definition Date_plus_Date : Temporal := put_jdn (i64 (jdn_of this + jdn_of rhs)) Temporal_new.

(** src/drizzled/temporal.cc:584-593 Date::operator-= *)
Definition Date_minus_assign_Date : Temporal := put_jdn (i64 (jdn_of this - jdn_of rhs)) this.

(** src/drizzled/temporal.cc:594-609 Date::operator+= *)
Definition Date_plus_assign_Date : Temporal := put_jdn (i64 (jdn_of this + jdn_of rhs)) this.

(** src/drizzled/temporal.cc:611-620 Date::operator= *)
Definition Date_assign_DateTime : Temporal :=
  set_nseconds 0 (set_useconds 0 (set_time 0 0 0
    (set_date (_years rhs) (_months rhs) (_days rhs) this))).

(** src/drizzled/temporal.cc:626-669 Date::operator-

    The result, and [*this]: the day borrowed for a negative time difference is
    taken from [*this] (lines 650-651), not from the result. *)
Definition Date_minus_DateTime : Temporal * Temporal :=
  let result := put_jdn (i64 (jdn_of this - jdn_of rhs)) Temporal_new in
  let second_diff := second_sub this rhs in
  let this' := borrow_day second_diff this in
  let result := put_seconds second_diff result in
  (put_useconds (_useconds this) (_useconds rhs) result, this').

(** src/drizzled/temporal.cc:670-715 Date::operator+ *)
Definition Date_plus_DateTime : Temporal :=
  let result := put_jdn (i64 (jdn_of this + jdn_of rhs)) Temporal_new in
  let '(result, second_diff) := carry_day (second_add this rhs) result in
  let result := put_seconds second_diff result in
  put_useconds (_useconds this) (_useconds rhs) result.

(** src/drizzled/temporal.cc:717-759 Date::operator-= *)
Definition Date_minus_assign_DateTime : Temporal :=
  let this' := put_jdn (i64 (jdn_of this - jdn_of rhs)) this in
  let second_diff := second_sub this rhs in
  let this' := borrow_day second_diff this' in
  let this' := put_seconds second_diff this' in
  put_useconds (_useconds this) (_useconds rhs) this'.

(** src/drizzled/temporal.cc:760-804 Date::operator+= *)
Definition Date_plus_assign_DateTime : Temporal :=
  let this' := put_jdn (i64 (jdn_of this + jdn_of rhs)) this in
  let '(this', second_diff) := carry_day (second_add this rhs) this' in
  let this' := put_seconds second_diff this' in
  put_useconds (_useconds this) (_useconds rhs) this'.

End Arithmetic.

(** ** Model: conversions *)

(** src/drizzled/temporal.cc:1052-1055 Date::to_int64_t *)
Definition Date_to_int64_t (t : Temporal) : Z :=
  u32 (u32 (u32 (_years t * 10000) + u32 (_months t * 100)) + _days t).

(** src/drizzled/temporal.cc:1057-1060 Date::to_int32_t *)
Definition Date_to_int32_t (t : Temporal) : Z :=
  i32 (u32 (u32 (u32 (_years t * 10000) + u32 (_months t * 100)) + _days t)).

(** src/drizzled/temporal.cc:1062-1065 Time::to_int32_t *)
Definition Time_to_int32_t (t : Temporal) : Z :=
  i32 (u32 (u32 (u32 (_hours t * 10000) + u32 (_minutes t * 100)) + _seconds t)).

(** src/drizzled/temporal.cc:1068-1071 Time::to_uint64_t *)
Definition Time_to_uint64_t (t : Temporal) : Z :=
  u32 (u32 (u32 (u32 (_hours t * 60) * 60) + u32 (_minutes t * 60)) + _seconds t).

(** src/drizzled/temporal.cc:1073-1085 DateTime::to_int64_t *)
Definition DateTime_to_int64_t (t : Temporal) : Z :=
  i64 ((_years t * 10000 + _months t * 100 + _days t) * 1000000
       + (_hours t * 10000 + _minutes t * 100 + _seconds t)).

(** src/drizzled/temporal.cc:1087-1095 Date::to_tm

    The members that are not assigned keep their value. *)
Definition Date_to_tm (t : Temporal) (to : tm) : tm :=
  mkTm 0 0 0 (i32 (_days t)) (i32 (u32 (_months t - 1))) (i32 (u32 (_years t - 1900)))
       (tm_wday to) (tm_yday to) (tm_isdst to).

(** src/drizzled/temporal.cc:1097-1105 DateTime::to_tm *)
Definition DateTime_to_tm (t : Temporal) (to : tm) : tm :=
  mkTm (i32 (_seconds t)) (i32 (_minutes t)) (i32 (_hours t)) (i32 (_days t))
       (i32 (u32 (_months t - 1))) (i32 (u32 (_years t - 1900)))
       (tm_wday to) (tm_yday to) (tm_isdst to).

(** src/drizzled/temporal.cc:1113-1116 Date::to_julian_day_number *)
Definition Date_to_julian_day_number (t : Temporal) : Z := jdn_of t.

(** src/drizzled/temporal.cc:1107-1111 Date::from_julian_day_number *)
Definition Date_from_julian_day_number (c : temporal_class) (from : Z) (t : Temporal)
  : bool * Temporal :=
  let t := put_jdn from t in (is_valid t c, t).

(** src/drizzled/temporal.cc:1130-1137 Time::from_int32_t *)
Definition Time_from_int32_t (from : Z) (t : Temporal) : bool * Temporal :=
  let copy_from := u32 from in
  let t := set_time (copy_from / 10000) (copy_from mod 10000 / 100) (copy_from mod 100) t in
  (is_valid t CTime, t).

(** src/drizzled/temporal.cc:1224-1246 Time::from_time_t *)
Definition Time_from_time_t (from : Z) (t : Temporal) : bool * Temporal :=
  match gmtime_tm from with
  | Some b =>
      (true, mkTemporal (_calendar t) 0 0 0
               (u32 (tm_hour b)) (u32 (tm_min b)) (u32 (tm_sec b)) 0 0 0 (_overflow t))
  | None => (false, t)
  end.

(** src/drizzled/temporal.cc:1248-1270 Date::from_time_t *)
Definition Date_from_time_t (c : temporal_class) (from : Z) (t : Temporal) : bool * Temporal :=
  match gmtime_tm from with
  | Some b =>
      let t := mkTemporal (_calendar t) (u32 (i32 (1900 + tm_year b)))
                 (u32 (i32 (1 + tm_mon b))) (u32 (tm_mday b)) 0 0 0 0 0 0 (_overflow t) in
      (is_valid t c, t)
  | None => (false, t)
  end.

(** src/drizzled/temporal.cc:1272-1296 DateTime::from_timeval *)
Definition DateTime_from_timeval (c : temporal_class) (tv_sec tv_usec : Z) (t : Temporal)
  : bool * Temporal :=
  match gmtime_tm tv_sec with
  | Some b =>
      let t := mkTemporal (_calendar t) (u32 (i32 (1900 + tm_year b)))
                 (u32 (i32 (1 + tm_mon b))) (u32 (tm_mday b))
                 (u32 (tm_hour b)) (u32 (tm_min b)) (u32 (tm_sec b))
                 tv_sec (u32 tv_usec) 0 (_overflow t) in
      (is_valid t c, t)
  | None => (false, t)
  end.

(** src/drizzled/temporal.cc:1298-1322 DateTime::from_time_t *)
Definition DateTime_from_time_t (c : temporal_class) (from : Z) (t : Temporal)
  : bool * Temporal :=
  match gmtime_tm from with
  | Some b =>
      let t := mkTemporal (_calendar t) (u32 (i32 (1900 + tm_year b)))
                 (u32 (i32 (1 + tm_mon b))) (u32 (tm_mday b))
                 (u32 (tm_hour b)) (u32 (tm_min b)) (u32 (tm_sec b))
                 from 0 0 (_overflow t) in
      (is_valid t c, t)
  | None => (false, t)
  end.

(** src/drizzled/temporal.cc:1324-1334 Date::to_time_t *)
Definition Date_to_time_t (c : temporal_class) (t : Temporal) : Z :=
  if in_unix_epoch t c then _epoch_seconds t else 0.

(** src/drizzled/temporal.cc:1336-1339 Timestamp::to_time_t *)
Definition Timestamp_to_time_t (t : Temporal) : Z := _epoch_seconds t.

(** src/drizzled/temporal.cc:1341-1345 MicroTimestamp::to_timeval *)
Definition MicroTimestamp_to_timeval (t : Temporal) : Z * Z := (_epoch_seconds t, _useconds t).

(** src/drizzled/temporal.cc:1347-1351 NanoTimestamp::to_timespec *)
Definition NanoTimestamp_to_timespec (t : Temporal) : Z * Z := (_epoch_seconds t, _nseconds t).

Section Epoch.

(** The C library's conversion from broken-down UTC time, and the value of the
    members of the local [struct tm] that are not assigned before the call. *)
Variable timegm : tm -> Z.
Variable broken_time : tm.

(** src/drizzled/temporal.cc:123-145 Temporal::set_epoch_seconds *)
Definition set_epoch_seconds (t : Temporal) : Temporal :=
  if in_unix_epoch_range (_years t) (_months t) (_days t) (_hours t) (_minutes t) (_seconds t)
  then
    let result_time :=
      timegm (mkTm (i32 (_seconds t)) (i32 (_minutes t)) (i32 (_hours t)) (i32 (_days t))
                (i32 (u32 (_months t - 1))) (i32 (u32 (_years t - 1900)))
                (tm_wday broken_time) (tm_yday broken_time) (tm_isdst broken_time)) in
    set_epoch_seconds_to result_time t
  else t.

(** src/drizzled/temporal.cc:1150-1176 DateTime::from_int64_t

    The shortened forms; [None] is the early return of false. *)
Definition from_int64_expand (copy_from : Z) (convert : bool) : option Z :=
  if convert && (copy_from <? 10000101000000) then
    if copy_from <? 101 then None
    else if copy_from <=? (DRIZZLE_YY_PART_YEAR - 1) * 10000 + 1231 then
      Some ((copy_from + 20000000) * 1000000)
    else if copy_from <? DRIZZLE_YY_PART_YEAR * 10000 + 101 then None
    else if copy_from <=? 991231 then Some ((copy_from + 19000000) * 1000000)
    else if copy_from <? 10000101 then None
    else if copy_from <=? 99991231 then Some (copy_from * 1000000)
    else if copy_from <? 101000000 then None
    else if copy_from <=? (DRIZZLE_YY_PART_YEAR - 1) * 10000000000 + 1231235959 then
      Some (copy_from + 20000000000000)
    else if copy_from <? DRIZZLE_YY_PART_YEAR * 10000000000 + 101000000 then None
    else if copy_from <=? 991231235959 then Some (copy_from + 19000000000000)
    else Some copy_from
  else Some copy_from.

(** src/drizzled/temporal.cc:1144-1192 DateTime::from_int64_t *)
Definition DateTime_from_int64_t (c : temporal_class) (from : Z) (convert : bool) (t : Temporal)
  : bool * Temporal :=
  if from =? 0 then (false, t)
  else
    match from_int64_expand from convert with
    | None => (false, t)
    | Some copy_from =>
        let part1 := copy_from ÷ 1000000 in
        let part2 := copy_from - part1 * 1000000 in
        let y := u32 (part1 ÷ 10000) in
        let part1 := Z.rem part1 10000 in
        let mo := u32 part1 / 100 in
        let d := u32 part1 mod 100 in
        let h := u32 (part2 ÷ 10000) in
        let part2 := Z.rem part2 10000 in
        let mi := u32 part2 / 100 in
        let s := u32 part2 mod 100 in
        let t := set_epoch_seconds (set_time h mi s (set_date y mo d t)) in
        (is_valid t c, t)
    end.

(** src/drizzled/temporal.cc:1121-1124 Date::from_int32_t *)
Definition Date_from_int32_t (c : temporal_class) (from : Z) (t : Temporal) : bool * Temporal :=
  DateTime_from_int64_t c from true t.

(** src/drizzled/temporal.cc:1204-1218 Date::from_tm *)
Definition Date_from_tm (c : temporal_class) (from : tm) (t : Temporal) : bool * Temporal :=
  let t := set_nseconds 0 (set_useconds 0
             (set_time (u32 (tm_hour from)) (u32 (tm_min from)) (u32 (tm_sec from))
               (set_date (u32 (i32 (1900 + tm_year from))) (u32 (i32 (1 + tm_mon from)))
                         (u32 (tm_mday from)) t))) in
  let t := set_epoch_seconds t in
  (is_valid t c, t).

End Epoch.

(** ** Model: output *)

Definition ch_dash : Z := 45.
Definition ch_colon : Z := 58.
Definition ch_space : Z := 32.
Definition ch_dot : Z := 46.

(** src/drizzled/temporal.cc:989-992 Time::to_string *)
Definition Time_to_string (to_len : nat) (t : Temporal) : list Z * Z :=
  snprintf to_len (fmt_0u 2 (_hours t) ++ [ch_colon] ++ fmt_0u 2 (_minutes t) ++ [ch_colon]
                   ++ fmt_0u 2 (_seconds t)).

(** src/drizzled/temporal.cc:994-997 Date::to_string *)
Definition Date_to_string (to_len : nat) (t : Temporal) : list Z * Z :=
  snprintf to_len (fmt_0u 4 (_years t) ++ [ch_dash] ++ fmt_0u 2 (_months t) ++ [ch_dash]
                   ++ fmt_0u 2 (_days t)).

Definition datetime_text (t : Temporal) : list Z :=
  fmt_0u 4 (_years t) ++ [ch_dash] ++ fmt_0u 2 (_months t) ++ [ch_dash]
  ++ fmt_0u 2 (_days t) ++ [ch_space] ++ fmt_0u 2 (_hours t) ++ [ch_colon]
  ++ fmt_0u 2 (_minutes t) ++ [ch_colon] ++ fmt_0u 2 (_seconds t).

(** src/drizzled/temporal.cc:999-1014 DateTime::to_string *)
Definition DateTime_to_string (to_len : nat) (t : Temporal) : list Z * Z :=
  if _useconds t =? 0 then snprintf to_len (datetime_text t)
  else snprintf to_len (datetime_text t ++ [ch_dot] ++ fmt_0u 6 (_useconds t)).

(** src/drizzled/temporal.cc:1016-1021 MicroTimestamp::to_string *)
Definition MicroTimestamp_to_string (to_len : nat) (t : Temporal) : list Z * Z :=
  snprintf to_len (datetime_text t ++ [ch_dot] ++ fmt_0u 6 (_useconds t)).

(** src/drizzled/temporal.cc:968-976 operator<<

    The year is written without a width. *)
Definition Timestamp_output (t : Temporal) : list Z :=
  fmt_u (_years t) ++ [ch_dash] ++ fmt_0u 2 (_months t) ++ [ch_dash]
  ++ fmt_0u 2 (_days t) ++ [ch_space] ++ fmt_0u 2 (_hours t) ++ [ch_colon]
  ++ fmt_0u 2 (_minutes t) ++ [ch_colon] ++ fmt_0u 2 (_seconds t).

(** ** Lemmas *)

(** The members are [uint32_t]. *)
Definition temporal_u32 (t : Temporal) : Prop :=
  is_u32 (_years t) /\ is_u32 (_months t) /\ is_u32 (_days t) /\ is_u32 (_hours t) /\
  is_u32 (_minutes t) /\ is_u32 (_seconds t) /\ is_u32 (_useconds t) /\ is_u32 (_nseconds t).

Lemma Date_is_valid_spec t : Date_is_valid t = true ->
  valid_date (_years t) (_months t) (_days t) /\ _years t <= 9999.
Proof.
  unfold Date_is_valid, valid_date, DRIZZLE_MIN_YEARS_SQL, DRIZZLE_MAX_YEARS_SQL, DRIZZLE_MAX_MONTHS.
  lia.
Qed.

Lemma DateTime_is_valid_spec t : DateTime_is_valid t = true ->
  Date_is_valid t = true /\ _hours t <= 23 /\ _minutes t <= 59 /\ _seconds t <= 61.
Proof.
  unfold DateTime_is_valid, Date_is_valid, DRIZZLE_MAX_HOURS, DRIZZLE_MAX_MINUTES,
    DRIZZLE_MAX_SECONDS_WITH_LEAP.
  repeat rewrite andb_true_iff; intuition lia.
Qed.

Lemma cumulative_seconds_eq t : temporal_u32 t ->
  _cumulative_seconds_in_time t = _hours t * 3600 + _minutes t * 60 + _seconds t.
Proof. unfold temporal_u32, is_u32, _cumulative_seconds_in_time; intros; apply u64_small; lia. Qed.

(** Seconds below 2^32 are split exactly. *)
Lemma put_seconds_exact sd t : 0 <= sd < 4294967296 ->
  put_seconds sd t = set_time (sd / 3600) (sd mod 3600 / 60) (sd mod 60) t.
Proof.
  intros Hs; unfold put_seconds, DRIZZLE_SECONDS_IN_HOUR, DRIZZLE_SECONDS_IN_MINUTE.
  rewrite (Z.rem_mod_nonneg sd (60 * 60)) by lia; change (60 * 60) with 3600.
  rewrite (u32_small sd), (u32_small (sd mod 3600)), Z.rem_mod_nonneg by dlia.
  rewrite u32_small by dlia; f_equal; dlia.
Qed.

(** Date and time-of-day as one comparable number of seconds. *)
Definition instant (t : Temporal) : Z := jdn_of t * 86400 + _cumulative_seconds_in_time t.


Lemma Date_is_valid_u32 t : Date_is_valid t = true ->
  1 <= _years t <= 9999 /\ 1 <= _months t <= 12 /\ 1 <= _days t <= 31 /\
  1721426 <= jdn_of t <= 5373484.
Proof.
  intros [V Hy]%Date_is_valid_spec; pose proof (valid_date_bounds _ _ _ V).
  pose proof (daynr_bounds _ _ _ V Hy) as B; rewrite calc_daynr_valid in B by (auto || lia).
  unfold jdn_of; lia.
Qed.

(** A valid time of day without a leap second. *)
Definition time_of_day (t : Temporal) : Prop :=
  0 <= _hours t <= 23 /\ 0 <= _minutes t <= 59 /\ 0 <= _seconds t <= 59.

Lemma cumulative_seconds_tod t : time_of_day t ->
  _cumulative_seconds_in_time t = _hours t * 3600 + _minutes t * 60 + _seconds t.
Proof. unfold time_of_day, _cumulative_seconds_in_time; intros; apply u64_small; lia. Qed.

(** The field-wise order of two dates is the order of their day numbers. *)
Lemma date_order_cases a b : Date_is_valid a = true -> Date_is_valid b = true ->
  (jdn_of a < jdn_of b /\ lex_lt (_years a) (_months a) (_days a) (_years b) (_months b) (_days b))
  \/ (jdn_of a = jdn_of b /\ _years a = _years b /\ _months a = _months b /\ _days a = _days b)
  \/ (jdn_of b < jdn_of a /\ lex_lt (_years b) (_months b) (_days b) (_years a) (_months a) (_days a)).
Proof.
  intros [V1 _]%Date_is_valid_spec [V2 _]%Date_is_valid_spec; unfold jdn_of.
  destruct (lex_lt_total (_years a) (_months a) (_days a) (_years b) (_months b) (_days b))
    as [L|[(-> & -> & ->)|L]]; [left|right; left; auto|right; right]; (split; [|exact L]);
  apply jdn_order; auto.
Qed.

Lemma put_jdn_valid t t0 : Date_is_valid t = true ->
  put_jdn (jdn_of t) t0 = set_date (_years t) (_months t) (_days t) t0.
Proof.
  intros [V _]%Date_is_valid_spec; unfold put_jdn, jdn_of; rewrite gregorian_of_valid by exact V.
  reflexivity.
Qed.

Lemma put_jdn_back j t0 : 1721426 <= j < 1568000000000 -> jdn_of (put_jdn j t0) = j.
Proof.
  intros Hj; destruct (jdn_surj j Hj) as (y & m & d & V & <-).
  unfold put_jdn; rewrite gregorian_of_valid by exact V; reflexivity.
Qed.

(** ** Properties *)

(** All the orders the classes implement are the same one: on valid values
    the field-by-field comparison of a [Timestamp] with a [DateTime] or [Date]
    and the day-number comparison of a [Date] agree with each other and with
    the order of the instants, and so does the epoch comparison of two
    [Timestamp]s whose epoch seconds are those of their fields. *)
Theorem temporal_orders_agree a b :
  Date_is_valid a = true -> Date_is_valid b = true -> time_of_day a -> time_of_day b ->
  Timestamp_lt_DateTime a b = (instant a <? instant b) /\
  Date_lt_DateTime a b = (instant a <? instant b) /\
  Timestamp_le_DateTime a b = (instant a <=? instant b) /\
  Date_le_DateTime a b = (instant a <=? instant b) /\
  Date_lt_Timestamp a b = Date_lt_Date a b /\ Timestamp_le_Date a b = Date_le_Date a b /\
  (_epoch_seconds a = instant a - 2440588 * 86400 ->
   _epoch_seconds b = instant b - 2440588 * 86400 ->
   Timestamp_lt a b = Timestamp_lt_DateTime a b).
Proof.
  intros Va Vb Ta Tb; unfold instant.
  rewrite !cumulative_seconds_tod by assumption.
  pose proof (date_order_cases a b Va Vb) as C; unfold lex_lt, time_of_day in *.
  unfold Timestamp_le_DateTime, Timestamp_le_Date, Timestamp_lt_DateTime, Date_lt_DateTime,
    Date_le_DateTime, Date_lt_Timestamp, Timestamp_lt_Date, Date_lt_Date, Date_le_Date,
    Timestamp_eq_DateTime, Timestamp_eq_Date, Timestamp_lt.
  rewrite !cumulative_seconds_tod by assumption.
  repeat (split; [repeat case_if; lia|]); repeat case_if; lia.
Qed.

Lemma temporal_orders_agree_witness :
  let a := mkTemporal GREGORIAN 1999 12 31 23 59 59 946684799 0 0 false in
  let b := mkTemporal GREGORIAN 2000 1 1 0 0 0 946684800 0 0 false in
  Timestamp_lt_DateTime a b = (instant a <? instant b) /\
  Date_lt_DateTime a b = (instant a <? instant b) /\
  Timestamp_le_DateTime a b = (instant a <=? instant b) /\
  Date_le_DateTime a b = (instant a <=? instant b) /\
  Date_lt_Timestamp a b = Date_lt_Date a b /\ Timestamp_le_Date a b = Date_le_Date a b /\
  (_epoch_seconds a = instant a - 2440588 * 86400 ->
   _epoch_seconds b = instant b - 2440588 * 86400 ->
   Timestamp_lt a b = Timestamp_lt_DateTime a b).
Proof.
  apply (temporal_orders_agree
    (mkTemporal GREGORIAN 1999 12 31 23 59 59 946684799 0 0 false)
    (mkTemporal GREGORIAN 2000 1 1 0 0 0 946684800 0 0 false));
  try reflexivity; unfold time_of_day; cbn; lia.
Defined.

(** Adding and subtracting undo each other: for two valid dates, and for two
    valid times of day (even when the sum passes midnight). *)
Theorem temporal_add_sub_round_trip a b :
  (Date_is_valid a = true -> Date_is_valid b = true ->
   Date_minus_Date (Date_plus_Date a b) b
   = set_date (_years a) (_months a) (_days a) Temporal_new) /\
  (time_of_day a -> time_of_day b ->
   Time_minus (Time_plus a b) b
   = set_time (_hours a) (_minutes a) (_seconds a) Temporal_new).
Proof.
  split.
  - intros Va Vb; unfold Date_minus_Date, Date_plus_Date.
    pose proof (Date_is_valid_u32 a Va) as (_ & _ & _ & Ja).
    pose proof (Date_is_valid_u32 b Vb) as (_ & _ & _ & Jb).
    rewrite (i64_small (jdn_of a + _)), put_jdn_back by lia.
    rewrite i64_small by lia; replace (jdn_of a + jdn_of b - jdn_of b) with (jdn_of a) by lia.
    apply put_jdn_valid; exact Va.
  - intros Ta Tb; unfold Time_minus, Time_plus, second_sub, second_add.
    rewrite (cumulative_seconds_tod a), (cumulative_seconds_tod b) by assumption.
    unfold time_of_day in *.
    set (S := _hours a * 3600 + _ + _ + (_ + _ + _)).
    rewrite (u64_small S), (i64_small S), (put_seconds_exact S) by (unfold S; lia).
    unfold _cumulative_seconds_in_time; cbn [_hours _minutes _seconds set_time].
    rewrite (u64_small (S / 3600 * 3600 + _ + _)) by (unfold S; dlia).
    replace (S / 3600 * 3600 + S mod 3600 / 60 * 60 + S mod 60) with S by dlia.
    unfold S; rewrite (u64_small (_ - _)), (i64_small (_ - _)), put_seconds_exact by lia.
    f_equal; dlia.
Qed.

Lemma temporal_add_sub_round_trip_witness :
  let a := mkTemporal GREGORIAN 2012 2 29 20 30 40 0 0 0 false in
  let b := mkTemporal GREGORIAN 1999 12 31 13 50 30 0 0 0 false in
  Date_minus_Date (Date_plus_Date a b) b = set_date 2012 2 29 Temporal_new /\
  Time_minus (Time_plus a b) b = set_time 20 30 40 Temporal_new.
Proof.
  destruct (temporal_add_sub_round_trip
    (mkTemporal GREGORIAN 2012 2 29 20 30 40 0 0 0 false)
    (mkTemporal GREGORIAN 1999 12 31 13 50 30 0 0 0 false)) as [D T].
  split; [apply D; reflexivity|apply T; unfold time_of_day; cbn; lia].
Defined.

(** Subtracting a larger time of day from a valid [DateTime] never gives a
    valid [DateTime]: the negative number of seconds is cast to [uint32_t]
    before it is split, so the hours exceed 23 although a day was borrowed. *)
Theorem date_minus_larger_time_is_invalid a b :
  time_of_day a -> time_of_day b ->
  _cumulative_seconds_in_time a < _cumulative_seconds_in_time b ->
  DateTime_is_valid (Date_minus_Time a b) = false /\
  DateTime_is_valid (Date_minus_assign_Time a b) = false.
Proof.
  intros Ta Tb L.
  assert (forall u v t, 23 < _hours t -> DateTime_is_valid (put_useconds u v t) = false) as H.
  { intros u v t Ht; unfold DateTime_is_valid.
    assert (_hours (put_useconds u v t) = _hours t) as -> by (unfold put_useconds; case_if; reflexivity).
    unfold DRIZZLE_MAX_HOURS; lia. }
  assert (forall t, 23 < _hours (put_seconds (second_sub a b) t)) as P.
  { intros t; unfold put_seconds, second_sub; cbn [_hours set_time].
    rewrite !cumulative_seconds_tod in * by assumption; unfold time_of_day in *.
    set (D := _ - _) in *; assert (-86400 < D < 0) by (unfold D; lia).
    assert (u64 D = D + 18446744073709551616) as ->
      by (rewrite u64_eq; symmetry; apply (Z.mod_unique D _ (-1)); lia).
    assert (i64 (D + 18446744073709551616) = D) as ->
      by (unfold i64, swrap; change (2 ^ (64 - 1)) with 9223372036854775808;
          change (2 ^ 64) with 18446744073709551616; dlia).
    assert (u32 D = D + 4294967296) as ->
      by (rewrite u32_eq; symmetry; apply (Z.mod_unique D _ (-1)); lia).
    unfold DRIZZLE_SECONDS_IN_HOUR; dlia. }
  split; apply H, P.
Qed.

Lemma date_minus_larger_time_is_invalid_witness :
  let a := mkTemporal GREGORIAN 2007 6 9 9 30 0 0 0 0 false in
  let b := mkTemporal GREGORIAN 0 0 0 16 30 0 0 0 0 false in
  DateTime_is_valid a = true /\ Time_is_valid b = true /\
  _hours (Date_minus_Time a b) = 1193039 /\
  DateTime_is_valid (Date_minus_Time a b) = false /\
  DateTime_is_valid (Date_minus_assign_Time a b) = false.
Proof.
  split; [reflexivity|split; [reflexivity|split; [reflexivity|]]].
  apply (date_minus_larger_time_is_invalid
    (mkTemporal GREGORIAN 2007 6 9 9 30 0 0 0 0 false)
    (mkTemporal GREGORIAN 0 0 0 16 30 0 0 0 0 false)); unfold time_of_day; cbn; lia.
Defined.

(** POSIX [timegm], inverse of [gmtime]: the seconds since 1970-01-01 00:00:00
    UTC of a broken-down time with its members in range. *)
Definition timegm_utc (timegm : tm -> Z) : Prop :=
  forall y m d h mi s wday yday isdst,
  valid_date y m d -> 1970 <= y <= 2038 -> 0 <= h <= 23 -> 0 <= mi <= 59 -> 0 <= s <= 59 ->
  timegm (mkTm s mi h d (m - 1) (y - 1900) wday yday isdst) = unix_seconds y m d h mi s.

Lemma set_epoch_seconds_in_range timegm bt t : timegm_utc timegm ->
  Date_is_valid t = true -> time_of_day t ->
  let e := unix_seconds (_years t) (_months t) (_days t) (_hours t) (_minutes t) (_seconds t) in
  0 <= e <= 2147483647 -> set_epoch_seconds timegm bt t = set_epoch_seconds_to e t.
Proof.
  intros G V T e He; unfold set_epoch_seconds.
  pose proof (Date_is_valid_u32 t V) as (Hy & Hm & Hd & _).
  apply Date_is_valid_spec in V as [V _]; destruct T as (Th & Tm & Ts).
  pose proof (proj2 (in_unix_epoch_range_iff _ _ _ _ _ _ V Th Tm Ts) He) as R; rewrite R.
  assert (1970 <= _years t <= 2038) as Hy'
    by (unfold in_unix_epoch_range, UNIX_EPOCH_MIN_YEARS, UNIX_EPOCH_MAX_YEARS in R;
        repeat case_if_in R; lia).
  rewrite (i32_small (_seconds t)), (i32_small (_minutes t)), (i32_small (_hours t)),
    (i32_small (_days t)), (u32_small (_months t - 1)), (u32_small (_years t - 1900)),
    (i32_small (_months t - 1)), (i32_small (_years t - 1900)) by lia.
  rewrite G by assumption; reflexivity.
Qed.

Lemma DateTime_is_valid_intro t : valid_date (_years t) (_months t) (_days t) ->
  _years t <= 9999 -> time_of_day t ->
  Date_is_valid t = true /\ DateTime_is_valid t = true.
Proof.
  intros (Hy & Hm & Hd) Hy' (Th & Tm & Ts).
  unfold Date_is_valid, DateTime_is_valid, DRIZZLE_MIN_YEARS_SQL, DRIZZLE_MAX_YEARS_SQL,
    DRIZZLE_MAX_MONTHS, DRIZZLE_MAX_HOURS, DRIZZLE_MAX_MINUTES, DRIZZLE_MAX_SECONDS_WITH_LEAP.
  repeat rewrite andb_true_iff; repeat rewrite Z.geb_leb; repeat rewrite Z.leb_le; lia.
Qed.

(** A value whose epoch member is the second its fields denote. *)
Lemma consistent_epoch timegm bt t e : timegm_utc timegm ->
  Date_is_valid t = true -> DateTime_is_valid t = true -> time_of_day t ->
  unix_seconds (_years t) (_months t) (_days t) (_hours t) (_minutes t) (_seconds t) = e ->
  _epoch_seconds t = e -> 0 <= e <= 2147483647 ->
  Timestamp_is_valid t = true /\ Timestamp_to_time_t t = e /\
  Date_to_time_t CDateTime t = e /\ set_epoch_seconds timegm bt t = t.
Proof.
  intros G VD VT T E Ee He; pose proof (Date_is_valid_spec t VD) as [V _].
  pose proof T as (Th & Tm & Ts).
  assert (in_unix_epoch_range (_years t) (_months t) (_days t) (_hours t) (_minutes t) (_seconds t)
          = true) as R by (apply in_unix_epoch_range_iff; auto; rewrite E; exact He).
  split; [|split; [exact Ee|split]].
  - unfold Timestamp_is_valid, DRIZZLE_MAX_SECONDS; rewrite VT, R; cbn [andb]; lia.
  - unfold Date_to_time_t, in_unix_epoch, DateTime_in_unix_epoch; rewrite R; exact Ee.
  - rewrite set_epoch_seconds_in_range by (auto; rewrite E; exact He).
    rewrite E, <- Ee; destruct t; reflexivity.
Qed.

Lemma DateTime_from_time_t_fields c e t0 : 0 <= e < 253402300800 ->
  exists y m d h mi s, valid_date y m d /\ y <= 9999 /\
    (0 <= h <= 23 /\ 0 <= mi <= 59 /\ 0 <= s <= 59) /\ unix_seconds y m d h mi s = e /\
    DateTime_from_time_t c e t0 =
    (let t := mkTemporal (_calendar t0) y m d h mi s e 0 0 (_overflow t0) in (is_valid t c, t)).
Proof.
  intros He; unfold DateTime_from_time_t.
  destruct (gmtime_tm_spec e ltac:(lia)) as (b & Eb & V & Hh & Hm & Hs & E & _).
  rewrite Eb; pose proof (valid_date_bounds _ _ _ V) as (By & Bm & Bd).
  assert (tm_year b + 1900 <= 9999) as Hy.
  { apply (jdn_le_9999 _ _ _ V); clear V Eb By Bm Bd; revert E; unfold unix_seconds.
    generalize (julian_day_number_from_gregorian_date (tm_year b + 1900) (tm_mon b + 1) (tm_mday b)).
    intros j E; lia. }
  exists (tm_year b + 1900), (tm_mon b + 1), (tm_mday b), (tm_hour b), (tm_min b), (tm_sec b).
  repeat (split; [assumption || lia|]).
  rewrite (i32_small (1900 + _)), (i32_small (1 + _)), (Z.add_comm 1900), (Z.add_comm 1) by lia.
  rewrite !u32_small by lia; reflexivity.
Qed.

(** Every epoch value before the year 10000 becomes a valid [DateTime] whose
    fields denote exactly that second and whose epoch member is the value; below
    2^31 it is a valid [Timestamp], converts back to the same value, and
    recomputing the epoch from the fields ([timegm] being UTC) changes nothing. *)
Theorem from_time_t_correct timegm bt e t0 : timegm_utc timegm -> 0 <= e < 253402300800 ->
  let '(ok, t) := DateTime_from_time_t CDateTime e t0 in
  ok = true /\ Date_is_valid t = true /\ time_of_day t /\
  unix_seconds (_years t) (_months t) (_days t) (_hours t) (_minutes t) (_seconds t) = e /\
  _epoch_seconds t = e /\ _useconds t = 0 /\
  (e <= 2147483647 ->
   Timestamp_is_valid t = true /\ Timestamp_to_time_t t = e /\
   Date_to_time_t CDateTime t = e /\ set_epoch_seconds timegm bt t = t).
Proof.
  intros G He.
  destruct (DateTime_from_time_t_fields CDateTime e t0 He)
    as (y & m & d & h & mi & s & V & Hy & T & E & ->).
  set (t := mkTemporal _ _ _ _ _ _ _ _ _ _ _).
  destruct (DateTime_is_valid_intro t V Hy T) as [VD VT].
  split; [exact VT|]; split; [exact VD|]; split; [exact T|].
  split; [exact E|]; split; [reflexivity|]; split; [reflexivity|]; intros Hmax.
  apply consistent_epoch; auto; lia.
Qed.

(** A [timegm] computed from the day number, for the witnesses. *)
Definition timegm_jdn (b : tm) : Z :=
  unix_seconds (tm_year b + 1900) (tm_mon b + 1) (tm_mday b) (tm_hour b) (tm_min b) (tm_sec b).

Lemma timegm_jdn_utc : timegm_utc timegm_jdn.
Proof.
  intros y m d h mi s w yd dst _ _ _ _ _; unfold timegm_jdn; cbn.
  replace (y - 1900 + 1900) with y by lia; replace (m - 1 + 1) with m by lia; reflexivity.
Qed.

Lemma from_time_t_correct_witness :
  let bt := mkTm 0 0 0 0 0 0 0 0 0 in
  let '(ok, t) := DateTime_from_time_t CDateTime 2147483647 Temporal_new in
  ok = true /\ Date_is_valid t = true /\ time_of_day t /\
  unix_seconds (_years t) (_months t) (_days t) (_hours t) (_minutes t) (_seconds t)
  = 2147483647 /\
  _epoch_seconds t = 2147483647 /\ _useconds t = 0 /\
  (2147483647 <= 2147483647 ->
   Timestamp_is_valid t = true /\ Timestamp_to_time_t t = 2147483647 /\
   Date_to_time_t CDateTime t = 2147483647 /\ set_epoch_seconds timegm_jdn bt t = t).
Proof.
  apply (from_time_t_correct timegm_jdn (mkTm 0 0 0 0 0 0 0 0 0) 2147483647 Temporal_new
           timegm_jdn_utc); lia.
Defined.

(** *** The two readers of numeric dates *)

Lemma from_int64_expand_classify n : n <> 0 ->
  match from_int64_expand n true, ntd_classify n with
  | Some a, NtdOk b _ => a = b
  | None, NtdErr _ => True
  | _, _ => False
  end.
Proof.
  intros Hn; unfold from_int64_expand, ntd_classify, DRIZZLE_YY_PART_YEAR, YY_PART_YEAR.
  repeat (case_if; try lia); exact I || reflexivity.
Qed.

Lemma ntd_classify_range n m ty : is_i64 n -> ntd_classify n = NtdOk m ty ->
  0 <= m < 9223372036854775808 /\ (n <> 0 -> 10000000000 <= m).
Proof.
  unfold is_i64; intros Hn EC; unfold ntd_classify, YY_PART_YEAR in EC.
  repeat case_if_in EC; inversion EC; lia.
Qed.

Lemma from_int64_fields timegm bt c n m t0 : n <> 0 ->
  from_int64_expand n true = Some m -> 0 <= m < 9223372036854775808 ->
  DateTime_from_int64_t timegm bt c n true t0 =
  (let t := set_epoch_seconds timegm bt
     (set_time (m / 10000 mod 100) (m / 100 mod 100) (m mod 100)
       (set_date (m / 10000000000) (m / 100000000 mod 100) (m / 1000000 mod 100) t0)) in
   (is_valid t c, t)).
Proof.
  intros Hn Em Hm; unfold DateTime_from_int64_t; rewrite Em.
  destruct (Z.eqb_spec n 0); [contradiction|].
  replace (m - m ÷ 1000000 * 1000000) with (m mod 1000000) by dlia.
  rewrite (Z.quot_div_nonneg m), (Z.quot_div_nonneg (m / 1000000)),
    (Z.quot_div_nonneg (m mod 1000000)), (Z.rem_mod_nonneg (m / 1000000)),
    (Z.rem_mod_nonneg (m mod 1000000)) by dlia.
  rewrite !u32_small by dlia.
  replace (m / 1000000 / 10000) with (m / 10000000000) by dlia.
  replace (m / 1000000 mod 10000 / 100) with (m / 100000000 mod 100) by dlia.
  replace ((m / 1000000 mod 10000) mod 100) with (m / 1000000 mod 100) by dlia.
  replace (m mod 1000000 / 10000) with (m / 10000 mod 100) by dlia.
  replace (m mod 1000000 mod 10000 / 100) with (m / 100 mod 100) by dlia.
  replace ((m mod 1000000 mod 10000) mod 100) with (m mod 100) by dlia.
  reflexivity.
Qed.

(** [set_epoch_seconds] writes no field but the epoch. *)
Lemma set_epoch_seconds_fields timegm bt t :
  exists e, set_epoch_seconds timegm bt t = set_epoch_seconds_to e t.
Proof.
  unfold set_epoch_seconds; case_if; [eexists; reflexivity|].
  exists (_epoch_seconds t); destruct t; reflexivity.
Qed.

(** Acceptance by [number_to_datetime] without flags. *)
Lemma number_to_datetime_accepts n m ty : n <> 0 -> ntd_classify n = NtdOk m ty -> 
  10000000000 <= m < 9223372036854775808 ->
  let t := ntd_fields m ty in
  (fst (fst (number_to_datetime n 0)) <> -1 <->
   valid_date (year t) (month t) (day t) /\ year t <= 9999 /\ hour t <= 23 /\
   minute t <= 59 /\ second t <= 59) /\
  snd (fst (number_to_datetime n 0)) = t.
Proof.
  intros Hn EC Hm t; unfold number_to_datetime; rewrite EC; fold t.
  replace (m =? 0) with false by lia; cbn [negb andb].
  assert (1 <= year t /\ 0 <= month t /\ 0 <= day t) as (B1 & B2 & B3)
    by (unfold t; rewrite ntd_fields_decode by lia; cbn; dlia).
  destruct (check t true 0 VALID) as [bad c] eqn:CK.
  split; [|repeat case_if; reflexivity].
  split.
  - repeat case_if; cbn [fst]; [|intros H; contradiction H; reflexivity..].
    destruct bad; [discriminate|]; intros _.
    destruct (check_ok _ _ _ _ CK ltac:(lia) ltac:(lia)) as (_ & C1 & C2).
    specialize (C1 eq_refl eq_refl); specialize (C2 eq_refl eq_refl).
    unfold valid_date; lia.
  - intros (V & R); rewrite (check_valid _ 0 V) in CK; inversion CK; subst bad c.
    apply valid_date_bounds in V; case_if; cbn; lia.
Qed.

(** The two readers of numeric dates agree: on every nonzero 64-bit number
    [DateTime::from_int64_t] and [number_to_datetime] accept the same values,
    apart from the leap seconds 60 and 61 that only the first allows, and store
    the same fields. *)
Theorem numeric_readers_agree timegm bt n t0 : is_i64 n -> n <> 0 ->
  let '(ok, t) := DateTime_from_int64_t timegm bt CDateTime n true t0 in
  let '(r, ft, _) := number_to_datetime n 0 in
  (ok = true /\ _seconds t <= 59 <-> r <> -1) /\
  (r <> -1 -> _years t = year ft /\ _months t = month ft /\ _days t = day ft /\
   _hours t = hour ft /\ _minutes t = minute ft /\ _seconds t = second ft).
Proof.
  intros Hi Hn; pose proof (from_int64_expand_classify n Hn) as C.
  destruct (ntd_classify n) as [ty|m ty] eqn:EC.
  - destruct (from_int64_expand n true) eqn:EX; [contradiction|].
    unfold DateTime_from_int64_t, number_to_datetime; rewrite EX, EC.
    destruct (Z.eqb_spec n 0); [contradiction|]; split; [|congruence].
    split; [intros [? _]; discriminate|congruence].
  - destruct (from_int64_expand n true) as [m'|] eqn:EX; [|contradiction]; subst m'.
    destruct (ntd_classify_range n m ty Hi EC) as [Hm Hm'].
    rewrite (from_int64_fields timegm bt CDateTime n m t0 Hn EX Hm).
    destruct (number_to_datetime_accepts n m ty Hn EC ltac:(lia)) as [A F].
    destruct (number_to_datetime n 0) as [[r ft] c]; cbn [fst snd] in A, F; subst ft.
    rewrite ntd_fields_decode in * by lia; cbn [year month day hour minute second] in *.
    set (t := set_time _ _ _ _).
    destruct (set_epoch_seconds_fields timegm bt t) as [e ->].
    split; [|intros _; repeat split; reflexivity]; rewrite A; clear A.
    cbn [is_valid]; unfold DateTime_is_valid, valid_date, DRIZZLE_MIN_YEARS_SQL,
      DRIZZLE_MAX_YEARS_SQL, DRIZZLE_MAX_MONTHS, DRIZZLE_MAX_HOURS, DRIZZLE_MAX_MINUTES,
      DRIZZLE_MAX_SECONDS_WITH_LEAP.
    cbn [_years _months _days _hours _minutes _seconds set_epoch_seconds_to set_time set_date t].
    lia.
Qed.

Lemma numeric_readers_agree_witness :
  let bt := mkTm 0 0 0 0 0 0 0 0 0 in
  let '(ok, t) := DateTime_from_int64_t timegm_jdn bt CDateTime 120229 true Temporal_new in
  let '(r, ft, _) := number_to_datetime 120229 0 in
  r = 20120229000000 /\
  (ok = true /\ _seconds t <= 59 <-> r <> -1) /\
  (r <> -1 -> _years t = year ft /\ _months t = month ft /\ _days t = day ft /\
   _hours t = hour ft /\ _minutes t = minute ft /\ _seconds t = second ft).
Proof.
  split; [reflexivity|].
  apply (numeric_readers_agree timegm_jdn (mkTm 0 0 0 0 0 0 0 0 0) 120229 Temporal_new);
  unfold is_i64; lia.
Defined.
