(* ===== verification/Ctype.v ===== *)
(** Character classes of the server's default character set: the [ctype] table
    of [src/drizzled/ctype-utf8.cc] and the predicates of
    [src/drizzled/charset.h].  A byte is a [Z] between 0 and 255. *)

From Stdlib Require Import ZArith Lia ZifyBool List Bool.
From S2P Require Import Prelude.
Import ListNotations.
Local Open Scope Z_scope.

(** src/drizzled/charset.h:100-107 _MY_U *)
Definition _MY_U : Z := 1.
Definition _MY_L : Z := 2.
Definition _MY_NMR : Z := 4.
Definition _MY_SPC : Z := 8.
Definition _MY_PNT : Z := 16.
Definition _MY_CTR : Z := 32.
Definition _MY_B : Z := 64.
Definition _MY_X : Z := 128.

(** src/drizzled/ctype-utf8.cc:1895-1914 ctype_utf8mb4 *)
Definition ctype_utf8mb4 : list Z :=
  [0;
   32; 32; 32; 32; 32; 32; 32; 32; 32; 40; 40; 40; 40; 40; 32; 32;
   32; 32; 32; 32; 32; 32; 32; 32; 32; 32; 32; 32; 32; 32; 32; 32;
   72; 16; 16; 16; 16; 16; 16; 16; 16; 16; 16; 16; 16; 16; 16; 16;
   132; 132; 132; 132; 132; 132; 132; 132; 132; 132; 16; 16; 16; 16; 16; 16;
   16; 129; 129; 129; 129; 129; 129; 1; 1; 1; 1; 1; 1; 1; 1; 1;
   1; 1; 1; 1; 1; 1; 1; 1; 1; 1; 1; 16; 16; 16; 16; 16;
   16; 130; 130; 130; 130; 130; 130; 2; 2; 2; 2; 2; 2; 2; 2; 2;
   2; 2; 2; 2; 2; 2; 2; 2; 2; 2; 2; 16; 16; 16; 16; 32;
   3; 3; 3; 3; 3; 3; 3; 3; 3; 3; 3; 3; 3; 3; 3; 3;
   3; 3; 3; 3; 3; 3; 3; 3; 3; 3; 3; 3; 3; 3; 3; 3;
   3; 3; 3; 3; 3; 3; 3; 3; 3; 3; 3; 3; 3; 3; 3; 3;
   3; 3; 3; 3; 3; 3; 3; 3; 3; 3; 3; 3; 3; 3; 3; 3;
   3; 3; 3; 3; 3; 3; 3; 3; 3; 3; 3; 3; 3; 3; 3; 3;
   3; 3; 3; 3; 3; 3; 3; 3; 3; 3; 3; 3; 3; 3; 3; 3;
   3; 3; 3; 3; 3; 3; 3; 3; 3; 3; 3; 3; 3; 3; 3; 3;
   3; 3; 3; 3; 3; 3; 3; 3; 3; 3; 3; 3; 3; 3; 3; 0].

Section Classes.

(** The [ctype] member of a [charset_info_st]. *)
Variable ctype : list Z.

Definition ctype_test (mask c : Z) : bool := negb (Z.land (aget ctype (c + 1)) mask =? 0).

(** src/drizzled/charset.h:263-266 isalpha *)
Definition isalpha (c : Z) : bool := ctype_test (Z.lor _MY_U _MY_L) c.

(** src/drizzled/charset.h:268-271 isupper *)
Definition isupper (c : Z) : bool := ctype_test _MY_U c.

(** src/drizzled/charset.h:273-276 islower *)
Definition islower (c : Z) : bool := ctype_test _MY_L c.

(** src/drizzled/charset.h:278-281 isdigit *)
Definition isdigit (c : Z) : bool := ctype_test _MY_NMR c.

(** src/drizzled/charset.h:283-286 isxdigit *)
Definition isxdigit (c : Z) : bool := ctype_test _MY_X c.

(** src/drizzled/charset.h:288-291 isalnum *)
Definition isalnum (c : Z) : bool := ctype_test (Z.lor (Z.lor _MY_U _MY_L) _MY_NMR) c.

(** src/drizzled/charset.h:293-296 isspace *)
Definition isspace (c : Z) : bool := ctype_test _MY_SPC c.

(** src/drizzled/charset.h:298-301 ispunct *)
Definition ispunct (c : Z) : bool := ctype_test _MY_PNT c.

(** src/drizzled/charset.h:303-306 isprint *)
Definition isprint (c : Z) : bool :=
  ctype_test (Z.lor (Z.lor (Z.lor (Z.lor _MY_PNT _MY_U) _MY_L) _MY_NMR) _MY_B) c.

(** src/drizzled/charset.h:308-311 isgraph *)
Definition isgraph (c : Z) : bool :=
  ctype_test (Z.lor (Z.lor (Z.lor _MY_PNT _MY_U) _MY_L) _MY_NMR) c.

(** src/drizzled/charset.h:313-316 iscntrl *)
Definition iscntrl (c : Z) : bool := ctype_test _MY_CTR c.

(** src/drizzled/charset.h:318-321 isvar *)
Definition isvar (c : Z) : bool := isalnum c || (c =? 95).

End Classes.

(** ** Lemmas *)

Lemma byte_cases (f : Z -> bool) :
  forallb (fun n => f (Z.of_nat n)) (seq 0 256) = true ->
  forall b, 0 <= b < 256 -> f b = true.
Proof.
  rewrite forallb_forall; intros H b Hb; specialize (H (Z.to_nat b)).
  rewrite Z2Nat.id in H by lia; apply H, in_seq; lia.
Qed.

(** Prove an equation of boolean functions of a byte by evaluating both sides
    on the 256 bytes. *)
Ltac by_bytes b Hb :=
  match goal with
  | |- ?l = ?r =>
      apply eqb_prop;
      refine (byte_cases (ltac:(match eval pattern b in (eqb l r) with ?f _ => exact f end))
                _ b Hb);
      vm_compute; reflexivity
  end.

Lemma isdigit_utf8 b : 0 <= b < 256 -> isdigit ctype_utf8mb4 b = (48 <=? b) && (b <=? 57).
Proof. intros Hb; by_bytes b Hb. Qed.

Lemma isspace_utf8 b : 0 <= b < 256 ->
  isspace ctype_utf8mb4 b = ((9 <=? b) && (b <=? 13)) || (b =? 32).
Proof. intros Hb; by_bytes b Hb. Qed.

Lemma ispunct_utf8 b : 0 <= b < 256 ->
  ispunct ctype_utf8mb4 b =
  ((33 <=? b) && (b <=? 47)) || ((58 <=? b) && (b <=? 64)) || ((91 <=? b) && (b <=? 96))
  || ((123 <=? b) && (b <=? 126)).
Proof. intros Hb; by_bytes b Hb. Qed.

(** A string that does not start with a digit. *)
Definition starts_nondigit (l : list Z) : Prop :=
  match l with [] => True | c :: _ => 0 <= c < 256 /\ ~ is_digit c end.

Lemma isdigit_is_digit c : is_digit c -> isdigit ctype_utf8mb4 c = true.
Proof. unfold is_digit; intros; rewrite isdigit_utf8; lia. Qed.

Lemma isdigit_not c : 0 <= c < 256 -> ~ is_digit c -> isdigit ctype_utf8mb4 c = false.
Proof. unfold is_digit; intros; rewrite isdigit_utf8; lia. Qed.
