(* ===== verification/Interval.v ===== *)
(** SQL intervals: [TemporalInterval] of [src/drizzled/temporal_interval.cc],
    with [interval_type] of [src/drizzled/type/time.h].

    An [Item] is only asked for its integer or its text, so its two answers are
    the arguments of [initFromItem].  [addDate] returns [None] where the source
    reads [days_in_month] outside of its 13 elements, and otherwise its return
    value (true is failure) and the updated time. *)

From Stdlib Require Import String ZArith Lia ZifyBool List Bool.
From S2P Require Import Prelude Calendar TimeTypes GmTime TimeCore Ctype.
Import ListNotations.
Local Open Scope Z_scope.

(** ** Model *)

(** src/drizzled/type/time.h:225-233 interval_type *)
Inductive interval_type : Type :=
| INTERVAL_YEAR | INTERVAL_QUARTER | INTERVAL_MONTH | INTERVAL_WEEK | INTERVAL_DAY
| INTERVAL_HOUR | INTERVAL_MINUTE | INTERVAL_SECOND | INTERVAL_MICROSECOND
| INTERVAL_YEAR_MONTH | INTERVAL_DAY_HOUR | INTERVAL_DAY_MINUTE
| INTERVAL_DAY_SECOND | INTERVAL_HOUR_MINUTE | INTERVAL_HOUR_SECOND
| INTERVAL_MINUTE_SECOND | INTERVAL_DAY_MICROSECOND | INTERVAL_HOUR_MICROSECOND
| INTERVAL_MINUTE_MICROSECOND | INTERVAL_SECOND_MICROSECOND | INTERVAL_LAST.

(** src/drizzled/temporal_interval.h:186-193 TemporalInterval *)
Record TemporalInterval : Type := mkInterval {
  i_year : Z; i_month : Z; i_day : Z; i_hour : Z;
  i_minute : Z; i_second : Z; i_second_part : Z;
  i_neg : bool }.

(** src/drizzled/temporal_interval.h:58-67 TemporalInterval *)
Definition Interval_new : TemporalInterval := mkInterval 0 0 0 0 0 0 0 false.

(** src/drizzled/temporal_interval.h:73-76 setNegative *)
Definition setNegative (n : bool) (i : TemporalInterval) : TemporalInterval :=
  mkInterval (i_year i) (i_month i) (i_day i) (i_hour i) (i_minute i) (i_second i)
             (i_second_part i) n.

(** src/drizzled/temporal_interval.h:81-84 toggleNegative *)
Definition toggleNegative (i : TemporalInterval) : TemporalInterval :=
  setNegative (negb (i_neg i)) i.

Section Parsing.

(** The character classes of the string. *)
Variable cs : list Z.

(** src/drizzled/temporal_interval.cc:305-306 getIntervalFromString

    Also lines 321-322. *)
Fixpoint skip_to_digit (str : list Z) : list Z :=
  match str with
  | [] => []
  | c :: rest => if isdigit cs c then str else skip_to_digit rest
  end.

(** src/drizzled/temporal_interval.cc:312-313 getIntervalFromString

    The value, the number of digits and the rest of the string. *)
Fixpoint scan_number (str : list Z) (value : Z) (digits : Z) : Z * Z * list Z :=
  match str with
  | [] => (value, digits, [])
  | c :: rest =>
      if isdigit cs c then scan_number rest (i64 (value * 10 + (c - 48))) (digits + 1)
      else (value, digits, str)
  end.

Definition at_end (str : list Z) : bool := match str with [] => true | _ => false end.

(** src/drizzled/temporal_interval.cc:308-333 getIntervalFromString

    [left] is [count - x]; [acc] holds the [x] values read.  The array and the
    string where the loop stops; too few values are moved to the high end and
    the low end is cleared. *)
Fixpoint interval_loop (left : nat) (str : list Z) (acc : list Z)
    (transform_msec : bool) : list Z * list Z :=
  match left with
  | O => (acc, str)
  | S left' =>
      let '(value, digits, str) := scan_number str 0 0 in
      let last := match left' with O => true | _ => false end in
      let value :=
        if transform_msec && (last || at_end str) then
          let msec_length := 6 - digits in
          if msec_length >? 0 then i64 (value * aget log_10_int msec_length) else value
        else value in
      let acc := acc ++ [u64 value] in
      let str := skip_to_digit str in
      if at_end str && negb last then (repeat 0 left' ++ acc, str)
      else interval_loop left' str acc transform_msec
  end.

(** src/drizzled/temporal_interval.cc:296-335 getIntervalFromString

    The return value (true when the string is not used up) and the array. *)
Definition getIntervalFromString (str : list Z) (count : nat) (transform_msec : bool)
  : bool * list Z :=
  let str := firstn (Z.to_nat (u32 (Z.of_nat (length str)))) str in
  let '(values, rest) := interval_loop count (skip_to_digit str) [] transform_msec in
  (negb (at_end rest), values).

(** src/drizzled/temporal_interval.cc:66-68 initFromItem *)
Fixpoint skip_space (str : list Z) : list Z :=
  match str with
  | [] => []
  | c :: rest => if isspace cs c then skip_space rest else str
  end.

(** src/drizzled/temporal_interval.cc:69-74 initFromItem *)
Definition skip_sign (str : list Z) : bool * list Z :=
  match str with
  | c :: rest => if c =? 45 then (true, rest) else (false, str)
  | [] => (false, [])
  end.

(** src/drizzled/temporal_interval.cc:107-182 initFromItem

    The cases with several parts; [None] is the early return of true. *)
Definition interval_parts (int_type : interval_type) (str : list Z) (i : TemporalInterval)
  : option TemporalInterval :=
  let get count msec (k : (nat -> Z) -> TemporalInterval) :=
    let '(err, a) := getIntervalFromString str count msec in
    if err then None else Some (k (fun x => nth x a 0)) in
  let '(mkInterval y mo d h mi s us n) := i in
  match int_type with
  | INTERVAL_YEAR_MONTH =>
      get 2%nat false (fun a => mkInterval (u32 (a 0%nat)) (u32 (a 1%nat)) d h mi s us n)
  | INTERVAL_DAY_HOUR =>
      get 2%nat false (fun a => mkInterval y mo (u32 (a 0%nat)) (u32 (a 1%nat)) mi s us n)
  | INTERVAL_DAY_MICROSECOND =>
      get 5%nat true (fun a => mkInterval y mo (u32 (a 0%nat)) (u32 (a 1%nat))
                                 (a 2%nat) (a 3%nat) (a 4%nat) n)
  | INTERVAL_DAY_MINUTE =>
      get 3%nat false (fun a => mkInterval y mo (u32 (a 0%nat)) (u32 (a 1%nat)) (a 2%nat) s us n)
  | INTERVAL_DAY_SECOND =>
      get 4%nat false (fun a => mkInterval y mo (u32 (a 0%nat)) (u32 (a 1%nat))
                                 (a 2%nat) (a 3%nat) us n)
  | INTERVAL_HOUR_MICROSECOND =>
      get 4%nat true (fun a => mkInterval y mo d (u32 (a 0%nat)) (a 1%nat) (a 2%nat) (a 3%nat) n)
  | INTERVAL_HOUR_MINUTE =>
      get 2%nat false (fun a => mkInterval y mo d (u32 (a 0%nat)) (a 1%nat) s us n)
  | INTERVAL_HOUR_SECOND =>
      get 3%nat false (fun a => mkInterval y mo d (u32 (a 0%nat)) (a 1%nat) (a 2%nat) us n)
  | INTERVAL_MINUTE_MICROSECOND =>
      get 3%nat true (fun a => mkInterval y mo d h (a 0%nat) (a 1%nat) (a 2%nat) n)
  | INTERVAL_MINUTE_SECOND =>
      get 2%nat false (fun a => mkInterval y mo d h (a 0%nat) (a 1%nat) us n)
  | INTERVAL_SECOND_MICROSECOND =>
      get 2%nat true (fun a => mkInterval y mo d h mi (a 0%nat) (a 1%nat) n)
  | _ => Some i
  end.

(** src/drizzled/temporal_interval.cc:80-106 initFromItem

    The cases with one part. *)
Definition interval_single (int_type : interval_type) (value : Z) (i : TemporalInterval)
  : option TemporalInterval :=
  let '(mkInterval y mo d h mi s us n) := i in
  match int_type with
  | INTERVAL_YEAR => Some (mkInterval (u32 value) mo d h mi s us n)
  | INTERVAL_QUARTER => Some (mkInterval y (u32 (i64 (value * 3))) d h mi s us n)
  | INTERVAL_MONTH => Some (mkInterval y (u32 value) d h mi s us n)
  | INTERVAL_WEEK => Some (mkInterval y mo (u32 (i64 (value * 7))) h mi s us n)
  | INTERVAL_DAY => Some (mkInterval y mo (u32 value) h mi s us n)
  | INTERVAL_HOUR => Some (mkInterval y mo d (u32 value) mi s us n)
  | INTERVAL_MINUTE => Some (mkInterval y mo d h (u64 value) s us n)
  | INTERVAL_SECOND => Some (mkInterval y mo d h mi (u64 value) us n)
  | INTERVAL_MICROSECOND => Some (mkInterval y mo d h mi s (u64 value) n)
  | _ => None
  end.

(** [static_cast<int>(int_type) <= INTERVAL_MICROSECOND]. *)
Definition single_part (int_type : interval_type) : bool :=
  match int_type with
  | INTERVAL_YEAR | INTERVAL_QUARTER | INTERVAL_MONTH | INTERVAL_WEEK | INTERVAL_DAY
  | INTERVAL_HOUR | INTERVAL_MINUTE | INTERVAL_SECOND | INTERVAL_MICROSECOND => true
  | _ => false
  end.

(** src/drizzled/temporal_interval.cc:33-188 initFromItem

    [val_int] and [val_str] are the answers of the item, [None] for SQL NULL;
    the result is [None] for the return value true. *)
Definition initFromItem (val_int : option Z) (val_str : option (list Z))
    (int_type : interval_type) (i : TemporalInterval) : option TemporalInterval :=
  if single_part int_type then
    match val_int with
    | None => None
    | Some value =>
        if value <? 0 then interval_single int_type (i64 (- value)) (setNegative true i)
        else interval_single int_type value i
    end
  else
    match val_str with
    | None => None
    | Some str =>
        let '(minus, str) := skip_sign (skip_space str) in
        interval_parts int_type str (if minus then setNegative true i else i)
    end.

End Parsing.

Definition sign_of (i : TemporalInterval) : Z := if i_neg i then -1 else 1.

(** src/drizzled/temporal_interval.cc:214-246 addDate

    The types with a part below the day; [u32 (day * 3600)] because [3600] is
    an [int], and the sum of the interval is taken in [uint64_t].  The time of
    day is already updated when the date turns out to be invalid. *)
Definition addDate_time (i : TemporalInterval) (t : Time) : bool * Time :=
  let sign := sign_of i in
  let microseconds := i64 (u64 (second_part t + u64 (sign * i_second_part i))) in
  let extra_sec := microseconds ÷ 1000000 in
  let microseconds := Z.rem microseconds 1000000 in
  let sec :=
    i64 (u32 (u32 (day t - 1) * 3600) * 24 + u32 (hour t * 3600) + u32 (minute t * 60)
         + second t
         + sign * i64 (u64 (u32 (i_day i * 3600) * 24 + i_hour i * 3600
                            + i_minute i * 60 + i_second i))
         + extra_sec) in
  let '(microseconds, sec) :=
    if microseconds <? 0 then (microseconds + 1000000, sec - 1) else (microseconds, sec) in
  let days := sec ÷ 86400 in
  let sec := sec - days * 3600 * 24 in
  let '(days, sec) := if sec <? 0 then (days - 1, sec + 86400) else (days, sec) in
  let hr := u32 (sec ÷ 3600) in
  let mi := u32 (Z.rem (sec ÷ 60) 60) in
  let se := u32 (Z.rem sec 60) in
  let daynr := i64 (calc_daynr (year t) (month t) 1 + days) in
  if u64 daynr >? MAX_DAY_NUMBER
  then (true, mkTime (year t) (month t) (day t) hr mi se (u32 microseconds) false
                     DRIZZLE_TIMESTAMP_DATETIME)
  else
    let '(y, m, d) := get_date_from_daynr daynr in
    (false, mkTime y m d hr mi se (u32 microseconds) false DRIZZLE_TIMESTAMP_DATETIME).

Definition with_date (t : Time) (y m d : Z) : Time :=
  mkTime y m d (hour t) (minute t) (second t) (second_part t) false (time_type t).

(** src/drizzled/temporal_interval.cc:247-255 addDate *)
Definition addDate_day (i : TemporalInterval) (t : Time) : bool * Time :=
  let period := i64 (calc_daynr (year t) (month t) (day t) + sign_of i * i_day i) in
  if period >? MAX_DAY_NUMBER then (true, with_date t (year t) (month t) (day t))
  else
    let '(y, m, d) := get_date_from_daynr period in (false, with_date t y m d).

(** src/drizzled/temporal_interval.cc:256-263 addDate *)
Definition addDate_year (i : TemporalInterval) (t : Time) : bool * Time :=
  let y := u32 (year t + sign_of i * i_year i) in
  if y >=? 10000 then (true, with_date t y (month t) (day t))
  else if (month t =? 2) && (day t =? 29) && negb (calc_days_in_year y =? 366)
  then (false, with_date t y (month t) 28)
  else (false, with_date t y (month t) (day t)).

(** src/drizzled/temporal_interval.cc:264-280 addDate

    [None] when the index [ltime->month-1] is outside of the table. *)
Definition addDate_month (i : TemporalInterval) (t : Time) : option (bool * Time) :=
  let sign := sign_of i in
  let period := i64 (u32 (year t * 12) + sign * i_year i * 12 + month t - 1
                     + sign * i_month i) in
  if period >=? 120000 then Some (true, with_date t (year t) (month t) (day t))
  else
    let y := u32 (period ÷ 12) in
    let m := u32 (u32 (Z.rem period 12) + 1) in
    let idx := u32 (m - 1) in
    if idx >=? 13 then None
    else
      let dim := aget days_in_month_tab idx in
      let d := if day t >? dim
               then if (m =? 2) && (calc_days_in_year y =? 366) then u32 (dim + 1) else dim
               else day t in
      Some (false, with_date t y m d).

(** src/drizzled/temporal_interval.cc:190-294 addDate *)
Definition addDate (i : TemporalInterval) (t : Time) (int_type : interval_type)
  : option (bool * Time) :=
  match int_type with
  | INTERVAL_SECOND | INTERVAL_SECOND_MICROSECOND | INTERVAL_MICROSECOND | INTERVAL_MINUTE
  | INTERVAL_HOUR | INTERVAL_MINUTE_MICROSECOND | INTERVAL_MINUTE_SECOND
  | INTERVAL_HOUR_MICROSECOND | INTERVAL_HOUR_SECOND | INTERVAL_HOUR_MINUTE
  | INTERVAL_DAY_MICROSECOND | INTERVAL_DAY_SECOND | INTERVAL_DAY_MINUTE
  | INTERVAL_DAY_HOUR => Some (addDate_time i t)
  | INTERVAL_DAY | INTERVAL_WEEK => Some (addDate_day i t)
  | INTERVAL_YEAR => Some (addDate_year i t)
  | INTERVAL_YEAR_MONTH | INTERVAL_QUARTER | INTERVAL_MONTH => addDate_month i t
  | INTERVAL_LAST => Some (true, with_date t (year t) (month t) (day t))
  end.

(** ** Lemmas *)

(** The time of day in microseconds. *)
Definition tod_usec (t : Time) : Z :=
  (hour t * 3600 + minute t * 60 + second t) * 1000000 + second_part t.

(** The length of an interval with parts up to the day. *)
Definition interval_usec (i : TemporalInterval) : Z :=
  (((i_day i * 24 + i_hour i) * 60 + i_minute i) * 60 + i_second i) * 1000000 + i_second_part i.

(** Parts for which no computation of [addDate] leaves its type. *)
Definition interval_bounded (i : TemporalInterval) : Prop :=
  0 <= i_day i <= 1193046 /\ 0 <= i_hour i < 4294967296 /\ 0 <= i_minute i <= 1000000000000 /\
  0 <= i_second i <= 100000000000000 /\ 0 <= i_second_part i <= 1000000000000000000.

Lemma floor_carry z k a : 0 < k ->
  (if Z.rem z k <? 0 then (Z.rem z k + k, a + z ÷ k - 1) else (Z.rem z k, a + z ÷ k))
  = (z mod k, a + z / k).
Proof.
  intros Hk; pose proof (floor_split z k Hk) as F; case_if; inversion F; f_equal; lia.
Qed.

(** The second in which the sum falls, counted from the first of the month, and
    its microseconds. *)
Definition sum_usec (i : TemporalInterval) (t : Time) : Z :=
  second_part t + sign_of i * i_second_part i.

Definition sum_sec (i : TemporalInterval) (t : Time) : Z :=
  (day t - 1) * 86400 + hour t * 3600 + minute t * 60 + second t
  + sign_of i * (i_day i * 86400 + i_hour i * 3600 + i_minute i * 60 + i_second i)
  + sum_usec i t / 1000000.

Lemma sum_bounds i t : interval_bounded i -> 1 <= day t <= 31 -> time_in_range t ->
  -1000000000000000001 <= sum_usec i t <= 1000000000001000000 /\
  -1000000000000000 <= sum_sec i t <= 1000000000000000.
Proof.
  unfold interval_bounded, time_in_range, sum_sec; intros Hi Hd Ht.
  assert (sign_of i = 1 \/ sign_of i = -1) as [Hs|Hs] by (unfold sign_of; case_if; lia);
  unfold sum_usec; rewrite Hs; dlia.
Qed.

(** [addDate_time] without the conversions. *)
Lemma addDate_time_eq i t : interval_bounded i -> 1 <= day t <= 31 -> time_in_range t ->
  366 <= calc_daynr (year t) (month t) 1 <= 3652424 ->
  let daynr := calc_daynr (year t) (month t) 1 + sum_sec i t / 86400 in
  let sod := sum_sec i t mod 86400 in
  let us := sum_usec i t mod 1000000 in
  addDate_time i t =
  if (daynr <? 0) || (daynr >? MAX_DAY_NUMBER)
  then (true, mkTime (year t) (month t) (day t) (sod / 3600) (sod / 60 mod 60) (sod mod 60) us
                     false DRIZZLE_TIMESTAMP_DATETIME)
  else let '(y, m, d) := get_date_from_daynr daynr in
       (false, mkTime y m d (sod / 3600) (sod / 60 mod 60) (sod mod 60) us
                      false DRIZZLE_TIMESTAMP_DATETIME).
Proof.
  intros Hi Hd Ht Hn daynr sod us; pose proof (sum_bounds i t Hi Hd Ht) as [BU BS].
  unfold addDate_time; rewrite u64_add_r, i64_u64; fold (sum_usec i t).
  rewrite (i64_small (sum_usec i t)) by lia.
  unfold interval_bounded, time_in_range in *.
  rewrite i64_u64, (i64_small (u32 (i_day i * 3600) * 24 + _ + _ + _)) by (unwrap; lia).
  rewrite (u32_small (day t - 1)), (u32_small ((day t - 1) * 3600)), (u32_small (hour t * 3600)),
    (u32_small (minute t * 60)), (u32_small (i_day i * 3600)) by lia.
  match goal with |- context [i64 (?a + sum_usec i t ÷ 1000000)] => set (A := a) end.
  assert (sum_sec i t = A + sum_usec i t / 1000000) as ES by (unfold sum_sec, A; f_equal; lia).
  rewrite (i64_small (A + _)) by (rewrite ES in BS; dlia).
  rewrite floor_carry, <- ES by lia; fold us.
  set (S := sum_sec i t) in *.
  replace (S - S ÷ 86400 * 3600 * 24) with (Z.rem S 86400) by dlia.
  assert ((if Z.rem S 86400 <? 0 then (S ÷ 86400 - 1, Z.rem S 86400 + 86400)
           else (S ÷ 86400, Z.rem S 86400)) = (S / 86400, S mod 86400)) as ->
    by (pose proof (floor_split S 86400 ltac:(lia)) as F; case_if; inversion F; f_equal; lia).
  fold sod; assert (0 <= sod < 86400) by (apply Z.mod_pos_bound; lia).
  assert (0 <= us < 1000000) by (apply Z.mod_pos_bound; lia).
  rewrite (i64_small (_ + S / 86400)) by dlia; fold daynr.
  rewrite !Z.quot_div_nonneg, !Z.rem_mod_nonneg, !(u32_small) by dlia.
  assert ((u64 daynr >? MAX_DAY_NUMBER) = (daynr <? 0) || (daynr >? MAX_DAY_NUMBER)) as ->; [|reflexivity].
  assert (-100000000000 <= daynr <= 100000000000) by (unfold daynr; dlia).
  unfold MAX_DAY_NUMBER; rewrite u64_eq; destruct (Z.ltb_spec daynr 0); cbn [orb];
  Z.to_euclidean_division_equations; lia.
Qed.

(** A date and time in the SQL range. *)
Definition datetime_ok (t : Time) : Prop :=
  valid_date (year t) (month t) (day t) /\ year t <= 9999 /\ time_in_range t.

(** Day number of the day a number of microseconds since 1970 falls on. *)
Definition usec_daynr (u : Z) : Z := u / 86400000000 + 719528.

Lemma calc_daynr_first y m d : valid_date y m d -> y <= 9999 ->
  calc_daynr y m d = calc_daynr y m 1 + (d - 1) /\ 366 <= calc_daynr y m 1 <= 3652424.
Proof.
  intros V Hy; pose proof (valid_date_bounds _ _ _ V) as (By & Bm & Bd).
  split; [rewrite !calc_daynr_jdn_z by lia; unfold jdn_z; lia|].
  assert (valid_date y m 1) as V1 by (destruct V as (V1 & V2 & V3); split; [|split]; lia).
  pose proof (daynr_bounds _ _ _ V1 Hy); lia.
Qed.

Lemma time_usec_daynr t : valid_date (year t) (month t) (day t) -> year t <= 9999 ->
  time_usec t = (calc_daynr (year t) (month t) (day t) - 719528) * 86400000000 + tod_usec t.
Proof.
  intros V Hy; rewrite calc_daynr_valid by (auto || lia).
  unfold time_usec, unix_seconds, tod_usec; lia.
Qed.

Lemma sum_total i t : datetime_ok t ->
  time_usec t + sign_of i * interval_usec i =
  ((calc_daynr (year t) (month t) 1 - 719528) * 86400 + sum_sec i t) * 1000000
  + sum_usec i t mod 1000000.
Proof.
  intros (V & Hy & _); rewrite time_usec_daynr by auto.
  rewrite (proj1 (calc_daynr_first _ _ _ V Hy)).
  unfold sum_sec, interval_usec, tod_usec.
  pose proof (Z.div_mod (sum_usec i t) 1000000 ltac:(lia)) as E; unfold sum_usec in *; lia.
Qed.

Lemma addDate_time_spec i t : datetime_ok t -> interval_bounded i ->
  let total := time_usec t + sign_of i * interval_usec i in
  (366 <= usec_daynr total <= MAX_DAY_NUMBER -> exists t',
   addDate_time i t = (false, t') /\ datetime_ok t' /\ time_usec t' = total) /\
  (usec_daynr total < 0 \/ MAX_DAY_NUMBER < usec_daynr total ->
   fst (addDate_time i t) = true).
Proof.
  intros Ht Hi total; pose proof (sum_total i t Ht) as E; fold total in E.
  destruct Ht as (V & Hy & Hr); pose proof (valid_date_bounds _ _ _ V) as (By & Bm & Bd).
  destruct (calc_daynr_first _ _ _ V Hy) as [E1 B1].
  rewrite (addDate_time_eq i t Hi Bd Hr B1).
  set (D0 := calc_daynr (year t) (month t) 1) in *.
  set (S := sum_sec i t) in *; set (us := sum_usec i t mod 1000000) in *.
  assert (0 <= us < 1000000) by (apply Z.mod_pos_bound; lia).
  assert (usec_daynr total = D0 + S / 86400) as ED by (unfold usec_daynr; rewrite E; clear - H; dlia).
  rewrite ED; split; intros Hd.
  - destruct (get_date_valid (D0 + S / 86400) Hd) as (y & m & d & -> & V' & Hy' & E').
    unfold MAX_DAY_NUMBER in *.
    replace ((_ <? 0) || (_ >? _)) with false by lia.
    eexists; split; [reflexivity|].
    assert (0 <= S mod 86400 < 86400) by (apply Z.mod_pos_bound; lia).
    split.
    + split; [exact V'|]; split; [exact Hy'|]; unfold time_in_range; cbn; dlia.
    + rewrite time_usec_daynr by (cbn; assumption); unfold tod_usec; cbn.
      rewrite E', E; dlia.
  - replace ((_ <? 0) || (_ >? _)) with true by lia; reflexivity.
Qed.

Lemma toggle_sign i : sign_of (toggleNegative i) = - sign_of i.
Proof. unfold sign_of; destruct i as [? ? ? ? ? ? ? []]; reflexivity. Qed.

(** The interval types with a part below the day. *)
Definition has_time_part (ty : interval_type) : bool :=
  match ty with
  | INTERVAL_YEAR | INTERVAL_QUARTER | INTERVAL_MONTH | INTERVAL_WEEK | INTERVAL_DAY
  | INTERVAL_YEAR_MONTH | INTERVAL_LAST => false
  | _ => true
  end.

Lemma addDate_time_dispatch i t ty : has_time_part ty = true ->
  addDate i t ty = Some (addDate_time i t).
Proof. destruct ty; discriminate || reflexivity. Qed.

(** ** Properties *)

(** Adding an interval with a part below the day is exact to the
    microsecond: if the sum falls in the years 1 to 9999 the result is that
    instant, and if it falls before year 0 or after 9999-12-31 the addition is
    refused. *)
Theorem addDate_time_exact i t ty :
  has_time_part ty = true -> datetime_ok t -> interval_bounded i ->
  let total := time_usec t + sign_of i * interval_usec i in
  (366 <= usec_daynr total <= MAX_DAY_NUMBER -> exists t',
   addDate i t ty = Some (false, t') /\ datetime_ok t' /\ time_usec t' = total) /\
  (usec_daynr total < 0 \/ MAX_DAY_NUMBER < usec_daynr total -> exists t',
   addDate i t ty = Some (true, t')).
Proof.
  intros Hty Ht Hi total; rewrite addDate_time_dispatch by exact Hty.
  destruct (addDate_time_spec i t Ht Hi) as [Hok Hbad]; fold total in Hok, Hbad.
  split; intros Hd.
  - destruct (Hok Hd) as (t' & -> & R); eauto.
  - specialize (Hbad Hd); destruct (addDate_time i t) as [b t']; cbn in Hbad; subst b; eauto.
Qed.

Lemma addDate_time_exact_witness :
  let t := mkTime 2012 2 28 23 59 59 999999 false DRIZZLE_TIMESTAMP_DATETIME in
  let i := mkInterval 0 0 0 0 0 0 1 false in
  addDate i t INTERVAL_MICROSECOND
  = Some (false, mkTime 2012 2 29 0 0 0 0 false DRIZZLE_TIMESTAMP_DATETIME) /\
  exists t', addDate i t INTERVAL_MICROSECOND = Some (false, t') /\ datetime_ok t' /\
    time_usec t' = time_usec t + sign_of i * interval_usec i.
Proof.
  split; [reflexivity|].
  apply (proj1 (addDate_time_exact (mkInterval 0 0 0 0 0 0 1 false)
    (mkTime 2012 2 28 23 59 59 999999 false DRIZZLE_TIMESTAMP_DATETIME)
    INTERVAL_MICROSECOND eq_refl ltac:(vm_compute; intuition discriminate)
    ltac:(vm_compute; intuition discriminate))).
  vm_compute; intuition discriminate.
Defined.

(** Subtracting an interval undoes adding it, for every interval type with a
    part below the day, as long as the sum stays in the years 1 to 9999. *)
Theorem addDate_time_undo i t ty t' :
  has_time_part ty = true -> datetime_ok t -> interval_bounded i ->
  366 <= usec_daynr (time_usec t + sign_of i * interval_usec i) ->
  addDate i t ty = Some (false, t') ->
  exists t'', addDate (toggleNegative i) t' ty = Some (false, t'') /\
    datetime_ok t'' /\ time_usec t'' = time_usec t.
Proof.
  intros Hty Ht Hi Hd Ha; rewrite addDate_time_dispatch in * by exact Hty.
  destruct (addDate_time_spec i t Ht Hi) as [Hok Hbad].
  assert (usec_daynr (time_usec t + sign_of i * interval_usec i) <= MAX_DAY_NUMBER) as Hm.
  { destruct (Z.le_gt_cases (usec_daynr (time_usec t + sign_of i * interval_usec i)) MAX_DAY_NUMBER)
      as [|G]; [assumption|]; specialize (Hbad (or_intror G)); inversion Ha as [Ha'].
    rewrite Ha' in Hbad; discriminate. }
  destruct (Hok (conj Hd Hm)) as (u & Eu & Hu & Tu); inversion Ha as [Ha'].
  rewrite Ha' in Eu; inversion Eu; subst u.
  destruct (addDate_time_spec (toggleNegative i) t' Hu) as [Hok' _];
    [destruct i; exact Hi|].
  assert (time_usec t' + sign_of (toggleNegative i) * interval_usec (toggleNegative i)
          = time_usec t) as Eback
    by (change (interval_usec (toggleNegative i)) with (interval_usec i);
        rewrite Tu, toggle_sign; lia).
  rewrite Eback in Hok'; destruct Hok' as (t'' & -> & Ht'' & T''); [|eauto].
  destruct Ht as (V & Hy & R); pose proof (daynr_bounds _ _ _ V Hy).
  unfold usec_daynr, MAX_DAY_NUMBER; rewrite time_usec_daynr by assumption.
  unfold tod_usec, time_in_range in *; dlia.
Qed.

Lemma addDate_time_undo_witness :
  let t := mkTime 2012 3 1 0 0 0 0 false DRIZZLE_TIMESTAMP_DATETIME in
  let i := mkInterval 0 0 1 2 3 4 5 true in
  let t' := mkTime 2012 2 28 21 56 55 999995 false DRIZZLE_TIMESTAMP_DATETIME in
  exists t'', addDate (toggleNegative i) t' INTERVAL_DAY_MICROSECOND = Some (false, t'') /\
    datetime_ok t'' /\ time_usec t'' = time_usec t.
Proof.
  apply (addDate_time_undo (mkInterval 0 0 1 2 3 4 5 true)
    (mkTime 2012 3 1 0 0 0 0 false DRIZZLE_TIMESTAMP_DATETIME) INTERVAL_DAY_MICROSECOND
    (mkTime 2012 2 28 21 56 55 999995 false DRIZZLE_TIMESTAMP_DATETIME));
  try reflexivity; vm_compute; intuition discriminate.
Defined.

(** Adding days or weeks moves the date by exactly that many days and keeps
    the time of day; past 9999-12-31 it is refused, but before 0001-01-01 the
    zero date is returned as a success. *)
Theorem addDate_day_exact i t ty :
  ty = INTERVAL_DAY \/ ty = INTERVAL_WEEK -> datetime_ok t -> is_u32 (i_day i) ->
  let n := calc_daynr (year t) (month t) (day t) + sign_of i * i_day i in
  (366 <= n <= MAX_DAY_NUMBER -> exists y m d,
   addDate i t ty = Some (false, with_date t y m d) /\
   valid_date y m d /\ y <= 9999 /\ calc_daynr y m d = n) /\
  (MAX_DAY_NUMBER < n ->
   addDate i t ty = Some (true, with_date t (year t) (month t) (day t))) /\
  (n < 366 -> addDate i t ty = Some (false, with_date t 0 0 0)).
Proof.
  intros Hty (V & Hy & R) Hi n; unfold is_u32, MAX_DAY_NUMBER in *.
  assert (addDate i t ty = Some (addDate_day i t)) as -> by (destruct Hty; subst ty; reflexivity).
  pose proof (daynr_bounds _ _ _ V Hy) as B; unfold addDate_day; fold n.
  assert (sign_of i = 1 \/ sign_of i = -1) as Hs by (unfold sign_of; case_if; lia).
  rewrite i64_small by (unfold n; destruct Hs as [-> | ->]; lia).
  unfold MAX_DAY_NUMBER; split; [|split]; intros Hn.
  - destruct (get_date_valid n Hn) as (y & m & d & -> & V' & R'); exists y, m, d.
    destruct (Z.gtb_spec n 3652424); [lia|]; auto.
  - destruct (Z.gtb_spec n 3652424); [reflexivity|lia].
  - destruct (Z.gtb_spec n 3652424); [lia|]; unfold get_date_from_daynr.
    replace ((n <=? 365) || _) with true by lia; reflexivity.
Qed.

Lemma addDate_day_exact_witness :
  let t := mkTime 2012 2 28 10 0 0 0 false DRIZZLE_TIMESTAMP_DATETIME in
  let i := mkInterval 0 0 2 0 0 0 0 false in
  exists y m d, addDate i t INTERVAL_DAY = Some (false, with_date t y m d) /\
    valid_date y m d /\ y <= 9999 /\ calc_daynr y m d = calc_daynr 2012 2 28 + 2.
Proof.
  apply (proj1 (addDate_day_exact (mkInterval 0 0 2 0 0 0 0 false)
    (mkTime 2012 2 28 10 0 0 0 false DRIZZLE_TIMESTAMP_DATETIME) INTERVAL_DAY
    (or_introl eq_refl) ltac:(vm_compute; intuition discriminate)
    ltac:(vm_compute; intuition discriminate))).
  vm_compute; intuition discriminate.
Defined.

(** Months since year 0 of the sum. *)
Definition month_period (i : TemporalInterval) (t : Time) : Z :=
  year t * 12 + (month t - 1) + sign_of i * (i_year i * 12 + i_month i).

Lemma month_period_eq i t : datetime_ok t -> is_u32 (i_year i) -> is_u32 (i_month i) ->
  -60000000000 <= month_period i t <= 60000000000 /\
  i64 (u32 (year t * 12) + sign_of i * i_year i * 12 + month t - 1 + sign_of i * i_month i)
  = month_period i t.
Proof.
  unfold is_u32; intros (V & Hy & _) Hiy Him; pose proof (valid_date_bounds _ _ _ V).
  rewrite (u32_small (year t * 12)) by lia; unfold month_period.
  assert (sign_of i = 1 \/ sign_of i = -1) as Hs by (unfold sign_of; case_if; lia).
  rewrite i64_small; destruct Hs as [-> | ->]; lia.
Qed.

Lemma day_limit_month y m d : 1 <= y -> 1 <= m <= 12 -> 1 <= d <= 31 ->
  (if d >? aget days_in_month_tab (m - 1)
   then if (m =? 2) && (calc_days_in_year y =? 366)
        then u32 (aget days_in_month_tab (m - 1) + 1) else aget days_in_month_tab (m - 1)
   else d) = Z.min d (days_in_gregorian_year_month y m).
Proof.
  intros Hy Hm Hd; rewrite days_in_month_tab_gregorian by lia.
  rewrite (u32_small (m - 1)) by lia.
  split_month Hm; aget_eval; cbn [Z.eqb Pos.eqb andb]; unwrap; repeat case_if; lia.
Qed.

Lemma days_in_month_tab_range k : 0 <= k <= 11 -> 28 <= aget days_in_month_tab k <= 31.
Proof.
  intros Hk; assert (In k (map Z.of_nat (seq 0 12))) as I by (apply in_map_iff; exists (Z.to_nat k); split; [lia|apply in_seq; lia]).
  cbn in I; decompose [or] I; try contradiction; subst k; split; discriminate.
Qed.

(** C29. Adding months, quarters or years and months, as 32-bit numbers, to a valid
    date.  From the year 1 to the year 9999 the month count moves by exactly that many months, and the
    day is cut to the length of the new month; past the year 9999 the interval is
    refused.  In the year 0 (month counts below 12) February is cut to 28 days.  A
    negative month count is not refused: unless it is a whole number of years the
    table of month lengths is read outside of its bounds, and otherwise the result
    is January of a year that has wrapped around to 32 bits. *)
Theorem addDate_month_exact i t ty :
  ty = INTERVAL_MONTH \/ ty = INTERVAL_QUARTER \/ ty = INTERVAL_YEAR_MONTH ->
  datetime_ok t -> is_u32 (i_year i) -> is_u32 (i_month i) ->
  let p := month_period i t in
  (12 <= p < 120000 -> exists y m d,
   addDate i t ty = Some (false, with_date t y m d) /\ y * 12 + (m - 1) = p /\
   valid_date y m d /\ d = Z.min (day t) (days_in_gregorian_year_month y m)) /\
  (120000 <= p ->
   addDate i t ty = Some (true, with_date t (year t) (month t) (day t))) /\
  (0 <= p < 12 ->
   addDate i t ty = Some (false, with_date t 0 (p + 1) (Z.min (day t) (aget days_in_month_tab p)))) /\
  (p < 0 ->
   addDate i t ty = if p mod 12 =? 0 then Some (false, with_date t (u32 (p / 12)) 1 (day t)) else None).
Proof.
  intros Hty Ht Hiy Him p; destruct (month_period_eq i t Ht Hiy Him) as [B E]; fold p in B, E.
  assert (addDate i t ty = addDate_month i t) as ->
    by (destruct Hty as [-> |[-> | ->]]; reflexivity).
  destruct Ht as (V & Hy & R); pose proof (valid_date_bounds _ _ _ V) as (_ & _ & Bd).
  unfold addDate_month; rewrite E; repeat split; intros Hp.
  - replace (p >=? 120000) with false by lia.
    rewrite Z.quot_div_nonneg, Z.rem_mod_nonneg by lia.
    set (y := p / 12); set (m := p mod 12 + 1).
    assert (0 <= y < 10000 /\ 1 <= y /\ 1 <= m <= 12 /\ y * 12 + (m - 1) = p) as (By & By1 & Bm & Ep)
      by (unfold y, m; dlia).
    rewrite (u32_small y), (u32_small (p mod 12)) by (unfold m in *; lia); fold m.
    rewrite (u32_small m), (u32_small (m - 1)) by lia.
    replace (m - 1 >=? 13) with false by lia.
    rewrite day_limit_month by lia.
    exists y, m, (Z.min (day t) (days_in_gregorian_year_month y m)).
    pose proof (days_in_month_range y m Bm).
    split; [reflexivity|split; [exact Ep|split; [|reflexivity]]].
    split; [lia|split; lia].
  - replace (p >=? 120000) with true by lia; reflexivity.
  - replace (p >=? 120000) with false by lia; pose proof (days_in_month_tab_range p ltac:(lia)).
    rewrite Z.quot_small, Z.rem_small by lia; rewrite (u32_small p), (u32_small (p + 1)), (u32_small (p + 1 - 1)) by lia.
    replace (p + 1 - 1) with p by lia; replace (p >=? 13) with false by lia.
    change (calc_days_in_year (u32 0) =? 366) with false; rewrite andb_false_r; do 4 f_equal; case_if; lia.
  - replace (p >=? 120000) with false by lia; rewrite u32_add_l, u32_sub_l; destruct (Z.eqb_spec (p mod 12) 0) as [E0|E0].
    + replace (Z.rem p 12) with 0 by dlia; replace (p ÷ 12) with (p / 12) by dlia.
      change (u32 (0 + 1 - 1)) with 0; change (u32 (u32 0 + 1)) with 1; change (aget days_in_month_tab 0) with 31.
      cbn [Z.geb Z.compare Z.eqb Pos.eqb andb]; replace (day t >? 31) with false by lia; reflexivity.
    + replace (u32 (Z.rem p 12 + 1 - 1)) with (Z.rem p 12 + 4294967296) by (rewrite u32_eq; dlia).
      replace (_ >=? 13) with true by dlia; reflexivity.
Qed.

Lemma addDate_month_exact_witness :
  let t := mkTime 2011 12 31 10 0 0 0 false DRIZZLE_TIMESTAMP_DATETIME in
  let i := mkInterval 0 2 0 0 0 0 0 false in
  addDate i t INTERVAL_MONTH = Some (false, with_date t 2012 2 29) /\
  exists y m d, addDate i t INTERVAL_MONTH = Some (false, with_date t y m d) /\
    y * 12 + (m - 1) = month_period i t /\
    valid_date y m d /\ d = Z.min (day t) (days_in_gregorian_year_month y m).
Proof.
  split; [reflexivity|].
  apply (proj1 (addDate_month_exact (mkInterval 0 2 0 0 0 0 0 false)
    (mkTime 2011 12 31 10 0 0 0 false DRIZZLE_TIMESTAMP_DATETIME) INTERVAL_MONTH
    (or_introl eq_refl) ltac:(vm_compute; intuition discriminate)
    ltac:(vm_compute; intuition discriminate) ltac:(vm_compute; intuition discriminate))).
  vm_compute; intuition discriminate.
Defined.

(** *** Interval strings *)

Lemma scan_number_digits l rest : Forall is_digit l -> starts_nondigit rest ->
  forall v d, 0 <= v -> digits_value l v < 9223372036854775808 ->
  scan_number ctype_utf8mb4 (l ++ rest) v d = (digits_value l v, d + Z.of_nat (length l), rest).
Proof.
  intros Hl Hr; induction Hl as [|c l Hc Hl IH]; intros v d Hv Hb.
  - cbn [app length digits_value fold_left]; rewrite Z.add_0_r.
    destruct rest as [|c rest]; [reflexivity|]; cbn [scan_number].
    destruct Hr; rewrite isdigit_not by assumption; reflexivity.
  - change (digits_value (c :: l) v) with (digits_value l (v * 10 + (c - 48))) in *.
    cbn [app scan_number length]; rewrite isdigit_is_digit by exact Hc.
    unfold is_digit in Hc.
    pose proof (digits_value_ge l Hl (v * 10 + (c - 48)) ltac:(lia)).
    rewrite i64_small, IH by lia; do 2 f_equal; lia.
Qed.

Lemma skip_to_digit_digits l rest : Forall is_digit l -> l <> [] ->
  skip_to_digit ctype_utf8mb4 (l ++ rest) = l ++ rest.
Proof.
  intros Hl Hne; destruct Hl as [|c l Hc _]; [contradiction|]; cbn [app skip_to_digit].
  rewrite isdigit_is_digit by exact Hc; reflexivity.
Qed.

(** Numbers separated by colons. *)
Fixpoint colon_list (ns : list Z) : list Z :=
  match ns with
  | [] => []
  | [n] => fmt_u n
  | n :: ns' => fmt_u n ++ 58 :: colon_list ns'
  end.

Definition part_ok (n : Z) : Prop := 0 <= n < 9223372036854775808.

Lemma colon_list_cons n ns : exists rest, starts_nondigit rest /\
  colon_list (n :: ns) = fmt_u n ++ rest /\
  (ns = [] -> rest = []) /\ (ns <> [] -> rest = 58 :: colon_list ns).
Proof.
  destruct ns as [|n' ns].
  - exists []; repeat split; [cbn; symmetry; apply app_nil_r|congruence].
  - exists (58 :: colon_list (n' :: ns)); unfold starts_nondigit, is_digit.
    repeat split; try lia; congruence.
Qed.

Lemma colon_list_starts n ns : part_ok n ->
  skip_to_digit ctype_utf8mb4 (colon_list (n :: ns)) = colon_list (n :: ns).
Proof.
  intros Hn; destruct (colon_list_cons n ns) as (rest & _ & -> & _).
  destruct (fmt_u_spec n ltac:(unfold part_ok in Hn; lia)) as (Hd & Hne & _).
  apply skip_to_digit_digits; assumption.
Qed.

Lemma colon_list_nonempty n ns : part_ok n -> at_end (colon_list (n :: ns)) = false.
Proof.
  intros Hn; destruct (colon_list_cons n ns) as (rest & _ & -> & _).
  destruct (fmt_u_spec n ltac:(unfold part_ok in Hn; lia)) as (_ & Hne & _).
  destruct (fmt_u n); [contradiction|reflexivity].
Qed.

Lemma interval_loop_colon ns : forall left acc, Forall part_ok ns -> ns <> [] ->
  (length ns <= left)%nat ->
  interval_loop ctype_utf8mb4 left (colon_list ns) acc false
  = (repeat 0 (left - length ns) ++ acc ++ ns, []).
Proof.
  induction ns as [|n ns IH]; intros left acc Hok Hne Hlen; [contradiction|].
  apply Forall_cons_iff in Hok as [Hn Hns]; destruct left as [|left]; [cbn in Hlen; lia|].
  destruct (colon_list_cons n ns) as (rest & Hr & E & E0 & E1); rewrite E.
  destruct (fmt_u_spec n ltac:(unfold part_ok in Hn; lia)) as (Hd & Hfe & Hv).
  cbn [interval_loop]; rewrite scan_number_digits; [|assumption..|lia|unfold part_ok in Hn; lia].
  rewrite Hv; cbn [andb]; rewrite (u64_small n) by (unfold part_ok in Hn; lia).
  destruct ns as [|n' ns].
  - rewrite (E0 eq_refl); cbn [skip_to_digit at_end length].
    destruct left as [|left]; [reflexivity|]; cbn [andb negb].
    rewrite Nat.sub_succ, Nat.sub_0_r; reflexivity.
  - rewrite E1 by discriminate; cbn [skip_to_digit].
    apply Forall_cons_iff in Hns as [Hn' Hns'].
    rewrite isdigit_not by (unfold is_digit; lia).
    rewrite colon_list_starts, colon_list_nonempty by exact Hn'; cbn [andb].
    rewrite IH by (try (constructor; assumption); try discriminate; cbn in *; lia).
    rewrite <- app_assoc; reflexivity.
Qed.

(** An interval string of at most [count] numbers separated by colons is read
    into the array from the high end: missing leading parts are zero and no part
    is lost. *)
Theorem interval_string_parts ns count :
  Forall part_ok ns -> ns <> [] -> (length ns <= count)%nat ->
  Z.of_nat (length (colon_list ns)) < 4294967296 ->
  getIntervalFromString ctype_utf8mb4 (colon_list ns) count false
  = (false, repeat 0 (count - length ns) ++ ns).
Proof.
  intros Hok Hne Hlen Hl; unfold getIntervalFromString.
  rewrite u32_small, Nat2Z.id, firstn_all by lia.
  destruct ns as [|n ns]; [contradiction|].
  rewrite colon_list_starts by (apply Forall_cons_iff in Hok; tauto).
  rewrite interval_loop_colon by assumption; reflexivity.
Qed.

Lemma interval_string_parts_witness :
  getIntervalFromString ctype_utf8mb4 (bytes_of_string "11:22:33"%string) 4 false
  = (false, [0; 11; 22; 33]).
Proof.
  apply (interval_string_parts [11; 22; 33] 4);
  [repeat constructor; unfold part_ok; lia|discriminate|cbn; lia|cbn; lia].
Defined.
