(* ===== verification/TimeParse.v ===== *)
(** Text and epoch forms of [type::Time]: the two string readers, the string
    writer and the conversion to an epoch value of
    [src/drizzled/type/time.cc].

    Strings are lists of bytes; a pointer into the string is the list of bytes
    from it to [end].  [format_position] always is [internal_format_positions],
    that is [0,1,2,3,4,5,6,255], so the code for a year after the time (lines
    228-251) and for AM/PM (lines 335-348, 391-399 and 640-655) cannot run and
    is left out, and [format_position[i]] is written [i]. *)

From Stdlib Require Import String ZArith Lia ZifyBool List Bool.
From S2P Require Import Prelude Calendar TimeTypes GmTime TimeCore Ctype.
Import ListNotations.
Local Open Scope Z_scope.

(** ** Model: reading a date and time *)

Definition is_dig (c : Z) : bool := isdigit ctype_utf8mb4 c.
Definition is_spc (c : Z) : bool := isspace ctype_utf8mb4 c.
Definition is_pnt (c : Z) : bool := ispunct ctype_utf8mb4 c.

Definition str_end (s : list Z) : bool := match s with [] => true | _ => false end.
Definition chr_T : Z := 84.
Definition chr_dot : Z := 46.
Definition chr_colon : Z := 58.
Definition chr_minus : Z := 45.

(** [*str == c], false at the end of the string. *)
Definition head_is (c : Z) (s : list Z) : bool := match s with x :: _ => x =? c | [] => false end.
Definition head_dig (s : list Z) : bool := match s with x :: _ => is_dig x | [] => false end.

(** src/drizzled/type/time.cc:192-193 Time::store *)
Fixpoint skip_spaces (s : list Z) : list Z :=
  match s with
  | c :: rest => if is_spc c then skip_spaces rest else s
  | [] => []
  end.

(** src/drizzled/type/time.cc:210-215 Time::store

    The number of digits (and 'T's) at the start and the rest. *)
Fixpoint first_part (s : list Z) (digits : Z) : Z * list Z :=
  match s with
  | c :: rest => if is_dig c || (c =? chr_T) then first_part rest (u32 (digits + 1)) else (digits, s)
  | [] => (digits, [])
  end.

(** src/drizzled/type/time.cc:277-283 Time::store

    The value, the length and the rest of a field; [field_length] only counts
    in the internal format. *)
Fixpoint field_loop (internal : bool) (field_length : Z) (s : list Z) (tmp_value len : Z)
  : Z * Z * list Z :=
  match s with
  | c :: rest =>
      if is_dig c then
        if internal then
          let field_length := u32 (field_length - 1) in
          if field_length =? 0 then (tmp_value, len, s)
          else field_loop internal field_length rest (u32 (tmp_value * 10 + (c - 48))) (len + 1)
        else field_loop internal field_length rest (u32 (tmp_value * 10 + (c - 48))) (len + 1)
      else (tmp_value, len, s)
  | [] => (tmp_value, len, [])
  end.

(** src/drizzled/type/time.cc:315-330 Time::store

    [None] is the return for a space that is not allowed; otherwise the two
    flags and the rest. *)
Fixpoint skip_delimiters (space_ok : bool) (s : list Z) (found_delimitier found_space : bool)
  : option (bool * bool * list Z) :=
  match s with
  | c :: rest =>
      if is_pnt c || is_spc c then
        if is_spc c && negb space_ok then None
        else skip_delimiters space_ok rest true (found_space || is_spc c)
      else Some (found_delimitier, found_space, s)
  | [] => Some (found_delimitier, found_space, [])
  end.

(** The local variables of the scan loop. *)
Record scan : Type := mkScan {
  sc_date : list Z; sc_len : list Z;
  sc_not_zero : Z;
  sc_delim : bool; sc_space : bool;
  sc_last : list Z;          (* last_field_pos *)
  sc_fields : Z }.           (* i, when the loop has ended *)

(** src/drizzled/type/time.cc:264-267 Time::store *)
Definition allow_space : Z :=
  Z.land (Z.lor (Z.shiftl 1 2) (Z.shiftl 1 6)) (Z.lor (Z.lor (Z.lor 1 2) 4) 8).

(** src/drizzled/type/time.cc:270-351 Time::store

    [n] is [MAX_DATE_PARTS - 1 - i]; [None] is the return of
    DRIZZLE_TIMESTAMP_NONE. *)
Fixpoint scan_loop (n : nat) (i : Z) (internal : bool) (field_length : Z) (s : list Z) (sc : scan)
  : option scan :=
  let stop := Some (mkScan (sc_date sc) (sc_len sc) (sc_not_zero sc) (sc_delim sc)
                      (sc_space sc) (sc_last sc) i) in
  match n, s with
  | S n', c :: rest =>
      if is_dig c then
        let '(tmp_value, len, s) := field_loop internal field_length rest (c - 48) 1 in
        if tmp_value >? 999999 then None
        else
          let sc := mkScan (sc_date sc ++ [tmp_value]) (sc_len sc ++ [len])
                      (Z.lor (sc_not_zero sc) tmp_value) (sc_delim sc) (sc_space sc) s i in
          let field_length := 2 in
          if str_end s then
            Some (mkScan (sc_date sc) (sc_len sc) (sc_not_zero sc) (sc_delim sc)
                    (sc_space sc) s (i + 1))
          else if (i =? 2) && head_is chr_T s then
            scan_loop n' (i + 1) internal field_length (tl s) sc
          else if i =? 5 then
            if head_is chr_dot s then scan_loop n' (i + 1) internal 6 (tl s) sc
            else scan_loop n' (i + 1) internal field_length s sc
          else
            match skip_delimiters (negb (Z.land allow_space (Z.shiftl 1 i) =? 0)) s
                    (sc_delim sc) (sc_space sc) with
            | None => None
            | Some (delim, space, s) =>
                let sc := mkScan (sc_date sc) (sc_len sc) (sc_not_zero sc) delim space s i in
                let i := if i =? 6 then i + 1 else i in
                scan_loop n' (i + 1) internal field_length s sc
            end
      else stop
  | _, _ => stop
  end.

(** [while (i < MAX_DATE_PARTS) date[i++]= 0]. *)
Definition part (l : list Z) (i : nat) : Z := nth i l 0.

(** src/drizzled/type/time.cc:426-433 Time::store

    Also lines 447-454: is there anything but space left? *)
Fixpoint has_garbage (s : list Z) : bool :=
  match s with
  | c :: rest => if negb (is_spc c) then true else has_garbage rest
  | [] => false
  end.

(** src/drizzled/type/time.cc:367-457 Time::store

    The part after the scan: [None] leaves the [do] block for [reset()]. *)
Definition store_fields (internal : bool) (year_length flags : Z) (sc : scan)
  : option (timestamp_t * Time) * cut_t :=
  let date := sc_date sc in
  let date_len := sc_len sc in
  let frac_len := part date_len 6 in
  let frac := if frac_len <? 6 then u32 (part date 6 * u32 (aget log_10_int (6 - frac_len)))
              else part date 6 in
  let not_zero_date := negb (sc_not_zero sc =? 0) in
  let y := part date 0 in
  let y := if (year_length =? 2) && not_zero_date
           then u32 (y + (if y <? YY_PART_YEAR then 2000 else 1900)) else y in
  let ty := if sc_fields sc <=? 3 then DRIZZLE_TIMESTAMP_DATE else DRIZZLE_TIMESTAMP_DATETIME in
  let t := mkTime y (part date 1) (part date 2) (part date 3) (part date 4) (part date 5)
             frac false ty in
  if (sc_fields sc <? 3) || (year t >? 9999) || (month t >? 12) || (day t >? 31)
     || (hour t >? 23) || (minute t >? 59) || (second t >? 59)
  then
    let not_zero_date := if not_zero_date then true else has_garbage (sc_last sc) in
    (None, if not_zero_date then CUT else VALID)
  else
    let '(bad, was_cut) := check t not_zero_date flags VALID in
    if bad then (None, was_cut)
    else (Some (ty, t), if has_garbage (sc_last sc) then CUT else was_cut).

(** src/drizzled/type/time.cc:176-462 Time::store

    From a string: the returned type, [*this] and [was_cut]. *)
Definition store_string (this : Time) (str : list Z) (flags : Z) : timestamp_t * Time * cut_t :=
  let none := (DRIZZLE_TIMESTAMP_NONE, this, CUT) in
  let str := skip_spaces str in
  if negb (head_dig str) then none
  else
    let '(digits, pos) := first_part str 0 in
    let internal := str_end pos || head_is chr_dot pos in
    let year_length :=
      if (digits =? 4) || (digits =? 8) || (digits >=? 14) then 4 else 2 in
    let field_length := if internal then year_length else 4 in
    match scan_loop 7 0 internal field_length str (mkScan [] [] 0 false false [] 0) with
    | None => none
    | Some sc =>
        if sc_delim sc && negb (sc_space sc) && flag_set flags TIME_DATETIME_ONLY then none
        else
          let year_length := if internal then year_length else part (sc_len sc) 0 in
          if negb internal && (year_length =? 0) then none
          else
            match store_fields internal year_length flags sc with
            | (Some (ty, t), was_cut) => (ty, t, was_cut)
            | (None, was_cut) => (DRIZZLE_TIMESTAMP_ERROR, reset, was_cut)
            end
    end.

(** ** Model: reading a time *)

(** src/drizzled/type/time.cc:540-543 Time::store

    Also lines 581-582. *)
Fixpoint scan_value (s : list Z) (value : Z) : Z * list Z :=
  match s with
  | c :: rest => if is_dig c then scan_value rest (u64 (value * 10 + (c - 48))) else (value, s)
  | [] => (value, [])
  end.

Definition second_char_dig (s : list Z) : bool :=
  match s with _ :: c :: _ => is_dig c | _ => false end.

(** src/drizzled/type/time.cc:579-588 Time::store

    [fuel] is [4 - state]; the values read and the rest. *)
Fixpoint hms_loop (fuel : nat) (s : list Z) (acc : list Z) : list Z * list Z :=
  match fuel with
  | O => (acc, s)
  | S fuel' =>
      let '(value, s) := scan_value s 0 in
      let acc := acc ++ [u32 value] in
      match fuel' with
      | O => (acc, s)
      | S _ =>
          if head_is chr_colon s && second_char_dig s then hms_loop fuel' (tl s) acc
          else (acc, s)
      end
  end.

(** src/drizzled/type/time.cc:609-613 Time::store

    The value, [field_length] and the rest. *)
Fixpoint fraction_loop (s : list Z) (value field_length : Z) : Z * Z * list Z :=
  match s with
  | c :: rest =>
      if is_dig c then
        fraction_loop rest (if field_length >? 0 then u64 (value * 10 + (c - 48)) else value)
          (field_length - 1)
      else (value, field_length, s)
  | [] => (value, field_length, [])
  end.

(** src/drizzled/type/time.cc:604-628 Time::store

    [date[4]], the warnings and the rest. *)
Definition read_fraction (s : list Z) (warning : Z) : Z * Z * list Z :=
  match s with
  | c0 :: c :: rest =>
      if (c0 =? chr_dot) && is_dig c then
        let '(value, field_length, s) := fraction_loop rest (c - 48) 5 in
        if field_length >? 0 then (u32 (u64 (value * aget log_10_int field_length)), warning, s)
        else (u32 value,
              if field_length <? 0 then Z.lor warning DRIZZLE_TIME_WARN_TRUNCATED else warning, s)
      else (0, warning, s)
  | _ => (0, warning, s)
  end.

(** src/drizzled/type/time.cc:630-638 Time::store *)
Definition has_exponent (s : list Z) : bool :=
  match s with
  | c0 :: c1 :: rest =>
      ((c0 =? 101) || (c0 =? 69))
      && (is_dig c1
          || (((c1 =? 45) || (c1 =? 43))
              && match rest with c2 :: _ => is_dig c2 | [] => false end))
  | _ => false
  end.

(** src/drizzled/type/time.cc:545-601 Time::store

    The four numbers days, hours, minutes and seconds, and the rest.  [date] has
    five [uint32_t] elements but is cleared in units of [sizeof(long)], that is
    two elements: with one number after the days, [memset(date+2, 0, 16)] writes
    past its end, the [None] of this definition. *)
Definition read_dhms (value : Z) (end_of_days : list Z) : option (Z * Z * Z * Z * list Z) :=
  let s := skip_spaces end_of_days in
  let skipped := negb (Nat.eqb (length s) (length end_of_days)) in
  if (1 <? u32 (Z.of_nat (length s))) && skipped && head_dig s then
    match hms_loop 3 s [] with
    | ([h; m; sec], s) => Some (u32 value, h, m, sec, s)
    | ([h; m], s) => Some (u32 value, h, m, 0, s)
    | (_, s) => None
    end
  else if (1 <? Z.of_nat (length s)) && head_is chr_colon s && second_char_dig s then
    match hms_loop 2 (tl s) [] with
    | ([m; sec], s) => Some (0, u32 value, m, sec, s)
    | ([m], s) => Some (0, u32 value, m, 0, s)
    | (_, s) => None
    end
  else
    Some (0, u32 (value / 10000), u32 (value / 100 mod 100), u32 (value mod 100), s).

(** src/drizzled/type/time.cc:603-690 Time::store

    Fraction, exponent, range check and garbage. *)
Definition store_time_rest (this : Time) (d h m sec : Z) (s : list Z) (warning : Z)
  : bool * Time * Z :=
  let '(frac, warning, s) := read_fraction s warning in
  if has_exponent s then (true, this, warning)
  else
    let t := mkTime 0 0 d h m sec frac (neg this) DRIZZLE_TIMESTAMP_TIME in
    let '(ret, t, warning) := check_time_range t warning in
    if negb (ret =? 0) then (true, t, warning)
    else (false, t, if has_garbage s then Z.lor warning DRIZZLE_TIME_WARN_TRUNCATED else warning).

Definition with_neg (t : Time) (n : bool) : Time :=
  mkTime (year t) (month t) (day t) (hour t) (minute t) (second t) (second_part t) n
         (time_type t).

(** src/drizzled/type/time.cc:495-691 Time::store

    From a time string: the return value (true is failure), [*this] and the
    warnings; [None] where the source writes outside of [date]. *)
Definition store_time_string (this : Time) (str : list Z) : option (bool * Time * Z) :=
  let s := skip_spaces str in
  let minus := head_is chr_minus s in
  let s := if minus then tl s else s in
  let this := with_neg this minus in
  if str_end s then Some (true, this, 0)
  else
    let not_timestamp (this : Time) :=
      let '(value, end_of_days) := scan_value s 0 in
      match read_dhms value end_of_days with
      | None => None
      | Some (d, h, m, sec, s) => Some (store_time_rest this d h m sec s 0)
      end in
    if Z.of_nat (length s) >=? 12 then
      let '(res, t, was_cut) := store_string this s (Z.lor TIME_FUZZY_DATE TIME_DATETIME_ONLY) in
      if timestamp_code res >=? timestamp_code DRIZZLE_TIMESTAMP_ERROR then
        Some (timestamp_code res =? timestamp_code DRIZZLE_TIMESTAMP_ERROR, t,
              match was_cut with VALID => 0 | _ => DRIZZLE_TIME_WARN_TRUNCATED end)
      else not_timestamp t
    else not_timestamp this.

(** ** Model: writing *)

Definition date_text (t : Time) : list Z :=
  fmt_0u 4 (year t) ++ [chr_minus] ++ fmt_0u 2 (month t) ++ [chr_minus] ++ fmt_0u 2 (day t).

Definition time_text (t : Time) : list Z :=
  fmt_0u 2 (hour t) ++ [chr_colon] ++ fmt_0u 2 (minute t) ++ [chr_colon] ++ fmt_0u 2 (second t).

(** src/drizzled/type/time.cc:1071-1121 Time::convert

    The bytes stored in [str] and the new [to_length]. *)
Definition convert_text (t : Time) (to_length : nat) (arg : timestamp_t) : list Z * Z :=
  match arg with
  | DRIZZLE_TIMESTAMP_DATETIME =>
      snprintf to_length (date_text t ++ [32] ++ time_text t ++ [chr_dot] ++ fmt_0u 6 (second_part t))
  | DRIZZLE_TIMESTAMP_DATE => snprintf to_length (date_text t)
  | DRIZZLE_TIMESTAMP_TIME =>
      snprintf to_length ((if neg t then [chr_minus] else []) ++ time_text t)
  | DRIZZLE_TIMESTAMP_NONE | DRIZZLE_TIMESTAMP_ERROR => ([], 0)
  end.

(** src/drizzled/type/time.cc:1060-1069 Time::convert

    Into a [String] of [MAX_STRING_LENGTH] bytes; the length is then set to the
    one returned. *)
Definition convert_string (t : Time) (arg : timestamp_t) : list Z :=
  let '(s, n) := convert_text t 32 arg in firstn (Z.to_nat n) s.

(** ** Model: the epoch *)

(** src/drizzled/type/time.cc:954-962 Time::convert

    Also lines 980-987: the difference in seconds to a broken-down time, its
    days counted as -1, 0 or 1. *)
Definition epoch_diff (t : Time) (l_time : tm) : Z :=
  let days := i32 (u32 (day t - tm_mday l_time)) in
  let days := if days <? -1 then 1 else if days >? 1 then -1 else days in
  i64 (3600 * (days * 24 + (i32 (hour t) - tm_hour l_time))
       + 60 * (i32 (minute t) - tm_min l_time) + (i32 (second t) - tm_sec l_time)).

(** [util::gmtime] leaves the buffer alone when it returns the null pointer. *)
Definition gmtime_into (epoch : Z) (buf : tm) : tm :=
  match gmtime_tm epoch with Some b => b | None => buf end.

Definition tod_differs (t : Time) (l_time : tm) : bool :=
  negb (hour t =? u32 (tm_hour l_time)) || negb (minute t =? u32 (tm_min l_time))
  || negb (second t =? u32 (tm_sec l_time)).

(** src/drizzled/type/time.cc:944-967 Time::convert

    [n] is [2 - loop]: the epoch, the time zone, the broken-down time and the
    number of corrections. *)
Fixpoint correct_loop (n : nat) (t : Time) (epoch current_timezone : Z) (l_time : tm) (loop : Z)
  : Z * Z * tm * Z :=
  match n with
  | O => (epoch, current_timezone, l_time, loop)
  | S n' =>
      if tod_differs t l_time then
        let diff := epoch_diff t l_time in
        let epoch := i64 (epoch + diff) in
        correct_loop n' t epoch (i64 (current_timezone + (diff + 3600)))
          (gmtime_into epoch l_time) (loop + 1)
      else (epoch, current_timezone, l_time, loop)
  end.

(** src/drizzled/type/time.cc:841-1011 Time::convert

    [my_time_zone] is the file's variable; [tm_tmp] the value of the local
    before [gmtime] fills it.  The epoch, and the new [*my_timezone] unless the
    function returns early. *)
Definition convert_epoch (this : Time) (my_time_zone : Z) (tm_tmp : tm) : Z * option Z :=
  if negb (isValidEpoch this) then (0, None)
  else
    let t := this in
    let epoch :=
      i64 ((calc_daynr (year t) (month t) (day t) - days_at_timestart) * 86400
           + hour t * 3600 + u32 (u32 (minute t * 60) + second t) + my_time_zone - 3600) in
    let '(epoch, current_timezone, l_time, loop) :=
      correct_loop 2 t epoch my_time_zone (gmtime_into epoch tm_tmp) 0 in
    let epoch :=
      if (loop =? 2) && negb (hour t =? u32 (tm_hour l_time)) then
        let diff := epoch_diff t l_time in
        if diff =? 3600 then i64 (epoch + u32 (u32 (3600 - u32 (minute t * 60)) - second t))
        else if diff =? -3600 then i64 (epoch - u32 (u32 (minute t * 60) + second t))
        else epoch
      else epoch in
    (if epoch <? TIMESTAMP_MIN_VALUE then 0 else epoch, Some current_timezone).

(** src/drizzled/type/time.cc:744-764 init_time

    The new [my_time_zone], from the broken-down local time. *)
Definition init_time (l_time tm_tmp : tm) : Z :=
  let my_time := mkTime (u32 (u32 (tm_year l_time) + 1900)) (u32 (u32 (tm_mon l_time) + 1))
                   (u32 (tm_mday l_time)) (u32 (tm_hour l_time)) (u32 (tm_min l_time))
                   (u32 (tm_sec l_time)) 0 false DRIZZLE_TIMESTAMP_NONE in
  match snd (convert_epoch my_time 3600 tm_tmp) with Some z => z | None => 3600 end.

(** src/drizzled/type/time.cc:1230-1240 Time::convert

    The returned number and [*this]. *)
Definition convert_number (nr flags : Z) : Z * Time :=
  let '(ret, t, _) := number_to_datetime nr flags in (ret, t).

(** ** Lemmas: the date and time reader *)

Lemma field_loop_digits fl l rest : Forall is_digit l -> starts_nondigit rest ->
  forall v n, 0 <= v -> digits_value l v < 4294967296 ->
  field_loop false fl (l ++ rest) v n = (digits_value l v, n + Z.of_nat (length l), rest).
Proof.
  intros Hl Hr; induction Hl as [|c l Hc Hl IH]; intros v n Hv Hb.
  - cbn [app length digits_value fold_left]; rewrite Z.add_0_r.
    destruct rest as [|c rest]; [reflexivity|]; cbn [field_loop]; unfold is_dig.
    destruct Hr; rewrite isdigit_not by assumption; reflexivity.
  - change (digits_value (c :: l) v) with (digits_value l (v * 10 + (c - 48))) in *.
    cbn [app field_loop length]; unfold is_dig at 1; rewrite isdigit_is_digit by exact Hc.
    unfold is_digit in Hc.
    pose proof (digits_value_ge l Hl (v * 10 + (c - 48)) ltac:(lia)).
    rewrite u32_small, IH by lia; do 2 f_equal; lia.
Qed.

(** A printed field: nonempty digits with a value that fits a date part. *)
Definition field_text (l : list Z) (v : Z) : Prop :=
  Forall is_digit l /\ l <> [] /\ digits_value l 0 = v /\ 0 <= v <= 999999.

Lemma field_text_fmt w n : (0 < w <= 20)%nat -> 0 <= n <= 999999 -> field_text (fmt_0u w n) n.
Proof.
  intros Hw Hn; destruct (fmt_0u_spec w n Hw ltac:(lia)) as (H1 & H2 & H3 & _).
  unfold field_text; auto.
Qed.

Definition starts_digit (l : list Z) : Prop :=
  match l with c :: _ => is_digit c | [] => False end.

Lemma field_text_starts l v rest : field_text l v -> starts_digit (l ++ rest).
Proof. intros (Hd & Hne & _); destruct Hd; [contradiction|assumption]. Qed.

Lemma starts_digit_head l : starts_digit l -> head_dig l = true.
Proof. destruct l; [contradiction|]; apply isdigit_is_digit. Qed.

Lemma digit_not_delim c : is_digit c -> is_pnt c = false /\ is_spc c = false.
Proof.
  unfold is_digit, is_pnt, is_spc; intros H; rewrite ispunct_utf8, isspace_utf8; lia.
Qed.

Section ScanField.
Variables (n : nat) (i fl v : Z) (l : list Z) (sc : scan).
Hypothesis Hl : field_text l v.

Definition sc_next (delim space : bool) (last : list Z) (fields : Z) : scan :=
  mkScan (sc_date sc ++ [v]) (sc_len sc ++ [Z.of_nat (length l)]) (Z.lor (sc_not_zero sc) v)
    delim space last fields.

Lemma scan_field_read rest : starts_nondigit rest -> exists c l', l = c :: l' /\
  is_dig c = true /\
  field_loop false fl (l' ++ rest) (c - 48) 1 = (v, Z.of_nat (length l), rest).
Proof.
  intros Hr; destruct Hl as (Hd & Hne & Hv & Hb); destruct Hd as [|c l' Hc Hd]; [contradiction|].
  exists c, l'; split; [reflexivity|]; split; [apply isdigit_is_digit; exact Hc|].
  change (digits_value (c :: l') 0) with (digits_value l' (0 * 10 + (c - 48))) in Hv.
  rewrite Z.mul_0_l, Z.add_0_l in Hv; unfold is_digit in Hc.
  rewrite field_loop_digits by (assumption || lia); rewrite Hv; cbn [length].
  do 2 f_equal; lia.
Qed.

(** A field at the end of the string. *)
Lemma scan_field_end :
  scan_loop (S n) i false fl (l ++ []) sc = Some (sc_next (sc_delim sc) (sc_space sc) [] (i + 1)).
Proof.
  destruct (scan_field_read [] I) as (c & l' & El & Hc & F).
  rewrite El at 1; cbn [app scan_loop]; rewrite Hc, F.
  destruct Hl as (_ & _ & _ & Hb); replace (v >? 999999) with false by lia; reflexivity.
Qed.

(** A field, one delimiter and more digits. *)
Lemma scan_field_delim d rest : 0 <= d < 256 -> i <> 5 -> i <> 6 ->
  is_pnt d || is_spc d = true -> is_dig d = false -> d <> chr_T ->
  (is_spc d = true -> Z.land allow_space (Z.shiftl 1 i) <> 0) ->
  starts_digit rest ->
  scan_loop (S n) i false fl (l ++ d :: rest) sc =
  scan_loop n (i + 1) false 2 rest (sc_next true (sc_space sc || is_spc d) rest i).
Proof.
  intros Hd H5 H6 Hpnt Hdig HT Hsp Hrest.
  destruct (scan_field_read (d :: rest)) as (c & l' & El & Hc & F).
  { split; [exact Hd|]; intros D; apply isdigit_is_digit in D; unfold is_dig in Hdig; congruence. }
  rewrite El at 1; cbn [app scan_loop]; rewrite Hc, F.
  destruct Hl as (_ & _ & _ & Hb); replace (v >? 999999) with false by lia.
  cbn [str_end head_is]; destruct (Z.eqb_spec d chr_T); [contradiction|].
  rewrite andb_false_r; destruct (Z.eqb_spec i 5); [contradiction|].
  destruct (Z.eqb_spec i 6); [contradiction|]; cbn [skip_delimiters]; rewrite Hpnt.
  replace (is_spc d && _) with false
    by (destruct (is_spc d); [specialize (Hsp eq_refl)|reflexivity];
        destruct (Z.eqb_spec (Z.land allow_space (Z.shiftl 1 i)) 0); [contradiction|reflexivity]).
  assert (skip_delimiters (negb (Z.land allow_space (Z.shiftl 1 i) =? 0)) rest true
            (sc_space sc || is_spc d) = Some (true, sc_space sc || is_spc d, rest)) as E.
  { destruct rest as [|r rest]; [contradiction|]; cbn [skip_delimiters].
    destruct (digit_not_delim r Hrest) as [-> ->]; reflexivity. }
  cbn [sc_delim sc_space]; rewrite E; reflexivity.
Qed.

(** The seconds followed by a fraction. *)
Lemma scan_field_dot rest : i = 5 ->
  scan_loop (S n) i false fl (l ++ chr_dot :: rest) sc =
  scan_loop n (i + 1) false 6 rest (sc_next (sc_delim sc) (sc_space sc) (chr_dot :: rest) i).
Proof.
  intros Hi; destruct (scan_field_read (chr_dot :: rest)) as (c & l' & El & Hc & F).
  { unfold starts_nondigit, is_digit, chr_dot; lia. }
  rewrite El at 1; cbn [app scan_loop]; rewrite Hc, F.
  destruct Hl as (_ & _ & _ & Hb); replace (v >? 999999) with false by lia.
  cbn [str_end head_is]; rewrite Hi; reflexivity.
Qed.

End ScanField.

Lemma first_part_digits l d rest : Forall is_digit l -> 0 <= d < 256 -> is_dig d = false ->
  d <> chr_T -> forall k, exists k', first_part (l ++ d :: rest) k = (k', d :: rest).
Proof.
  intros Hl Hd Hdig HT; induction Hl as [|c l Hc Hl IH]; intros k; cbn [app first_part].
  - rewrite Hdig; destruct (Z.eqb_spec d chr_T); [contradiction|]; eexists; reflexivity.
  - unfold is_dig at 1; rewrite isdigit_is_digit by exact Hc; apply IH.
Qed.

Lemma skip_spaces_digit l : starts_digit l -> skip_spaces l = l.
Proof.
  destruct l as [|c l]; [contradiction|]; intros Hc; cbn [skip_spaces].
  destruct (digit_not_delim c Hc) as [_ ->]; reflexivity.
Qed.

(** The scan of [YYYY-MM-DD], from the last field on. *)
Lemma scan_date y m d rest sc : 0 <= y <= 999999 -> 0 <= m <= 99 -> 0 <= d <= 99 ->
  forall n sc', sc = mkScan [] [] 0 false false [] 0 ->
  (forall last, scan_loop (S n) 2 false 2 (fmt_0u 2 d ++ rest)
     (mkScan [y; m] [Z.of_nat (length (fmt_0u 4 y)); 2] (Z.lor y m) true false last 1) = sc') ->
  scan_loop (S (S (S n))) 0 false 4
    (fmt_0u 4 y ++ chr_minus :: fmt_0u 2 m ++ chr_minus :: fmt_0u 2 d ++ rest) sc = sc'.
Proof.
  intros Hy Hm Hd n sc' -> K.
  pose proof (field_text_fmt 4 y ltac:(lia) ltac:(lia)) as Fy.
  pose proof (field_text_fmt 2 m ltac:(lia) ltac:(lia)) as Fm.
  pose proof (field_text_fmt 2 d ltac:(lia) ltac:(lia)) as Fd.
  rewrite (scan_field_delim _ 0 4 y _ _ Fy); try reflexivity;
    [|unfold chr_minus; lia|lia|lia|discriminate|discriminate|eapply field_text_starts; exact Fm].
  rewrite (scan_field_delim _ 1 2 m _ _ Fm); try reflexivity;
    [|unfold chr_minus; lia|lia|lia|discriminate|discriminate|eapply field_text_starts; exact Fd].
  destruct (fmt_0u_spec 2 m ltac:(lia) ltac:(lia)) as (_ & _ & _ & L); 
  unfold sc_next; cbn [sc_date sc_len sc_not_zero sc_space app orb]; rewrite L by (cbn; lia).
  rewrite Z.lor_0_l; apply K.
Qed.

Lemma snprintf_whole n out : (length out < n)%nat ->
  firstn (Z.to_nat (snd (snprintf n out))) (fst (snprintf n out)) = out.
Proof.
  intros H; cbn [snprintf fst snd]; rewrite Nat2Z.id, (firstn_all2 out) by lia.
  apply firstn_all.
Qed.

Definition datetime_text (t : Time) : list Z :=
  fmt_0u 4 (year t) ++ chr_minus :: fmt_0u 2 (month t) ++ chr_minus :: fmt_0u 2 (day t)
  ++ 32 :: fmt_0u 2 (hour t) ++ chr_colon :: fmt_0u 2 (minute t)
  ++ chr_colon :: fmt_0u 2 (second t) ++ chr_dot :: fmt_0u 6 (second_part t) ++ [].

Lemma fmt_0u_length w n : (0 < w <= 19)%nat -> 0 <= n < 10 ^ Z.of_nat w -> length (fmt_0u w n) = w.
Proof.
  intros Hw Hn; apply fmt_0u_spec; try lia.
  split; [lia|]; eapply Z.lt_le_trans; [apply Hn|].
  change 100000000000000000000 with (10 ^ 20); apply Z.pow_le_mono_r; lia.
Qed.

Lemma convert_datetime_text t : 0 <= year t <= 9999 -> 0 <= month t <= 12 -> 0 <= day t <= 31 ->
  time_in_range t -> convert_string t DRIZZLE_TIMESTAMP_DATETIME = datetime_text t.
Proof.
  intros Hy Hm Hd (Hh & Hmi & Hs & Hp); unfold convert_string, convert_text.
  rewrite (surjective_pairing (snprintf _ _)), snprintf_whole.
  - unfold date_text, time_text, datetime_text; rewrite <- !app_assoc; cbn [app].
    rewrite app_nil_r; reflexivity.
  - unfold date_text, time_text; rewrite !length_app, !fmt_0u_length by (cbn; lia); cbn; lia.
Qed.

(** The scan of the time of day, from the day on. *)
Lemma scan_time t n last date len nz : 0 <= day t <= 99 -> time_in_range t ->
  scan_loop (S (S (S (S (S n))))) 2 false 2
    (fmt_0u 2 (day t) ++ 32 :: fmt_0u 2 (hour t) ++ chr_colon :: fmt_0u 2 (minute t)
     ++ chr_colon :: fmt_0u 2 (second t) ++ chr_dot :: fmt_0u 6 (second_part t) ++ [])
    (mkScan date len nz true false last 1)
  = Some (mkScan (date ++ [day t; hour t; minute t; second t; second_part t]) (len ++ [2; 2; 2; 2; 6])
            (Z.lor (Z.lor (Z.lor (Z.lor (Z.lor nz (day t)) (hour t)) (minute t)) (second t))
               (second_part t)) true true [] 7).
Proof.
  intros Hd (Hh & Hmi & Hs & Hp).
  pose proof (field_text_fmt 2 (day t) ltac:(lia) ltac:(lia)) as Fd.
  pose proof (field_text_fmt 2 (hour t) ltac:(lia) ltac:(lia)) as Fh.
  pose proof (field_text_fmt 2 (minute t) ltac:(lia) ltac:(lia)) as Fm.
  pose proof (field_text_fmt 2 (second t) ltac:(lia) ltac:(lia)) as Fs.
  pose proof (field_text_fmt 6 (second_part t) ltac:(lia) ltac:(lia)) as Fp.
  rewrite (scan_field_delim _ 2 2 _ _ _ Fd); try reflexivity;
    [|lia|lia|lia|discriminate|discriminate|eapply field_text_starts; exact Fh].
  rewrite (scan_field_delim _ 3 2 _ _ _ Fh); try reflexivity;
    [|unfold chr_colon; lia|lia|lia|discriminate|discriminate|eapply field_text_starts; exact Fm].
  rewrite (scan_field_delim _ 4 2 _ _ _ Fm); try reflexivity;
    [|unfold chr_colon; lia|lia|lia|discriminate|discriminate|eapply field_text_starts; exact Fs].
  rewrite (scan_field_dot _ 5 2 _ _ _ Fs) by reflexivity.
  rewrite (scan_field_end _ 6 6 _ _ _ Fp).
  unfold sc_next; cbn [sc_date sc_len sc_not_zero sc_space sc_delim].
  rewrite !fmt_0u_length by (cbn; lia); rewrite <- !app_assoc; reflexivity.
Qed.

(** *** Time strings *)

Lemma scan_value_digits l rest : Forall is_digit l -> starts_nondigit rest ->
  forall v, 0 <= v -> digits_value l v < 18446744073709551616 ->
  scan_value (l ++ rest) v = (digits_value l v, rest).
Proof.
  intros Hl Hr; induction Hl as [|c l Hc Hl IH]; intros v Hv Hb.
  - cbn [app digits_value fold_left]; destruct rest as [|c rest]; [reflexivity|].
    cbn [scan_value]; unfold is_dig; destruct Hr; rewrite isdigit_not by assumption; reflexivity.
  - change (digits_value (c :: l) v) with (digits_value l (v * 10 + (c - 48))) in *.
    cbn [app scan_value]; unfold is_dig at 1; rewrite isdigit_is_digit by exact Hc.
    unfold is_digit in Hc; pose proof (digits_value_ge l Hl (v * 10 + (c - 48)) ltac:(lia)).
    rewrite u64_small, IH by lia; reflexivity.
Qed.

Lemma scan_value_fmt w n rest : (0 < w <= 20)%nat -> 0 <= n <= 999999 -> starts_nondigit rest ->
  scan_value (fmt_0u w n ++ rest) 0 = (n, rest).
Proof.
  intros Hw Hn Hr; destruct (fmt_0u_spec w n Hw ltac:(lia)) as (Hd & _ & Hv & _).
  rewrite scan_value_digits by (assumption || lia); rewrite Hv; reflexivity.
Qed.

(** A complete scan of a valid date and time is stored as it is. *)
Lemma store_fields_valid t flags nz len : valid_date (year t) (month t) (day t) ->
  year t <= 9999 -> time_in_range t -> neg t = false ->
  time_type t = DRIZZLE_TIMESTAMP_DATETIME ->
  store_fields false 4 flags
    (mkScan [year t; month t; day t; hour t; minute t; second t; second_part t]
       [len; 2; 2; 2; 2; 2; 6]
       (Z.lor (Z.lor (Z.lor (Z.lor (Z.lor (Z.lor (year t) (month t)) (day t)) (hour t)) (minute t))
          (second t)) (second_part t)) true nz [] 7)
  = (Some (DRIZZLE_TIMESTAMP_DATETIME, t), VALID).
Proof.
  intros V Hy (R1 & R2 & R3 & R4) Hn Ht; pose proof (valid_date_bounds _ _ _ V) as (By & Bm & Bd).
  unfold store_fields, part; cbn [sc_date sc_len sc_fields sc_last sc_not_zero nth].
  change (6 <? 6) with false; change (7 <? 3) with false; change (7 <=? 3) with false.
  change (4 =? 2) with false; cbn [andb orb has_garbage].
  set (nzv := Z.lor _ (second_part t)).
  assert (nzv <> 0) by (unfold nzv; rewrite !Z.lor_eq_0_iff; lia).
  replace (nzv =? 0) with false by lia; cbn [negb].
  assert (mkTime (year t) (month t) (day t) (hour t) (minute t) (second t) (second_part t) false
            DRIZZLE_TIMESTAMP_DATETIME = t) as -> by (destruct t; cbn in *; congruence).
  rewrite (check_valid t flags V); case_if; [lia|reflexivity].
Qed.

(** ** Properties *)

(** C23. Text round trip of dates and times: every valid date and time is read
    back, microseconds included and under any flags, from the text [convert]
    writes for it. *)
Theorem datetime_text_round_trip this t flags :
  valid_date (year t) (month t) (day t) -> year t <= 9999 -> time_in_range t ->
  neg t = false -> time_type t = DRIZZLE_TIMESTAMP_DATETIME ->
  store_string this (convert_string t DRIZZLE_TIMESTAMP_DATETIME) flags
  = (DRIZZLE_TIMESTAMP_DATETIME, t, VALID).
Proof.
  intros V Hy R Hn Hty; pose proof (valid_date_bounds _ _ _ V) as (By & Bm & Bd).
  rewrite convert_datetime_text by (assumption || lia); unfold store_string, datetime_text.
  pose proof (field_text_fmt 4 (year t) ltac:(lia) ltac:(lia)) as Fy.
  rewrite skip_spaces_digit, starts_digit_head by (eapply field_text_starts; exact Fy).
  cbn [negb]; destruct Fy as (Dy & _).
  edestruct (first_part_digits (fmt_0u 4 (year t)) chr_minus) as [k ->];
    [exact Dy|unfold chr_minus; lia|reflexivity|discriminate|].
  cbn [str_end head_is orb]; change (chr_minus =? chr_dot) with false; cbn [negb andb].
  rewrite (scan_date (year t) (month t) (day t) _ _ ltac:(lia) ltac:(lia) ltac:(lia) 4 _ eq_refl
    (fun last => scan_time t 0 last _ _ _ ltac:(lia) R)).
  cbn [sc_delim sc_space sc_len andb negb app]; rewrite fmt_0u_length by (cbn; lia).
  change (part (Z.of_nat 4 :: _) 0 =? 0) with false; cbv beta iota.
  rewrite store_fields_valid by assumption; reflexivity.
Qed.

Lemma datetime_text_round_trip_witness :
  let t := mkTime 2012 2 29 23 59 59 123456 false DRIZZLE_TIMESTAMP_DATETIME in
  convert_string t DRIZZLE_TIMESTAMP_DATETIME
  = bytes_of_string "2012-02-29 23:59:59.123456"%string /\
  store_string reset (convert_string t DRIZZLE_TIMESTAMP_DATETIME) 0
  = (DRIZZLE_TIMESTAMP_DATETIME, t, VALID).
Proof.
  split; [reflexivity|].
  apply (datetime_text_round_trip reset
    (mkTime 2012 2 29 23 59 59 123456 false DRIZZLE_TIMESTAMP_DATETIME) 0);
  try reflexivity; vm_compute; intuition discriminate.
Defined.

Lemma time_text_length t : 0 <= hour t <= 999 -> 0 <= minute t <= 59 -> 0 <= second t <= 59 ->
  (length (time_text t) <= 9)%nat.
Proof.
  intros Hh Hm Hs; unfold time_text; rewrite !length_app; cbn [length].
  pose proof (fmt_0u_length_le 2 3 (hour t) ltac:(lia) ltac:(lia) ltac:(cbn; lia)).
  rewrite (fmt_0u_length 2 (minute t)), (fmt_0u_length 2 (second t)) by (cbn; lia); lia.
Qed.

(** A time of day text is read as hours, minutes and seconds. *)
Lemma read_time_text this h m s : 0 <= h <= 838 -> 0 <= m <= 59 -> 0 <= s <= 59 ->
  let text := fmt_0u 2 h ++ [chr_colon] ++ fmt_0u 2 m ++ [chr_colon] ++ fmt_0u 2 s in
  (let '(value, end_of_days) := scan_value text 0 in
   match read_dhms value end_of_days with
   | None => None
   | Some (d, h, m, sec, s) => Some (store_time_rest this d h m sec s 0)
   end) = Some (false, mkTime 0 0 0 h m s 0 (neg this) DRIZZLE_TIMESTAMP_TIME, 0).
Proof.
  intros Hh Hm Hs; cbn [app].
  assert (forall l, starts_nondigit (chr_colon :: l)) as Hc
    by (intros; unfold starts_nondigit, is_digit, chr_colon; lia).
  rewrite scan_value_fmt by (auto; lia).
  pose proof (field_text_fmt 2 m ltac:(lia) ltac:(lia)) as Fm.
  pose proof (field_text_fmt 2 s ltac:(lia) ltac:(lia)) as Fs.
  unfold read_dhms; change (skip_spaces (chr_colon :: _)) with (chr_colon :: fmt_0u 2 m ++ chr_colon :: fmt_0u 2 s).
  rewrite Nat.eqb_refl; cbn [negb]; rewrite andb_false_r; cbn [andb head_is].
  assert (second_char_dig (chr_colon :: fmt_0u 2 m ++ chr_colon :: fmt_0u 2 s) = true) as Sm
    by (pose proof (starts_digit_head _ (field_text_starts _ _ (chr_colon :: fmt_0u 2 s) Fm)) as D;
        unfold head_dig in D; cbn [second_char_dig]; destruct (fmt_0u 2 m ++ _); [discriminate|exact D]).
  rewrite Sm, Z.eqb_refl.
  replace (1 <? Z.of_nat _) with true by (rewrite length_cons, length_app, length_cons; lia).
  cbn [andb tl hms_loop]; rewrite scan_value_fmt by (auto; lia); cbn [app head_is].
  assert (second_char_dig (chr_colon :: fmt_0u 2 s) = true) as Ss
    by (pose proof (starts_digit_head _ (field_text_starts _ _ [] Fs)) as D; rewrite app_nil_r in D;
        unfold head_dig in D; cbn [second_char_dig]; destruct (fmt_0u 2 s); [discriminate|exact D]).
  rewrite Ss, Z.eqb_refl; cbn [andb tl].
  rewrite <- (app_nil_r (fmt_0u 2 s)), scan_value_fmt by (cbn; auto; lia).
  rewrite !u32_small by lia; unfold store_time_rest; cbn [read_fraction has_exponent has_garbage].
  unfold check_time_range; cbn [minute second hour day second_part].
  rewrite (u32_small (24 * 0)), (u32_small (h + 24 * 0)) by lia.
  unfold TIME_MAX_HOUR, TIME_MAX_MINUTE, TIME_MAX_SECOND.
  repeat (case_if; try lia); reflexivity.
Qed.

(** A short string is not tried as a timestamp. *)
Lemma store_time_dispatch this (n : bool) l : starts_digit l -> (length l < 12)%nat ->
  store_time_string this ((if n then [chr_minus] else []) ++ l) =
  let '(value, end_of_days) := scan_value l 0 in
  match read_dhms value end_of_days with
  | None => None
  | Some (d, h, m, sec, s) => Some (store_time_rest (with_neg this n) d h m sec s 0)
  end.
Proof.
  intros D L; unfold store_time_string.
  assert (skip_spaces ((if n then [chr_minus] else []) ++ l) = (if n then [chr_minus] else []) ++ l) as ->
    by (destruct n; [reflexivity|apply skip_spaces_digit; exact D]).
  assert (head_is chr_minus ((if n then [chr_minus] else []) ++ l) = n) as ->.
  { destruct n; [reflexivity|]; destruct l as [|c l]; [contradiction|]; cbn in D |- *.
    unfold is_digit, chr_minus in *; lia. }
  assert ((if n then tl ((if n then [chr_minus] else []) ++ l) else (if n then [chr_minus] else []) ++ l) = l)
    as -> by (destruct n; reflexivity).
  destruct l as [|c l]; [contradiction|]; cbn [str_end].
  replace (Z.of_nat (length (c :: l)) >=? 12) with false by lia; reflexivity.
Qed.

(** Text round trip of times: every time from -838:59:59 to 838:59:59 is read
    back without a warning from the text [convert] writes for it. *)
Theorem time_text_round_trip this h m s n :
  0 <= h <= 838 -> 0 <= m <= 59 -> 0 <= s <= 59 ->
  let t := mkTime 0 0 0 h m s 0 n DRIZZLE_TIMESTAMP_TIME in
  store_time_string this (convert_string t DRIZZLE_TIMESTAMP_TIME) = Some (false, t, 0).
Proof.
  intros Hh Hm Hs t; pose proof (time_text_length t ltac:(cbn; lia) Hm Hs) as L.
  pose proof (field_text_fmt 2 h ltac:(lia) ltac:(lia)) as Fh.
  assert (convert_string t DRIZZLE_TIMESTAMP_TIME = (if n then [chr_minus] else []) ++ time_text t) as ->
    by (unfold convert_string, convert_text; rewrite (surjective_pairing (snprintf _ _)), snprintf_whole;
        [reflexivity|rewrite length_app; destruct n; cbn [length neg t]; lia]).
  assert (starts_digit (time_text t)) as D by (eapply field_text_starts; exact Fh).
  rewrite store_time_dispatch by (assumption || lia).
  exact (read_time_text (with_neg this n) h m s Hh Hm Hs).
Qed.

Lemma time_text_round_trip_witness :
  let t := mkTime 0 0 0 838 59 59 0 true DRIZZLE_TIMESTAMP_TIME in
  convert_string t DRIZZLE_TIMESTAMP_TIME = bytes_of_string "-838:59:59"%string /\
  store_time_string reset (convert_string t DRIZZLE_TIMESTAMP_TIME) = Some (false, t, 0).
Proof.
  split; [reflexivity|]; apply (time_text_round_trip reset 838 59 59 true); lia.
Defined.

(** A time string of days and two-digit hours only, such as [1 10], makes the
    reader write outside of its array [date]: the missing minutes and seconds are
    cleared in units of [sizeof(long)]. *)
Theorem time_string_days_hours_overflow this d h :
  0 <= d <= 999999 -> 0 <= h <= 99 ->
  store_time_string this (fmt_0u 1 d ++ 32 :: fmt_0u 2 h) = None.
Proof.
  intros Hd Hh; pose proof (field_text_fmt 1 d ltac:(lia) ltac:(lia)) as Fd.
  pose proof (field_text_fmt 2 h ltac:(lia) ltac:(lia)) as Fh.
  pose proof (fmt_0u_length 2 h ltac:(lia) ltac:(cbn; lia)) as Lh.
  pose proof (fmt_0u_length_le 1 6 d ltac:(lia) ltac:(lia) ltac:(cbn; lia)) as Ld.
  pose proof (store_time_dispatch this false (fmt_0u 1 d ++ 32 :: fmt_0u 2 h)) as E.
  cbn [app] in E; rewrite E; clear E;
    [|eapply field_text_starts; exact Fd|rewrite length_app; cbn [length]; lia].
  rewrite scan_value_fmt; [|lia|lia|unfold starts_nondigit, is_digit; lia].
  unfold read_dhms; change (skip_spaces (32 :: fmt_0u 2 h)) with (skip_spaces (fmt_0u 2 h)).
  rewrite skip_spaces_digit, starts_digit_head
    by (rewrite <- (app_nil_r (fmt_0u 2 h)); eapply field_text_starts; exact Fh).
  cbn [length]; rewrite Lh; change (_ && true) with true; cbv iota.
  cbn [hms_loop]; rewrite <- (app_nil_r (fmt_0u 2 h)), scan_value_fmt by (cbn; auto; lia).
  reflexivity.
Qed.

Lemma time_string_days_hours_overflow_witness :
  fmt_0u 1 1 ++ 32 :: fmt_0u 2 10 = bytes_of_string "1 10"%string /\
  store_time_string reset (fmt_0u 1 1 ++ 32 :: fmt_0u 2 10) = None.
Proof. split; [reflexivity|]; apply (time_string_days_hours_overflow reset 1 10); lia. Defined.

(** ** The epoch *)

Definition t_unix (t : Time) : Z :=
  unix_seconds (year t) (month t) (day t) (hour t) (minute t) (second t).

Definition tm_unix (b : tm) : Z :=
  unix_seconds (tm_year b + 1900) (tm_mon b + 1) (tm_mday b) (tm_hour b) (tm_min b) (tm_sec b).

Definition tm_ok (b : tm) : Prop :=
  valid_date (tm_year b + 1900) (tm_mon b + 1) (tm_mday b) /\
  0 <= tm_hour b <= 23 /\ 0 <= tm_min b <= 59 /\ 0 <= tm_sec b <= 59.

Lemma unix_year_bound y m d h mi s : valid_date y m d -> 0 <= h -> 0 <= mi -> 0 <= s ->
  (365 * y - 2440588) * 86400 <= unix_seconds y m d h mi s.
Proof.
  intros V Hh Hm Hs; pose proof (valid_date_bounds _ _ _ V); unfold unix_seconds.
  rewrite (jdn_valid _ _ _ V).
  assert (365 * y <= jdn_z y m d) by (unfold jdn_z; case_if; dlia); lia.
Qed.

Lemma gmtime_into_spec e buf : 0 <= e < 300000000000 ->
  tm_ok (gmtime_into e buf) /\ tm_unix (gmtime_into e buf) = e /\
  tm_year (gmtime_into e buf) < 20000.
Proof.
  intros He; unfold gmtime_into.
  destruct (gmtime_tm_spec e ltac:(lia)) as (b & -> & V & Hh & Hm & Hs & E & _).
  split; [split; [exact V|auto]|split; [exact E|]].
  pose proof (unix_year_bound _ _ _ (tm_hour b) (tm_min b) (tm_sec b) V ltac:(lia) ltac:(lia) ltac:(lia)) as B.
  cbv zeta in E; rewrite E in B; clear E V; lia.
Qed.

Lemma tod_same t b : time_in_range t -> tm_ok b -> tm_unix b = t_unix t ->
  tod_differs t b = false.
Proof.
  intros (Rh & Rm & Rs & _) (_ & Bh & Bm & Bs); unfold tm_unix, t_unix, unix_seconds, tod_differs.
  generalize (julian_day_number_from_gregorian_date (year t) (month t) (day t)) as J.
  generalize (julian_day_number_from_gregorian_date (tm_year b + 1900) (tm_mon b + 1) (tm_mday b)) as Jb.
  intros Jb J E; rewrite !u32_small by lia; assert (Jb = J) by lia; lia.
Qed.

(** Two dates whose day numbers differ by at most one: the clamped difference of
    their days of the month is that of their day numbers. *)
Lemma clamped_days y m d y' m' d' k : valid_date y m d -> valid_date y' m' d' ->
  y < 4294962495 -> y' < 4294962495 ->
  julian_day_number_from_gregorian_date y m d
  = julian_day_number_from_gregorian_date y' m' d' + k -> -1 <= k <= 1 ->
  (if d - d' <? -1 then 1 else if d - d' >? 1 then -1 else d - d') = k.
Proof.
  intros V V' Hy Hy' E Hk.
  assert (forall y m d y' m' d', valid_date y m d -> valid_date y' m' d' -> y < 4294962495 ->
    julian_day_number_from_gregorian_date y' m' d'
    = julian_day_number_from_gregorian_date y m d + 1 ->
    d' = d + 1 \/ (d' = 1 /\ 28 <= d)) as N.
  { clear; intros y m d y' m' d' V V' Hy E; pose proof (next_day_valid y m d V Hy) as N.
    pose proof (valid_date_bounds _ _ _ V) as (_ & Bm & Bd).
    pose proof (days_in_month_range y m Bm) as R; destruct V as (_ & _ & Hd).
    unfold next_day in N; repeat case_if_in N; destruct N as [Vn En]; rewrite <- E in En;
    apply jdn_inj in En; auto; lia. }
  assert (k = 0 \/ k = 1 \/ k = -1) as [-> |[-> | ->]] by lia.
  - rewrite Z.add_0_r in E; apply jdn_inj in E as (_ & _ & ->); auto; repeat case_if; lia.
  - pose proof (valid_date_bounds _ _ _ V); pose proof (valid_date_bounds _ _ _ V').
    destruct (N _ _ _ _ _ _ V' V Hy' E) as [|[]]; repeat case_if; lia.
  - pose proof (valid_date_bounds _ _ _ V); pose proof (valid_date_bounds _ _ _ V').
    destruct (N _ _ _ _ _ _ V V' Hy ltac:(lia)) as [|[]]; repeat case_if; lia.
Qed.

(** One correction removes an offset of less than a day. *)
Lemma epoch_diff_exact t b o :
  valid_date (year t) (month t) (day t) -> year t <= 9999 -> time_in_range t -> tm_ok b ->
  tm_year b < 2147480000 -> tm_unix b = t_unix t + o -> -86400 < o < 86400 ->
  epoch_diff t b = - o /\ (tod_differs t b = false -> o = 0).
Proof.
  intros V Hy (Rh & Rm & Rs & _) (Vb & Bh & Bm & Bs) Hyb E Ho.
  pose proof (valid_date_bounds _ _ _ V) as (_ & _ & Bd).
  pose proof (valid_date_bounds _ _ _ Vb) as (_ & _ & Bbd).
  pose proof (fun k => clamped_days _ _ _ _ _ _ k V Vb ltac:(lia) ltac:(lia)) as C.
  revert E C; unfold tm_unix, t_unix, unix_seconds; clear V Vb.
  generalize (julian_day_number_from_gregorian_date (year t) (month t) (day t)) as J.
  generalize (julian_day_number_from_gregorian_date (tm_year b + 1900) (tm_mon b + 1) (tm_mday b)) as Jb.
  intros Jb J E C; specialize (C (J - Jb) ltac:(lia) ltac:(lia)).
  assert (i32 (u32 (day t - tm_mday b)) = day t - tm_mday b) as ED.
  { unfold i32, swrap; rewrite u32_eq; change (2 ^ (32 - 1)) with 2147483648;
    change (2 ^ 32) with 4294967296; dlia. }
  split.
  - unfold epoch_diff; rewrite ED, C, (i32_small (hour t)), (i32_small (minute t)),
      (i32_small (second t)) by lia.
    rewrite i64_small by lia; lia.
  - unfold tod_differs; rewrite !u32_small by lia; intros Hd; lia.
Qed.

Lemma convert_epoch_spec t tz buf :
  valid_date (year t) (month t) (day t) -> 1970 <= year t <= 9999 -> time_in_range t ->
  1 <= t_unix t -> -86400 < tz - 3600 < 86400 -> 0 <= t_unix t + (tz - 3600) ->
  convert_epoch t tz buf = (t_unix t, Some (if tz =? 3600 then 3600 else 7200)).
Proof.
  intros V Hy R He Ho Hpos; unfold convert_epoch.
  pose proof (valid_date_bounds _ _ _ V) as (_ & Bm & Bd); pose proof R as (Rh & Rm & Rs & _).
  replace (isValidEpoch t) with true
    by (unfold isValidEpoch, TIMESTAMP_MIN_YEAR, YY_PART_YEAR; lia); cbn [negb].
  pose proof (daynr_bounds _ _ _ V ltac:(lia)) as BD.
  assert (i64 ((calc_daynr (year t) (month t) (day t) - days_at_timestart) * 86400
     + hour t * 3600 + u32 (u32 (minute t * 60) + second t) + tz - 3600)
     = t_unix t + (tz - 3600)) as ->.
  { rewrite (u32_small (minute t * 60)), (u32_small (_ + second t)) by lia.
    unfold days_at_timestart; rewrite i64_small by lia.
    rewrite calc_daynr_valid by (auto; lia); unfold t_unix, unix_seconds.
    generalize (julian_day_number_from_gregorian_date (year t) (month t) (day t)); lia. }
  assert (t_unix t <= 253402300799) as Hmax.
  { revert BD; rewrite calc_daynr_valid by (auto; lia); unfold t_unix, unix_seconds.
    generalize (julian_day_number_from_gregorian_date (year t) (month t) (day t)); lia. }
  destruct (gmtime_into_spec (t_unix t + (tz - 3600)) buf ltac:(lia)) as (K1 & U1 & Y1).
  set (b1 := gmtime_into _ buf) in *; clearbody b1.
  destruct (epoch_diff_exact t b1 _ V ltac:(lia) R K1 ltac:(lia) U1 Ho) as [D T].
  cbn [correct_loop]; destruct (tod_differs t b1) eqn:TD.
  - rewrite D, (i64_small (_ + - _)), (i64_small (tz + _)) by lia.
    replace (t_unix t + (tz - 3600) + - (tz - 3600)) with (t_unix t) by lia.
    destruct (gmtime_into_spec (t_unix t) b1 ltac:(lia)) as (K2 & U2 & _).
    rewrite (tod_same _ _ R K2 U2); cbn [Z.eqb Z.add Pos.eqb andb].
    unfold TIMESTAMP_MIN_VALUE; replace (t_unix t <? 1) with false by lia.
    destruct (Z.eqb_spec tz 3600) as [->|]; [|do 2 f_equal; lia].
    rewrite (tod_same t b1 R K1 ltac:(lia)) in TD; discriminate.
  - specialize (T eq_refl); assert (tz = 3600) as -> by lia; cbn [Z.eqb andb Pos.eqb].
    unfold TIMESTAMP_MIN_VALUE; rewrite Z.sub_diag, Z.add_0_r.
    replace (t_unix t <? 1) with false by lia; reflexivity.
Qed.

(** The epoch of a valid date and time is exact: for any cached time zone
    offset within a day, [convert] finds the seconds since 1970 that the fields
    denote, and the offset cached at start-up is kept. *)
Theorem convert_epoch_exact t tz buf :
  valid_date (year t) (month t) (day t) -> 1970 <= year t <= 9999 -> time_in_range t ->
  1 <= t_unix t -> -86400 < tz - 3600 < 86400 -> 0 <= t_unix t + (tz - 3600) ->
  fst (convert_epoch t tz buf) = t_unix t /\
  (tz = 3600 -> snd (convert_epoch t tz buf) = Some 3600).
Proof.
  intros V Hy R He Ho Hp; rewrite (convert_epoch_spec t tz buf V Hy R He Ho Hp).
  split; [reflexivity|intros ->; reflexivity].
Qed.

Lemma convert_epoch_exact_witness :
  let t := mkTime 2012 3 1 0 0 0 0 false DRIZZLE_TIMESTAMP_DATETIME in
  let buf := mkTm 0 0 0 0 0 0 0 0 0 in
  fst (convert_epoch t 0 buf) = t_unix t /\
  (0 = 3600 -> snd (convert_epoch t 0 buf) = Some 3600).
Proof.
  apply (convert_epoch_exact (mkTime 2012 3 1 0 0 0 0 false DRIZZLE_TIMESTAMP_DATETIME) 0
    (mkTm 0 0 0 0 0 0 0 0 0)); vm_compute; intuition discriminate.
Defined.
