(* ===== verification/ThrLock.v ===== *)
(** The table lock manager of [src/drizzled/thr_lock.cc] and [thr_lock.h].

    A lock is four queues and two counters.  The intrusive lists ([data], [last],
    [next], [prev]) are modelled as lists in queue order; a lock instance
    ([THR_LOCK_DATA]) is a request with its address, the address of its owner,
    and the owner's [info] and thread number.  A request waits, with [cond] set,
    exactly while it is in a wait queue: granting it moves it to an active queue
    and sets [cond] to null, aborting it removes it from the wait queue.

    Every operation runs under the mutex of the lock.  [thr_lock] decides at once
    or puts the request in a wait queue; the end of the wait is a separate step
    ([wait_abort]), so that the steps of several threads interleave in [step]. *)

From Stdlib Require Import ZArith Lia ZifyBool List Bool Permutation Sorted.
From S2P Require Import Prelude.
Import ListNotations.
Local Open Scope Z_scope.

(** ** Model *)

(** src/drizzled/thr_lock.h:32-68 thr_lock_type *)
Inductive thr_lock_type : Type :=
| TL_IGNORE | TL_UNLOCK
| TL_READ | TL_READ_WITH_SHARED_LOCKS | TL_READ_NO_INSERT
| TL_WRITE_ALLOW_WRITE | TL_WRITE_ALLOW_READ | TL_WRITE_CONCURRENT_INSERT
| TL_WRITE_DEFAULT | TL_WRITE | TL_WRITE_ONLY.

(** src/drizzled/thr_lock.h:32-68 thr_lock_type

    The values of the enumerators; the code compares them as integers. *)
Definition tl (t : thr_lock_type) : Z :=
  match t with
  | TL_IGNORE => -1 | TL_UNLOCK => 0
  | TL_READ => 1 | TL_READ_WITH_SHARED_LOCKS => 2 | TL_READ_NO_INSERT => 3
  | TL_WRITE_ALLOW_WRITE => 4 | TL_WRITE_ALLOW_READ => 5 | TL_WRITE_CONCURRENT_INSERT => 6
  | TL_WRITE_DEFAULT => 7 | TL_WRITE => 8 | TL_WRITE_ONLY => 9
  end.

Definition tl_eqb (a b : thr_lock_type) : bool := tl a =? tl b.

(** src/drizzled/thr_lock.h:70-76 enum_thr_lock_result *)
Inductive enum_thr_lock_result : Type :=
| THR_LOCK_SUCCESS | THR_LOCK_ABORTED | THR_LOCK_WAIT_TIMEOUT | THR_LOCK_DEADLOCK.

(** src/drizzled/thr_lock.h:116-136 THR_LOCK_DATA

    With the members of its [THR_LOCK_OWNER] and [THR_LOCK_INFO]. *)
Record request : Type := mkReq {
  r_id : Z;                 (* address of the instance *)
  r_owner : Z;              (* address of the owner *)
  r_info : Z;               (* address of owner->info *)
  r_thread : Z;             (* owner->info->thread_id *)
  r_type : thr_lock_type }.

(** src/drizzled/thr_lock.h:148-164 THR_LOCK *)
Record THR_LOCK : Type := mkLock {
  read_wait : list request;
  read : list request;
  write_wait : list request;
  write : list request;
  write_lock_count : Z;
  read_no_write_count : Z }.

(** src/drizzled/thr_lock.cc:107-113 thr_lock_init *)
Definition thr_lock_init : THR_LOCK := mkLock [] [] [] [] 0 0.

(** src/drizzled/thr_lock.cc:98-102 thr_lock_owner_equal *)
Definition thr_lock_owner_equal (rhs lhs : Z) : bool := rhs =? lhs.

(** src/drizzled/thr_lock.cc:134-143 have_old_read_lock *)
Fixpoint have_old_read_lock (data : list request) (owner : Z) : bool :=
  match data with
  | [] => false
  | d :: next => if thr_lock_owner_equal (r_owner d) owner then true
                 else have_old_read_lock next owner
  end.

Definition is_no_insert (r : request) : bool := tl_eqb (r_type r) TL_READ_NO_INSERT.

Definition count_no_insert (l : list request) : Z := Z.of_nat (length (filter is_no_insert l)).

Definition set_type (t : thr_lock_type) (r : request) : request :=
  mkReq (r_id r) (r_owner r) (r_info r) (r_thread r) t.

Definition remove_id (id : Z) (l : list request) : list request :=
  filter (fun r => negb (r_id r =? id)) l.

Definition is_nil {A} (l : list A) : bool := match l with [] => true | _ => false end.

(** src/drizzled/thr_lock.cc:393-433 free_all_read_locks

    All waiting readers become active, except those that do not allow inserts
    when [using_concurrent_insert]. *)
Definition free_all_read_locks (l : THR_LOCK) (using_concurrent_insert : bool) : THR_LOCK :=
  let stays r := is_no_insert r && using_concurrent_insert in
  let back := filter stays (read_wait l) in
  let freed := filter (fun r => negb (stays r)) (read_wait l) in
  mkLock back (read l ++ freed) (write_wait l) (write l)
         (if is_nil back then 0 else write_lock_count l)
         (u32 (read_no_write_count l + count_no_insert freed)).

(** src/drizzled/thr_lock.cc:493-514 wake_up_waiters

    The loop that moves the first waiting writer, and the writers that allow
    writers behind it, to the active queue: the last one moved and both queues.
    Lines 531-545 are the same loop. *)
Fixpoint grant_writers (data : request) (wait active : list request)
  : request * list request * list request :=
  let active := active ++ [data] in
  match wait with
  | next :: wait' =>
      if tl_eqb (r_type data) TL_WRITE_ALLOW_WRITE && tl_eqb (r_type next) TL_WRITE_ALLOW_WRITE
      then grant_writers next wait' active
      else (data, wait, active)
  | [] => (data, [], active)
  end.

Definition allows_inserts (t : thr_lock_type) : bool :=
  tl_eqb t TL_WRITE_CONCURRENT_INSERT || tl_eqb t TL_WRITE_ALLOW_WRITE.

Section Manager.

(** The server variable of that name. *)
Variable max_write_lock_count : Z.

(** src/drizzled/thr_lock.cc:519-523 wake_up_waiters

    Also lines 546-549 and 551-554. *)
Definition release_readers (l : THR_LOCK) (using_concurrent_insert : bool) : THR_LOCK :=
  if is_nil (read_wait l) then l else free_all_read_locks l using_concurrent_insert.

Definition set_write_lock_count (c : Z) (l : THR_LOCK) : THR_LOCK :=
  mkLock (read_wait l) (read l) (write_wait l) (write l) c (read_no_write_count l).

(** src/drizzled/thr_lock.cc:493-523 wake_up_waiters

    No lock is active: the first waiting writers, and readers if they allow it. *)
Definition release_writers (data : request) (wait : list request) (l : THR_LOCK) : THR_LOCK :=
  let '(data, wait, active) := grant_writers data wait [] in
  let l := mkLock (read_wait l) (read l) wait active (write_lock_count l)
             (read_no_write_count l) in
  if tl (r_type data) >=? tl TL_WRITE then l
  else release_readers l (allows_inserts (r_type data)).

(** src/drizzled/thr_lock.cc:477-524 wake_up_waiters

    No lock is active and [data] is the first waiting writer. *)
Definition wake_up_idle (data : request) (wait : list request) (l : THR_LOCK) : THR_LOCK :=
  if match read_wait l with
     | [] => true
     | r :: _ => tl (r_type r) <=? tl TL_READ_WITH_SHARED_LOCKS
     end
  then
    let old := write_lock_count l in
    let l := set_write_lock_count (u32 (old + 1)) l in
    if old >? max_write_lock_count then
      let l := set_write_lock_count 0 l in
      if negb (is_nil (read_wait l)) then free_all_read_locks l false
      else release_writers data wait l
    else release_writers data wait l
  else release_readers l (allows_inserts (r_type data)).

(** src/drizzled/thr_lock.cc:525-550 wake_up_waiters

    Readers are active and [data] is the first waiting writer. *)
Definition wake_up_beside_readers (data : request) (wait : list request) (l : THR_LOCK)
  : THR_LOCK :=
  let lock_type := r_type data in
  if (tl lock_type <=? tl TL_WRITE_CONCURRENT_INSERT)
     && ((negb (tl_eqb lock_type TL_WRITE_CONCURRENT_INSERT)
          && negb (tl_eqb lock_type TL_WRITE_ALLOW_WRITE))
         || (read_no_write_count l =? 0))
  then
    let '(_, wait, active) := grant_writers data wait [] in
    release_readers (mkLock (read_wait l) (read l) wait active (write_lock_count l)
                       (read_no_write_count l))
                    (allows_inserts lock_type)
  else l.

(** src/drizzled/thr_lock.cc:469-558 wake_up_waiters *)
Definition wake_up_waiters (l : THR_LOCK) : THR_LOCK :=
  match write l, write_wait l with
  | _ :: _, _ => l
  | [], [] => release_readers l false
  | [], data :: wait =>
      if is_nil (read l) then wake_up_idle data wait l else wake_up_beside_readers data wait l
  end.

(** The answer of [thr_lock]: decided at once, or put in a wait queue. *)
Inductive lock_answer : Type :=
| Decided (r : enum_thr_lock_result)
| Waiting.

Definition add_reader (d : request) (l : THR_LOCK) : THR_LOCK :=
  mkLock (read_wait l) (read l ++ [d]) (write_wait l) (write l) (write_lock_count l)
         (if is_no_insert d then u32 (read_no_write_count l + 1) else read_no_write_count l).

Definition add_writer (d : request) (l : THR_LOCK) : THR_LOCK :=
  mkLock (read_wait l) (read l) (write_wait l) (write l ++ [d]) (write_lock_count l)
         (read_no_write_count l).

(** src/drizzled/thr_lock.cc:370-384 thr_lock

    The check for a deadlock with a cursor of the same connection, then the
    queue of [wait_for_lock]. *)
Definition wait_or_deadlock (d : request) (for_write : bool) (l : THR_LOCK)
  : lock_answer * THR_LOCK :=
  let lock_owner := match read l with r :: _ => Some r
                    | [] => match write l with w :: _ => Some w | [] => None end end in
  if match lock_owner with Some o => r_info o =? r_info d | None => false end
  then (Decided THR_LOCK_DEADLOCK, l)
  else if for_write
  then (Waiting, mkLock (read_wait l) (read l) (write_wait l ++ [d]) (write l)
                   (write_lock_count l) (read_no_write_count l))
  else (Waiting, mkLock (read_wait l ++ [d]) (read l) (write_wait l) (write l)
                   (write_lock_count l) (read_no_write_count l)).

(** src/drizzled/thr_lock.cc:254-308 thr_lock *)
Definition thr_lock_read (d : request) (l : THR_LOCK) : lock_answer * THR_LOCK :=
  let lock_type := r_type d in
  match write l with
  | w :: _ =>
      if thr_lock_owner_equal (r_owner d) (r_owner w)
         || ((tl (r_type w) <=? tl TL_WRITE_CONCURRENT_INSERT)
             && ((tl lock_type <=? tl TL_READ_WITH_SHARED_LOCKS)
                 || (negb (tl_eqb (r_type w) TL_WRITE_CONCURRENT_INSERT)
                     && negb (tl_eqb (r_type w) TL_WRITE_ALLOW_READ))))
      then (Decided THR_LOCK_SUCCESS, add_reader d l)
      else if tl_eqb (r_type w) TL_WRITE_ONLY then (Decided THR_LOCK_ABORTED, l)
      else wait_or_deadlock d false l
  | [] =>
      if match write_wait l with
         | [] => true
         | w :: _ => tl (r_type w) <=? tl TL_WRITE_DEFAULT
         end || have_old_read_lock (read l) (r_owner d)
      then (Decided THR_LOCK_SUCCESS, add_reader d l)
      else wait_or_deadlock d false l
  end.

(** src/drizzled/thr_lock.cc:309-369 thr_lock

    [thr_upgraded_concurrent_insert_lock] (line 89) is [TL_WRITE]. *)
Definition thr_lock_write (d : request) (l : THR_LOCK) : lock_answer * THR_LOCK :=
  let d := if tl_eqb (r_type d) TL_WRITE_CONCURRENT_INSERT then set_type TL_WRITE d else d in
  let lock_type := r_type d in
  match write l with
  | w :: _ =>
      if tl_eqb (r_type w) TL_WRITE_ONLY && negb (thr_lock_owner_equal (r_owner d) (r_owner w))
      then (Decided THR_LOCK_ABORTED, l)
      else if thr_lock_owner_equal (r_owner d) (r_owner w)
              || (tl_eqb lock_type TL_WRITE_ALLOW_WRITE && is_nil (write_wait l)
                  && tl_eqb (r_type w) TL_WRITE_ALLOW_WRITE)
      then (Decided THR_LOCK_SUCCESS, add_writer d l)
      else wait_or_deadlock d true l
  | [] =>
      if is_nil (write_wait l)
         && (is_nil (read l)
             || ((tl lock_type <=? tl TL_WRITE_CONCURRENT_INSERT)
                 && ((negb (tl_eqb lock_type TL_WRITE_CONCURRENT_INSERT)
                      && negb (tl_eqb lock_type TL_WRITE_ALLOW_WRITE))
                     || (read_no_write_count l =? 0))))
      then (Decided THR_LOCK_SUCCESS, add_writer d l)
      else wait_or_deadlock d true l
  end.

(** src/drizzled/thr_lock.cc:242-390 thr_lock *)
Definition thr_lock (d : request) (l : THR_LOCK) : lock_answer * THR_LOCK :=
  if tl (r_type d) <=? tl TL_READ_NO_INSERT then thr_lock_read d l else thr_lock_write d l.

(** src/drizzled/thr_lock.cc:211-226 wait_for_lock

    A wait that was aborted or timed out: the request, still in the wait queue,
    leaves it, and others may be woken. *)
Definition wait_abort (id : Z) (l : THR_LOCK) : THR_LOCK :=
  wake_up_waiters
    (mkLock (remove_id id (read_wait l)) (read l) (remove_id id (write_wait l)) (write l)
       (write_lock_count l) (read_no_write_count l)).

(** src/drizzled/thr_lock.cc:437-458 thr_unlock *)
Definition thr_unlock (d : request) (l : THR_LOCK) : THR_LOCK :=
  wake_up_waiters
    (mkLock (read_wait l) (remove_id (r_id d) (read l)) (write_wait l) (remove_id (r_id d) (write l))
       (write_lock_count l)
       (if is_no_insert d then u32 (read_no_write_count l - 1) else read_no_write_count l)).

(** src/drizzled/thr_lock.cc:639-661 THR_LOCK::abort_locks *)
Definition abort_locks (l : THR_LOCK) : THR_LOCK :=
  mkLock [] (read l) []
    match write l with w :: rest => set_type TL_WRITE_ONLY w :: rest | [] => [] end
    (write_lock_count l) (read_no_write_count l).

(** src/drizzled/thr_lock.cc:670-709 THR_LOCK::abort_locks_for_thread

    Whether a request was found, and the lock. *)
Definition abort_locks_for_thread (thread_id : Z) (l : THR_LOCK) : bool * THR_LOCK :=
  let mine r := r_thread r =? thread_id in
  let others := filter (fun r => negb (mine r)) in
  (existsb mine (read_wait l) || existsb mine (write_wait l),
   wake_up_waiters
     (mkLock (others (read_wait l)) (read l) (others (write_wait l)) (write l)
        (write_lock_count l) (read_no_write_count l))).

End Manager.

(** *** Locking several tables *)

(** A lock instance of [thr_multi_lock]: the address of its lock and the type. *)
Record instance : Type := mkInst { i_lock : Z; i_id : Z; i_type : thr_lock_type }.

(** src/drizzled/thr_lock.cc:568-568 LOCK_CMP *)
Definition LOCK_CMP (a b : instance) : bool :=
  i_lock a - u32 (tl (i_type a)) <? i_lock b - u32 (tl (i_type b)).

(** src/drizzled/thr_lock.cc:578-586 sort_locks

    [tmp] moves down past the sorted instances before it (the list is given
    nearest first) that it precedes. *)
Fixpoint insert_lock (tmp : instance) (before : list instance) : list instance :=
  match before with
  | p :: rest => if LOCK_CMP tmp p then p :: insert_lock tmp rest else tmp :: before
  | [] => [tmp]
  end.

(** src/drizzled/thr_lock.cc:570-588 sort_locks *)
Definition sort_locks (data : list instance) : list instance :=
  rev (fold_left (fun before tmp => insert_lock tmp before) data []).

(** The locks of all tables, by address. *)
Definition locks := Z -> THR_LOCK.

Definition put_lock (a : Z) (l : THR_LOCK) (s : locks) : locks :=
  fun x => if x =? a then l else s x.

Section MultiLock.
Variable max_write_lock_count : Z.

(** The owner of the locks: its address, its info and its thread. *)
Variables owner info thread : Z.

(** What the other threads do until a wait ends, and how it ends. *)
Variable wait_for : instance -> locks -> enum_thr_lock_result * locks.

Definition request_of (i : instance) : request := mkReq (i_id i) owner info thread (i_type i).

(** src/drizzled/thr_lock.cc:612-621 thr_multi_unlock

    Also lines 623-632, [DrizzleLock::unlock]. *)
Definition thr_multi_unlock (data : list instance) (s : locks) : locks :=
  fold_left (fun s i =>
    if negb (tl_eqb (i_type i) TL_UNLOCK)
    then put_lock (i_lock i) (thr_unlock max_write_lock_count (request_of i) (s (i_lock i))) s
    else s) data s.

(** src/drizzled/thr_lock.cc:597-607 thr_multi_lock

    [locked] are the instances before [pos]. *)
Fixpoint multi_lock_loop (data locked : list instance) (s : locks)
  : enum_thr_lock_result * locks :=
  match data with
  | [] => (THR_LOCK_SUCCESS, s)
  | i :: rest =>
      let '(answer, l) := thr_lock (request_of i) (s (i_lock i)) in
      let s := put_lock (i_lock i) l s in
      let '(result, s) := match answer with
                          | Decided r => (r, s)
                          | Waiting => wait_for i s
                          end in
      match result with
      | THR_LOCK_SUCCESS => multi_lock_loop rest (locked ++ [i]) s
      | _ => (result, thr_multi_unlock locked s)
      end
  end.

(** src/drizzled/thr_lock.cc:591-608 thr_multi_lock *)
Definition thr_multi_lock (data : list instance) (s : locks) : enum_thr_lock_result * locks :=
  let data := if (1 <? length data)%nat then sort_locks data else data in
  multi_lock_loop data [] s.

End MultiLock.

(** ** Steps

    What the threads can do with one lock. *)

Definition all_requests (l : THR_LOCK) : list request :=
  read_wait l ++ read l ++ write_wait l ++ write l.

(** The types a statement may ask for; TL_WRITE_DEFAULT only exists in the parser
    and TL_WRITE_ONLY is set by [abort_locks]. *)
Definition requestable (t : thr_lock_type) : Prop :=
  match t with
  | TL_READ | TL_READ_WITH_SHARED_LOCKS | TL_READ_NO_INSERT | TL_WRITE_ALLOW_WRITE
  | TL_WRITE_ALLOW_READ | TL_WRITE_CONCURRENT_INSERT | TL_WRITE => True
  | _ => False
  end.

(** A new instance. *)
Definition request_ok (d : request) (l : THR_LOCK) : Prop :=
  requestable (r_type d) /\ ~ In (r_id d) (map r_id (all_requests l)).

(** The type a write request is given (line 311). *)
Definition write_as (t : thr_lock_type) : thr_lock_type :=
  if tl_eqb t TL_WRITE_CONCURRENT_INSERT then TL_WRITE else t.

(** A write request that goes beyond what its owner has, when the owner has the
    first active write lock and so is granted everything: it is stronger than a
    write lock of the owner; or [abort_locks] has hidden the type of such a lock,
    the request is stronger than TL_WRITE_ALLOW_WRITE, and another owner is
    active.  The comment of lines 328-332 says that the former never happens. *)
Definition upgrades (d : request) (l : THR_LOCK) : bool :=
  let t := write_as (r_type d) in
  let own x := r_owner x =? r_owner d in
  let aborted x := tl_eqb (r_type x) TL_WRITE_ONLY in
  (tl TL_READ_NO_INSERT <? tl (r_type d)) &&
  match write l with
  | [] => false
  | w :: _ => own w &&
      (existsb (fun x => own x && negb (aborted x) && (tl (r_type x) <? tl t)) (write l)
       || existsb (fun x => own x && aborted x) (write l) && negb (tl_eqb t TL_WRITE_ALLOW_WRITE)
          && existsb (fun x => negb (own x)) (read l ++ write l))
  end.

Section Steps.
Variable max_write_lock_count : Z.

(** The label of a step tells whether it is a request that upgrades. *)
Inductive step : bool -> THR_LOCK -> THR_LOCK -> Prop :=
| step_lock d l : request_ok d l -> step (upgrades d l) l (snd (thr_lock d l))
| step_unlock d l : In d (read l ++ write l) -> step false l (thr_unlock max_write_lock_count d l)
| step_wait_abort id l : In id (map r_id (read_wait l ++ write_wait l)) ->
    step false l (wait_abort max_write_lock_count id l)
| step_abort_locks l : step false l (abort_locks l)
| step_abort_thread n l : step false l (snd (abort_locks_for_thread max_write_lock_count n l)).

(** The states that the threads can reach, and whether some owner has upgraded
    on the way. *)
Inductive reachable : bool -> THR_LOCK -> Prop :=
| reachable_init : reachable false thr_lock_init
| reachable_step u v l l' : reachable u l -> step v l l' -> reachable (u || v) l'.

End Steps.

(** ** Invariant *)

Definition read_type (t : thr_lock_type) : Prop :=
  t = TL_READ \/ t = TL_READ_WITH_SHARED_LOCKS \/ t = TL_READ_NO_INSERT.

Definition write_type (t : thr_lock_type) : Prop :=
  t = TL_WRITE_ALLOW_WRITE \/ t = TL_WRITE_ALLOW_READ \/ t = TL_WRITE.

Definition weaker (a b : request) : Prop := tl (r_type b) <= tl (r_type a).

Definition shared_writer (r : request) : Prop :=
  r_type r = TL_WRITE_ALLOW_WRITE \/ r_type r = TL_WRITE_ONLY.

Record lock_inv (l : THR_LOCK) : Prop := {
  inv_ids : NoDup (map r_id (all_requests l));
  inv_read : Forall (fun r => read_type (r_type r)) (read_wait l ++ read l);
  inv_write_wait : Forall (fun r => write_type (r_type r)) (write_wait l);
  inv_write : Forall (fun r => write_type (r_type r) \/ r_type r = TL_WRITE_ONLY) (write l);
  inv_count : read_no_write_count l = u32 (count_no_insert (read l));
  inv_excl : forall w x, In w (write l) -> r_type w = TL_WRITE -> In x (read l ++ write l) ->
    r_owner x = r_owner w;
  inv_desc : StronglySorted weaker (write l);
  inv_shared : forall x y, In x (write l) -> In y (write l) -> r_owner x <> r_owner y ->
    Forall shared_writer (write l) }.

(** ** Lemmas *)

Lemma tl_inj a b : tl a = tl b -> a = b.
Proof. destruct a, b; cbn; intros E; (reflexivity || discriminate E). Qed.

Lemma tl_eqb_spec a b : reflect (a = b) (tl_eqb a b).
Proof.
  unfold tl_eqb; destruct (Z.eqb_spec (tl a) (tl b)) as [E|E]; constructor.
  - apply tl_inj; exact E.
  - intros ->; contradiction.
Qed.

Lemma filter_split_perm {A} (f : A -> bool) l :
  Permutation (filter f l ++ filter (fun x => negb (f x)) l) l.
Proof.
  induction l as [|x l IH]; [reflexivity|]; cbn [filter]; destruct (f x); cbn [negb app].
  - constructor; exact IH.
  - rewrite <- Permutation_middle; constructor; exact IH.
Qed.

Lemma free_all_perm l b : Permutation (all_requests (free_all_read_locks l b)) (all_requests l).
Proof.
  unfold all_requests, free_all_read_locks; cbn [read_wait read write_wait write].
  set (f := fun r => is_no_insert r && b).
  rewrite <- (filter_split_perm f (read_wait l)) at 3.
  rewrite <- !app_assoc; apply Permutation_app_head.
  rewrite app_assoc, (app_assoc _ (read l)); apply Permutation_app_tail, Permutation_app_comm.
Qed.

Lemma grant_writers_spec data wait : forall active d w a,
  grant_writers data wait active = (d, w, a) -> exists granted,
  a = active ++ granted /\ data :: wait = granted ++ w /\
  ((granted = [data] /\ d = data) \/
   (Forall (fun r => r_type r = TL_WRITE_ALLOW_WRITE) granted /\
    r_type d = TL_WRITE_ALLOW_WRITE /\ r_type data = TL_WRITE_ALLOW_WRITE)) /\ granted <> [].
Proof.
  revert data; induction wait as [|n wait IH]; intros data active d w a E; cbn [grant_writers] in E.
  - inversion E; subst; exists [d]; repeat split; auto; discriminate.
  - destruct (tl_eqb_spec (r_type data) TL_WRITE_ALLOW_WRITE) as [Ed|];
      [destruct (tl_eqb_spec (r_type n) TL_WRITE_ALLOW_WRITE) as [En|]|]; cbn [andb] in E;
      try (inversion E; subst; exists [d]; repeat split; auto; discriminate).
    apply IH in E as (g & Ea & Ew & Hg & _); exists (data :: g); rewrite Ea, <- app_assoc.
    split; [reflexivity|]; split; [cbn; congruence|]; split; [|discriminate]; right.
    destruct Hg as [[-> ->]|(Hg & Hd & _)]; repeat split; auto.
Qed.

Lemma count_no_insert_app a b : count_no_insert (a ++ b) = count_no_insert a + count_no_insert b.
Proof. unfold count_no_insert; rewrite filter_app, length_app; lia. Qed.

(** The invariant does not mention the write lock counter. *)
Lemma inv_any_count l c : lock_inv l ->
  lock_inv (mkLock (read_wait l) (read l) (write_wait l) (write l) c (read_no_write_count l)).
Proof. intros []; constructor; assumption. Qed.

Definition no_exclusive (l : list request) : Prop := forall w, In w l -> r_type w <> TL_WRITE.

Lemma free_all_inv l b : lock_inv l -> no_exclusive (write l) ->
  lock_inv (free_all_read_locks l b).
Proof.
  intros I Hno; destruct I as [Iid Ir Iww Iw Ic Ie Id Is].
  constructor; try assumption; unfold free_all_read_locks;
    cbn [read_wait read write_wait write read_no_write_count].
  - eapply Permutation_NoDup; [|exact Iid].
    apply Permutation_map, Permutation_sym, free_all_perm.
  - rewrite !Forall_app in *; destruct Ir as [Hrw Hr].
    split; [|split; [exact Hr|]]; apply Forall_forall; intros x Hx%filter_In;
    rewrite Forall_forall in Hrw; apply Hrw; tauto.
  - rewrite Ic, u32_add_l, count_no_insert_app; reflexivity.
  - intros w x Hw Et; contradiction (Hno w Hw Et).
Qed.

Lemma grant_inv l data wait d w a c : lock_inv l -> write l = [] -> write_wait l = data :: wait ->
  (r_type data = TL_WRITE -> read l = []) -> grant_writers data wait [] = (d, w, a) ->
  lock_inv (mkLock (read_wait l) (read l) w a c (read_no_write_count l)) /\
  (r_type d <> TL_WRITE -> no_exclusive a).
Proof.
  intros I Ew Eww Hr G; apply grant_writers_spec in G as (g & Ea & Eg & Hg & Hne).
  destruct I as [Iid Ir Iww Iw Ic Ie Id Is]; cbn [app] in Ea; subst a.
  rewrite Eww, Eg in Iww; apply Forall_app in Iww as [Hgw Hww].
  assert (forall x, In x g -> (g = [x] /\ x = data) \/ r_type x = TL_WRITE_ALLOW_WRITE) as Hx.
  { intros x Hx; destruct Hg as [[-> _]|(Hg & _)].
    - left; destruct Hx as [->|[]]; auto.
    - right; rewrite Forall_forall in Hg; auto. }
  split.
  - constructor; cbn [read_wait read write_wait write read_no_write_count]; try assumption.
    + eapply Permutation_NoDup; [|exact Iid]; apply Permutation_map; unfold all_requests.
      cbn [read_wait read write_wait write]; rewrite Ew, Eww, Eg, app_nil_r.
      do 2 apply Permutation_app_head; apply Permutation_app_comm.
    + eapply Forall_impl; [|exact Hgw]; intros; left; assumption.
    + intros x y Hin Et Hy; destruct (Hx x Hin) as [[Eg' ->]|E]; [|congruence].
      rewrite (Hr Et), Eg' in Hy; destruct Hy as [->|[]]; reflexivity.
    + destruct Hg as [[-> _]|(Hg & _)]; [repeat constructor|].
      clear - Hg; induction Hg as [|x g Ex Hg IH]; constructor; [exact IH|].
      apply Forall_forall; intros y Hy; rewrite Forall_forall in Hg; unfold weaker.
      rewrite Ex, (Hg y Hy); lia.
    + intros x y Hin Hiny Hne'; destruct Hg as [[-> _]|(Hg & _)].
      * destruct Hin as [<-|[]], Hiny as [<-|[]]; contradiction.
      * eapply Forall_impl; [|exact Hg]; intros; left; assumption.
  - intros Hd x Hin Et; destruct Hg as [[-> ->]|(Hg & _)].
    + destruct Hin as [<-|[]]; contradiction.
    + rewrite Forall_forall in Hg; rewrite (Hg x Hin) in Et; discriminate.
Qed.

Lemma is_nil_spec {A} (l : list A) : reflect (l = []) (is_nil l).
Proof. destruct l; constructor; [reflexivity|discriminate]. Qed.

Lemma release_readers_inv l b : lock_inv l -> no_exclusive (write l) ->
  lock_inv (release_readers l b).
Proof.
  intros I Hno; unfold release_readers; destruct (is_nil _); [exact I|].
  apply free_all_inv; assumption.
Qed.

Lemma release_writers_inv l data wait : lock_inv l -> write l = [] -> read l = [] ->
  write_wait l = data :: wait -> lock_inv (release_writers data wait l).
Proof.
  intros I Ew Er Eww; unfold release_writers.
  destruct (grant_writers data wait []) as [[d w] a] eqn:G.
  destruct (grant_inv l data wait d w a (write_lock_count l) I Ew Eww (fun _ => Er) G) as [I' Hd].
  case_if; [exact I'|]; apply release_readers_inv; [exact I'|].
  apply Hd; intros E; rewrite E in Heqb; discriminate.
Qed.

Lemma wake_up_idle_inv m l data wait : lock_inv l -> write l = [] -> read l = [] ->
  write_wait l = data :: wait -> lock_inv (wake_up_idle m data wait l).
Proof.
  intros I Ew Er Eww; unfold wake_up_idle.
  assert (no_exclusive (write l)) as Hno by (rewrite Ew; intros ? []).
  repeat case_if; try (apply release_writers_inv; try assumption; repeat apply inv_any_count; exact I).
  - apply free_all_inv; [do 2 apply inv_any_count; exact I|exact Hno].
  - apply release_readers_inv; assumption.
Qed.

Lemma wake_up_beside_inv l data wait : lock_inv l -> write l = [] ->
  write_wait l = data :: wait -> lock_inv (wake_up_beside_readers data wait l).
Proof.
  intros I Ew Eww; unfold wake_up_beside_readers; case_if; [|exact I].
  assert (r_type data <> TL_WRITE) as Hd by (intros E; rewrite E in Heqb; discriminate).
  destruct (grant_writers data wait []) as [[d w] a] eqn:G.
  destruct (grant_inv l data wait d w a (write_lock_count l) I Ew Eww
              (fun E => False_ind _ (Hd E)) G) as [I' Hno].
  apply release_readers_inv; [exact I'|]; apply Hno.
  apply grant_writers_spec in G as (_ & _ & _ & [[_ ->]|(_ & -> & _)] & _); [exact Hd|discriminate].
Qed.

Lemma wake_up_inv m l : lock_inv l -> lock_inv (wake_up_waiters m l).
Proof.
  intros I; unfold wake_up_waiters.
  destruct (write l) as [|w0 ws] eqn:Ew; [|exact I].
  destruct (write_wait l) as [|data wait] eqn:Eww.
  - apply release_readers_inv; [exact I|rewrite Ew; intros ? []].
  - destruct (is_nil_spec (read l)).
    + apply wake_up_idle_inv; assumption.
    + apply wake_up_beside_inv; assumption.
Qed.

Lemma Forall_one {A} (P : A -> Prop) x : P x -> Forall P [x].
Proof. intros H; constructor; [exact H|constructor]. Qed.

(** *** Removing requests *)

Lemma NoDup_map_filter_app {A} (g : A -> Z) f a b :
  NoDup (map g (a ++ b)) -> NoDup (map g (filter f a ++ b)).
Proof.
  induction a as [|x a IH]; [auto|]; cbn [app map filter]; intros H.
  apply NoDup_cons_iff in H as [Hx H]; specialize (IH H); destruct (f x); [|exact IH].
  cbn [app map]; constructor; [|exact IH]; intros Hin; apply Hx.
  rewrite in_map_iff in *; destruct Hin as (y & Ey & Hy); exists y; split; [exact Ey|].
  rewrite in_app_iff in *; destruct Hy as [Hy|]; [left; apply filter_In in Hy; tauto|auto].
Qed.

Lemma NoDup_rotate {A} (g : A -> Z) a b : NoDup (map g (a ++ b)) -> NoDup (map g (b ++ a)).
Proof. apply Permutation_NoDup, Permutation_map, Permutation_app_comm. Qed.

Lemma StronglySorted_filter {A} (R : A -> A -> Prop) f l :
  StronglySorted R l -> StronglySorted R (filter f l).
Proof.
  induction 1 as [|x l Hs IH Hx]; [constructor|]; cbn; destruct (f x); [|exact IH].
  constructor; [exact IH|]; apply Forall_forall; intros y Hy%filter_In.
  rewrite Forall_forall in Hx; apply Hx; tauto.
Qed.

Lemma Forall_filter {A} (P : A -> Prop) f l : Forall P l -> Forall P (filter f l).
Proof.
  rewrite !Forall_forall; intros H x Hx%filter_In; apply H; tauto.
Qed.

Lemma inv_filter l f1 f2 f3 f4 c n : lock_inv l ->
  n = u32 (count_no_insert (filter f2 (read l))) ->
  lock_inv (mkLock (filter f1 (read_wait l)) (filter f2 (read l)) (filter f3 (write_wait l))
              (filter f4 (write l)) c n).
Proof.
  intros [Iid Ir Iww Iw Ic Ie Id Is] ->.
  constructor; cbn [read_wait read write_wait write read_no_write_count].
  - unfold all_requests in *; cbn [read_wait read write_wait write] in *.
    apply (NoDup_map_filter_app _ f1) in Iid; apply NoDup_rotate in Iid; rewrite <- !app_assoc in Iid.
    apply (NoDup_map_filter_app _ f2) in Iid; apply NoDup_rotate in Iid; rewrite <- !app_assoc in Iid.
    apply (NoDup_map_filter_app _ f3) in Iid; apply NoDup_rotate in Iid; rewrite <- !app_assoc in Iid.
    apply (NoDup_map_filter_app _ f4) in Iid; apply NoDup_rotate in Iid; rewrite <- !app_assoc in Iid.
    exact Iid.
  - rewrite Forall_app in *; split; apply Forall_filter; tauto.
  - apply Forall_filter; exact Iww.
  - apply Forall_filter; exact Iw.
  - reflexivity.
  - intros w x Hw Et Hx; apply filter_In in Hw as [Hw _]; apply (Ie w x Hw Et).
    rewrite in_app_iff in *; rewrite !filter_In in Hx; tauto.
  - apply StronglySorted_filter; exact Id.
  - intros x y Hx%filter_In Hy%filter_In Hne; apply Forall_filter; eapply Is; try exact Hne; tauto.
Qed.

Lemma remove_id_absent id l : ~ In id (map r_id l) -> remove_id id l = l.
Proof.
  induction l as [|x l IH]; [reflexivity|]; cbn [map remove_id filter]; intros H.
  destruct (Z.eqb_spec (r_id x) id); cbn [negb]; [exfalso; apply H; left; assumption|].
  f_equal; apply IH; intros Hin; apply H; right; exact Hin.
Qed.

Lemma count_remove d l : NoDup (map r_id l) -> In d l ->
  count_no_insert (remove_id (r_id d) l) = count_no_insert l - (if is_no_insert d then 1 else 0).
Proof.
  induction l as [|x l IH]; [contradiction|]; cbn [map]; intros H%NoDup_cons_iff [->|Hd].
  - destruct H as [Hx _]; cbn [remove_id filter]; rewrite Z.eqb_refl; cbn [negb].
    change (filter _ l) with (remove_id (r_id d) l); rewrite remove_id_absent by exact Hx.
    unfold count_no_insert; cbn [filter]; destruct (is_no_insert d); cbn [length]; lia.
  - destruct H as [Hx Hl]; cbn [remove_id filter].
    destruct (Z.eqb_spec (r_id x) (r_id d)) as [E|]; cbn [negb].
    + exfalso; apply Hx; rewrite E; apply in_map; exact Hd.
    + specialize (IH Hl Hd); unfold remove_id, count_no_insert in *; cbn [filter].
      destruct (is_no_insert x); cbn [length]; lia.
Qed.

Lemma NoDup_app_r {A} (a b : list A) : NoDup (a ++ b) -> NoDup b.
Proof. induction a; [auto|]; intros H%NoDup_cons_iff; tauto. Qed.

Lemma NoDup_app_l {A} (a b : list A) : NoDup (a ++ b) -> NoDup a.
Proof.
  intros H; apply (Permutation_NoDup (Permutation_app_comm a b)) in H; exact (NoDup_app_r _ _ H).
Qed.

Lemma NoDup_app_disjoint {A} (a b : list A) x : NoDup (a ++ b) -> In x a -> ~ In x b.
Proof.
  induction a as [|y a IH]; [contradiction|]; intros H%NoDup_cons_iff [->|Hx] Hb.
  - destruct H as [H _]; apply H, in_app_iff; auto.
  - apply IH; tauto.
Qed.

Lemma inv_read_ids l : lock_inv l -> NoDup (map r_id (read l)) /\
  forall w, In w (write l) -> ~ In (r_id w) (map r_id (read l)).
Proof.
  intros I; pose proof (inv_ids l I) as H; unfold all_requests in H; rewrite !map_app in H.
  apply NoDup_app_r in H; split; [exact (NoDup_app_l _ _ H)|].
  intros w Hw Hin; apply (NoDup_app_disjoint _ _ _ H Hin), in_app_iff; right; apply in_map; exact Hw.
Qed.

Lemma thr_unlock_inv m d l : lock_inv l -> In d (read l ++ write l) -> lock_inv (thr_unlock m d l).
Proof.
  intros I Hd; apply wake_up_inv.
  destruct (inv_read_ids l I) as [Hnd Hdis].
  rewrite <- (filter_true (read_wait l)) at 1; rewrite <- (filter_true (write_wait l)) at 1.
  apply inv_filter; [exact I|]; fold (remove_id (r_id d) (read l)); rewrite (inv_count l I).
  apply in_app_iff in Hd as [Hd|Hd].
  - rewrite count_remove by assumption; case_if; rewrite ?u32_sub_l, ?Z.sub_0_r; reflexivity.
  - rewrite remove_id_absent by (apply Hdis; exact Hd).
    pose proof (inv_write l I) as Hw; rewrite Forall_forall in Hw; specialize (Hw d Hd).
    unfold is_no_insert; destruct (tl_eqb_spec (r_type d) TL_READ_NO_INSERT) as [E|]; [|reflexivity].
    rewrite E in Hw; unfold write_type in Hw; intuition discriminate.
Qed.

Lemma inv_waiters l f1 f3 : lock_inv l ->
  lock_inv (mkLock (filter f1 (read_wait l)) (read l) (filter f3 (write_wait l)) (write l)
              (write_lock_count l) (read_no_write_count l)).
Proof.
  intros I; rewrite <- (filter_true (read l)) at 1; rewrite <- (filter_true (write l)) at 1.
  apply inv_filter; [exact I|]; rewrite filter_true; apply I.
Qed.

Lemma abort_locks_inv l : lock_inv l -> lock_inv (abort_locks l).
Proof.
  intros I; assert (filter (fun _ : request => false) (read_wait l) = [] /\
    filter (fun _ : request => false) (write_wait l) = []) as [E1 E3]
    by (split; [induction (read_wait l)|induction (write_wait l)]; auto).
  pose proof (inv_waiters l (fun _ => false) (fun _ => false) I) as J; rewrite E1, E3 in J.
  unfold abort_locks; destruct (write l) as [|w ws] eqn:Ew; [exact J|].
  destruct J as [Iid Ir Iww Iw Ic Ie Id Is].
  constructor; cbn [read_wait read write_wait write read_no_write_count] in *; try assumption.
  - unfold all_requests in *; cbn [read_wait read write_wait write app] in *.
    rewrite map_app in *; exact Iid.
  - apply Forall_cons_iff in Iw as [_ Iw]; constructor; [right; reflexivity|exact Iw].
  - intros x y [<-|Hx] Et Hy; [discriminate|].
    apply in_app_iff in Hy as [Hy|[<-|Hy]]; [| |]; cbn [set_type r_owner];
    apply (Ie x _ (or_intror Hx) Et); apply in_app_iff; cbn; auto.
  - apply StronglySorted_inv in Id as [Hs Hw]; constructor; [exact Hs|].
    eapply Forall_impl; [|exact Hw]; intros r Hr; unfold weaker in *; cbn.
    destruct (r_type r); cbn; lia.
  - intros x y Hx Hy Hne.
    assert (Forall shared_writer (w :: ws)) as H; [|apply Forall_cons_iff in H as [_ H];
      constructor; [right; reflexivity|exact H]].
    destruct Hx as [<-|Hx], Hy as [<-|Hy]; cbn [set_type r_owner] in Hne; [contradiction| | |];
    eapply Is; try exact Hne; cbn; auto.
Qed.

(** *** New requests *)

Lemma NoDup_map_snoc l (d : request) : NoDup (map r_id l) -> ~ In (r_id d) (map r_id l) ->
  NoDup (map r_id (d :: l)).
Proof. intros H Hd; cbn; constructor; assumption. Qed.

Lemma add_reader_inv d l : lock_inv l -> read_type (r_type d) ->
  ~ In (r_id d) (map r_id (all_requests l)) ->
  (forall w, In w (write l) -> r_type w = TL_WRITE -> r_owner d = r_owner w) ->
  lock_inv (add_reader d l).
Proof.
  intros [Iid Ir Iww Iw Ic Ie Id Is] Ht Hid Ho.
  constructor; unfold add_reader; cbn [read_wait read write_wait write read_no_write_count];
    try assumption.
  - eapply Permutation_NoDup; [|exact (NoDup_map_snoc _ _ Iid Hid)]; apply Permutation_map.
    unfold all_requests; cbn [read_wait read write_wait write]; rewrite <- app_assoc.
    rewrite !app_assoc; rewrite <- (app_assoc (read_wait l ++ read l) [d]); cbn [app].
    rewrite <- (app_assoc _ (write_wait l)); rewrite <- (app_assoc (read_wait l ++ read l) (d :: _)).
    apply Permutation_middle.
  - rewrite app_assoc; apply Forall_app; split; [exact Ir|apply Forall_one; exact Ht].
  - rewrite Ic, count_no_insert_app.
    replace (count_no_insert [d]) with (if is_no_insert d then 1 else 0)
      by (unfold count_no_insert; cbn [filter]; case_if; reflexivity).
    case_if; rewrite ?u32_add_l, ?Z.add_0_r; reflexivity.
  - intros w x Hw Et Hx; rewrite <- app_assoc in Hx; apply in_app_iff in Hx as [Hx|[<-|Hx]].
    + apply (Ie w x Hw Et), in_app_iff; auto.
    + apply (Ho w Hw Et).
    + apply (Ie w x Hw Et), in_app_iff; auto.
Qed.

Lemma StronglySorted_snoc {A} (R : A -> A -> Prop) l x : StronglySorted R l ->
  Forall (fun y => R y x) l -> StronglySorted R (l ++ [x]).
Proof.
  induction 1 as [|y l Hs IH Hy]; intros H; cbn [app]; [repeat constructor|].
  apply Forall_cons_iff in H as [Hx H]; constructor; [exact (IH H)|].
  apply Forall_app; split; [exact Hy|apply Forall_one; exact Hx].
Qed.

Lemma add_writer_inv d l : lock_inv l -> write_type (r_type d) ->
  ~ In (r_id d) (map r_id (all_requests l)) ->
  Forall (fun w => weaker w d) (write l) ->
  (r_type d = TL_WRITE -> forall x, In x (read l ++ write l) -> r_owner x = r_owner d) ->
  (forall w, In w (write l) -> r_type w = TL_WRITE -> r_owner d = r_owner w) ->
  (forall w, In w (write l) -> r_owner w <> r_owner d ->
     Forall shared_writer (write l) /\ shared_writer d) ->
  (r_type d = TL_WRITE_ALLOW_WRITE \/ forall w, In w (write l) -> r_owner w = r_owner d) ->
  lock_inv (add_writer d l).
Proof.
  intros [Iid Ir Iww Iw Ic Ie Id Is] Ht Hid Hweak Hnew Hold Hsh Hty.
  constructor; unfold add_writer; cbn [read_wait read write_wait write read_no_write_count];
    try assumption.
  - eapply Permutation_NoDup; [|exact (NoDup_map_snoc _ _ Iid Hid)]; apply Permutation_map.
    unfold all_requests; cbn [read_wait read write_wait write].
    rewrite !app_assoc; apply Permutation_cons_append.
  - apply Forall_app; split; [exact Iw|apply Forall_one; exact (or_introl Ht)].
  - intros w x Hw Et Hx; rewrite app_assoc in Hx.
    apply in_app_iff in Hw as [Hw|[<-|[]]]; apply in_app_iff in Hx as [Hx|[<-|[]]]; auto.
  - apply StronglySorted_snoc; assumption.
  - intros x y Hx Hy Hne; apply Forall_app.
    apply in_app_iff in Hx as [Hx|[<-|[]]]; apply in_app_iff in Hy as [Hy|[<-|[]]].
    + destruct Hty as [Hty|Hown]; [|exfalso; apply Hne; rewrite (Hown x Hx), (Hown y Hy); reflexivity].
      split; [exact (Is x y Hx Hy Hne)|apply Forall_one; exact (or_introl Hty)].
    + destruct (Hsh x Hx Hne) as [H1 H2]; split; [exact H1|apply Forall_one; exact H2].
    + destruct (Hsh y Hy (not_eq_sym Hne)) as [H1 H2].
      split; [exact H1|apply Forall_one; exact H2].
    + contradiction.
Qed.

Lemma enqueue_inv d (b : bool) l : lock_inv l ->
  (if b then write_type (r_type d) else read_type (r_type d)) ->
  ~ In (r_id d) (map r_id (all_requests l)) ->
  lock_inv (mkLock (if b then read_wait l else read_wait l ++ [d]) (read l)
              (if b then write_wait l ++ [d] else write_wait l) (write l)
              (write_lock_count l) (read_no_write_count l)).
Proof.
  intros [Iid Ir Iww Iw Ic Ie Id Is] Ht Hid.
  constructor; cbn [read_wait read write_wait write read_no_write_count]; try assumption.
  - eapply Permutation_NoDup; [|exact (NoDup_map_snoc _ _ Iid Hid)]; apply Permutation_map.
    unfold all_requests; cbn [read_wait read write_wait write].
    destruct b; [rewrite !app_assoc|]; rewrite <- (app_assoc _ [d]); apply Permutation_middle.
  - destruct b; [exact Ir|]; rewrite !Forall_app in *; destruct Ir.
    repeat split; try assumption; apply Forall_one; exact Ht.
  - destruct b; [|exact Iww]; apply Forall_app; split; [exact Iww|apply Forall_one; exact Ht].
Qed.

Lemma wait_or_deadlock_inv d (b : bool) l : lock_inv l ->
  (if b then write_type (r_type d) else read_type (r_type d)) ->
  ~ In (r_id d) (map r_id (all_requests l)) -> lock_inv (snd (wait_or_deadlock d b l)).
Proof.
  intros I Ht Hid; pose proof (enqueue_inv d b l I Ht Hid) as J; unfold wait_or_deadlock.
  case_if; [exact I|]; destruct b; exact J.
Qed.

Lemma thr_lock_read_inv d l : lock_inv l -> read_type (r_type d) ->
  ~ In (r_id d) (map r_id (all_requests l)) -> lock_inv (snd (thr_lock_read d l)).
Proof.
  intros I Ht Hid; unfold thr_lock_read; destruct (write l) as [|w ws] eqn:Ew.
  - case_if; [|apply wait_or_deadlock_inv; assumption].
    apply add_reader_inv; try assumption; rewrite Ew; intros ? [].
  - repeat case_if; try exact I; try (apply wait_or_deadlock_inv; assumption).
    apply add_reader_inv; try assumption; intros x Hx Et.
    apply orb_true_iff in Heqb as [Ho%Z.eqb_eq|Hc%andb_true_iff].
    + rewrite Ho; apply (inv_excl l I x w Hx Et), in_app_iff; right; rewrite Ew; left; reflexivity.
    + destruct Hc as [Hc _]; apply Z.leb_le in Hc; exfalso.
      pose proof (inv_desc l I) as D; rewrite Ew in D, Hx; apply StronglySorted_inv in D as [_ D].
      destruct Hx as [<-|Hx]; [rewrite Et in Hc; cbn in Hc; lia|].
      rewrite Forall_forall in D; specialize (D x Hx); unfold weaker in D; rewrite Et in D.
      cbn in *; lia.
Qed.

Lemma add_shared_inv d l : lock_inv l -> r_type d = TL_WRITE_ALLOW_WRITE ->
  ~ In (r_id d) (map r_id (all_requests l)) ->
  Forall shared_writer (write l) -> lock_inv (add_writer d l).
Proof.
  intros I Ed Hid Hall; assert (forall w, In w (write l) -> shared_writer w) as H
    by (rewrite <- Forall_forall; exact Hall).
  apply add_writer_inv; try assumption.
  - left; exact Ed.
  - apply Forall_forall; intros w Hw; unfold weaker; rewrite Ed; destruct (H w Hw) as [-> | ->]; cbn; lia.
  - rewrite Ed; discriminate.
  - intros w Hw; destruct (H w Hw) as [-> | ->]; discriminate.
  - intros w _ _; split; [exact Hall|left; exact Ed].
  - left; exact Ed.
Qed.

(** A list of writers led by one that allows writers holds no other kind. *)
Lemma shared_head l w ws : lock_inv l -> write l = w :: ws -> r_type w = TL_WRITE_ALLOW_WRITE ->
  Forall shared_writer (write l).
Proof.
  intros I Ew Et; pose proof (inv_desc l I) as D; pose proof (inv_write l I) as W.
  rewrite Ew in *; apply StronglySorted_inv in D as [_ D].
  rewrite Forall_forall in *; intros x Hx.
  destruct (W x Hx) as [[H|[H|H]]|H]; [left; exact H| | |right; exact H];
  (destruct Hx as [<-|Hx]; [congruence|]; specialize (D x Hx); unfold weaker in D;
   rewrite Et, H in D; cbn in D; lia).
Qed.

(** What a request that does not upgrade asks for. *)
Lemma upgrades_not d l w ws : upgrades d l = false -> tl TL_READ_NO_INSERT < tl (r_type d) -> write l = w :: ws -> r_owner w = r_owner d ->
  (forall x, In x (write l) -> r_owner x = r_owner d -> r_type x <> TL_WRITE_ONLY -> tl (write_as (r_type d)) <= tl (r_type x)) /\
  (r_type w = TL_WRITE_ONLY -> write_as (r_type d) = TL_WRITE_ALLOW_WRITE \/ forall x, In x (read l ++ write l) -> r_owner x = r_owner d).
Proof.
  intros U Hlt Ew Ho; assert (In w (write l)) as Hw by (rewrite Ew; left; reflexivity); unfold upgrades in U; cbv zeta in U.
  rewrite (proj2 (Z.ltb_lt _ _) Hlt) in U; cbn [andb] in U.
  assert (exists b1 b2, (b1 || b2 = false) /\
      b1 = existsb (fun x => (r_owner x =? r_owner d) && negb (tl_eqb (r_type x) TL_WRITE_ONLY) && (tl (r_type x) <? tl (write_as (r_type d)))) (write l) /\
      b2 = existsb (fun x => (r_owner x =? r_owner d) && tl_eqb (r_type x) TL_WRITE_ONLY) (write l) && negb (tl_eqb (write_as (r_type d)) TL_WRITE_ALLOW_WRITE)
           && existsb (fun x => negb (r_owner x =? r_owner d)) (read l ++ write l)) as (b1 & b2 & Eb & E1 & E2).
  { do 2 eexists; split; [|split; reflexivity]; rewrite Ew in U |- *; rewrite (proj2 (Z.eqb_eq _ _) Ho) in U at 1; exact U. }
  clear U; apply orb_false_iff in Eb as [-> ->]; split.
  - intros x Hx Hxo Hxt; destruct (Z.lt_ge_cases (tl (r_type x)) (tl (write_as (r_type d)))) as [C|C]; [|lia].
    exfalso; symmetry in E1; revert E1; apply not_false_iff_true, existsb_exists; exists x; split; [exact Hx|].
    rewrite (proj2 (Z.eqb_eq _ _) Hxo), (proj2 (Z.ltb_lt _ _) C); destruct (tl_eqb_spec (r_type x) TL_WRITE_ONLY); [contradiction|reflexivity].
  - intros Ht; symmetry in E2; revert E2; destruct (tl_eqb_spec (write_as (r_type d)) TL_WRITE_ALLOW_WRITE) as [Ed|Ed]; [left; exact Ed|intros E2; right; intros x Hx].
    destruct (Z.eqb_spec (r_owner x) (r_owner d)) as [E|E]; [exact E|exfalso]; revert E2; apply not_false_iff_true.
    cbn [negb]; rewrite andb_true_r; apply andb_true_iff; split; apply existsb_exists; [exists w|exists x]; (split; [assumption|]).
    + rewrite (proj2 (Z.eqb_eq _ _) Ho), Ht; reflexivity.
    + destruct (Z.eqb_spec (r_owner x) (r_owner d)); [contradiction|reflexivity].
Qed.

Lemma add_own_inv d l w ws : lock_inv l -> write_type (r_type d) ->
  ~ In (r_id d) (map r_id (all_requests l)) -> write l = w :: ws -> r_owner w = r_owner d ->
  (forall x, In x (write l) -> r_owner x = r_owner d -> r_type x <> TL_WRITE_ONLY -> tl (r_type d) <= tl (r_type x)) ->
  (r_type w = TL_WRITE_ONLY -> r_type d = TL_WRITE_ALLOW_WRITE \/ forall x, In x (read l ++ write l) -> r_owner x = r_owner d) ->
  lock_inv (add_writer d l).
Proof.
  intros I Ht Hid Ew Ho Hown Hab; assert (In w (write l)) as Hw by (rewrite Ew; left; reflexivity).
  assert (forall t, t <> TL_WRITE_ONLY -> tl TL_WRITE <= tl t -> t = TL_WRITE) as Hmax
    by (intros t Nt; destruct t; cbn; intros; try lia; [reflexivity|contradiction]).
  destruct (Forall_dec (fun x => r_owner x = r_owner d) (fun x => Z.eq_dec _ _) (write l)) as [Ha|Ha].
  - rewrite Forall_forall in Ha; apply add_writer_inv; try assumption.
    + apply Forall_forall; intros x Hx; unfold weaker; destruct (tl_eqb_spec (r_type x) TL_WRITE_ONLY) as [E|E].
      * rewrite E; destruct Ht as [-> |[-> | ->]]; cbn; lia.
      * apply Hown; auto.
    + intros Ed x Hx; destruct (tl_eqb_spec (r_type w) TL_WRITE_ONLY) as [E|E].
      * destruct (Hab E) as [Hd|Hd]; [congruence|exact (Hd x Hx)].
      * rewrite <- Ho; apply (inv_excl l I w x Hw); [|exact Hx]; apply Hmax; [exact E|rewrite <- Ed; apply Hown; auto].
    + intros x Hx _; symmetry; auto.
    + intros x Hx Hne; contradiction (Hne (Ha x Hx)).
    + right; exact Ha.
  - apply neg_Forall_Exists_neg, Exists_exists in Ha as (x & Hx & Hne);
      [|intros y; apply Z.eq_dec].
    assert (r_owner x <> r_owner w) as Hxw by congruence; pose proof (inv_shared l I x w Hx Hw Hxw) as Hsh.
    apply add_shared_inv; try assumption; rewrite Forall_forall in Hsh; destruct (Hsh w Hw) as [Et|Et].
    + specialize (Hown w Hw Ho); rewrite Et in Hown; destruct Ht as [H|[H|H]]; [exact H| |]; rewrite H in Hown; cbn in Hown;
        specialize (Hown ltac:(discriminate)); lia.
    + destruct (Hab Et) as [Hd|Hd]; [exact Hd|]; contradiction (Hne (Hd x (in_or_app _ _ _ (or_intror Hx)))).
Qed.

Lemma thr_lock_write_inv d l : lock_inv l -> request_ok d l -> upgrades d l = false ->
  tl TL_READ_NO_INSERT < tl (r_type d) -> lock_inv (snd (thr_lock_write d l)).
Proof.
  intros I (Hreq & Hid) U Hlt; unfold thr_lock_write; cbv zeta.
  set (d' := if tl_eqb _ _ then _ else d).
  assert (r_id d' = r_id d /\ r_owner d' = r_owner d /\ r_type d' = write_as (r_type d)) as (Eid & Eo & Et)
    by (unfold d', write_as; case_if; auto).
  assert (write_type (r_type d')) as Ht.
  { rewrite Et; unfold write_as, write_type; destruct (tl_eqb_spec (r_type d) TL_WRITE_CONCURRENT_INSERT); [auto|].
    destruct (r_type d); cbn in Hreq, Hlt; try contradiction; auto; lia. }
  rewrite <- Eid in Hid; clearbody d'.
  destruct (write l) as [|w ws] eqn:Ew.
  - case_if; [|apply wait_or_deadlock_inv; assumption].
    apply add_writer_inv; try assumption; rewrite Ew;
      [constructor| |intros ? []|intros ? []|right; intros ? []].
    intros Ed x Hx; rewrite app_nil_r in Hx; rewrite Ed in Heqb.
    destruct (read l); [destruct Hx|]; rewrite andb_false_r in Heqb; discriminate.
  - repeat case_if; try exact I; try (apply wait_or_deadlock_inv; assumption).
    apply orb_true_iff in Heqb0 as [Ho%Z.eqb_eq|Hs].
    + destruct (upgrades_not d l w ws U Hlt Ew) as [H1 H2]; [congruence|].
      rewrite <- Et, <- Eo in H1, H2; apply (add_own_inv d' l w ws); auto.
    + apply andb_true_iff in Hs as [[Hd _]%andb_true_iff Hw].
      destruct (tl_eqb_spec (r_type d') TL_WRITE_ALLOW_WRITE); [|discriminate].
      destruct (tl_eqb_spec (r_type w) TL_WRITE_ALLOW_WRITE); [|discriminate].
      apply add_shared_inv; try assumption; apply (shared_head l w ws); assumption.
Qed.

Lemma step_inv m l l' : lock_inv l -> step m false l l' -> lock_inv l'.
Proof.
  intros I H; inversion H as [d l0 Hd E0 E1 E2|d l0 Hd|id l0 Hid|l0|n l0]; subst.
  - unfold thr_lock; case_if.
    + destruct Hd as (Hreq & Hid); apply thr_lock_read_inv; try assumption; unfold read_type.
      destruct (r_type d); cbn in Hreq, Heqb; try contradiction; auto; discriminate.
    + apply thr_lock_write_inv; [assumption..|]; apply Z.leb_gt in Heqb; exact Heqb.
  - apply thr_unlock_inv; assumption.
  - apply wake_up_inv, inv_waiters; exact I.
  - apply abort_locks_inv; exact I.
  - apply wake_up_inv, inv_waiters; exact I.
Qed.

Lemma init_inv : lock_inv thr_lock_init.
Proof. constructor; cbn; try constructor; contradiction. Qed.

Lemma reachable_inv m u l : reachable m u l -> u = false -> lock_inv l.
Proof.
  induction 1 as [|u v l l' _ IH Hs]; [intros _; exact init_inv|].
  intros [-> ->]%orb_false_iff; exact (step_inv _ _ _ (IH eq_refl) Hs).
Qed.

(** *** Conservation and progress *)

Lemma release_readers_perm l b : Permutation (all_requests (release_readers l b)) (all_requests l).
Proof. unfold release_readers; case_if; [reflexivity|apply free_all_perm]. Qed.

Lemma grant_perm l data wait d w a c n : write l = [] -> write_wait l = data :: wait ->
  grant_writers data wait [] = (d, w, a) ->
  Permutation (all_requests (mkLock (read_wait l) (read l) w a c n)) (all_requests l).
Proof.
  intros Ew Eww G; apply grant_writers_spec in G as (g & -> & Eg & _ & _).
  unfold all_requests; cbn [read_wait read write_wait write app]; rewrite Ew, Eww, Eg, app_nil_r.
  do 2 apply Permutation_app_head; apply Permutation_app_comm.
Qed.

Lemma release_writers_perm l data wait : write l = [] -> write_wait l = data :: wait ->
  Permutation (all_requests (release_writers data wait l)) (all_requests l).
Proof.
  intros Ew Eww; unfold release_writers.
  destruct (grant_writers data wait []) as [[d w] a] eqn:G.
  pose proof (grant_perm l data wait d w a (write_lock_count l) (read_no_write_count l) Ew Eww G) as P.
  case_if; [exact P|]; rewrite release_readers_perm; exact P.
Qed.

Lemma wake_up_perm m l : Permutation (all_requests (wake_up_waiters m l)) (all_requests l).
Proof.
  unfold wake_up_waiters.
  destruct (write l) as [|w0 ws] eqn:Ew; [|reflexivity].
  destruct (write_wait l) as [|data wait] eqn:Eww; [apply release_readers_perm|].
  case_if.
  - unfold wake_up_idle; repeat case_if;
      try (rewrite release_writers_perm by assumption; reflexivity);
      [rewrite free_all_perm; reflexivity|apply release_readers_perm].
  - unfold wake_up_beside_readers; case_if; [|reflexivity].
    destruct (grant_writers data wait []) as [[d w] a] eqn:G.
    rewrite release_readers_perm; exact (grant_perm l data wait d w a _ _ Ew Eww G).
Qed.

Lemma free_all_read l b : read (free_all_read_locks l b) = [] ->
  Forall (fun r => r_type r = TL_READ_NO_INSERT /\ b = true) (read_wait l).
Proof.
  unfold free_all_read_locks; cbn [read]; intros [_ H]%app_eq_nil; apply Forall_forall; intros r Hr.
  destruct (is_no_insert r && b) eqn:E.
  - apply andb_true_iff in E as [E ->]; unfold is_no_insert in E.
    destruct (tl_eqb_spec (r_type r) TL_READ_NO_INSERT); [auto|discriminate].
  - assert (In r []) as []; rewrite <- H; apply filter_In; rewrite E; auto.
Qed.

(** The state in which [wake_up_waiters] releases nobody. *)
Definition stuck (l : THR_LOCK) : Prop :=
  read_wait l <> [] /\ Forall (fun r => r_type r = TL_READ_NO_INSERT) (read_wait l) /\
  exists d rest, write_wait l = d :: rest /\ allows_inserts (r_type d) = true.

Definition idle (l : THR_LOCK) : Prop := read l = [] /\ write l = [].

Lemma release_readers_idle l b : idle (release_readers l b) ->
  Forall (fun r => r_type r = TL_READ_NO_INSERT /\ b = true) (read_wait l).
Proof.
  unfold release_readers; destruct (is_nil_spec (read_wait l)) as [->|]; [constructor|].
  intros [H _]; apply free_all_read; exact H.
Qed.

Lemma release_writers_busy l data wait : ~ idle (release_writers data wait l).
Proof.
  unfold release_writers, idle; destruct (grant_writers data wait []) as [[d w] a] eqn:G.
  apply grant_writers_spec in G as (g & -> & _ & _ & Hg); intros [_ H]; apply Hg.
  revert H; unfold release_readers; repeat case_if; cbn [write free_all_read_locks]; auto.
Qed.

Lemma wake_up_idle_stuck m l : idle l -> idle (wake_up_waiters m l) ->
  (read_wait l = [] /\ write_wait l = []) \/ stuck l.
Proof.
  intros [Er Ew]; unfold wake_up_waiters; rewrite Er, Ew; cbn [is_nil].
  destruct (write_wait l) as [|data wait] eqn:Eww.
  - intros H%release_readers_idle; left; split; [|reflexivity].
    destruct (read_wait l); [reflexivity|]; apply Forall_cons_iff in H as [[_ H] _]; discriminate.
  - unfold wake_up_idle; repeat case_if; intros H;
      try (apply release_writers_busy in H; contradiction).
    + destruct H as [H _]; apply free_all_read in H; cbn [set_write_lock_count read_wait] in *.
      destruct (read_wait l); [discriminate|apply Forall_cons_iff in H as [[_ H] _]; discriminate].
    + apply release_readers_idle in H; right; unfold stuck; rewrite Eww.
      destruct (read_wait l) as [|r rs] eqn:Erw; [discriminate|]; split; [discriminate|].
      pose proof H as H'; apply Forall_cons_iff in H' as [[_ Ha] _].
      split; [|exists data, wait; auto]; eapply Forall_impl; [|exact H]; intros ? []; assumption.
Qed.

Lemma stuck_stays m l : idle l -> stuck l -> idle (wake_up_waiters m l).
Proof.
  intros [Er Ew] (Hne & Hall & d & rest & Eww & Ha); unfold wake_up_waiters; rewrite Ew, Eww, Er.
  cbn [is_nil]; unfold wake_up_idle; destruct (read_wait l) as [|r rs] eqn:Erw; [contradiction|].
  pose proof Hall as H; apply Forall_cons_iff in H as [-> _]; cbn [tl Z.leb Z.compare].
  change (3 <=? 2) with false; cbv iota.
  rewrite Ha; unfold release_readers; rewrite Erw; cbn [is_nil].
  unfold idle, free_all_read_locks; cbn [read write]; rewrite Er, Ew; split; [|reflexivity].
  rewrite Erw; cbn [app]; rewrite (filter_ext_in _ (fun _ => false)); [apply filter_false|].
  intros x Hx; rewrite Forall_forall in Hall; unfold is_no_insert; rewrite (Hall x Hx); reflexivity.
Qed.

(** *** Order of several locks *)

Definition lock_key (i : instance) : Z := i_lock i - u32 (tl (i_type i)).

Definition key_after (a b : instance) : Prop := lock_key b <= lock_key a.

Lemma insert_lock_perm t l : Permutation (insert_lock t l) (t :: l).
Proof.
  induction l as [|p l IH]; cbn [insert_lock]; [reflexivity|]; case_if; [|reflexivity].
  rewrite IH; constructor.
Qed.

Lemma insert_lock_sorted t l : StronglySorted key_after l -> StronglySorted key_after (insert_lock t l).
Proof.
  induction 1 as [|p l Hs IH Hp]; cbn [insert_lock]; [repeat constructor|].
  unfold LOCK_CMP; fold (lock_key t) (lock_key p); destruct (Z.ltb_spec (lock_key t) (lock_key p)).
  - constructor; [exact IH|]; rewrite insert_lock_perm; constructor; [unfold key_after; lia|exact Hp].
  - constructor; [constructor; assumption|]; constructor; [unfold key_after; lia|].
    eapply Forall_impl; [|exact Hp]; unfold key_after; intros; lia.
Qed.

Lemma sort_fold data : forall acc, StronglySorted key_after acc ->
  StronglySorted key_after (fold_left (fun b t => insert_lock t b) data acc) /\
  Permutation (fold_left (fun b t => insert_lock t b) data acc) (data ++ acc).
Proof.
  induction data as [|t data IH]; intros acc Ha; cbn [fold_left app]; [split; [exact Ha|reflexivity]|].
  destruct (IH (insert_lock t acc) (insert_lock_sorted t acc Ha)) as [H1 H2]; split; [exact H1|].
  rewrite H2, insert_lock_perm; symmetry; apply Permutation_middle.
Qed.

Lemma StronglySorted_rev {A} (R : A -> A -> Prop) l :
  StronglySorted R l -> StronglySorted (fun a b => R b a) (rev l).
Proof.
  induction 1 as [|x l Hs IH Hx]; [constructor|]; cbn [rev]; apply StronglySorted_snoc; [exact IH|].
  rewrite Forall_forall in *; intros y Hy; apply Hx, in_rev; exact Hy.
Qed.

Lemma StronglySorted_weaken {A} (R R' : A -> A -> Prop) l :
  (forall a b, In a l -> In b l -> R a b -> R' a b) -> StronglySorted R l -> StronglySorted R' l.
Proof.
  intros H Hs; induction Hs as [|x l Hs IH Hx]; [constructor|]; constructor.
  - apply IH; intros a b Ha Hb; apply H; right; assumption.
  - rewrite Forall_forall in *; intros y Hy; apply H; [left; reflexivity|right; exact Hy|auto].
Qed.

(** ** Properties *)

(** When two owners may hold locks of these types on a table together. *)
Definition compatible (a b : thr_lock_type) : bool :=
  let reads t := tl t <=? tl TL_READ_NO_INSERT in
  let shared t := tl_eqb t TL_WRITE_ALLOW_WRITE || tl_eqb t TL_WRITE_ONLY in
  if reads a then negb (tl_eqb b TL_WRITE)
  else if reads b then negb (tl_eqb a TL_WRITE)
  else shared a && shared b.

Lemma reader_compatible l a b : lock_inv l -> In a (read l) -> In b (read l ++ write l) ->
  r_owner a <> r_owner b -> compatible (r_type a) (r_type b) = true.
Proof.
  intros I Ha Hb Hne; pose proof (inv_read l I) as R; rewrite Forall_forall in R.
  assert (read_type (r_type a)) as Ra by (apply R, in_app_iff; auto).
  assert ((tl (r_type a) <=? tl TL_READ_NO_INSERT) = true) as E
    by (destruct Ra as [->|[->| ->]]; reflexivity).
  unfold compatible; rewrite E; destruct (tl_eqb_spec (r_type b) TL_WRITE) as [Eb|]; [|reflexivity].
  exfalso; apply in_app_iff in Hb as [Hb|Hb].
  - specialize (R b (in_or_app _ _ _ (or_intror Hb))); rewrite Eb in R.
    destruct R as [R|[R|R]]; discriminate.
  - apply Hne, (inv_excl l I b a Hb Eb), in_app_iff; auto.
Qed.

Lemma compatible_sym a b : compatible a b = compatible b a.
Proof. destruct a, b; reflexivity. Qed.

(** C3. Table locks exclude each other: in every state the threads can bring a lock
    to, by any interleaving of lock (of the types that statements ask for),
    unlock, abort and timeout in which no owner upgrades, two different owners
    only hold locks of compatible types.  In particular an owner of TL_WRITE has
    the table to itself, and two writers are both of the kind that allows writers
    (or were made TL_WRITE_ONLY by an abort).  An owner upgrades ([upgrades]) if it
    has the first active write lock and asks for a stronger write lock than one it
    has, or, with its lock made TL_WRITE_ONLY, for a stronger one than
    TL_WRITE_ALLOW_WRITE beside another owner: it is granted everything. *)
Theorem active_locks_compatible (m : Z) (l : THR_LOCK) (a b : request) :
  reachable m false l -> In a (read l ++ write l) -> In b (read l ++ write l) ->
  r_owner a <> r_owner b -> compatible (r_type a) (r_type b) = true.
Proof.
  intros R Ha Hb Hne; pose proof (reachable_inv m false l R eq_refl) as I; apply in_app_iff in Ha as [Ha|Ha].
  - exact (reader_compatible l a b I Ha Hb Hne).
  - pose proof Hb as Hb'; apply in_app_iff in Hb' as [Hr|Hw].
    + rewrite compatible_sym; apply (reader_compatible l b a I Hr); [apply in_app_iff; auto|congruence].
    + pose proof (inv_shared l I a b Ha Hw Hne) as S; rewrite Forall_forall in S.
      destruct (S a Ha) as [-> | ->], (S b Hw) as [-> | ->]; reflexivity.
Qed.

(** Thread 1 reads, thread 2 writes beside it and allows readers. *)
Definition two_locks : THR_LOCK :=
  snd (thr_lock (mkReq 20 2 2 2 TL_WRITE_ALLOW_READ)
         (snd (thr_lock (mkReq 10 1 1 1 TL_READ) thr_lock_init))).

Lemma lock_reachable m u d l : reachable m false l -> request_ok d l -> upgrades d l = u -> reachable m u (snd (thr_lock d l)).
Proof. intros R H <-; exact (reachable_step m false _ l _ R (step_lock m d l H)). Defined.

Lemma active_locks_compatible_witness :
  reachable 10 false two_locks /\ compatible TL_READ TL_WRITE_ALLOW_READ = true.
Proof.
  assert (reachable 10 false two_locks) as H.
  { do 2 (apply lock_reachable; [|split; [exact I|cbn; intuition discriminate]|reflexivity]); apply reachable_init. }
  split; [exact H|].
  apply (active_locks_compatible 10 two_locks (mkReq 10 1 1 1 TL_READ)
           (mkReq 20 2 2 2 TL_WRITE_ALLOW_READ) H); cbn; [auto|auto|discriminate].
Defined.

(** Two owners of TL_WRITE_ALLOW_WRITE, of which the first one asks for TL_WRITE. *)
Definition upgrade_state : THR_LOCK :=
  snd (thr_lock (mkReq 30 1 1 1 TL_WRITE)
         (snd (thr_lock (mkReq 20 2 2 2 TL_WRITE_ALLOW_WRITE)
                 (snd (thr_lock (mkReq 10 1 1 1 TL_WRITE_ALLOW_WRITE) thr_lock_init))))).

(** Without the condition the locks need not be compatible. *)
Lemma upgrade_incompatible : reachable 10 true upgrade_state /\
  map (fun r => (r_owner r, r_type r)) (write upgrade_state)
  = [(1, TL_WRITE_ALLOW_WRITE); (2, TL_WRITE_ALLOW_WRITE); (1, TL_WRITE)] /\
  compatible TL_WRITE_ALLOW_WRITE TL_WRITE = false.
Proof.
  split; [|split; reflexivity].
  do 3 (apply lock_reachable; [|split; [exact I|cbn; intuition discriminate]|reflexivity]); apply reachable_init.
Qed.

(** Waking waiters loses and invents no request: the queues after
    [wake_up_waiters] hold the same lock instances, each once. *)
Theorem wake_up_keeps_requests (m : Z) (l : THR_LOCK) :
  Permutation (all_requests (wake_up_waiters m l)) (all_requests l).
Proof. apply wake_up_perm. Qed.

(** C40. Progress on release: when no lock is active, [wake_up_waiters] leaves the
    lock unused exactly if nobody waits, or if all waiting readers are
    TL_READ_NO_INSERT and the first waiting writer allows inserts (the state
    [stuck], in which the waiters stay although nobody is left to wake them). *)
Theorem wake_up_progress (m : Z) (l : THR_LOCK) : idle l ->
  (idle (wake_up_waiters m l) <-> (read_wait l = [] /\ write_wait l = []) \/ stuck l).
Proof.
  intros Hi; split; [apply wake_up_idle_stuck; exact Hi|].
  intros [[Er Ew]|Hs]; [|apply stuck_stays; assumption].
  destruct Hi as [Hr Hw]; unfold wake_up_waiters; rewrite Ew, Hw.
  unfold release_readers; rewrite Er; split; assumption.
Qed.

(** Three threads: the first holds TL_WRITE, the others wait, the first unlocks. *)
Definition lost_wakeup_state : THR_LOCK :=
  let first := mkReq 10 1 1 1 TL_WRITE in
  let l := snd (thr_lock first thr_lock_init) in
  let l := snd (thr_lock (mkReq 20 2 2 2 TL_READ_NO_INSERT) l) in
  let l := snd (thr_lock (mkReq 30 3 3 3 TL_WRITE_ALLOW_WRITE) l) in
  thr_unlock 10 first l.

(** The stuck state is reachable: after a TL_WRITE lock is released with a
    TL_READ_NO_INSERT reader and a TL_WRITE_ALLOW_WRITE writer behind it, the lock
    is unused and both still wait. *)
Lemma lost_wakeup_reachable :
  reachable 10 false lost_wakeup_state /\ idle lost_wakeup_state /\ stuck lost_wakeup_state.
Proof.
  split; [|split; [vm_compute; auto|]].
  - eapply (reachable_step 10 false false); [|apply step_unlock; vm_compute; auto].
    do 3 (apply lock_reachable; [|split; [exact I|cbn; intuition discriminate]|reflexivity]); apply reachable_init.
  - split; [discriminate|split; [repeat constructor|]]; eexists _, _; split; reflexivity.
Qed.

Lemma wake_up_progress_witness : idle (wake_up_waiters 10 lost_wakeup_state).
Proof.
  apply (wake_up_progress 10 lost_wakeup_state); [split; reflexivity|right; exact (proj2 (proj2 lost_wakeup_reachable))].
Defined.

Lemma sort_locks_spec (data : list instance) :
  (forall a b, In a data -> In b data -> i_lock a < i_lock b -> i_lock a + 16 <= i_lock b) ->
  (forall a, In a data -> i_type a <> TL_IGNORE) ->
  Permutation (sort_locks data) data /\
  StronglySorted (fun a b => i_lock a < i_lock b \/
                             i_lock a = i_lock b /\ tl (i_type b) <= tl (i_type a)) (sort_locks data).
Proof.
  intros Hfar Hty; destruct (sort_fold data [] ltac:(constructor)) as [S P]; rewrite app_nil_r in P.
  assert (Permutation (sort_locks data) data) as Pd
    by (unfold sort_locks; rewrite <- Permutation_rev; exact P).
  split; [exact Pd|]; apply StronglySorted_rev in S; revert S; apply StronglySorted_weaken.
  fold (sort_locks data); intros a b Ha Hb; apply (Permutation_in _ Pd) in Ha, Hb.
  unfold key_after, lock_key; specialize (Hfar b a Hb Ha); specialize (Hty a Ha) as Ta.
  specialize (Hty b Hb); assert (forall t, t <> TL_IGNORE -> u32 (tl t) = tl t /\ 0 <= tl t <= 9) as H
    by (intros t; destruct t; cbn; intros; (contradiction || (split; [reflexivity|lia]))).
  destruct (H _ Ta) as [-> ?], (H _ Hty) as [-> ?]; lia.
Qed.

(** So the requests of one call of [thr_multi_lock] do not upgrade each other: on one
    lock no type is stronger than the ones before it. *)
Lemma sort_locks_no_upgrade (data : list instance) :
  (forall a b, In a data -> In b data -> i_lock a < i_lock b -> i_lock a + 16 <= i_lock b) ->
  (forall a, In a data -> requestable (i_type a)) ->
  StronglySorted (fun a b => i_lock a = i_lock b -> tl (write_as (i_type b)) <= tl (write_as (i_type a))) (sort_locks data).
Proof.
  intros Hfar Hty; destruct (sort_locks_spec data Hfar) as [P S]; [intros a Ha E; specialize (Hty a Ha); rewrite E in Hty; exact Hty|].
  revert S; apply StronglySorted_weaken; intros a b Ha Hb; apply (Permutation_in _ P) in Ha, Hb.
  specialize (Hty a Ha) as Ta; specialize (Hty b Hb); intros [H|[_ H]] E; [lia|].
  destruct (i_type a), (i_type b); cbn in *; (contradiction || lia).
Qed.

(** C34. [sort_locks] gives every thread the same order: its result is a permutation
    of the instances, ascending in the address of the lock and, on one lock,
    strongest type first (writes before reads), provided lock structures are at
    least 16 bytes apart and no instance is TL_IGNORE. *)
Theorem sort_locks_order (data : list instance) :
  (forall a b, In a data -> In b data -> i_lock a < i_lock b -> i_lock a + 16 <= i_lock b) ->
  (forall a, In a data -> i_type a <> TL_IGNORE) ->
  Permutation (sort_locks data) data /\
  StronglySorted (fun a b => i_lock a < i_lock b \/
                             i_lock a = i_lock b /\ tl (i_type b) <= tl (i_type a)) (sort_locks data).
Proof. apply sort_locks_spec. Qed.

Lemma sort_locks_order_witness :
  let data := [mkInst 320 1 TL_READ; mkInst 160 2 TL_READ; mkInst 320 3 TL_WRITE] in
  sort_locks data = [mkInst 160 2 TL_READ; mkInst 320 3 TL_WRITE; mkInst 320 1 TL_READ] /\
  Permutation (sort_locks data) data.
Proof.
  intros data; split; [reflexivity|]; apply (sort_locks_order data).
  - intros a b Ha Hb; cbn in Ha, Hb; intuition subst; cbn in *; lia.
  - intros a Ha; cbn in Ha; intuition subst; discriminate.
Defined.
