(* ===== verification/RbTree.v ===== *)
(** The red-black tree of [src/drizzled/tree.cc] and [tree.h].

    A node is a value and the stack [parents] of pointers to links is a zipper:
    the frames from the parent of the current element up to the root.  A
    rotation or a recolouring then is a new value in the place of the element.
    [None] stands for an access outside of the tree or of [parents].

    The keys are any type with the caller's [compare], whose laws are the class
    [KeyOrder]; how a key is stored behind a node (inline or through a pointer)
    is not modelled beyond the sizes it allocates. *)

From Stdlib Require Import ZArith Lia ZifyBool List Bool Sorted Permutation.
From S2P Require Import Prelude.
Import ListNotations.
Local Open Scope Z_scope.

(** What the tree needs of [compare]: the sign orders the keys. *)
Class KeyOrder {K : Type} (compare : K -> K -> Z) : Prop := {
  compare_flip : forall a b, compare a b < 0 <-> 0 < compare b a;
  compare_trans : forall a b c, compare a b < 0 -> compare b c <= 0 -> compare a c < 0 }.

(** ** Model *)

(** src/drizzled/tree.cc:62-63 BLACK *)
Inductive colour : Type := RED | BLACK.

(** src/drizzled/tree.h:39-45 Tree_Element *)
Inductive node (K : Type) : Type :=
| null_element
| Tree_Element (c : colour) (left : node K) (key : K) (count : Z) (right : node K).
Arguments null_element {K}.
Arguments Tree_Element {K} c left key count right.

Inductive side : Type := Left | Right.

(** A node without the child the path goes through. *)
Record frame (K : Type) : Type := Frame {
  f_side : side;            (* which child is left out *)
  f_colour : colour;
  f_key : K;
  f_count : Z;
  f_other : node K }.
Arguments Frame {K}.
Arguments f_side {K}.
Arguments f_colour {K}.
Arguments f_key {K}.
Arguments f_count {K}.
Arguments f_other {K}.

Section Nodes.
Context {K : Type}.

Definition fill (f : frame K) (child : node K) : node K :=
  match f_side f with
  | Left => Tree_Element (f_colour f) child (f_key f) (f_count f) (f_other f)
  | Right => Tree_Element (f_colour f) (f_other f) (f_key f) (f_count f) child
  end.

(** The whole tree, with [element] at the end of the path. *)
Fixpoint plug (parents : list (frame K)) (element : node K) : node K :=
  match parents with
  | [] => element
  | f :: rest => plug rest (fill f element)
  end.

(** The null element is black ([init_tree], line 90). *)
Definition colour_of (t : node K) : colour :=
  match t with null_element => BLACK | Tree_Element c _ _ _ _ => c end.

Definition paint (c : colour) (t : node K) : node K :=
  match t with null_element => null_element | Tree_Element _ l k n r => Tree_Element c l k n r end.

(** src/drizzled/tree.cc:292-300 Tree::left_rotate *)
Definition left_rotate (element : node K) : option (node K) :=
  match element with
  | Tree_Element c l k n (Tree_Element yc yl yk yn yr) =>
      Some (Tree_Element yc (Tree_Element c l k n yl) yk yn yr)
  | _ => None
  end.

(** src/drizzled/tree.cc:302-310 Tree::right_rotate *)
Definition right_rotate (element : node K) : option (node K) :=
  match element with
  | Tree_Element c (Tree_Element xc xl xk xn xr) k n r =>
      Some (Tree_Element xc xl xk xn (Tree_Element c xr k n r))
  | _ => None
  end.

Definition is_red (t : node K) : bool := match colour_of t with RED => true | BLACK => false end.

(** src/drizzled/tree.cc:330-341 Tree::rb_insert

    The rotations when [y] is black; lines 354-365 are the mirror image. *)
Definition rb_rotate (par par2 : frame K) (element : node K) : option (node K) :=
  let par_node := fill par element in
  match f_side par2 with
  | Left =>
      match (match f_side par with Right => left_rotate par_node | Left => Some par_node end) with
      | Some p => right_rotate (paint RED (fill par2 (paint BLACK p)))
      | None => None
      end
  | Right =>
      match (match f_side par with Left => right_rotate par_node | Right => Some par_node end) with
      | Some p => left_rotate (paint RED (fill par2 (paint BLACK p)))
      | None => None
      end
  end.

(** src/drizzled/tree.cc:317-367 Tree::rb_insert

    The loop.  A red root has no [parent[-2]]. *)
Fixpoint rb_loop (parents : list (frame K)) (element : node K) : option (node K) :=
  match parents with
  | [] => Some element
  | par :: rest =>
      match f_colour par with
      | BLACK => Some (plug parents element)
      | RED =>
          match rest with
          | [] => None
          | par2 :: rest' =>
              if is_red (f_other par2)
              then rb_loop rest'
                     (paint RED (fill (Frame (f_side par2) (f_colour par2) (f_key par2) (f_count par2)
                                         (paint BLACK (f_other par2)))
                                      (paint BLACK (fill par element))))
              else option_map (plug rest') (rb_rotate par par2 element)
          end
      end
  end.

(** src/drizzled/tree.cc:312-369 Tree::rb_insert *)
Definition rb_insert (parents : list (frame K)) (element : node K) : option (node K) :=
  option_map (paint BLACK) (rb_loop parents (paint RED element)).

End Nodes.

(** src/drizzled/tree.h:27-28 MAX_TREE_HEIGHT *)
Definition MAX_TREE_HEIGHT : Z := 64.
(** src/drizzled/tree.h:30-30 TREE_NO_DUPS *)
Definition TREE_NO_DUPS : Z := 1.

Definition sizeof_Tree_Element : Z := 24.
Definition sizeof_pointer : Z := 8.

(** src/drizzled/tree.h:54-67 Tree

    [mem_block] and [mem_min] are the sizes given to the memory root, which is
    only used when the elements are not deleted one by one. *)
Record Tree (K : Type) : Type := mkTree {
  root : node K;
  offset_to_key : Z;
  elements_in_tree : Z;
  size_of_element : Z;
  memory_limit : Z;
  allocated : Z;
  with_delete : bool;
  free : bool;              (* there is a free callback *)
  flag : Z;
  mem_block : Z;
  mem_min : Z }.
Arguments mkTree {K}.
Arguments root {K}.
Arguments offset_to_key {K}.
Arguments elements_in_tree {K}.
Arguments size_of_element {K}.
Arguments memory_limit {K}.
Arguments allocated {K}.
Arguments with_delete {K}.
Arguments free {K}.
Arguments flag {K}.
Arguments mem_block {K}.
Arguments mem_min {K}.

(** src/drizzled/definitions.h:489-489 MY_ALIGN *)
Definition MY_ALIGN (A L : Z) : Z := Z.land (u64 (A + L - 1)) (u64 (Z.lnot (L - 1))).

Section Operations.
Context {K : Type}.
Variable compare : K -> K -> Z.

(** src/drizzled/tree.cc:75-119 Tree::init_tree *)
Definition init_tree (default_alloc_size mem_limit size : Z) (free_with_tree free_callback : bool)
  : Tree K :=
  let default_alloc_size := if default_alloc_size <? 8192 then 8192 else default_alloc_size in
  let default_alloc_size := MY_ALIGN default_alloc_size 8192 in
  let inline := negb free_callback
                && ((size <=? sizeof_pointer) || negb (Z.land size (sizeof_pointer - 1) =? 0)) in
  let item := sizeof_Tree_Element + size in
  let default_alloc_size :=
    if inline
    then u64 ((if default_alloc_size / item =? 0 then 1 else default_alloc_size / item) * item)
    else default_alloc_size in
  let size_of_element := if inline then size else u32 (size + sizeof_pointer) in
  mkTree null_element (if inline then sizeof_Tree_Element else 0) 0 size_of_element mem_limit 0
    free_with_tree free_callback 0
    (if free_with_tree then 0 else default_alloc_size)
    (if free_with_tree then 0 else sizeof_Tree_Element + size_of_element).

(** src/drizzled/tree.h:35-36 tree_element_free

    The calls of the callback. *)
Inductive free_call : Type := free_init | free_free (k : K) | free_end.

(** src/drizzled/tree.cc:247-258 Tree::delete_tree_element *)
Fixpoint delete_tree_element (element : node K) (has_free : bool) : list free_call :=
  match element with
  | null_element => []
  | Tree_Element _ l k _ r =>
      delete_tree_element l has_free ++ (if has_free then [free_free k] else [])
      ++ delete_tree_element r has_free
  end.

(** src/drizzled/tree.cc:217-239 Tree::free_tree *)
Definition free_tree (t : Tree K) : list free_call * Tree K :=
  let calls :=
    if with_delete t then delete_tree_element (root t) (free t)
    else if free t then
      (if negb (memory_limit t =? 0) then [free_init] else [])
      ++ delete_tree_element (root t) true
      ++ (if negb (memory_limit t =? 0) then [free_end] else [])
    else [] in
  (calls, mkTree null_element (offset_to_key t) 0 (size_of_element t) (memory_limit t) 0
            (with_delete t) (free t) (flag t) (mem_block t) (mem_min t)).

(** src/drizzled/tree.cc:121-130 Tree::reset_tree

    And [delete_tree]: they differ in what the memory root does. *)
Definition reset_tree (t : Tree K) : list free_call * Tree K := free_tree t.

(** src/drizzled/tree.cc:137-152 Tree::tree_insert

    The search: the element with the key, or the null element, and the frames
    above it.  [used] entries of [parents] are in use. *)
Fixpoint descend (key : K) (element : node K) (parents : list (frame K)) (used : Z)
  : option (node K * list (frame K)) :=
  if used >? MAX_TREE_HEIGHT then None
  else
    match element with
    | null_element => Some (null_element, parents)
    | Tree_Element c l k n r =>
        let cmp := compare k key in
        if cmp =? 0 then Some (element, parents)
        else if cmp <? 0 then descend key r (Frame Right c k n l :: parents) (used + 1)
        else descend key l (Frame Left c k n r :: parents) (used + 1)
    end.

(** src/drizzled/tree.cc:190-195 Tree::tree_insert

    The count has 31 bits and does not wrap. *)
Definition incr_count (n : Z) : Z :=
  let n := (n + 1) mod 2147483648 in if n =? 0 then 2147483647 else n.

(** The value returned: the element's count, [None] for the null pointer. *)
Definition insert_result : Type := (option Z * list free_call * Tree K)%type.

Definition with_root (t : Tree K) (r : node K) (elements alloc : Z) : Tree K :=
  mkTree r (offset_to_key t) elements (size_of_element t) (memory_limit t) alloc
    (with_delete t) (free t) (flag t) (mem_block t) (mem_min t).

(** src/drizzled/tree.cc:132-199 Tree::tree_insert

    [retries] bounds the recursion after a reset, which happens at most once. *)
Fixpoint tree_insert (retries : nat) (key : K) (key_size : Z) (t : Tree K) : option insert_result :=
  match descend key (root t) [] 1 with
  | None => None
  | Some (Tree_Element c l k n r, parents) =>
      if negb (Z.land (flag t) TREE_NO_DUPS =? 0) then Some (None, [], t)
      else
        let n := incr_count n in
        Some (Some n, [],
              with_root t (plug parents (Tree_Element c l k n r)) (elements_in_tree t) (allocated t))
  | Some (null_element, parents) =>
      let alloc := u64 (allocated t + u64 (sizeof_Tree_Element + key_size + size_of_element t)) in
      if negb (memory_limit t =? 0) && negb (elements_in_tree t =? 0) && (alloc >? memory_limit t)
      then
        match retries with
        | O => None
        | S retries' =>
            let '(calls, t) := reset_tree (with_root t (root t) (elements_in_tree t) alloc) in
            match tree_insert retries' key key_size t with
            | Some (res, calls', t) => Some (res, calls ++ calls', t)
            | None => None
            end
        end
      else
        match rb_insert parents (Tree_Element RED null_element key 1 null_element) with
        | Some r => Some (Some 1, [], with_root t r (u32 (elements_in_tree t + 1)) alloc)
        | None => None
        end
  end.

Section Walk.
Context {A : Type}.
Variable action : K -> Z -> A -> Z * A.

(** src/drizzled/tree.cc:260-273 Tree::tree_walk_left_root_right

    The error of the action and the state it works on. *)
Fixpoint tree_walk_left_root_right (element : node K) (arg : A) : Z * A :=
  match element with
  | null_element => (0, arg)
  | Tree_Element _ l k n r =>
      let '(error, arg) := tree_walk_left_root_right l arg in
      if error =? 0 then
        let '(error, arg) := action k n arg in
        if error =? 0 then tree_walk_left_root_right r arg else (error, arg)
      else (error, arg)
  end.

(** src/drizzled/tree.cc:275-290 Tree::tree_walk_right_root_left *)
Fixpoint tree_walk_right_root_left (element : node K) (arg : A) : Z * A :=
  match element with
  | null_element => (0, arg)
  | Tree_Element _ l k n r =>
      let '(error, arg) := tree_walk_right_root_left r arg in
      if error =? 0 then
        let '(error, arg) := action k n arg in
        if error =? 0 then tree_walk_right_root_left l arg else (error, arg)
      else (error, arg)
  end.

(** src/drizzled/tree.cc:201-211 Tree::tree_walk *)
Definition tree_walk (t : Tree K) (visit : side) (arg : A) : Z * A :=
  match visit with
  | Left => tree_walk_left_root_right (root t) arg
  | Right => tree_walk_right_root_left (root t) arg
  end.

End Walk.

End Operations.

(** ** Specification

    The contents: keys and counts in ascending order. *)

Section Contents.
Context {K : Type}.

Fixpoint elements (t : node K) : list (K * Z) :=
  match t with
  | null_element => []
  | Tree_Element _ l k n r => elements l ++ (k, n) :: elements r
  end.

(** What inserting a key does to the contents. *)
Fixpoint insert_key (compare : K -> K -> Z) (key : K) (l : list (K * Z)) : list (K * Z) :=
  match l with
  | [] => [(key, 1)]
  | (k, n) :: rest =>
      if compare k key <? 0 then (k, n) :: insert_key compare key rest
      else if compare k key =? 0 then (k, incr_count n) :: rest
      else (key, 1) :: l
  end.

(** The count of a key. *)
Fixpoint lookup_key (compare : K -> K -> Z) (key : K) (l : list (K * Z)) : option Z :=
  match l with
  | [] => None
  | (k, n) :: rest =>
      if compare k key <? 0 then lookup_key compare key rest
      else if compare k key =? 0 then Some n else None
  end.

Definition before (compare : K -> K -> Z) (a b : K * Z) : Prop := compare (fst a) (fst b) < 0.

(** Black height, and no red node below a red node. *)
Inductive rbt : nat -> node K -> Prop :=
| rbt_null : rbt 0 null_element
| rbt_red h l k n r : rbt h l -> rbt h r -> colour_of l = BLACK -> colour_of r = BLACK ->
    rbt h (Tree_Element RED l k n r)
| rbt_black h l k n r : rbt h l -> rbt h r -> rbt (S h) (Tree_Element BLACK l k n r).

Definition head_black (p : list (frame K)) : Prop :=
  match p with f :: _ => f_colour f = BLACK | [] => False end.

(** The same for a path around a subtree of black height [h]. *)
Inductive rb_ctx : nat -> list (frame K) -> Prop :=
| ctx_nil h : rb_ctx h []
| ctx_black h s k n o p : rbt h o -> rb_ctx (S h) p -> rb_ctx h (Frame s BLACK k n o :: p)
| ctx_red h s k n o p : rbt h o -> colour_of o = BLACK -> rb_ctx h p -> head_black p ->
    rb_ctx h (Frame s RED k n o :: p).

(** ** Lemmas *)

(** What is before and after the hole of a path. *)
Fixpoint path_left (p : list (frame K)) : list (K * Z) :=
  match p with
  | [] => []
  | f :: rest => path_left rest ++
      match f_side f with Left => [] | Right => elements (f_other f) ++ [(f_key f, f_count f)] end
  end.

Fixpoint path_right (p : list (frame K)) : list (K * Z) :=
  match p with
  | [] => []
  | f :: rest =>
      match f_side f with Left => (f_key f, f_count f) :: elements (f_other f) | Right => [] end
      ++ path_right rest
  end.

Lemma elements_plug p : forall t, elements (plug p t) = path_left p ++ elements t ++ path_right p.
Proof.
  induction p as [|f p IH]; intros t; cbn [plug path_left path_right];
    [cbn; rewrite app_nil_r; reflexivity|].
  rewrite IH; unfold fill; destruct (f_side f); cbn [elements];
  rewrite ?app_nil_r, <- !app_assoc; reflexivity.
Qed.

Lemma elements_paint c t : elements (paint c t) = elements t.
Proof. destruct t; reflexivity. Qed.

Lemma rb_rotate_elements par par2 e t : rb_rotate par par2 e = Some t ->
  elements t = elements (fill par2 (fill par e)).
Proof.
  destruct par as [[] ? ? ? ?], par2 as [[] ? ? ? ?]; unfold rb_rotate, fill; cbn [f_side f_colour
    f_key f_count f_other paint left_rotate right_rotate]; intros E;
  try (destruct e; [discriminate|]; cbn in E); injection E as <-;
  cbn [elements]; rewrite <- ?app_assoc; cbn [app]; rewrite <- ?app_assoc; reflexivity.
Qed.

(** Two frames at a time. *)
Lemma path_ind2 (P : list (frame K) -> Prop) : P [] -> (forall f, P [f]) ->
  (forall f g p, P p -> P (f :: g :: p)) -> forall p, P p.
Proof.
  intros H0 H1 H2; fix IH 1; intros [|f [|g p]]; [exact H0|apply H1|apply H2, IH].
Qed.

Lemma rb_loop_elements p : forall e t, rb_loop p e = Some t -> elements t = elements (plug p e).
Proof.
  induction p as [|f|f g p IH] using path_ind2; intros e t; cbn [rb_loop].
  - intros E; injection E as <-; reflexivity.
  - destruct (f_colour f); intros E; [discriminate|injection E as <-; reflexivity].
  - destruct (f_colour f); [|intros E; injection E as <-; reflexivity].
    destruct (is_red (f_other g)).
    + intros E%IH; rewrite E; cbn [plug]; rewrite !elements_plug; do 2 f_equal.
      rewrite elements_paint; destruct g as [[] ? ? ? ?]; unfold fill at 1 3; cbn [f_side f_colour
        f_key f_count f_other elements]; rewrite !elements_paint; reflexivity.
    + destruct (rb_rotate f g e) as [x|] eqn:R; [|discriminate]; intros E; injection E as <-.
      cbn [plug]; rewrite !elements_plug, (rb_rotate_elements _ _ _ _ R); reflexivity.
Qed.

Lemma rb_insert_elements p e t : rb_insert p e = Some t -> elements t = elements (plug p e).
Proof.
  unfold rb_insert; destruct (rb_loop p (paint RED e)) as [x|] eqn:R; [|discriminate].
  intros E; injection E as <-; rewrite elements_paint, (rb_loop_elements _ _ _ R), !elements_plug.
  rewrite elements_paint; reflexivity.
Qed.

(** *** Balance *)

Lemma colour_cases (t : node K) : colour_of t = RED \/ colour_of t = BLACK.
Proof. destruct (colour_of t); auto. Qed.

Lemma rbt_paint_black h t : rbt h t -> exists h', rbt h' (paint BLACK t).
Proof.
  destruct 1 as [|h l k n r Hl Hr _ _|h l k n r Hl Hr];
    [exists O|exists (S h)|exists (S h)]; constructor; assumption.
Qed.

Lemma rbt_fill h s c k n o t : rbt h t -> rbt h o -> (c = RED -> colour_of t = BLACK) ->
  (c = RED -> colour_of o = BLACK) -> rbt (match c with RED => h | BLACK => S h end) (fill (Frame s c k n o) t).
Proof.
  intros Ht Ho Ct Co; destruct c, s; cbn; constructor; auto.
Qed.

Lemma plug_rbt p : forall h t, rb_ctx h p -> rbt h t -> (colour_of t = RED -> head_black p) ->
  exists h', rbt h' (plug p t).
Proof.
  induction p as [|f p IH]; intros h t Hc Ht Hb; [exists h; exact Ht|]; cbn [plug].
  inversion Hc; subst.
  - apply (IH (S h)); [assumption|apply (rbt_fill h _ BLACK); auto; discriminate|].
    unfold fill; cbn [f_side f_colour]; destruct s; discriminate.
  - apply (IH h); [assumption|apply (rbt_fill h _ RED); auto|auto].
    intros _; destruct (colour_cases t) as [E|E]; [|exact E]; discriminate (Hb E).
Qed.

Lemma rb_rotate_rbt h par par2 e : f_colour par2 = BLACK -> f_colour par = RED ->
  rbt h e -> colour_of e = RED ->
  rbt h (f_other par) -> colour_of (f_other par) = BLACK ->
  rbt h (f_other par2) -> colour_of (f_other par2) = BLACK ->
  exists t, rb_rotate par par2 e = Some t /\ rbt (S h) t /\ colour_of t = BLACK.
Proof.
  destruct par as [sp cp kp np op], par2 as [s2 c2 k2 n2 o2]; cbn [f_colour f_other].
  intros -> -> He Ce Ho Co Ho2 Co2; inversion He; subst; try discriminate.
  destruct sp, s2; unfold rb_rotate, fill; cbn; eexists; (split; [reflexivity|split; [|reflexivity]]);
  repeat constructor; assumption.
Qed.

Lemma rb_loop_rbt p : forall h e, rb_ctx h p -> rbt h e -> colour_of e = RED ->
  exists t h', rb_loop p e = Some t /\ rbt h' (paint BLACK t).
Proof.
  induction p as [|f|f g p IH] using path_ind2; intros h e Hc He Ce; cbn [rb_loop].
  - destruct (rbt_paint_black h e He) as [h' H]; exists e, h'; auto.
  - inversion Hc as [|? s k n o q Ho Hq|? s k n o q Ho Co Hq Hh]; subst; cbn [f_colour];
      [|contradiction].
    destruct (plug_rbt _ h e Hc He (fun _ => eq_refl)) as [h1 H1].
    destruct (rbt_paint_black h1 _ H1) as [h2 H2]; eexists _, h2; split; [reflexivity|exact H2].
  - inversion Hc as [|? s k n o q Ho Hq|? s k n o q Ho Co Hq Hh]; subst; cbn [f_colour].
    + destruct (plug_rbt _ h e Hc He (fun _ => eq_refl)) as [h1 H1].
      destruct (rbt_paint_black h1 _ H1) as [h2 H2]; eexists _, h2; split; [reflexivity|exact H2].
    + cbn in Hh; inversion Hq as [|? s2 k2 n2 o2 q2 Ho2 Hq2|]; subst; [|discriminate].
      cbn [f_other f_side f_key f_count f_colour].
      unfold is_red; destruct (colour_cases o2) as [C2|C2]; rewrite C2.
      * apply (IH (S h)); [exact Hq2| |destruct s2; reflexivity].
        inversion Ho2; subst; try discriminate; inversion He; subst; try discriminate.
        destruct s, s2; cbn; repeat constructor; assumption.
      * destruct (rb_rotate_rbt h (Frame s RED k n o) (Frame s2 BLACK k2 n2 o2) e)
          as (t & -> & Ht & Ct); try reflexivity; try assumption.
        destruct (plug_rbt p (S h) t Hq2 Ht) as [h1 H1]; [congruence|].
        destruct (rbt_paint_black h1 _ H1) as [h2 H2]; exists (plug p t), h2; auto.
Qed.

Lemma rb_insert_rbt p k : rb_ctx 0 p ->
  exists t h, rb_insert p (Tree_Element RED null_element k 1 null_element) = Some t /\
  rbt h t /\ colour_of t = BLACK.
Proof.
  intros Hc; destruct (rb_loop_rbt p 0 (Tree_Element RED null_element k 1 null_element) Hc)
    as (t & h & E & Ht); [repeat constructor|reflexivity|].
  unfold rb_insert; cbn [paint]; rewrite E; exists (paint BLACK t), h; repeat split; [exact Ht|].
  destruct t; reflexivity.
Qed.

(** *** Height *)

Fixpoint height (t : node K) : Z :=
  match t with null_element => 0 | Tree_Element _ l _ _ r => 1 + Z.max (height l) (height r) end.

Lemma height_nonneg t : 0 <= height t.
Proof. induction t; cbn [height]; lia. Qed.

Lemma rbt_height h t : rbt h t ->
  height t <= 2 * Z.of_nat h + match colour_of t with RED => 1 | BLACK => 0 end.
Proof.
  induction 1 as [|h l k n r Hl IHl Hr IHr Cl Cr|h l k n r Hl IHl Hr IHr]; cbn [height colour_of].
  - lia.
  - rewrite Cl in IHl; rewrite Cr in IHr; lia.
  - destruct (colour_of l), (colour_of r); lia.
Qed.

Lemma rbt_size h t : rbt h t -> 2 ^ Z.of_nat h <= Z.of_nat (length (elements t)) + 1.
Proof.
  induction 1 as [|h l k n r Hl IHl Hr IHr Cl Cr|h l k n r Hl IHl Hr IHr]; cbn [elements].
  - cbn; lia.
  - rewrite length_app; cbn [length]; lia.
  - rewrite length_app, Nat2Z.inj_succ, Z.pow_succ_r by lia; cbn [length]; lia.
Qed.

Lemma tree_height h t : rbt h t -> colour_of t = BLACK ->
  Z.of_nat (length (elements t)) < 4294967295 -> height t < MAX_TREE_HEIGHT.
Proof.
  intros H C L; pose proof (rbt_height h t H) as Hh; pose proof (rbt_size h t H) as Hs.
  rewrite C in Hh; unfold MAX_TREE_HEIGHT.
  assert (Z.of_nat h < 32); [|lia]; destruct (Z.lt_ge_cases (Z.of_nat h) 32) as [|G]; [assumption|].
  apply (Z.pow_le_mono_r 2) in G; [|lia]; change (2 ^ 32) with 4294967296 in G; lia.
Qed.

(** *** Search *)

Section Search.
Variable compare : K -> K -> Z.
Context {KO : KeyOrder compare}.

Lemma insert_key_left k l e n r : compare e k < 0 -> Forall (fun x => compare (fst x) k < 0) l ->
  insert_key compare k (l ++ (e, n) :: r) = l ++ (e, n) :: insert_key compare k r.
Proof.
  intros He; induction 1 as [|[x m] l Hx _ IH]; cbn [app insert_key fst] in *.
  - apply Z.ltb_lt in He; rewrite He; reflexivity.
  - apply Z.ltb_lt in Hx; rewrite Hx, IH; reflexivity.
Qed.

Lemma insert_key_here k l e n r : compare e k = 0 -> Forall (fun x => compare (fst x) k < 0) l ->
  insert_key compare k (l ++ (e, n) :: r) = l ++ (e, incr_count n) :: r.
Proof.
  intros He; induction 1 as [|[x m] l Hx _ IH]; cbn [app insert_key fst] in *.
  - rewrite He; reflexivity.
  - apply Z.ltb_lt in Hx; rewrite Hx, IH; reflexivity.
Qed.

Lemma insert_key_right k l e n r : 0 < compare e k ->
  insert_key compare k (l ++ (e, n) :: r) = insert_key compare k l ++ (e, n) :: r.
Proof.
  intros He; induction l as [|[x m] l IH]; cbn [app insert_key].
  - replace (compare e k <? 0) with false by lia; replace (compare e k =? 0) with false by lia.
    reflexivity.
  - rewrite IH; repeat case_if; reflexivity.
Qed.

Lemma lookup_key_app k l e n r : Forall (fun x => compare (fst x) k < 0) l ->
  lookup_key compare k (l ++ (e, n) :: r) = lookup_key compare k ((e, n) :: r).
Proof.
  induction 1 as [|[x m] l Hx _ IH]; cbn [app]; [reflexivity|]; cbn [fst] in Hx.
  cbn [lookup_key]; apply Z.ltb_lt in Hx; rewrite Hx; exact IH.
Qed.

Lemma lookup_key_right k l e n r : 0 < compare e k ->
  lookup_key compare k (l ++ (e, n) :: r) = lookup_key compare k l.
Proof.
  intros He; induction l as [|[x m] l IH]; cbn [app lookup_key].
  - replace (compare e k <? 0) with false by lia; replace (compare e k =? 0) with false by lia.
    reflexivity.
  - rewrite IH; repeat case_if; reflexivity.
Qed.

Lemma sorted_app (R : K * Z -> K * Z -> Prop) a b : StronglySorted R (a ++ b) ->
  StronglySorted R a /\ StronglySorted R b /\ Forall (fun x => Forall (R x) b) a.
Proof.
  induction a as [|x a IH]; cbn [app]; intros H; [repeat split; [constructor|exact H|constructor]|].
  apply StronglySorted_inv in H as [H Hx]; destruct (IH H) as (H1 & H2 & H3).
  apply Forall_app in Hx as [Hxa Hxb]; repeat split; [constructor; assumption|exact H2|].
  constructor; assumption.
Qed.

(** The element after the insertion, before the tree is rebalanced. *)
Definition put (k : K) (e : node K) : node K :=
  match e with
  | null_element => Tree_Element RED null_element k 1 null_element
  | Tree_Element c l key n r => Tree_Element c l key (incr_count n) r
  end.

Lemma before_left k e n l r : compare e k <= 0 ->
  StronglySorted (before compare) (l ++ (e, n) :: r) -> Forall (fun x => compare (fst x) k < 0) l.
Proof.
  intros He H; apply sorted_app in H as (_ & _ & H); eapply Forall_impl; [|exact H].
  intros x Hx; apply Forall_cons_iff in Hx as [Hx _]; exact (compare_trans _ _ _ Hx He).
Qed.

Lemma descend_spec k t : forall p used h, StronglySorted (before compare) (elements t) ->
  rbt h t -> rb_ctx h p -> (colour_of t = RED -> head_black p) -> used + height t <= MAX_TREE_HEIGHT ->
  exists e p' h', descend compare k t p used = Some (e, p') /\ plug p' e = plug p t /\
  rb_ctx h' p' /\ rbt h' e /\ (colour_of e = RED -> head_black p') /\
  lookup_key compare k (elements t)
    = match e with null_element => None | Tree_Element _ _ _ n _ => Some n end /\
  elements (plug p' (put k e)) = path_left p ++ insert_key compare k (elements t) ++ path_right p.
Proof.
  induction t as [|c l IHl key n r IHr]; intros p used h Hs Ht Hc Hh Hu; cbn [descend].
  all: cbn [height] in Hu.
  - replace (used >? MAX_TREE_HEIGHT) with false by lia; exists null_element, p, h; repeat split; try assumption; rewrite elements_plug; reflexivity.
  - pose proof (height_nonneg l); replace (used >? MAX_TREE_HEIGHT) with false by lia.
    cbn [elements] in Hs.
    assert (rb_ctx (match c with RED => h | BLACK => pred h end) (Frame Right c key n l :: p) /\
            rb_ctx (match c with RED => h | BLACK => pred h end) (Frame Left c key n r :: p) /\
            rbt (match c with RED => h | BLACK => pred h end) l /\
            rbt (match c with RED => h | BLACK => pred h end) r /\
            (c = RED -> colour_of l = BLACK /\ colour_of r = BLACK)) as (HcR & HcL & Hl & Hr & Hcol).
    { inversion Ht; subst; cbn [pred]; (repeat split; try assumption; try discriminate);
        constructor; auto. }
    pose proof (sorted_app _ _ _ Hs) as (Sl & Sr & _); apply StronglySorted_inv in Sr as [Sr _].
    destruct (Z.eqb_spec (compare key k) 0) as [E|E]; [|destruct (Z.ltb_spec (compare key k) 0)].
    + pose proof (before_left k key n (elements l) (elements r) ltac:(lia) Hs) as Hb.
      exists (Tree_Element c l key n r), p, h; repeat split; try assumption.
      * cbn [elements]; rewrite lookup_key_app by exact Hb; cbn [lookup_key]; rewrite E; reflexivity.
      * rewrite elements_plug; cbn [put elements]; rewrite insert_key_here; auto.
    + pose proof (before_left k key n (elements l) (elements r) ltac:(lia) Hs) as Hb.
      destruct (IHr (Frame Right c key n l :: p) (used + 1) _ Sr Hr HcR)
        as (e & p' & h' & D & P & C & R & B & Lk & El);
        [intros Cr; destruct c; [destruct (Hcol eq_refl); congruence|reflexivity]|lia|].
      exists e, p', h'; repeat split; try assumption; cbn [elements].
      * rewrite lookup_key_app by exact Hb; cbn [lookup_key]; rewrite <- Lk.
        apply Z.ltb_lt in H0; rewrite H0; reflexivity.
      * rewrite El; cbn [path_left path_right f_side f_other f_key f_count app].
        rewrite insert_key_left, <- !app_assoc by assumption; reflexivity.
    + destruct (IHl (Frame Left c key n r :: p) (used + 1) _ Sl Hl HcL)
        as (e & p' & h' & D & P & C & R & B & Lk & El);
        [intros Cl; destruct c; [destruct (Hcol eq_refl); congruence|reflexivity]|lia|].
      exists e, p', h'; repeat split; try assumption; cbn [elements].
      * rewrite lookup_key_right by lia; exact Lk.
      * rewrite El; cbn [path_left path_right f_side f_other f_key f_count app].
        rewrite insert_key_right by lia; rewrite app_nil_r, <- !app_assoc; reflexivity.
Qed.

(** *** The contents after an insertion *)

Lemma insert_key_forall (P : K * Z -> Prop) k l : Forall P l -> P (k, 1) ->
  (forall x n, P (x, n) -> P (x, incr_count n)) -> Forall P (insert_key compare k l).
Proof.
  intros Hl Hk Hi; induction Hl as [|[x n] l Hx Hl IH]; cbn [insert_key];
    [apply Forall_cons; auto|].
  repeat case_if; repeat apply Forall_cons; auto.
Qed.

Lemma insert_key_sorted k l : StronglySorted (before compare) l ->
  StronglySorted (before compare) (insert_key compare k l).
Proof.
  induction 1 as [|[x n] l Hs IH Hx]; cbn [insert_key]; [repeat constructor|].
  destruct (Z.ltb_spec (compare x k) 0); [|destruct (Z.eqb_spec (compare x k) 0)].
  - constructor; [exact IH|]; apply insert_key_forall; [exact Hx|assumption|].
    intros y m Hy; exact Hy.
  - constructor; [exact Hs|exact Hx].
  - assert (compare k x < 0) as Hkx by (apply compare_flip; lia).
    constructor; [constructor; assumption|]; constructor; [exact Hkx|].
    eapply Forall_impl; [|exact Hx]; unfold before; cbn [fst]; intros y Hy.
    apply (compare_trans _ _ _ Hkx); lia.
Qed.

Lemma insert_key_length k l : length (insert_key compare k l) =
  match lookup_key compare k l with Some _ => length l | None => S (length l) end.
Proof.
  induction l as [|[x n] l IH]; cbn [insert_key lookup_key]; [reflexivity|].
  repeat case_if; cbn [length]; [|reflexivity..]; rewrite IH; destruct (lookup_key _ _ _); reflexivity.
Qed.

End Search.
End Contents.

Lemma incr_count_range n : 1 <= n <= 2147483647 -> 1 <= incr_count n <= 2147483647.
Proof.
  intros H; unfold incr_count; destruct (Z.eq_dec n 2147483647) as [->|]; [cbn; lia|].
  rewrite Z.mod_small by lia; case_if; lia.
Qed.

Definition count_ok {K} (x : K * Z) : Prop := 1 <= snd x <= 2147483647.

(** The invariant of a tree. *)
Record tree_ok {K} (compare : K -> K -> Z) (t : Tree K) : Prop := {
  ok_balanced : exists h, rbt h (root t);
  ok_root : colour_of (root t) = BLACK;
  ok_sorted : StronglySorted (before compare) (elements (root t));
  ok_counts : Forall count_ok (elements (root t));
  ok_elements : elements_in_tree t = Z.of_nat (length (elements (root t))) }.

Definition over_limit {K} (key_size : Z) (t : Tree K) : bool :=
  negb (memory_limit t =? 0) && negb (elements_in_tree t =? 0)
  && (u64 (allocated t + u64 (sizeof_Tree_Element + key_size + size_of_element t)) >? memory_limit t).

Section Insert.
Context {K : Type}.
Variable compare : K -> K -> Z.
Context {KO : KeyOrder compare}.

Lemma plug_colour p : forall a b : node K, colour_of a = colour_of b ->
  colour_of (plug p a) = colour_of (plug p b).
Proof.
  induction p as [|f p IH]; intros a b H; [exact H|]; apply IH; unfold fill; destruct (f_side f); reflexivity.
Qed.

(** The search of a whole tree. *)
Lemma descend_root k (t : Tree K) : tree_ok compare t -> elements_in_tree t < 4294967295 ->
  exists e p h, descend compare k (root t) [] 1 = Some (e, p) /\
  rb_ctx h p /\ rbt h e /\ (colour_of e = RED -> head_black p) /\
  colour_of (plug p e) = BLACK /\
  lookup_key compare k (elements (root t))
    = match e with null_element => None | Tree_Element _ _ _ n _ => Some n end /\
  elements (plug p (put k e)) = insert_key compare k (elements (root t)).
Proof.
  intros [[h Hb] Hc Hs Hn He] Hlt; rewrite He in Hlt.
  pose proof (tree_height h (root t) Hb Hc Hlt) as Hh.
  destruct (descend_spec compare k (root t) [] 1 h Hs Hb (ctx_nil h)) as (e & p & h' & D & P & C & R & B & Lk & El).
  - rewrite Hc; discriminate.
  - lia.
  - exists e, p, h'; repeat split; try assumption; [|rewrite El; apply app_nil_r].
    rewrite P; exact Hc.
Qed.

(** A new tree of the same contents is as good. *)
Lemma tree_ok_put k (t t' : Tree K) h : tree_ok compare t -> rbt h (root t') ->
  colour_of (root t') = BLACK -> elements (root t') = insert_key compare k (elements (root t)) ->
  elements_in_tree t' = match lookup_key compare k (elements (root t)) with
                        | Some _ => elements_in_tree t | None => elements_in_tree t + 1 end ->
  tree_ok compare t'.
Proof.
  intros [_ _ Hs Hn He] Hb Hc El Ec; constructor; rewrite ?El.
  - exists h; exact Hb.
  - exact Hc.
  - apply insert_key_sorted; assumption.
  - apply insert_key_forall; [exact Hn|unfold count_ok; cbn; lia|].
    intros x n; apply incr_count_range.
  - rewrite Ec, insert_key_length, He; destruct (lookup_key _ _ _); lia.
Qed.

Lemma insert_found retries k ks (t : Tree K) n : tree_ok compare t ->
  elements_in_tree t < 4294967295 -> lookup_key compare k (elements (root t)) = Some n ->
  Z.land (flag t) TREE_NO_DUPS = 0 ->
  exists t', tree_insert compare retries k ks t = Some (Some (incr_count n), [], t') /\
  tree_ok compare t' /\ elements (root t') = insert_key compare k (elements (root t)).
Proof.
  intros Ht Hlt Hl Hf; destruct (descend_root k t Ht Hlt) as (e & p & h & D & C & R & B & B0 & Lk & El).
  rewrite Hl in Lk; destruct e as [|c l kk m r]; [discriminate|]; injection Lk as <-.
  destruct (plug_rbt p h (put k (Tree_Element c l kk n r)) C) as [h' Hp]; [|exact B|].
  { inversion R; subst; constructor; assumption. }
  assert (forall t', root t' = plug p (put k (Tree_Element c l kk n r)) ->
    elements_in_tree t' = elements_in_tree t ->
    tree_ok compare t' /\ elements (root t') = insert_key compare k (elements (root t))) as H.
  { intros t' Er Ec; rewrite Er; split; [|exact El].
    apply (tree_ok_put k t t' h' Ht); rewrite ?Er, ?Hl; try assumption.
    rewrite <- B0; apply plug_colour; reflexivity. }
  destruct retries; cbn [tree_insert]; rewrite D, Hf;
  (eexists; split; [reflexivity|apply H; reflexivity]).
Qed.

Lemma insert_refused retries k ks (t : Tree K) n : tree_ok compare t ->
  elements_in_tree t < 4294967295 -> lookup_key compare k (elements (root t)) = Some n ->
  Z.land (flag t) TREE_NO_DUPS <> 0 -> tree_insert compare retries k ks t = Some (None, [], t).
Proof.
  intros Ht Hlt Hl Hf; destruct (descend_root k t Ht Hlt) as (e & p & h & D & _ & _ & _ & _ & Lk & _).
  rewrite Hl in Lk; destruct e as [|c l kk m r]; [discriminate|]; apply Z.eqb_neq in Hf.
  destruct retries; cbn [tree_insert]; rewrite D, Hf; reflexivity.
Qed.

Lemma insert_new retries k ks (t : Tree K) : tree_ok compare t -> elements_in_tree t < 4294967295 ->
  lookup_key compare k (elements (root t)) = None -> over_limit ks t = false ->
  exists t', tree_insert compare retries k ks t = Some (Some 1, [], t') /\
  tree_ok compare t' /\ elements (root t') = insert_key compare k (elements (root t)).
Proof.
  intros Ht Hlt Hl Ho; destruct (descend_root k t Ht Hlt) as (e & p & h & D & C & R & _ & _ & Lk & El).
  rewrite Hl in Lk; destruct e as [|c l kk m r]; [|discriminate]; inversion R; subst h.
  destruct (rb_insert_rbt p k C) as (t' & h' & I & Hb & Hc).
  pose proof (rb_insert_elements _ _ _ I) as Ei; rewrite <- El in *; cbn [put] in *.
  assert (tree_insert compare retries k ks t = Some (Some 1, [], with_root t t' (u32 (elements_in_tree t + 1))
    (u64 (allocated t + u64 (sizeof_Tree_Element + ks + size_of_element t))))) as E
    by (unfold over_limit in Ho; destruct retries; cbn [tree_insert]; rewrite D, Ho, I; reflexivity).
  eexists; split; [exact E|]; split; [|exact Ei].
  apply (tree_ok_put k t _ h' Ht); try assumption; [cbn [with_root root]; congruence|].
  cbn [with_root elements_in_tree]; rewrite Hl; apply u32_small.
  rewrite (ok_elements _ _ Ht) in *; lia.
Qed.

Lemma free_tree_ok (t : Tree K) : tree_ok compare (snd (free_tree t)).
Proof.
  constructor; cbn [free_tree snd root elements_in_tree elements];
    [exists O; constructor|reflexivity|constructor|constructor|reflexivity].
Qed.

Lemma insert_over retries k ks (t : Tree K) : tree_ok compare t -> elements_in_tree t < 4294967295 ->
  lookup_key compare k (elements (root t)) = None -> over_limit ks t = true ->
  exists t', tree_insert compare (S retries) k ks t = Some (Some 1, fst (free_tree t), t') /\
  tree_ok compare t' /\ elements (root t') = [(k, 1)].
Proof.
  intros Ht Hlt Hl Ho; destruct (descend_root k t Ht Hlt) as (e & p & h & D & _ & R & _ & _ & Lk & _).
  rewrite Hl in Lk; destruct e as [|c l kk m r]; [|discriminate].
  destruct (insert_new retries k ks (snd (free_tree t))) as (t' & E & Ok & El).
  - apply free_tree_ok.
  - cbn; lia.
  - reflexivity.
  - unfold over_limit; cbn [free_tree snd elements_in_tree]; rewrite andb_false_r; reflexivity.
  - exists t'; split; [|split; [exact Ok|exact El]].
    unfold over_limit in Ho; cbn [tree_insert]; rewrite D, Ho.
    unfold reset_tree; cbn [free_tree with_root root memory_limit size_of_element offset_to_key
      with_delete free flag mem_block mem_min fst snd] in *; rewrite E, app_nil_r; reflexivity.
Qed.

End Insert.

(** Calling the action on a list, up to the first error. *)
Fixpoint walk_list {K A} (action : K -> Z -> A -> Z * A) (l : list (K * Z)) (arg : A) : Z * A :=
  match l with
  | [] => (0, arg)
  | (k, n) :: rest =>
      let '(error, arg) := action k n arg in
      if error =? 0 then walk_list action rest arg else (error, arg)
  end.

Lemma walk_list_app {K A} (action : K -> Z -> A -> Z * A) a : forall b arg,
  walk_list action (a ++ b) arg =
  let '(error, arg) := walk_list action a arg in
  if error =? 0 then walk_list action b arg else (error, arg).
Proof.
  induction a as [|[k n] a IH]; intros b arg; cbn [app walk_list]; [reflexivity|].
  destruct (action k n arg) as [error arg']; destruct (Z.eqb_spec error 0) as [->|E]; [apply IH|].
  apply Z.eqb_neq in E; rewrite E; reflexivity.
Qed.

(** Integers as keys. *)
Definition compare_Z (a b : Z) : Z := a - b.

#[export] Instance KeyOrder_Z : KeyOrder compare_Z.
Proof. constructor; unfold compare_Z; intros; lia. Qed.

(** ** Properties *)

(** C30. Inserting into a red-black tree with fewer than 2^32-1 elements always
    succeeds, so the 64 entries of [parents] are enough; the tree stays balanced,
    sorted, and counts its elements.  A key that is present has its count
    incremented up to 2^31-1 (or is refused with TREE_NO_DUPS), a new one is added
    with count 1 in its place in the order; if that exceeds the memory limit, the
    old elements are released first and the tree holds only the new key. *)
Theorem tree_insert_correct {K} (compare : K -> K -> Z) {KO : KeyOrder compare} (t : Tree K) (k : K)
    (key_size : Z) :
  tree_ok compare t -> elements_in_tree t < 4294967295 ->
  exists res calls t', tree_insert compare 1 k key_size t = Some (res, calls, t') /\
  tree_ok compare t' /\
  match lookup_key compare k (elements (root t)) with
  | Some n =>
      calls = [] /\
      if Z.land (flag t) TREE_NO_DUPS =? 0
      then res = Some (incr_count n) /\ elements (root t') = insert_key compare k (elements (root t))
      else res = None /\ t' = t
  | None =>
      res = Some 1 /\
      if over_limit key_size t
      then calls = fst (free_tree t) /\ elements (root t') = [(k, 1)]
      else calls = [] /\ elements (root t') = insert_key compare k (elements (root t))
  end.
Proof.
  intros Ht Hlt; destruct (lookup_key compare k (elements (root t))) as [n|] eqn:Hl.
  - destruct (Z.eqb_spec (Z.land (flag t) TREE_NO_DUPS) 0) as [Hf|Hf].
    + destruct (insert_found compare 1 k key_size t n Ht Hlt Hl Hf) as (t' & E & Ok & El).
      exists (Some (incr_count n)), [], t'; auto.
    + exists None, [], t; pose proof (insert_refused compare 1 k key_size t n Ht Hlt Hl Hf); auto.
  - destruct (over_limit key_size t) eqn:Ho.
    + destruct (insert_over compare 0 k key_size t Ht Hlt Hl Ho) as (t' & E & Ok & El).
      exists (Some 1), (fst (free_tree t)), t'; auto.
    + destruct (insert_new compare 1 k key_size t Ht Hlt Hl Ho) as (t' & E & Ok & El).
      exists (Some 1), [], t'; auto.
Qed.

Lemma tree_insert_correct_witness :
  exists res calls t', tree_insert compare_Z 1 7 0 (init_tree 0 0 8 false false) = Some (res, calls, t') /\
  tree_ok compare_Z t' /\ elements (root t') = [(7, 1)].
Proof.
  destruct (tree_insert_correct compare_Z (init_tree 0 0 8 false false) 7 0)
    as (res & calls & t' & E & Ok & _ & _ & El).
  - constructor; cbn; [exists O|..]; constructor.
  - cbn; lia.
  - exists res, calls, t'; auto.
Defined.

(** Walking the tree calls the action on every element with its count, in
    ascending or in descending order of the keys, and stops at the first error,
    which it returns. *)
Theorem tree_walk_in_order {K A} (action : K -> Z -> A -> Z * A) (t : Tree K) (arg : A) :
  tree_walk action t Left arg = walk_list action (elements (root t)) arg /\
  tree_walk action t Right arg = walk_list action (rev (elements (root t))) arg.
Proof.
  unfold tree_walk; generalize (root t) as e; intros e; revert arg.
  induction e as [|c l IHl k n r IHr]; intros arg; cbn [elements rev]; [split; reflexivity|].
  rewrite rev_app_distr; cbn [rev tree_walk_left_root_right tree_walk_right_root_left].
  rewrite <- app_assoc, !walk_list_app; destruct (IHl arg) as [-> _], (IHr arg) as [_ ->].
  split; [destruct (walk_list action (elements l) arg) as [error a]
         |destruct (walk_list action (rev (elements r)) arg) as [error a]];
  (case_if; [|reflexivity]); cbn [app walk_list]; destruct (action k n a) as [e' a'];
  (case_if; [|reflexivity]); [apply IHr|apply IHl].
Qed.
