(* ===== verification/Hash.v ===== *)
(** The hash table of [src/drizzled/my_hash.cc] and [my_hash.h].

    Linear hashing inside one array of links: bucket [b] starts at position [b],
    a record may be stored at the position of another bucket while that one is
    empty, and each insertion splits one bucket.  The array is a finite map from
    positions to links; a position that was never written is not in it, and
    [None] stands for a read of such a position.

    The record's bytes, the key callback, and the collation's hash and comparison
    are parameters; that strings comparing equal have equal hashes is the law of
    the class [Collation]. *)

From Stdlib Require Import ZArith Lia ZifyBool.
From stdpp Require Import base gmap list numbers.
From S2P Require Import Prelude.
Local Open Scope Z_scope.

(** What the table needs of the functions of a character set. *)
Class Collation (hash_sort : list Z -> Z) (strnncoll : list Z -> list Z -> Z) : Prop := {
  hash_u32 : forall s, 0 <= hash_sort s < 4294967296;
  coll_hash : forall a b, strnncoll a b = 0 -> hash_sort a = hash_sort b }.

(** ** Model *)

(** src/drizzled/my_hash.cc:31-31 NO_RECORD *)
Definition NO_RECORD : Z := 4294967295.
(** src/drizzled/my_hash.cc:33-33 LOWFIND *)
Definition LOWFIND : Z := 1.
(** src/drizzled/my_hash.cc:34-34 LOWUSED *)
Definition LOWUSED : Z := 2.
(** src/drizzled/my_hash.cc:35-35 HIGHFIND *)
Definition HIGHFIND : Z := 4.
(** src/drizzled/my_hash.cc:36-36 HIGHUSED *)
Definition HIGHUSED : Z := 8.
(** src/drizzled/my_hash.h:35-35 HASH_UNIQUE *)
Definition HASH_UNIQUE : Z := 1.

(** src/drizzled/my_hash.h:40-46 HASH_LINK *)
Record HASH_LINK (R : Type) : Type := mkLink { next : Z; data : R }.
Arguments mkLink {R}.
Arguments next {R}.
Arguments data {R}.

(** src/drizzled/my_hash.h:50-64 HASH *)
Record HASH (R : Type) : Type := mkHash {
  key_offset : nat;
  key_length : nat;
  blength : Z;
  records : Z;
  flags : Z;
  array : gmap Z (HASH_LINK R) }.
Arguments mkHash {R}.
Arguments key_offset {R}.
Arguments key_length {R}.
Arguments blength {R}.
Arguments records {R}.
Arguments flags {R}.
Arguments array {R}.

(** src/drizzled/my_hash.cc:129-133 hash_mask *)
Definition hash_mask (hashnr buffmax maxlength : Z) : Z :=
  if Z.land hashnr (u32 (buffmax - 1)) <? maxlength then Z.land hashnr (u32 (buffmax - 1))
  else Z.land hashnr (u32 (Z.shiftr buffmax 1 - 1)).

Section Table.
Context {R : Type}.
Variable record_bytes : R -> list Z.
Variable get_key : option (R -> list Z).
Variable hash_sort : list Z -> Z.
Variable strnncoll : list Z -> list Z -> Z.

(** src/drizzled/my_hash.cc:51-66 _hash_init *)
Definition hash_init (offset length : nat) (fl : Z) : HASH R := mkHash offset length 1 0 fl ∅.

(** src/drizzled/my_hash.cc:80-108 hash_free

    The records given to the callback, if there is one; with
    [hash_free_elements]. *)
Definition hash_free (h : HASH R) (free : bool) : list R * HASH R :=
  (if free then omap (fun i => data <$> array h !! i) (seqZ 0 (records h)) else [],
   mkHash (key_offset h) (key_length h) (blength h) 0 (flags h) ∅).

(** src/drizzled/my_hash.cc:117-125 hash_key *)
Definition hash_key (h : HASH R) (record : R) : list Z :=
  match get_key with
  | Some f => f record
  | None => firstn (key_length h) (skipn (key_offset h) (record_bytes record))
  end.

(** src/drizzled/my_hash.cc:42-47 calc_hash *)
Definition calc_hash (key : list Z) : Z := hash_sort key.

(** src/drizzled/my_hash.cc:145-152 rec_hashnr *)
Definition rec_hashnr (h : HASH R) (record : R) : Z := calc_hash (hash_key h record).

(** src/drizzled/my_hash.cc:135-141 hash_rec_mask *)
Definition hash_rec_mask (h : HASH R) (pos : HASH_LINK R) (buffmax maxlength : Z) : Z :=
  hash_mask (calc_hash (hash_key h (data pos))) buffmax maxlength.

(** src/drizzled/my_hash.cc:238-247 hashcmp

    Whether the keys differ; [length] zero compares with the record's length. *)
Definition hashcmp (h : HASH R) (pos : HASH_LINK R) (key : list Z) (length : nat) : bool :=
  let rec_key := hash_key h (data pos) in
  (negb (length =? 0)%nat && negb (length =? List.length rec_key)%nat)
  || negb (strnncoll rec_key (firstn (List.length rec_key) key) =? 0).

(** src/drizzled/my_hash.cc:181-198 hash_first

    The loop, from position [idx]; [flag] is set in the first round.  The
    record's position and the record, if there is one. *)
Fixpoint first_loop (fuel : nat) (h : HASH R) (key : list Z) (length : nat) (idx : Z) (flag : bool)
  : option (option (Z * R)) :=
  match fuel with
  | O => None
  | S fuel' =>
      match array h !! idx with
      | None => None
      | Some pos =>
          if negb (hashcmp h pos key length) then Some (Some (idx, data pos))
          else if flag && negb (hash_rec_mask h pos (blength h) (records h) =? idx) then Some None
          else if next pos =? NO_RECORD then Some None
          else first_loop fuel' h key length (next pos) false
      end
  end.

(** The number of links, which bounds every walk along them. *)
Definition walk_fuel (h : HASH R) : nat := S (Z.to_nat (records h)).

(** src/drizzled/my_hash.cc:169-202 hash_first

    Also lines 155-160, [hash_search]. *)
Definition hash_first (h : HASH R) (key : list Z) (length : nat) : option (option (Z * R)) :=
  if records h =? 0 then Some None
  else
    let hashnr := calc_hash (firstn (if (length =? 0)%nat then key_length h else length) key) in
    first_loop (walk_fuel h) h key length (hash_mask hashnr (blength h) (records h)) true.

(** src/drizzled/my_hash.cc:206-217 movelink *)
Fixpoint movelink (fuel : nat) (a : gmap Z (HASH_LINK R)) (find next_link newlink : Z)
  : option (gmap Z (HASH_LINK R)) :=
  match fuel with
  | O => None
  | S fuel' =>
      match a !! next_link with
      | None => None
      | Some old_link =>
          if next old_link =? find then Some (<[next_link := mkLink newlink (data old_link)]> a)
          else movelink fuel' a find (next old_link) newlink
      end
  end.

(** The local variables of the loop of [my_hash_insert]. *)
Record split_state : Type := mkSplit {
  s_flag : Z;
  s_gpos : Z;                (* position gpos points to *)
  s_gpos2 : Z;
  s_empty : Z;
  s_ptr : option R;          (* ptr_to_rec *)
  s_ptr2 : option R;         (* ptr_to_rec2 *)
  s_array : gmap Z (HASH_LINK R) }.

Definition write_link (a : gmap Z (HASH_LINK R)) (pos nxt : Z) (rec : option R)
  : gmap Z (HASH_LINK R) :=
  match rec with Some r => <[pos := mkLink nxt r]> a | None => a end.

Definition has (flag bits : Z) : bool := negb (Z.land flag bits =? 0).

(** src/drizzled/my_hash.cc:287-320 my_hash_insert

    A key that does not move. *)
Definition low_key (pos : Z) (rec : R) (s : split_state) : split_state :=
  if negb (has (s_flag s) LOWFIND) then
    if has (s_flag s) HIGHFIND
    then mkSplit (Z.lor LOWFIND HIGHFIND) (s_empty s) (s_gpos2 s) pos (Some rec) (s_ptr2 s) (s_array s)
    else mkSplit (Z.lor LOWFIND LOWUSED) pos (s_gpos2 s) (s_empty s) (Some rec) (s_ptr2 s) (s_array s)
  else
    let '(flag, a) :=
      if negb (has (s_flag s) LOWUSED)
      then (Z.lor (Z.land (s_flag s) HIGHFIND) (Z.lor LOWFIND LOWUSED),
            write_link (s_array s) (s_gpos s) pos (s_ptr s))
      else (s_flag s, s_array s) in
    mkSplit flag pos (s_gpos2 s) (s_empty s) (Some rec) (s_ptr2 s) a.

(** src/drizzled/my_hash.cc:321-343 my_hash_insert

    A key that moves to the new bucket. *)
Definition high_key (pos : Z) (rec : R) (s : split_state) : split_state :=
  if negb (has (s_flag s) HIGHFIND) then
    mkSplit (Z.lor (Z.land (s_flag s) LOWFIND) HIGHFIND) (s_gpos s) (s_empty s) pos (s_ptr s) (Some rec)
      (s_array s)
  else
    let '(flag, a) :=
      if negb (has (s_flag s) HIGHUSED)
      then (Z.lor (Z.land (s_flag s) LOWFIND) (Z.lor HIGHFIND HIGHUSED),
            write_link (s_array s) (s_gpos2 s) pos (s_ptr2 s))
      else (s_flag s, s_array s) in
    mkSplit flag (s_gpos s) pos (s_empty s) (s_ptr s) (Some rec) a.

(** src/drizzled/my_hash.cc:278-345 my_hash_insert

    The loop that splits the bucket [first_index]. *)
Fixpoint split_loop (fuel : nat) (h : HASH R) (halfbuff first_index idx : Z) (s : split_state)
  : option split_state :=
  match fuel with
  | O => None
  | S fuel' =>
      match s_array s !! idx with
      | None => None
      | Some pos =>
          let hash_nr := rec_hashnr h (data pos) in
          if (s_flag s =? 0) && negb (hash_mask hash_nr (blength h) (records h) =? first_index)
          then Some s
          else
            let s := if Z.land hash_nr halfbuff =? 0 then low_key idx (data pos) s
                     else high_key idx (data pos) s in
            match s_array s !! idx with
            | None => None
            | Some pos =>
                if next pos =? NO_RECORD then Some s
                else split_loop fuel' h halfbuff first_index (next pos) s
            end
      end
  end.

(** src/drizzled/my_hash.cc:347-356 my_hash_insert

    The ends of both lists. *)
Definition split_end (s : split_state) : Z * gmap Z (HASH_LINK R) :=
  let a := if Z.land (s_flag s) (Z.lor LOWFIND LOWUSED) =? LOWFIND
           then write_link (s_array s) (s_gpos s) NO_RECORD (s_ptr s) else s_array s in
  let a := if Z.land (s_flag s) (Z.lor HIGHFIND HIGHUSED) =? HIGHFIND
           then write_link a (s_gpos2 s) NO_RECORD (s_ptr2 s) else a in
  (s_empty s, a).

(** src/drizzled/my_hash.cc:268-357 my_hash_insert

    The split of one bucket: the position left empty, and the array. *)
Definition split_bucket (h : HASH R) : option (Z * gmap Z (HASH_LINK R)) :=
  let halfbuff := Z.shiftr (blength h) 1 in
  let first_index := u32 (records h - halfbuff) in
  if negb (first_index =? records h)
  then split_end <$> split_loop (walk_fuel h) h halfbuff first_index first_index
                       (mkSplit 0 0 0 (records h) None None (array h))
  else Some (records h, array h).

(** src/drizzled/my_hash.cc:360-383 my_hash_insert

    The new record goes to the head of its bucket; a record that is in the way
    moves to the empty position. *)
Definition place_record (h : HASH R) (record : R) (empty : Z) (a : gmap Z (HASH_LINK R))
  : option (gmap Z (HASH_LINK R)) :=
  let idx := hash_mask (rec_hashnr h record) (blength h) (u32 (records h + 1)) in
  if idx =? empty then Some (<[idx := mkLink NO_RECORD record]> a)
  else
    match a !! idx with
    | None => None
    | Some pos =>
        let a := <[empty := pos]> a in
        let gpos := hash_rec_mask h pos (blength h) (u32 (records h + 1)) in
        if idx =? gpos then Some (<[idx := mkLink empty record]> a)
        else movelink (walk_fuel h) (<[idx := mkLink NO_RECORD record]> a) idx gpos empty
    end.

(** src/drizzled/my_hash.cc:252-387 my_hash_insert

    Whether the key is a duplicate, and the table. *)
Definition my_hash_insert (h : HASH R) (record : R) : option (bool * HASH R) :=
  let key := hash_key h record in
  match (if has HASH_UNIQUE (flags h) then hash_first h key (List.length key) else Some None) with
  | None => None
  | Some (Some _) => Some (true, h)
  | Some None =>
      match split_bucket h with
      | None => None
      | Some (empty, a) =>
          match place_record h record empty a with
          | None => None
          | Some a =>
              let records' := u32 (records h + 1) in
              let blength' := if records' =? blength h then u32 (blength h + blength h)
                              else blength h in
              Some (false, mkHash (key_offset h) (key_length h) blength' records' (flags h) a)
          end
      end
  end.

End Table.

(** ** Lemmas *)

(** *** Buckets

    With [2 ^ (k + 1)] as [blength] and [n] records, a hash number belongs to the
    bucket of its low [k + 1] bits if that exists and of its low [k] bits if not. *)

Lemma land_mask h k : 0 <= k <= 31 -> Z.land h (u32 (2 ^ k - 1)) = h mod 2 ^ k.
Proof.
  intros H; rewrite u32_small.
  - rewrite <- Z.land_ones by lia; rewrite Z.ones_equiv; reflexivity.
  - pose proof (Z.pow_pos_nonneg 2 k); pose proof (Z.pow_le_mono_r 2 k 31).
    change (2 ^ 31) with 2147483648 in *; lia.
Qed.

Lemma hash_mask_eq h k n : 0 <= k <= 30 ->
  hash_mask h (2 ^ (k + 1)) n = if h mod 2 ^ (k + 1) <? n then h mod 2 ^ (k + 1) else h mod 2 ^ k.
Proof.
  intros H; unfold hash_mask; replace (Z.shiftr (2 ^ (k + 1)) 1) with (2 ^ k).
  - rewrite !land_mask by lia; reflexivity.
  - rewrite Z.shiftr_div_pow2, Z.pow_add_r by lia; symmetry; apply Z.div_mul; lia.
Qed.

Lemma mod_double h k : 0 <= k ->
  h mod 2 ^ (k + 1) = h mod 2 ^ k + (if Z.land h (2 ^ k) =? 0 then 0 else 2 ^ k).
Proof.
  intros H.
  assert (Z.land h (2 ^ k) = Z.b2z (Z.testbit h k) * 2 ^ k) as ->.
  { apply Z.bits_inj'; intros i Hi; rewrite Z.land_spec, Z.pow2_bits_eqb by lia.
    destruct (Z.eqb_spec k i) as [<-|Hne].
    - rewrite andb_true_r, Z.mul_pow2_bits by lia; rewrite Z.sub_diag.
      destruct (Z.testbit h k); reflexivity.
    - rewrite andb_false_r, Z.mul_pow2_bits by lia.
      destruct (Z.testbit h k); cbn [Z.b2z]; [|rewrite Z.bits_0; reflexivity].
      destruct (Z.lt_ge_cases (i - k) 0); [rewrite Z.testbit_neg_r by lia; reflexivity|].
      change 1 with (2 ^ 0); rewrite Z.pow2_bits_eqb by lia; symmetry; apply Z.eqb_neq; lia. }
  assert (0 < 2 ^ k) by (apply Z.pow_pos_nonneg; lia).
  rewrite Z.pow_add_r, Z.rem_mul_r by lia; change (2 ^ 1) with 2.
  rewrite <- Z.testbit_spec' by lia; destruct (Z.testbit h k); cbn [Z.b2z].
  - rewrite Z.mul_1_l; replace (2 ^ k =? 0) with false by lia; lia.
  - rewrite Z.mul_0_l; cbn; lia.
Qed.

(** The number of buckets fits the array length. *)
Definition sizes_ok (k n : Z) : Prop := 0 <= k <= 30 /\ 2 ^ k <= n < 2 ^ (k + 1).

Lemma hash_mask_range h k n : sizes_ok k n -> 0 <= hash_mask h (2 ^ (k + 1)) n < n.
Proof.
  intros [Hk Hn]; rewrite hash_mask_eq by lia.
  assert (0 < 2 ^ k) by (apply Z.pow_pos_nonneg; lia).
  assert (0 < 2 ^ (k + 1)) by (apply Z.pow_pos_nonneg; lia).
  pose proof (Z.mod_pos_bound h (2 ^ k)); pose proof (Z.mod_pos_bound h (2 ^ (k + 1))).
  destruct (Z.ltb_spec (h mod 2 ^ (k + 1)) n); lia.
Qed.

(** Adding bucket [n] splits bucket [n - 2 ^ k] by one bit and keeps the others. *)
Lemma hash_mask_split h k n : sizes_ok k n ->
  hash_mask h (2 ^ (k + 1)) (n + 1) =
  if (hash_mask h (2 ^ (k + 1)) n =? n - 2 ^ k) && negb (Z.land h (2 ^ k) =? 0)
  then n else hash_mask h (2 ^ (k + 1)) n.
Proof.
  intros [Hk Hn]; rewrite !hash_mask_eq, (mod_double h k) by lia.
  assert (0 < 2 ^ k) by (apply Z.pow_pos_nonneg; lia).
  pose proof (Z.mod_pos_bound h (2 ^ k)) as Hm.
  rewrite Z.pow_add_r in Hn by lia; change (2 ^ 1) with 2 in Hn.
  destruct (Z.land h (2 ^ k) =? 0); cbn [negb]; rewrite ?andb_false_r, ?andb_true_r;
  [repeat case_if; lia|].
  destruct (Z.ltb_spec (h mod 2 ^ k + 2 ^ k) n), (Z.ltb_spec (h mod 2 ^ k + 2 ^ k) (n + 1));
  case_if; lia.
Qed.

(** When the last bucket of a level exists, the next level starts. *)
Lemma hash_mask_double h k : 0 <= k <= 29 ->
  hash_mask h (2 ^ (k + 2)) (2 ^ (k + 1)) = hash_mask h (2 ^ (k + 1)) (2 ^ (k + 1)).
Proof.
  intros H; replace (k + 2) with (k + 1 + 1) by lia; rewrite !hash_mask_eq by lia.
  assert (0 < 2 ^ (k + 1)) by (apply Z.pow_pos_nonneg; lia).
  pose proof (Z.mod_pos_bound h (2 ^ (k + 1))).
  rewrite (mod_double h (k + 1)) by lia; repeat case_if; lia.
Qed.

(** *** Linked positions *)

Section Chains.
Context {R : Type}.

(** The positions [l] hold the records [rs] and are linked up to [e]. *)
Fixpoint seg (a : gmap Z (HASH_LINK R)) (l : list Z) (rs : list R) (e : Z) : Prop :=
  match l, rs with
  | [], [] => True
  | i :: l', r :: rs' => a !! i = Some (mkLink (hd e l') r) /\ seg a l' rs' e
  | _, _ => False
  end.

Lemma seg_length a l : forall rs e, seg a l rs e -> length l = length rs.
Proof.
  induction l as [|i l IH]; intros [|r rs] e; cbn; try contradiction; [reflexivity|].
  intros [_ H]; f_equal; exact (IH _ _ H).
Qed.

Lemma seg_app a l1 : forall rs1 l2 rs2 e, length l1 = length rs1 ->
  seg a (l1 ++ l2) (rs1 ++ rs2) e <-> seg a l1 rs1 (hd e l2) /\ seg a l2 rs2 e.
Proof.
  induction l1 as [|i l1 IH]; intros [|r rs1] l2 rs2 e E; cbn in *; try discriminate; [tauto|].
  injection E as E; rewrite (IH rs1 l2 rs2 e E).
  replace (hd e (l1 ++ l2)) with (hd (hd e l2) l1) by (destruct l1; reflexivity); tauto.
Qed.

(** Links elsewhere do not matter. *)
Lemma seg_frame a a' l : forall rs e, (forall i, i ∈ l -> a' !! i = a !! i) ->
  seg a l rs e -> seg a' l rs e.
Proof.
  induction l as [|i l IH]; intros [|r rs] e H; cbn; try tauto.
  intros [Hi Hs]; split; [rewrite H by left; exact Hi|].
  apply IH; [|exact Hs]; intros j Hj; apply H; right; exact Hj.
Qed.

Lemma seg_insert a l rs e i x : i ∉ l -> seg a l rs e -> seg (<[i := x]> a) l rs e.
Proof.
  intros Hi; apply seg_frame; intros j Hj; apply lookup_insert_ne; intros ->; contradiction.
Qed.

Lemma seg_lookup a l : forall rs e i, seg a l rs e -> i ∈ l ->
  exists r nx, a !! i = Some (mkLink nx r) /\ r ∈ rs.
Proof.
  induction l as [|j l IH]; intros [|r rs] e i; cbn; try contradiction;
    [intros _ H; inversion H|].
  intros [Hj Hs] [->|Hi]%elem_of_cons; [exists r, (hd e l); split; [exact Hj|left]|].
  destruct (IH rs e i Hs Hi) as (r' & nx & E & H); exists r', nx; split; [exact E|right; exact H].
Qed.

End Chains.

(** *** Splitting a bucket *)

Section Split.
Context {R : Type}.
Implicit Types a : gmap Z (HASH_LINK R).

(** A list whose last position [g] is still to be written, unless [used]: it is
    to hold the record in [ptr], and the position after it is not known yet. *)
Definition open_list a (l : list Z) (rs : list R) (g : Z) (ptr : option R) (used : bool) (nx : Z)
  : Prop :=
  (l = [] /\ rs = [] /\ used = false) \/
  exists l' rs' r, l = l' ++ [g] /\ rs = rs' ++ [r] /\ ptr = Some r /\ seg a l' rs' g /\
  (used = true -> a !! g = Some (mkLink nx r)).

Lemma open_weaken a l rs g ptr used nx nx' : open_list a l rs g ptr used nx ->
  open_list a l rs g ptr false nx'.
Proof.
  intros [(-> & -> & _)|(l' & rs' & r & H1 & H2 & H3 & H4 & _)]; [left; auto|right].
  exists l', rs', r; repeat split; auto; discriminate.
Qed.

Lemma open_frame a a' l rs g ptr used nx : (forall i, i ∈ l -> a' !! i = a !! i) ->
  open_list a l rs g ptr used nx -> open_list a' l rs g ptr used nx.
Proof.
  intros Hf [H|(l' & rs' & r & -> & -> & H3 & H4 & H5)]; [left; exact H|right].
  exists l', rs', r; repeat split; auto.
  - revert H4; apply seg_frame; intros i Hi; apply Hf; apply elem_of_app; auto.
  - intros Hu; rewrite Hf by (apply elem_of_app; right; left); auto.
Qed.

Lemma open_in a l rs g ptr used nx : open_list a l rs g ptr used nx -> rs <> [] -> g ∈ l.
Proof.
  intros [(_ & -> & _)|(l' & rs' & r & -> & _)] H; [contradiction|].
  apply elem_of_app; right; left.
Qed.

(** The write that links the last position to [i]. *)
Definition link_last a (g : Z) (ptr : option R) (used : bool) (i : Z) : gmap Z (HASH_LINK R) :=
  if used then a else write_link a g i ptr.

Lemma link_last_other a g ptr used i j : j <> g -> link_last a g ptr used i !! j = a !! j.
Proof.
  intros H; unfold link_last, write_link; destruct used; [reflexivity|]; destruct ptr; [|reflexivity].
  apply lookup_insert_ne; auto.
Qed.

Lemma open_link a l rs g ptr used i : NoDup l -> rs <> [] -> open_list a l rs g ptr used i ->
  seg (link_last a g ptr used i) l rs i.
Proof.
  intros Hd Hne [(_ & -> & _)|(l' & rs' & r & -> & -> & -> & Hs & Hu)]; [contradiction|].
  apply list.NoDup_app in Hd as (_ & Hd & _).
  apply seg_app; [exact (seg_length _ _ _ _ Hs)|]; cbn [hd seg]; split; [|split; [|exact I]].
  - revert Hs; apply seg_frame; intros j Hj; apply link_last_other; intros ->.
    apply (Hd g Hj); left.
  - unfold link_last, write_link; destruct used; [auto|]; apply lookup_insert_eq.
Qed.

Lemma open_append a l rs g ptr used i nx r : NoDup l -> rs <> [] -> i <> g ->
  a !! i = Some (mkLink nx r) -> open_list a l rs g ptr used i ->
  open_list (link_last a g ptr used i) (l ++ [i]) (rs ++ [r]) i (Some r) true nx.
Proof.
  intros Hd Hne Hi Hr Ho; right; exists l, rs, r; repeat split.
  - exact (open_link a l rs g ptr used i Hd Hne Ho).
  - intros _; rewrite link_last_other by exact Hi; exact Hr.
Qed.

Lemma open_one a i r nx used : (used = true -> a !! i = Some (mkLink nx r)) ->
  open_list a [i] [r] i (Some r) used nx.
Proof. intros H; right; exists [], [], r; repeat split; exact H. Qed.

Definition flag_of (lf lu hf hu : bool) : Z :=
  Z.b2z lf * LOWFIND + Z.b2z lu * LOWUSED + Z.b2z hf * HIGHFIND + Z.b2z hu * HIGHUSED.

Definition some_rec (rs : list R) : bool := match rs with [] => false | _ => true end.

(** The state of the loop after the positions [done], with those of the records
    that stay in [PL] and of those that move in [PH]. *)
Record split_inv (a0 : gmap Z (HASH_LINK R)) (f n : Z) (done : list Z) (todo : list Z) (rtodo : list R)
    (PL : list Z) (RL : list R) (PH : list Z) (RH : list R) (lu hu : bool) (s : split_state) : Prop := {
  si_flag : s_flag s = flag_of (some_rec RL) lu (some_rec RH) hu;
  si_used : lu && hu = false;
  si_low : open_list (s_array s) PL RL (s_gpos s) (s_ptr s) lu (hd NO_RECORD todo);
  si_high : open_list (s_array s) PH RH (s_gpos2 s) (s_ptr2 s) hu (hd NO_RECORD todo);
  si_todo : seg (s_array s) todo rtodo NO_RECORD;
  si_perm : PL ++ PH ++ [s_empty s] ≡ₚ done ++ [n];
  si_nodup : NoDup (done ++ todo ++ [n]);
  si_frame : forall i, i ∉ done -> i <> n -> s_array s !! i = a0 !! i;
  si_first : hd f (done ++ todo) = f;
  si_low_head : hd f PL = f;
  si_high_head : hd n PH = n;
  si_empty_n : RH = [] -> s_empty s = n;
  si_empty_f : RL = [] -> RH <> [] -> s_empty s = f }.

Lemma split_facts a0 f n done i todo r rtodo PL RL PH RH lu hu s :
  split_inv a0 f n done (i :: todo) (r :: rtodo) PL RL PH RH lu hu s ->
  NoDup PL /\ NoDup PH /\ (forall j, j ∈ PL -> j ∉ PH) /\
  (forall j, j ∈ i :: todo -> (j ∉ PL) /\ (j ∉ PH) /\ j <> s_empty s) /\
  (forall j, j ∈ PL \/ j ∈ PH -> j ∈ done \/ j = n).
Proof.
  intros I; pose proof (si_perm _ _ _ _ _ _ _ _ _ _ _ _ _ I) as P.
  pose proof (si_nodup _ _ _ _ _ _ _ _ _ _ _ _ _ I) as D.
  assert (NoDup (done ++ [n])) as Dn.
  { apply list.NoDup_app in D as (D1 & D2 & D3); apply list.NoDup_app in D3 as (_ & _ & D3).
    apply list.NoDup_app; repeat split; [exact D1| |exact D3].
    intros x Hx Hn; apply (D2 x Hx), elem_of_app; auto. }
  rewrite <- P in Dn; apply list.NoDup_app in Dn as (DL & Dx & Dh).
  apply list.NoDup_app in Dh as (DH & _ & _).
  assert (forall j, j ∈ PL ++ PH ++ [s_empty s] -> j ∈ done \/ j = n) as Hin.
  { intros j Hj; rewrite P in Hj; apply elem_of_app in Hj as [Hj|Hj]; [auto|].
    apply list_elem_of_singleton in Hj; auto. }
  assert (forall j, j ∈ i :: todo -> (j ∉ done) /\ j <> n) as Hout.
  { apply list.NoDup_app in D as (_ & D2 & D3); apply list.NoDup_app in D3 as (_ & D3 & _).
    intros j Hj; split; [intros Hd; apply (D2 j Hd); set_solver|intros ->; apply (D3 n Hj); left]. }
  split; [exact DL|]; split; [exact DH|]; split; [intros j Hj Hh; apply (Dx j Hj); set_solver|].
  split; [|intros j Hj; apply Hin; set_solver].
  intros j Hj; destruct (Hout j Hj) as [H1 H2].
  split; [|split]; intros Hx; destruct (Hin j ltac:(set_solver)); contradiction.
Qed.

Lemma perm_snoc (l done : list Z) l2 n i : l ++ l2 ≡ₚ done ++ [n] ->
  (l ++ [i]) ++ l2 ≡ₚ (done ++ [i]) ++ [n].
Proof.
  intros P; rewrite <- !app_assoc; cbn [app].
  etransitivity; [symmetry; apply Permutation_middle|].
  symmetry; etransitivity; [symmetry; apply Permutation_middle|]; constructor; symmetry; exact P.
Qed.

Lemma inv_start a0 f n done i todo r rtodo PL PH lu hu s :
  split_inv a0 f n done (i :: todo) (r :: rtodo) PL [] PH [] lu hu s ->
  done = [] /\ PL = [] /\ PH = [] /\ i = f /\ lu = false /\ hu = false /\ s_empty s = n.
Proof.
  intros [_ _ L H _ P _ _ F _ _ En _].
  destruct L as [(-> & _ & ->)|(l' & rs' & x & _ & E & _)]; [|destruct rs'; discriminate].
  destruct H as [(-> & _ & ->)|(l' & rs' & x & _ & E & _)]; [|destruct rs'; discriminate].
  cbn [app] in P; apply Permutation_length in P; rewrite length_app in P; cbn in P.
  destruct done; [|cbn in P; lia]; cbn in F; repeat split; auto.
Qed.

Lemma NoDup_shift (done : list Z) i todo n : NoDup (done ++ (i :: todo) ++ [n]) ->
  NoDup ((done ++ [i]) ++ todo ++ [n]).
Proof. rewrite <- app_assoc; auto. Qed.

Lemma some_rec_snoc (rs : list R) r : some_rec (rs ++ [r]) = true.
Proof. destruct rs; reflexivity. Qed.

Lemma low_key_first i r (s : split_state (R := R)) : s_flag s = flag_of false false false false ->
  low_key i r s = mkSplit (flag_of true true false false) i (s_gpos2 s) (s_empty s) (Some r)
                    (s_ptr2 s) (s_array s).
Proof. unfold low_key; intros ->; reflexivity. Qed.

Lemma low_key_moved i r (s : split_state (R := R)) hu : s_flag s = flag_of false false true hu ->
  low_key i r s = mkSplit (flag_of true false true false) (s_empty s) (s_gpos2 s) i (Some r)
                    (s_ptr2 s) (s_array s).
Proof. unfold low_key; intros ->; destruct hu; reflexivity. Qed.

Lemma low_key_more i r (s : split_state (R := R)) lu hf hu : s_flag s = flag_of true lu hf hu ->
  lu && hu = false ->
  low_key i r s = mkSplit (flag_of true true hf false) i (s_gpos2 s) (s_empty s) (Some r) (s_ptr2 s)
                    (link_last (s_array s) (s_gpos s) (s_ptr s) lu i).
Proof. unfold low_key; intros ->; destruct lu, hf, hu; try discriminate; reflexivity. Qed.

Lemma high_key_first i r (s : split_state (R := R)) lf lu : s_flag s = flag_of lf lu false false ->
  high_key i r s = mkSplit (flag_of lf false true false) (s_gpos s) (s_empty s) i (s_ptr s) (Some r)
                     (s_array s).
Proof. unfold high_key; intros ->; destruct lf, lu; reflexivity. Qed.

Lemma high_key_more i r (s : split_state (R := R)) lf lu hu : s_flag s = flag_of lf lu true hu ->
  lu && hu = false ->
  high_key i r s = mkSplit (flag_of lf false true true) (s_gpos s) i (s_empty s) (s_ptr s) (Some r)
                     (link_last (s_array s) (s_gpos2 s) (s_ptr2 s) hu i).
Proof. unfold high_key; intros ->; destruct lf, lu, hu; try discriminate; reflexivity. Qed.

Lemma open_nil a l g ptr used nx : open_list a l [] g ptr used nx -> l = [] /\ used = false.
Proof. intros [(-> & _ & ->)|(l' & rs' & x & _ & E & _)]; [auto|destruct rs'; discriminate]. Qed.

Lemma hd_snoc (d i : Z) l : l <> [] -> hd d (l ++ [i]) = hd d l.
Proof. destruct l; [contradiction|reflexivity]. Qed.

Lemma open_cons_nil a l r rs g ptr used nx : open_list a l (r :: rs) g ptr used nx -> l <> [].
Proof. intros [(_ & E & _)|(l' & rs' & x & -> & _)]; [discriminate|destruct l'; discriminate]. Qed.

Lemma low_step a0 f n done i todo r rtodo PL RL PH RH lu hu s :
  split_inv a0 f n done (i :: todo) (r :: rtodo) PL RL PH RH lu hu s ->
  (exists PL' lu' hu', split_inv a0 f n (done ++ [i]) todo rtodo PL' (RL ++ [r]) PH RH lu' hu'
     (low_key i r s)) /\
  s_array (low_key i r s) !! i = Some (mkLink (hd NO_RECORD todo) r).
Proof.
  intros I; destruct (split_facts _ _ _ _ _ _ _ _ _ _ _ _ _ _ _ I) as (DL & DH & Dx & Dt & Din).
  pose proof I as [Ifl Iu Il Ih It Ip Ind Ifr Ifi Ilh Ihh Ien Ief].
  destruct It as [Ii It]; destruct (Dt i ltac:(left)) as (Di1 & Di2 & Di3).
  assert (forall j, j ∉ done ++ [i] -> j ∉ done) as Hsub by (clear; set_solver).
  apply NoDup_shift in Ind.
  assert (hd f ((done ++ [i]) ++ todo) = f) as Ifi' by (rewrite <- app_assoc; exact Ifi).
  destruct RL as [|r0 RL]; [destruct RH as [|r1 RH]|].
  - destruct (inv_start _ _ _ _ _ _ _ _ _ _ _ _ _ I) as (-> & -> & -> & -> & -> & -> & Ee).
    rewrite (low_key_first f r s Ifl); split; [|exact Ii].
    exists [f], true, false; constructor; cbn [s_flag s_gpos s_gpos2 s_empty s_ptr s_ptr2 s_array];
      auto; try discriminate.
    + apply open_one; auto.
    + exact (open_weaken _ _ _ _ _ _ _ _ Ih).
    + rewrite Ee; reflexivity.
  - destruct (open_nil _ _ _ _ _ _ Il) as [-> ->]; cbn [some_rec] in Ifl.
    rewrite (low_key_moved i r s hu Ifl); split; [|exact Ii].
    exists [s_empty s], false, false; constructor;
      cbn [s_flag s_gpos s_gpos2 s_empty s_ptr s_ptr2 s_array app]; auto; try discriminate.
    + apply open_one; discriminate.
    + exact (open_weaken _ _ _ _ _ _ _ _ Ih).
    + cbn [app] in Ip; rewrite <- (app_assoc done); cbn [app].
      rewrite <- (Permutation_middle done), <- Ip; clear; solve_Permutation.
  - rewrite (low_key_more i r s lu (some_rec RH) hu Ifl Iu); cbn [s_array].
    pose proof (open_in _ _ _ _ _ _ _ Il ltac:(discriminate)) as Hg.
    assert (i <> s_gpos s) as Hne by (intros ->; contradiction).
    split; [|rewrite link_last_other by exact Hne; exact Ii].
    exists (PL ++ [i]), true, false; constructor;
      cbn [s_flag s_gpos s_gpos2 s_empty s_ptr s_ptr2 s_array]; auto; try discriminate.
    + apply open_append; auto; discriminate.
    + apply (open_weaken _ _ _ _ _ hu (hd NO_RECORD (i :: todo))); revert Ih; apply open_frame.
      intros j Hj; apply link_last_other; intros ->; exact (Dx _ Hg Hj).
    + revert It; apply seg_frame; intros j Hj; apply link_last_other; intros ->.
      destruct (Dt _ ltac:(right; exact Hj)); contradiction.
    + apply perm_snoc; exact Ip.
    + intros j Hj Hn; rewrite link_last_other; [auto|]; intros ->.
      destruct (Din _ (or_introl Hg)); [apply (Hsub _ Hj); assumption|contradiction].
    + rewrite hd_snoc by exact (open_cons_nil _ _ _ _ _ _ _ _ Il); exact Ilh.
Qed.

Lemma high_step a0 f n done i todo r rtodo PL RL PH RH lu hu s :
  split_inv a0 f n done (i :: todo) (r :: rtodo) PL RL PH RH lu hu s ->
  (exists PH' lu' hu', split_inv a0 f n (done ++ [i]) todo rtodo PL RL PH' (RH ++ [r]) lu' hu'
     (high_key i r s)) /\
  s_array (high_key i r s) !! i = Some (mkLink (hd NO_RECORD todo) r).
Proof.
  intros I; destruct (split_facts _ _ _ _ _ _ _ _ _ _ _ _ _ _ _ I) as (DL & DH & Dx & Dt & Din).
  pose proof I as [Ifl Iu Il Ih It Ip Ind Ifr Ifi Ilh Ihh Ien Ief].
  destruct It as [Ii It]; destruct (Dt i ltac:(left)) as (Di1 & Di2 & Di3).
  assert (forall j, j ∉ done ++ [i] -> j ∉ done) as Hsub by (clear; set_solver).
  apply NoDup_shift in Ind.
  assert (hd f ((done ++ [i]) ++ todo) = f) as Ifi' by (rewrite <- app_assoc; exact Ifi).
  destruct RH as [|r1 RH].
  - destruct (open_nil _ _ _ _ _ _ Ih) as [-> ->]; cbn [some_rec] in Ifl.
    rewrite (high_key_first i r s (some_rec RL) lu Ifl); split; [|exact Ii].
    exists [s_empty s], false, false; constructor;
      cbn [s_flag s_gpos s_gpos2 s_empty s_ptr s_ptr2 s_array app hd]; auto; try discriminate.
    + exact (open_weaken _ _ _ _ _ _ _ _ Il).
    + apply open_one; discriminate.
    + change (PL ++ [s_empty s] ++ [i] ≡ₚ (done ++ [i]) ++ [n]); cbn [app] in Ip.
      rewrite app_assoc, Ip; clear; solve_Permutation.
    + intros -> _; destruct (inv_start _ _ _ _ _ _ _ _ _ _ _ _ _ I) as (_ & _ & _ & E & _); exact E.
  - rewrite (high_key_more i r s (some_rec RL) lu hu Ifl Iu); cbn [s_array].
    pose proof (open_in _ _ _ _ _ _ _ Ih ltac:(discriminate)) as Hg.
    assert (i <> s_gpos2 s) as Hne by (intros ->; contradiction).
    split; [|rewrite link_last_other by exact Hne; exact Ii].
    exists (PH ++ [i]), false, true; constructor;
      cbn [s_flag s_gpos s_gpos2 s_empty s_ptr s_ptr2 s_array]; auto; try discriminate.
    + apply (open_weaken _ _ _ _ _ lu (hd NO_RECORD (i :: todo))); revert Il; apply open_frame.
      intros j Hj; apply link_last_other; intros ->; exact (Dx _ Hj Hg).
    + apply open_append; auto; discriminate.
    + revert It; apply seg_frame; intros j Hj; apply link_last_other; intros ->.
      destruct (Dt _ ltac:(right; exact Hj)) as (_ & H & _); contradiction.
    + rewrite app_assoc, (app_assoc PL PH); apply perm_snoc; rewrite <- app_assoc; exact Ip.
    + intros j Hj Hn; rewrite link_last_other; [auto|]; intros ->.
      destruct (Din _ (or_intror Hg)); [apply (Hsub _ Hj); assumption|contradiction].
    + rewrite hd_snoc by exact (open_cons_nil _ _ _ _ _ _ _ _ Ih); exact Ihh.
Qed.

End Split.

Section Insert.
Context {R : Type}.
Variable record_bytes : R -> list Z.
Variable get_key : option (R -> list Z).
Variable hash_sort : list Z -> Z.
Variable h : HASH R.
Implicit Types a : gmap Z (HASH_LINK R).

Local Abbreviation H := (rec_hashnr record_bytes get_key hash_sort h).
Local Abbreviation split_loop := (split_loop record_bytes get_key hash_sort).

Variable k : Z.

Definition stays (r : R) : bool := Z.land (H r) (2 ^ k) =? 0.

Local Abbreviation low := (List.filter stays).
Local Abbreviation high := (List.filter (fun r => negb (stays r))).

Lemma split_loop_ok a0 f n : forall todo rtodo fuel done PL RL PH RH lu hu s,
  split_inv a0 f n done todo rtodo PL RL PH RH lu hu s -> todo <> [] ->
  (length todo <= fuel)%nat -> Forall (fun j => j <> NO_RECORD) todo ->
  Forall (fun r => hash_mask (H r) (blength h) (records h) = f) rtodo ->
  exists s' PL' PH' lu' hu', split_loop fuel h (2 ^ k) f (hd 0 todo) s = Some s' /\
  split_inv a0 f n (done ++ todo) [] [] PL' (RL ++ low rtodo) PH' (RH ++ high rtodo) lu' hu' s'.
Proof.
  induction todo as [|i todo IH]; intros rtodo fuel done PL RL PH RH lu hu s I Hne Hf Hp Hr;
    [contradiction|].
  pose proof (si_todo _ _ _ _ _ _ _ _ _ _ _ _ _ I) as It.
  destruct rtodo as [|r rtodo]; [contradiction|]; destruct It as [Ii _].
  destruct fuel as [|fuel]; [cbn in Hf; lia|]; cbn [length] in Hf.
  apply Forall_cons_iff in Hp as [_ Hp]; apply Forall_cons_iff in Hr as [Hi Hr].
  cbn [Hash.split_loop hd]; rewrite Ii; cbn [data]; rewrite Hi, Z.eqb_refl, andb_false_r.
  set (s1 := if Z.land (H r) (2 ^ k) =? 0 then _ else _).
  assert (exists PL1 PH1 lu1 hu1, split_inv a0 f n (done ++ [i]) todo rtodo PL1 (RL ++ low [r]) PH1
      (RH ++ high [r]) lu1 hu1 s1 /\
      s_array s1 !! i = Some (mkLink (hd NO_RECORD todo) r)) as (PL1 & PH1 & lu1 & hu1 & I1 & E1).
  { subst s1; cbn [List.filter]; unfold stays; destruct (Z.land (H r) (2 ^ k) =? 0); cbn [negb].
    - destruct (low_step _ _ _ _ _ _ _ _ _ _ _ _ _ _ _ I) as [(PL1 & lu1 & hu1 & I1) E1].
      rewrite app_nil_r; eauto 10.
    - destruct (high_step _ _ _ _ _ _ _ _ _ _ _ _ _ _ _ I) as [(PH1 & lu1 & hu1 & I1) E1].
      rewrite app_nil_r; eauto 10. }
  rewrite E1; cbn [next]; clearbody s1.
  replace (low (r :: rtodo)) with (low [r] ++ low rtodo) by (rewrite <- filter_app; reflexivity).
  replace (high (r :: rtodo)) with (high [r] ++ high rtodo) by (rewrite <- filter_app; reflexivity).
  rewrite !(app_assoc RL), !(app_assoc RH); replace (done ++ i :: todo) with ((done ++ [i]) ++ todo)
    by (rewrite <- app_assoc; reflexivity).
  destruct todo as [|j todo].
  - pose proof (si_todo _ _ _ _ _ _ _ _ _ _ _ _ _ I1) as It1; destruct rtodo; [|contradiction].
    cbn [hd]; rewrite Z.eqb_refl; cbn [List.filter]; rewrite !app_nil_r; eauto 10.
  - cbn [hd]; apply Forall_cons_iff in Hp as [Hj Hp]; replace (j =? NO_RECORD) with false by lia.
    apply (IH rtodo fuel (done ++ [i]) PL1 (RL ++ low [r]) PH1 (RH ++ high [r]) lu1 hu1 s1 I1);
      [discriminate|cbn [length] in *; lia|constructor; assumption|exact Hr].
Qed.

(** The ends of the lists are written. *)
Lemma close_list a l rs g ptr used : NoDup l -> open_list a l rs g ptr used NO_RECORD ->
  seg (if some_rec rs && negb used then write_link a g NO_RECORD ptr else a) l rs NO_RECORD.
Proof.
  intros Hd Ho; destruct rs as [|r rs]; [destruct (open_nil _ _ _ _ _ _ Ho) as [-> _]; exact I|].
  pose proof (open_link a l (r :: rs) g ptr used NO_RECORD Hd ltac:(discriminate) Ho) as Hs.
  unfold link_last in Hs; destruct used; exact Hs.
Qed.

Lemma split_end_eq (s : split_state (R := R)) (RL RH : list R) lu hu :
  s_flag s = flag_of (some_rec RL) lu (some_rec RH) hu ->
  (RL = [] -> lu = false) -> (RH = [] -> hu = false) ->
  split_end s = (s_empty s,
    let a := if some_rec RL && negb lu then write_link (s_array s) (s_gpos s) NO_RECORD (s_ptr s)
             else s_array s in
    if some_rec RH && negb hu then write_link a (s_gpos2 s) NO_RECORD (s_ptr2 s) else a).
Proof.
  intros E H1 H2; unfold split_end; rewrite E.
  destruct RL as [|r0 RL]; [rewrite (H1 eq_refl)|]; (destruct RH as [|r1 RH]; [rewrite (H2 eq_refl)|]);
  destruct lu, hu; reflexivity.
Qed.

Lemma split_end_ok a0 f n done PL RL PH RH lu hu s :
  split_inv a0 f n done [] [] PL RL PH RH lu hu s ->
  exists a, split_end s = (s_empty s, a) /\ seg a PL RL NO_RECORD /\ seg a PH RH NO_RECORD /\
  (forall i, i ∉ done -> i <> n -> a !! i = a0 !! i).
Proof.
  intros [Ifl Iu Il Ih _ Ip Ind Ifr _ _ _ _ _]; rewrite app_nil_l in Ind.
  rewrite <- Ip in Ind; apply list.NoDup_app in Ind as (DL & Dx & Dh).
  apply list.NoDup_app in Dh as (DH & _ & _).
  assert (forall j, j ∈ PL ++ PH -> j ∈ done \/ j = n) as Hin.
  { intros j Hj; assert (j ∈ done ++ [n]) as Hd by (rewrite <- Ip; set_solver); set_solver. }
  eexists; split; [apply (split_end_eq s RL RH lu hu Ifl)|].
  1: intros ->; apply (open_nil _ _ _ _ _ _ Il).
  1: intros ->; apply (open_nil _ _ _ _ _ _ Ih).
  cbv zeta; pose proof (close_list _ _ _ _ _ _ DL Il) as SL.
  assert (forall a nx i, (i ∉ PL) -> (if some_rec RL && negb lu then write_link a (s_gpos s) nx (s_ptr s)
    else a) !! i = a !! i) as WL.
  { intros a nx i Hi; destruct RL as [|r0 RL]; [reflexivity|]; destruct lu; [reflexivity|].
    apply (link_last_other a _ _ false); intros ->; apply Hi.
    exact (open_in _ _ _ _ _ _ _ Il ltac:(discriminate)). }
  assert (forall a nx i, (i ∉ PH) -> (if some_rec RH && negb hu then write_link a (s_gpos2 s) nx (s_ptr2 s)
    else a) !! i = a !! i) as WH.
  { intros a nx i Hi; destruct RH as [|r0 RH]; [reflexivity|]; destruct hu; [reflexivity|].
    apply (link_last_other a _ _ false); intros ->; apply Hi.
    exact (open_in _ _ _ _ _ _ _ Ih ltac:(discriminate)). }
  split; [|split].
  - revert SL; apply seg_frame; intros i Hi; apply WH; intros Hj; apply (Dx i Hi); set_solver.
  - apply close_list; [exact DH|]; revert Ih; apply open_frame.
    intros i Hi; apply WL; intros Hj; apply (Dx i Hj); set_solver.
  - intros i Hd Hn; rewrite WH, WL by (intros Hj; destruct (Hin i ltac:(set_solver)); contradiction).
    auto.
Qed.

(** *** The layout of the array

    Bucket [b] is the chain of positions [chain b] with the records [recs b]; it
    starts at position [b].  The chains share the positions below [n], apart from
    the [holes]. *)
Record layout a (B n : Z) (holes : list Z) (chain : Z -> list Z) (recs : Z -> list R) : Prop := {
  ly_seg : forall b, seg a (chain b) (recs b) NO_RECORD;
  ly_home : forall b r, r ∈ recs b -> hash_mask (H r) B n = b;
  ly_head : forall b, hd b (chain b) = b;
  ly_nodup : forall b, NoDup (chain b);
  ly_range : forall b i, i ∈ chain b -> 0 <= i < n;
  ly_holes : forall b i, i ∈ chain b -> i ∉ holes;
  ly_cover : forall i, 0 <= i < n -> i ∉ holes -> exists b, i ∈ chain b }.

Lemma NoDup_below (l : list Z) n : NoDup l -> (forall i, i ∈ l -> 0 <= i < n) ->
  (length l <= Z.to_nat n)%nat.
Proof.
  intros Hd Hr; rewrite <- (length_seqZ 0 n); apply submseteq_length, NoDup_submseteq; [exact Hd|].
  intros i Hi; apply elem_of_seqZ; specialize (Hr i Hi); lia.
Qed.

(** A record's position tells its bucket. *)
Lemma layout_home a B n holes chain recs b i : layout a B n holes chain recs -> i ∈ chain b ->
  exists r nx, a !! i = Some (mkLink nx r) /\ r ∈ recs b /\ hash_mask (H r) B n = b.
Proof.
  intros L Hi; destruct (seg_lookup _ _ _ _ _ (ly_seg _ _ _ _ _ _ L b) Hi) as (r & nx & E & Hr).
  exists r, nx; repeat split; [exact E|exact Hr|exact (ly_home _ _ _ _ _ _ L b r Hr)].
Qed.

Lemma layout_unique a B n holes chain recs b b' i : layout a B n holes chain recs ->
  i ∈ chain b -> i ∈ chain b' -> b = b'.
Proof.
  intros L Hb Hb'; destruct (layout_home _ _ _ _ _ _ _ _ L Hb) as (r & nx & E & _ & M).
  destruct (layout_home _ _ _ _ _ _ _ _ L Hb') as (r' & nx' & E' & _ & M').
  rewrite E in E'; injection E' as _ <-; congruence.
Qed.

Lemma layout_nil a B n holes chain recs b : layout a B n holes chain recs ->
  chain b = [] <-> recs b = [].
Proof.
  intros L; pose proof (seg_length _ _ _ _ (ly_seg _ _ _ _ _ _ L b)) as E.
  split; intros H0; rewrite H0 in E; [destruct (recs b)|destruct (chain b)]; try discriminate; reflexivity.
Qed.

Lemma layout_head a B n holes chain recs b : layout a B n holes chain recs -> chain b <> [] ->
  b ∈ chain b.
Proof.
  intros L Hne; pose proof (ly_head _ _ _ _ _ _ L b) as Hh; destruct (chain b); [contradiction|].
  cbn in Hh; subst; left.
Qed.

(** The buckets after a split. *)
Definition split_recs (recs : Z -> list R) (f n b : Z) : list R :=
  if b =? n then high (recs f) else if b =? f then low (recs f) else recs b.

Lemma split_layout_same n chain recs : layout (array h) (2 ^ (k + 1)) n [] chain recs ->
  sizes_ok k n -> recs (n - 2 ^ k) = [] ->
  layout (array h) (2 ^ (k + 1)) (n + 1) [n] chain (split_recs recs (n - 2 ^ k) n).
Proof.
  intros L Hk E0.
  assert (recs n = []) as En.
  { destruct (recs n) as [|r rs] eqn:E; [reflexivity|]; exfalso.
    pose proof (ly_home _ _ _ _ _ _ L n r ltac:(rewrite E; left)) as Hm.
    pose proof (hash_mask_range (H r) k n Hk); lia. }
  assert (forall b, split_recs recs (n - 2 ^ k) n b = recs b) as Es.
  { intros b; unfold split_recs; rewrite E0; cbn [List.filter].
    destruct (Z.eqb_spec b n) as [->|]; [auto|]; destruct (Z.eqb_spec b (n - 2 ^ k)) as [->|]; auto. }
  destruct L as [L1 L2 L3 L4 L5 L6 L7]; constructor; auto.
  - intros b; rewrite Es; apply L1.
  - intros b r Hr; rewrite Es in Hr; specialize (L2 b r Hr).
    rewrite hash_mask_split by exact Hk; rewrite L2.
    destruct (Z.eqb_spec b (n - 2 ^ k)) as [->|]; [rewrite E0 in Hr; inversion Hr|reflexivity].
  - intros b i Hi; specialize (L5 b i Hi); lia.
  - intros b i Hi; specialize (L5 b i Hi); intros Hn%list_elem_of_singleton; lia.
  - intros i Hi Hn; apply L7; [|set_solver].
    assert (i <> n) by (intros ->; apply Hn; left); lia.
Qed.

Definition split_chain (chain : Z -> list Z) (PL PH : list Z) (f n b : Z) : list Z :=
  if b =? n then PH else if b =? f then PL else chain b.

Lemma split_layout a' e n chain recs PL PH : layout (array h) (2 ^ (k + 1)) n [] chain recs ->
  sizes_ok k n -> let f := n - 2 ^ k in
  seg a' PL (low (recs f)) NO_RECORD -> seg a' PH (high (recs f)) NO_RECORD ->
  PL ++ PH ++ [e] ≡ₚ chain f ++ [n] -> hd f PL = f -> hd n PH = n ->
  (forall i, i ∉ chain f -> i <> n -> a' !! i = array h !! i) ->
  layout a' (2 ^ (k + 1)) (n + 1) [e] (split_chain chain PL PH f n) (split_recs recs f n).
Proof.
  intros L Hk f SL SH P HL HH Fr.
  assert (f <> n) as Hfn by (unfold f; pose proof (Z.pow_pos_nonneg 2 k); destruct Hk; lia).
  assert (chain n = []) as Cn.
  { destruct (chain n) eqn:E; [reflexivity|]; pose proof (layout_head _ _ _ _ _ _ n L) as Hh.
    rewrite E in Hh; pose proof (ly_range _ _ _ _ _ _ L n n) as Hr; rewrite E in Hr.
    specialize (Hr (Hh ltac:(discriminate))); lia. }
  assert (NoDup (chain f ++ [n])) as D.
  { apply list.NoDup_app; repeat split; [apply L|..|apply NoDup_singleton].
    intros i Hi ->%list_elem_of_singleton; pose proof (ly_range _ _ _ _ _ _ L f n Hi); lia. }
  rewrite <- P in D; pose proof D as D0; apply list.NoDup_app in D as (DL & Dx & D).
  apply list.NoDup_app in D as (DH & Dy & _).
  assert (forall i, i ∈ PL ++ PH ++ [e] <-> (i ∈ chain f) \/ i = n) as Hin
    by (intros i; rewrite P; clear; set_solver).
  assert (forall b i, b <> f -> b <> n -> i ∈ chain b -> (i ∉ chain f) /\ i <> n) as Hoth.
  { intros b i Hb1 Hb2 Hi; split; [intros Hf; apply Hb1; exact (layout_unique _ _ _ _ _ _ _ _ _ L Hi Hf)|].
    intros ->; pose proof (ly_range _ _ _ _ _ _ L b n Hi); lia. }
  constructor; unfold split_chain, split_recs.
  - intros b; destruct (Z.eqb_spec b n); [exact SH|]; destruct (Z.eqb_spec b f); [exact SL|].
    eapply seg_frame; [|apply L]; intros i Hi; destruct (Hoth b i ltac:(assumption) ltac:(assumption) Hi); auto.
  - intros b r Hr; rewrite hash_mask_split by exact Hk; fold f.
    destruct (Z.eqb_spec b n) as [->|]; [|destruct (Z.eqb_spec b f) as [->|]].
    + apply list_elem_of_In, filter_In in Hr as [Hr Hst]; apply list_elem_of_In in Hr.
      rewrite (ly_home _ _ _ _ _ _ L f r Hr), Z.eqb_refl; unfold stays in Hst; rewrite Hst; reflexivity.
    + apply list_elem_of_In, filter_In in Hr as [Hr Hst]; apply list_elem_of_In in Hr.
      rewrite (ly_home _ _ _ _ _ _ L f r Hr), Z.eqb_refl; unfold stays in Hst; rewrite Hst; reflexivity.
    + rewrite (ly_home _ _ _ _ _ _ L b r Hr); replace (b =? f) with false by lia; reflexivity.
  - intros b; destruct (Z.eqb_spec b n) as [->|]; [exact HH|].
    destruct (Z.eqb_spec b f) as [->|]; [exact HL|apply L].
  - intros b; destruct (Z.eqb_spec b n); [exact DH|]; destruct (Z.eqb_spec b f); [exact DL|apply L].
  - intros b i Hi; assert ((i ∈ chain f) \/ i = n \/ i ∈ chain b) as [Hc|[->|Hc]].
    { destruct (Z.eqb_spec b n); [|destruct (Z.eqb_spec b f); [|auto]]; specialize (Hin i); set_solver. }
    + pose proof (ly_range _ _ _ _ _ _ L f i Hc); lia.
    + destruct Hk; pose proof (Z.pow_pos_nonneg 2 k); lia.
    + pose proof (ly_range _ _ _ _ _ _ L b i Hc); lia.
  - intros b i Hi ->%list_elem_of_singleton; destruct (Z.eqb_spec b n); [|destruct (Z.eqb_spec b f)].
    + apply (Dy e Hi); left.
    + apply (Dx e Hi); set_solver.
    + destruct (Hoth b e ltac:(assumption) ltac:(assumption) Hi); specialize (Hin e); set_solver.
  - intros i Hi He; assert (i ∈ chain f \/ i = n -> (i ∈ PL) \/ i ∈ PH) as Hd.
    { intros Hx; apply Hin in Hx; set_solver. }
    destruct (Z.eq_dec i n) as [->|Hne]; [|destruct (ly_cover _ _ _ _ _ _ L i ltac:(lia)) as [b Hb];
      [set_solver|destruct (Z.eq_dec b f) as [->|Hbf]]].
    + destruct (Hd (or_intror eq_refl)) as [Hx|Hx]; [exists f|exists n]; rewrite ?Z.eqb_refl; auto.
      replace (f =? n) with false by lia; exact Hx.
    + destruct (Hd (or_introl Hb)) as [Hx|Hx]; [exists f|exists n]; rewrite ?Z.eqb_refl; auto.
      replace (f =? n) with false by lia; exact Hx.
    + exists b; replace (b =? f) with false by lia.
      replace (b =? n) with false; [exact Hb|]; symmetry; apply Z.eqb_neq; intros ->.
      rewrite Cn in Hb; inversion Hb.
Qed.

Lemma split_start n f cs rs : seg (array h) cs rs NO_RECORD -> NoDup (cs ++ [n]) -> hd f cs = f ->
  split_inv (array h) f n [] cs rs [] [] [] [] false false
    (mkSplit 0 0 0 n None None (array h)).
Proof.
  intros Hs Hd Hf; constructor; cbn [s_flag s_gpos s_gpos2 s_empty s_ptr s_ptr2 s_array app]; auto.
  - left; auto.
  - left; auto.
  - intros _ H0; contradiction.
Qed.

Lemma split_bucket_ok chain recs : let n := records h in
  layout (array h) (blength h) n [] chain recs -> sizes_ok k n -> blength h = 2 ^ (k + 1) ->
  n < NO_RECORD ->
  exists e a' chain', split_bucket record_bytes get_key hash_sort h = Some (e, a') /\
  layout a' (blength h) (n + 1) [e] chain' (split_recs recs (n - 2 ^ k) n) /\ 0 <= e <= n.
Proof.
  intros n L Hk HB Hn; unfold split_bucket; fold n.
  assert (0 < 2 ^ k /\ 2 ^ k <= n) as [Hp Hle] by (destruct Hk; split; [apply Z.pow_pos_nonneg; lia|lia]).
  assert (Z.shiftr (blength h) 1 = 2 ^ k) as ->.
  { rewrite HB, Z.shiftr_div_pow2, Z.pow_add_r by (destruct Hk; lia); apply Z.div_mul; lia. }
  rewrite u32_small by (unfold NO_RECORD in Hn; lia); set (f := n - 2 ^ k).
  replace (f =? n) with false by lia; cbn [negb]; rewrite HB in *.
  destruct (chain f) as [|c cs] eqn:Ec.
  - assert (recs f = []) as Er by (apply (layout_nil _ _ _ _ _ _ _ L); exact Ec).
    destruct (ly_cover _ _ _ _ _ _ L f ltac:(lia) ltac:(set_solver)) as [b Hb].
    destruct (layout_home _ _ _ _ _ _ _ _ L Hb) as (r & nx & E & _ & Hm).
    exists n, (array h), chain; split; [|split; [apply split_layout_same; assumption|lia]].
    unfold walk_fuel; cbn [Hash.split_loop s_array]; rewrite E; cbn [data s_flag]; fold n.
    rewrite HB, Hm; replace (b =? f) with false; [reflexivity|].
    symmetry; apply Z.eqb_neq; intros ->; rewrite Ec in Hb; inversion Hb.
  - assert (c = f) as -> by (pose proof (ly_head _ _ _ _ _ _ L f) as Hh; rewrite Ec in Hh; exact Hh).
    assert (NoDup (chain f ++ [n])) as D.
    { apply list.NoDup_app; repeat split; [apply L|..|apply NoDup_singleton].
      intros i Hi ->%list_elem_of_singleton; pose proof (ly_range _ _ _ _ _ _ L f n Hi); lia. }
    pose proof (split_start n f (chain f) (recs f) (ly_seg _ _ _ _ _ _ L f) D (ly_head _ _ _ _ _ _ L f)) as I0.
    destruct (split_loop_ok (array h) f n (chain f) (recs f) (walk_fuel h) [] [] [] [] [] false false _ I0)
      as (s' & PL & PH & lu & hu & E & I1).
    + rewrite Ec; discriminate.
    + unfold walk_fuel; fold n; pose proof (NoDup_below (chain f) n (ly_nodup _ _ _ _ _ _ L f)
        (ly_range _ _ _ _ _ _ L f)); lia.
    + apply list.Forall_forall; intros i Hi; pose proof (ly_range _ _ _ _ _ _ L f i Hi); lia.
    + apply list.Forall_forall; intros r Hr; fold n; rewrite HB; exact (ly_home _ _ _ _ _ _ L f r Hr).
    + destruct (split_end_ok _ _ _ _ _ _ _ _ _ _ _ I1) as (a' & Ee & SL & SH & Fr).
      rewrite Ec in E; cbn [hd] in E; rewrite E; cbn [fmap option_fmap option_map]; rewrite Ee.
      exists (s_empty s'), a', (split_chain chain PL PH f n); split; [reflexivity|].
      split; [apply split_layout; try assumption; apply I1|].
      assert (s_empty s' ∈ chain f ++ [n]) as He
        by (rewrite <- (si_perm _ _ _ _ _ _ _ _ _ _ _ _ _ I1); set_solver).
      apply elem_of_app in He as [He| ->%list_elem_of_singleton]; [|lia].
      pose proof (ly_range _ _ _ _ _ _ L f _ He); lia.
Qed.

(** *** Placing the record *)

Lemma movelink_ok x e : forall pre rs fuel a, seg a pre rs x -> pre <> [] -> x ∉ pre -> NoDup pre ->
  (length pre <= fuel)%nat ->
  exists a', movelink fuel a x (hd 0 pre) e = Some a' /\ seg a' pre rs e /\
  forall i, i ∉ pre -> a' !! i = a !! i.
Proof.
  induction pre as [|i pre IH]; intros rs fuel a Hs Hne Hx Hd Hf; [contradiction|].
  destruct rs as [|r rs]; [contradiction|]; destruct Hs as [Hi Hs].
  destruct fuel as [|fuel]; [cbn in Hf; lia|]; cbn [movelink hd]; rewrite Hi; cbn [next data].
  apply list.NoDup_cons in Hd as [Hip Hd]; destruct pre as [|j pre].
  - destruct rs; [|contradiction]; cbn [hd]; rewrite Z.eqb_refl; eexists; split; [reflexivity|].
    split; [split; [apply lookup_insert_eq|exact I]|].
    intros m Hm; apply lookup_insert_ne; set_solver.
  - cbn [hd]; replace (j =? x) with false by (symmetry; apply Z.eqb_neq; set_solver).
    destruct (IH rs fuel a Hs) as (a' & E & Hs' & Hfr);
      [discriminate|set_solver|exact Hd|cbn in *; lia|].
    exists a'; split; [exact E|]; split.
    + split; [rewrite Hfr by exact Hip; exact Hi|exact Hs'].
    + intros m Hm; apply Hfr; set_solver.
Qed.

(** The buckets with the record added. *)
Definition add_rec (recs : Z -> list R) (idx : Z) (r : R) (b : Z) : list R :=
  if b =? idx then r :: recs b else recs b.

(** A layout with one bucket changed: the others must not use its positions. *)
Lemma layout_put a a' B n e chain recs b0 l rs :
  layout a B n [e] chain recs -> 0 <= e < n -> 0 <= b0 ->
  seg a' l rs NO_RECORD -> (forall r, r ∈ rs -> hash_mask (H r) B n = b0) -> hd b0 l = b0 ->
  NoDup l -> (forall i, i ∈ l -> (i ∈ chain b0) \/ i = e) ->
  (forall b, b <> b0 -> forall i, i ∈ chain b -> a' !! i = a !! i) ->
  (forall i, i ∈ chain b0 -> i ∈ l) -> e ∈ l ->
  layout a' B n [] (fun b => if b =? b0 then l else chain b)
    (fun b => if b =? b0 then rs else recs b).
Proof.
  intros L He Hb0 Hs Hm Hh Hd Hl Hfr Hsub Hel; constructor.
  - intros b; destruct (Z.eqb_spec b b0) as [|Hb]; [exact Hs|].
    eapply seg_frame; [exact (Hfr b Hb)|apply L].
  - intros b r; destruct (Z.eqb_spec b b0) as [->|]; [apply Hm|apply L].
  - intros b; destruct (Z.eqb_spec b b0) as [->|]; [exact Hh|apply L].
  - intros b; destruct (Z.eqb_spec b b0); [exact Hd|apply L].
  - intros b i; destruct (Z.eqb_spec b b0) as [->|]; [|apply L].
    intros Hi; destruct (Hl i Hi) as [Hc| ->]; [exact (ly_range _ _ _ _ _ _ L _ _ Hc)|exact He].
  - intros b i _ Hi; inversion Hi.
  - intros i Hi _; destruct (Z.eq_dec i e) as [->|Hne].
    + exists b0; rewrite Z.eqb_refl; exact Hel.
    + destruct (ly_cover _ _ _ _ _ _ L i Hi) as [b Hb]; [set_solver|].
      exists b; destruct (Z.eqb_spec b b0) as [->|]; auto.
Qed.

Lemma layout_ext a B n holes chain recs recs' : (forall b, recs b = recs' b) ->
  layout a B n holes chain recs -> layout a B n holes chain recs'.
Proof.
  intros E [L1 L2 L3 L4 L5 L6 L7]; constructor; auto; intros b; rewrite <- E; [apply L1|apply L2].
Qed.

(** The empty position is the head of the record's bucket. *)
Lemma place_at_empty a a' B n e chain recs r : layout a B n [e] chain recs -> 0 <= e < n ->
  hash_mask (H r) B n = e -> a' !! e = Some (mkLink NO_RECORD r) ->
  (forall i, i <> e -> a' !! i = a !! i) ->
  exists chain', layout a' B n [] chain' (add_rec recs e r).
Proof.
  intros L He Hm Ha Hfr.
  assert (forall b, e ∉ chain b) as Hn
    by (intros b Hb; apply (ly_holes _ _ _ _ _ _ L b e Hb); left).
  assert (recs e = []) as Er.
  { apply (layout_nil _ _ _ _ _ _ _ L); destruct (chain e) eqn:E; [reflexivity|exfalso].
    apply (Hn e), (layout_head _ _ _ _ _ _ _ L); rewrite E; discriminate. }
  exists (fun b => if b =? e then [e] else chain b).
  apply (layout_ext _ _ _ _ _ (fun b => if b =? e then [r] else recs b)).
  { intros b; unfold add_rec; destruct (Z.eqb_spec b e) as [->|]; [rewrite Er|]; reflexivity. }
  apply (layout_put a a' B n e chain recs e [e] [r] L He); auto.
  - lia.
  - split; [exact Ha|exact I].
  - intros x ->%list_elem_of_singleton; exact Hm.
  - apply NoDup_singleton.
  - intros i ->%list_elem_of_singleton; auto.
  - intros b _ i Hi; apply Hfr; intros ->; exact (Hn b Hi).
  - intros i Hi; destruct (layout_home _ _ _ _ _ _ _ _ L Hi) as (x & _ & _ & Hx & _).
    rewrite Er in Hx; inversion Hx.
  - left.
Qed.

(** The record at the head of the bucket moves to the empty position. *)
Lemma place_at_head a B n e chain recs r pos : layout a B n [e] chain recs -> 0 <= e < n ->
  let idx := hash_mask (H r) B n in idx <> e -> idx ∈ chain idx -> a !! idx = Some pos ->
  exists chain', layout (<[idx := mkLink e r]> (<[e := pos]> a)) B n [] chain' (add_rec recs idx r).
Proof.
  intros L He idx Hne Hin Hpos.
  assert (forall b, e ∉ chain b) as Hn
    by (intros b Hb; apply (ly_holes _ _ _ _ _ _ L b e Hb); left).
  pose proof (ly_head _ _ _ _ _ _ L idx) as Hh; pose proof (ly_seg _ _ _ _ _ _ L idx) as Hs.
  pose proof (ly_nodup _ _ _ _ _ _ L idx) as Hd; pose proof (Hn idx) as Hni.
  destruct (chain idx) as [|i l] eqn:Ec; [inversion Hin|]; cbn in Hh; subst i.
  destruct (recs idx) as [|q rs] eqn:Er; [contradiction|]; destruct Hs as [Hq Hs].
  rewrite Hpos in Hq; injection Hq as ->; apply list.NoDup_cons in Hd as [Hil Hd].
  exists (fun b => if b =? idx then idx :: e :: l else chain b).
  apply (layout_ext _ _ _ _ _ (fun b => if b =? idx then r :: q :: rs else recs b)).
  { intros b; unfold add_rec; destruct (Z.eqb_spec b idx) as [->|]; [rewrite Er|]; reflexivity. }
  apply (layout_put a _ B n e chain recs idx (idx :: e :: l) (r :: q :: rs) L He).
  - apply (ly_range _ _ _ _ _ _ L idx); rewrite Ec; left.
  - split; [apply lookup_insert_eq|]; split.
    + rewrite lookup_insert_ne by auto; rewrite lookup_insert_eq; reflexivity.
    + apply seg_insert; [exact Hil|]; apply seg_insert; [set_solver|exact Hs].
  - intros x [->|Hx]%elem_of_cons; [reflexivity|]; apply (ly_home _ _ _ _ _ _ L); rewrite Er; exact Hx.
  - reflexivity.
  - apply list.NoDup_cons; split; [set_solver|]; apply list.NoDup_cons; split; [set_solver|exact Hd].
  - intros i Hi; rewrite Ec; set_solver.
  - intros b Hb i Hi; assert (i <> idx) as Hi1.
    { intros ->; apply Hb, (layout_unique _ _ _ _ _ _ _ _ idx L Hi); rewrite Ec; left. }
    assert (i <> e) as Hi2 by (intros ->; exact (Hn b Hi)).
    rewrite !lookup_insert_ne by auto; reflexivity.
  - intros i; rewrite Ec; set_solver.
  - set_solver.
Qed.

(** A record of another bucket moves from [idx] to the empty position. *)
Lemma layout_move a a' B n e chain recs b0 pre idx post : layout a B n [e] chain recs -> 0 <= e < n ->
  chain b0 = pre ++ idx :: post -> pre <> [] ->
  seg a' (pre ++ e :: post) (recs b0) NO_RECORD ->
  (forall b, b <> b0 -> forall i, i ∈ chain b -> a' !! i = a !! i) ->
  layout a' B n [idx] (fun b => if b =? b0 then pre ++ e :: post else chain b) recs.
Proof.
  intros L He Ec Hpre Hs Hfr.
  pose proof (ly_nodup _ _ _ _ _ _ L b0) as Hd; rewrite Ec in Hd.
  assert (forall b, e ∉ chain b) as Hn
    by (intros b Hb; apply (ly_holes _ _ _ _ _ _ L b e Hb); left).
  assert (idx ∈ chain b0) as Hidx by (rewrite Ec; set_solver).
  pose proof (Hn b0) as Hn0; rewrite Ec in Hn0.
  assert (forall i, i ∈ pre ++ e :: post -> i = e \/ (i ∈ chain b0) /\ i <> idx) as Hl.
  { intros i Hi; rewrite Ec; apply list.NoDup_app in Hd as (_ & Hd1 & Hd2).
    apply list.NoDup_cons in Hd2 as [Hd2 _]; apply elem_of_app in Hi as [Hi|[->|Hi]%elem_of_cons]; auto.
    - right; split; [set_solver|]; intros ->; apply (Hd1 idx Hi); left.
    - right; split; [set_solver|]; intros ->; contradiction. }
  constructor.
  - intros b; destruct (Z.eqb_spec b b0) as [->|Hb]; [exact Hs|].
    eapply seg_frame; [exact (Hfr b Hb)|apply L].
  - apply L.
  - intros b; destruct (Z.eqb_spec b b0) as [->|]; [|apply L].
    pose proof (ly_head _ _ _ _ _ _ L b0) as Hh; rewrite Ec in Hh; destruct pre; [contradiction|exact Hh].
  - intros b; destruct (Z.eqb_spec b b0); [|apply L].
    apply list.NoDup_app in Hd as (D1 & D2 & D3); apply list.NoDup_cons in D3 as [D3 D4].
    apply list.NoDup_app; repeat split; [exact D1|set_solver|apply list.NoDup_cons; set_solver].
  - intros b i; destruct (Z.eqb_spec b b0); [|apply L]; intros Hi.
    destruct (Hl i Hi) as [->|[Hc _]]; [exact He|exact (ly_range _ _ _ _ _ _ L _ _ Hc)].
  - intros b i Hi Hx; apply list_elem_of_singleton in Hx; subst i.
    destruct (Z.eqb_spec b b0) as [Eb|Hb].
    + destruct (Hl idx Hi) as [Ei|[_ Hx]]; [subst idx; exact (Hn b0 Hidx)|contradiction].
    + apply Hb; exact (layout_unique _ _ _ _ _ _ _ _ _ L Hi Hidx).
  - intros i Hi Hx; destruct (Z.eq_dec i e) as [->|Hne].
    + exists b0; rewrite Z.eqb_refl; set_solver.
    + destruct (ly_cover _ _ _ _ _ _ L i Hi) as [b Hb]; [set_solver|].
      exists b; destruct (Z.eqb_spec b b0) as [->|]; [|exact Hb]; rewrite Ec in Hb; set_solver.
Qed.

Lemma place_moved a B n e chain recs r pos b0 fuel : layout a B n [e] chain recs -> 0 <= e < n ->
  let idx := hash_mask (H r) B n in idx <> e -> idx ∈ chain b0 -> b0 <> idx -> 0 <= idx < n ->
  a !! idx = Some pos -> (Z.to_nat n <= fuel)%nat ->
  exists a' chain',
  movelink fuel (<[idx := mkLink NO_RECORD r]> (<[e := pos]> a)) idx b0 e = Some a' /\
  layout a' B n [] chain' (add_rec recs idx r).
Proof.
  intros L He idx Hne Hin Hb Hi Hpos Hf.
  assert (forall b, e ∉ chain b) as Hn
    by (intros b Hx; apply (ly_holes _ _ _ _ _ _ L b e Hx); left).
  apply list_elem_of_split in Hin as (pre & post & Ec).
  pose proof (ly_head _ _ _ _ _ _ L b0) as Hh; pose proof (ly_nodup _ _ _ _ _ _ L b0) as Hd.
  pose proof (ly_seg _ _ _ _ _ _ L b0) as Hs; pose proof (Hn b0) as Hn0; rewrite Ec in *.
  assert (pre <> []) as Hpre by (intros ->; cbn in Hh; congruence).
  pose proof (seg_length _ _ _ _ Hs) as Hlen; rewrite length_app in Hlen.
  destruct (recs b0) as [|q0 rs0] eqn:Er; [cbn in Hlen; lia|]; rewrite <- Er in *.
  set (rs1 := firstn (length pre) (recs b0)); set (rs2 := skipn (length pre) (recs b0)).
  assert (length pre = length rs1) as Hl1 by (unfold rs1; rewrite length_firstn; lia).
  assert (recs b0 = rs1 ++ rs2) as Ers by (symmetry; apply firstn_skipn).
  rewrite Ers in Hs; apply seg_app in Hs as [Hs1 Hs2]; [|exact Hl1].
  destruct rs2 as [|q rs2]; [contradiction|]; destruct Hs2 as [Hq Hs2].
  rewrite Hpos in Hq; injection Hq as ->; cbn [hd] in Hs1.
  apply list.NoDup_app in Hd as (D1 & D2 & D3); apply list.NoDup_cons in D3 as [D3 D4].
  set (a1 := <[idx := mkLink NO_RECORD r]> (<[e := _]> a)).
  destruct (movelink_ok idx e pre rs1 fuel a1) as (a' & E & Hs' & Hfr).
  - apply seg_insert; [intros Hx; apply (D2 idx Hx); left|]; apply seg_insert; [set_solver|exact Hs1].
  - exact Hpre.
  - intros Hx; apply (D2 idx Hx); left.
  - exact D1.
  - pose proof (NoDup_below (chain b0) n (ly_nodup _ _ _ _ _ _ L b0) (ly_range _ _ _ _ _ _ L b0)) as Hb0.
    rewrite Ec, length_app in Hb0; lia.
  - assert (forall i, (i ∉ pre) -> i <> idx -> i <> e -> a' !! i = a !! i) as Ha.
    { intros i H1 H2 H3; rewrite Hfr by exact H1; unfold a1; rewrite !lookup_insert_ne by auto; reflexivity. }
    assert (layout a' B n [idx] (fun b => if b =? b0 then pre ++ e :: post else chain b) recs) as L1.
    { apply (layout_move a a' B n e chain recs b0 pre idx post L He Ec Hpre).
      - rewrite Ers; apply seg_app; [exact Hl1|]; split; [exact Hs'|]; split.
        + rewrite Hfr by set_solver; unfold a1; rewrite lookup_insert_ne by auto; apply lookup_insert_eq.
        + revert Hs2; apply seg_frame; intros i Hx; apply Ha; [|set_solver..].
          intros Hp; apply (D2 i Hp); set_solver.
      - intros b Hbb i Hx; assert (i ∉ chain b0) as Hc.
        { intros Hy; apply Hbb; exact (layout_unique _ _ _ _ _ _ _ _ _ L Hx Hy). }
        rewrite Ec in Hc; apply Ha; [set_solver..|]; intros ->; exact (Hn b Hx). }
    destruct (place_at_empty a' a' B n idx _ recs r L1 Hi eq_refl) as [chain' L2]; [|auto|].
    { rewrite Hfr by (intros Hx; apply (D2 idx Hx); left); apply lookup_insert_eq. }
    exists a', chain'; split; [|exact L2]; rewrite <- E; f_equal.
    destruct pre; [contradiction|exact (eq_sym Hh)].
Qed.

Lemma place_record_ok a e chain recs r : let n' := records h + 1 in
  layout a (blength h) n' [e] chain recs -> 0 <= e < n' -> n' < NO_RECORD ->
  0 <= hash_mask (H r) (blength h) n' < n' ->
  exists a' chain', place_record record_bytes get_key hash_sort h r e a = Some a' /\
  layout a' (blength h) n' [] chain' (add_rec recs (hash_mask (H r) (blength h) n') r).
Proof.
  intros n' L He Hn Hi; unfold place_record; fold n'; unfold NO_RECORD in Hn.
  rewrite u32_small by lia; set (idx := hash_mask (H r) (blength h) n') in *.
  destruct (Z.eqb_spec idx e) as [E|E].
  - destruct (place_at_empty a (<[e := mkLink NO_RECORD r]> a) (blength h) n' e chain recs r L He E)
      as [chain' L']; [apply lookup_insert_eq|intros i Hx; apply lookup_insert_ne; auto|].
    rewrite E; exists (<[e := mkLink NO_RECORD r]> a), chain'; split; [reflexivity|exact L'].
  - destruct (ly_cover _ _ _ _ _ _ L idx Hi) as [b Hb];
      [intros Hx; apply list_elem_of_singleton in Hx; contradiction|].
    destruct (layout_home _ _ _ _ _ _ _ _ L Hb) as (q & nx & Eq & _ & Hm); rewrite Eq.
    unfold hash_rec_mask; cbn [data]; fold (rec_hashnr record_bytes get_key hash_sort h q).
    rewrite Hm; destruct (Z.eqb_spec idx b) as [<-|Hne].
    + destruct (place_at_head a (blength h) n' e chain recs r _ L He E Hb Eq) as [chain' L'].
      eexists _, chain'; split; [reflexivity|exact L'].
    + destruct (place_moved a (blength h) n' e chain recs r _ b (walk_fuel h) L He E Hb
                  (not_eq_sym Hne) Hi Eq) as (a' & chain' & Em & L'); [unfold walk_fuel; lia|].
      exists a', chain'; split; [exact Em|exact L'].
Qed.

End Insert.

(** *** The table *)

Section Tables.
Context {R : Type}.
Variable record_bytes : R -> list Z.
Variable get_key : option (R -> list Z).
Variable hash_sort : list Z -> Z.
Variable strnncoll : list Z -> list Z -> Z.
Context {CO : Collation hash_sort strnncoll}.

Local Abbreviation hash_key := (hash_key record_bytes get_key).
Local Abbreviation layout := (layout record_bytes get_key hash_sort).
Local Abbreviation hash_first := (hash_first record_bytes get_key hash_sort strnncoll).
Local Abbreviation first_loop := (first_loop record_bytes get_key hash_sort strnncoll).
Local Abbreviation my_hash_insert := (my_hash_insert record_bytes get_key hash_sort strnncoll).
Local Abbreviation rec_hashnr := (rec_hashnr record_bytes get_key hash_sort).

(** The records by bucket. *)
Definition table_rep (h : HASH R) (recs : Z -> list R) : Prop :=
  (records h = 0 /\ blength h = 1 /\ forall b, recs b = []) \/
  exists k chain, sizes_ok k (records h) /\ blength h = 2 ^ (k + 1) /\
  layout h (array h) (blength h) (records h) [] chain recs.

Definition buckets (recs : Z -> list R) (n : Z) : list R := concat (map recs (seqZ 0 n)).

(** The table holds these records, each as often as in the list. *)
Definition table_holds (h : HASH R) (l : list R) : Prop :=
  exists recs, table_rep h recs /\ l ≡ₚ buckets recs (records h).

(** The comparison of [hash_search] with a whole key. *)
Definition key_matches (h : HASH R) (key : list Z) (r : R) : bool :=
  (length key =? length (hash_key h r))%nat && (strnncoll (hash_key h r) key =? 0).

Lemma hashcmp_matches h key nx r : key <> [] ->
  hashcmp record_bytes get_key strnncoll h (mkLink nx r) key (length key) = negb (key_matches h key r).
Proof.
  intros Hk; unfold hashcmp, key_matches; cbn [data].
  replace (length key =? 0)%nat with false by (destruct key; [contradiction|reflexivity]); cbn [negb andb].
  destruct (Nat.eqb_spec (length key) (length (hash_key h r))) as [E|E]; cbn [negb andb orb]; [|reflexivity].
  rewrite <- E, firstn_all; reflexivity.
Qed.

Lemma matches_hash h key r : key_matches h key r = true -> rec_hashnr h r = hash_sort key.
Proof.
  unfold key_matches; intros [_ E]%andb_true_iff; apply Z.eqb_eq in E; exact (coll_hash _ _ E).
Qed.

(** Following a chain finds a matching record or shows there is none. *)
Lemma first_loop_chain h key : key <> [] -> forall l rs fuel (flag : bool),
  seg (array h) l rs NO_RECORD -> l <> [] -> Forall (fun i => i <> NO_RECORD) l -> (length l <= fuel)%nat ->
  (flag = true -> forall r, hd_error rs = Some r ->
     hash_mask (rec_hashnr h r) (blength h) (records h) = hd 0 l) ->
  exists res, first_loop fuel h key (length key) (hd 0 l) flag = Some res /\
  match res with
  | Some (_, r) => r ∈ rs /\ key_matches h key r = true
  | None => forall r, r ∈ rs -> key_matches h key r = false
  end.
Proof.
  intros Hk; induction l as [|i l IH]; intros rs fuel flag Hs Hne Hp Hf Hfl; [contradiction|].
  destruct rs as [|r rs]; [contradiction|]; destruct Hs as [Hi Hs].
  destruct fuel as [|fuel]; [cbn in Hf; lia|]; cbn [Hash.first_loop hd]; rewrite Hi.
  rewrite hashcmp_matches by exact Hk; cbn [data next]; rewrite negb_involutive.
  destruct (key_matches h key r) eqn:Em; [eexists; split; [reflexivity|]; split; [left|exact Em]|].
  apply Forall_cons_iff in Hp as [_ Hp].
  replace (flag && _) with false.
  2: { destruct flag; [|reflexivity]; cbn [hd hd_error] in Hfl; unfold hash_rec_mask; cbn [data].
       rewrite <- (Hfl eq_refl r eq_refl); symmetry; apply andb_false_iff; right.
       apply negb_false_iff, Z.eqb_refl. }
  destruct l as [|j l].
  - destruct rs; [|contradiction]; cbn [hd]; rewrite Z.eqb_refl; eexists; split; [reflexivity|].
    intros x ->%list_elem_of_singleton; exact Em.
  - cbn [hd]; replace (j =? NO_RECORD) with false by (apply Forall_cons_iff in Hp as [Hj _]; lia).
    destruct (IH rs fuel false Hs ltac:(discriminate) Hp ltac:(cbn in *; lia) ltac:(discriminate))
      as (res & E & Hres).
    exists res; split; [exact E|]; destruct res as [[p x]|].
    + destruct Hres; split; [right; assumption|assumption].
    + intros x [->|Hx]%elem_of_cons; [exact Em|auto].
Qed.

Lemma elem_of_buckets recs n r : r ∈ buckets recs n <-> exists b, 0 <= b < n /\ r ∈ recs b.
Proof.
  unfold buckets; rewrite list_elem_of_In, in_concat; split.
  - intros (l & (b & <- & Hb)%in_map_iff & Hr); apply list_elem_of_In, elem_of_seqZ in Hb.
    exists b; split; [lia|apply list_elem_of_In; exact Hr].
  - intros (b & Hb & Hr); exists (recs b); split; [|apply list_elem_of_In; exact Hr].
    apply in_map, list_elem_of_In, elem_of_seqZ; lia.
Qed.

Lemma search_ok h recs key : table_rep h recs -> key <> [] -> records h < NO_RECORD ->
  exists res, hash_first h key (length key) = Some res /\
  match res with
  | Some (_, r) => r ∈ buckets recs (records h) /\ key_matches h key r = true
  | None => forall r, r ∈ buckets recs (records h) -> key_matches h key r = false
  end.
Proof.
  intros Ht Hk Hn; unfold Hash.hash_first.
  destruct Ht as [(E0 & _ & Hr)|(k & chain & Hs & HB & L)].
  { rewrite E0; eexists; split; [reflexivity|]; intros r (b & Hb & _)%elem_of_buckets; lia. }
  replace (length key =? 0)%nat with false by (destruct key; [contradiction|reflexivity]).
  replace (records h =? 0) with false
    by (destruct Hs as [? [? _]]; pose proof (Z.pow_pos_nonneg 2 k); lia).
  rewrite firstn_all; unfold calc_hash; set (idx := hash_mask (hash_sort key) (blength h) (records h)).
  assert (0 <= idx < records h) as Hi by (unfold idx; rewrite HB; apply hash_mask_range; exact Hs).
  assert (forall b r, r ∈ recs b -> key_matches h key r = true -> b = idx) as Hhome.
  { intros b r Hr Hm; rewrite <- (ly_home _ _ _ _ _ _ _ _ _ _ L b r Hr), (matches_hash _ _ _ Hm).
    reflexivity. }
  assert (forall r, r ∈ recs idx -> r ∈ buckets recs (records h)) as Hin
    by (intros r Hr; apply elem_of_buckets; exists idx; auto).
  destruct (chain idx) as [|c cs] eqn:Ec.
  - assert (recs idx = []) as Er by (eapply layout_nil; [exact L|exact Ec]).
    assert (forall b r, r ∈ recs b -> key_matches h key r = false) as Hno.
    { intros b r Hr; destruct (key_matches h key r) eqn:Em; [|reflexivity].
      rewrite (Hhome b r Hr Em), Er in Hr; inversion Hr. }
    destruct (ly_cover _ _ _ _ _ _ _ _ _ _ L idx Hi ltac:(set_solver)) as [b Hb].
    destruct (layout_home _ _ _ _ _ _ _ _ _ _ _ _ L Hb) as (q & nx & E & Hq & Hm).
    exists None; split; [|intros r (b' & _ & Hr)%elem_of_buckets; exact (Hno b' r Hr)].
    unfold walk_fuel; cbn [Hash.first_loop]; rewrite E, hashcmp_matches by exact Hk.
    rewrite (Hno b q Hq); cbn [negb]; unfold hash_rec_mask; cbn [data].
    fold (rec_hashnr h q); rewrite Hm; replace (b =? idx) with false; [reflexivity|].
    symmetry; apply Z.eqb_neq; intros ->; rewrite Ec in Hb; inversion Hb.
  - assert (hd 0 (chain idx) = idx) as Hh
      by (pose proof (ly_head _ _ _ _ _ _ _ _ _ _ L idx) as X; rewrite Ec in *; exact X).
    destruct (first_loop_chain h key Hk (chain idx) (recs idx) (walk_fuel h) true) as (res & E & Hres).
    + apply (ly_seg _ _ _ _ _ _ _ _ _ _ L).
    + rewrite Ec; discriminate.
    + apply list.Forall_forall; intros i Hx; pose proof (ly_range _ _ _ _ _ _ _ _ _ _ L idx i Hx); lia.
    + pose proof (NoDup_below (chain idx) (records h) (ly_nodup _ _ _ _ _ _ _ _ _ _ L idx)
        (ly_range _ _ _ _ _ _ _ _ _ _ L idx)); unfold walk_fuel; lia.
    + intros _ r Hr; rewrite Hh; apply (ly_home _ _ _ _ _ _ _ _ _ _ L); destruct (recs idx); [discriminate|].
      injection Hr as ->; left.
    + rewrite Hh in E; exists res; split; [exact E|]; destruct res as [[p r]|].
      * destruct Hres; split; [auto|assumption].
      * intros r (b & _ & Hr)%elem_of_buckets; destruct (key_matches h key r) eqn:Em; [|reflexivity].
        rewrite <- Em; apply Hres; rewrite <- (Hhome b r Hr Em); exact Hr.
Qed.

(** *** The records of all buckets *)

Lemma buckets_ext recs recs' n : (forall b, 0 <= b < n -> recs b = recs' b) ->
  buckets recs n = buckets recs' n.
Proof.
  intros E; unfold buckets; f_equal; apply map_ext_in; intros b Hb.
  apply E; apply list_elem_of_In, elem_of_seqZ in Hb; lia.
Qed.

Lemma buckets_succ recs n : 0 <= n -> buckets recs (n + 1) = buckets recs n ++ recs n.
Proof.
  intros Hn; unfold buckets; rewrite seqZ_app by lia; rewrite map_app, concat_app.
  replace (seqZ (0 + n) 1) with [n] by reflexivity; cbn [map concat]; rewrite app_nil_r; reflexivity.
Qed.

Lemma buckets_update recs f n X : 0 <= f < n ->
  buckets (fun b => if b =? f then X else recs b) n ++ recs f ≡ₚ X ++ buckets recs n.
Proof.
  intros Hf; assert (f ∈ seqZ 0 n) as Hin by (apply elem_of_seqZ; lia).
  pose proof (NoDup_seqZ 0 n) as Hd; apply list_elem_of_split in Hin as (l1 & l2 & E).
  unfold buckets; rewrite E in *; rewrite !map_app, !concat_app; cbn [map concat].
  rewrite Z.eqb_refl; apply list.NoDup_app in Hd as (_ & D1 & D2); apply list.NoDup_cons in D2 as [D2 _].
  assert (forall l, (f ∉ l) -> map (fun b => if b =? f then X else recs b) l = map recs l) as Hext.
  { intros l Hl; apply map_ext_in; intros b Hb; apply list_elem_of_In in Hb.
    replace (b =? f) with false; [reflexivity|]; symmetry; apply Z.eqb_neq; intros ->; contradiction. }
  rewrite (Hext l1), (Hext l2); [|exact D2|intros Hx; apply (D1 f Hx); left].
  clear; solve_Permutation.
Qed.

Lemma filter_split (p : R -> bool) l : List.filter p l ++ List.filter (fun r => negb (p r)) l ≡ₚ l.
Proof.
  induction l as [|x l IH]; [reflexivity|]; cbn [List.filter]; destruct (p x); cbn [negb app].
  - constructor; exact IH.
  - rewrite <- Permutation_middle; constructor; exact IH.
Qed.

Lemma buckets_split h k recs f n : 0 <= f < n ->
  buckets (split_recs record_bytes get_key hash_sort h k recs f n) (n + 1) ≡ₚ buckets recs n.
Proof.
  intros Hf; rewrite buckets_succ by lia; unfold split_recs at 2; rewrite Z.eqb_refl.
  set (p := stays record_bytes get_key hash_sort h k).
  rewrite (buckets_ext _ (fun b => if b =? f then List.filter p (recs f) else recs b)).
  2: { intros b Hb; unfold split_recs; replace (b =? n) with false by lia; reflexivity. }
  pose proof (buckets_update recs f n (List.filter p (recs f)) Hf) as P.
  apply (Permutation_app_inv_l (List.filter p (recs f))); rewrite <- P.
  transitivity (buckets (fun b => if b =? f then List.filter p (recs f) else recs b) n
    ++ (List.filter p (recs f) ++ List.filter (fun r => negb (p r)) (recs f))).
  - clear; solve_Permutation.
  - apply Permutation_app_head, filter_split.
Qed.

Lemma buckets_add recs idx r n : 0 <= idx < n -> buckets (add_rec recs idx r) n ≡ₚ r :: buckets recs n.
Proof.
  intros Hi; pose proof (buckets_update recs idx n (r :: recs idx) Hi) as P.
  rewrite (buckets_ext _ (add_rec recs idx r)) in P.
  2: { intros b _; unfold add_rec; destruct (Z.eqb_spec b idx) as [->|]; reflexivity. }
  apply (Permutation_app_inv_r (recs idx)); rewrite P; clear; solve_Permutation.
Qed.

(** *** Insertion *)

(** What [my_hash_insert] does after the check for duplicates. *)
Definition insert_new (h : HASH R) (record : R) : option (HASH R) :=
  match split_bucket record_bytes get_key hash_sort h with
  | Some (empty, a) =>
      match place_record record_bytes get_key hash_sort h record empty a with
      | Some a =>
          let records' := u32 (records h + 1) in
          Some (mkHash (key_offset h) (key_length h)
                  (if records' =? blength h then u32 (blength h + blength h) else blength h)
                  records' (flags h) a)
      | None => None
      end
  | None => None
  end.

(** A table whose bucket count has just been completed may double it. *)
Lemma grow_ok h k recs a chain n' : 0 <= k -> 2 ^ k <= n' <= 2 ^ (k + 1) -> n' < 2147483648 ->
  layout h a (2 ^ (k + 1)) n' [] chain recs ->
  table_rep (mkHash (key_offset h) (key_length h)
    (if n' =? 2 ^ (k + 1) then u32 (2 ^ (k + 1) + 2 ^ (k + 1)) else 2 ^ (k + 1)) n' (flags h) a) recs.
Proof.
  intros Hk Hn Hlt L; right.
  assert (k < 31) as Hk'.
  { destruct (Z.lt_ge_cases k 31) as [|G]; [assumption|].
    apply (Z.pow_le_mono_r 2) in G; [|lia]; change (2 ^ 31) with 2147483648 in G; lia. }
  destruct (Z.eqb_spec n' (2 ^ (k + 1))) as [E|E].
  - assert (k + 1 < 31) as Hk1.
    { destruct (Z.lt_ge_cases (k + 1) 31) as [|G]; [assumption|].
      apply (Z.pow_le_mono_r 2) in G; [|lia]; change (2 ^ 31) with 2147483648 in G; lia. }
    assert (2 ^ (k + 2) = 2 ^ (k + 1) + 2 ^ (k + 1)) as E2
      by (replace (k + 2) with (k + 1 + 1) by lia; rewrite (Z.pow_add_r 2 (k + 1)) by lia; lia).
    pose proof (Z.pow_pos_nonneg 2 (k + 1)).
    exists (k + 1), chain; cbn [records blength array]; rewrite u32_small, <- E2 by lia.
    replace (k + 1 + 1) with (k + 2) by lia; split; [|split; [reflexivity|]].
    + unfold sizes_ok; replace (k + 1 + 1) with (k + 2) by lia; rewrite E2; lia.
    + destruct L as [L1 L2 L3 L4 L5 L6 L7]; constructor; auto.
      intros b r Hr; rewrite <- (L2 b r Hr), E; apply hash_mask_double; lia.
  - exists k, chain; cbn [records blength array]; split; [unfold sizes_ok; lia|].
    split; [reflexivity|]; destruct L as [L1 L2 L3 L4 L5 L6 L7]; constructor; auto.
Qed.

Lemma insert_first h r : records h = 0 -> blength h = 1 ->
  exists h', insert_new h r = Some h' /\ records h' = 1 /\
  table_rep h' (add_rec (fun _ => []) 0 r).
Proof.
  intros E0 E1; unfold insert_new, split_bucket; rewrite E0, E1.
  change (negb (u32 (0 - Z.shiftr 1 1) =? 0)) with false; cbv iota.
  unfold place_record; rewrite E0, E1; change (u32 (0 + 1)) with 1.
  assert (hash_mask (rec_hashnr h r) 1 1 = 0) as ->.
  { unfold hash_mask; change (u32 (1 - 1)) with 0; rewrite Z.land_0_r; reflexivity. }
  eexists; split; [reflexivity|]; split; [reflexivity|]; right.
  assert (forall x, hash_mask x (u32 (1 + 1)) 1 = 0) as Hm.
  { intros x; change (u32 (1 + 1)) with (2 ^ (0 + 1)).
    pose proof (hash_mask_range x 0 1 ltac:(unfold sizes_ok; cbn; lia)); lia. }
  exists 0, (fun b => if b =? 0 then [0] else []); cbn [records blength array Z.eqb].
  split; [unfold sizes_ok; cbn; lia|]; split; [reflexivity|]; constructor; unfold add_rec.
  - intros b; destruct (b =? 0); [split; [apply lookup_insert_eq|exact I]|exact I].
  - intros b x; destruct (Z.eqb_spec b 0) as [->|]; [|intros Hx; inversion Hx]; intros _.
    apply Hm.
  - intros b; destruct (Z.eqb_spec b 0); auto.
  - intros b; destruct (b =? 0); [apply NoDup_singleton|constructor].
  - intros b i; destruct (b =? 0); [intros ->%list_elem_of_singleton; lia|intros Hx; inversion Hx].
  - intros b i _ Hx; inversion Hx.
  - intros i Hi _; exists 0; assert (i = 0) as -> by lia; left.
Qed.

Lemma insert_new_ok h recs r : table_rep h recs -> records h < 2147483647 ->
  exists h' recs', insert_new h r = Some h' /\ table_rep h' recs' /\ records h' = records h + 1 /\
  buckets recs' (records h') ≡ₚ r :: buckets recs (records h).
Proof.
  intros [(E0 & E1 & Hr)|(k & chain & Hs & HB & L)] Hlt.
  - destruct (insert_first h r E0 E1) as (h' & E & En & T); exists h', (add_rec (fun _ => []) 0 r).
    rewrite En, E0; repeat split; assumption || reflexivity.
  - pose proof Hs as [Hk Hn]; assert (0 < 2 ^ k) by (apply Z.pow_pos_nonneg; lia).
    destruct (split_bucket_ok record_bytes get_key hash_sort h k chain recs L Hs HB) as (e & a & chain1 & E1 & L1 & He);
      [unfold NO_RECORD; lia|].
    set (idx := hash_mask (rec_hashnr h r) (blength h) (records h + 1)).
    assert (0 <= idx < records h + 1) as Hi.
    { unfold idx; rewrite HB, hash_mask_split by exact Hs.
      pose proof (hash_mask_range (rec_hashnr h r) k (records h) Hs); case_if; lia. }
    destruct (place_record_ok record_bytes get_key hash_sort h a e chain1 _ r L1 ltac:(lia)
                ltac:(unfold NO_RECORD; lia) Hi) as (a' & chain' & E2 & L2).
    rewrite HB in L2; apply (grow_ok h k) in L2; [|lia|lia|lia].
    unfold insert_new; rewrite E1, E2, (u32_small (records h + 1)), HB by lia.
    eexists _, _; split; [reflexivity|]; split; [exact L2|]; split; [reflexivity|].
    cbn [records]; rewrite buckets_add by (unfold idx in Hi; rewrite HB in Hi; exact Hi).
    constructor; apply buckets_split; lia.
Qed.

Lemma my_hash_insert_eq h r : my_hash_insert h r =
  match (if has HASH_UNIQUE (flags h) then hash_first h (hash_key h r) (length (hash_key h r)) else Some None) with
  | None => None
  | Some (Some _) => Some (true, h)
  | Some None => (fun h' => (false, h')) <$> insert_new h r
  end.
Proof.
  unfold Hash.my_hash_insert, insert_new; destruct (if has _ _ then _ else _) as [[?|]|]; try reflexivity.
  destruct (split_bucket _ _ _ _) as [[e a]|]; [|reflexivity].
  destruct (place_record _ _ _ _ _ _ _); reflexivity.
Qed.

End Tables.

Lemma init_holds {R} record_bytes get_key hash_sort offset len fl :
  table_holds record_bytes get_key hash_sort (hash_init offset len fl : HASH R) [].
Proof.
  exists (fun _ => []); split; [left; auto|reflexivity].
Qed.

(** ** Properties *)

(** Searching a hash table by a whole key returns a record of the table whose
    key compares equal, and finds none only if there is none: records that were
    stored at the position of another bucket are neither missed nor mistaken. *)
Theorem hash_search_correct {R} (record_bytes : R -> list Z) (get_key : option (R -> list Z))
    (hash_sort : list Z -> Z) (strnncoll : list Z -> list Z -> Z) {CO : Collation hash_sort strnncoll}
    (h : HASH R) (l : list R) (key : list Z) :
  table_holds record_bytes get_key hash_sort h l -> records h < NO_RECORD -> key <> [] ->
  exists res, hash_first record_bytes get_key hash_sort strnncoll h key (length key) = Some res /\
  match res with
  | Some (_, r) => r ∈ l /\ key_matches record_bytes get_key strnncoll h key r = true
  | None => forall r, r ∈ l -> key_matches record_bytes get_key strnncoll h key r = false
  end.
Proof.
  intros (recs & Ht & P) Hn Hk; destruct (search_ok record_bytes get_key hash_sort strnncoll h recs key Ht Hk Hn)
    as (res & E & Hres); exists res; split; [exact E|].
  destruct res as [[i r]|]; [destruct Hres; split; [rewrite P|]; assumption|].
  intros r Hr; apply Hres; rewrite <- P; exact Hr.
Qed.

(** Inserting into a hash table of fewer than 2^31-1 records adds exactly the
    new record and keeps every other, whatever records the split and the
    displacement move; with HASH_UNIQUE a record whose key is present is refused
    and the table stays as it is. *)
Theorem hash_insert_correct {R} (record_bytes : R -> list Z) (get_key : option (R -> list Z))
    (hash_sort : list Z -> Z) (strnncoll : list Z -> list Z -> Z) {CO : Collation hash_sort strnncoll}
    (h : HASH R) (l : list R) (r : R) :
  table_holds record_bytes get_key hash_sort h l -> records h < 2147483647 ->
  hash_key record_bytes get_key h r <> [] ->
  exists dup h', my_hash_insert record_bytes get_key hash_sort strnncoll h r = Some (dup, h') /\
  dup = has HASH_UNIQUE (flags h)
        && existsb (key_matches record_bytes get_key strnncoll h (hash_key record_bytes get_key h r)) l /\
  if dup then h' = h
  else table_holds record_bytes get_key hash_sort h' (r :: l) /\ records h' = records h + 1.
Proof.
  intros (recs & Ht & P) Hn Hk; rewrite my_hash_insert_eq.
  destruct (insert_new_ok record_bytes get_key hash_sort h recs r Ht Hn) as (h' & recs' & E & Ht' & En & P').
  assert (table_holds record_bytes get_key hash_sort h' (r :: l)) as Hh
    by (exists recs'; split; [exact Ht'|rewrite P'; constructor; exact P]).
  destruct (has HASH_UNIQUE (flags h)); cbn [andb].
  - destruct (search_ok record_bytes get_key hash_sort strnncoll h recs (hash_key record_bytes get_key h r) Ht Hk)
      as (res & Es & Hres); [unfold NO_RECORD; lia|]; rewrite Es; destruct res as [[i x]|].
    + destruct Hres as [Hx Hm]; exists true, h; repeat split; symmetry; apply existsb_exists.
      exists x; split; [apply list_elem_of_In; rewrite P; exact Hx|exact Hm].
    + exists false, h'; rewrite E; repeat split; auto; symmetry; apply not_true_iff_false.
      intros (x & Hx & Hm)%existsb_exists; rewrite Hres in Hm; [discriminate|].
      rewrite <- P; apply list_elem_of_In; exact Hx.
  - exists false, h'; rewrite E; auto.
Qed.

(** Records that are their own key, compared bytewise, with a poor hash. *)
Definition byte_hash (s : list Z) : Z := u32 (fold_left Z.add s 0).
Definition byte_coll (a b : list Z) : Z := if decide (a = b) then 0 else 1.

#[export] Instance byte_collation : Collation byte_hash byte_coll.
Proof.
  constructor; [intros s; apply u32_range|]; unfold byte_coll; intros a b.
  destruct (decide (a = b)) as [->|]; [reflexivity|discriminate].
Qed.

Lemma hash_insert_correct_witness :
  exists dup h', my_hash_insert id None byte_hash byte_coll (hash_init 0 2 1) [7; 9] = Some (dup, h') /\
  dup = false /\ table_holds id None byte_hash h' [[7; 9]].
Proof.
  destruct (hash_insert_correct id None byte_hash byte_coll (hash_init 0 2 1) [] [7; 9])
    as (dup & h' & E & Ed & H).
  - apply init_holds.
  - cbn; lia.
  - discriminate.
  - rewrite andb_false_r in Ed; subst dup; exists false, h'; split; [exact E|]; split; [reflexivity|apply H].
Defined.

Lemma hash_search_correct_witness :
  exists res, hash_first id None byte_hash byte_coll (hash_init 0 2 0) [7; 9] 2 = Some res /\ res = None.
Proof.
  destruct (hash_search_correct id None byte_hash byte_coll (hash_init 0 2 0) [] [7; 9]) as (res & E & H).
  - apply init_holds.
  - reflexivity.
  - discriminate.
  - exists res; split; [exact E|]; destruct res as [[i r]|]; [destruct H as [H _]; inversion H|reflexivity].
Defined.

(** Twenty records in a table, some of them displaced, are all found. *)
Example twenty_records :
  let insert h n := match h with
    | Some h => snd <$> my_hash_insert id None byte_hash byte_coll h [n * 5 mod 23; n]
    | None => None end in
  let keys := seqZ 0 20 in
  match fold_left insert keys (Some (hash_init 0 2 1)) with
  | Some h => forallb (fun n => match hash_first id None byte_hash byte_coll h [n * 5 mod 23; n] 2 with
                                | Some (Some _) => true | _ => false end) keys
  | None => false
  end = true.
Proof. vm_compute; reflexivity. Qed.
