(* ===== verification/NumConv.v ===== *)
(** Integers to decimal text and back: [src/drizzled/internal/int2str.cc],
    [longlong2str.cc], [llstr.cc] and [src/drizzled/my_strtoll10.cc].

    Text is a list of byte values.  A printer gives the bytes it writes before
    the terminating zero.  The reader works on the bytes from its position and
    the number of bytes left before [end]; a byte past the list is the
    terminating zero. *)

From Stdlib Require Import ZArith Lia ZifyBool List Bool.
From S2P Require Import Prelude.
Import ListNotations.
Local Open Scope Z_scope.

(** ** Model: printing *)

Definition chr_minus : Z := 45.
Definition chr_plus : Z := 43.
Definition chr_0 : Z := 48.

(** src/drizzled/internal/int2str.cc:64-69 int10_to_str

    The loop; ten digits hold every 31-bit value. *)
Fixpoint int10_loop (fuel : nat) (val : Z) (p : list Z) : list Z :=
  match fuel with
  | O => p
  | S fuel' =>
      if val =? 0 then p
      else let new_val := val ÷ 10 in int10_loop fuel' new_val (48 + (val - new_val * 10) :: p)
  end.

(** src/drizzled/internal/int2str.cc:42-72 int10_to_str *)
Definition int10_to_str (val radix : Z) : list Z :=
  let uval := u32 val in
  let '(dst, uval) :=
    if (radix <? 0) && (val <? 0) then ([chr_minus], u32 (0 - uval)) else ([], uval) in
  let new_val := i32 (uval / 10) in
  dst ++ int10_loop 10 new_val [48 + u32 (uval - u32 (u32 new_val * 10))].

(** src/drizzled/internal/longlong2str.cc:49-50 _dig_vec_upper *)
Definition dig_vec_upper (i : Z) : Z := if i <? 10 then 48 + i else 55 + i.

(** src/drizzled/internal/longlong2str.cc:84-90 int64_t2str

    While the value does not fit [long]; [None] when the fuel is used up. *)
Fixpoint unsigned_loop (fuel : nat) (radix uval : Z) (p : list Z) : option (Z * list Z) :=
  match fuel with
  | O => None
  | S fuel' =>
      if uval >? 9223372036854775807 then
        let quo := uval / radix in
        let rem := u32 (uval - u64 (quo * radix)) in
        unsigned_loop fuel' radix quo (dig_vec_upper rem :: p)
      else Some (uval, p)
  end.

(** src/drizzled/internal/longlong2str.cc:92-97 int64_t2str *)
Fixpoint signed_loop (fuel : nat) (radix long_val : Z) (p : list Z) : option (list Z) :=
  match fuel with
  | O => None
  | S fuel' =>
      if long_val =? 0 then Some p
      else
        let quo := long_val ÷ radix in
        signed_loop fuel' radix quo (dig_vec_upper (u8 (long_val - quo * radix)) :: p)
  end.

(** The length of the local buffer. *)
Definition buffer_size : nat := 65.

(** src/drizzled/internal/longlong2str.cc:75-100 int64_t2str

    [None] when the digits do not fit the buffer. *)
Definition put_digits (radix uval : Z) : option (list Z) :=
  if uval =? 0 then Some [chr_0]
  else
    match unsigned_loop buffer_size radix uval [] with
    | Some (v, p) => signed_loop (buffer_size - length p) radix v p
    | None => None
    end.

(** src/drizzled/internal/longlong2str.cc:56-101 int64_t2str

    The inner option is the null pointer for a bad radix. *)
Definition int64_t2str (val radix : Z) : option (option (list Z)) :=
  let uval := u64 val in
  if radix <? 0 then
    if (radix <? -36) || (radix >? -2) then Some None
    else if val <? 0
    then option_map (fun p => Some (chr_minus :: p)) (put_digits (- radix) (u64 (0 - uval)))
    else option_map Some (put_digits (- radix) uval)
  else if (radix >? 36) || (radix <? 2) then Some None
  else option_map Some (put_digits radix uval).

(** src/drizzled/internal/longlong2str.cc:106-147 int64_t10_to_str *)
Definition int64_t10_to_str (val radix : Z) : option (list Z) :=
  let uval := u64 val in
  if (radix <? 0) && (val <? 0)
  then option_map (fun p => chr_minus :: p) (put_digits 10 (u64 (0 - uval)))
  else put_digits 10 uval.

(** src/drizzled/internal/llstr.cc:34-38 llstr *)
Definition llstr (value : Z) : option (list Z) := int64_t10_to_str value (-10).

(** src/drizzled/internal/llstr.cc:40-44 ullstr *)
Definition ullstr (value : Z) : option (list Z) := int64_t10_to_str value 10.

(** ** Model: reading *)

(** src/drizzled/my_strtoll10.cc:25-25 MAX_NEGATIVE_NUMBER *)
Definition MAX_NEGATIVE_NUMBER : Z := 9223372036854775808.
(** src/drizzled/my_strtoll10.cc:26-26 INIT_CNT *)
Definition INIT_CNT : Z := 9.
(** src/drizzled/my_strtoll10.cc:27-27 LFACTOR *)
Definition LFACTOR : Z := 1000000000.
(** src/drizzled/my_strtoll10.cc:28-28 LFACTOR1 *)
Definition LFACTOR1 : Z := 10000000000.
(** src/drizzled/my_strtoll10.cc:29-29 LFACTOR2 *)
Definition LFACTOR2 : Z := 100000000000.
Definition UINT64_MAX : Z := 18446744073709551615.
Definition INT64_MAX : Z := 9223372036854775807.
Definition INT64_MIN : Z := -9223372036854775808.
Definition ERANGE : Z := 34.
Definition EDOM : Z := 33.

(** src/drizzled/my_strtoll10.cc:31-34 lfactor *)
Definition lfactor : list Z := [1; 10; 100; 1000; 10000; 100000; 1000000; 10000000; 100000000].

(** A position: the bytes from there on, and how many are left before [end]. *)
Definition cursor : Type := (list Z * Z)%type.

Definition deref (s : cursor) : Z := hd 0 (fst s).
Definition advance (s : cursor) : cursor := (tl (fst s), snd s - 1).
Definition ended (s : cursor) : bool := snd s =? 0.

(** The digit at the position, above 9 if it is none. *)
Definition digit_at (s : cursor) : Z := u8 (deref s - 48).

(** src/drizzled/my_strtoll10.cc:94-95 my_strtoll10

    Spaces; in a text without [endptr] (lines 102-103) the bytes end with the
    terminating zero. *)
Fixpoint skip_blanks (s : list Z) (left : Z) : cursor :=
  match s with
  | c :: rest => if (c =? 32) || (c =? 9) then skip_blanks rest (left - 1) else (s, left)
  | [] => ([], left)
  end.

(** src/drizzled/my_strtoll10.cc:139-145 my_strtoll10

    The zeros in front; [true] when the text ends with them. *)
Fixpoint skip_zeros (s : list Z) (left : Z) : cursor * bool :=
  match s with
  | c :: rest =>
      if left - 1 =? 0 then ((rest, 0), true)
      else if hd 0 rest =? chr_0 then skip_zeros rest (left - 1) else ((rest, left - 1), false)
  | [] => (([], left), false)
  end.

(** src/drizzled/my_strtoll10.cc:159-164 my_strtoll10

    At most [n] digits; [true] when a byte is no digit.  Lines 174-179 are the
    same loop. *)
Fixpoint read_digits (n : nat) (s : cursor) (v : Z) : Z * cursor * bool :=
  match n with
  | O => (v, s, false)
  | S n' =>
      let c := digit_at s in
      if c >? 9 then (v, s, true) else read_digits n' (advance s) (u64 (v * 10 + c))
  end.

(** The value, the error and the position where reading stopped. *)
Definition read_result : Type := (Z * Z * cursor)%type.

Section Number.
Variables negative : bool.

Definition signed_result (li : Z) : Z := if negative then i64 (- i64 li) else i64 li.
Definition ok_error : Z := if negative then -1 else 0.

(** src/drizzled/my_strtoll10.cc:207-209 my_strtoll10 *)
Definition overflow (s : cursor) : read_result :=
  (if negative then INT64_MIN else INT64_MAX, ERANGE, s).

Definition limit : Z := if negative then MAX_NEGATIVE_NUMBER else UINT64_MAX.

(** src/drizzled/my_strtoll10.cc:118-120 my_strtoll10

    Also lines 130-132. *)
Definition cutoff : Z := limit / LFACTOR2.
Definition cutoff2 : Z := limit mod LFACTOR2 / 100.
Definition cutoff3 : Z := limit mod 100.

(** src/drizzled/my_strtoll10.cc:189-205 my_strtoll10

    The last one or two digits; also lines 225-234. *)
Definition read_k (i j : Z) (s : cursor) : read_result :=
  let k := digit_at s in
  let s := advance s in
  if ended s || (digit_at s >? 9) then
    let li := u64 (i * LFACTOR1 + u64 (j * 10) + k) in
    if negative && (li >? MAX_NEGATIVE_NUMBER) then overflow s
    else (signed_result li, ok_error, s)
  else
    let k := u64 (k * 10 + digit_at s) in
    let s := advance s in
    if negb (ended s) && (digit_at s <=? 9) then overflow s
    else if (i >? cutoff)
            || ((i =? cutoff) && (((j >? cutoff2) || (j =? cutoff2)) && (k >? cutoff3)))
    then overflow s
    else (i64 (u64 (i * LFACTOR2 + u64 (j * 100) + k)), ok_error, s).

(** src/drizzled/my_strtoll10.cc:168-187 my_strtoll10

    The next nine digits; also lines 215-223. *)
Definition read_j (i : Z) (start : cursor) : read_result :=
  let '(j, s, stopped) := read_digits (Z.to_nat (Z.min INIT_CNT (snd start))) start 0 in
  if stopped || (ended s && negb (snd start - snd s =? INIT_CNT))
  then (signed_result (u64 (i * aget lfactor (snd start - snd s) + j)), ok_error, s)
  else if ended s || (digit_at s >? 9)
  then (signed_result (u64 (u64 (i * LFACTOR) + j)), ok_error, s)
  else read_k i j s.

(** src/drizzled/my_strtoll10.cc:156-166 my_strtoll10

    The first digits, [n] at most; also lines 211-213. *)
Definition read_i (i n : Z) (s : cursor) : read_result :=
  let '(i, s, stopped) := read_digits (Z.to_nat (Z.min n (snd s))) s i in
  if stopped || ended s then (signed_result i, ok_error, s) else read_j i s.

End Number.

(** src/drizzled/my_strtoll10.cc:135-154 my_strtoll10

    After the sign; [None] is [no_conv]. *)
Definition read_number (negative : bool) (s : cursor) : option read_result :=
  if deref s =? chr_0 then
    let '(s, at_end) := skip_zeros (fst s) (snd s) in
    if at_end then Some (signed_result negative 0, ok_error negative, s)
    else Some (read_i negative 0 INIT_CNT s)
  else if digit_at s >? 9 then None
  else Some (read_i negative (digit_at s) (INIT_CNT - 1) (advance s)).

(** src/drizzled/my_strtoll10.cc:110-133 my_strtoll10 *)
Definition read_sign (s : cursor) : option read_result :=
  if deref s =? chr_minus then
    let s := advance s in if ended s then None else read_number true s
  else if deref s =? chr_plus then
    let s := advance s in if ended s then None else read_number false s
  else read_number false s.

(** src/drizzled/my_strtoll10.cc:79-241 my_strtoll10

    [fixed]: the text ends at [*endptr], otherwise with a zero byte.  The value,
    the error, and how many bytes were read. *)
Definition my_strtoll10 (text : list Z) (fixed : bool) : Z * Z * Z :=
  let len := Z.of_nat (length text) in
  let s := skip_blanks text len in
  let res :=
    if fixed then (if ended s then None else read_sign s)
    else if deref s =? 0 then None else read_sign (fst s, 65535) in
  match res with
  | Some (v, err, stop) => (v, err, len - Z.of_nat (length (fst stop)))
  | None => (0, EDOM, 0)
  end.

(** ** Lemmas: reading *)

Definition text_stops (rest : list Z) : Prop := 9 < u8 (hd 0 rest - 48).

Lemma digit_u8 c : is_digit c -> u8 (c - 48) = c - 48 /\ 0 <= c - 48 <= 9.
Proof. unfold is_digit; intros H; split; [apply u8_small|]; lia. Qed.

Lemma text_stops_nondigit c rest : 0 <= c < 256 -> ~ is_digit c -> text_stops (c :: rest).
Proof.
  unfold is_digit, text_stops; cbn [hd]; intros Hc Hd; rewrite u8_eq.
  destruct (Z.lt_ge_cases c 48); [|rewrite Z.mod_small by lia; lia].
  replace (c - 48) with (c + 208 + -1 * 256) by lia; rewrite Z.mod_add, Z.mod_small by lia; lia.
Qed.

Lemma text_stops_nil : text_stops [].
Proof. reflexivity. Qed.

(** The value of the digits so far and of the next ones. *)
Lemma digits_value_split a b : digits_value (a ++ b) 0
  = digits_value a 0 * 10 ^ Z.of_nat (length b) + digits_value b 0.
Proof.
  rewrite digits_value_app; generalize (digits_value a 0) as v.
  assert (forall v, digits_value b v = v * 10 ^ Z.of_nat (length b) + digits_value b 0) as H; [|auto].
  induction b as [|c b IH]; intros v; [cbn; lia|].
  unfold digits_value in *; cbn [fold_left length].
  rewrite IH, (IH (0 * 10 + (c - 48))), Nat2Z.inj_succ, Z.pow_succ_r by lia; ring.
Qed.

Lemma digits_value_bound a : Forall is_digit a -> 0 <= digits_value a 0 < 10 ^ Z.of_nat (length a).
Proof.
  unfold is_digit; induction a as [|c a IH] using rev_ind; intros H; [cbn; lia|].
  apply Forall_app in H as [Ha Hc]; apply Forall_cons_iff in Hc as [Hc _]; specialize (IH Ha).
  rewrite digits_value_split, length_app, Nat2Z.inj_add, Z.pow_add_r by lia.
  change (digits_value [c] 0) with (c - 48); change (10 ^ Z.of_nat (length [c])) with 10; lia.
Qed.

Lemma read_digits_exact ds : forall rest left v, Forall is_digit ds -> 0 <= v ->
  digits_value ds v < 18446744073709551616 ->
  read_digits (length ds) (ds ++ rest, left) v
  = (digits_value ds v, (rest, left - Z.of_nat (length ds)), false).
Proof.
  induction ds as [|c ds IH]; intros rest left v Hd Hv Hlt.
  - cbn; rewrite Z.sub_0_r; reflexivity.
  - apply Forall_cons_iff in Hd as [Hc Hd]; destruct (digit_u8 c Hc) as [E Hr].
    unfold digits_value in Hlt; cbn [fold_left] in Hlt; fold (digits_value ds (v * 10 + (c - 48))) in Hlt.
    pose proof (digits_value_ge ds Hd (v * 10 + (c - 48)) ltac:(lia)) as Hge.
    cbn [length read_digits app]; unfold digit_at, deref, advance; cbn [fst snd hd tl]; rewrite E.
    replace (c - 48 >? 9) with false by lia; rewrite u64_small, IH by (assumption || lia).
    unfold digits_value; cbn [fold_left]; do 3 f_equal; lia.
Qed.

Lemma read_digits_stop ds : forall n rest left v, Forall is_digit ds -> 0 <= v ->
  digits_value ds v < 18446744073709551616 -> (length ds < n)%nat -> text_stops rest ->
  read_digits n (ds ++ rest, left) v
  = (digits_value ds v, (rest, left - Z.of_nat (length ds)), true).
Proof.
  induction ds as [|c ds IH]; intros n rest left v Hd Hv Hlt Hn Hs; (destruct n as [|n]; [cbn in Hn; lia|]).
  - cbn [read_digits app]; unfold digit_at, deref; cbn [fst]; unfold text_stops in Hs.
    replace (u8 (hd 0 rest - 48) >? 9) with true by lia; cbn; rewrite Z.sub_0_r; reflexivity.
  - apply Forall_cons_iff in Hd as [Hc Hd]; destruct (digit_u8 c Hc) as [E Hr].
    unfold digits_value in Hlt; cbn [fold_left] in Hlt; fold (digits_value ds (v * 10 + (c - 48))) in Hlt.
    pose proof (digits_value_ge ds Hd (v * 10 + (c - 48)) ltac:(lia)) as Hge.
    cbn [read_digits app]; unfold digit_at, deref, advance; cbn [fst snd hd tl]; rewrite E.
    replace (c - 48 >? 9) with false by lia; rewrite u64_small, IH by (cbn in Hn; lia || assumption).
    unfold digits_value; cbn [fold_left length]; do 3 f_equal; lia.
Qed.

(** At most [n] digits of at most 18: all of them, or the first [n]. *)
Lemma read_some ds rest n r : Forall is_digit ds -> 0 <= r -> text_stops rest -> 0 <= n <= 9 ->
  let m := Z.of_nat (length ds) in
  m <= n -> exists stopped, read_digits (Z.to_nat (Z.min n (m + r))) (ds ++ rest, m + r) 0
  = (digits_value ds 0, (rest, r), stopped) /\ (stopped = false -> r = 0 \/ m = n).
Proof.
  intros Hd Hr Hs Hn m Hm; pose proof (digits_value_bound ds Hd) as Hb; fold m in Hb.
  assert (10 ^ m <= 10 ^ 9) by (apply Z.pow_le_mono_r; lia); change (10 ^ 9) with 1000000000 in *.
  destruct (Z.eq_dec (Z.min n (m + r)) m) as [E|E].
  - exists false; rewrite E; unfold m at 1; rewrite Nat2Z.id, read_digits_exact by (assumption || lia).
    split; [do 3 f_equal; lia|lia].
  - exists true; rewrite read_digits_stop by (assumption || lia); split; [do 3 f_equal; lia|discriminate].
Qed.

Lemma read_first n ds rest r : Forall is_digit ds -> 0 <= r -> 0 <= n <= 9 ->
  Z.of_nat (length ds) = n ->
  read_digits (Z.to_nat (Z.min n (n + r))) (ds ++ rest, n + r) 0 = (digits_value ds 0, (rest, r), false).
Proof.
  intros Hd Hr Hn <-; pose proof (digits_value_bound ds Hd) as Hb.
  assert (10 ^ Z.of_nat (length ds) <= 10 ^ 9) by (apply Z.pow_le_mono_r; lia).
  change (10 ^ 9) with 1000000000 in *.
  rewrite Z.min_l, Nat2Z.id, read_digits_exact by (assumption || lia); do 3 f_equal; lia.
Qed.

(** Values of 20 digits that are too large and not noticed as such: the condition
    in line 201 asks for large last digits whenever [i] equals [cutoff]. *)
Definition silent (v : Z) : bool :=
  (18446744073709551700 <=? v) && (v <? 18446744100000000000) && (v mod 100 <=? 15).

Definition too_big (negative : bool) (v : Z) : bool :=
  if negative then v >? MAX_NEGATIVE_NUMBER else (v >? UINT64_MAX) && negb (silent v).

(** What the reader should answer for digits of value [v] before [stop]. *)
Definition answers (negative : bool) (v : Z) (stop : cursor) (res : read_result) : Prop :=
  if too_big negative v
  then fst res = (if negative then INT64_MIN else INT64_MAX, ERANGE)
  else res = (if negative then - v else i64 v, ok_error negative, stop).

Lemma signed_ok negative v stop : 0 <= v < 18446744073709551616 -> too_big negative v = false ->
  answers negative v stop (signed_result negative (u64 v), ok_error negative, stop).
Proof.
  intros Hv Ht; unfold answers; rewrite Ht, u64_small by lia; unfold signed_result, too_big in *.
  destruct negative; [|reflexivity]; unfold MAX_NEGATIVE_NUMBER in Ht; do 2 f_equal.
  destruct (Z.eq_dec v 9223372036854775808) as [->|]; [reflexivity|].
  rewrite (i64_small v), i64_small by lia; reflexivity.
Qed.

Lemma overflow_ok negative v stop s : too_big negative v = true ->
  answers negative v stop (overflow negative s).
Proof. intros Ht; unfold answers; rewrite Ht; reflexivity. Qed.

Lemma too_big_negative v : too_big true v = (v >? 9223372036854775808).
Proof. reflexivity. Qed.

Lemma too_big_positive v : too_big false v
  = (v >? 18446744073709551615)
    && negb ((18446744073709551700 <=? v) && (v <? 18446744100000000000) && (v mod 100 <=? 15)).
Proof. reflexivity. Qed.

(** Fewer than 19 digits are never too many. *)
Lemma small_ok v negative : 0 <= v < 9223372036854775808 -> too_big negative v = false.
Proof. unfold too_big, MAX_NEGATIVE_NUMBER, UINT64_MAX; intros; destruct negative; lia. Qed.

Lemma digit_cursor c rest left : is_digit c -> digit_at (c :: rest, left) = c - 48.
Proof. intros H; apply (proj1 (digit_u8 c H)). Qed.

Lemma read_k_one negative i j c rest r : 0 <= i < 1000000000 -> 0 <= j < 1000000000 -> is_digit c ->
  0 <= r -> text_stops rest ->
  answers negative (i * 10000000000 + j * 10 + (c - 48)) (rest, r)
    (read_k negative i j (c :: rest, 1 + r)).
Proof.
  intros Hi Hj Hc Hr Hs; pose proof (digit_u8 c Hc) as [_ Hd]; unfold read_k, LFACTOR1.
  rewrite digit_cursor by exact Hc; unfold advance; cbn [fst snd tl].
  replace (1 + r - 1) with r by lia.
  replace (ended (rest, r) || (digit_at (rest, r) >? 9)) with true
    by (unfold text_stops, digit_at, deref in *; cbn [fst]; lia).
  rewrite (u64_small (j * 10)) by lia; set (v := i * 10000000000 + j * 10 + (c - 48)).
  assert (0 <= v < 10000000000000000000) by (unfold v; lia).
  rewrite (u64_small v) by lia; destruct (negative && (v >? MAX_NEGATIVE_NUMBER)) eqn:E.
  - apply overflow_ok; unfold too_big; destruct negative; [exact E|discriminate].
  - rewrite <- (u64_small v) at 2 by lia; apply signed_ok; [lia|].
    unfold too_big, UINT64_MAX; destruct negative; [exact E|lia].
Qed.

Lemma cutoff_values :
  (cutoff true = 92233720 /\ cutoff2 true = 368547758 /\ cutoff3 true = 8) /\
  (cutoff false = 184467440 /\ cutoff2 false = 737095516 /\ cutoff3 false = 15).
Proof. vm_compute; auto. Qed.

(** The test for an overflow of 20 digits. *)
Lemma cutoff_ok negative i j k : 100000000 <= i < 1000000000 -> 0 <= j < 1000000000 -> 0 <= k < 100 ->
  too_big negative (i * 100000000000 + j * 100 + k) =
  (i >? cutoff negative)
  || ((i =? cutoff negative)
      && (((j >? cutoff2 negative) || (j =? cutoff2 negative)) && (k >? cutoff3 negative))).
Proof.
  intros Hi Hj Hk.
  assert ((i * 100000000000 + j * 100 + k) mod 100 = k) as Em
    by (replace (i * 100000000000 + j * 100 + k) with (k + (i * 1000000000 + j) * 100) by lia;
        rewrite Z.mod_add, Z.mod_small; lia).
  destruct cutoff_values as [(A1 & A2 & A3) (B1 & B2 & B3)]; destruct negative.
  - rewrite too_big_negative, A1, A2, A3; lia.
  - rewrite too_big_positive, Em, B1, B2, B3; lia.
Qed.

Lemma read_k_two_eq negative i j c d rest r : 0 <= j < 1000000000 ->
  is_digit c -> is_digit d -> 0 <= r -> text_stops rest ->
  let k := (c - 48) * 10 + (d - 48) in
  read_k negative i j (c :: d :: rest, 2 + r) =
  if (i >? cutoff negative)
     || ((i =? cutoff negative)
         && (((j >? cutoff2 negative) || (j =? cutoff2 negative)) && (k >? cutoff3 negative)))
  then overflow negative (rest, r)
  else (i64 (i * 100000000000 + j * 100 + k), ok_error negative, (rest, r)).
Proof.
  intros Hj Hc Hd Hr Hs; pose proof (digit_u8 c Hc) as [_ Hc']; pose proof (digit_u8 d Hd) as [_ Hd'].
  unfold read_k; rewrite digit_cursor by exact Hc; unfold advance; cbn [fst snd tl].
  rewrite digit_cursor by exact Hd; unfold ended; cbn [snd].
  replace ((2 + r - 1 =? 0) || (d - 48 >? 9)) with false by lia.
  replace (2 + r - 1 - 1) with r by lia.
  replace (negb (r =? 0) && (digit_at (rest, r) <=? 9)) with false
    by (unfold text_stops, digit_at, deref in *; cbn [fst]; lia).
  rewrite (u64_small ((c - 48) * 10 + (d - 48))), (u64_small (j * 100)), i64_u64 by lia; reflexivity.
Qed.

Lemma read_k_two negative i j c d rest r : 100000000 <= i < 1000000000 -> 0 <= j < 1000000000 ->
  is_digit c -> is_digit d -> 0 <= r -> text_stops rest ->
  answers negative (i * 100000000000 + j * 100 + ((c - 48) * 10 + (d - 48))) (rest, r)
    (read_k negative i j (c :: d :: rest, 2 + r)).
Proof.
  intros Hi Hj Hc Hd Hr Hs; pose proof (digit_u8 c Hc) as [_ Hc']; pose proof (digit_u8 d Hd) as [_ Hd'].
  rewrite read_k_two_eq, <- cutoff_ok by (assumption || lia).
  destruct (too_big negative _) eqn:Ho; [apply overflow_ok; exact Ho|].
  unfold answers; rewrite Ho; destruct negative; [|reflexivity].
  rewrite too_big_negative in Ho; lia.
Qed.

Lemma read_k_many negative i j c d e rest left v stop : is_digit c -> is_digit d -> is_digit e ->
  2 < left -> too_big negative v = true ->
  answers negative v stop (read_k negative i j (c :: d :: e :: rest, left)).
Proof.
  intros Hc Hd He Hl Ht; pose proof (digit_u8 d Hd) as [_ Hd']; pose proof (digit_u8 e He) as [_ He'].
  unfold read_k, advance; cbn [fst snd tl]; rewrite !digit_cursor by assumption.
  unfold ended; cbn [snd]; replace ((left - 1 =? 0) || (d - 48 >? 9)) with false by lia.
  replace (negb (left - 1 - 1 =? 0) && (e - 48 <=? 9)) with true by lia; apply overflow_ok; exact Ht.
Qed.

Lemma lfactor_pow x : 0 <= x <= 8 -> aget lfactor x = 10 ^ x.
Proof.
  intros H; assert (x = 0 \/ x = 1 \/ x = 2 \/ x = 3 \/ x = 4 \/ x = 5 \/ x = 6 \/ x = 7 \/ x = 8) as C by lia.
  repeat destruct C as [->|C]; try reflexivity; subst x; reflexivity.
Qed.

(** Digits after the first nine. *)
Lemma split_digits n (ds : list Z) : Forall is_digit ds -> (n <= length ds)%nat ->
  exists a b, ds = a ++ b /\ length a = n /\ Forall is_digit a /\ Forall is_digit b.
Proof.
  intros Hd Hn; exists (firstn n ds), (skipn n ds); rewrite firstn_skipn; repeat split.
  - apply firstn_length_le; exact Hn.
  - rewrite <- (firstn_skipn n ds) in Hd; apply Forall_app in Hd; tauto.
  - rewrite <- (firstn_skipn n ds) in Hd; apply Forall_app in Hd; tauto.
Qed.

(** Up to nine more digits. *)
Lemma read_j_few negative i ds rest r : 0 <= i < 1000000000 -> Forall is_digit ds ->
  (length ds <= 9)%nat -> 0 <= r -> 0 < Z.of_nat (length ds) + r -> text_stops rest ->
  answers negative (i * 10 ^ Z.of_nat (length ds) + digits_value ds 0) (rest, r)
    (read_j negative i (ds ++ rest, Z.of_nat (length ds) + r)).
Proof.
  intros Hi Hd Hl Hr Hpos Hs; unfold read_j; cbn [snd]; unfold INIT_CNT.
  destruct (read_some ds rest 9 r Hd Hr Hs ltac:(lia) ltac:(lia)) as (stopped & E & Hst); rewrite E.
  cbn [snd]; replace (Z.of_nat (length ds) + r - r) with (Z.of_nat (length ds)) by lia.
  pose proof (digits_value_bound ds Hd) as Hb.
  assert (10 ^ Z.of_nat (length ds) <= 10 ^ 9) by (apply Z.pow_le_mono_r; lia).
  assert (0 < 10 ^ Z.of_nat (length ds)) by (apply Z.pow_pos_nonneg; lia).
  change (10 ^ 9) with 1000000000 in *.
  set (p := 10 ^ Z.of_nat (length ds)) in *; set (v := digits_value ds 0) in *.
  assert (0 <= i * p + v < 1000000000000000000) as Hv by nia.
  destruct (stopped || (ended (rest, r) && negb (Z.of_nat (length ds) =? 9))) eqn:Eb.
  - destruct (Z.eq_dec (Z.of_nat (length ds)) 9) as [E9|E9].
    + exfalso; rewrite E9, (read_first 9 ds rest r Hd Hr ltac:(lia) E9) in E; injection E as <-.
      rewrite E9 in Eb; destruct (ended (rest, r)); discriminate.
    + rewrite lfactor_pow by lia; apply signed_ok; [lia|apply small_ok; lia].
  - assert (Z.of_nat (length ds) = 9) as E9.
    { apply orb_false_iff in Eb as [-> Eb]; destruct (Hst eq_refl) as [->|]; [|assumption].
      unfold ended in Eb; cbn in Eb; lia. }
    replace (ended (rest, r) || (digit_at (rest, r) >? 9)) with true
      by (unfold text_stops, digit_at, deref in *; cbn [fst]; lia).
    assert (p = LFACTOR) as Ep by (unfold p; rewrite E9; reflexivity).
    rewrite (u64_small (i * LFACTOR)), <- Ep by (unfold LFACTOR; lia).
    apply signed_ok; [lia|apply small_ok; lia].
Qed.

Lemma huge_too_big negative v : 100000000000000000000 <= v -> too_big negative v = true.
Proof. intros H; destruct negative; [rewrite too_big_negative|rewrite too_big_positive]; lia. Qed.

(** All digits after the first nine. *)
Lemma read_j_ok negative i ds rest r : 100000000 <= i < 1000000000 -> Forall is_digit ds ->
  0 <= r -> 0 < Z.of_nat (length ds) + r -> text_stops rest ->
  answers negative (i * 10 ^ Z.of_nat (length ds) + digits_value ds 0) (rest, r)
    (read_j negative i (ds ++ rest, Z.of_nat (length ds) + r)).
Proof.
  intros Hi Hd Hr Hpos Hs; destruct (le_lt_dec (length ds) 9) as [Hl|Hl];
    [apply read_j_few; (assumption || lia)|].
  destruct (split_digits 9 ds Hd ltac:(lia)) as (a & b & -> & La & Ha & Hb).
  rewrite length_app, La in *; rewrite digits_value_split, <- app_assoc.
  pose proof (digits_value_bound a Ha) as Ba; rewrite La in Ba; change (10 ^ Z.of_nat 9) with 1000000000 in Ba.
  unfold read_j; cbn [snd]; unfold INIT_CNT.
  replace (Z.of_nat (9 + length b) + r) with (9 + (Z.of_nat (length b) + r)) by lia.
  rewrite read_first by (assumption || lia); cbn [snd orb].
  unfold ended; cbn [snd]; replace (Z.of_nat (length b) + r =? 0) with false by lia; cbn [andb orb].
  destruct b as [|c b]; [cbn in Hl; lia|]; apply Forall_cons_iff in Hb as [Hc Hb].
  cbn [app]; rewrite digit_cursor by exact Hc; pose proof (digit_u8 c Hc) as [_ Hc'].
  replace (c - 48 >? 9) with false by lia.
  destruct b as [|d b]; [|apply Forall_cons_iff in Hb as [Hd' Hb]; destruct b as [|e b]].
  - cbn [length app]; change (Z.of_nat (9 + 1)) with 10; change (10 ^ 10) with 10000000000.
    change (10 ^ Z.of_nat 1) with 10; change (digits_value [c] 0) with (c - 48).
    rewrite Z.add_assoc; apply read_k_one; (assumption || lia).
  - cbn [length app]; change (Z.of_nat (9 + 2)) with 11; change (10 ^ 11) with 100000000000.
    change (10 ^ Z.of_nat 2) with 100; change (digits_value [c; d] 0) with ((c - 48) * 10 + (d - 48)).
    rewrite Z.add_assoc; apply read_k_two; (assumption || lia).
  - apply Forall_cons_iff in Hb as [He Hb]; cbn [length app].
    apply read_k_many; try assumption; [lia|].
    assert (0 <= digits_value (c :: d :: e :: b) 0) as Hw.
    { apply digits_value_bound; repeat (apply Forall_cons; [assumption|]); assumption. }
    generalize (length b) as n; intros n.
    assert (0 <= digits_value a 0 * 10 ^ Z.of_nat (S (S (S n)))) as Hw'
      by (apply Z.mul_nonneg_nonneg; [lia|apply Z.pow_nonneg; lia]).
    assert (10 ^ 12 <= 10 ^ Z.of_nat (9 + S (S (S n)))) as Hp by (apply Z.pow_le_mono_r; lia).
    change (10 ^ 12) with 1000000000000 in Hp.
    assert (100000000 * 1000000000000 <= i * 10 ^ Z.of_nat (9 + S (S (S n)))) as Hip
      by (apply Z.mul_le_mono_nonneg; lia).
    apply huge_too_big; lia.
Qed.

Lemma lead_bound c a : is_digit c -> c <> 48 -> Forall is_digit a ->
  10 ^ Z.of_nat (length a) <= digits_value (c :: a) 0.
Proof.
  unfold is_digit; intros Hc Hn Ha; change (c :: a) with ([c] ++ a); rewrite digits_value_split.
  change (digits_value [c] 0) with (c - 48); pose proof (digits_value_bound a Ha).
  assert (0 < 10 ^ Z.of_nat (length a)) by (apply Z.pow_pos_nonneg; lia); nia.
Qed.

(** Digits without zeros in front. *)
Definition lead_ok (ds : list Z) : Prop := hd 0 ds <> 48.

Lemma read_i_ok negative ds rest r : Forall is_digit ds -> lead_ok ds -> 0 <= r -> text_stops rest ->
  answers negative (digits_value ds 0) (rest, r)
    (read_i negative 0 9 (ds ++ rest, Z.of_nat (length ds) + r)).
Proof.
  intros Hd Hz Hr Hs; unfold read_i; cbn [snd]; destruct (le_lt_dec (length ds) 9) as [Hl|Hl].
  - destruct (read_some ds rest 9 r Hd Hr Hs ltac:(lia) ltac:(lia)) as (stopped & -> & Hst).
    pose proof (digits_value_bound ds Hd) as Hb.
    assert (10 ^ Z.of_nat (length ds) <= 10 ^ 9) by (apply Z.pow_le_mono_r; lia).
    change (10 ^ 9) with 1000000000 in *; destruct (stopped || ended (rest, r)) eqn:E.
    + rewrite <- (u64_small (digits_value ds 0)) at 2 by lia.
      apply signed_ok; [lia|apply small_ok; lia].
    + apply orb_false_iff in E as [-> E]; unfold ended in E; cbn [snd] in E.
      pose proof (read_j_few negative (digits_value ds 0) [] rest r) as J; cbn [app length] in J.
      change (10 ^ Z.of_nat 0) with 1 in J; change (digits_value [] 0) with 0 in J.
      rewrite Z.mul_1_r, Z.add_0_r in J; apply J; try assumption; try lia; constructor.
  - destruct (split_digits 9 ds Hd ltac:(lia)) as (a & b & -> & La & Ha & Hb).
    rewrite length_app, La in *; rewrite digits_value_split, <- app_assoc.
    replace (Z.of_nat (9 + length b) + r) with (9 + (Z.of_nat (length b) + r)) by lia.
    rewrite read_first by (assumption || lia); unfold ended; cbn [snd orb].
    replace (Z.of_nat (length b) + r =? 0) with false by lia.
    apply read_j_ok; try assumption; [|lia].
    pose proof (digits_value_bound a Ha) as Ba; rewrite La in Ba.
    change (10 ^ Z.of_nat 9) with 1000000000 in Ba; split; [|lia].
    destruct a as [|c a]; [discriminate|]; apply Forall_cons_iff in Ha as [Hc Ha].
    injection La as La; pose proof (lead_bound c a Hc Hz Ha) as Hlb; rewrite La in Hlb; exact Hlb.
Qed.

Lemma strip_zeros (ds : list Z) : exists z ds', ds = repeat 48 z ++ ds' /\ lead_ok ds'.
Proof.
  induction ds as [|c ds (z & ds' & -> & Hl)]; [exists O, []; split; [reflexivity|discriminate]|].
  destruct (Z.eq_dec c 48) as [->|Hc]; [exists (S z), ds'|exists O, (c :: repeat 48 z ++ ds')]; auto.
Qed.

Lemma skip_zeros_cons c rest left : skip_zeros (c :: rest) left =
  if left - 1 =? 0 then ((rest, 0), true)
  else if hd 0 rest =? chr_0 then skip_zeros rest (left - 1) else ((rest, left - 1), false).
Proof. reflexivity. Qed.

Lemma skip_zeros_spec ds rest : lead_ok ds -> text_stops rest -> forall z left, Z.of_nat (S z) <= left ->
  skip_zeros (repeat 48 (S z) ++ ds ++ rest) left
  = ((ds ++ rest, left - Z.of_nat (S z)), left - Z.of_nat (S z) =? 0).
Proof.
  intros Hl Hs; assert (hd 0 (ds ++ rest) <> 48) as Hh.
  { destruct ds; [|exact Hl]; cbn [app]; unfold text_stops in Hs; intros E; rewrite E in Hs; discriminate. }
  induction z as [|z IH]; intros left Hle; cbn [repeat app]; rewrite skip_zeros_cons.
  - change (Z.of_nat 1) with 1 in *; destruct (Z.eqb_spec (left - 1) 0) as [E|E].
    + rewrite E; reflexivity.
    + replace (hd 0 (ds ++ rest) =? chr_0) with false by (unfold chr_0; lia); reflexivity.
  - replace (left - 1 =? 0) with false by lia; cbn [hd]; unfold chr_0; rewrite Z.eqb_refl.
    change (48 :: repeat 48 z ++ ds ++ rest) with (repeat 48 (S z) ++ ds ++ rest).
    rewrite IH by lia; replace (left - 1 - Z.of_nat (S z)) with (left - Z.of_nat (S (S z))) by lia; reflexivity.
Qed.

Lemma read_number_ok negative ds rest r : Forall is_digit ds -> ds <> [] -> 0 <= r ->
  text_stops rest -> exists res, read_number negative (ds ++ rest, Z.of_nat (length ds) + r) = Some res /\
  answers negative (digits_value ds 0) (rest, r) res.
Proof.
  intros Hd Hne Hr Hs; destruct (strip_zeros ds) as (z & ds' & -> & Hl).
  rewrite digits_value_zeros, length_app, repeat_length, <- app_assoc in *.
  apply Forall_app in Hd as [_ Hd]; unfold read_number, deref; cbn [fst snd].
  destruct z as [|z].
  - cbn [repeat app] in *; destruct ds' as [|c ds']; [contradiction|]; cbn [hd app].
    apply Forall_cons_iff in Hd as [Hc Hd']; pose proof (digit_u8 c Hc) as [Ec Hc'].
    unfold lead_ok in Hl; cbn [hd] in Hl; replace (c =? chr_0) with false by (unfold chr_0; lia).
    rewrite digit_cursor by exact Hc; replace (c - 48 >? 9) with false by lia.
    eexists; split; [reflexivity|]; unfold advance; cbn [fst snd tl].
    pose proof (read_i_ok negative (c :: ds') rest r ltac:(constructor; assumption) Hl Hr Hs) as I.
    unfold read_i in *; cbn [snd app] in *; unfold INIT_CNT.
    replace (Z.to_nat (Z.min 9 (Z.of_nat (length (c :: ds')) + r)))
      with (S (Z.to_nat (Z.min (9 - 1) (Z.of_nat (0 + length (c :: ds')) + r - 1)))) in I
      by (cbn [length]; lia).
    cbn [read_digits] in I; rewrite digit_cursor in I by exact Hc.
    replace (c - 48 >? 9) with false in I by lia; rewrite (u64_small (0 * 10 + (c - 48))) in I by lia; exact I.
  - cbn [repeat app hd]; change (48 =? chr_0) with true; cbv iota.
    change (48 :: repeat 48 z ++ ds' ++ rest) with (repeat 48 (S z) ++ ds' ++ rest).
    rewrite skip_zeros_spec by (assumption || lia).
    replace (Z.of_nat (S z + length ds') + r - Z.of_nat (S z)) with (Z.of_nat (length ds') + r) by lia.
    destruct (Z.eqb_spec (Z.of_nat (length ds') + r) 0) as [E0|E0].
    + assert (ds' = []) as -> by (destruct ds'; [reflexivity|cbn [length] in E0; lia]); assert (r = 0) as -> by lia.
      eexists; split; [reflexivity|]; apply (signed_ok negative 0); [lia|apply small_ok; lia].
    + eexists; split; [reflexivity|]; apply read_i_ok; assumption.
Qed.

(** A sign, or none. *)
Definition sign_text (negative : bool) (sign : list Z) : Prop :=
  if negative then sign = [chr_minus] else sign = [] \/ sign = [chr_plus].

Lemma read_sign_ok negative sign ds rest r : sign_text negative sign -> Forall is_digit ds -> ds <> [] ->
  0 <= r -> text_stops rest ->
  exists res, read_sign (sign ++ ds ++ rest, Z.of_nat (length sign) + Z.of_nat (length ds) + r) = Some res /\
  answers negative (digits_value ds 0) (rest, r) res.
Proof.
  intros Hsg Hd Hne Hr Hs; pose proof (read_number_ok negative ds rest r Hd Hne Hr Hs) as N.
  assert (0 < Z.of_nat (length ds)) by (destruct ds; [contradiction|cbn; lia]).
  unfold read_sign, deref, advance, ended; cbn [fst snd].
  destruct negative; [rewrite Hsg|destruct Hsg as [-> | ->]]; cbn [app hd tl length].
  - change (chr_minus =? chr_minus) with true; cbv iota.
    replace (Z.of_nat 1 + Z.of_nat (length ds) + r - 1) with (Z.of_nat (length ds) + r) by lia.
    replace (Z.of_nat (length ds) + r =? 0) with false by lia; exact N.
  - replace (Z.of_nat 0 + Z.of_nat (length ds) + r) with (Z.of_nat (length ds) + r) by lia.
    destruct ds as [|c ds]; [contradiction|]; apply Forall_cons_iff in Hd as [Hc _]; cbn [app hd].
    unfold is_digit in Hc; replace (c =? chr_minus) with false by (unfold chr_minus; lia).
    replace (c =? chr_plus) with false by (unfold chr_plus; lia); exact N.
  - change (chr_plus =? chr_minus) with false; change (chr_plus =? chr_plus) with true; cbv iota.
    replace (Z.of_nat 1 + Z.of_nat (length ds) + r - 1) with (Z.of_nat (length ds) + r) by lia.
    replace (Z.of_nat (length ds) + r =? 0) with false by lia; exact N.
Qed.

Definition is_blank (c : Z) : Prop := c = 32 \/ c = 9.

Lemma skip_blanks_spec bs : forall s left, Forall is_blank bs -> ~ is_blank (hd 0 s) ->
  skip_blanks (bs ++ s) left = (s, left - Z.of_nat (length bs)).
Proof.
  unfold is_blank; induction bs as [|c bs IH]; intros s left Hb Hn.
  - cbn [app length]; rewrite Z.sub_0_r; destruct s as [|c s]; [reflexivity|]; cbn [skip_blanks hd] in *.
    replace ((c =? 32) || (c =? 9)) with false by lia; reflexivity.
  - apply Forall_cons_iff in Hb as [Hc Hb]; cbn [app skip_blanks length].
    replace ((c =? 32) || (c =? 9)) with true by lia; rewrite IH by assumption; f_equal; lia.
Qed.

(** ** Lemmas: printing *)

(** The number denoted by digits of a radix, most significant first. *)
Definition radix_value (radix : Z) (xs : list Z) (v : Z) : Z :=
  fold_left (fun v x => v * radix + x) xs v.

Lemma radix_value_snoc radix xs x v : radix_value radix (xs ++ [x]) v = radix_value radix xs v * radix + x.
Proof. unfold radix_value; rewrite fold_left_app; reflexivity. Qed.

Definition digit_of (radix x : Z) : Prop := 0 <= x < radix.

Lemma quot_div_digit v radix : 0 <= v -> 2 <= radix ->
  v ÷ radix = v / radix /\ v - v ÷ radix * radix = v mod radix /\ 0 <= v mod radix < radix.
Proof.
  intros Hv Hr; rewrite Z.quot_div_nonneg by lia; split; [reflexivity|].
  pose proof (Z.div_mod v radix); pose proof (Z.mod_pos_bound v radix); lia.
Qed.

Lemma signed_loop_spec radix : 2 <= radix <= 36 -> forall n fuel v p, 0 <= v < radix ^ Z.of_nat n ->
  (n < fuel)%nat -> exists xs, signed_loop fuel radix v p = Some (map dig_vec_upper xs ++ p) /\
  Forall (digit_of radix) xs /\ radix_value radix xs 0 = v /\ (length xs <= n)%nat /\ (v <> 0 -> xs <> []).
Proof.
  intros Hr; induction n as [|n IH]; intros fuel v p Hv Hf; (destruct fuel as [|fuel]; [lia|]).
  - assert (v = 0) as -> by (cbn in Hv; lia); exists []; cbn; repeat split; auto; constructor.
  - cbn [signed_loop]; destruct (Z.eqb_spec v 0) as [->|Hne].
    { exists []; cbn; repeat split; auto; try constructor; lia. }
    destruct (quot_div_digit v radix) as (E1 & E2 & E3); [lia..|]; rewrite E2, E1.
    rewrite (u8_small (v mod radix)) by lia.
    destruct (IH fuel (v / radix) (dig_vec_upper (v mod radix) :: p)) as (xs & E & Hx & Hv' & Hl & _);
      [rewrite Nat2Z.inj_succ, Z.pow_succ_r in Hv by lia; split; [apply Z.div_pos; lia|apply Z.div_lt_upper_bound; lia]|lia|].
    exists (xs ++ [v mod radix]); rewrite E, map_app, <- app_assoc; repeat split.
    + apply Forall_app; split; [exact Hx|]; apply Forall_cons; [exact E3|constructor].
    + rewrite radix_value_snoc, Hv', Z.mul_comm; symmetry; apply Z.div_mod; lia.
    + rewrite length_app; cbn [length]; lia.
    + intros _ E'; destruct xs; discriminate.
Qed.

(** The digits of every 64-bit value fit the buffer and denote it. *)
Lemma put_digits_spec radix u : 2 <= radix <= 36 -> 0 <= u < 18446744073709551616 ->
  exists xs, put_digits radix u = Some (map dig_vec_upper xs) /\ Forall (digit_of radix) xs /\
  radix_value radix xs 0 = u /\ xs <> [] /\ (length xs <= 64)%nat.
Proof.
  intros Hr Hu; unfold put_digits; destruct (Z.eqb_spec u 0) as [->|Hne].
  { exists [0]; repeat split; cbn; try lia; [|discriminate]; apply Forall_cons; [unfold digit_of; lia|constructor]. }
  assert (forall v, 0 <= v < 9223372036854775808 -> v < radix ^ Z.of_nat 63) as Hpow.
  { intros v Hv; apply Z.lt_le_trans with (2 ^ Z.of_nat 63); [change (2 ^ Z.of_nat 63) with 9223372036854775808; lia|].
    apply Z.pow_le_mono_l; lia. }
  unfold buffer_size; destruct (Z.gtb_spec u 9223372036854775807) as [Hbig|Hsmall].
  - assert (unsigned_loop 65 radix u [] = Some (u / radix, [dig_vec_upper (u mod radix)])) as ->.
    { assert (0 <= u / radix <= 9223372036854775807) as Hq
        by (split; [apply Z.div_pos; lia|apply Z.lt_succ_r, Z.div_lt_upper_bound; lia]).
      cbn [unsigned_loop]; replace (u >? 9223372036854775807) with true by lia.
      replace (u / radix >? 9223372036854775807) with false by lia.
      pose proof (Z.div_mod u radix ltac:(lia)) as Ed; pose proof (Z.mod_pos_bound u radix ltac:(lia)).
      rewrite (u64_small (u / radix * radix)), u32_small by lia.
      do 4 f_equal; lia. }
    destruct (signed_loop_spec radix Hr 63 (65 - 1) (u / radix) [dig_vec_upper (u mod radix)])
      as (xs & E & Hx & Hv & Hl & _); [split; [apply Z.div_pos; lia|]|lia|].
    { apply Hpow; split; [apply Z.div_pos; lia|apply Z.div_lt_upper_bound; lia]. }
    exists (xs ++ [u mod radix]); rewrite map_app; repeat split; [exact E|..].
    + apply Forall_app; split; [exact Hx|]; apply Forall_cons; [apply Z.mod_pos_bound; lia|constructor].
    + rewrite radix_value_snoc, Hv, Z.mul_comm; symmetry; apply Z.div_mod; lia.
    + intros E'; destruct xs; discriminate.
    + rewrite length_app; cbn [length]; lia.
  - assert (unsigned_loop 65 radix u [] = Some (u, [])) as ->
      by (cbn [unsigned_loop]; replace (u >? 9223372036854775807) with false by lia; reflexivity).
    destruct (signed_loop_spec radix Hr 63 (65 - 0) u []) as (xs & E & Hx & Hv & Hl & Hn);
      [split; [lia|apply Hpow; lia]|lia|].
    exists xs; rewrite app_nil_r in E; repeat split; auto; lia.
Qed.

(** Decimal digits. *)
Lemma decimal_digits xs : Forall (digit_of 10) xs ->
  Forall is_digit (map dig_vec_upper xs) /\ forall v, digits_value (map dig_vec_upper xs) v = radix_value 10 xs v.
Proof.
  unfold digit_of, is_digit, digits_value, radix_value, dig_vec_upper.
  induction 1 as [|x xs Hx _ [IH1 IH2]]; [split; [constructor|reflexivity]|].
  cbn [map fold_left]; replace (x <? 10) with true by lia; split; [constructor; [lia|exact IH1]|].
  intros v; rewrite IH2; f_equal; lia.
Qed.

Lemma put_decimal u : 0 <= u < 18446744073709551616 ->
  exists ds, put_digits 10 u = Some ds /\ Forall is_digit ds /\ digits_value ds 0 = u /\ ds <> [].
Proof.
  intros Hu; destruct (put_digits_spec 10 u ltac:(lia) Hu) as (xs & E & Hx & Hv & Hn & _).
  destruct (decimal_digits xs Hx) as [Hd Hdv]; exists (map dig_vec_upper xs).
  rewrite Hdv; repeat split; try assumption; destruct xs; [contradiction|discriminate].
Qed.

Lemma signed_loop_step fuel radix v p : v <> 0 -> signed_loop (S fuel) radix v p =
  signed_loop fuel radix (v ÷ radix) (dig_vec_upper (u8 (v - v ÷ radix * radix)) :: p).
Proof. intros H; cbn [signed_loop]; apply Z.eqb_neq in H; rewrite H; reflexivity. Qed.

(** The 32-bit loop is the 64-bit one. *)
Lemma int10_loop_eq : forall n fuel fuel' v p, 0 <= v < 10 ^ Z.of_nat n -> (n <= fuel)%nat ->
  (n < fuel')%nat -> signed_loop fuel' 10 v p = Some (int10_loop fuel v p).
Proof.
  induction n as [|n IH]; intros fuel fuel' v p Hv Hf Hf'; (destruct fuel' as [|fuel']; [lia|]).
  - assert (v = 0) as -> by (cbn in Hv; lia); destruct fuel; reflexivity.
  - destruct fuel as [|fuel]; [lia|]; cbn [signed_loop int10_loop].
    destruct (Z.eqb_spec v 0) as [->|Hne]; [reflexivity|].
    destruct (quot_div_digit v 10) as (E1 & E2 & E3); [lia..|]; rewrite E2, E1.
    rewrite (IH fuel fuel').
    + unfold dig_vec_upper; rewrite u8_small by lia; replace (v mod 10 <? 10) with true by lia; reflexivity.
    + rewrite Nat2Z.inj_succ, Z.pow_succ_r in Hv by lia.
      split; [apply Z.div_pos; lia|apply Z.div_lt_upper_bound; lia].
    + lia.
    + lia.
Qed.

Lemma put_int10 u : 0 <= u < 4294967296 ->
  put_digits 10 u = Some (int10_loop 10 (i32 (u / 10)) [48 + u32 (u - u32 (u32 (i32 (u / 10)) * 10))]).
Proof.
  intros Hu; assert (0 <= u / 10 < 429496730) as Hq
    by (split; [apply Z.div_pos; lia|apply Z.div_lt_upper_bound; lia]).
  pose proof (Z.div_mod u 10 ltac:(lia)) as Ed; pose proof (Z.mod_pos_bound u 10 ltac:(lia)).
  rewrite (i32_small (u / 10)), (u32_small (u / 10)), (u32_small (u / 10 * 10)), u32_small by lia.
  replace (u - u / 10 * 10) with (u mod 10) by lia.
  unfold put_digits, buffer_size; destruct (Z.eqb_spec u 0) as [->|Hne]; [reflexivity|].
  assert (unsigned_loop 65 10 u [] = Some (u, [])) as ->
    by (cbn [unsigned_loop]; replace (u >? 9223372036854775807) with false by lia; reflexivity).
  change (65 - length (@nil Z))%nat with (S 64); rewrite signed_loop_step by exact Hne.
  destruct (quot_div_digit u 10) as (E1 & E2 & E3); [lia..|]; rewrite E2, E1.
  rewrite (int10_loop_eq 9 10 64) by (change (10 ^ Z.of_nat 9) with 1000000000; lia).
  unfold dig_vec_upper; rewrite u8_small by lia; replace (u mod 10 <? 10) with true by lia; reflexivity.
Qed.

Lemma strtoll10_text (negative fixed : bool) (blanks sign ds rest : list Z) :
  Forall is_blank blanks -> sign_text negative sign -> Forall is_digit ds -> ds <> [] ->
  text_stops rest -> (fixed = false -> Z.of_nat (length (sign ++ ds)) <= 65535) ->
  let v := digits_value ds 0 in
  let res := my_strtoll10 (blanks ++ sign ++ ds ++ rest) fixed in
  if too_big negative v
  then fst res = (if negative then INT64_MIN else INT64_MAX, ERANGE)
  else res = (if negative then - v else i64 v, if negative then -1 else 0,
              Z.of_nat (length (blanks ++ sign ++ ds))).
Proof.
  intros Hb Hsg Hd Hne Hs Hfx v res.
  assert (~ is_blank (hd 0 (sign ++ ds ++ rest)) /\ hd 0 (sign ++ ds ++ rest) <> 0) as [Hnb Hn0].
  { destruct ds as [|c ds]; [contradiction|]; apply Forall_cons_iff in Hd as [Hc _]; unfold is_digit in Hc.
    unfold is_blank; destruct negative; [rewrite Hsg|destruct Hsg as [-> | ->]];
      unfold chr_minus, chr_plus; cbn [app hd]; lia. }
  assert (0 < Z.of_nat (length (sign ++ ds))) as Hpos
    by (destruct ds; [contradiction|]; rewrite length_app; cbn [length]; lia).
  pose (r := if fixed then Z.of_nat (length rest) else 65535 - Z.of_nat (length (sign ++ ds))).
  assert (0 <= r) as Hr by (unfold r; destruct fixed; [lia|specialize (Hfx eq_refl); lia]).
  destruct (read_sign_ok negative sign ds rest r Hsg Hd Hne Hr Hs) as (x & Ex & Ha).
  assert (res = match x with (w, err, stop) =>
    (w, err, Z.of_nat (length (blanks ++ sign ++ ds ++ rest)) - Z.of_nat (length (fst stop))) end) as ->.
  { unfold res, my_strtoll10; rewrite skip_blanks_spec by assumption; unfold ended, deref; cbn [fst snd].
    rewrite !length_app, !Nat2Z.inj_add in *; destruct fixed.
    - replace (_ =? 0) with false by lia.
      replace (_ - Z.of_nat (length blanks))
        with (Z.of_nat (length sign) + Z.of_nat (length ds) + r) by (unfold r; lia).
      rewrite Ex; reflexivity.
    - replace (hd 0 _ =? 0) with false by lia.
      replace 65535 with (Z.of_nat (length sign) + Z.of_nat (length ds) + r)
        by (unfold r; rewrite length_app; lia).
      rewrite Ex; reflexivity. }
  destruct x as [[w err] stop]; unfold answers in Ha; fold v in Ha; destruct (too_big negative v); [exact Ha|].
  injection Ha as -> -> ->; unfold ok_error; cbn [fst]; f_equal; rewrite !length_app; lia.
Qed.

Lemma neg_u64 v : -9223372036854775808 <= v < 0 -> u64 (0 - u64 v) = - v.
Proof.
  intros Hv; rewrite !u64_eq, Zminus_mod_idemp_r, Z.sub_0_l, Z.mod_small; lia.
Qed.

Lemma neg_u32 v : -2147483648 <= v < 0 -> u32 (0 - u32 v) = - v.
Proof.
  intros Hv; rewrite !u32_eq, Zminus_mod_idemp_r, Z.sub_0_l, Z.mod_small; lia.
Qed.

Lemma int64_text (negative : bool) v : is_i64 v -> (negative = true -> v < 0) ->
  let u := if negative then - v else u64 v in
  0 <= u < 18446744073709551616 /\ too_big negative u = false /\ (if negative then - u else i64 u) = v.
Proof.
  unfold is_i64; intros Hv Hn; destruct negative; cbv zeta.
  - specialize (Hn eq_refl); rewrite too_big_negative; lia.
  - pose proof (u64_range v); rewrite too_big_positive, i64_u64, i64_small; lia.
Qed.

(** ** Properties *)

(** C39. [my_strtoll10] reads an integer exactly.  For blanks, an optional sign, and
    any number of decimal digits (zeros in front included) up to the first other
    byte or the end: a value that fits (2^64-1, or 2^63 for a negative number) is
    returned, with error 0 or -1 and the position after the digits.  A larger one
    is reported with ERANGE, except for the 20-digit values [silent] accepts, which
    are returned modulo 2^64 without an error.  Without an end the code looks at
    65535 bytes at most, and the sign and the digits must be within them. *)
Theorem my_strtoll10_reads (negative fixed : bool) (blanks sign ds rest : list Z) :
  Forall is_blank blanks -> sign_text negative sign -> Forall is_digit ds -> ds <> [] ->
  text_stops rest -> (fixed = false -> Z.of_nat (length (sign ++ ds)) <= 65535) ->
  let v := digits_value ds 0 in
  let res := my_strtoll10 (blanks ++ sign ++ ds ++ rest) fixed in
  if too_big negative v
  then fst res = (if negative then INT64_MIN else INT64_MAX, ERANGE)
  else res = (if negative then - v else i64 v, if negative then -1 else 0,
              Z.of_nat (length (blanks ++ sign ++ ds))).
Proof. apply strtoll10_text. Qed.

Lemma my_strtoll10_reads_witness :
  my_strtoll10 [32; 45; 48; 52; 50; 59] true = (-42, -1, 5).
Proof.
  apply (my_strtoll10_reads true true [32] [45] [48; 52; 50] [59]).
  - repeat constructor.
  - reflexivity.
  - repeat (apply Forall_cons; [unfold is_digit; lia|]); constructor.
  - discriminate.
  - reflexivity.
  - discriminate.
Defined.

(** Printing a 64-bit integer in decimal and reading it back gives the integer
    and reads the whole text: signed ([llstr], radix -10) and as the unsigned value
    of the same bits ([ullstr], radix 10), the most negative one included. *)
Theorem int64_text_round_trip (v radix : Z) : is_i64 v ->
  exists text, int64_t10_to_str v radix = Some text /\
  my_strtoll10 text true
  = (v, if (radix <? 0) && (v <? 0) then -1 else 0, Z.of_nat (length text)).
Proof.
  intros Hv; unfold int64_t10_to_str; destruct ((radix <? 0) && (v <? 0)) eqn:En.
  - destruct (int64_text true v Hv ltac:(lia)) as (Hu & Ht & Hval).
    destruct (put_decimal (- v) Hu) as (ds & E & Hd & Hdv & Hne).
    rewrite neg_u64, E by (unfold is_i64 in Hv; lia); exists (chr_minus :: ds); split; [reflexivity|].
    pose proof (strtoll10_text true true [] [chr_minus] ds [] ltac:(constructor) eq_refl Hd Hne
                  text_stops_nil ltac:(discriminate)) as P; cbv zeta in P.
    rewrite Hdv, Ht in P; cbn [app] in P; rewrite !app_nil_r, Z.opp_involutive in P; exact P.
  - destruct (int64_text false v Hv ltac:(discriminate)) as (Hu & Ht & Hval).
    destruct (put_decimal (u64 v) Hu) as (ds & E & Hd & Hdv & Hne).
    rewrite E; exists ds; split; [reflexivity|].
    pose proof (strtoll10_text false true [] [] ds [] ltac:(constructor) (or_introl eq_refl) Hd Hne
                  text_stops_nil ltac:(discriminate)) as P; cbv zeta in P.
    rewrite Hdv, Ht in P; cbn [app] in P; rewrite !app_nil_r, Hval in P; exact P.
Qed.

Lemma int64_text_round_trip_witness :
  exists text, int64_t10_to_str (-9223372036854775808) (-10) = Some text /\
  my_strtoll10 text true = (-9223372036854775808, -1, Z.of_nat (length text)).
Proof. apply (int64_text_round_trip (-9223372036854775808) (-10)); unfold is_i64; lia. Defined.

(** [int64_t2str] in any radix from 2 to 36 writes, after a minus sign if the
    radix is given as negative and the value is, at most 64 digits that denote the
    value (or the unsigned value of its bits); it never overruns its buffer. *)
Theorem int64_t2str_digits (v radix : Z) : is_i64 v -> 2 <= Z.abs radix <= 36 ->
  exists xs, int64_t2str v radix
  = Some (Some ((if (radix <? 0) && (v <? 0) then [chr_minus] else []) ++ map dig_vec_upper xs)) /\
  Forall (digit_of (Z.abs radix)) xs /\ xs <> [] /\ (length xs <= 64)%nat /\
  radix_value (Z.abs radix) xs 0 = (if (radix <? 0) && (v <? 0) then - v else u64 v).
Proof.
  intros Hv Hr; pose proof (u64_range v) as Hu; unfold int64_t2str; destruct (Z.ltb_spec radix 0) as [Hneg|Hpos].
  - replace ((radix <? -36) || (radix >? -2)) with false by lia; rewrite Z.abs_neq by lia.
    destruct (Z.ltb_spec v 0) as [Hv0|Hv0]; cbn [andb].
    + rewrite neg_u64 by (unfold is_i64 in Hv; lia).
      destruct (put_digits_spec (- radix) (- v)) as (xs & -> & Hx); [lia|unfold is_i64 in Hv; lia|].
      exists xs; split; [reflexivity|]; tauto.
    + destruct (put_digits_spec (- radix) (u64 v)) as (xs & -> & Hx); [lia|lia|].
      exists xs; split; [reflexivity|]; tauto.
  - replace ((radix >? 36) || (radix <? 2)) with false by lia; rewrite Z.abs_eq by lia; cbn [andb].
    destruct (put_digits_spec radix (u64 v)) as (xs & -> & Hx); [lia|lia|].
    exists xs; split; [reflexivity|]; tauto.
Qed.

Lemma int64_t2str_digits_witness :
  exists xs, int64_t2str (-255) (-16) = Some (Some (chr_minus :: map dig_vec_upper xs)) /\
  radix_value 16 xs 0 = 255.
Proof.
  destruct (int64_t2str_digits (-255) (-16)) as (xs & E & _ & _ & _ & Hv); [unfold is_i64; lia|lia|].
  exists xs; split; [exact E|exact Hv].
Defined.

(** The 32-bit printer agrees with the 64-bit one. *)
Theorem int10_to_str_agrees (val radix : Z) : is_i32 val ->
  int64_t10_to_str (if radix <? 0 then val else u32 val) radix = Some (int10_to_str val radix).
Proof.
  unfold is_i32; intros Hv; unfold int64_t10_to_str, int10_to_str.
  destruct (Z.ltb_spec radix 0) as [Hr|Hr]; cbn [andb].
  - destruct (Z.ltb_spec val 0) as [H0|H0].
    + rewrite neg_u64, neg_u32, put_int10 by lia; reflexivity.
    + rewrite (u64_small val), (u32_small val) by lia; exact (put_int10 val ltac:(lia)).
  - pose proof (u32_range val); rewrite (u64_small (u32 val)) by lia; exact (put_int10 (u32 val) ltac:(lia)).
Qed.

Lemma int10_to_str_agrees_witness :
  int64_t10_to_str (-2147483648) (-10) = Some (int10_to_str (-2147483648) (-10)).
Proof. apply (int10_to_str_agrees (-2147483648) (-10)); unfold is_i32; lia. Defined.

(** An overflow [my_strtoll10] does not notice: 18446744073709551700 is above
    2^64-1 and is read as 84 without an error. *)
Theorem my_strtoll10_misses_overflow :
  my_strtoll10 (fmt_u 18446744073709551700) true = (84, 0, 20) /\ 18446744073709551700 > UINT64_MAX.
Proof. split; reflexivity. Qed.
