(* ===== verification/Decimal.v ===== *)
(** Decimal numbers, the type and its elementary operations:
    [src/drizzled/type/decimal.h] and [src/drizzled/type/decimal.cc].

    A [decimal_t] keeps its digits in words of nine, the words of the integer
    part right-aligned and those of the fraction left-aligned at the point.
    [buf] is the whole allocated array, [len] its length.  The counts of
    digits and words are mathematical integers: they are bounded by the length
    of a buffer or of a string.  A routine gives [None] where the code would
    leave one of its arrays.

    The invariant of the type is [wf]; [dec_Q] is the number a decimal
    denotes. *)

From Stdlib Require Import ZArith Lia ZifyBool List Bool QArith.
From S2P Require Import Prelude Words.
Import ListNotations.
Local Open Scope Z_scope.
Local Open Scope fail_scope.

(** ** Model: the type *)

(** src/drizzled/type/decimal.h:34-56 decimal_t *)
Record decimal_t := mkDecimal {
  intg : Z;
  frac : Z;
  len : Z;
  sign : bool;
  buf : list Z
}.

(** src/drizzled/type/decimal.h:24-31 decimal_round_mode *)
Inductive decimal_round_mode := TRUNCATE | HALF_EVEN | HALF_UP | CEILING | FLOOR.

(** src/drizzled/type/decimal.h:112-112 E_DEC_OK *)
Definition E_DEC_OK : Z := 0.
(** src/drizzled/type/decimal.h:113-113 E_DEC_TRUNCATED *)
Definition E_DEC_TRUNCATED : Z := 1.
(** src/drizzled/type/decimal.h:114-114 E_DEC_OVERFLOW *)
Definition E_DEC_OVERFLOW : Z := 2.
(** src/drizzled/type/decimal.h:115-115 E_DEC_DIV_ZERO *)
Definition E_DEC_DIV_ZERO : Z := 4.
(** src/drizzled/type/decimal.h:116-116 E_DEC_BAD_NUM *)
Definition E_DEC_BAD_NUM : Z := 8.
(** src/drizzled/type/decimal.h:117-117 E_DEC_OOM *)
Definition E_DEC_OOM : Z := 16.
(** src/drizzled/type/decimal.h:126-126 DECIMAL_BUFF_LENGTH *)
Definition DECIMAL_BUFF_LENGTH : Z := 9.
(** src/drizzled/type/decimal.h:129-129 DECIMAL_MAX_POSSIBLE_PRECISION *)
Definition DECIMAL_MAX_POSSIBLE_PRECISION : Z := DECIMAL_BUFF_LENGTH * 9.
(** src/drizzled/type/decimal.h:138-138 DECIMAL_MAX_PRECISION *)
Definition DECIMAL_MAX_PRECISION : Z := DECIMAL_MAX_POSSIBLE_PRECISION - 8 * 2.

(** src/drizzled/type/decimal.cc:370-370 DIG_PER_DEC1 *)
Definition DIG_PER_DEC1 : Z := 9.
(** src/drizzled/type/decimal.cc:371-371 DIG_MASK *)
Definition DIG_MASK : Z := 100000000.
(** src/drizzled/type/decimal.cc:372-372 DIG_BASE *)
Definition DIG_BASE : Z := 1000000000.
(** src/drizzled/type/decimal.cc:373-373 DIG_MAX *)
Definition DIG_MAX : Z := DIG_BASE - 1.

(** src/drizzled/type/decimal.cc:375-379 round_up *)
Definition round_up (x : Z) : Z := (x + DIG_PER_DEC1 - 1) ÷ DIG_PER_DEC1.

(** src/drizzled/type/decimal.cc:381-382 powers10 *)
Definition powers10 : list Z :=
  [1; 10; 100; 1000; 10000; 100000; 1000000; 10000000; 100000000; 1000000000].

(** src/drizzled/type/decimal.cc:383-383 dig2bytes *)
Definition dig2bytes : list Z := [0; 1; 1; 2; 2; 3; 3; 4; 4; 4].

(** src/drizzled/type/decimal.cc:384-387 frac_max *)
Definition frac_max : list Z :=
  [900000000; 990000000; 999000000; 999900000; 999990000; 999999000; 999999900; 999999990].

Definition set_buf (d : decimal_t) (b : list Z) : decimal_t :=
  mkDecimal (intg d) (frac d) (len d) (sign d) b.

Definition set_sign (d : decimal_t) (s : bool) : decimal_t :=
  mkDecimal (intg d) (frac d) (len d) s (buf d).

(** src/drizzled/type/decimal.h:40-46 decimal_t::set_zero *)
Definition set_zero (d : decimal_t) : option decimal_t :=
  let? b := wr (buf d) 0 0 in Some (mkDecimal 1 0 (len d) false b).

(** src/drizzled/type/decimal.h:49-52 decimal_t::negate *)
Definition negate (d : decimal_t) : decimal_t := set_sign d (negb (sign d)).

(** src/drizzled/type/decimal.h:189-198 type::Decimal::init

    A decimal with a buffer of its own; [intg], [frac] and [sign] are
    indeterminate until the first operation stores to it. *)
Definition Decimal_init (intg0 frac0 : Z) (sign0 : bool) : decimal_t :=
  mkDecimal intg0 frac0 DECIMAL_BUFF_LENGTH sign0
    (map Z.of_nat (seq 0 (Z.to_nat DECIMAL_BUFF_LENGTH))).

(** ** Model: words *)

(** src/drizzled/type/decimal.cc:396-414 fix_intg_frac_error *)
Definition fix_intg_frac_error (len intg1 frac1 : Z) : Z * Z * Z :=
  if intg1 + frac1 >? len then
    if intg1 >? len then (len, 0, E_DEC_OVERFLOW)
    else (intg1, len - intg1, E_DEC_TRUNCATED)
  else (intg1, frac1, E_DEC_OK).

(** src/drizzled/type/decimal.cc:417-424 add

    The word stored and the carry. *)
Definition add (from1 from2 carry : Z) : Z * Z :=
  let a := i32 (i32 (from1 + from2) + carry) in
  if a >=? DIG_BASE then (i32 (a - DIG_BASE), 1) else (a, 0).

(** src/drizzled/type/decimal.cc:426-437 add2 *)
Definition add2 (from1 from2 carry : Z) : Z * Z :=
  let a := i64 (i64 (from1 + from2) + carry) in
  let '(a, carry) := if a >=? DIG_BASE then (i64 (a - DIG_BASE), 1) else (a, 0) in
  let '(a, carry) := if a >=? DIG_BASE then (i64 (a - DIG_BASE), carry + 1) else (a, carry) in
  (i32 a, carry).

(** src/drizzled/type/decimal.cc:440-446 sub *)
Definition sub (from1 from2 carry : Z) : Z * Z :=
  let a := i32 (i32 (from1 - from2) - carry) in
  if a <? 0 then (i32 (a + DIG_BASE), 1) else (a, 0).

(** src/drizzled/type/decimal.cc:449-460 sub2 *)
Definition sub2 (from1 from2 carry : Z) : Z * Z :=
  let a := i32 (i32 (from1 - from2) - carry) in
  let '(a, carry) := if a <? 0 then (i32 (a + DIG_BASE), 1) else (a, 0) in
  let '(a, carry) := if a <? 0 then (i32 (a + DIG_BASE), carry + 1) else (a, carry) in
  (a, carry).

(** src/drizzled/type/decimal.cc:470-494 max_decimal *)
Definition max_decimal (precision frac0 : Z) (to : decimal_t) : option decimal_t :=
  let intpart := precision - frac0 in
  let? (b, p) :=
    if intpart =? 0 then Some (buf to, 0)
    else
      let firstdigits := Z.rem intpart DIG_PER_DEC1 in
      let? (b, p) :=
        if firstdigits =? 0 then Some (buf to, 0)
        else
          let? pw := rd powers10 firstdigits in
          let? b := wr (buf to) 0 (pw - 1) in Some (b, 1) in
      fill_up (Z.to_nat (intpart ÷ DIG_PER_DEC1)) DIG_MAX b p in
  let? b :=
    if frac0 =? 0 then Some b
    else
      let lastdigits := Z.rem frac0 DIG_PER_DEC1 in
      let? (b, p) := fill_up (Z.to_nat (frac0 ÷ DIG_PER_DEC1)) DIG_MAX b p in
      if lastdigits =? 0 then Some b
      else let? w := rd frac_max (lastdigits - 1) in wr b p w in
  Some (mkDecimal intpart frac0 (len to) false b).

(** src/drizzled/type/decimal.cc:502-507 remove_leading_zeroes

    Also the loops of [do_div_mod] over its operands.  The digits left and the
    position of the first word that is not zero; the count of digits falls
    with every word, which bounds the loop. *)
Fixpoint skip_zero_words (fuel : nat) (b : list Z) (intg i p : Z) : option (Z * Z) :=
  match fuel with
  | O => None
  | S fuel' =>
      if intg >? 0 then
        let? w := rd b p in
        if w =? 0 then skip_zero_words fuel' b (intg - i) DIG_PER_DEC1 (p + 1)
        else Some (intg, p)
      else Some (intg, p)
  end.

(** src/drizzled/type/decimal.cc:510-510 remove_leading_zeroes

    [for (...; *buf0 < powers10[i--]; intg--) ;] at most nine times. *)
Fixpoint skip_zero_digits (fuel : nat) (w intg i : Z) : option Z :=
  match fuel with
  | O => None
  | S fuel' =>
      let? pw := rd powers10 i in
      if w <? pw then skip_zero_digits fuel' w (intg - 1) (i - 1) else Some intg
  end.

(** src/drizzled/type/decimal.cc:497-517 remove_leading_zeroes

    The position of the first word and the digits left. *)
Definition remove_leading_zeroes (from : decimal_t) : option (Z * Z) :=
  let i := Z.rem (intg from - 1) DIG_PER_DEC1 + 1 in
  let? (intg, p) := skip_zero_words (S (Z.to_nat (intg from))) (buf from) (intg from) i 0 in
  if intg >? 0 then
    let? w := rd (buf from) p in
    let? intg := skip_zero_digits 10 w intg (Z.rem (intg - 1) DIG_PER_DEC1) in
    Some (p, intg)
  else Some (p, 0).

(** src/drizzled/type/decimal.cc:2077-2082 decimal_intg *)
Definition decimal_intg (from : decimal_t) : option Z :=
  let? (_, res) := remove_leading_zeroes from in Some res.

(** src/drizzled/type/decimal.cc:535-540 decimal_actual_fraction *)
Fixpoint drop_zero_words (fuel : nat) (b : list Z) (frac i p : Z) : option (Z * Z) :=
  match fuel with
  | O => None
  | S fuel' =>
      if frac >? 0 then
        let? w := rd b p in
        if w =? 0 then drop_zero_words fuel' b (frac - i) DIG_PER_DEC1 (p - 1)
        else Some (frac, p)
      else Some (frac, p)
  end.

(** src/drizzled/type/decimal.cc:543-543 decimal_actual_fraction *)
Fixpoint drop_zero_digits (fuel : nat) (w frac i : Z) : option Z :=
  match fuel with
  | O => None
  | S fuel' =>
      let? pw := rd powers10 i in
      if Z.rem w pw =? 0 then drop_zero_digits fuel' w (frac - 1) (i + 1) else Some frac
  end.

(** src/drizzled/type/decimal.cc:526-546 decimal_actual_fraction *)
Definition decimal_actual_fraction (from : decimal_t) : option Z :=
  let frac0 := frac from in
  let p := round_up (intg from) + round_up frac0 - 1 in
  if frac0 =? 0 then Some 0
  else
    let i := Z.rem (frac0 - 1) DIG_PER_DEC1 + 1 in
    let? (frac0, p) := drop_zero_words (S (Z.to_nat frac0)) (buf from) frac0 i p in
    if frac0 >? 0 then
      let? w := rd (buf from) p in
      drop_zero_digits 10 w frac0 (DIG_PER_DEC1 - Z.rem (frac0 - 1) DIG_PER_DEC1)
    else Some frac0.

(** src/drizzled/type/decimal.cc:2110-2116 decimal_t::isZero

    The loop over the [n] words from [p]. *)
Fixpoint all_zero (n : nat) (b : list Z) (p : Z) : option bool :=
  match n with
  | O => Some true
  | S n' => let? w := rd b p in if w =? 0 then all_zero n' b (p + 1) else Some false
  end.

(** src/drizzled/type/decimal.cc:2105-2119 decimal_t::isZero *)
Definition isZero (d : decimal_t) : option bool :=
  all_zero (Z.to_nat (round_up (intg d) + round_up (frac d))) (buf d) 0.

(** src/drizzled/type/decimal.h:357-366 class_decimal_neg *)
Definition class_decimal_neg (arg : decimal_t) : option decimal_t :=
  let? z := isZero arg in
  if z then Some (set_sign arg false) else Some (negate arg).

(** ** The numbers *)

Definition nint (d : decimal_t) : Z := round_up (intg d).
Definition nfrac (d : decimal_t) : Z := round_up (frac d).

(** The words in use, and those of the integer part. *)
Definition words (d : decimal_t) : list Z := ztake (nint d + nfrac d) (buf d).
Definition int_words (d : decimal_t) : list Z := ztake (nint d) (buf d).

Definition wval : list Z -> Z := bval DIG_BASE.
Definition word_ok : Z -> Prop := digit_ok DIG_BASE.

(** The magnitude, in units of the last word. *)
Definition mant (d : decimal_t) : Z := wval (words d).

Definition signed (s : bool) (z : Z) : Z := if s then - z else z.

(** The number that a decimal denotes. *)
Definition dec_Q (d : decimal_t) : Q :=
  signed (sign d) (mant d) # Z.to_pos (DIG_BASE ^ nfrac d).

(** Zero with a minus sign. *)
Definition neg_zero (d : decimal_t) : bool := sign d && (mant d =? 0).

(** The invariant: the words in use fit the buffer and are below the base, the
    integer part has at most [intg] digits and the fraction at most [frac]. *)
Record wf (d : decimal_t) : Prop := {
  wf_len : 0 < len d;
  wf_buf : zlen (buf d) = len d;
  wf_intg : 0 <= intg d;
  wf_frac : 0 <= frac d;
  wf_fits : nint d + nfrac d <= len d;
  wf_words : Forall word_ok (words d);
  wf_lead : mant d < 10 ^ (intg d + 9 * nfrac d);
  wf_tail : (10 ^ (9 * nfrac d - frac d) | mant d)
}.

(** The invariant as a test. *)
Definition wf_b (d : decimal_t) : bool :=
  (0 <? len d) && (zlen (buf d) =? len d) && (0 <=? intg d) && (0 <=? frac d) &&
  (nint d + nfrac d <=? len d) && forallb (fun w => (0 <=? w) && (w <? DIG_BASE)) (words d) &&
  (mant d <? 10 ^ (intg d + 9 * nfrac d)) && (mant d mod 10 ^ (9 * nfrac d - frac d) =? 0).

(** A buffer for a result, whatever it holds. *)
Definition target (d : decimal_t) : Prop := 0 < len d /\ zlen (buf d) = len d.

Lemma wf_target d : wf d -> target d.
Proof. intros W; split; [apply (wf_len _ W)|apply (wf_buf _ W)]. Qed.

Lemma round_up_eq x : 0 <= x -> round_up x = (x + 8) / 9.
Proof.
  intros H; unfold round_up, DIG_PER_DEC1; replace (x + 9 - 1) with (x + 8) by lia.
  apply Z.quot_div_nonneg; lia.
Qed.

Lemma round_up_bounds x : 0 <= x -> 9 * round_up x - 9 < x <= 9 * round_up x /\ 0 <= round_up x.
Proof. intros H; rewrite round_up_eq by exact H; dlia. Qed.

Lemma round_up_mul n : 0 <= n -> round_up (n * 9) = n.
Proof. intros H; rewrite round_up_eq by lia; dlia. Qed.

Lemma round_up_unique x n : 0 <= x -> 9 * n - 9 < x <= 9 * n -> round_up x = n.
Proof. intros H Hn; pose proof (round_up_bounds x H); lia. Qed.

Lemma base_gt1 : 1 < DIG_BASE.
Proof. reflexivity. Qed.

Lemma base_pow n : 0 <= n -> DIG_BASE ^ n = 10 ^ (9 * n).
Proof. intros H; change DIG_BASE with (10 ^ 9); rewrite <- Z.pow_mul_r by lia; reflexivity. Qed.

Lemma base_pow_pos n : 0 <= n -> 0 < DIG_BASE ^ n.
Proof. apply bpow_pos, base_gt1. Qed.

Lemma wval_app l l' : wval (l ++ l') = wval l * DIG_BASE ^ zlen l' + wval l'.
Proof. apply bval_app. Qed.

Lemma wval_cons w l : wval (w :: l) = w * DIG_BASE ^ zlen l + wval l.
Proof. reflexivity. Qed.

Lemma wval_bounds l : Forall word_ok l -> 0 <= wval l < DIG_BASE ^ zlen l.
Proof. apply bval_bounds, base_gt1. Qed.

Lemma wval_zeros n : wval (repeat 0 n) = 0.
Proof. apply bval_zeros. Qed.

Lemma word_ok_zeros n : Forall word_ok (repeat 0 n).
Proof.
  apply Forall_forall; intros x Hx%repeat_spec; subst x; unfold word_ok, digit_ok, DIG_BASE; lia.
Qed.

Lemma wf_b_correct d : wf_b d = true -> wf d.
Proof.
  unfold wf_b; rewrite !andb_true_iff, forallb_forall; intros (((((((H1 & H2) & H3) & H4) & H5) & H6) & H7) & H8).
  split; try lia.
  - apply Forall_forall; intros w Hw; specialize (H6 w Hw); unfold word_ok, digit_ok; lia.
  - apply Z.mod_divide; [|lia]; pose proof (round_up_bounds (frac d) ltac:(lia)); unfold nfrac.
    apply Z.pow_nonzero; lia.
Qed.

Section facts.
Context (d : decimal_t) (W : wf d).

Lemma nint_bounds : 9 * nint d - 9 < intg d <= 9 * nint d /\ 0 <= nint d.
Proof. apply round_up_bounds, (wf_intg _ W). Qed.

Lemma nfrac_bounds : 9 * nfrac d - 9 < frac d <= 9 * nfrac d /\ 0 <= nfrac d.
Proof. apply round_up_bounds, (wf_frac _ W). Qed.

(** The buffer of a well-formed decimal: integer words, fraction words, rest. *)
Lemma wf_layout : exists I F R, buf d = I ++ F ++ R /\ zlen I = nint d /\ zlen F = nfrac d /\
  words d = I ++ F /\ int_words d = I /\ Forall word_ok I /\ Forall word_ok F /\
  mant d = wval I * DIG_BASE ^ nfrac d + wval F.
Proof.
  pose proof nint_bounds as Hn; pose proof nfrac_bounds as Hf.
  pose proof (wf_fits _ W); pose proof (wf_buf _ W); pose proof (wf_words _ W) as Ww.
  destruct (zsplit (nint d) (buf d)) as (I & T & E & LI & LT); [lia|].
  destruct (zsplit (nfrac d) T) as (F & R & ET & LF & LR); [lia|]; subst T.
  assert (words d = I ++ F) as Ew by (unfold words; rewrite E, app_assoc; apply ztake_app; llia).
  exists I, F, R; rewrite Ew in Ww; apply Forall_app in Ww as [HI HF].
  unfold mant; rewrite Ew, wval_app, LF.
  repeat split; auto; unfold int_words; rewrite E; apply ztake_app; lia.
Qed.

Lemma mant_bounds : 0 <= mant d < DIG_BASE ^ (nint d + nfrac d).
Proof.
  pose proof nint_bounds as Hn; pose proof nfrac_bounds as Hf.
  pose proof (wval_bounds _ (wf_words _ W)) as H; unfold mant.
  unfold words in H at 3; rewrite zlen_ztake in H; [exact H|].
  pose proof (wf_fits _ W); pose proof (wf_buf _ W); lia.
Qed.

End facts.

(** A result whose words have been written at the start of its buffer. *)
Lemma build_mant i f l s out post : zlen out = round_up i + round_up f ->
  mant (mkDecimal i f l s (out ++ post)) = wval out.
Proof. intros L; unfold mant, words, nint, nfrac; cbn [intg frac buf]; rewrite ztake_app by lia; reflexivity. Qed.

Lemma build_wf i f l s out post : 0 <= i -> 0 <= f -> 0 < l -> zlen (out ++ post) = l ->
  zlen out = round_up i + round_up f -> Forall word_ok out ->
  wval out < 10 ^ (i + 9 * round_up f) -> (10 ^ (9 * round_up f - f) | wval out) ->
  wf (mkDecimal i f l s (out ++ post)).
Proof.
  intros Hi Hf Hl L Lo Ho B T; rewrite zlen_app in L; pose proof (zlen_nonneg post).
  constructor; rewrite ?build_mant by exact Lo; unfold words, nint, nfrac; cbn [intg frac len buf]; try lia.
  - rewrite zlen_app; exact L.
  - rewrite ztake_app by lia; exact Ho.
  - exact T.
Qed.

(** The same when the integer part is counted in whole words. *)
Lemma build_words_wf n f l s out post : 0 <= n -> 0 <= f -> 0 < l -> zlen (out ++ post) = l ->
  zlen out = n + round_up f -> Forall word_ok out -> (10 ^ (9 * round_up f - f) | wval out) ->
  wf (mkDecimal (n * DIG_PER_DEC1) f l s (out ++ post)).
Proof.
  intros Hn Hf Hl L Lo Ho T; pose proof (round_up_bounds f Hf); unfold DIG_PER_DEC1.
  apply build_wf; rewrite ?round_up_mul by exact Hn; try assumption; [lia|].
  pose proof (wval_bounds _ Ho) as B; rewrite Lo, base_pow in B by lia.
  replace (n * 9 + 9 * round_up f) with (9 * (n + round_up f)) by lia; apply B.
Qed.

Lemma set_zero_wf d : target d -> exists r, set_zero d = Some r /\ wf r /\ dec_Q r == 0 /\
  mant r = 0 /\ sign r = false /\ len r = len d.
Proof.
  intros [Hl Hb]; unfold set_zero; destruct (buf d) as [|w b] eqn:E; [rewrite zlen_nil in Hb; lia|].
  rewrite wr_0; cbn [obind]; eexists; split; [reflexivity|]; split; [|repeat split].
  apply (build_wf 1 0 (len d) false [0] b); try lia;
    [exact Hb|reflexivity|apply (word_ok_zeros 1)|reflexivity|apply Z.divide_0_r].
Qed.

(** ** Leading zeros *)

Lemma powers10_at i : 0 <= i <= 9 -> rd powers10 i = Some (10 ^ i).
Proof.
  intros H; assert (i = 0 \/ i = 1 \/ i = 2 \/ i = 3 \/ i = 4 \/ i = 5 \/ i = 6 \/ i = 7 \/ i = 8 \/ i = 9)
    as C by lia.
  decompose [or] C; subst i; reflexivity.
Qed.

Lemma all_zero_eq n m pre post p : zlen m = Z.of_nat n -> p = zlen pre -> Forall word_ok m ->
  all_zero n (pre ++ m ++ post) p = Some (wval m =? 0).
Proof.
  revert m pre p; induction n as [|n IH]; intros m pre p Hm -> Hw.
  - rewrite (zlen_zero m) by lia; reflexivity.
  - destruct m as [|w m]; [llia|]; cbn [all_zero app]; rewrite rd_at by reflexivity; cbn [obind].
    apply Forall_cons_iff in Hw as [Hw Hm'].
    pose proof (wval_bounds _ Hm'); unfold word_ok, digit_ok in Hw; rewrite wval_cons.
    pose proof (base_pow_pos (zlen m) ltac:(llia)).
    destruct (Z.eqb_spec w 0) as [->|Hne].
    + replace (pre ++ 0 :: m ++ post) with ((pre ++ [0]) ++ m ++ post) by (rewrite <- app_assoc; reflexivity).
      rewrite IH by (llia || assumption); f_equal; f_equal; lia.
    + f_equal; symmetry; apply Z.eqb_neq; nia.
Qed.

Lemma isZero_correct d : wf d -> isZero d = Some (mant d =? 0).
Proof.
  intros W; destruct (wf_layout d W) as (I & F & R & E & LI & LF & Ew & _ & HI & HF & _).
  pose proof (nint_bounds d W); pose proof (nfrac_bounds d W).
  unfold isZero, mant; rewrite Ew, E, (app_assoc I F R).
  apply (all_zero_eq _ _ [] R); [fold (nint d) (nfrac d); llia|reflexivity|].
  apply Forall_app; auto.
Qed.

Lemma skip_zero_words_eq fuel m pre post : forall k i, (Z.to_nat (zlen m) < fuel)%nat ->
  0 <= k -> round_up k = zlen m -> (0 < k -> i = Z.rem (k - 1) 9 + 1) ->
  exists z m', m = repeat 0 z ++ m' /\ (m' = [] \/ hd 0 m' <> 0) /\
    skip_zero_words fuel (pre ++ m ++ post) k i (zlen pre)
    = Some (if (z =? 0)%nat then k else 9 * zlen m', zlen pre + Z.of_nat z).
Proof.
  revert m pre; induction fuel as [|fuel IH]; intros m pre k i Hf Hk Hr Hi; [lia|].
  pose proof (round_up_bounds k Hk) as Hb; cbn [skip_zero_words].
  destruct m as [|w m]; autorewrite with zlen in *.
  - replace (k >? 0) with false by lia; exists O, []; cbn; rewrite Z.add_0_r; auto.
  - pose proof (zlen_nonneg m); replace (k >? 0) with true by lia; cbn [app].
    rewrite rd_at by reflexivity; cbn [obind]; destruct (Z.eqb_spec w 0) as [->|Hw].
    + assert (k - i = 9 * zlen m) as Ek by (rewrite Hi by lia; dlia).
      destruct (IH m (pre ++ [0]) (k - i) DIG_PER_DEC1) as (z & m' & -> & Hm & E);
        [lia|lia|rewrite Ek, Z.mul_comm; apply round_up_mul; lia|unfold DIG_PER_DEC1; dlia|].
      exists (S z), m'; split; [reflexivity|split; [exact Hm|]].
      rewrite <- app_assoc in E; cbn [app] in E; rewrite zlen_app in E; change (zlen [0]) with 1 in E.
      rewrite E; f_equal; f_equal; [|lia].
      destruct z as [|z]; cbn [Nat.eqb]; [rewrite Ek; reflexivity|reflexivity].
    + exists O, (w :: m); split; [reflexivity|split; [right; exact Hw|]].
      rewrite Z.add_0_r; reflexivity.
Qed.

Lemma skip_zero_digits_eq fuel w : forall k i, (Z.to_nat i < fuel)%nat -> 0 <= i <= 9 ->
  0 < w < 10 ^ (i + 1) ->
  exists j, 0 <= j <= i /\ skip_zero_digits fuel w k i = Some (k - (i - j)) /\
    10 ^ j <= w < 10 ^ (j + 1).
Proof.
  induction fuel as [|fuel IH]; intros k i Hf Hi Hw; [lia|]; cbn [skip_zero_digits].
  rewrite powers10_at by lia; cbn [obind]; destruct (Z.ltb_spec w (10 ^ i)) as [Hlt|Hge].
  - assert (i <> 0) by (intros ->; change (10 ^ 0) with 1 in Hlt; lia).
    destruct (IH (k - 1) (i - 1)) as (j & Hj & E & B);
      [lia|lia|replace (i - 1 + 1) with i by lia; lia|].
    exists j; split; [lia|split; [rewrite E; f_equal; lia|exact B]].
  - exists i; split; [lia|split; [f_equal; lia|lia]].
Qed.

Lemma int_part_bound d I F : wf d -> words d = I ++ F -> zlen F = nfrac d -> Forall word_ok F ->
  wval I < 10 ^ intg d.
Proof.
  intros W Ew LF HF; pose proof (wf_lead _ W) as Hl; pose proof (nfrac_bounds d W).
  pose proof (wval_bounds _ HF) as B.
  unfold mant in Hl; rewrite Ew, wval_app, LF in Hl.
  rewrite Z.pow_add_r, <- base_pow in Hl by (pose proof (wf_intg _ W); lia).
  pose proof (base_pow_pos (nfrac d) ltac:(lia)); nia.
Qed.

(** Numbers whose leading word has [j + 1] digits. *)
Lemma wval_lead w m j : 0 <= j -> 10 ^ j <= w < 10 ^ (j + 1) -> Forall word_ok m ->
  10 ^ (9 * zlen m + j) <= wval (w :: m) < 10 ^ (9 * zlen m + j + 1).
Proof.
  intros Hj Hw Hm; pose proof (wval_bounds _ Hm) as B; pose proof (zlen_nonneg m).
  rewrite wval_cons, base_pow in * by lia.
  rewrite <- (Z.add_assoc (9 * zlen m)), !(Z.pow_add_r 10 (9 * zlen m)) by lia.
  pose proof (Z.pow_pos_nonneg 10 (9 * zlen m)); nia.
Qed.

(** The digits of a number of [k0] places whose first word is not zero. *)
Lemma first_word_digits w m k0 : Forall word_ok (w :: m) -> w <> 0 -> 0 <= k0 ->
  round_up k0 = zlen m + 1 -> wval (w :: m) < 10 ^ k0 ->
  exists k, skip_zero_digits 10 w k0 (Z.rem (k0 - 1) DIG_PER_DEC1) = Some k /\
    0 < k <= k0 /\ round_up k = zlen m + 1 /\ 10 ^ (k - 1) <= wval (w :: m) < 10 ^ k.
Proof.
  intros [Hw Hm]%Forall_cons_iff Hw0 Hk Hr HB; unfold word_ok, digit_ok in Hw.
  pose proof (zlen_nonneg m); pose proof (wval_bounds _ Hm) as Bm.
  pose proof (round_up_bounds k0 Hk) as Hb; rewrite Hr in Hb.
  assert (Z.rem (k0 - 1) DIG_PER_DEC1 = k0 - 1 - 9 * zlen m) as Er by (unfold DIG_PER_DEC1; dlia).
  assert (w < 10 ^ (Z.rem (k0 - 1) DIG_PER_DEC1 + 1)) as Hwb.
  { rewrite Er; rewrite wval_cons, base_pow in HB by lia.
    replace k0 with ((k0 - 1 - 9 * zlen m + 1) + 9 * zlen m) in HB at 1 by lia.
    rewrite Z.pow_add_r in HB by lia; pose proof (Z.pow_pos_nonneg 10 (9 * zlen m)); nia. }
  destruct (skip_zero_digits_eq 10 w k0 (Z.rem (k0 - 1) DIG_PER_DEC1)) as (j & Hj & ED & B);
    [lia|lia|lia|].
  pose proof (wval_lead w m j ltac:(lia) B Hm) as BL; rewrite Er in *.
  exists (9 * zlen m + j + 1); split; [rewrite ED; f_equal; lia|].
  split; [lia|split; [apply round_up_unique; lia|]].
  replace (9 * zlen m + j + 1 - 1) with (9 * zlen m + j) by lia; exact BL.
Qed.

(** What is left after the leading zeros: the words before the position are
    zero, and the count is the number of digits of the integer part. *)
Lemma remove_leading_zeroes_spec d : wf d -> exists p k m, remove_leading_zeroes d = Some (p, k) /\
  int_words d = repeat 0 (Z.to_nat p) ++ m /\ 0 <= p /\ p + zlen m = nint d /\
  zlen m = round_up k /\ 0 <= k <= intg d /\ wval m = wval (int_words d) /\
  wval m < 10 ^ k /\ (0 < k -> 10 ^ (k - 1) <= wval m).
Proof.
  intros W; destruct (wf_layout d W) as (I & F & R & E & LI & LF & Ew & EI & HI & HF & _).
  pose proof (wf_intg _ W) as Hi; pose proof (nint_bounds d W) as Hn.
  pose proof (int_part_bound d I F W Ew LF HF) as HB.
  unfold remove_leading_zeroes; rewrite E, EI.
  destruct (skip_zero_words_eq (S (Z.to_nat (intg d))) I [] (F ++ R) (intg d)
              (Z.rem (intg d - 1) DIG_PER_DEC1 + 1)) as (z & m & -> & Hm & ES);
    [lia|lia|symmetry; exact LI|reflexivity|].
  cbn [app] in ES; change (zlen (@nil Z)) with 0 in ES; rewrite ES; cbn [obind Z.add]; clear ES.
  apply Forall_app in HI as [_ Hmo]; rewrite wval_app, wval_zeros in *; rewrite zlen_app, zlen_repeat in LI.
  pose proof (zlen_nonneg m).
  set (k0 := if (z =? 0)%nat then intg d else 9 * zlen m).
  assert (0 <= k0 <= intg d /\ round_up k0 = zlen m) as (Hk0 & Hr).
  { unfold k0; destruct (Nat.eqb_spec z 0); [split; [lia|fold (nint d); lia]|].
    split; [lia|rewrite Z.mul_comm; apply round_up_mul; lia]. }
  assert (wval m < 10 ^ k0) as HB0.
  { unfold k0; destruct (z =? 0)%nat; [lia|]; rewrite <- base_pow by lia; apply wval_bounds; exact Hmo. }
  clearbody k0; pose proof (round_up_bounds k0 ltac:(lia)) as Hb; rewrite Hr in Hb.
  destruct Hm as [->|Hm].
  - change (zlen (@nil Z)) with 0 in *; replace (k0 >? 0) with false by lia.
    exists (Z.of_nat z), 0, []; rewrite Nat2Z.id; change (zlen (@nil Z)) with 0.
    repeat split; try lia; cbn; lia.
  - destruct m as [|w m]; [cbn in Hm; lia|]; cbn [hd] in Hm; rewrite zlen_cons in *.
    pose proof (zlen_nonneg m); replace (k0 >? 0) with true by lia.
    rewrite <- app_assoc; cbn [app]; rewrite rd_at by (rewrite zlen_repeat; reflexivity); cbn [obind].
    destruct (first_word_digits w m k0) as (k & ED & Hk & Hrk & BL); [assumption..|lia|assumption|assumption|].
    rewrite ED; cbn [obind]; exists (Z.of_nat z), k, (w :: m); rewrite Nat2Z.id, zlen_cons.
    repeat split; lia.
Qed.

(** The number of digits of the integer part. *)
Lemma decimal_intg_spec d : wf d -> exists k, decimal_intg d = Some k /\ 0 <= k <= intg d /\
  wval (int_words d) < 10 ^ k /\ (0 < k -> 10 ^ (k - 1) <= wval (int_words d)).
Proof.
  intros W; destruct (remove_leading_zeroes_spec d W) as (p & k & m & E & _ & _ & _ & _ & Hk & Ev & B).
  exists k; unfold decimal_intg; rewrite E, <- Ev; auto.
Qed.

(** ** The largest decimal *)

Lemma wval_nines n : wval (repeat DIG_MAX n) = DIG_BASE ^ Z.of_nat n - 1.
Proof.
  induction n as [|n IH]; [reflexivity|]; cbn [repeat]; rewrite wval_cons, IH, zlen_repeat.
  rewrite Nat2Z.inj_succ, Z.pow_succ_r by lia; unfold DIG_MAX; ring.
Qed.

Lemma word_ok_nines n : Forall word_ok (repeat DIG_MAX n).
Proof.
  apply Forall_forall; intros x Hx%repeat_spec; subst x; unfold word_ok, digit_ok, DIG_MAX, DIG_BASE; lia.
Qed.

Lemma pow10_small i : 0 <= i <= 9 -> 1 <= 10 ^ i <= DIG_BASE.
Proof.
  intros H; pose proof (Z.pow_pos_nonneg 10 i ltac:(lia) ltac:(lia)).
  pose proof (Z.pow_le_mono_r 10 i 9 ltac:(lia) ltac:(lia)); unfold DIG_BASE; change (10 ^ 9) with 1000000000 in *; lia.
Qed.

Lemma frac_max_at i : 1 <= i <= 8 -> rd frac_max (i - 1) = Some (DIG_BASE - 10 ^ (9 - i)).
Proof.
  intros H; assert (i = 1 \/ i = 2 \/ i = 3 \/ i = 4 \/ i = 5 \/ i = 6 \/ i = 7 \/ i = 8) as C by lia.
  decompose [or] C; subst i; reflexivity.
Qed.

(** The integer words that [max_decimal] writes. *)
Lemma max_int_words n b : 0 <= n -> round_up n <= zlen b ->
  exists out post, b = ztake (round_up n) b ++ post /\ zlen out = round_up n /\ Forall word_ok out /\
    wval out = 10 ^ n - 1 /\
    (let? (b, p) :=
       if Z.rem n DIG_PER_DEC1 =? 0 then Some (b, 0)
       else
         let? pw := rd powers10 (Z.rem n DIG_PER_DEC1) in
         let? b := wr b 0 (pw - 1) in Some (b, 1) in
     fill_up (Z.to_nat (n ÷ DIG_PER_DEC1)) DIG_MAX b p) = Some (out ++ post, zlen out).
Proof.
  intros Hn Hl; pose proof (round_up_bounds n Hn) as Hr.
  assert (n = 9 * (n ÷ 9) + Z.rem n 9 /\ 0 <= Z.rem n 9 < 9 /\ 0 <= n ÷ 9) as (En & Hx & Hq) by dlia.
  unfold DIG_PER_DEC1; set (q := n ÷ 9) in *; set (x := Z.rem n 9) in *; clearbody q x.
  destruct (zsplit (round_up n) b) as (mid & post & -> & Lm & Lp); [lia|]; rewrite ztake_app by lia.
  destruct (Z.eqb_spec x 0) as [->|Hx0]; cbn [obind].
  - exists (repeat DIG_MAX (Z.to_nat q)), post; rewrite zlen_repeat, wval_nines, Z2Nat.id by lia.
    split; [reflexivity|split; [lia|split; [apply word_ok_nines|]]].
    split; [rewrite base_pow by lia; f_equal; f_equal; lia|].
    change (mid ++ post) with ([] ++ mid ++ post); rewrite fill_up_eq by llia.
    rewrite Z2Nat.id by lia; reflexivity.
  - rewrite powers10_at by lia; cbn [obind]; destruct mid as [|w mid]; [llia|]; rewrite zlen_cons in Lm.
    pose proof (pow10_small x ltac:(lia)).
    assert (10 ^ x < DIG_BASE) by (change DIG_BASE with (10 ^ 9); apply Z.pow_lt_mono_r; lia).
    cbn [app]; rewrite wr_0; cbn [obind].
    exists ((10 ^ x - 1) :: repeat DIG_MAX (Z.to_nat q)), post.
    rewrite zlen_cons, wval_cons, zlen_repeat, wval_nines, Z2Nat.id by lia.
    split; [reflexivity|split; [lia|split]].
    { apply Forall_cons; [unfold word_ok, digit_ok; lia|apply word_ok_nines]. }
    split.
    { rewrite base_pow by lia; rewrite En, (Z.add_comm (9 * q)), Z.pow_add_r by lia; ring. }
    change (10 ^ x - 1 :: mid ++ post) with ([10 ^ x - 1] ++ mid ++ post); rewrite fill_up_eq by llia.
    rewrite Z2Nat.id by lia; f_equal; f_equal; llia.
Qed.

Lemma max_int_decimal_spec n to : target to -> 0 < n -> round_up n <= len to ->
  exists r, max_decimal n 0 to = Some r /\ wf r /\ intg r = n /\ frac r = 0 /\ len r = len to /\
    sign r = false /\ mant r = 10 ^ n - 1.
Proof.
  intros [Hl Hb] Hn Hr; unfold max_decimal; rewrite Z.sub_0_r.
  destruct (Z.eqb_spec n 0); [lia|].
  destruct (max_int_words n (buf to)) as (out & post & Eb & Lo & Ho & V & ->); [lia|lia|]; cbn [obind Z.eqb].
  pose proof (round_up_bounds n ltac:(lia)).
  assert (zlen post = zlen (buf to) - round_up n) as Lp
    by (apply (f_equal zlen) in Eb; rewrite zlen_app, zlen_ztake in Eb by lia; lia).
  eexists; split; [reflexivity|].
  rewrite build_mant by (change (round_up 0) with 0; lia); split; [|repeat split; exact V].
  apply build_wf; try lia; [llia|change (round_up 0) with 0; lia|exact Ho| |apply Z.divide_1_l].
  rewrite V; change (9 * round_up 0) with 0; rewrite Z.add_0_r; lia.
Qed.
