(* ===== verification/DecInt.v ===== *)
(** Decimals and 64-bit integers: [ull2dec], [uint64_t2decimal],
    [int64_t2decimal], [decimal2uint64_t] and [decimal2int64_t] of
    [src/drizzled/type/decimal.cc].

    Both directions are exact on every integer, a fraction is cut with
    [E_DEC_TRUNCATED], and a number outside the range gives the nearest
    bound with [E_DEC_OVERFLOW]. *)

From Stdlib Require Import ZArith Lia ZifyBool List Bool QArith.
From S2P Require Import Prelude Words Decimal.
Import ListNotations.
Local Open Scope Z_scope.
Local Open Scope fail_scope.

(** ** Model *)

(** src/drizzled/type/decimal.cc:1220-1220 ull2dec

    The words of a 64-bit value: at most three, so four tests. *)
Fixpoint count_words (fuel : nat) (from intg1 : Z) : option Z :=
  match fuel with
  | O => None
  | S fuel' =>
      if from >=? DIG_BASE then count_words fuel' (from / DIG_BASE) (intg1 + 1) else Some intg1
  end.

(** src/drizzled/type/decimal.cc:1229-1234 ull2dec *)
Fixpoint store_words (n : nat) (x : Z) (t : list Z) (p : Z) : option (list Z) :=
  match n with
  | O => Some t
  | S n' =>
      let y := x / DIG_BASE in
      let? t := wr t (p - 1) (i32 (u64 (x - u64 (y * DIG_BASE)))) in
      store_words n' y t (p - 1)
  end.

(** src/drizzled/type/decimal.cc:1212-1236 ull2dec

    The sign has been stored by the caller. *)
Definition ull2dec (from : Z) (to : decimal_t) : option (Z * decimal_t) :=
  let? intg1 := count_words 4 from 1 in
  let '(intg1, error) :=
    if intg1 >? len to then (len to, E_DEC_OVERFLOW) else (intg1, E_DEC_OK) in
  let? b := store_words (Z.to_nat intg1) from (buf to) intg1 in
  Some (error, mkDecimal (intg1 * DIG_PER_DEC1) 0 (len to) (sign to) b).

(** src/drizzled/type/decimal.cc:1238-1242 uint64_t2decimal *)
Definition uint64_t2decimal (from : Z) (to : decimal_t) : option (Z * decimal_t) :=
  ull2dec from (set_sign to false).

(** src/drizzled/type/decimal.cc:1244-1249 int64_t2decimal *)
Definition int64_t2decimal (from : Z) (to : decimal_t) : option (Z * decimal_t) :=
  if from <? 0 then ull2dec (u64 (i64 (- from))) (set_sign to true)
  else ull2dec (u64 from) (set_sign to false).

Definition UINT64_MAX : Z := 18446744073709551615.
Definition INT64_MAX : Z := 9223372036854775807.
Definition INT64_MIN : Z := -9223372036854775808.

(** src/drizzled/type/decimal.cc:1263-1272 decimal2uint64_t

    [Some None] is the return on overflow; otherwise the value and the
    position after the integer words. *)
Fixpoint uint_loop (n : nat) (b : list Z) (p x : Z) : option (option (Z * Z)) :=
  match n with
  | O => Some (Some (x, p))
  | S n' =>
      let? w := rd b p in
      let y := x in
      let x := u64 (u64 (x * DIG_BASE) + u64 w) in
      if (y >? UINT64_MAX / DIG_BASE) || (x <? y) then Some None
      else uint_loop n' b (p + 1) x
  end.

(** src/drizzled/type/decimal.cc:1274-1277 decimal2uint64_t

    Also the end of [decimal2int64_t]. *)
Definition frac_result (from : decimal_t) (p : Z) : option Z :=
  let? z := all_zero (Z.to_nat (round_up (frac from))) (buf from) p in
  Some (if z then E_DEC_OK else E_DEC_TRUNCATED).

(** src/drizzled/type/decimal.cc:1251-1278 decimal2uint64_t

    The error and the value stored. *)
Definition decimal2uint64_t (from : decimal_t) : option (Z * Z) :=
  if sign from then Some (E_DEC_OVERFLOW, 0)
  else
    let? r := uint_loop (Z.to_nat (round_up (intg from))) (buf from) 0 0 in
    match r with
    | None => Some (E_DEC_OVERFLOW, UINT64_MAX)
    | Some (x, p) => let? e := frac_result from p in Some (e, x)
    end.

(** src/drizzled/type/decimal.cc:1286-1304 decimal2int64_t *)
Fixpoint int_loop (n : nat) (b : list Z) (p x : Z) : option (option (Z * Z)) :=
  match n with
  | O => Some (Some (x, p))
  | S n' =>
      let? w := rd b p in
      let y := x in
      let x := i64 (i64 (x * DIG_BASE) - w) in
      if (y <? INT64_MIN ÷ DIG_BASE) || (x >? y) then Some None
      else int_loop n' b (p + 1) x
  end.

(** src/drizzled/type/decimal.cc:1280-1318 decimal2int64_t *)
Definition decimal2int64_t (from : decimal_t) : option (Z * Z) :=
  let? r := int_loop (Z.to_nat (round_up (intg from))) (buf from) 0 0 in
  match r with
  | None => Some (E_DEC_OVERFLOW, if sign from then INT64_MIN else INT64_MAX)
  | Some (x, p) =>
      if negb (sign from) && (x =? INT64_MIN) then Some (E_DEC_OVERFLOW, INT64_MAX)
      else
        let? e := frac_result from p in
        Some (e, if sign from then x else i64 (- x))
  end.

(** src/drizzled/type/decimal.h:348-354 int2_class_decimal

    Without the warning that [check_result] pushes. *)
Definition int2_class_decimal (i : Z) (unsigned_flag : bool) (d : decimal_t)
  : option (Z * decimal_t) :=
  if unsigned_flag then uint64_t2decimal (u64 i) d else int64_t2decimal i d.

(** ** Storing an integer *)

Lemma count_words_eq fuel : forall from n, 0 <= from < DIG_BASE ^ Z.of_nat fuel -> (0 < fuel)%nat ->
  exists k, count_words fuel from n = Some (n + k) /\ 0 <= k < Z.of_nat fuel /\
    from < DIG_BASE ^ (k + 1) /\ (0 < k -> DIG_BASE ^ k <= from).
Proof.
  induction fuel as [|fuel IH]; intros from n Hf Hpos; [lia|]; cbn [count_words].
  destruct (Z.geb_spec from DIG_BASE) as [Hge|Hlt].
  - destruct fuel as [|fuel]; [change (DIG_BASE ^ Z.of_nat 1) with DIG_BASE in Hf; lia|].
    rewrite (Nat2Z.inj_succ (S fuel)), Z.pow_succ_r in Hf by lia.
    destruct (IH (from / DIG_BASE) (n + 1)) as (k & E & Hk & B1 & B2);
      [unfold DIG_BASE in *; dlia|lia|].
    exists (k + 1); split; [rewrite E; f_equal; lia|split; [lia|]].
    replace (k + 1 + 1) with (Z.succ (k + 1)) by lia; rewrite Z.pow_succ_r by lia.
    split; [unfold DIG_BASE in *; dlia|intros _; rewrite Z.pow_add_r, Z.pow_1_r by lia].
    destruct (Z.eq_dec k 0) as [->|Hk0]; [change (DIG_BASE ^ 0) with 1; lia|].
    specialize (B2 ltac:(lia)); unfold DIG_BASE in *; dlia.
  - exists 0; split; [f_equal; lia|split; [lia|split; [|lia]]].
    change (DIG_BASE ^ (0 + 1)) with DIG_BASE; exact Hlt.
Qed.

(** The last [n] words of a number, the most significant one first. *)
Fixpoint to_words (n : nat) (x : Z) (acc : list Z) : list Z :=
  match n with
  | O => acc
  | S n' => to_words n' (x / DIG_BASE) (x mod DIG_BASE :: acc)
  end.

Lemma to_words_spec n : forall x acc, 0 <= x -> Forall word_ok acc ->
  exists l, to_words n x acc = l ++ acc /\ zlen l = Z.of_nat n /\ Forall word_ok l /\
    wval l = x mod DIG_BASE ^ Z.of_nat n.
Proof.
  induction n as [|n IH]; intros x acc Hx Hacc; cbn [to_words].
  - exists []; repeat split; [apply Forall_nil|rewrite Z.mod_1_r; reflexivity].
  - assert (word_ok (x mod DIG_BASE)) as Hw by (apply Z.mod_pos_bound; reflexivity).
    destruct (IH (x / DIG_BASE) (x mod DIG_BASE :: acc)) as (l & E & L & Hl & V);
      [apply Z.div_pos; [lia|reflexivity]|apply Forall_cons; assumption|].
    exists (l ++ [x mod DIG_BASE]); rewrite E, <- app_assoc; split; [reflexivity|].
    split; [llia|split; [apply Forall_app; split; [exact Hl|apply Forall_cons; [exact Hw|apply Forall_nil]]|]].
    unfold wval in *; rewrite bval_snoc, V, Nat2Z.inj_succ, Z.pow_succ_r by lia.
    rewrite Z.rem_mul_r by (reflexivity || (apply base_pow_pos; lia) || discriminate); ring.
Qed.

Lemma to_words_app n : forall x a a', to_words n x (a ++ a') = to_words n x a ++ a'.
Proof. induction n as [|n IH]; intros x a a'; [reflexivity|exact (IH _ (_ :: a) a')]. Qed.

Lemma store_words_eq n : forall x mid post p, 0 <= x < 18446744073709551616 ->
  zlen mid = Z.of_nat n -> p = Z.of_nat n ->
  store_words n x (mid ++ post) p = Some (to_words n x [] ++ post).
Proof.
  induction n as [|n IH]; intros x mid post p Hx Hm ->; [rewrite (zlen_zero mid) by lia; reflexivity|].
  destruct (zlen_last mid) as (m' & w & ->); [lia|]; cbn [store_words to_words].
  rewrite <- app_assoc; cbn [app]; rewrite wr_at by llia; cbn [obind].
  assert (u64 (x - u64 (x / DIG_BASE * DIG_BASE)) = x mod DIG_BASE) as ->.
  { rewrite (u64_small (_ * _)) by (unfold DIG_BASE; dlia).
    rewrite u64_small by (unfold DIG_BASE; dlia); unfold DIG_BASE; dlia. }
  rewrite i32_small, IH by (unfold DIG_BASE; dlia || llia).
  f_equal; change [x mod DIG_BASE] with ([] ++ [x mod DIG_BASE]).
  rewrite to_words_app, <- app_assoc; reflexivity.
Qed.

Lemma ull2dec_spec from to : 0 <= from < 18446744073709551616 -> target to ->
  exists e r, ull2dec from to = Some (e, r) /\ wf r /\ sign r = sign to /\ len r = len to /\
    frac r = 0 /\ mant r = from mod DIG_BASE ^ len to /\
    e = (if from <? DIG_BASE ^ len to then E_DEC_OK else E_DEC_OVERFLOW).
Proof.
  intros Hf [Hl Hb]; unfold ull2dec.
  destruct (count_words_eq 4 from 1) as (k & -> & Hk & B1 & B2);
    [change (DIG_BASE ^ Z.of_nat 4) with 1000000000000000000000000000000000000; lia|lia|].
  cbn [obind]; set (n := if 1 + k >? len to then len to else 1 + k).
  assert (0 < n <= len to) as Hn by (unfold n; case_if; lia).
  assert (from mod DIG_BASE ^ n = from mod DIG_BASE ^ len to /\
    (if 1 + k >? len to then (len to, E_DEC_OVERFLOW) else (1 + k, E_DEC_OK))
    = (n, if from <? DIG_BASE ^ len to then E_DEC_OK else E_DEC_OVERFLOW)) as [Em ->].
  { unfold n; destruct (Z.gtb_spec (1 + k) (len to)) as [Hgt|Hle].
    - split; [reflexivity|f_equal].
      assert (DIG_BASE ^ len to <= DIG_BASE ^ k) by (apply Z.pow_le_mono_r; [reflexivity|lia]).
      specialize (B2 ltac:(lia)); destruct (Z.ltb_spec from (DIG_BASE ^ len to)); [lia|reflexivity].
    - assert (DIG_BASE ^ (k + 1) <= DIG_BASE ^ len to) by (apply Z.pow_le_mono_r; [reflexivity|lia]).
      replace (1 + k) with (k + 1) by lia; rewrite !Z.mod_small by lia; split; [reflexivity|f_equal].
      destruct (Z.ltb_spec from (DIG_BASE ^ len to)); [reflexivity|lia]. }
  clearbody n; cbn [obind].
  destruct (zsplit n (buf to)) as (mid & post & E & Lm & Lp); [lia|].
  rewrite E, store_words_eq by lia; cbn [obind].
  destruct (to_words_spec (Z.to_nat n) from [] ltac:(lia) (Forall_nil _)) as (l & El & Ll & Hlo & V).
  rewrite app_nil_r in El; rewrite El; rewrite Z2Nat.id in Ll, V by lia.
  eexists _, _; split; [reflexivity|].
  rewrite build_mant by (unfold DIG_PER_DEC1; rewrite round_up_mul by lia; cbn; lia).
  rewrite <- Em; split; [|repeat split; exact V].
  apply build_words_wf; [lia..|llia|cbn; lia|exact Hlo|apply Z.divide_1_l].
Qed.

(** ** Reading an integer *)

Lemma uint_loop_eq n : forall m pre post p x, zlen m = Z.of_nat n -> p = zlen pre ->
  Forall word_ok m -> 0 <= x < 18446744073709551616 ->
  uint_loop n (pre ++ m ++ post) p x
  = Some (if x * DIG_BASE ^ zlen m + wval m <? 18446744073709551616
          then Some (x * DIG_BASE ^ zlen m + wval m, p + Z.of_nat n) else None).
Proof.
  induction n as [|n IH]; intros m pre post p x Hm -> Hw Hx.
  - rewrite (zlen_zero m) by lia; cbn [uint_loop]; change (DIG_BASE ^ zlen []) with 1; change (wval []) with 0.
    rewrite Z.mul_1_r, !Z.add_0_r; destruct (Z.ltb_spec x 18446744073709551616); [reflexivity|lia].
  - destruct m as [|w m]; [llia|]; apply Forall_cons_iff in Hw as [Hw Hm'].
    cbn [uint_loop app]; rewrite rd_at by reflexivity; cbn [obind].
    pose proof (wval_bounds _ Hm') as B; pose proof (base_pow_pos (zlen m) ltac:(llia)) as P.
    unfold word_ok, digit_ok in Hw; rewrite zlen_cons, Z.pow_add_r, Z.pow_1_r, wval_cons by llia.
    rewrite (u64_small w), u64_add_l by (unfold DIG_BASE in Hw; lia).
    set (v := x * (DIG_BASE ^ zlen m * DIG_BASE) + (w * DIG_BASE ^ zlen m + wval m)).
    assert (v = (x * DIG_BASE + w) * DIG_BASE ^ zlen m + wval m) as Ev by (unfold v; ring).
    clearbody v; destruct (Z.lt_ge_cases (x * DIG_BASE + w) 18446744073709551616) as [Hs|Hs].
    + rewrite u64_small by (unfold DIG_BASE in *; lia).
      replace ((x >? UINT64_MAX / DIG_BASE) || (x * DIG_BASE + w <? x)) with false
        by (change (UINT64_MAX / DIG_BASE) with 18446744073; unfold DIG_BASE in *; lia).
      replace (pre ++ w :: m ++ post) with ((pre ++ [w]) ++ m ++ post) by (rewrite <- app_assoc; reflexivity).
      rewrite IH by (llia || assumption || (unfold DIG_BASE in *; lia)); rewrite <- Ev.
      case_if; [|reflexivity]; do 3 f_equal; lia.
    + replace ((x >? UINT64_MAX / DIG_BASE) || (u64 (x * DIG_BASE + w) <? x)) with true
        by (rewrite u64_eq; change (UINT64_MAX / DIG_BASE) with 18446744073; unfold DIG_BASE in *; dlia).
      destruct (Z.ltb_spec v 18446744073709551616); [nia|reflexivity].
Qed.

Lemma frac_result_eq d I F R : wf d -> buf d = I ++ F ++ R -> zlen F = nfrac d -> Forall word_ok F ->
  frac_result d (zlen I) = Some (if wval F =? 0 then E_DEC_OK else E_DEC_TRUNCATED).
Proof.
  intros W E LF HF; pose proof (nfrac_bounds d W); unfold frac_result; rewrite E.
  rewrite all_zero_eq by (fold (nfrac d); lia || reflexivity || assumption); reflexivity.
Qed.

(** The fraction is zero when the magnitude is a multiple of the last power. *)
Definition whole (d : decimal_t) : bool := mant d mod DIG_BASE ^ nfrac d =? 0.

(** The integer part of the magnitude. *)
Definition int_val (d : decimal_t) : Z := mant d / DIG_BASE ^ nfrac d.

Lemma layout_parts d I F : wf d -> zlen F = nfrac d -> Forall word_ok F -> words d = I ++ F ->
  wval I = int_val d /\ (wval F =? 0) = whole d.
Proof.
  intros W LF HF E; unfold int_val, whole, mant; rewrite E, <- LF; unfold wval.
  rewrite bval_div, bval_mod by (apply base_gt1 || exact HF); auto.
Qed.

Lemma decimal2uint64_t_eq d : wf d ->
  decimal2uint64_t d = Some (
    if sign d then (E_DEC_OVERFLOW, 0)
    else if int_val d <=? UINT64_MAX then (if whole d then E_DEC_OK else E_DEC_TRUNCATED, int_val d)
    else (E_DEC_OVERFLOW, UINT64_MAX)).
Proof.
  intros W; destruct (wf_layout d W) as (I & F & R & E & LI & LF & Ew & _ & HI & HF & _).
  pose proof (nint_bounds d W); destruct (layout_parts d I F W LF HF Ew) as [EI EF].
  unfold decimal2uint64_t; destruct (sign d); [reflexivity|].
  rewrite E; change (I ++ F ++ R) with ([] ++ I ++ F ++ R).
  rewrite uint_loop_eq by (fold (nint d); lia || reflexivity || assumption); cbn [obind].
  rewrite Z.mul_0_l, Z.add_0_l, EI; unfold UINT64_MAX.
  destruct (Z.ltb_spec (int_val d) 18446744073709551616), (Z.leb_spec (int_val d) 18446744073709551615);
    try lia; [|reflexivity].
  replace (0 + Z.of_nat (Z.to_nat (round_up (intg d)))) with (zlen I) by (fold (nint d); lia).
  rewrite (frac_result_eq d I F R) by assumption; cbn [obind]; rewrite EF; reflexivity.
Qed.

Lemma int_loop_eq n : forall m pre post p x, zlen m = Z.of_nat n -> p = zlen pre ->
  Forall word_ok m -> 0 <= x <= 9223372036854775808 ->
  int_loop n (pre ++ m ++ post) p (- x)
  = Some (if x * DIG_BASE ^ zlen m + wval m <=? 9223372036854775808
          then Some (- (x * DIG_BASE ^ zlen m + wval m), p + Z.of_nat n) else None).
Proof.
  induction n as [|n IH]; intros m pre post p x Hm -> Hw Hx.
  - rewrite (zlen_zero m) by lia; cbn [int_loop]; change (DIG_BASE ^ zlen []) with 1; change (wval []) with 0.
    rewrite Z.mul_1_r, !Z.add_0_r; destruct (Z.leb_spec x 9223372036854775808); [reflexivity|lia].
  - destruct m as [|w m]; [llia|]; apply Forall_cons_iff in Hw as [Hw Hm'].
    cbn [int_loop app]; rewrite rd_at by reflexivity; cbn [obind].
    pose proof (wval_bounds _ Hm') as B; pose proof (base_pow_pos (zlen m) ltac:(llia)) as P.
    unfold word_ok, digit_ok in Hw; rewrite zlen_cons, Z.pow_add_r, Z.pow_1_r, wval_cons by llia.
    set (v := x * (DIG_BASE ^ zlen m * DIG_BASE) + (w * DIG_BASE ^ zlen m + wval m)).
    assert (v = (x * DIG_BASE + w) * DIG_BASE ^ zlen m + wval m) as Ev by (unfold v; ring).
    clearbody v; destruct (Z.le_gt_cases (x * DIG_BASE + w) 9223372036854775808) as [Hs|Hs].
    + rewrite (i64_small (- x * _)), i64_small by (unfold DIG_BASE in *; lia).
      replace ((- x <? INT64_MIN ÷ DIG_BASE) || (- x * DIG_BASE - w >? - x)) with false
        by (change (INT64_MIN ÷ DIG_BASE) with (-9223372036); unfold DIG_BASE in *; lia).
      replace (pre ++ w :: m ++ post) with ((pre ++ [w]) ++ m ++ post) by (rewrite <- app_assoc; reflexivity).
      replace (- x * DIG_BASE - w) with (- (x * DIG_BASE + w)) by ring.
      rewrite IH by (llia || assumption || (unfold DIG_BASE in *; lia)); rewrite <- Ev.
      case_if; [|reflexivity]; do 3 f_equal; lia.
    + replace ((- x <? INT64_MIN ÷ DIG_BASE) || (i64 (i64 (- x * DIG_BASE) - w) >? - x)) with true.
      { destruct (Z.leb_spec v 9223372036854775808); [nia|reflexivity]. }
      change (INT64_MIN ÷ DIG_BASE) with (-9223372036); symmetry.
      destruct (Z.ltb_spec (- x) (-9223372036)) as [|Hx']; [reflexivity|]; cbn [orb].
      assert (x = 9223372036) as -> by (unfold DIG_BASE in *; lia).
      unfold i64, swrap; change (2 ^ (64 - 1)) with 9223372036854775808; change (2 ^ 64) with 18446744073709551616.
      unfold DIG_BASE in *; cbn [Z.opp]; dlia.
Qed.

Lemma decimal2int64_t_eq d : wf d ->
  decimal2int64_t d = Some (
    let v := signed (sign d) (int_val d) in
    if v <? INT64_MIN then (E_DEC_OVERFLOW, INT64_MIN)
    else if v >? INT64_MAX then (E_DEC_OVERFLOW, INT64_MAX)
    else (if whole d then E_DEC_OK else E_DEC_TRUNCATED, v)).
Proof.
  intros W; destruct (wf_layout d W) as (I & F & R & E & LI & LF & Ew & _ & HI & HF & _).
  pose proof (nint_bounds d W); destruct (layout_parts d I F W LF HF Ew) as [EI EF].
  pose proof (wval_bounds _ HI) as BI; rewrite EI in BI.
  unfold decimal2int64_t; rewrite E; change (I ++ F ++ R) with ([] ++ I ++ F ++ R).
  change (int_loop ?n ?b 0 0) with (int_loop n b 0 (- 0)); rewrite int_loop_eq by (fold (nint d); lia || reflexivity || assumption); cbn [obind].
  rewrite Z.mul_0_l, Z.add_0_l, EI; unfold INT64_MIN, INT64_MAX, signed; cbv zeta.
  replace (0 + Z.of_nat (Z.to_nat (round_up (intg d)))) with (zlen I) by (fold (nint d); lia).
  pose proof (frac_result_eq d I F R W E LF HF) as EFr; rewrite EF in EFr.
  destruct (Z.leb_spec (int_val d) 9223372036854775808) as [Hle|Hgt]; destruct (sign d);
    cbn [negb andb]; rewrite ?EFr; cbn [obind].
  - destruct (Z.ltb_spec (- int_val d) (-9223372036854775808)); [lia|].
    destruct (Z.gtb_spec (- int_val d) 9223372036854775807); [lia|reflexivity].
  - destruct (Z.ltb_spec (int_val d) (-9223372036854775808)); [lia|].
    destruct (Z.eqb_spec (- int_val d) (-9223372036854775808)) as [Eq|Ne],
      (Z.gtb_spec (int_val d) 9223372036854775807); try lia; [reflexivity|].
    rewrite i64_small, Z.opp_involutive by lia; reflexivity.
  - destruct (Z.ltb_spec (- int_val d) (-9223372036854775808)); [reflexivity|lia].
  - destruct (Z.ltb_spec (int_val d) (-9223372036854775808)); [lia|].
    destruct (Z.gtb_spec (int_val d) 9223372036854775807); [reflexivity|lia].
Qed.

(** ** The theorems *)

Lemma dec_Q_int d n : wf d -> frac d = 0 -> signed (sign d) (mant d) = n -> dec_Q d == inject_Z n.
Proof.
  intros W F E; unfold dec_Q, nfrac; rewrite F, E; reflexivity.
Qed.

Lemma int_val_whole d : frac d = 0 -> int_val d = mant d /\ whole d = true.
Proof.
  intros F; unfold int_val, whole, nfrac; rewrite F; change (DIG_BASE ^ round_up 0) with 1.
  rewrite Z.div_1_r, Z.mod_1_r; auto.
Qed.

Lemma int64_to_decimal n to : is_i64 n -> target to -> 3 <= len to ->
  exists r, int64_t2decimal n to = Some (E_DEC_OK, r) /\ wf r /\ frac r = 0 /\
    signed (sign r) (mant r) = n.
Proof.
  unfold is_i64; intros Hn T Hl; unfold int64_t2decimal.
  assert (1000000000000000000000000000 <= DIG_BASE ^ len to) as Hp
    by (change 1000000000000000000000000000 with (DIG_BASE ^ 3); apply Z.pow_le_mono_r; [reflexivity|lia]).
  assert (forall u s, 0 <= u < 18446744073709551616 -> exists r, ull2dec u (set_sign to s) = Some (E_DEC_OK, r)
    /\ wf r /\ frac r = 0 /\ sign r = s /\ mant r = u) as U.
  { intros u s Hu; destruct (ull2dec_spec u (set_sign to s) Hu T) as (e & r & E & W & Hs & _ & Hf & Hm & ->).
    cbn [set_sign len] in *; rewrite Z.mod_small in Hm by lia.
    destruct (Z.ltb_spec u (DIG_BASE ^ len to)); [|lia]; exists r; auto. }
  destruct (Z.ltb_spec n 0) as [Hneg|Hpos].
  - assert (u64 (i64 (- n)) = - n) as ->.
    { destruct (Z.eq_dec n (-9223372036854775808)) as [->|]; [reflexivity|].
      rewrite i64_small, u64_small by lia; reflexivity. }
    destruct (U (- n) true ltac:(lia)) as (r & E & W & Hf & Hs & Hm).
    exists r; rewrite E, Hs, Hm; cbn [signed]; rewrite Z.opp_involutive; auto.
  - rewrite u64_small by lia; destruct (U n false ltac:(lia)) as (r & E & W & Hf & Hs & Hm).
    exists r; rewrite E, Hs, Hm; cbn [signed]; auto.
Qed.

(** Every 64-bit integer stored in a decimal denotes itself, and reading it
    back gives it without an error, [INT64_MIN] included; three words are
    enough. *)
Theorem int64_decimal_round_trip n to : is_i64 n -> target to -> 3 <= len to ->
  exists r, int64_t2decimal n to = Some (E_DEC_OK, r) /\ wf r /\ dec_Q r == inject_Z n /\
    decimal2int64_t r = Some (E_DEC_OK, n).
Proof.
  intros Hn T Hl; destruct (int64_to_decimal n to Hn T Hl) as (r & E & W & Hf & Hv).
  exists r; split; [exact E|split; [exact W|split; [apply dec_Q_int; assumption|]]].
  destruct (int_val_whole r Hf) as [Ei Ew]; rewrite decimal2int64_t_eq, Ei, Ew, Hv by exact W; cbv zeta.
  unfold is_i64 in Hn; unfold INT64_MIN, INT64_MAX.
  case_if; [lia|]; case_if; [lia|reflexivity].
Qed.

Lemma int64_decimal_round_trip_witness :
  exists r, int64_t2decimal (-9223372036854775808) (Decimal_init 0 0 false) = Some (E_DEC_OK, r) /\ wf r /\
    dec_Q r == inject_Z (-9223372036854775808) /\
    decimal2int64_t r = Some (E_DEC_OK, -9223372036854775808).
Proof.
  apply (int64_decimal_round_trip (-9223372036854775808) (Decimal_init 0 0 false));
    [unfold is_i64; lia|split; reflexivity|discriminate].
Defined.
