(* ===== verification/DecArith.v ===== *)
(** Addition, subtraction and comparison of decimals: [do_add], [do_sub],
    [decimal_add], [decimal_sub] and [decimal_cmp] of
    [src/drizzled/type/decimal.cc], and their wrappers in
    [src/drizzled/type/decimal.h].

    The routines walk pointers down the words of both operands and of the
    result; the result is not one of the operands, as at every caller.  Each
    loop is shown equal to a function on lists of words ([addl], [subl] and
    the like), and those functions to the arithmetic of the numbers. *)

From Stdlib Require Import ZArith Lia ZifyBool List Bool QArith.
From S2P Require Import Prelude Words Decimal.
Import ListNotations.
Local Open Scope Z_scope.
Local Open Scope fail_scope.

(** ** Model: addition *)

(** src/drizzled/type/decimal.cc:1917-1921 do_add

    Part 2, over the [n] words that both operands have. *)
Fixpoint add_loop (n : nat) (s1 s2 t : list Z) (p0 p1 p2 carry : Z)
  : option (list Z * Z * Z * Z * Z) :=
  match n with
  | O => Some (t, p0, p1, p2, carry)
  | S n' =>
      let? x := rd s1 (p1 - 1) in
      let? y := rd s2 (p2 - 1) in
      let '(w, carry) := add x y carry in
      let? t := wr t (p0 - 1) w in
      add_loop n' s1 s2 t (p0 - 1) (p1 - 1) (p2 - 1) carry
  end.

(** src/drizzled/type/decimal.cc:1926-1929 do_add

    Part 3, over the [n] words that only one operand has. *)
Fixpoint carry_loop (n : nat) (s1 t : list Z) (p0 p1 carry : Z) : option (list Z * Z * Z) :=
  match n with
  | O => Some (t, p0, carry)
  | S n' =>
      let? x := rd s1 (p1 - 1) in
      let '(w, carry) := add x 0 carry in
      let? t := wr t (p0 - 1) w in
      carry_loop n' s1 t (p0 - 1) (p1 - 1) carry
  end.

(** src/drizzled/type/decimal.cc:1913-1932 do_add

    The three parts; [s1] has the longer fraction and [s3] the longer integer
    part, and [p0] starts at the end of the result. *)
Definition add_core (s1 s2 s3 t : list Z) (p0 p1 stop p2 stop2 p3 : Z) : option (list Z) :=
  let? (t, p0, p1) := copy_down (Z.to_nat (p1 - stop)) s1 t p0 p1 in
  let? (t, p0, p1, p2, carry) := add_loop (Z.to_nat (p1 - stop2)) s1 s2 t p0 p1 p2 0 in
  let? (t, p0, carry) := carry_loop (Z.to_nat p3) s3 t p0 p3 carry in
  if carry =? 0 then Some t else wr t (p0 - 1) 1.

(** src/drizzled/type/decimal.cc:1898-1925 do_add

    The pointers of the three parts, from the counts of words that are left
    after the check of the buffer. *)
Definition add_parts (b1 b2 t : list Z) (p0 intg1 frac1 intg2 frac2 : Z) : option (list Z) :=
  let '(s1, p1, stop, s2, p2, stop2) :=
    if frac1 >? frac2
    then (b1, intg1 + frac1, intg1 + frac2, b2, intg2 + frac2,
          if intg1 >? intg2 then intg1 - intg2 else 0)
    else (b2, intg2 + frac2, intg2 + frac1, b1, intg1 + frac1,
          if intg2 >? intg1 then intg2 - intg1 else 0) in
  let '(s3, p3) := if intg1 >? intg2 then (b1, intg1 - intg2) else (b2, intg2 - intg1) in
  add_core s1 s2 s3 t p0 p1 stop p2 stop2 p3.

(** src/drizzled/type/decimal.cc:1858-1936 do_add *)
Definition do_add (from1 from2 to : decimal_t) : option (Z * decimal_t) :=
  let intg1 := round_up (intg from1) in
  let intg2 := round_up (intg from2) in
  let frac1 := round_up (frac from1) in
  let frac2 := round_up (frac from2) in
  let frac0 := Z.max frac1 frac2 in
  let intg0 := Z.max intg1 intg2 in
  let? f1 := rd (buf from1) 0 in
  let? f2 := rd (buf from2) 0 in
  let x := if intg1 >? intg2 then f1 else if intg2 >? intg1 then f2 else i32 (f1 + f2) in
  let? (intg0, t) :=
    if x >? DIG_MAX - 1 then let? t := wr (buf to) 0 0 in Some (intg0 + 1, t)
    else Some (intg0, buf to) in
  let '(intg0, frac0, error) := fix_intg_frac_error (len to) intg0 frac0 in
  if error =? E_DEC_OVERFLOW then
    let? r := max_decimal (len to * DIG_PER_DEC1) 0 (set_buf to t) in Some (error, r)
  else
    let to_frac := Z.max (frac from1) (frac from2) in
    let '(to_frac, frac1, frac2, intg1, intg2) :=
      if error =? E_DEC_OK then (to_frac, frac1, frac2, intg1, intg2)
      else (Z.min to_frac (frac0 * DIG_PER_DEC1), Z.min frac1 frac0, Z.min frac2 frac0,
            Z.min intg1 intg0, Z.min intg2 intg0) in
    let? t := add_parts (buf from1) (buf from2) t (intg0 + frac0) intg1 frac1 intg2 frac2 in
    Some (error, mkDecimal (intg0 * DIG_PER_DEC1) to_frac (len to) (sign from1) t).

(** ** Model: subtraction *)

(** src/drizzled/type/decimal.cc:1952-1953 do_sub

    The first word from [p] below [stop] that is not zero. *)
Fixpoint skip_zeros (n : nat) (b : list Z) (p : Z) : option Z :=
  match n with
  | O => Some p
  | S n' => let? w := rd b p in if w =? 0 then skip_zeros n' b (p + 1) else Some p
  end.

(** src/drizzled/type/decimal.cc:1970-1973 do_sub

    The last word not before [start] that is not zero, going down from [e];
    [n] words are left. *)
Fixpoint drop_zeros (n : nat) (b : list Z) (e : Z) : option Z :=
  match n with
  | O => Some e
  | S n' => let? w := rd b e in if w =? 0 then drop_zeros n' b (e - 1) else Some e
  end.

(** src/drizzled/type/decimal.cc:1976-1977 do_sub

    Over the common words; [n] is the smaller count of words left. *)
Fixpoint skip_equal (n : nat) (b1 b2 : list Z) (p1 p2 : Z) : option (Z * Z) :=
  match n with
  | O => Some (p1, p2)
  | S n' =>
      let? x := rd b1 p1 in
      let? y := rd b2 p2 in
      if x =? y then skip_equal n' b1 b2 (p1 + 1) (p2 + 1) else Some (p1, p2)
  end.

(** src/drizzled/type/decimal.cc:1950-1956 do_sub

    The start of an operand and the words of its integer part, without the
    leading zeros. *)
Definition sub_start (b : list Z) (intg1 : Z) : option (Z * Z) :=
  let? w := rd b 0 in
  if w =? 0 then
    let? p := skip_zeros (Z.to_nat intg1) b 0 in Some (p, intg1 - p)
  else Some (0, intg1).

(** src/drizzled/type/decimal.cc:1942-1999 do_sub

    The comparison of the magnitudes.  [Some None]: they are equal.
    Otherwise the carry, which is set if the second one is greater, and the
    start, integer and fraction words of both operands. *)
Definition sub_compare (from1 from2 : decimal_t)
  : option (option (bool * Z * Z * Z * Z * Z * Z)) :=
  let frac1 := round_up (frac from1) in
  let frac2 := round_up (frac from2) in
  let stop1 := round_up (intg from1) in
  let stop2 := round_up (intg from2) in
  let? (start1, intg1) := sub_start (buf from1) stop1 in
  let? (start2, intg2) := sub_start (buf from2) stop2 in
  if intg2 >? intg1 then Some (Some (true, start1, intg1, frac1, start2, intg2, frac2))
  else if intg2 =? intg1 then
    let end1 := stop1 + (frac1 - 1) in
    let end2 := stop2 + (frac2 - 1) in
    let? end1 := drop_zeros (Z.to_nat (end1 - start1 + 1)) (buf from1) end1 in
    let? end2 := drop_zeros (Z.to_nat (end2 - start2 + 1)) (buf from2) end2 in
    let frac1 := end1 - stop1 + 1 in
    let frac2 := end2 - stop2 + 1 in
    let? (p1, p2) :=
      skip_equal (Z.to_nat (Z.min (end1 - start1 + 1) (end2 - start2 + 1)))
        (buf from1) (buf from2) start1 start2 in
    if p1 <=? end1 then
      if p2 <=? end2 then
        let? x := rd (buf from1) p1 in
        let? y := rd (buf from2) p2 in
        Some (Some (y >? x, start1, intg1, frac1, start2, intg2, frac2))
      else Some (Some (false, start1, intg1, frac1, start2, intg2, frac2))
    else
      if p2 <=? end2 then Some (Some (true, start1, intg1, frac1, start2, intg2, frac2))
      else Some None
  else Some (Some (false, start1, intg1, frac1, start2, intg2, frac2)).

(** src/drizzled/type/decimal.cc:2050-2060 do_sub

    Also part 1 of a longer second operand: [s1] is [None] there, and the
    word subtracted from is 0. *)
Fixpoint sub_loop (n : nat) (s1 : option (list Z)) (s2 t : list Z) (p0 p1 p2 carry : Z)
  : option (list Z * Z * Z * Z * Z) :=
  match n with
  | O => Some (t, p0, p1, p2, carry)
  | S n' =>
      let? (x, p1) :=
        match s1 with
        | Some b => let? x := rd b (p1 - 1) in Some (x, p1 - 1)
        | None => Some (0, p1)
        end in
      let? y := rd s2 (p2 - 1) in
      let '(w, carry) := sub x y carry in
      let? t := wr t (p0 - 1) w in
      sub_loop n' s1 s2 t (p0 - 1) p1 (p2 - 1) carry
  end.

(** src/drizzled/type/decimal.cc:2063-2066 do_sub

    Part 3, while there is a borrow. *)
Fixpoint borrow_loop (n : nat) (s1 t : list Z) (p0 p1 carry : Z) : option (list Z * Z * Z) :=
  match n with
  | O => Some (t, p0, p1)
  | S n' =>
      if carry =? 0 then Some (t, p0, p1)
      else
        let? x := rd s1 (p1 - 1) in
        let '(w, carry) := sub x 0 carry in
        let? t := wr t (p0 - 1) w in
        borrow_loop n' s1 t (p0 - 1) (p1 - 1) carry
  end.

(** src/drizzled/type/decimal.cc:2030-2072 do_sub *)
Definition sub_parts (b1 b2 t : list Z) (frac0 start1 intg1 frac1 start2 intg2 frac2 : Z)
  : option (list Z) :=
  let p0 := intg1 + frac0 in
  let p1 := start1 + intg1 + frac1 in
  let p2 := start2 + intg2 + frac2 in
  let? (t, p0, p1, p2, carry) :=
    if frac1 >? frac2 then
      let? (t, p0) := zero_down (Z.to_nat (frac0 - frac1)) t p0 in
      let? (t, p0, p1) := copy_down (Z.to_nat (p1 - (start1 + intg1 + frac2))) b1 t p0 p1 in
      Some (t, p0, p1, p2, 0)
    else
      let? (t, p0) := zero_down (Z.to_nat (frac0 - frac2)) t p0 in
      sub_loop (Z.to_nat (p2 - (start2 + intg2 + frac1))) None b2 t p0 p1 p2 0 in
  let? (t, p0, p1, p2, carry) :=
    sub_loop (Z.to_nat (p2 - start2)) (Some b1) b2 t p0 p1 p2 carry in
  let? (t, p0, p1) := borrow_loop (Z.to_nat (p1 - start1)) b1 t p0 p1 carry in
  let? (t, p0, p1) := copy_down (Z.to_nat (p1 - start1)) b1 t p0 p1 in
  let? (t, p0) := zero_down (Z.to_nat p0) t p0 in
  Some t.

(** src/drizzled/type/decimal.cc:2018-2074 do_sub

    From the check of the buffer on; the first operand is the greater one. *)
Definition sub_store (from1 from2 to : decimal_t) (to_sign : bool)
  (b1 : list Z) (start1 intg1 frac1 : Z) (b2 : list Z) (start2 intg2 frac2 : Z)
  : option (Z * decimal_t) :=
  let frac0 := Z.max (round_up (frac from1)) (round_up (frac from2)) in
  let '(intg1, frac0, error) := fix_intg_frac_error (len to) intg1 frac0 in
  let to_frac := Z.max (frac from1) (frac from2) in
  let '(to_frac, frac1, frac2, intg2) :=
    if error =? E_DEC_OK then (to_frac, frac1, frac2, intg2)
    else (Z.min to_frac (frac0 * DIG_PER_DEC1), Z.min frac1 frac0, Z.min frac2 frac0,
          Z.min intg2 intg1) in
  let? t := sub_parts b1 b2 (buf to) frac0 start1 intg1 frac1 start2 intg2 frac2 in
  Some (error, mkDecimal (intg1 * DIG_PER_DEC1) to_frac (len to) to_sign t).

(** src/drizzled/type/decimal.cc:1940-2075 do_sub

    With a result [to]: the branch of [decimal_sub] and [decimal_add]. *)
Definition do_sub (from1 from2 to : decimal_t) : option (Z * decimal_t) :=
  let? c := sub_compare from1 from2 in
  match c with
  | None => let? r := set_zero to in Some (E_DEC_OK, r)
  | Some (carry, start1, intg1, frac1, start2, intg2, frac2) =>
      if carry
      then sub_store from1 from2 to (negb (sign from1))
             (buf from2) start2 intg2 frac2 (buf from1) start1 intg1 frac1
      else sub_store from1 from2 to (sign from1)
             (buf from1) start1 intg1 frac1 (buf from2) start2 intg2 frac2
  end.

(** src/drizzled/type/decimal.cc:1989-2002 do_sub

    Without a result: the branch of [decimal_cmp]. *)
Definition do_sub_cmp (from1 from2 : decimal_t) : option Z :=
  let? c := sub_compare from1 from2 in
  match c with
  | None => Some 0
  | Some (carry, _, _, _, _, _, _) => Some (if eqb carry (sign from1) then 1 else -1)
  end.

(** src/drizzled/type/decimal.cc:2084-2089 decimal_add *)
Definition decimal_add (from1 from2 to : decimal_t) : option (Z * decimal_t) :=
  if eqb (sign from1) (sign from2) then do_add from1 from2 to else do_sub from1 from2 to.

(** src/drizzled/type/decimal.cc:2091-2096 decimal_sub *)
Definition decimal_sub (from1 from2 to : decimal_t) : option (Z * decimal_t) :=
  if eqb (sign from1) (sign from2) then do_sub from1 from2 to else do_add from1 from2 to.

(** src/drizzled/type/decimal.cc:2098-2103 decimal_cmp *)
Definition decimal_cmp (from1 from2 : decimal_t) : option Z :=
  if eqb (sign from1) (sign from2) then do_sub_cmp from1 from2
  else Some (if sign from1 && negb (sign from2) then -1 else 1).

(** src/drizzled/type/decimal.h:155-160 max_Decimal *)
Definition max_Decimal (to : decimal_t) (precision frac : Z) : option decimal_t :=
  max_decimal precision frac to.

(** src/drizzled/type/decimal.h:162-165 max_internal_decimal *)
Definition max_internal_decimal (to : decimal_t) : option decimal_t :=
  max_Decimal to DECIMAL_MAX_PRECISION 0.

(** src/drizzled/type/decimal.h:239-249 type::Decimal::check_result_and_overflow

    Without the warning: after an overflow the result is the largest decimal
    with the sign that the operation gave. *)
Definition check_result_and_overflow (r : option (Z * decimal_t)) : option (Z * decimal_t) :=
  let? (result, d) := r in
  if negb (Z.land result E_DEC_OVERFLOW =? 0) then
    let? m := max_internal_decimal d in Some (result, set_sign m (sign d))
  else Some (result, d).

(** src/drizzled/type/decimal.h:369-376 class_decimal_add *)
Definition class_decimal_add (res a b : decimal_t) : option (Z * decimal_t) :=
  check_result_and_overflow (decimal_add a b res).

(** src/drizzled/type/decimal.h:379-386 class_decimal_sub *)
Definition class_decimal_sub (res a b : decimal_t) : option (Z * decimal_t) :=
  check_result_and_overflow (decimal_sub a b res).

(** src/drizzled/type/decimal.h:424-429 class_decimal_cmp *)
Definition class_decimal_cmp (a b : decimal_t) : option Z := decimal_cmp a b.

(** ** Lists of words *)

(** Add or subtract two lists of words of the same length, from the right. *)
Fixpoint addl (l1 l2 : list Z) (c : Z) : list Z * Z :=
  match l1, l2 with
  | x :: l1', y :: l2' =>
      let '(r, c) := addl l1' l2' c in
      let '(w, c) := add x y c in (w :: r, c)
  | _, _ => ([], c)
  end.

Fixpoint subl (l1 l2 : list Z) (c : Z) : list Z * Z :=
  match l1, l2 with
  | x :: l1', y :: l2' =>
      let '(r, c) := subl l1' l2' c in
      let '(w, c) := sub x y c in (w :: r, c)
  | _, _ => ([], c)
  end.

Lemma add_ok x y c : word_ok x -> word_ok y -> 0 <= c <= 1 ->
  exists w c', add x y c = (w, c') /\ word_ok w /\ 0 <= c' <= 1 /\ w + c' * DIG_BASE = x + y + c.
Proof.
  unfold word_ok, digit_ok, add, DIG_BASE; intros Hx Hy Hc; unwrap.
  rewrite Z.geb_leb; case_if; unwrap; eexists _, _; (split; [reflexivity|lia]).
Qed.

Lemma sub_ok x y c : word_ok x -> word_ok y -> 0 <= c <= 1 ->
  exists w c', sub x y c = (w, c') /\ word_ok w /\ 0 <= c' <= 1 /\ w - c' * DIG_BASE = x - y - c.
Proof.
  unfold word_ok, digit_ok, sub, DIG_BASE; intros Hx Hy Hc; unwrap.
  case_if; unwrap; eexists _, _; (split; [reflexivity|lia]).
Qed.

Lemma sub_0 x : word_ok x -> sub x 0 0 = (x, 0).
Proof.
  unfold word_ok, digit_ok, sub, DIG_BASE; intros Hx; unwrap; rewrite !Z.sub_0_r.
  case_if; [lia|reflexivity].
Qed.

Lemma addl_spec l1 : forall l2 c, Forall word_ok l1 -> Forall word_ok l2 -> zlen l1 = zlen l2 ->
  0 <= c <= 1 -> exists r c', addl l1 l2 c = (r, c') /\ zlen r = zlen l1 /\ Forall word_ok r /\
    0 <= c' <= 1 /\ wval r + c' * DIG_BASE ^ zlen l1 = wval l1 + wval l2 + c.
Proof.
  induction l1 as [|x l1 IH]; intros [|y l2] c H1 H2 L Hc; try (exfalso; llia).
  - exists [], c; change (DIG_BASE ^ zlen []) with 1; change (wval []) with 0.
    repeat split; [apply Forall_nil|lia..].
  - apply Forall_cons_iff in H1 as [Hx H1], H2 as [Hy H2].
    destruct (IH l2 c H1 H2 ltac:(llia) Hc) as (r & c1 & E & Lr & Hr & Hc1 & V).
    destruct (add_ok x y c1 Hx Hy Hc1) as (w & c2 & Ea & Hw & Hc2 & Va).
    exists (w :: r), c2; cbn [addl]; rewrite E, Ea; split; [reflexivity|].
    split; [llia|split; [apply Forall_cons; assumption|split; [exact Hc2|]]].
    rewrite !wval_cons, Lr, zlen_cons, Z.pow_add_r, Z.pow_1_r by llia.
    replace (zlen l2) with (zlen l1) by llia; pose proof (base_pow_pos (zlen l1) ltac:(llia)); nia.
Qed.

Lemma subl_spec l1 : forall l2 c, Forall word_ok l1 -> Forall word_ok l2 -> zlen l1 = zlen l2 ->
  0 <= c <= 1 -> exists r c', subl l1 l2 c = (r, c') /\ zlen r = zlen l1 /\ Forall word_ok r /\
    0 <= c' <= 1 /\ wval r - c' * DIG_BASE ^ zlen l1 = wval l1 - wval l2 - c.
Proof.
  induction l1 as [|x l1 IH]; intros [|y l2] c H1 H2 L Hc; try (exfalso; llia).
  - exists [], c; change (DIG_BASE ^ zlen []) with 1; change (wval []) with 0.
    repeat split; [apply Forall_nil|lia..].
  - apply Forall_cons_iff in H1 as [Hx H1], H2 as [Hy H2].
    destruct (IH l2 c H1 H2 ltac:(llia) Hc) as (r & c1 & E & Lr & Hr & Hc1 & V).
    destruct (sub_ok x y c1 Hx Hy Hc1) as (w & c2 & Ea & Hw & Hc2 & Va).
    exists (w :: r), c2; cbn [subl]; rewrite E, Ea; split; [reflexivity|].
    split; [llia|split; [apply Forall_cons; assumption|split; [exact Hc2|]]].
    rewrite !wval_cons, Lr, zlen_cons, Z.pow_add_r, Z.pow_1_r by llia.
    replace (zlen l2) with (zlen l1) by llia; pose proof (base_pow_pos (zlen l1) ltac:(llia)); nia.
Qed.

Lemma addl_snoc l1 : forall l2 x y c, List.length l1 = List.length l2 ->
  addl (l1 ++ [x]) (l2 ++ [y]) c
  = let '(w, c) := add x y c in let '(r, c) := addl l1 l2 c in (r ++ [w], c).
Proof.
  induction l1 as [|x1 l1 IH]; intros [|y1 l2] x y c L; try discriminate L.
  - cbn; destruct (add x y c); reflexivity.
  - cbn [app addl]; rewrite IH by (injection L; auto); destruct (add x y c) as [w c1].
    destruct (addl l1 l2 c1) as [r c2]; destruct (add x1 y1 c2); reflexivity.
Qed.

Lemma subl_snoc l1 : forall l2 x y c, List.length l1 = List.length l2 ->
  subl (l1 ++ [x]) (l2 ++ [y]) c
  = let '(w, c) := sub x y c in let '(r, c) := subl l1 l2 c in (r ++ [w], c).
Proof.
  induction l1 as [|x1 l1 IH]; intros [|y1 l2] x y c L; try discriminate L.
  - cbn; destruct (sub x y c); reflexivity.
  - cbn [app subl]; rewrite IH by (injection L; auto); destruct (sub x y c) as [w c1].
    destruct (subl l1 l2 c1) as [r c2]; destruct (sub x1 y1 c2); reflexivity.
Qed.

(** ** The loops *)

(** Split the last word off the lists of a loop that runs once more. *)
Tactic Notation "snoc" ident(l) "as" ident(l') ident(x) :=
  destruct (zlen_last l) as (l' & x & ->); [llia|].

Lemma add_loop_eq n : forall m1 m2 mid pre post pre1 post1 pre2 post2 p0 p1 p2 c,
  zlen m1 = Z.of_nat n -> zlen m2 = Z.of_nat n -> zlen mid = Z.of_nat n ->
  p0 = zlen pre + Z.of_nat n -> p1 = zlen pre1 + Z.of_nat n -> p2 = zlen pre2 + Z.of_nat n ->
  add_loop n (pre1 ++ m1 ++ post1) (pre2 ++ m2 ++ post2) (pre ++ mid ++ post) p0 p1 p2 c
  = let '(r, c') := addl m1 m2 c in Some (pre ++ r ++ post, zlen pre, zlen pre1, zlen pre2, c').
Proof.
  induction n as [|n IH]; intros m1 m2 mid pre post pre1 post1 pre2 post2 p0 p1 p2 c L1 L2 L -> -> ->.
  - rewrite (zlen_zero m1), (zlen_zero m2), (zlen_zero mid) by lia; cbn; rewrite !Z.add_0_r; reflexivity.
  - snoc m1 as m x; snoc m2 as m' y; snoc mid as mid0 z; autorewrite with zlen in *.
    rewrite addl_snoc by (apply Nat2Z.inj; change (zlen m = zlen m'); lia).
    cbn [add_loop]; rewrite <- !app_assoc; cbn [app].
    rewrite (app_assoc pre1 m), (app_assoc pre2 m'), (app_assoc pre mid0), !rd_at by llia; cbn [obind].
    destruct (add x y c) as [w c1]; rewrite wr_at by llia; cbn [obind]; rewrite <- !app_assoc.
    rewrite IH by llia; destruct (addl m m' c1) as [r c2]; rewrite <- app_assoc; reflexivity.
Qed.

Lemma carry_loop_eq n : forall m1 mid pre post pre1 post1 p0 p1 c,
  zlen m1 = Z.of_nat n -> zlen mid = Z.of_nat n ->
  p0 = zlen pre + Z.of_nat n -> p1 = zlen pre1 + Z.of_nat n ->
  carry_loop n (pre1 ++ m1 ++ post1) (pre ++ mid ++ post) p0 p1 c
  = let '(r, c') := addl m1 (repeat 0 n) c in Some (pre ++ r ++ post, zlen pre, c').
Proof.
  induction n as [|n IH]; intros m1 mid pre post pre1 post1 p0 p1 c L1 L -> ->.
  - rewrite (zlen_zero m1), (zlen_zero mid) by lia; cbn; rewrite !Z.add_0_r; reflexivity.
  - snoc m1 as m x; snoc mid as mid0 z; autorewrite with zlen in *; cbn [repeat]; rewrite repeat_cons.
    rewrite addl_snoc by (rewrite repeat_length; apply Nat2Z.inj; change (zlen m = Z.of_nat n); lia).
    cbn [carry_loop]; rewrite <- !app_assoc; cbn [app].
    rewrite (app_assoc pre1 m), (app_assoc pre mid0), !rd_at by llia; cbn [obind].
    destruct (add x 0 c) as [w c1]; rewrite wr_at by llia; cbn [obind]; rewrite <- !app_assoc.
    rewrite IH by llia; destruct (addl m (repeat 0 n) c1) as [r c2]; rewrite <- app_assoc; reflexivity.
Qed.

Lemma sub_loop_eq n : forall m1 m2 mid pre post pre1 post1 pre2 post2 p0 p1 p2 c,
  zlen m1 = Z.of_nat n -> zlen m2 = Z.of_nat n -> zlen mid = Z.of_nat n ->
  p0 = zlen pre + Z.of_nat n -> p1 = zlen pre1 + Z.of_nat n -> p2 = zlen pre2 + Z.of_nat n ->
  sub_loop n (Some (pre1 ++ m1 ++ post1)) (pre2 ++ m2 ++ post2) (pre ++ mid ++ post) p0 p1 p2 c
  = let '(r, c') := subl m1 m2 c in Some (pre ++ r ++ post, zlen pre, zlen pre1, zlen pre2, c').
Proof.
  induction n as [|n IH]; intros m1 m2 mid pre post pre1 post1 pre2 post2 p0 p1 p2 c L1 L2 L -> -> ->.
  - rewrite (zlen_zero m1), (zlen_zero m2), (zlen_zero mid) by lia; cbn; rewrite !Z.add_0_r; reflexivity.
  - snoc m1 as m x; snoc m2 as m' y; snoc mid as mid0 z; autorewrite with zlen in *.
    rewrite subl_snoc by (apply Nat2Z.inj; change (zlen m = zlen m'); lia).
    cbn [sub_loop]; rewrite <- !app_assoc; cbn [app].
    rewrite (app_assoc pre1 m), (app_assoc pre2 m'), (app_assoc pre mid0), !rd_at by llia; cbn [obind].
    destruct (sub x y c) as [w c1]; rewrite wr_at by llia; cbn [obind]; rewrite <- !app_assoc.
    rewrite IH by llia; destruct (subl m m' c1) as [r c2]; rewrite <- app_assoc; reflexivity.
Qed.

Lemma sub_loop_none_eq n : forall m2 mid pre post pre2 post2 p0 p1 p2 c,
  zlen m2 = Z.of_nat n -> zlen mid = Z.of_nat n ->
  p0 = zlen pre + Z.of_nat n -> p2 = zlen pre2 + Z.of_nat n ->
  sub_loop n None (pre2 ++ m2 ++ post2) (pre ++ mid ++ post) p0 p1 p2 c
  = let '(r, c') := subl (repeat 0 n) m2 c in Some (pre ++ r ++ post, zlen pre, p1, zlen pre2, c').
Proof.
  induction n as [|n IH]; intros m2 mid pre post pre2 post2 p0 p1 p2 c L2 L -> ->.
  - rewrite (zlen_zero m2), (zlen_zero mid) by lia; cbn; rewrite !Z.add_0_r; reflexivity.
  - snoc m2 as m' y; snoc mid as mid0 z; autorewrite with zlen in *; cbn [repeat]; rewrite repeat_cons.
    rewrite subl_snoc by (rewrite repeat_length; apply Nat2Z.inj; change (Z.of_nat n = zlen m'); lia).
    cbn [sub_loop obind]; rewrite <- !app_assoc; cbn [app].
    rewrite (app_assoc pre2 m'), (app_assoc pre mid0), !rd_at by llia; cbn [obind].
    destruct (sub 0 y c) as [w c1]; rewrite wr_at by llia; cbn [obind]; rewrite <- !app_assoc.
    rewrite IH by llia; destruct (subl (repeat 0 n) m' c1) as [r c2]; rewrite <- app_assoc; reflexivity.
Qed.

Lemma subl_0 l : Forall word_ok l -> subl l (repeat 0 (List.length l)) 0 = (l, 0).
Proof.
  induction 1 as [|x l Hx _ IH]; [reflexivity|]; cbn [List.length repeat subl].
  rewrite IH, sub_0 by exact Hx; reflexivity.
Qed.

(** Part 3 of the subtraction: borrow as long as needed, then copy. *)
Lemma borrow_copy_eq n : forall m1 mid pre post pre1 post1 p0 p1 c, Forall word_ok m1 ->
  zlen m1 = Z.of_nat n -> zlen mid = Z.of_nat n ->
  p0 = zlen pre + Z.of_nat n -> p1 = zlen pre1 + Z.of_nat n -> 0 <= c <= 1 ->
  (let? (t, p0, p1) := borrow_loop n (pre1 ++ m1 ++ post1) (pre ++ mid ++ post) p0 p1 c in
   copy_down (Z.to_nat (p1 - zlen pre1)) (pre1 ++ m1 ++ post1) t p0 p1)
  = Some (pre ++ fst (subl m1 (repeat 0 n) c) ++ post, zlen pre, zlen pre1).
Proof.
  induction n as [|n IH]; intros m1 mid pre post pre1 post1 p0 p1 c Hm L1 L -> -> Hc.
  - rewrite (zlen_zero m1), (zlen_zero mid) by lia; cbn [borrow_loop obind]; rewrite Z.add_0_r, Z.sub_diag.
    cbn; rewrite Z.add_0_r; reflexivity.
  - cbn [borrow_loop]; destruct (Z.eqb_spec c 0) as [->|Hc0].
    + cbn [obind]; rewrite (copy_down_eq _ m1 mid) by lia.
      replace (S n) with (List.length m1) by (unfold zlen in L1; lia); rewrite subl_0 by exact Hm; reflexivity.
    + snoc m1 as m x; snoc mid as mid0 z; autorewrite with zlen in *; cbn [repeat]; rewrite repeat_cons.
      apply Forall_app in Hm as [Hm Hx]; apply Forall_inv in Hx.
      rewrite subl_snoc by (rewrite repeat_length; apply Nat2Z.inj; change (zlen m = Z.of_nat n); lia).
      rewrite <- !app_assoc; cbn [app].
      rewrite (app_assoc pre1 m), (app_assoc pre mid0), !rd_at by llia; cbn [obind].
      destruct (sub_ok x 0 c Hx ltac:(unfold word_ok, digit_ok, DIG_BASE; lia) Hc) as (w & c1 & -> & _ & Hc1 & _).
      rewrite wr_at by llia; cbn [obind]; rewrite <- !app_assoc, IH by (llia || assumption).
      destruct (subl m (repeat 0 n) c1) as [r c2]; cbn [fst]; rewrite <- app_assoc; reflexivity.
Qed.

(** ** Addition *)

(** What a sum of lists of words gives: words in range, the carry, and the
    value. *)
Definition sum_out (out : list Z) (c v : Z) : Prop :=
  Forall word_ok out /\ 0 <= c <= 1 /\ wval out + c * DIG_BASE ^ zlen out = v.

Lemma add_core_eq X1 Y T r1 X2 Y2 r2 X3 r3 pre mid post p0 p1 stop p2 stop2 p3 :
  Forall word_ok (Y ++ T) -> Forall word_ok Y2 -> Forall word_ok X3 -> zlen Y = zlen Y2 ->
  zlen mid = zlen X3 + zlen Y + zlen T -> p0 = zlen pre + zlen mid ->
  p1 = zlen X1 + zlen Y + zlen T -> stop = zlen X1 + zlen Y -> p2 = zlen X2 + zlen Y ->
  stop2 = zlen X1 -> p3 = zlen X3 ->
  exists out c, zlen out = zlen mid /\
    sum_out out c ((wval X3 * DIG_BASE ^ zlen Y + wval Y + wval Y2) * DIG_BASE ^ zlen T + wval T) /\
    add_core (X1 ++ Y ++ T ++ r1) (X2 ++ Y2 ++ r2) (X3 ++ r3) (pre ++ mid ++ post) p0 p1 stop p2 stop2 p3
    = (if c =? 0 then Some (pre ++ out ++ post) else wr (pre ++ out ++ post) (zlen pre - 1) 1).
Proof.
  intros [HY HT]%Forall_app HY2 HX L2 Lm -> -> -> -> -> ->.
  destruct (zsplit (zlen X3 + zlen Y) mid) as (mXY & mT & -> & L1 & Lt); [llia|].
  destruct (zsplit (zlen X3) mXY) as (mX & mY & -> & LX & LY); [llia|].
  unfold add_core; regroup (X1 ++ Y ++ T ++ r1) ((X1 ++ Y) ++ T ++ r1).
  regroup (pre ++ ((mX ++ mY) ++ mT) ++ post) ((pre ++ mX ++ mY) ++ mT ++ post).
  rewrite copy_down_eq by llia; cbn [obind].
  regroup ((X1 ++ Y) ++ T ++ r1) (X1 ++ Y ++ T ++ r1).
  regroup ((pre ++ mX ++ mY) ++ T ++ post) ((pre ++ mX) ++ mY ++ T ++ post).
  rewrite add_loop_eq by llia.
  destruct (addl_spec Y Y2 0) as (r & c & -> & Lr & Hr & Hc & V); [assumption..|lia|]; cbn [obind].
  regroup ((pre ++ mX) ++ r ++ T ++ post) (pre ++ mX ++ (r ++ T ++ post)).
  change (X3 ++ r3) with ([] ++ X3 ++ r3).
  rewrite carry_loop_eq by llia.
  destruct (addl_spec X3 (repeat 0 (Z.to_nat (zlen X3))) c) as (x & c' & -> & Lx & Hx & Hc' & Vx);
    [assumption|apply word_ok_zeros|llia|assumption|]; cbn [obind].
  exists (x ++ r ++ T), c'; rewrite <- !app_assoc; split; [llia|split; [|reflexivity]].
  split; [repeat (apply Forall_app; split); assumption|split; [exact Hc'|]].
  rewrite wval_zeros in Vx; rewrite !wval_app, !zlen_app, !Z.pow_add_r, Lx, Lr by llia.
  pose proof (base_pow_pos (zlen T) ltac:(llia)); pose proof (base_pow_pos (zlen Y) ltac:(llia)); nia.
Qed.

(** The operand [A] with the longer fraction also has the longer integer part. *)
Lemma add_core_long A C r1 r2 pre mid post p0 iA fA iC fC :
  Forall word_ok A -> Forall word_ok C -> zlen A = iA + fA -> zlen C = iC + fC ->
  0 <= iC <= iA -> 0 <= fC <= fA -> zlen mid = iA + fA -> p0 = zlen pre + zlen mid ->
  exists out c, zlen out = zlen mid /\ sum_out out c (wval A + wval C * DIG_BASE ^ (fA - fC)) /\
    add_core (A ++ r1) (C ++ r2) (A ++ r1) (pre ++ mid ++ post) p0
      (iA + fA) (iA + fC) (iC + fC) (iA - iC) (iA - iC)
    = (if c =? 0 then Some (pre ++ out ++ post) else wr (pre ++ out ++ post) (zlen pre - 1) 1).
Proof.
  intros HA HC LA LC Hi Hf Lm Hp.
  destruct (zsplit (iA + fC) A) as (XY & T & -> & L1 & LT); [lia|].
  destruct (zsplit (iA - iC) XY) as (X & Y & -> & LX & LY); [lia|].
  rewrite <- app_assoc in HA; apply Forall_app in HA as [HX HYT].
  destruct (add_core_eq X Y T r1 [] C r2 X (Y ++ T ++ r1) pre mid post p0
    (iA + fA) (iA + fC) (iC + fC) (iA - iC) (iA - iC)) as (out & c & Lo & S & E); try llia; try assumption.
  exists out, c; split; [exact Lo|split].
  - destruct S as (S1 & S2 & S3); split; [exact S1|split; [exact S2|rewrite S3]].
    rewrite !wval_app; replace (fA - fC) with (zlen T) by llia; ring.
  - rewrite <- E; f_equal; rewrite <- !app_assoc; reflexivity.
Qed.

(** The other operand [C] has the longer integer part. *)
Lemma add_core_cross A C r1 r2 s3 r3 pre mid post p0 iA fA iC fC :
  Forall word_ok A -> Forall word_ok C -> zlen A = iA + fA -> zlen C = iC + fC ->
  0 <= iA <= iC -> 0 <= fC <= fA -> zlen mid = iC + fA -> p0 = zlen pre + zlen mid ->
  s3 = ztake (iC - iA) C ++ r3 ->
  exists out c, zlen out = zlen mid /\ sum_out out c (wval A + wval C * DIG_BASE ^ (fA - fC)) /\
    add_core (A ++ r1) (C ++ r2) s3 (pre ++ mid ++ post) p0
      (iA + fA) (iA + fC) (iC + fC) 0 (iC - iA)
    = (if c =? 0 then Some (pre ++ out ++ post) else wr (pre ++ out ++ post) (zlen pre - 1) 1).
Proof.
  intros HA HC LA LC Hi Hf Lm Hp ->.
  destruct (zsplit (iA + fC) A) as (Y & T & -> & L1 & LT); [lia|].
  destruct (zsplit (iC - iA) C) as (X & Y2 & -> & LX & LY); [lia|].
  apply Forall_app in HC as [HX HY2]; rewrite ztake_app by lia.
  destruct (add_core_eq [] Y T r1 X Y2 r2 X r3 pre mid post p0
    (iA + fA) (iA + fC) (iC + fC) 0 (iC - iA)) as (out & c & Lo & S & E); try llia; try assumption.
  exists out, c; split; [exact Lo|split].
  - destruct S as (S1 & S2 & S3); split; [exact S1|split; [exact S2|rewrite S3]].
    rewrite !wval_app; replace (fA - fC) with (zlen T) by llia.
    replace (zlen Y2) with (zlen Y) by llia; ring.
  - rewrite <- E; f_equal; rewrite <- ?app_assoc; reflexivity.
Qed.

Lemma add_parts_spec W1 W2 r1 r2 pre mid post p0 i1 f1 i2 f2 :
  Forall word_ok W1 -> Forall word_ok W2 -> zlen W1 = i1 + f1 -> zlen W2 = i2 + f2 ->
  0 <= i1 -> 0 <= i2 -> 0 <= f1 -> 0 <= f2 ->
  zlen mid = Z.max i1 i2 + Z.max f1 f2 -> p0 = zlen pre + zlen mid ->
  exists out c, zlen out = zlen mid /\
    sum_out out c (wval W1 * DIG_BASE ^ (Z.max f1 f2 - f1) + wval W2 * DIG_BASE ^ (Z.max f1 f2 - f2)) /\
    add_parts (W1 ++ r1) (W2 ++ r2) (pre ++ mid ++ post) p0 i1 f1 i2 f2
    = (if c =? 0 then Some (pre ++ out ++ post) else wr (pre ++ out ++ post) (zlen pre - 1) 1).
Proof.
  intros H1 H2 L1 L2 Hi1 Hi2 Hf1 Hf2 Lm Hp; unfold add_parts.
  destruct (Z.gtb_spec f1 f2) as [Hf|Hf].
  - rewrite Z.max_l, Z.sub_diag, Z.pow_0_r, Z.mul_1_r in * by lia.
    destruct (Z.gtb_spec i1 i2) as [Hi|Hi].
    + apply add_core_long; assumption || lia.
    + apply (add_core_cross _ _ _ _ _ (zdrop (i2 - i1) W2 ++ r2)); try assumption || lia.
      rewrite app_assoc, ztake_zdrop; reflexivity.
  - rewrite (Z.max_r f1 f2), Z.sub_diag, Z.pow_0_r, Z.mul_1_r in * by lia.
    rewrite (Z.add_comm (_ * _) (wval W2)).
    destruct (Z.gtb_spec i1 i2) as [Hi|Hi], (Z.gtb_spec i2 i1) as [Hi'|Hi']; try lia.
    + apply (add_core_cross _ _ _ _ _ (zdrop (i1 - i2) W1 ++ r1)); try assumption || lia.
      rewrite app_assoc, ztake_zdrop; reflexivity.
    + apply add_core_long; assumption || lia.
    + replace (i2 - i1) with (i1 - i2) by lia.
      apply (add_core_cross _ _ _ _ _ (W2 ++ r2)); try assumption || lia.
      replace (i1 - i2) with 0 by lia; reflexivity.
Qed.

(** The magnitude in units of [DIG_BASE ^ -k], rounded down. *)
Definition cut (k : Z) (d : decimal_t) : Z := mant d * DIG_BASE ^ k / DIG_BASE ^ nfrac d.

Lemma cut_exact k d : wf d -> nfrac d <= k -> cut k d = mant d * DIG_BASE ^ (k - nfrac d).
Proof.
  intros W Hk; pose proof (nfrac_bounds d W); unfold cut.
  replace (DIG_BASE ^ k) with (DIG_BASE ^ (k - nfrac d) * DIG_BASE ^ nfrac d)
    by (rewrite <- Z.pow_add_r by lia; f_equal; lia).
  rewrite Z.mul_assoc, Z.div_mul by (pose proof (base_pow_pos (nfrac d)); lia); reflexivity.
Qed.

(** The words up to [k] words of fraction. *)
Lemma cut_words k d : wf d -> 0 <= k ->
  exists W r, buf d = W ++ r /\ zlen W = nint d + Z.min (nfrac d) k /\ Forall word_ok W /\
    wval W * DIG_BASE ^ (k - Z.min (nfrac d) k) = cut k d.
Proof.
  intros Wf Hk; pose proof (nint_bounds d Wf) as Hi; pose proof (nfrac_bounds d Wf) as Hf.
  pose proof (wf_fits _ Wf); pose proof (wf_buf _ Wf); pose proof (wf_words _ Wf) as Hw.
  destruct (zsplit (nint d + nfrac d) (buf d)) as (V & r & E & LV & Lr); [lia|].
  assert (words d = V) as EW by (unfold words; rewrite E; apply ztake_app; lia); rewrite EW in Hw.
  destruct (Z.le_ge_cases (nfrac d) k) as [Hle|Hge].
  - exists V, r; rewrite Z.min_l, cut_exact by assumption; unfold mant; rewrite EW; auto.
  - rewrite Z.min_r, Z.sub_diag, Z.pow_0_r by lia.
    destruct (zsplit (nint d + k) V) as (V1 & V2 & -> & L1 & L2); [lia|].
    apply Forall_app in Hw as [H1 H2]; exists V1, (V2 ++ r); rewrite app_assoc.
    split; [exact E|split; [exact L1|split; [exact H1|]]].
    unfold cut, mant; rewrite EW, Z.mul_1_r.
    replace (DIG_BASE ^ nfrac d) with (DIG_BASE ^ zlen V2 * DIG_BASE ^ k)
      by (rewrite <- Z.pow_add_r by llia; f_equal; llia).
    pose proof (base_pow_pos k Hk); pose proof (base_pow_pos (zlen V2) ltac:(llia)).
    rewrite Z.div_mul_cancel_r by lia; symmetry; apply bval_div; [apply base_gt1|exact H2].
Qed.

Lemma wval_head h V : Forall word_ok V -> wval (h :: V) < (h + 1) * DIG_BASE ^ zlen V.
Proof. intros H%wval_bounds; rewrite wval_cons; lia. Qed.

(** An operand aligned to [k] words of fraction, bounded by its first word. *)
Lemma aligned_bound k V i f h r : Forall word_ok V -> zlen V = i + f -> 0 <= i -> 0 <= f <= k ->
  rd (V ++ r) 0 = Some h ->
  0 <= wval V * DIG_BASE ^ (k - f) < DIG_BASE ^ (i + k) /\
  (wval V * DIG_BASE ^ (k - f) = 0 \/
   (0 < i + k /\ 0 <= h < DIG_BASE /\
    wval V * DIG_BASE ^ (k - f) < (h + 1) * DIG_BASE ^ (i + k - 1))).
Proof.
  intros HV LV Hi Hf R; pose proof (wval_bounds _ HV) as BV; rewrite LV in BV.
  pose proof (base_pow_pos (k - f) ltac:(lia)) as P.
  split; [replace (i + k) with ((i + f) + (k - f)) by lia; rewrite Z.pow_add_r by lia; nia|].
  destruct V as [|v V]; [left; reflexivity|right].
  cbn [app] in R; rewrite rd_0 in R; injection R as ->; pose proof HV as [Hh HV']%Forall_cons_iff.
  pose proof (wval_head h V HV') as BH; rewrite zlen_cons in LV; pose proof (zlen_nonneg V).
  split; [lia|split; [exact Hh|]].
  replace (i + k - 1) with (zlen V + (k - f)) by lia; rewrite Z.pow_add_r by lia; nia.
Qed.

(** Without an extra word the sum does not carry out of the first word. *)
Lemma no_carry W1 W2 r1 r2 i1 f1 i2 f2 k h1 h2 :
  Forall word_ok W1 -> Forall word_ok W2 -> zlen W1 = i1 + f1 -> zlen W2 = i2 + f2 ->
  0 <= i1 -> 0 <= i2 -> 0 <= f1 <= k -> 0 <= f2 <= k ->
  rd (W1 ++ r1) 0 = Some h1 -> rd (W2 ++ r2) 0 = Some h2 ->
  (if i1 >? i2 then h1 else if i2 >? i1 then h2 else i32 (h1 + h2)) <= DIG_MAX - 1 ->
  wval W1 * DIG_BASE ^ (k - f1) + wval W2 * DIG_BASE ^ (k - f2) < DIG_BASE ^ (Z.max i1 i2 + k).
Proof.
  intros H1 H2 L1 L2 Hi1 Hi2 Hf1 Hf2 R1 R2 Hx.
  destruct (aligned_bound k W1 i1 f1 h1 r1) as [B1 C1]; [assumption..|].
  destruct (aligned_bound k W2 i2 f2 h2 r2) as [B2 C2]; [assumption..|].
  generalize dependent (wval W1 * DIG_BASE ^ (k - f1)); intros v1 B1 C1.
  generalize dependent (wval W2 * DIG_BASE ^ (k - f2)); intros v2 B2 C2.
  assert (forall m n, m <= n -> DIG_BASE ^ m <= DIG_BASE ^ n) as PM
    by (intros m n H; apply Z.pow_le_mono_r; [reflexivity|exact H]).
  pose proof (PM (i1 + k) (Z.max i1 i2 + k) ltac:(lia)); pose proof (PM (i2 + k) (Z.max i1 i2 + k) ltac:(lia)).
  destruct C1 as [->|(P1 & Q1 & D1)]; [lia|]; destruct C2 as [->|(P2 & Q2 & D2)]; [lia|].
  unfold DIG_MAX in Hx.
  replace (DIG_BASE ^ (Z.max i1 i2 + k)) with (DIG_BASE * DIG_BASE ^ (Z.max i1 i2 + k - 1))
    by (rewrite <- Z.pow_succ_r by lia; f_equal; lia).
  pose proof (base_pow_pos (Z.max i1 i2 + k - 1) ltac:(lia)) as P.
  destruct (Z.gtb_spec i1 i2) as [Hi|Hi]; [|destruct (Z.gtb_spec i2 i1) as [Hi'|Hi']].
  - rewrite Z.max_l in * by lia; pose proof (PM (i2 + k) (i1 + k - 1) ltac:(lia)).
    pose proof (Z.mul_le_mono_nonneg_r (h1 + 1) (DIG_BASE - 1) _ (Z.lt_le_incl _ _ P) ltac:(lia)); lia.
  - rewrite Z.max_r in * by lia; pose proof (PM (i1 + k) (i2 + k - 1) ltac:(lia)).
    pose proof (Z.mul_le_mono_nonneg_r (h2 + 1) (DIG_BASE - 1) _ (Z.lt_le_incl _ _ P) ltac:(lia)); lia.
  - assert (i1 = i2) by lia; subst i2; rewrite Z.max_id in *.
    rewrite i32_small in Hx by (unfold DIG_BASE in *; lia).
    pose proof (Z.mul_le_mono_nonneg_r (h1 + 1 + (h2 + 1)) DIG_BASE _ (Z.lt_le_incl _ _ P) ltac:(lia)); lia.
Qed.

(** The result buffer: [x] words of zero for a carry, and room for [n] words. *)
Lemma carry_room x n t : 0 <= x <= 1 -> 0 <= n -> (x = 1 -> exists t', t = 0 :: t') -> x + n <= zlen t ->
  exists mid post, t = repeat 0 (Z.to_nat x) ++ mid ++ post /\ zlen mid = n.
Proof.
  intros Hx Hn Ht Hl; destruct (Z.eq_dec x 1) as [->|].
  - destruct (Ht eq_refl) as (t' & ->); rewrite zlen_cons in Hl.
    destruct (zsplit n t') as (mid & post & -> & Lm & _); [lia|]; exists mid, post; auto.
  - assert (x = 0) as -> by lia; destruct (zsplit n t) as (mid & post & -> & Lm & _); [lia|].
    exists mid, post; auto.
Qed.

(** The carry goes to the extra word; without one there is no carry. *)
Lemma carry_store x c out post v : 0 <= x <= 1 -> sum_out out c v -> (x = 0 -> v < DIG_BASE ^ zlen out) ->
  exists out', zlen out' = x + zlen out /\ Forall word_ok out' /\ wval out' = v /\
    (if c =? 0 then Some (repeat 0 (Z.to_nat x) ++ out ++ post)
     else wr (repeat 0 (Z.to_nat x) ++ out ++ post) (zlen (repeat 0 (Z.to_nat x)) - 1) 1)
    = Some (out' ++ post).
Proof.
  intros Hx (S1 & S2 & S3) Hv; pose proof (wval_bounds _ S1) as B.
  destruct (Z.eqb_spec c 0) as [->|Hc].
  - exists (repeat 0 (Z.to_nat x) ++ out); rewrite <- app_assoc, zlen_app, zlen_repeat, wval_app, wval_zeros.
    split; [lia|split; [apply Forall_app; split; [apply word_ok_zeros|exact S1]|split; [lia|reflexivity]]].
  - replace c with 1 in S3 by lia; destruct (Z.eq_dec x 1) as [->|Hx1]; [|specialize (Hv ltac:(lia)); lia].
    change (repeat 0 (Z.to_nat 1)) with [0]; change (zlen [0] - 1) with 0; cbn [app]; rewrite wr_0.
    exists (1 :: out); split; [llia|split; [|split; [rewrite wval_cons; lia|reflexivity]]].
    apply Forall_cons; [unfold word_ok, digit_ok, DIG_BASE; lia|exact S1].
Qed.

(** The three parts with room for [k] words of fraction, and for a carry if
    the leading words ask for it. *)
Lemma add_body_spec a b t k x h1 h2 : wf a -> wf b -> 0 <= k <= Z.max (nfrac a) (nfrac b) ->
  rd (buf a) 0 = Some h1 -> rd (buf b) 0 = Some h2 ->
  0 <= x <= 1 -> (x = 1 -> exists t', t = 0 :: t') ->
  (x = 0 -> (if nint a >? nint b then h1 else if nint b >? nint a then h2 else i32 (h1 + h2)) <= DIG_MAX - 1) ->
  Z.max (nint a) (nint b) + x + k <= zlen t ->
  exists out post, zlen out = Z.max (nint a) (nint b) + x + k /\ zlen (out ++ post) = zlen t /\
    Forall word_ok out /\ wval out = cut k a + cut k b /\
    add_parts (buf a) (buf b) t (Z.max (nint a) (nint b) + x + k)
      (nint a) (Z.min (nfrac a) k) (nint b) (Z.min (nfrac b) k) = Some (out ++ post).
Proof.
  intros Wa Wb Hk R1 R2 Hx Ht Hh Hl.
  pose proof (nint_bounds a Wa) as Ia; pose proof (nint_bounds b Wb) as Ib.
  pose proof (nfrac_bounds a Wa) as Fa; pose proof (nfrac_bounds b Wb) as Fb.
  destruct (cut_words k a Wa) as (W1 & r1 & E1 & L1 & H1 & V1); [lia|].
  destruct (cut_words k b Wb) as (W2 & r2 & E2 & L2 & H2 & V2); [lia|].
  rewrite E1 in *; rewrite E2 in *.
  destruct (carry_room x (Z.max (nint a) (nint b) + k) t) as (mid & post & -> & Lm); [lia..|exact Ht|lia|].
  set (M := Z.max (Z.min (nfrac a) k) (Z.min (nfrac b) k)); assert (M = k) as EM by lia.
  destruct (add_parts_spec W1 W2 r1 r2 (repeat 0 (Z.to_nat x)) mid post (Z.max (nint a) (nint b) + x + k)
    (nint a) (Z.min (nfrac a) k) (nint b) (Z.min (nfrac b) k)) as (out & c & Lo & S & E);
    [assumption..|lia|lia|lia|lia|fold M; lia|llia|].
  fold M in S; rewrite EM, V1, V2 in S; rewrite E.
  destruct (carry_store x c out post (cut k a + cut k b) Hx S) as (out' & Lo' & Ho & Vo & ->).
  { intros E0; rewrite <- V1, <- V2, Lo, Lm.
    apply (no_carry W1 W2 r1 r2 _ _ _ _ k h1 h2); try assumption; try lia; exact (Hh E0). }
  exists out', post; split; [lia|split; [llia|auto]].
Qed.

(** The result of an operation that computes [v k], the magnitude in units of
    [DIG_BASE ^ -k], for the words of fraction that the buffer leaves. *)
Record op_result (a b to : decimal_t) (s : bool) (v : Z -> Z) (e : Z) (r : decimal_t) : Prop := {
  op_wf : wf r;
  op_len : len r = len to;
  op_sign : sign r = s;
  op_mant : mant r = v (nfrac r);
  op_exact : e = E_DEC_OK -> nfrac r = Z.max (nfrac a) (nfrac b);
  op_cut : e <> E_DEC_OK -> e = E_DEC_TRUNCATED /\ nfrac r < Z.max (nfrac a) (nfrac b)
}.

Lemma fix_cases n i N : 0 <= i <= n -> 0 <= N ->
  exists er, fix_intg_frac_error n i N = (i, Z.min N (n - i), er) /\
    (er = E_DEC_OK -> Z.min N (n - i) = N) /\
    (er <> E_DEC_OK -> er = E_DEC_TRUNCATED /\ Z.min N (n - i) < N) /\ (i + N <= n -> er = E_DEC_OK).
Proof.
  intros Hi HN; unfold fix_intg_frac_error.
  destruct (Z.gtb_spec (i + N) n); [destruct (Z.gtb_spec i n); [lia|]|].
  - exists E_DEC_TRUNCATED; rewrite Z.min_r by lia; repeat split; try lia; discriminate.
  - exists E_DEC_OK; rewrite Z.min_l by lia; repeat split; congruence.
Qed.

Lemma fix_ok n i f : i + f <= n -> fix_intg_frac_error n i f = (i, f, E_DEC_OK).
Proof. intros H; unfold fix_intg_frac_error; case_if; [lia|reflexivity]. Qed.

Lemma fix_overflow n i f : n < i -> 0 <= f -> fix_intg_frac_error n i f = (n, 0, E_DEC_OVERFLOW).
Proof. intros H Hf; unfold fix_intg_frac_error; case_if; [case_if; [reflexivity|lia]|lia]. Qed.

Lemma round_up_max x y : 0 <= x -> 0 <= y -> round_up (Z.max x y) = Z.max (round_up x) (round_up y).
Proof. intros Hx Hy; pose proof (round_up_bounds x Hx); pose proof (round_up_bounds y Hy); apply round_up_unique; lia. Qed.

(** An operand aligned to [k] words is a multiple of the unit of a fraction
    that is at least as long as its own. *)
Lemma cut_divide d k f : wf d -> nfrac d <= k -> frac d <= f <= 9 * k ->
  (10 ^ (9 * k - f) | cut k d).
Proof.
  intros W Hk Hf; pose proof (nfrac_bounds d W); rewrite cut_exact, base_pow by (assumption || lia).
  apply (Z.divide_trans _ (10 ^ (9 * k - frac d))).
  - exists (10 ^ (f - frac d)); rewrite <- Z.pow_add_r by lia; f_equal; lia.
  - replace (9 * k - frac d) with ((9 * nfrac d - frac d) + 9 * (k - nfrac d)) by lia.
    rewrite Z.pow_add_r by lia; apply Z.mul_divide_mono_r, (wf_tail _ W).
Qed.

(** The fraction of a result: the longer one of the operands, cut to [k] words. *)
Definition result_frac (a b : decimal_t) (k : Z) : Z :=
  if k =? Z.max (nfrac a) (nfrac b) then Z.max (frac a) (frac b)
  else Z.min (Z.max (frac a) (frac b)) (k * DIG_PER_DEC1).

Lemma result_frac_spec a b k c c' : wf a -> wf b -> 0 <= k <= Z.max (nfrac a) (nfrac b) ->
  0 <= result_frac a b k /\ round_up (result_frac a b k) = k /\
  (10 ^ (9 * k - result_frac a b k) | c * cut k a + c' * cut k b).
Proof.
  intros Wa Wb Hk; pose proof (nfrac_bounds a Wa); pose proof (nfrac_bounds b Wb).
  pose proof (wf_frac _ Wa); pose proof (wf_frac _ Wb); unfold result_frac, DIG_PER_DEC1.
  destruct (Z.eqb_spec k (Z.max (nfrac a) (nfrac b))) as [Ek|Ne].
  - split; [lia|split; [rewrite round_up_max by lia; symmetry; exact Ek|]].
    apply Z.divide_add_r; apply Z.divide_mul_r, cut_divide; assumption || lia.
  - assert (Z.min (Z.max (frac a) (frac b)) (k * 9) = k * 9) as -> by lia.
    split; [lia|split; [apply round_up_mul; lia|]].
    replace (9 * k - k * 9) with 0 by lia; apply Z.divide_1_l.
Qed.

(** The words and the fields of a result make it well-formed. *)
Lemma op_build a b to s c c' v i k er out post : wf a -> wf b -> target to ->
  0 <= i -> 0 <= k <= Z.max (nfrac a) (nfrac b) ->
  (er = E_DEC_OK -> k = Z.max (nfrac a) (nfrac b)) ->
  (er <> E_DEC_OK -> er = E_DEC_TRUNCATED /\ k < Z.max (nfrac a) (nfrac b)) ->
  zlen out = i + k -> zlen (out ++ post) = len to -> Forall word_ok out ->
  wval out = v k -> v k = c * cut k a + c' * cut k b ->
  op_result a b to s v er (mkDecimal (i * DIG_PER_DEC1) (result_frac a b k) (len to) s (out ++ post)).
Proof.
  intros Wa Wb [Hl _] Hi Hk X1 X2 Lo La Ho Vo Ev.
  destruct (result_frac_spec a b k c c' Wa Wb Hk) as (F0 & F1 & F2).
  split; try reflexivity; unfold nfrac; cbn [frac]; rewrite ?F1; auto.
  - apply build_words_wf; try lia; rewrite ?F1; [exact Ho|rewrite Vo, Ev; exact F2].
  - rewrite build_mant by (unfold DIG_PER_DEC1; rewrite round_up_mul, F1 by lia; exact Lo); exact Vo.
Qed.

(** The fields that an error cuts. *)
Lemma cut_fields a b k er : wf a -> wf b -> 0 <= k <= Z.max (nfrac a) (nfrac b) ->
  (er = E_DEC_OK -> k = Z.max (nfrac a) (nfrac b)) ->
  (er <> E_DEC_OK -> er = E_DEC_TRUNCATED /\ k < Z.max (nfrac a) (nfrac b)) ->
  (er =? E_DEC_OVERFLOW) = false /\
  forall T (x y : T), (if er =? E_DEC_OK then (Z.max (frac a) (frac b), nfrac a, nfrac b, x)
   else (Z.min (Z.max (frac a) (frac b)) (k * DIG_PER_DEC1), Z.min (nfrac a) k, Z.min (nfrac b) k, y))
  = (result_frac a b k, Z.min (nfrac a) k, Z.min (nfrac b) k, if er =? E_DEC_OK then x else y).
Proof.
  intros Wa Wb Hk X1 X2; unfold result_frac; destruct (Z.eqb_spec er E_DEC_OK) as [->|Ne].
  - specialize (X1 eq_refl); rewrite X1, Z.eqb_refl, !Z.min_l by lia; auto.
  - destruct (X2 Ne) as [-> Hlt]; destruct (Z.eqb_spec k (Z.max (nfrac a) (nfrac b))); [lia|auto].
Qed.

(** The word that is reserved for a carry. *)
Lemma extra_word x M b : 0 < zlen b -> exists e t, 0 <= e <= 1 /\ zlen t = zlen b /\
  (e = 1 -> exists t', t = 0 :: t') /\ (e = 0 -> x <= DIG_MAX - 1) /\
  (if x >? DIG_MAX - 1 then let? t := wr b 0 0 in Some (M + 1, t) else Some (M, b)) = Some (M + e, t).
Proof.
  intros Hb; destruct (Z.gtb_spec x (DIG_MAX - 1)).
  - destruct b as [|w b]; [llia|]; exists 1, (0 :: b); rewrite wr_0; cbn [obind].
    repeat split; try lia; eauto.
  - exists 0, b; rewrite Z.add_0_r; repeat split; lia.
Qed.

(** Addition of magnitudes. *)
Lemma do_add_spec a b to : wf a -> wf b -> target to ->
  exists e r, do_add a b to = Some (e, r) /\
    ((e = E_DEC_OVERFLOW /\ len to <= Z.max (nint a) (nint b) /\ wf r /\ mant r = 10 ^ (9 * len to) - 1 /\
      frac r = 0 /\ len r = len to /\ sign r = false) \/
     op_result a b to (sign a) (fun k => cut k a + cut k b) e r) /\
    (Z.max (nint a) (nint b) + 1 + Z.max (nfrac a) (nfrac b) <= len to -> e = E_DEC_OK).
Proof.
  intros Wa Wb T; pose proof T as [Hl Hb].
  pose proof (nint_bounds a Wa) as Ia; pose proof (nint_bounds b Wb) as Ib.
  pose proof (nfrac_bounds a Wa) as Fa; pose proof (nfrac_bounds b Wb) as Fb.
  destruct (rd_Some (buf a) 0) as (h1 & R1); [pose proof (wf_buf _ Wa); pose proof (wf_len _ Wa); lia|].
  destruct (rd_Some (buf b) 0) as (h2 & R2); [pose proof (wf_buf _ Wb); pose proof (wf_len _ Wb); lia|].
  unfold do_add; rewrite R1, R2; cbn [obind]; fold (nint a) (nint b) (nfrac a) (nfrac b).
  destruct (extra_word (if nint a >? nint b then h1 else if nint b >? nint a then h2 else i32 (h1 + h2))
    (Z.max (nint a) (nint b)) (buf to)) as (x & t & Hx & Lt & Ht & Hh & ->); [lia|]; cbn [obind].
  destruct (Z.lt_ge_cases (len to) (Z.max (nint a) (nint b) + x)) as [Hov|Hfit].
  { rewrite fix_overflow by lia; cbn [Z.eqb E_DEC_OVERFLOW Pos.eqb].
    destruct (max_int_decimal_spec (len to * DIG_PER_DEC1) (set_buf to t)) as (r & -> & Wr & _ & Fr & Lr & Sr & Mr);
      [split; cbn; lia|unfold DIG_PER_DEC1; lia|unfold DIG_PER_DEC1; rewrite round_up_mul by lia; cbn; lia|].
    cbn [obind]; exists E_DEC_OVERFLOW, r; split; [reflexivity|split; [left|lia]].
    rewrite Mr; unfold DIG_PER_DEC1; rewrite (Z.mul_comm (len to)).
    split; [reflexivity|split; [lia|auto]]. }
  destruct (fix_cases (len to) (Z.max (nint a) (nint b) + x) (Z.max (nfrac a) (nfrac b)))
    as (er & -> & X1 & X2 & X3); [lia|lia|].
  set (k := Z.min (Z.max (nfrac a) (nfrac b)) _) in *; assert (0 <= k <= Z.max (nfrac a) (nfrac b)) as Hk by lia.
  destruct (cut_fields a b k er Wa Wb Hk X1 X2) as [-> _].
  destruct (add_body_spec a b t k x h1 h2 Wa Wb Hk R1 R2 Hx Ht Hh ltac:(lia)) as (out & post & Lo & La & Ho & Vo & E).
  assert ((if er =? E_DEC_OK then (Z.max (frac a) (frac b), nfrac a, nfrac b, nint a, nint b)
    else (Z.min (Z.max (frac a) (frac b)) (k * DIG_PER_DEC1), Z.min (nfrac a) k, Z.min (nfrac b) k,
      Z.min (nint a) (Z.max (nint a) (nint b) + x), Z.min (nint b) (Z.max (nint a) (nint b) + x)))
    = (result_frac a b k, Z.min (nfrac a) k, Z.min (nfrac b) k, nint a, nint b)) as ->.
  { rewrite (Z.min_l (nint a)), (Z.min_l (nint b)) by lia.
    destruct (cut_fields a b k er Wa Wb Hk X1 X2) as [_ C].
    specialize (C Z 0 0); destruct (er =? E_DEC_OK); congruence. }
  rewrite E; cbn [obind]; eexists er, _; split; [reflexivity|split; [right|intros; apply X3; lia]].
  apply (op_build a b to _ 1 1); try assumption; lia.
Qed.
