(* ===== verification/DecSub.v ===== *)
(** Subtraction and comparison of decimals, proofs, and the theorems on
    [decimal_add], [decimal_sub] and [decimal_cmp]; the routines are in
    [DecArith]. *)

From Stdlib Require Import ZArith Lia ZifyBool List Bool QArith Qabs.
From S2P Require Import Prelude Words Decimal DecArith.
Import ListNotations.
Local Open Scope Z_scope.
Local Open Scope fail_scope.

(** ** The loops of the comparison *)

Lemma skip_zeros_eq n : forall m pre post p, zlen m = Z.of_nat n -> p = zlen pre ->
  exists z m', m = repeat 0 z ++ m' /\ (m' = [] \/ hd 0 m' <> 0) /\
    skip_zeros n (pre ++ m ++ post) p = Some (p + Z.of_nat z).
Proof.
  induction n as [|n IH]; intros m pre post p Hm ->.
  - rewrite (zlen_zero m) by lia; exists O, []; rewrite Z.add_0_r; auto.
  - destruct m as [|w m]; [llia|]; cbn [skip_zeros app]; rewrite rd_at by reflexivity; cbn [obind].
    destruct (Z.eqb_spec w 0) as [->|Hw].
    + regroup (pre ++ 0 :: m ++ post) ((pre ++ [0]) ++ m ++ post).
      destruct (IH m (pre ++ [0]) post (zlen pre + 1)) as (z & m' & -> & Hm' & ->); [llia|llia|].
      exists (S z), m'; split; [reflexivity|split; [exact Hm'|f_equal; lia]].
    + exists O, (w :: m); rewrite Z.add_0_r; auto.
Qed.

Lemma drop_zeros_eq n : forall m pre post e, zlen m = Z.of_nat n -> e = zlen pre + Z.of_nat n - 1 ->
  exists z m', m = m' ++ repeat 0 z /\ (m' = [] \/ exists m'' w, m' = m'' ++ [w] /\ w <> 0) /\
    drop_zeros n (pre ++ m ++ post) e = Some (e - Z.of_nat z).
Proof.
  induction n as [|n IH]; intros m pre post e Hm ->.
  - rewrite (zlen_zero m) by lia; exists O, []; rewrite !Z.sub_0_r; auto.
  - snoc m as m0 w; cbn [drop_zeros].
    regroup (pre ++ (m0 ++ [w]) ++ post) ((pre ++ m0) ++ w :: post).
    rewrite rd_at by llia; cbn [obind]; destruct (Z.eqb_spec w 0) as [->|Hw].
    + regroup ((pre ++ m0) ++ 0 :: post) (pre ++ m0 ++ 0 :: post).
      destruct (IH m0 pre (0 :: post) (zlen pre + Z.of_nat (S n) - 1 - 1)) as (z & m' & -> & Hm' & ->); [llia|llia|].
      exists (S z), m'; split; [cbn [repeat]; rewrite repeat_cons, app_assoc; reflexivity|].
      split; [exact Hm'|f_equal; lia].
    + exists O, (m0 ++ [w]); rewrite Z.sub_0_r, app_nil_r; split; [reflexivity|].
      split; [right; eauto|reflexivity].
Qed.

Lemma skip_equal_eq n : forall m1 m2 pre1 pre2 post1 post2,
  Z.of_nat n = Z.min (zlen m1) (zlen m2) ->
  exists P R1 R2, m1 = P ++ R1 /\ m2 = P ++ R2 /\
    (R1 = [] \/ R2 = [] \/ hd 0 R1 <> hd 0 R2) /\
    skip_equal n (pre1 ++ m1 ++ post1) (pre2 ++ m2 ++ post2) (zlen pre1) (zlen pre2)
    = Some (zlen pre1 + zlen P, zlen pre2 + zlen P).
Proof.
  induction n as [|n IH]; intros m1 m2 pre1 pre2 post1 post2 Hn.
  - exists [], m1, m2; cbn [app skip_equal]; change (zlen (@nil Z)) with 0; rewrite !Z.add_0_r.
    repeat split; auto; destruct m1; auto; destruct m2; auto; llia.
  - destruct m1 as [|x m1]; [llia|]; destruct m2 as [|y m2]; [llia|].
    cbn [skip_equal app]; rewrite !rd_at by reflexivity; cbn [obind].
    destruct (Z.eqb_spec x y) as [->|Hxy].
    + regroup (pre1 ++ y :: m1 ++ post1) ((pre1 ++ [y]) ++ m1 ++ post1).
      regroup (pre2 ++ y :: m2 ++ post2) ((pre2 ++ [y]) ++ m2 ++ post2).
      destruct (IH m1 m2 (pre1 ++ [y]) (pre2 ++ [y]) post1 post2) as (P & R1 & R2 & -> & -> & HR & E); [llia|].
      rewrite !zlen_app in E; change (zlen [y]) with 1 in E; rewrite E.
      exists (y :: P), R1, R2; repeat split; auto; f_equal; f_equal; llia.
    + exists [], (x :: m1), (y :: m2); change (zlen (@nil Z)) with 0; rewrite !Z.add_0_r; cbn [hd]; repeat split; auto.
Qed.

(** ** The operands of the comparison *)

(** The words [V] of an operand from its start [s], [i] of them before the
    point and [f] after it (fewer than none if zeros before the point have
    been dropped), hold all its digits. *)
Record side (d : decimal_t) (s i f : Z) (V R : list Z) : Prop := {
  side_buf : buf d = repeat 0 (Z.to_nat s) ++ V ++ R;
  side_start : 0 <= s /\ s + i = nint d;
  side_len : zlen V = i + f;
  side_int : 0 <= i;
  side_frac : f <= nfrac d;
  side_ok : Forall word_ok V;
  side_mant : wval V * DIG_BASE ^ (nfrac d - f) = mant d;
  side_lead : 0 < i -> 0 < i + f -> DIG_BASE ^ (i + f - 1) <= wval V;
  side_some : 0 < i -> 0 < i + f
}.

Lemma word_lead_bound V n : Forall word_ok V -> zlen V = n -> 0 < n -> hd 0 V <> 0 -> DIG_BASE ^ (n - 1) <= wval V.
Proof.
  intros H L Hn Hh; destruct V as [|v V]; [llia|]; cbn [hd] in Hh.
  apply Forall_cons_iff in H as [Hv HV]; pose proof (wval_bounds _ HV); unfold word_ok, digit_ok in Hv.
  rewrite zlen_cons in L; replace (n - 1) with (zlen V) by lia; rewrite wval_cons.
  pose proof (base_pow_pos (zlen V) ltac:(llia)); nia.
Qed.

Lemma sub_start_spec d : wf d -> exists s V R, sub_start (buf d) (nint d) = Some (s, nint d - s) /\
  side d s (nint d - s) (nfrac d) V R.
Proof.
  intros W; destruct (wf_layout d W) as (I & F & R & E & LI & LF & Ew & _ & HI & HF & _).
  pose proof (nint_bounds d W) as Hn; pose proof (nfrac_bounds d W) as Hf.
  assert (exists z I', I = repeat 0 z ++ I' /\ (I' = [] \/ hd 0 I' <> 0) /\
    sub_start (buf d) (nint d) = Some (Z.of_nat z, nint d - Z.of_nat z)) as (z & I' & -> & HI' & ES).
  { unfold sub_start; destruct (rd_Some (buf d) 0) as (w & Rw);
      [pose proof (wf_buf _ W); pose proof (wf_len _ W); lia|]; rewrite Rw; cbn [obind].
    rewrite E in *; destruct (Z.eqb_spec w 0) as [->|Hw].
    - destruct (skip_zeros_eq (Z.to_nat (nint d)) I [] (F ++ R) 0) as (z & I' & EI & HI' & ES);
        [lia|reflexivity|]; cbn [app] in ES; rewrite ES; cbn [obind].
      exists z, I'; rewrite Z.add_0_l; auto.
    - exists O, I; rewrite Z.sub_0_r; split; [reflexivity|split; [|reflexivity]].
      destruct I as [|x I]; [auto|right]; cbn [app] in Rw; rewrite rd_0 in Rw; injection Rw as ->; exact Hw. }
  rewrite zlen_app, zlen_repeat in LI; apply Forall_app in HI as [_ HI].
  assert (Forall word_ok (I' ++ F)) as HV by (apply Forall_app; auto).
  exists (Z.of_nat z), (I' ++ F), R; split; [exact ES|]; pose proof (zlen_nonneg I').
  split; rewrite ?Nat2Z.id; try llia; try assumption.
  - rewrite E, <- !app_assoc; reflexivity.
  - rewrite Z.sub_diag, Z.pow_0_r, Z.mul_1_r; unfold mant.
    rewrite Ew, <- app_assoc, (wval_app (repeat 0 z)), wval_zeros; reflexivity.
  - intros Hi _; apply word_lead_bound; [exact HV|llia|llia|].
    destruct HI' as [->|Hh]; [rewrite zlen_nil in LI; lia|destruct I'; [llia|exact Hh]].
Qed.

(** Dropping zeros at the end of an operand keeps its value. *)
Lemma side_drop d s i f V R : side d s i f V R ->
  exists V' R' f', drop_zeros (Z.to_nat (nint d + (f - 1) - s + 1)) (buf d) (nint d + (f - 1)) = Some (nint d + (f' - 1)) /\
    f' <= f /\ side d s i f' V' R' /\ (V' = [] \/ exists m w, V' = m ++ [w] /\ w <> 0).
Proof.
  intros S; pose proof (side_start _ _ _ _ _ _ S); pose proof (side_len _ _ _ _ _ _ S).
  pose proof (side_int _ _ _ _ _ _ S); pose proof (zlen_nonneg V); pose proof (side_frac _ _ _ _ _ _ S).
  destruct (drop_zeros_eq (Z.to_nat (nint d + (f - 1) - s + 1)) V (repeat 0 (Z.to_nat s)) R (nint d + (f - 1)))
    as (z & V' & EV & HV & E); [lia|rewrite zlen_repeat; lia|].
  exists V', (repeat 0 z ++ R), (f - Z.of_nat z); rewrite (side_buf _ _ _ _ _ _ S), E.
  split; [f_equal; lia|split; [lia|split; [|exact HV]]].
  pose proof (side_ok _ _ _ _ _ _ S) as Ho; pose proof (side_mant _ _ _ _ _ _ S) as M.
  pose proof (side_lead _ _ _ _ _ _ S) as Ld; pose proof (side_some _ _ _ _ _ _ S) as So.
  rewrite EV in Ho, M, Ld, H0; apply Forall_app in Ho as [Ho _]; rewrite wval_app, wval_zeros, Z.add_0_r, zlen_repeat in *.
  rewrite zlen_app, zlen_repeat in H0; pose proof (zlen_nonneg V').
  split; try lia; try assumption.
  - rewrite (side_buf _ _ _ _ _ _ S), EV, <- app_assoc; reflexivity.
  - rewrite <- M, <- Z.mul_assoc, <- Z.pow_add_r by lia; f_equal; f_equal; lia.
  - intros Hi Hp; specialize (Ld Hi ltac:(lia)).
    replace (i + f - 1) with ((i + (f - Z.of_nat z) - 1) + Z.of_nat z) in Ld by lia.
    rewrite Z.pow_add_r in Ld by lia; pose proof (base_pow_pos (Z.of_nat z) ltac:(lia)); nia.
  - intros Hi; specialize (So Hi); specialize (Ld Hi So).
    destruct V' as [|v V']; [|llia]; change (wval []) with 0 in Ld.
    pose proof (base_pow_pos (i + f - 1) ltac:(lia)); lia.
Qed.

Lemma side_value d s i f V R N : wf d -> side d s i f V R -> nfrac d <= N ->
  cut N d = wval V * DIG_BASE ^ (N - f).
Proof.
  intros W S HN; rewrite cut_exact by assumption; rewrite <- (side_mant _ _ _ _ _ _ S).
  pose proof (side_frac _ _ _ _ _ _ S); rewrite <- Z.mul_assoc, <- Z.pow_add_r by lia; f_equal; f_equal; lia.
Qed.

Lemma side_upper d s i f V R N : wf d -> side d s i f V R -> nfrac d <= N ->
  0 <= cut N d < DIG_BASE ^ (i + N).
Proof.
  intros W S HN; rewrite (side_value _ _ _ _ _ _ N W S HN).
  pose proof (side_frac _ _ _ _ _ _ S); pose proof (wval_bounds _ (side_ok _ _ _ _ _ _ S)) as B.
  rewrite (side_len _ _ _ _ _ _ S) in B; pose proof (zlen_nonneg V); rewrite (side_len _ _ _ _ _ _ S) in *.
  replace (i + N) with ((i + f) + (N - f)) by lia; rewrite Z.pow_add_r by lia.
  pose proof (base_pow_pos (N - f) ltac:(lia)); nia.
Qed.

Lemma side_lower d s i f V R N : wf d -> side d s i f V R -> nfrac d <= N -> 0 < i ->
  DIG_BASE ^ (i + N - 1) <= cut N d.
Proof.
  intros W S HN Hi; rewrite (side_value _ _ _ _ _ _ N W S HN).
  pose proof (side_frac _ _ _ _ _ _ S); pose proof (side_some _ _ _ _ _ _ S Hi) as Hp.
  pose proof (side_lead _ _ _ _ _ _ S Hi Hp).
  replace (i + N - 1) with ((i + f - 1) + (N - f)) by lia; rewrite Z.pow_add_r by lia.
  pose proof (base_pow_pos (N - f) ltac:(lia)); nia.
Qed.

(** An operand with more integer words is greater. *)
Lemma more_words a b s1 i1 f1 V1 R1 s2 i2 f2 V2 R2 N : wf a -> wf b ->
  side a s1 i1 f1 V1 R1 -> side b s2 i2 f2 V2 R2 -> nfrac a <= N -> nfrac b <= N -> i1 < i2 ->
  cut N a < cut N b.
Proof.
  intros Wa Wb Sa Sb Ha Hb Hi; pose proof (side_int _ _ _ _ _ _ Sa).
  pose proof (side_upper _ _ _ _ _ _ N Wa Sa Ha); pose proof (side_lower _ _ _ _ _ _ N Wb Sb Hb ltac:(lia)).
  pose proof (nfrac_bounds a Wa).
  pose proof (Z.pow_le_mono_r DIG_BASE (i1 + N) (i2 + N - 1) ltac:(reflexivity) ltac:(lia)); lia.
Qed.

(** After a common prefix, the greater of two different words decides. *)
Lemma first_difference P x R1 y R2 K e1 e2 : Forall word_ok (x :: R1) -> Forall word_ok (y :: R2) ->
  0 <= e1 -> 0 <= e2 -> e1 + zlen R1 = K -> e2 + zlen R2 = K -> x < y ->
  wval (P ++ x :: R1) * DIG_BASE ^ e1 < wval (P ++ y :: R2) * DIG_BASE ^ e2.
Proof.
  intros [Hx H1]%Forall_cons_iff [Hy H2]%Forall_cons_iff He1 He2 E1 E2 Hxy.
  pose proof (wval_bounds _ H1) as B1; pose proof (wval_bounds _ H2) as B2.
  rewrite !wval_app, !wval_cons, !zlen_cons, !Z.pow_add_r, !Z.pow_1_r by llia.
  assert (DIG_BASE ^ zlen R1 * DIG_BASE ^ e1 = DIG_BASE ^ K) as K1 by (rewrite <- Z.pow_add_r by llia; f_equal; lia).
  assert (DIG_BASE ^ zlen R2 * DIG_BASE ^ e2 = DIG_BASE ^ K) as K2 by (rewrite <- Z.pow_add_r by llia; f_equal; lia).
  pose proof (base_pow_pos e1 He1); pose proof (base_pow_pos e2 He2).
  replace ((wval P * (DIG_BASE ^ zlen R1 * DIG_BASE) + (x * DIG_BASE ^ zlen R1 + wval R1)) * DIG_BASE ^ e1)
    with ((wval P * DIG_BASE + x) * (DIG_BASE ^ zlen R1 * DIG_BASE ^ e1) + wval R1 * DIG_BASE ^ e1) by ring.
  replace ((wval P * (DIG_BASE ^ zlen R2 * DIG_BASE) + (y * DIG_BASE ^ zlen R2 + wval R2)) * DIG_BASE ^ e2)
    with ((wval P * DIG_BASE + y) * (DIG_BASE ^ zlen R2 * DIG_BASE ^ e2) + wval R2 * DIG_BASE ^ e2) by ring.
  rewrite K1, K2; assert (wval R1 * DIG_BASE ^ e1 < DIG_BASE ^ K) by (rewrite <- K1; nia).
  assert (0 <= wval R2 * DIG_BASE ^ e2) by nia.
  pose proof (base_pow_pos K ltac:(llia)).
  pose proof (Z.mul_le_mono_nonneg_r (wval P * DIG_BASE + x + 1) (wval P * DIG_BASE + y) (DIG_BASE ^ K) ltac:(lia) ltac:(lia)).
  lia.
Qed.

(** A longer operand whose last word is not zero is greater. *)
Lemma longer_greater P R2 K e1 e2 m w : Forall word_ok (P ++ R2) -> R2 <> [] -> P ++ R2 = m ++ [w] -> w <> 0 ->
  0 <= e2 -> e1 = K -> e2 + zlen R2 = K -> wval P * DIG_BASE ^ e1 < wval (P ++ R2) * DIG_BASE ^ e2.
Proof.
  intros H HR EP Hw He2 -> E2; destruct (exists_last HR) as (R' & w' & ->).
  rewrite app_assoc in EP; apply app_inj_tail in EP as [_ ->].
  apply Forall_app in H as [_ H]; pose proof (wval_bounds _ (proj1 (proj1 (Forall_app _ _ _) H))) as B.
  apply Forall_app in H as [_ Hw']; apply Forall_inv in Hw'; unfold word_ok, digit_ok in Hw'.
  assert (0 < wval (R' ++ [w])) by (unfold wval in *; rewrite bval_snoc; unfold DIG_BASE in *; lia).
  rewrite wval_app, Z.mul_add_distr_r, <- Z.mul_assoc, <- Z.pow_add_r by llia.
  replace (zlen (R' ++ [w]) + e2) with K by lia; pose proof (base_pow_pos e2 He2); nia.
Qed.

(** What the comparison finds: equal magnitudes, or which one is greater,
    with the words of both. *)
Definition compared (a b : decimal_t) (c : option (bool * Z * Z * Z * Z * Z * Z)) : Prop :=
  let N := Z.max (nfrac a) (nfrac b) in
  match c with
  | None => cut N a = cut N b
  | Some (carry, s1, i1, f1, s2, i2, f2) =>
      exists V1 R1 V2 R2, side a s1 i1 f1 V1 R1 /\ side b s2 i2 f2 V2 R2 /\
        (i1 = i2 \/ (f1 = nfrac a /\ f2 = nfrac b)) /\
        if carry then cut N a < cut N b /\ i1 <= i2 else cut N b < cut N a /\ i2 <= i1
  end.

(** Operands with the same number of integer words, without zeros at the end. *)
Lemma compare_tails a b s1 i f1 V1 R1 s2 f2 V2 R2 : wf a -> wf b ->
  side a s1 i f1 V1 R1 -> side b s2 i f2 V2 R2 ->
  (V1 = [] \/ exists m w, V1 = m ++ [w] /\ w <> 0) -> (V2 = [] \/ exists m w, V2 = m ++ [w] /\ w <> 0) ->
  exists c, compared a b c /\
  (let end1 := nint a + (f1 - 1) in
   let end2 := nint b + (f2 - 1) in
   let? (p1, p2) := skip_equal (Z.to_nat (Z.min (end1 - s1 + 1) (end2 - s2 + 1))) (buf a) (buf b) s1 s2 in
   if p1 <=? end1 then
     if p2 <=? end2 then
       let? x := rd (buf a) p1 in
       let? y := rd (buf b) p2 in
       Some (Some (y >? x, s1, i, f1, s2, i, f2))
     else Some (Some (false, s1, i, f1, s2, i, f2))
   else
     if p2 <=? end2 then Some (Some (true, s1, i, f1, s2, i, f2)) else Some None) = Some c.
Proof.
  intros Wa Wb Sa Sb Z1 Z2; cbv zeta; set (N := Z.max (nfrac a) (nfrac b)).
  pose proof (side_start _ _ _ _ _ _ Sa); pose proof (side_start _ _ _ _ _ _ Sb).
  pose proof (side_frac _ _ _ _ _ _ Sa); pose proof (side_frac _ _ _ _ _ _ Sb).
  pose proof (side_len _ _ _ _ _ _ Sa) as L1; pose proof (side_len _ _ _ _ _ _ Sb) as L2.
  pose proof (side_ok _ _ _ _ _ _ Sa) as O1; pose proof (side_ok _ _ _ _ _ _ Sb) as O2.
  pose proof (side_value _ _ _ _ _ _ N Wa Sa ltac:(lia)) as C1; pose proof (side_value _ _ _ _ _ _ N Wb Sb ltac:(lia)) as C2.
  pose proof (zlen_nonneg V1); pose proof (zlen_nonneg V2).
  rewrite (side_buf _ _ _ _ _ _ Sa), (side_buf _ _ _ _ _ _ Sb).
  destruct (skip_equal_eq (Z.to_nat (Z.min (nint a + (f1 - 1) - s1 + 1) (nint b + (f2 - 1) - s2 + 1))) V1 V2
    (repeat 0 (Z.to_nat s1)) (repeat 0 (Z.to_nat s2)) R1 R2) as (P & T1 & T2 & E1 & E2 & HT & E); [lia|].
  rewrite !zlen_repeat, !Z2Nat.id in E by lia; rewrite E; cbn [obind]; rewrite E1, E2; rewrite E1 in L1; rewrite E2 in L2.
  rewrite zlen_app in L1, L2; unfold compared; fold N.
  destruct T1 as [|x T1], T2 as [|y T2]; autorewrite with zlen in L1, L2; pose proof (zlen_nonneg P).
  - do 2 (case_if; [lia|]); exists None; split; [|reflexivity].
    rewrite C1, C2, E1, E2; do 2 f_equal; lia.
  - pose proof (zlen_nonneg T2); case_if; [lia|]; case_if; [|lia].
    eexists; split; [|reflexivity]; exists V1, R1, V2, R2.
    split; [exact Sa|split; [exact Sb|split; [auto|split; [|lia]]]].
    rewrite C1, C2, E1, E2, app_nil_r; destruct Z2 as [->|(m & w & Em & Hw)]; [destruct P; discriminate E2|].
    apply (longer_greater P (y :: T2) (N - f1) _ _ m w); try congruence; rewrite ?zlen_cons; lia.
  - pose proof (zlen_nonneg T1); case_if; [|lia]; case_if; [lia|].
    eexists; split; [|reflexivity]; exists V1, R1, V2, R2.
    split; [exact Sa|split; [exact Sb|split; [auto|split; [|lia]]]].
    rewrite C1, C2, E1, E2, app_nil_r; destruct Z1 as [->|(m & w & Em & Hw)]; [destruct P; discriminate E1|].
    apply (longer_greater P (x :: T1) (N - f2) _ _ m w); try congruence; rewrite ?zlen_cons; lia.
  - pose proof (zlen_nonneg T1); pose proof (zlen_nonneg T2); do 2 (case_if; [|lia]).
    regroup (repeat 0 (Z.to_nat s1) ++ (P ++ x :: T1) ++ R1) ((repeat 0 (Z.to_nat s1) ++ P) ++ x :: T1 ++ R1).
    regroup (repeat 0 (Z.to_nat s2) ++ (P ++ y :: T2) ++ R2) ((repeat 0 (Z.to_nat s2) ++ P) ++ y :: T2 ++ R2).
    rewrite !rd_at by llia; cbn [obind]; eexists; split; [|reflexivity].
    exists V1, R1, V2, R2; split; [exact Sa|split; [exact Sb|split; [auto|]]].
    destruct HT as [HT|[HT|HT]]; [discriminate HT|discriminate HT|]; cbn [hd] in HT.
    rewrite C1, C2, E1, E2; rewrite E1 in O1; rewrite E2 in O2; apply Forall_app in O1 as [_ O1], O2 as [_ O2].
    destruct (Z.gtb_spec y x); split; try lia;
      apply (first_difference P _ _ _ _ (N - f1 + zlen T1)); assumption || lia.
Qed.

Lemma sub_compare_spec a b : wf a -> wf b -> exists c, sub_compare a b = Some c /\ compared a b c.
Proof.
  intros Wa Wb; unfold sub_compare; fold (nint a) (nint b) (nfrac a) (nfrac b).
  destruct (sub_start_spec a Wa) as (s1 & V1 & R1 & -> & Sa); cbn [obind].
  destruct (sub_start_spec b Wb) as (s2 & V2 & R2 & -> & Sb); cbn [obind].
  destruct (Z.gtb_spec (nint b - s2) (nint a - s1)) as [Hgt|Hle];
    [|destruct (Z.eqb_spec (nint b - s2) (nint a - s1)) as [Heq|Hne]].
  - eexists; split; [reflexivity|]; exists V1, R1, V2, R2.
    split; [exact Sa|split; [exact Sb|split; [auto|split; [|lia]]]].
    apply (more_words a b _ _ _ _ _ _ _ _ _ _ _ Wa Wb Sa Sb); lia.
  - destruct (side_drop _ _ _ _ _ _ Sa) as (V1' & R1' & f1 & E1 & Hf1 & Sa' & Z1); rewrite E1; cbn [obind].
    destruct (side_drop _ _ _ _ _ _ Sb) as (V2' & R2' & f2 & E2 & Hf2 & Sb' & Z2); rewrite E2; cbn [obind].
    rewrite Heq in *.
    destruct (compare_tails a b _ _ _ _ _ _ _ _ _ Wa Wb Sa' Sb' Z1 Z2) as (c & Hc & E).
    exists c; split; [rewrite <- E; clear E|exact Hc].
    replace (nint a + (f1 - 1) - nint a + 1) with f1 by lia; replace (nint b + (f2 - 1) - nint b + 1) with f2 by lia.
    reflexivity.
  - eexists; split; [reflexivity|]; exists V1, R1, V2, R2.
    split; [exact Sa|split; [exact Sb|split; [auto|split; [|lia]]]].
    apply (more_words b a _ _ _ _ _ _ _ _ _ _ _ Wb Wa Sb Sa); lia.
Qed.

(** ** The subtraction *)

(** Words of a difference: what the borrows of the parts leave is the
    difference of the values if that is not negative. *)
Lemma diff_value x c' X c r Y Y2 c0 nY : 0 <= c' -> 0 < nY ->
  wval x - c' * DIG_BASE ^ zlen X = wval X - 0 - c ->
  wval r - c * nY = wval Y - wval Y2 - c0 ->
  Forall word_ok x -> zlen x = zlen X ->
  0 <= wval X * nY + wval Y - wval Y2 - c0 -> wval r < nY ->
  c' = 0 /\ wval x * nY + wval r = wval X * nY + wval Y - wval Y2 - c0.
Proof.
  intros Hc' Hn Ex Er Hx Lx Hpos Hr; pose proof (wval_bounds _ Hx) as B; rewrite Lx in B.
  set (Q := DIG_BASE ^ zlen X) in *.
  assert (wval x * nY + wval r = wval X * nY + wval Y - wval Y2 - c0 + c' * (Q * nY)) as E.
  { replace (wval x) with (wval X - c + c' * Q) by lia; replace (wval r) with (wval Y - wval Y2 - c0 + c * nY) by lia; ring. }
  pose proof (Z.mul_le_mono_nonneg_r (wval x + 1) Q nY ltac:(lia) ltac:(lia)).
  destruct (Z.eq_dec c' 0) as [->|Hc]; [split; [reflexivity|lia]|].
  pose proof (Z.mul_le_mono_nonneg_r 1 c' (Q * nY) ltac:(nia) ltac:(lia)); lia.
Qed.

(** The words that only the greater operand has, at the start of the result. *)
Lemma sub_tail_eq X mX rest pre1 post1 p0 p1 c : Forall word_ok X -> zlen mX = zlen X -> 0 <= c <= 1 ->
  p0 = zlen mX -> p1 = zlen pre1 + zlen X ->
  exists x c', zlen x = zlen X /\ Forall word_ok x /\ 0 <= c' /\
    wval x - c' * DIG_BASE ^ zlen X = wval X - 0 - c /\
    (let? (t, p0, p1) := borrow_loop (Z.to_nat (p1 - zlen pre1)) (pre1 ++ X ++ post1) (mX ++ rest) p0 p1 c in
     let? (t, p0, p1) := copy_down (Z.to_nat (p1 - zlen pre1)) (pre1 ++ X ++ post1) t p0 p1 in
     let? (t, p0) := zero_down (Z.to_nat p0) t p0 in Some t) = Some (x ++ rest).
Proof.
  intros HX Lm Hc -> ->; pose proof (zlen_nonneg X).
  replace (Z.to_nat (zlen pre1 + zlen X - zlen pre1)) with (Z.to_nat (zlen X)) by lia.
  destruct (subl_spec X (repeat 0 (Z.to_nat (zlen X))) c) as (x & c' & Es & Lx & Hx & Hc' & Ex);
    [assumption|apply word_ok_zeros|llia|assumption|]; rewrite wval_zeros in Ex.
  exists x, c'; split; [exact Lx|split; [exact Hx|split; [lia|split; [exact Ex|]]]].
  pose proof (borrow_copy_eq (Z.to_nat (zlen X)) X mX [] rest pre1 post1
    (zlen mX) (zlen pre1 + zlen X) c HX ltac:(lia) ltac:(lia) ltac:(rewrite zlen_nil; lia) ltac:(lia) Hc) as BC.
  rewrite Es in BC; cbn [fst app] in BC.
  destruct (borrow_loop _ _ _ _ _ _) as [[[t1 q0] q1]|]; cbn [obind] in BC |- *; [|discriminate BC].
  rewrite BC; reflexivity.
Qed.

(** The longer fraction is in the greater operand. *)
Lemma sub_parts_long X Y T R1 V2 R2 pre1 pre2 t k s1 i1 f1 s2 i2 f2 :
  Forall word_ok (X ++ Y ++ T) -> Forall word_ok V2 -> zlen X = i1 - i2 -> zlen Y = i2 + f2 ->
  zlen T = f1 - f2 -> zlen V2 = i2 + f2 -> f2 < f1 <= k -> s1 = zlen pre1 -> s2 = zlen pre2 ->
  i1 + k <= zlen t -> wval V2 <= wval (X ++ Y) ->
  exists out post, zlen out = i1 + k /\ zlen (out ++ post) = zlen t /\ Forall word_ok out /\
    wval out = wval (X ++ Y ++ T) * DIG_BASE ^ (k - f1) - wval V2 * DIG_BASE ^ (k - f2) /\
    sub_parts (pre1 ++ X ++ Y ++ T ++ R1) (pre2 ++ V2 ++ R2) t k s1 i1 f1 s2 i2 f2 = Some (out ++ post).
Proof.
  intros HA H2 LX LY LT LV Hk -> -> Ht Hge.
  apply Forall_app in HA as [HX HA]; apply Forall_app in HA as [HY HT].
  pose proof (zlen_nonneg X); pose proof (zlen_nonneg Y); pose proof (zlen_nonneg T).
  destruct (zsplit (i1 + k) t) as (mid & post & -> & Lm & Lp); [lia|].
  destruct (zsplit (i1 + f1) mid) as (m & mZ & -> & L3 & LZ); [lia|].
  destruct (zsplit (i1 + f2) m) as (m' & mT & -> & L4 & LmT); [lia|].
  destruct (zsplit (i1 - i2) m') as (mX & mY & -> & LmX & LmY); [lia|].
  unfold sub_parts; destruct (Z.gtb_spec f1 f2); [|lia].
  regroup ((((mX ++ mY) ++ mT) ++ mZ) ++ post) ((mX ++ mY ++ mT) ++ mZ ++ post).
  rewrite zero_down_eq by llia; cbn [obind]; set (Zs := repeat 0 _).
  regroup (pre1 ++ X ++ Y ++ T ++ R1) ((pre1 ++ X ++ Y) ++ T ++ R1).
  regroup ((mX ++ mY ++ mT) ++ Zs ++ post) ((mX ++ mY) ++ mT ++ Zs ++ post).
  rewrite copy_down_eq by llia; cbn [obind].
  regroup ((pre1 ++ X ++ Y) ++ T ++ R1) ((pre1 ++ X) ++ Y ++ T ++ R1).
  regroup ((mX ++ mY) ++ T ++ Zs ++ post) (mX ++ mY ++ T ++ Zs ++ post).
  rewrite sub_loop_eq by llia.
  destruct (subl_spec Y V2 0 HY H2 ltac:(lia) ltac:(lia)) as (r & c & -> & Lr & Hr & Hc & Er); cbn [obind].
  regroup ((pre1 ++ X) ++ Y ++ T ++ R1) (pre1 ++ X ++ Y ++ T ++ R1).
  destruct (sub_tail_eq X mX (r ++ T ++ Zs ++ post) pre1 (Y ++ T ++ R1) (zlen mX) (zlen (pre1 ++ X)) c)
    as (x & c' & Lx & Hx & Hc' & Ex & ->); [assumption|llia|assumption|reflexivity|llia|].
  exists (x ++ r ++ T ++ Zs), post; rewrite <- !app_assoc; unfold Zs.
  pose proof (wval_bounds _ Hr) as Br; rewrite Lr in Br.
  pose proof (base_pow_pos (zlen Y) ltac:(lia)).
  destruct (diff_value x c' X c r Y V2 0 (DIG_BASE ^ zlen Y)) as [_ EV]; try lia; try assumption;
    [rewrite wval_app in Hge; lia|].
  split; [llia|split; [llia|split; [|split; [|reflexivity]]]].
  - repeat (apply Forall_app; split); try assumption; apply word_ok_zeros.
  - rewrite !wval_app, wval_zeros, !zlen_app, !zlen_repeat, Lr, !Z2Nat.id, Z.add_0_r by lia.
    replace (k - f2) with (zlen T + (k - f1)) by lia; rewrite !Z.pow_add_r by llia.
    rewrite <- (Z.add_0_r (wval X * _ + _ - _)) in EV.
    transitivity (((wval x * DIG_BASE ^ zlen Y + wval r) * DIG_BASE ^ zlen T + wval T) * DIG_BASE ^ (k - f1)); [ring|].
    rewrite EV; ring.
Qed.

(** The longer fraction is in the smaller operand. *)
Lemma sub_parts_short X Y R1 Y2 T2 R2 pre1 pre2 t k s1 i1 f1 s2 i2 f2 :
  Forall word_ok (X ++ Y) -> Forall word_ok (Y2 ++ T2) -> zlen X = i1 - i2 -> zlen Y = i2 + f1 ->
  zlen T2 = f2 - f1 -> zlen Y2 = i2 + f1 -> f1 <= f2 <= k -> s1 = zlen pre1 -> s2 = zlen pre2 ->
  i1 + k <= zlen t -> wval (Y2 ++ T2) <= wval (X ++ Y) * DIG_BASE ^ zlen T2 ->
  exists out post, zlen out = i1 + k /\ zlen (out ++ post) = zlen t /\ Forall word_ok out /\
    wval out = wval (X ++ Y) * DIG_BASE ^ (k - f1) - wval (Y2 ++ T2) * DIG_BASE ^ (k - f2) /\
    sub_parts (pre1 ++ X ++ Y ++ R1) (pre2 ++ Y2 ++ T2 ++ R2) t k s1 i1 f1 s2 i2 f2 = Some (out ++ post).
Proof.
  intros [HX HY]%Forall_app [HY2 HT2]%Forall_app LX LY LT LV Hk -> -> Ht Hge.
  pose proof (zlen_nonneg X); pose proof (zlen_nonneg Y); pose proof (zlen_nonneg T2).
  destruct (zsplit (i1 + k) t) as (mid & post & -> & Lm & Lp); [lia|].
  destruct (zsplit (i1 + f2) mid) as (m & mZ & -> & L3 & LZ); [lia|].
  destruct (zsplit (i1 + f1) m) as (m' & mT & -> & L4 & LmT); [lia|].
  destruct (zsplit (i1 - i2) m') as (mX & mY & -> & LmX & LmY); [lia|].
  unfold sub_parts; destruct (Z.gtb_spec f1 f2); [lia|].
  regroup ((((mX ++ mY) ++ mT) ++ mZ) ++ post) ((mX ++ mY ++ mT) ++ mZ ++ post).
  rewrite zero_down_eq by llia; cbn [obind]; set (Zs := repeat 0 _).
  regroup (pre2 ++ Y2 ++ T2 ++ R2) ((pre2 ++ Y2) ++ T2 ++ R2).
  regroup ((mX ++ mY ++ mT) ++ Zs ++ post) ((mX ++ mY) ++ mT ++ Zs ++ post).
  rewrite sub_loop_none_eq by llia.
  destruct (subl_spec (repeat 0 (Z.to_nat (zlen pre2 + i2 + f2 - (zlen pre2 + i2 + f1)))) T2 0)
    as (rt & c0 & -> & Lrt & Hrt & Hc0 & Ert); [apply word_ok_zeros|assumption|llia|lia|]; cbn [obind].
  rewrite wval_zeros, zlen_repeat in *; regroup ((pre2 ++ Y2) ++ T2 ++ R2) (pre2 ++ Y2 ++ T2 ++ R2).
  regroup (pre1 ++ X ++ Y ++ R1) ((pre1 ++ X) ++ Y ++ R1).
  regroup ((mX ++ mY) ++ rt ++ Zs ++ post) (mX ++ mY ++ rt ++ Zs ++ post).
  rewrite sub_loop_eq by llia.
  destruct (subl_spec Y Y2 c0 HY HY2 ltac:(lia) ltac:(lia)) as (r & c & -> & Lr & Hr & Hc & Er); cbn [obind].
  regroup ((pre1 ++ X) ++ Y ++ R1) (pre1 ++ X ++ Y ++ R1).
  destruct (sub_tail_eq X mX (r ++ rt ++ Zs ++ post) pre1 (Y ++ R1) (zlen mX) (zlen (pre1 ++ X)) c)
    as (x & c' & Lx & Hx & Hc' & Ex & ->); [assumption|llia|assumption|reflexivity|llia|].
  exists (x ++ r ++ rt ++ Zs), post; rewrite <- !app_assoc; unfold Zs.
  pose proof (wval_bounds _ Hr) as Br; rewrite Lr in Br; pose proof (wval_bounds _ Hrt) as Brt; rewrite Lrt in Brt.
  replace (Z.of_nat (Z.to_nat (zlen pre2 + i2 + f2 - (zlen pre2 + i2 + f1)))) with (zlen T2) in * by lia.
  pose proof (base_pow_pos (zlen Y) ltac:(lia)); pose proof (base_pow_pos (zlen T2) ltac:(lia)).
  pose proof (wval_bounds _ HT2) as BT; rewrite !wval_app in Hge.
  replace (zlen Y2) with (zlen Y) in * by lia.
  destruct (diff_value x c' X c r Y Y2 c0 (DIG_BASE ^ zlen Y)) as [_ EV]; try lia; try assumption.
  { assert (c0 = 0 \/ 0 < wval T2) by nia; nia. }
  split; [llia|split; [llia|split; [|split; [|reflexivity]]]].
  - repeat (apply Forall_app; split); try assumption; apply word_ok_zeros.
  - rewrite !wval_app, wval_zeros, !zlen_app, !zlen_repeat, Lr, Lrt, !Z2Nat.id, Z.add_0_r by lia.
    replace (k - f1) with (zlen T2 + (k - f2)) by lia; rewrite !Z.pow_add_r by llia.
    transitivity (((wval x * DIG_BASE ^ zlen Y + wval r) * DIG_BASE ^ zlen T2 + wval rt) * DIG_BASE ^ (k - f2)); [ring|].
    rewrite EV; replace (wval rt) with (c0 * DIG_BASE ^ zlen T2 - wval T2) by lia; ring.
Qed.

Lemma cut_cut d N k : wf d -> nfrac d <= N -> 0 <= k <= N -> cut k d = cut N d / DIG_BASE ^ (N - k).
Proof.
  intros W HN Hk; pose proof (nfrac_bounds d W); unfold cut.
  pose proof (base_pow_pos (nfrac d) ltac:(lia)); pose proof (base_pow_pos (N - k) ltac:(lia)).
  rewrite Z.div_div by lia.
  replace (DIG_BASE ^ N) with (DIG_BASE ^ k * DIG_BASE ^ (N - k)) by (rewrite <- Z.pow_add_r by lia; f_equal; lia).
  rewrite Z.mul_assoc, Z.div_mul_cancel_r by lia; reflexivity.
Qed.

Lemma cut_mono a b N k : wf a -> wf b -> nfrac a <= N -> nfrac b <= N -> 0 <= k <= N ->
  cut N a <= cut N b -> cut k a <= cut k b.
Proof.
  intros Wa Wb Ha Hb Hk H; rewrite (cut_cut a N k), (cut_cut b N k) by assumption.
  apply Z.div_le_mono; [apply base_pow_pos; lia|exact H].
Qed.

(** The words of an operand up to [k] words of fraction. *)
Lemma side_cut d s i f V R k : wf d -> side d s i f V R -> 0 <= k ->
  exists V' R', buf d = repeat 0 (Z.to_nat s) ++ V' ++ R' /\ zlen V' = i + Z.min f k /\ Forall word_ok V' /\
    wval V' * DIG_BASE ^ (k - Z.min f k) = cut k d.
Proof.
  intros W S Hk; pose proof (side_len _ _ _ _ _ _ S) as L; pose proof (side_int _ _ _ _ _ _ S).
  pose proof (side_frac _ _ _ _ _ _ S); pose proof (nfrac_bounds d W); pose proof (zlen_nonneg V).
  pose proof (side_ok _ _ _ _ _ _ S) as Ho; pose proof (side_mant _ _ _ _ _ _ S) as M.
  destruct (Z.le_ge_cases f k) as [Hf|Hf].
  - exists V, R; rewrite Z.min_l by lia; split; [apply S|split; [exact L|split; [exact Ho|]]].
    unfold cut; rewrite <- M, <- Z.mul_assoc, <- Z.pow_add_r by lia.
    replace (nfrac d - f + k) with ((k - f) + nfrac d) by lia; rewrite Z.pow_add_r, Z.mul_assoc by lia.
    rewrite Z.div_mul; [reflexivity|pose proof (base_pow_pos (nfrac d)); lia].
  - rewrite Z.min_r by lia; destruct (zsplit (i + k) V) as (V1 & V2 & -> & L1 & L2); [lia|].
    apply Forall_app in Ho as [O1 O2]; exists V1, (V2 ++ R).
    split; [rewrite (side_buf _ _ _ _ _ _ S), <- app_assoc; reflexivity|split; [exact L1|split; [exact O1|]]].
    rewrite Z.sub_diag, Z.pow_0_r, Z.mul_1_r; unfold cut; rewrite <- M, <- Z.mul_assoc, <- Z.pow_add_r by lia.
    replace (DIG_BASE ^ nfrac d) with (DIG_BASE ^ (nfrac d - f + k) * DIG_BASE ^ zlen V2)
      by (rewrite <- Z.pow_add_r by lia; f_equal; lia).
    rewrite (Z.mul_comm (DIG_BASE ^ (nfrac d - f + k))).
    rewrite Z.div_mul_cancel_r by (pose proof (base_pow_pos (nfrac d - f + k)); pose proof (base_pow_pos (zlen V2)); lia).
    symmetry; apply bval_div; [apply base_gt1|exact O2].
Qed.

Lemma sub_body_spec a b t k s1 i1 f1 V1 R1 s2 i2 f2 V2 R2 N : wf a -> wf b ->
  side a s1 i1 f1 V1 R1 -> side b s2 i2 f2 V2 R2 -> i2 <= i1 -> (i1 = i2 \/ 0 <= f1) ->
  nfrac a <= N -> nfrac b <= N -> cut N b <= cut N a -> 0 <= k <= N -> i1 + k <= zlen t ->
  exists out post, zlen out = i1 + k /\ zlen (out ++ post) = zlen t /\ Forall word_ok out /\
    wval out = cut k a - cut k b /\
    sub_parts (buf a) (buf b) t k s1 i1 (Z.min f1 k) s2 i2 (Z.min f2 k) = Some (out ++ post).
Proof.
  intros Wa Wb Sa Sb Hi Hf Ha Hb Hge Hk Ht.
  pose proof (cut_mono b a N k Wb Wa Hb Ha Hk Hge) as Hm.
  pose proof (side_start _ _ _ _ _ _ Sa); pose proof (side_start _ _ _ _ _ _ Sb).
  pose proof (side_int _ _ _ _ _ _ Sb); pose proof (side_len _ _ _ _ _ _ Sa); pose proof (side_len _ _ _ _ _ _ Sb).
  pose proof (zlen_nonneg V1); pose proof (zlen_nonneg V2).
  destruct (side_cut _ _ _ _ _ _ k Wa Sa ltac:(lia)) as (A & RA & EA & LA & HA & CA).
  destruct (side_cut _ _ _ _ _ _ k Wb Sb ltac:(lia)) as (B & RB & EB & LB & HB & CB).
  rewrite EA, EB, <- CA, <- CB; rewrite <- CA, <- CB in Hm.
  set (g1 := Z.min f1 k) in *; set (g2 := Z.min f2 k) in *.
  assert (g1 <= k /\ g2 <= k /\ 0 <= i2 + g2 /\ 0 <= i2 + g1) as (Hg1 & Hg2 & Hg3 & Hg4) by lia; clearbody g1 g2.
  pose proof (base_pow_pos (k - g1) ltac:(lia)); pose proof (base_pow_pos (k - g2) ltac:(lia)).
  destruct (Z.lt_ge_cases g2 g1) as [Hlt|Hle].
  - destruct (zsplit (i1 + g2) A) as (XY & T & -> & L1 & LT); [lia|].
    destruct (zsplit (i1 - i2) XY) as (X & Y & -> & LX & LY); [lia|].
    rewrite <- !app_assoc in *; apply sub_parts_long; try assumption; try (rewrite zlen_repeat; lia); try lia.
    replace (k - g2) with (zlen T + (k - g1)) in Hm by lia; rewrite Z.pow_add_r, Z.mul_assoc in Hm by lia.
    apply Z.mul_le_mono_pos_r in Hm; [|assumption].
    rewrite app_assoc in HA, Hm; apply Forall_app in HA as [_ HT]; pose proof (wval_bounds _ HT).
    rewrite (wval_app (X ++ Y)) in Hm; pose proof (base_pow_pos (zlen T) ltac:(lia)); nia.
  - destruct (zsplit (i1 - i2) A) as (X & Y & -> & LX & LY); [lia|].
    destruct (zsplit (i2 + g1) B) as (Y2 & T2 & -> & LY2 & LT2); [lia|].
    rewrite <- !app_assoc; apply sub_parts_short; try assumption; try (rewrite zlen_repeat; lia); try lia.
    replace (k - g1) with (zlen T2 + (k - g2)) in Hm by lia; rewrite Z.pow_add_r, Z.mul_assoc in Hm by lia.
    apply Z.mul_le_mono_pos_r in Hm; assumption.
Qed.

(** The difference of a greater operand [big] and a smaller one, which are [a]
    and [b] in some order. *)
Lemma sub_store_spec a b to sg big small sB iB fB VB RB sS iS fS VS RS c1 c2 N :
  wf a -> wf b -> target to -> wf big -> wf small -> N = Z.max (nfrac a) (nfrac b) ->
  side big sB iB fB VB RB -> side small sS iS fS VS RS -> iS <= iB <= len to -> (iB = iS \/ 0 <= fB) ->
  nfrac big <= N -> nfrac small <= N -> cut N small < cut N big ->
  (forall k, cut k big - cut k small = c1 * cut k a + c2 * cut k b) ->
  exists e r, sub_store a b to sg (buf big) sB iB fB (buf small) sS iS fS = Some (e, r) /\
    op_result a b to sg (fun k => cut k big - cut k small) e r /\ (iB + N <= len to -> e = E_DEC_OK).
Proof.
  intros Wa Wb T WB WS EN SB SS Hi Hf HB HS Hlt Hv; pose proof T as [Hl Hb].
  pose proof (nfrac_bounds a Wa); pose proof (nfrac_bounds b Wb).
  pose proof (side_int _ _ _ _ _ _ SB); pose proof (side_int _ _ _ _ _ _ SS).
  pose proof (side_frac _ _ _ _ _ _ SB); pose proof (side_frac _ _ _ _ _ _ SS).
  unfold sub_store; fold (nfrac a) (nfrac b); rewrite <- EN.
  destruct (fix_cases (len to) iB N) as (er & -> & X1 & X2 & X3); [lia|lia|].
  set (k := Z.min N (len to - iB)) in *; assert (0 <= k <= N) as Hk by lia.
  assert ((if er =? E_DEC_OK then (Z.max (frac a) (frac b), fB, fS, iS)
    else (Z.min (Z.max (frac a) (frac b)) (k * DIG_PER_DEC1), Z.min fB k, Z.min fS k, Z.min iS iB))
    = (result_frac a b k, Z.min fB k, Z.min fS k, iS)) as ->.
  { unfold result_frac; rewrite <- EN, (Z.min_l iS) by lia; destruct (Z.eqb_spec er E_DEC_OK) as [Ee|Ne].
    - specialize (X1 Ee); rewrite X1, Z.eqb_refl, !Z.min_l by lia; reflexivity.
    - destruct (X2 Ne); destruct (Z.eqb_spec k N); [lia|reflexivity]. }
  destruct (sub_body_spec big small (buf to) k sB iB fB VB RB sS iS fS VS RS N)
    as (out & post & Lo & La & Ho & Vo & ->); try assumption; try lia; cbn [obind].
  eexists er, _; split; [reflexivity|split; [|exact X3]].
  apply (op_build a b to sg c1 c2); try assumption; try lia; rewrite <- ?EN; auto.
Qed.

(** Subtraction of magnitudes. *)
Lemma do_sub_spec a b to : wf a -> wf b -> target to -> Z.max (nint a) (nint b) <= len to ->
  let N := Z.max (nfrac a) (nfrac b) in
  exists e r, do_sub a b to = Some (e, r) /\
    ((cut N a = cut N b /\ e = E_DEC_OK /\ wf r /\ len r = len to /\ mant r = 0) \/
     (cut N b < cut N a /\ op_result a b to (sign a) (fun k => cut k a - cut k b) e r) \/
     (cut N a < cut N b /\ op_result a b to (negb (sign a)) (fun k => cut k b - cut k a) e r)) /\
    (Z.max (nint a) (nint b) + N <= len to -> e = E_DEC_OK).
Proof.
  intros Wa Wb T Hfit N; pose proof T as [Hl Hb].
  pose proof (nfrac_bounds a Wa) as Fa; pose proof (nfrac_bounds b Wb) as Fb.
  unfold do_sub; destruct (sub_compare_spec a b Wa Wb) as (c & -> & Hc); cbn [obind].
  destruct c as [[[[[[[carry s1] i1] f1] s2] i2] f2]|]; unfold compared in Hc; fold N in Hc.
  - destruct Hc as (V1 & R1 & V2 & R2 & Sa & Sb & Hif & Hcmp).
    pose proof (side_start _ _ _ _ _ _ Sa) as S1; pose proof (side_start _ _ _ _ _ _ Sb) as S2.
    destruct carry.
    + destruct (sub_store_spec a b to (negb (sign a)) b a s2 i2 f2 V2 R2 s1 i1 f1 V1 R1 (-1) 1 N)
        as (e & r & E & Op & Hok); try assumption; try lia.
      exists e, r; split; [exact E|split; [right; right; split; [lia|exact Op]|intros; apply Hok; lia]].
    + destruct (sub_store_spec a b to (sign a) a b s1 i1 f1 V1 R1 s2 i2 f2 V2 R2 1 (-1) N)
        as (e & r & E & Op & Hok); try assumption; try lia.
      exists e, r; split; [exact E|split; [right; left; split; [lia|exact Op]|intros; apply Hok; lia]].
  - destruct (set_zero_wf to T) as (r & -> & Wr & _ & Mr & _ & Lr); cbn [obind].
    exists E_DEC_OK, r; split; [reflexivity|split; [left; auto|auto]].
Qed.

(** ** The numbers *)

(** The number in units of [DIG_BASE ^ -N]. *)
Definition scaled (N : Z) (d : decimal_t) : Z := signed (sign d) (cut N d).

Lemma unit_pos N : 0 <= N -> Z.pos (Z.to_pos (DIG_BASE ^ N)) = DIG_BASE ^ N.
Proof. intros H; apply Z2Pos.id, base_pow_pos, H. Qed.

Lemma signed_mul s z k : signed s (z * k) = signed s z * k.
Proof. destruct s; cbn [signed]; ring. Qed.

(** A number at a finer unit. *)
Lemma Qunit x N k : 0 <= k <= N ->
  x # Z.to_pos (DIG_BASE ^ k) == (x * DIG_BASE ^ (N - k)) # Z.to_pos (DIG_BASE ^ N).
Proof.
  intros H; unfold Qeq; cbn [Qnum Qden]; rewrite !unit_pos by lia.
  rewrite <- Z.mul_assoc, <- Z.pow_add_r by lia; do 2 f_equal; lia.
Qed.

Lemma dec_Q_scaled N d : wf d -> nfrac d <= N -> dec_Q d == scaled N d # Z.to_pos (DIG_BASE ^ N).
Proof.
  intros W HN; pose proof (nfrac_bounds d W); unfold scaled; rewrite cut_exact, signed_mul by assumption.
  apply Qunit; lia.
Qed.

Lemma Qadd_unit x y p : (x # p) + (y # p) == (x + y) # p.
Proof. unfold Qeq, Qplus; cbn [Qnum Qden]; rewrite Pos2Z.inj_mul; ring. Qed.

Lemma Qsub_unit x y p : (x # p) - (y # p) == (x - y) # p.
Proof. unfold Qeq, Qminus, Qplus, Qopp; cbn [Qnum Qden]; rewrite Pos2Z.inj_mul; ring. Qed.

Lemma Qlt_unit x y p : x < y -> (x # p < y # p)%Q.
Proof. intros H; unfold Qlt; cbn [Qnum Qden]; nia. Qed.

(** How far a result with [k] words of fraction is from the exact value [v],
    in units of a finer [N]. *)
Lemma approx_Q r v k N n : wf r -> nfrac r = k -> k <= N -> 0 <= k ->
  Z.abs (signed (sign r) (mant r) * DIG_BASE ^ (N - k) - v) < n * DIG_BASE ^ (N - k) ->
  (Qabs (dec_Q r - (v # Z.to_pos (DIG_BASE ^ N))) < n # Z.to_pos (DIG_BASE ^ k))%Q.
Proof.
  intros W Hk HN H0 H; unfold dec_Q; rewrite Hk, (Qunit _ N k), (Qunit n N k), Qsub_unit by lia.
  unfold Qabs; apply Qlt_unit; exact H.
Qed.

(** Cutting loses less than a unit. *)
Lemma cut_loss d N k : wf d -> nfrac d <= N -> 0 <= k <= N ->
  0 <= cut N d - cut k d * DIG_BASE ^ (N - k) < DIG_BASE ^ (N - k).
Proof.
  intros W HN Hk; rewrite (cut_cut d N k) by assumption; pose proof (base_pow_pos (N - k) ltac:(lia)) as P.
  pose proof (Z.mod_pos_bound (cut N d) (DIG_BASE ^ (N - k)) P); rewrite Z.mod_eq in * by lia; lia.
Qed.

(** What [decimal_add] promises for a sum or a difference [q]: the exact
    number, or with [E_DEC_TRUNCATED] one that is less than two units of its
    last word away, or [E_DEC_OVERFLOW]. *)
Record add_promise (a b to : decimal_t) (q : Q) (e : Z) (r : decimal_t) : Prop := {
  ap_wf : wf r;
  ap_len : len r = len to;
  ap_codes : e = E_DEC_OK \/ e = E_DEC_TRUNCATED \/ e = E_DEC_OVERFLOW;
  ap_exact : e = E_DEC_OK -> dec_Q r == q;
  ap_near : e = E_DEC_TRUNCATED -> (Qabs (dec_Q r - q) < 2 # Z.to_pos (DIG_BASE ^ nfrac r))%Q;
  ap_room : Z.max (nint a) (nint b) + 1 + Z.max (nfrac a) (nfrac b) <= len to -> e = E_DEC_OK
}.

(** A result that computes the magnitude of [scaled k a + scaled k b]. *)
Lemma op_promise a b to s v e r : wf a -> wf b -> op_result a b to s v e r ->
  (forall k, signed s (v k) = signed (sign a) (cut k a) + signed (sign b) (cut k b)) ->
  (Z.max (nint a) (nint b) + 1 + Z.max (nfrac a) (nfrac b) <= len to -> e = E_DEC_OK) ->
  add_promise a b to (dec_Q a + dec_Q b) e r.
Proof.
  intros Wa Wb Op Hv Hroom; set (N := Z.max (nfrac a) (nfrac b)).
  pose proof (nfrac_bounds a Wa); pose proof (nfrac_bounds b Wb).
  pose proof (op_wf _ _ _ _ _ _ _ Op) as Wr; pose proof (nfrac_bounds r Wr).
  pose proof (op_exact _ _ _ _ _ _ _ Op) as X1; pose proof (op_cut _ _ _ _ _ _ _ Op) as X2; fold N in X1, X2.
  assert (signed (sign r) (mant r) = scaled (nfrac r) a + scaled (nfrac r) b) as Er.
  { rewrite (op_sign _ _ _ _ _ _ _ Op), (op_mant _ _ _ _ _ _ _ Op), Hv; reflexivity. }
  split; [exact Wr|apply Op| | | |exact Hroom].
  - destruct (Z.eq_dec e E_DEC_OK) as [He|He]; [auto|destruct (X2 He) as [-> _]; auto].
  - intros He; unfold dec_Q at 1; rewrite Er, (X1 He), (dec_Q_scaled N a), (dec_Q_scaled N b), Qadd_unit by (assumption || lia).
    reflexivity.
  - intros He; destruct X2 as [_ Hlt]; [subst e; discriminate|].
    rewrite (dec_Q_scaled N a), (dec_Q_scaled N b), Qadd_unit by (assumption || lia).
    apply approx_Q; [exact Wr|reflexivity|lia|lia|]; rewrite Er; unfold scaled.
    pose proof (cut_loss a N (nfrac r) Wa ltac:(lia) ltac:(lia)) as La.
    pose proof (cut_loss b N (nfrac r) Wb ltac:(lia) ltac:(lia)) as Lb.
    pose proof (base_pow_pos (N - nfrac r) ltac:(lia)); destruct (sign a), (sign b); cbn [signed]; lia.
Qed.

Lemma decimal_add_spec a b to : wf a -> wf b -> target to -> len a <= len to -> len b <= len to ->
  exists e r, decimal_add a b to = Some (e, r) /\ add_promise a b to (dec_Q a + dec_Q b) e r.
Proof.
  intros Wa Wb T Ha Hb; pose proof (wf_fits _ Wa); pose proof (wf_fits _ Wb).
  pose proof (nfrac_bounds a Wa); pose proof (nfrac_bounds b Wb); unfold decimal_add.
  destruct (Bool.eqb_spec (sign a) (sign b)) as [Es|Ns].
  - destruct (do_add_spec a b to Wa Wb T) as (e & r & E & [(-> & Ho & Wr & _ & _ & Lr & _)|Op] & Hok);
      exists e, r || exists E_DEC_OVERFLOW, r; split; try exact E.
    + split; auto; discriminate.
    + apply (op_promise _ _ _ _ _ _ _ Wa Wb Op); [|exact Hok].
      intros k; rewrite <- Es; destruct (sign a); cbn [signed]; ring.
  - assert (sign b = negb (sign a)) as Eb by (destruct (sign a), (sign b); congruence || reflexivity).
    set (N := Z.max (nfrac a) (nfrac b)).
    destruct (do_sub_spec a b to Wa Wb T ltac:(lia)) as (e & r & E & C & Hok); fold N in C, Hok.
    exists e, r; split; [exact E|]; destruct C as [(Eq & -> & Wr & Lr & Mr)|[(_ & Op)|(_ & Op)]].
    + split; auto; try discriminate; intros _.
      rewrite (dec_Q_scaled N a), (dec_Q_scaled N b), Qadd_unit by (assumption || lia).
      unfold dec_Q, scaled, Qeq; rewrite Mr, Eq, Eb; cbn [Qnum Qden]; destruct (sign a), (sign r); cbn [signed negb]; lia.
    + apply (op_promise _ _ _ _ _ _ _ Wa Wb Op); [|intros; apply Hok; lia].
      intros k; rewrite Eb; destruct (sign a); cbn [signed negb]; ring.
    + apply (op_promise _ _ _ _ _ _ _ Wa Wb Op); [|intros; apply Hok; lia].
      intros k; rewrite Eb; destruct (sign a); cbn [signed negb]; ring.
Qed.

Lemma negate_wf d : wf d -> wf (negate d) /\ dec_Q (negate d) == - dec_Q d.
Proof.
  intros W; split; [destruct W; split; assumption|].
  change (dec_Q (negate d)) with (signed (negb (sign d)) (mant d) # Z.to_pos (DIG_BASE ^ nfrac d)).
  unfold dec_Q, Qopp, Qeq; cbn [Qnum Qden]; destruct (sign d); cbn [signed negb]; lia.
Qed.

(** Subtraction is addition of the negated operand. *)
Lemma decimal_sub_add a b to : decimal_sub a b to = decimal_add a (negate b) to.
Proof.
  unfold decimal_sub, decimal_add; cbn [negate set_sign sign]; destruct (sign a), (sign b); reflexivity.
Qed.

(** C4. Adding or subtracting two decimals never leaves a buffer and gives a
    well-formed decimal: the exact sum or difference when it reports no error
    (always if the buffer has room for a carry), a number less than two units
    of its last word away when it reports truncation. *)
Theorem decimal_add_sub_correct a b to : wf a -> wf b -> target to -> len a <= len to -> len b <= len to ->
  (exists e r, decimal_add a b to = Some (e, r) /\ add_promise a b to (dec_Q a + dec_Q b) e r) /\
  (exists e r, decimal_sub a b to = Some (e, r) /\ add_promise a b to (dec_Q a - dec_Q b) e r).
Proof.
  intros Wa Wb T Ha Hb; split; [apply decimal_add_spec; assumption|].
  destruct (negate_wf b Wb) as [Wn En]; rewrite decimal_sub_add.
  destruct (decimal_add_spec a (negate b) to Wa Wn T Ha Hb) as (e & r & E & P).
  exists e, r; split; [exact E|]; destruct P as [P1 P2 P3 P4 P5 P6]; split; auto.
  - intros He; rewrite (P4 He), En; reflexivity.
  - intros He; specialize (P5 He); rewrite En in P5; exact P5.
Qed.

(** 999999999.5 and -0.75 with a buffer of nine words. *)
Definition ex_a : decimal_t := mkDecimal 9 1 9 false [999999999; 500000000; 0; 0; 0; 0; 0; 0; 0].
Definition ex_b : decimal_t := mkDecimal 1 2 9 true [0; 750000000; 0; 0; 0; 0; 0; 0; 0].

Lemma decimal_add_sub_correct_witness :
  (exists e r, decimal_add ex_a ex_b (Decimal_init 0 0 false) = Some (e, r) /\
     add_promise ex_a ex_b (Decimal_init 0 0 false) (dec_Q ex_a + dec_Q ex_b) e r) /\
  (exists e r, decimal_sub ex_a ex_b (Decimal_init 0 0 false) = Some (e, r) /\
     add_promise ex_a ex_b (Decimal_init 0 0 false) (dec_Q ex_a - dec_Q ex_b) e r).
Proof.
  apply (decimal_add_sub_correct ex_a ex_b (Decimal_init 0 0 false));
    [apply wf_b_correct; vm_compute; reflexivity|apply wf_b_correct; vm_compute; reflexivity
    |split; reflexivity|discriminate|discriminate].
Defined.

(** ** Comparison *)

Definition cmp_code (c : comparison) : Z := match c with Lt => -1 | Eq => 0 | Gt => 1 end.

Lemma dec_Q_compare a b N : wf a -> wf b -> nfrac a <= N -> nfrac b <= N ->
  (dec_Q a ?= dec_Q b)%Q = (scaled N a ?= scaled N b).
Proof.
  intros Wa Wb Ha Hb; rewrite (dec_Q_scaled N a Wa Ha), (dec_Q_scaled N b Wb Hb).
  unfold Qcompare; cbn [Qnum Qden]; symmetry; apply Zmult_compare_compat_r; reflexivity.
Qed.

Lemma cut_pos d N : wf d -> nfrac d <= N -> neg_zero d = false -> sign d = true -> 0 < cut N d.
Proof.
  intros W HN Hz Hs; unfold neg_zero in Hz; rewrite Hs in Hz; cbn [andb] in Hz; pose proof (mant_bounds d W).
  rewrite cut_exact by assumption; pose proof (base_pow_pos (N - nfrac d) ltac:(lia)); nia.
Qed.

Lemma cut_nonneg d N : wf d -> 0 <= N -> 0 <= cut N d.
Proof.
  intros W HN; pose proof (mant_bounds d W); pose proof (nfrac_bounds d W); apply Z.div_pos.
  - pose proof (base_pow_pos N HN); nia.
  - apply base_pow_pos; lia.
Qed.

(** C26. The comparison of two decimals is the order of the numbers that they
    denote, unless one of them is a zero with a minus sign. *)
Theorem decimal_cmp_correct a b : wf a -> wf b -> neg_zero a = false -> neg_zero b = false ->
  decimal_cmp a b = Some (cmp_code (dec_Q a ?= dec_Q b)%Q).
Proof.
  intros Wa Wb Za Zb; set (N := Z.max (nfrac a) (nfrac b)).
  pose proof (nfrac_bounds a Wa); pose proof (nfrac_bounds b Wb).
  pose proof (cut_nonneg a N Wa ltac:(lia)); pose proof (cut_nonneg b N Wb ltac:(lia)).
  rewrite (dec_Q_compare a b N) by (assumption || lia); unfold decimal_cmp, scaled.
  destruct (sign a) eqn:Sa, (sign b) eqn:Sb; cbn [eqb andb negb signed].
  2: { pose proof (cut_pos a N Wa ltac:(lia) Za Sa); rewrite (proj2 (Z.compare_lt_iff _ _)) by lia; reflexivity. }
  2: { pose proof (cut_pos b N Wb ltac:(lia) Zb Sb); rewrite (proj2 (Z.compare_gt_iff _ _)) by lia; reflexivity. }
  all: unfold do_sub_cmp; destruct (sub_compare_spec a b Wa Wb) as (c & -> & Hc); cbn [obind];
    unfold compared in Hc; fold N in Hc; rewrite ?Z.compare_opp;
    destruct c as [[[[[[[[] s1] i1] f1] s2] i2] f2]|];
    [destruct Hc as (V1 & R1 & V2 & R2 & _ & _ & _ & Hc & _)..|]; rewrite ?Sa; cbn [eqb].
  all: (rewrite (proj2 (Z.compare_lt_iff _ _)) by lia) || (rewrite (proj2 (Z.compare_gt_iff _ _)) by lia)
    || (rewrite Hc, Z.compare_refl); reflexivity.
Qed.

Lemma decimal_cmp_correct_witness :
  decimal_cmp ex_a ex_b = Some (cmp_code (dec_Q ex_a ?= dec_Q ex_b)%Q) /\
  cmp_code (dec_Q ex_a ?= dec_Q ex_b)%Q = 1.
Proof.
  split; [apply (decimal_cmp_correct ex_a ex_b);
    [apply wf_b_correct; vm_compute; reflexivity|apply wf_b_correct; vm_compute; reflexivity|vm_compute; reflexivity..]
  |vm_compute; reflexivity].
Defined.

(** A zero with a minus sign compares below zero, although both denote the
    same number. *)
Theorem negative_zero_below_zero : exists a b, wf a /\ wf b /\ dec_Q a == dec_Q b /\
  decimal_cmp a b = Some (-1).
Proof.
  exists (mkDecimal 1 0 9 true (repeat 0 9)), (mkDecimal 1 0 9 false (repeat 0 9)).
  split; [apply wf_b_correct; vm_compute; reflexivity|split; [apply wf_b_correct; vm_compute; reflexivity|]].
  split; vm_compute; reflexivity.
Qed.

(** The sum of two negative numbers that overflows is the greatest positive
    number: [do_add] clears the sign. *)
Lemma add_overflow_loses_sign : exists a r, wf a /\ sign a = true /\
  class_decimal_add (Decimal_init 0 0 false) a a = Some (E_DEC_OVERFLOW, r) /\ sign r = false.
Proof.
  eexists (mkDecimal 81 0 9 true (repeat DIG_MAX 9)), _.
  split; [apply wf_b_correct; vm_compute; reflexivity|split; [reflexivity|split; vm_compute; reflexivity]].
Qed.
