(* ===== verification/DecMul.v ===== *)
(** Multiplication of decimals: [decimal_mul] of
    [src/drizzled/type/decimal.cc].

    The product is accumulated word by word in the buffer of the result.  A
    row of it is a function on lists ([mulrow]), which computes
    [T + x * Y + c]; the loop over the rows then adds up the product of the
    two numbers. *)

From Stdlib Require Import ZArith Lia ZifyBool List Bool QArith.
From S2P Require Import Prelude Words Decimal DecArith.
Import ListNotations.
Local Open Scope Z_scope.
Local Open Scope fail_scope.

(** ** Model *)

(** src/drizzled/type/decimal.cc:2189-2197 decimal_mul

    The inner loop over [n] words of the second factor: the result, the
    position below the row, and the carry. *)
Fixpoint mul_inner (n : nat) (x : Z) (b2 t : list Z) (p0 p2 carry : Z) : option (list Z * Z * Z) :=
  match n with
  | O => Some (t, p0, carry)
  | S n' =>
      let? y := rd b2 p2 in
      let p := i64 (x * y) in
      let hi := i32 (p ÷ DIG_BASE) in
      let lo := i32 (i64 (p - i64 (hi * DIG_BASE))) in
      let? w := rd t p0 in
      let '(w, carry) := add2 w lo carry in
      let? t := wr t p0 w in
      mul_inner n' x b2 t (p0 - 1) (p2 - 1) (i32 (carry + hi))
  end.

(** src/drizzled/type/decimal.cc:2204-2209 decimal_mul

    The carry through the words above; [true] is the return on overflow.  The
    position falls with every word, which bounds the loop. *)
Fixpoint mul_carry (fuel : nat) (t : list Z) (p0 carry : Z) : option (bool * list Z) :=
  match fuel with
  | O => None
  | S fuel' =>
      if carry =? 0 then Some (false, t)
      else if p0 <? 0 then Some (true, t)
      else
        let? w := rd t p0 in
        let '(w, carry) := add w 0 carry in
        let? t := wr t p0 w in
        mul_carry fuel' t (p0 - 1) carry
  end.

(** src/drizzled/type/decimal.cc:2198-2209 decimal_mul

    The carry of a row into the word above it, and on. *)
Definition mul_up (t : list Z) (p0 carry : Z) : option (bool * list Z) :=
  if carry =? 0 then mul_carry (S (S (Z.to_nat (p0 + 1)))) t (p0 - 1) carry
  else if p0 <? 0 then Some (true, t)
  else
    let? w := rd t p0 in
    let '(w, carry) := add2 w 0 carry in
    let? t := wr t p0 w in
    mul_carry (S (S (Z.to_nat (p0 + 1)))) t (p0 - 1) carry.

(** src/drizzled/type/decimal.cc:2188-2209 decimal_mul

    One row: the product of the word [x] and the [n] words that end at [p2]. *)
Definition mul_row (n : nat) (x : Z) (b2 t : list Z) (p0 p2 : Z) : option (bool * list Z) :=
  let? (t, p0, carry) := mul_inner n x b2 t p0 p2 0 in mul_up t p0 carry.

(** src/drizzled/type/decimal.cc:2186-2210 decimal_mul

    The rows of the [n1] words of the first factor that end at [p1]. *)
Fixpoint mul_rows (n1 n2 : nat) (b1 b2 t : list Z) (p0 p1 p2 : Z) : option (bool * list Z) :=
  match n1 with
  | O => Some (false, t)
  | S n1' =>
      let? x := rd b1 p1 in
      let? (overflow, t) := mul_row n2 x b2 t p0 p2 in
      if (overflow : bool) then Some (true, t)
      else mul_rows n1' n2 b1 b2 t (p0 - 1) (p1 - 1) p2
  end.

(** src/drizzled/type/decimal.cc:2232-2237 decimal_mul

    The position of the first word to keep, the digits before the point and
    the words to move; the digits fall with every word. *)
Fixpoint mul_strip (fuel : nat) (t : list Z) (p intg d_to_move : Z) : option (Z * Z * Z) :=
  match fuel with
  | O => None
  | S fuel' =>
      let? w := rd t p in
      if (w =? 0) && (intg >? DIG_PER_DEC1)
      then mul_strip fuel' t (p + 1) (intg - DIG_PER_DEC1) (d_to_move - 1)
      else Some (p, intg, d_to_move)
  end.

(** src/drizzled/type/decimal.cc:2240-2242 decimal_mul *)
Fixpoint move_up (n : nat) (t : list Z) (cur_d p : Z) : option (list Z) :=
  match n with
  | O => Some t
  | S n' =>
      let? w := rd t p in
      let? t := wr t cur_d w in
      move_up n' t (cur_d + 1) (p + 1)
  end.

(** src/drizzled/type/decimal.cc:2212-2243 decimal_mul

    After the rows: no minus sign for zero, and no leading words of zero.  A
    product without words and with a minus sign fails the assertion. *)
Definition mul_finish (to : decimal_t) (intg0 frac0 : Z) : option decimal_t :=
  let? to :=
    if sign to then
      if intg0 + frac0 =? 0 then None
      else
        let? z := all_zero (Z.to_nat (intg0 + frac0)) (buf to) 0 in
        if z then set_zero to else Some to
    else Some to in
  let? (p, intg1, d_to_move) :=
    mul_strip (S (Z.to_nat (intg to))) (buf to) 0 (intg to) (intg0 + round_up (frac to)) in
  let? t := if 0 <? p then move_up (Z.to_nat d_to_move) (buf to) 0 p else Some (buf to) in
  Some (mkDecimal intg1 (frac to) (len to) (sign to) t).

(** src/drizzled/type/decimal.cc:2141-2245 decimal_mul *)
Definition decimal_mul (from1 from2 to : decimal_t) : option (Z * decimal_t) :=
  let intg1 := round_up (intg from1) in
  let intg2 := round_up (intg from2) in
  let frac1 := round_up (frac from1) in
  let frac2 := round_up (frac from2) in
  let i := round_up (intg from1 + intg from2) in
  let j := frac1 + frac2 in
  let buf1 := intg1 in
  let buf2 := intg2 in
  let '(intg0, frac0, error) := fix_intg_frac_error (len to) i j in
  let to_sign := xorb (sign from1) (sign from2) in
  let to_frac := frac from1 + frac from2 in
  let to_intg := intg0 * DIG_PER_DEC1 in
  let '(to_frac, to_intg, intg1, intg2, frac1, frac2) :=
    if error =? E_DEC_OK then (to_frac, to_intg, intg1, intg2, frac1, frac2)
    else
      let to_frac := Z.min to_frac (frac0 * DIG_PER_DEC1) in
      let to_intg := Z.min to_intg (intg0 * DIG_PER_DEC1) in
      if i >? intg0 then
        let i := i - intg0 in
        let j := Z.shiftr i 1 in
        (to_frac, to_intg, intg1 - j, intg2 - (i - j), 0, 0)
      else
        let j := j - frac0 in
        let i := Z.shiftr j 1 in
        (to_frac, to_intg, intg1, intg2, frac1 - i, frac2 - (j - i)) in
  let start0 := intg0 + frac0 - 1 in
  let start2 := buf2 + frac2 - 1 in
  let stop1 := buf1 - intg1 in
  let stop2 := buf2 - intg2 in
  let? (t, _) := fill_up (Z.to_nat (intg0 + frac0)) 0 (buf to) 0 in
  let p1 := buf1 + (frac1 - 1) in
  let? (overflow, t) :=
    mul_rows (Z.to_nat (p1 - stop1 + 1)) (Z.to_nat (start2 - stop2 + 1))
      (buf from1) (buf from2) t start0 p1 start2 in
  let to := mkDecimal to_intg to_frac (len to) to_sign t in
  if (overflow : bool) then Some (E_DEC_OVERFLOW, to)
  else let? r := mul_finish to intg0 frac0 in Some (error, r).

(** src/drizzled/type/decimal.h:389-396 class_decimal_mul *)
Definition class_decimal_mul (res a b : decimal_t) : option (Z * decimal_t) :=
  check_result_and_overflow (decimal_mul a b res).

(** ** Rows *)

Lemma add2_ok x y c : word_ok x -> word_ok y -> word_ok c ->
  exists w c', add2 x y c = (w, c') /\ word_ok w /\ 0 <= c' <= 2 /\ w + c' * DIG_BASE = x + y + c.
Proof.
  unfold word_ok, digit_ok, add2, DIG_BASE; intros Hx Hy Hc; unwrap.
  rewrite Z.geb_leb; destruct (Z.leb_spec 1000000000 (x + y + c)); unwrap;
    rewrite Z.geb_leb; case_if; unwrap; eexists _, _; (split; [reflexivity|lia]).
Qed.

(** One word of a row. *)
Definition mulstep (x y w c : Z) : Z * Z :=
  let p := i64 (x * y) in
  let hi := i32 (p ÷ DIG_BASE) in
  let lo := i32 (i64 (p - i64 (hi * DIG_BASE))) in
  let '(w, c) := add2 w lo c in (w, i32 (c + hi)).

Lemma mulstep_ok x y w c : word_ok x -> word_ok y -> word_ok w -> word_ok c ->
  exists w' c', mulstep x y w c = (w', c') /\ word_ok w' /\ word_ok c' /\
    w' + c' * DIG_BASE = w + x * y + c.
Proof.
  intros Hx Hy Hw Hc; unfold mulstep.
  assert (0 <= x * y <= 999999998000000001) as Hp by (unfold word_ok, digit_ok, DIG_BASE in *; nia).
  rewrite (i64_small (x * y)) by lia; rewrite Z.quot_div_nonneg by (unfold DIG_BASE; lia).
  set (p := x * y) in *; clearbody p.
  assert (0 <= p / DIG_BASE <= 999999998) as Hh by (unfold DIG_BASE; dlia).
  rewrite (i32_small (p / DIG_BASE)) by lia; rewrite (i64_small (p / DIG_BASE * DIG_BASE)) by (unfold DIG_BASE in *; lia).
  assert (p - p / DIG_BASE * DIG_BASE = p mod DIG_BASE) as -> by (unfold DIG_BASE; dlia).
  pose proof (Z.mod_pos_bound p DIG_BASE ltac:(reflexivity)) as Hl.
  rewrite (i64_small (p mod DIG_BASE)), i32_small by (unfold DIG_BASE in *; lia).
  destruct (add2_ok w (p mod DIG_BASE) c Hw Hl Hc) as (w' & c' & -> & Hw' & Hc' & E).
  pose proof (Z.div_mod p DIG_BASE ltac:(discriminate)) as D.
  unfold word_ok, digit_ok, DIG_BASE in *; rewrite i32_small by lia.
  eexists _, _; split; [reflexivity|]; lia.
Qed.

(** A row as a function on lists: [T + x * Y + c]. *)
Fixpoint mulrow (x : Z) (Y T : list Z) (c : Z) : list Z * Z :=
  match Y, T with
  | y :: Y', w :: T' =>
      let '(r, c) := mulrow x Y' T' c in
      let '(w, c) := mulstep x y w c in (w :: r, c)
  | _, _ => ([], c)
  end.

Lemma mulrow_spec x Y : forall T c, word_ok x -> Forall word_ok Y -> Forall word_ok T ->
  zlen Y = zlen T -> word_ok c ->
  exists r c', mulrow x Y T c = (r, c') /\ zlen r = zlen T /\ Forall word_ok r /\ word_ok c' /\
    wval r + c' * DIG_BASE ^ zlen T = wval T + x * wval Y + c.
Proof.
  induction Y as [|y Y IH]; intros [|w T] c Hx HY HT L Hc; try (exfalso; llia).
  - exists [], c; change (DIG_BASE ^ zlen []) with 1; change (wval []) with 0.
    repeat split; [apply Forall_nil|apply Hc|apply Hc|lia].
  - apply Forall_cons_iff in HY as [Hy HY], HT as [Hw HT].
    destruct (IH T c Hx HY HT ltac:(llia) Hc) as (r & c1 & E & Lr & Hr & Hc1 & V).
    destruct (mulstep_ok x y w c1 Hx Hy Hw Hc1) as (w' & c2 & Es & Hw' & Hc2 & Vs).
    exists (w' :: r), c2; cbn [mulrow]; rewrite E, Es; split; [reflexivity|].
    split; [llia|split; [apply Forall_cons; assumption|split; [exact Hc2|]]].
    rewrite !wval_cons, Lr, zlen_cons, Z.pow_add_r, Z.pow_1_r by llia.
    replace (zlen Y) with (zlen T) by llia; pose proof (base_pow_pos (zlen T) ltac:(llia)); nia.
Qed.

Lemma mulrow_snoc x Y : forall T y w c, List.length Y = List.length T ->
  mulrow x (Y ++ [y]) (T ++ [w]) c
  = let '(w, c) := mulstep x y w c in let '(r, c) := mulrow x Y T c in (r ++ [w], c).
Proof.
  induction Y as [|y1 Y IH]; intros [|w1 T] y w c L; try discriminate L.
  - cbn; destruct (mulstep x y w c); reflexivity.
  - cbn [app mulrow]; rewrite IH by (injection L; auto); destruct (mulstep x y w c) as [w' c1].
    destruct (mulrow x Y T c1) as [r c2]; destruct (mulstep x y1 w1 c2); reflexivity.
Qed.

Lemma mul_inner_eq n : forall x Y T pre post pre2 post2 p0 p2 c,
  zlen Y = Z.of_nat n -> zlen T = Z.of_nat n ->
  p0 = zlen pre + Z.of_nat n - 1 -> p2 = zlen pre2 + Z.of_nat n - 1 ->
  mul_inner n x (pre2 ++ Y ++ post2) (pre ++ T ++ post) p0 p2 c
  = let '(r, c') := mulrow x Y T c in Some (pre ++ r ++ post, zlen pre - 1, c').
Proof.
  induction n as [|n IH]; intros x Y T pre post pre2 post2 p0 p2 c LY LT -> ->.
  - rewrite (zlen_zero Y), (zlen_zero T) by lia; cbn; rewrite !Z.add_0_r; reflexivity.
  - snoc Y as Y0 y; snoc T as T0 w; autorewrite with zlen in *.
    rewrite mulrow_snoc by (apply Nat2Z.inj; change (zlen Y0 = zlen T0); lia).
    cbn [mul_inner]; regroup (pre2 ++ (Y0 ++ [y]) ++ post2) ((pre2 ++ Y0) ++ y :: post2).
    regroup (pre ++ (T0 ++ [w]) ++ post) ((pre ++ T0) ++ w :: post).
    rewrite rd_at by llia; cbn [obind]; rewrite rd_at by llia; cbn [obind].
    unfold mulstep; cbv zeta; destruct (add2 w _ c) as [w' c1]; rewrite wr_at by llia; cbn [obind].
    rewrite <- !app_assoc; rewrite IH by llia.
    destruct (mulrow x Y0 T0 _) as [r c2]; rewrite <- app_assoc; reflexivity.
Qed.

(** A carry that goes up through the words [U]; [true] if it leaves them. *)
Lemma mul_carry_spec fuel : forall U post c, (Z.to_nat (zlen U) < fuel)%nat -> Forall word_ok U -> 0 <= c <= 1 ->
  exists f U', mul_carry (S fuel) (U ++ post) (zlen U - 1) c = Some (f, U' ++ post) /\ zlen U' = zlen U /\
    Forall word_ok U' /\ wval U' + (if f then DIG_BASE ^ zlen U else 0) = wval U + c.
Proof.
  induction fuel as [|fuel IH]; intros U post c Hf HU Hc; [lia|].
  cbn [mul_carry]; destruct (Z.eqb_spec c 0) as [->|Hc0]; [exists false, U; split; auto|].
  destruct (Z.ltb_spec (zlen U - 1) 0) as [Hz|Hp].
  - exists true, U; rewrite (zlen_zero U) by llia; change (DIG_BASE ^ zlen []) with 1.
    repeat split; [apply Forall_nil|cbn; lia].
  - snoc U as V u; apply Forall_app in HU as [HV Hu]; apply Forall_inv in Hu; rewrite zlen_app in *.
    change (zlen [u]) with 1 in *; rewrite <- app_assoc; cbn [app]; rewrite rd_at by lia; cbn [obind].
    destruct (add_ok u 0 c Hu ltac:(unfold word_ok, digit_ok, DIG_BASE; lia) Hc) as (w & c1 & -> & Hw & Hc1 & Ea).
    rewrite wr_at by lia; cbn [obind].
    destruct (IH V (w :: post) c1) as (f & U' & E & L & HU' & V'); [lia|exact HV|exact Hc1|].
    replace (zlen V + 1 - 1 - 1) with (zlen V - 1) by lia; cbn [mul_carry] in E; rewrite E.
    exists f, (U' ++ [w]); rewrite <- app_assoc; split; [reflexivity|].
    split; [rewrite zlen_app; change (zlen [w]) with 1; lia|].
    split; [apply Forall_app; split; [exact HU'|apply Forall_cons; [exact Hw|apply Forall_nil]]|].
    unfold wval in *; rewrite !bval_snoc, Z.pow_add_r, Z.pow_1_r by llia; destruct f; nia.
Qed.

Lemma mul_up_spec U post c : Forall word_ok U -> word_ok c ->
  exists f U', mul_up (U ++ post) (zlen U - 1) c = Some (f, U' ++ post) /\ zlen U' = zlen U /\
    (f = false -> Forall word_ok U' /\ wval U' = wval U + c) /\
    (f = true -> DIG_BASE ^ zlen U <= wval U + c).
Proof.
  intros HU Hc; unfold mul_up; destruct (Z.eqb_spec c 0) as [->|Hc0].
  { exists false, U; cbn [mul_carry]; rewrite Z.add_0_r; repeat split; auto; discriminate. }
  destruct (Z.ltb_spec (zlen U - 1) 0) as [Hz|Hp].
  - exists true, U; rewrite (zlen_zero U) by llia; change (DIG_BASE ^ zlen []) with 1.
    repeat split; try discriminate; intros _; unfold word_ok, digit_ok in Hc; change (wval []) with 0; lia.
  - snoc U as V u; apply Forall_app in HU as [HV Hu]; apply Forall_inv in Hu; rewrite zlen_app in *.
    change (zlen [u]) with 1 in *; rewrite <- app_assoc; cbn [app]; rewrite rd_at by lia; cbn [obind].
    destruct (add2_ok u 0 c Hu ltac:(unfold word_ok, digit_ok, DIG_BASE; lia) Hc) as (w & c1 & -> & Hw & Hc1 & Ea).
    rewrite wr_at by lia; cbn [obind].
    destruct (mul_carry_spec (S (Z.to_nat (zlen V + 1 - 1 + 1))) V (w :: post) c1) as (f & V' & E & L & HV' & VV);
      [lia|exact HV|unfold word_ok, digit_ok, DIG_BASE in *; lia|].
    replace (zlen V + 1 - 1 - 1) with (zlen V - 1) by lia; rewrite E.
    exists f, (V' ++ [w]); rewrite <- app_assoc, zlen_app, L; split; [reflexivity|split; [reflexivity|]].
    unfold wval in *; rewrite !bval_snoc, Z.pow_add_r, Z.pow_1_r by llia.
    unfold word_ok, digit_ok in Hw; pose proof (wval_bounds _ HV') as B; unfold wval in B.
    split; intros ->; [split; [|nia]|nia].
    apply Forall_app; split; [exact HV'|apply Forall_cons; [exact Hw|apply Forall_nil]].
Qed.

(** One row adds [x * Y], shifted by the [k] words of the rows before it. *)
Lemma mul_row_spec x Y W post pre2 post2 k p0 p2 : word_ok x -> Forall word_ok Y -> Forall word_ok W ->
  0 <= k -> k + zlen Y <= zlen W -> p0 = zlen W - k - 1 -> p2 = zlen pre2 + zlen Y - 1 ->
  exists f W', mul_row (Z.to_nat (zlen Y)) x (pre2 ++ Y ++ post2) (W ++ post) p0 p2 = Some (f, W' ++ post) /\
    zlen W' = zlen W /\
    (f = false -> Forall word_ok W' /\ wval W' = wval W + x * wval Y * DIG_BASE ^ k) /\
    (f = true -> DIG_BASE ^ zlen W <= wval W + x * wval Y * DIG_BASE ^ k).
Proof.
  intros Hx HY HW Hk Hl -> ->; pose proof (zlen_nonneg Y).
  destruct (zsplit (zlen W - k) W) as (UT & Low & -> & LUT & LL); [lia|].
  destruct (zsplit (zlen UT - zlen Y) UT) as (U & T & -> & LU & LT); [lia|].
  apply Forall_app in HW as [HW HL]; apply Forall_app in HW as [HU HT].
  unfold mul_row; regroup (((U ++ T) ++ Low) ++ post) (U ++ T ++ Low ++ post).
  rewrite mul_inner_eq by llia.
  destruct (mulrow_spec x Y T 0) as (r & c & -> & Lr & Hr & Hc & Vr); try assumption;
    [llia|unfold word_ok, digit_ok, DIG_BASE; lia|]; cbn [obind].
  destruct (mul_up_spec U (r ++ Low ++ post) c HU Hc) as (f & U' & -> & LU' & Ff & Ft).
  exists f, (U' ++ r ++ Low); rewrite <- !app_assoc; split; [reflexivity|split; [llia|]].
  pose proof (base_pow_pos (zlen T) ltac:(llia)); pose proof (base_pow_pos k Hk).
  assert (x * wval Y = wval r + c * DIG_BASE ^ zlen T - wval T) as -> by lia.
  rewrite !wval_app, !zlen_app, !Z.pow_add_r, Lr by llia; replace (zlen Low) with k by llia.
  pose proof (wval_bounds _ HL); pose proof (wval_bounds _ Hr); split; intros Hf.
  - destruct (Ff Hf) as [HU' ->]; split; [repeat (apply Forall_app; split); assumption|ring].
  - specialize (Ft Hf); assert (0 <= wval r * DIG_BASE ^ k) by nia.
    pose proof (Z.mul_le_mono_nonneg_r _ _ (DIG_BASE ^ zlen T * DIG_BASE ^ k) ltac:(nia) Ft); lia.
Qed.

(** The rows add up the product of the words, unless it is too large. *)
Lemma mul_rows_spec n : forall X S Y W post pre1 post1 pre2 post2 p0 p1 p2,
  Forall word_ok (X ++ S) -> Forall word_ok Y -> Forall word_ok W -> zlen X = Z.of_nat n ->
  zlen X + zlen S + zlen Y <= zlen W + 1 -> p0 = zlen W - zlen S - 1 ->
  p1 = zlen pre1 + Z.of_nat n - 1 -> p2 = zlen pre2 + zlen Y - 1 ->
  wval W = wval S * wval Y ->
  exists f W', mul_rows n (Z.to_nat (zlen Y)) (pre1 ++ (X ++ S) ++ post1) (pre2 ++ Y ++ post2) (W ++ post) p0 p1 p2
    = Some (f, W' ++ post) /\ zlen W' = zlen W /\
    (f = false -> Forall word_ok W' /\ wval W' = wval (X ++ S) * wval Y) /\
    (f = true -> DIG_BASE ^ zlen W <= wval (X ++ S) * wval Y).
Proof.
  induction n as [|n IH]; intros X S Y W post pre1 post1 pre2 post2 p0 p1 p2 HXS HY HW LX Hl -> -> -> EW.
  - rewrite (zlen_zero X) by lia; cbn [mul_rows app]; exists false, W; repeat split; auto; discriminate.
  - snoc X as X0 x; cbn [mul_rows].
    regroup (pre1 ++ ((X0 ++ [x]) ++ S) ++ post1) ((pre1 ++ X0) ++ x :: S ++ post1).
    rewrite rd_at by llia; cbn [obind].
    rewrite <- app_assoc in HXS; pose proof HXS as [HX0 HxS]%Forall_app; apply Forall_cons_iff in HxS as [Hx HS].
    pose proof (zlen_nonneg S); pose proof (zlen_nonneg X0).
    destruct (mul_row_spec x Y W post pre2 post2 (zlen S) (zlen W - zlen S - 1) (zlen pre2 + zlen Y - 1))
      as (f & W1 & -> & L1 & Ff & Ft); try assumption; try llia; cbn [obind].
    pose proof (wval_bounds _ HX0); pose proof (wval_bounds _ HY).
    destruct f.
    + exists true, W1; rewrite <- app_assoc; cbn [app]; repeat split; [exact L1|discriminate|discriminate|intros _].
      specialize (Ft eq_refl); rewrite wval_app; rewrite EW in Ft; cbn [app]; rewrite wval_cons.
      pose proof (base_pow_pos (zlen (x :: S)) ltac:(llia)).
      assert (0 <= wval X0 * DIG_BASE ^ zlen (x :: S) * wval Y) by nia; lia.
    + destruct (Ff eq_refl) as [HW1 E1].
      regroup ((X0 ++ [x]) ++ S) (X0 ++ x :: S); rewrite <- L1.
      regroup ((pre1 ++ X0) ++ x :: S ++ post1) (pre1 ++ (X0 ++ x :: S) ++ post1).
      apply IH; try assumption; try llia.
      rewrite E1, EW, wval_cons; ring.
Qed.

(** ** The end of the product *)

Lemma mul_strip_spec fuel : forall m pre post D, (Z.to_nat (zlen m) < fuel)%nat -> 0 < zlen m + zlen post ->
  exists z m', m = repeat 0 z ++ m' /\ 
    mul_strip fuel (pre ++ m ++ post) (zlen pre) (zlen m * 9) D
    = Some (zlen pre + Z.of_nat z, zlen m' * 9, D - Z.of_nat z).
Proof.
  induction fuel as [|fuel IH]; intros m pre post D Hf Hp; [lia|]; cbn [mul_strip].
  destruct m as [|w m].
  - destruct post as [|v post]; [llia|]; cbn [app]; rewrite rd_at by reflexivity; cbn [obind].
    rewrite andb_false_r; exists O, []; split; [reflexivity|]; rewrite Z.add_0_r, Z.sub_0_r; reflexivity.
  - cbn [app]; rewrite rd_at by reflexivity; cbn [obind]; rewrite zlen_cons in *; pose proof (zlen_nonneg m).
    destruct (Z.eqb_spec w 0) as [->|Hw]; [destruct (Z.gtb_spec ((zlen m + 1) * 9) DIG_PER_DEC1) as [Hg|Hg]|]; cbn [andb];
      try (exists O; eexists; split; [reflexivity|rewrite zlen_cons, Z.add_0_r, Z.sub_0_r; reflexivity]).
    regroup (pre ++ 0 :: m ++ post) ((pre ++ [0]) ++ m ++ post); unfold DIG_PER_DEC1 in *.
    destruct (IH m (pre ++ [0]) post (D - 1)) as (z & m' & -> & E); [lia|llia|].
    exists (S z), m'; split; [reflexivity|].
    rewrite zlen_app in E at 1 2; change (zlen [0]) with 1 in E.
    replace ((zlen (repeat 0 z ++ m') + 1) * 9 - 9) with (zlen (repeat 0 z ++ m') * 9) by lia.
    rewrite E; do 2 f_equal; [f_equal|]; lia.
Qed.

Lemma move_up_eq m : forall A G post, 0 < zlen G ->
  exists G', move_up (List.length m) (A ++ G ++ m ++ post) (zlen A) (zlen A + zlen G) = Some (A ++ m ++ G' ++ post) /\
    zlen G' = zlen G.
Proof.
  induction m as [|x m IH]; intros A G post HG; cbn [List.length move_up].
  - exists G; split; reflexivity.
  - destruct G as [|g G]; [llia|]; regroup (A ++ (g :: G) ++ (x :: m) ++ post) ((A ++ g :: G) ++ x :: m ++ post).
    rewrite rd_at by llia; cbn [obind]; regroup ((A ++ g :: G) ++ x :: m ++ post) (A ++ g :: G ++ x :: m ++ post).
    rewrite wr_at by llia; cbn [obind].
    regroup (A ++ x :: G ++ x :: m ++ post) ((A ++ [x]) ++ (G ++ [x]) ++ m ++ post).
    destruct (IH (A ++ [x]) (G ++ [x]) post ltac:(llia)) as (G' & E & L).
    replace (zlen A + 1) with (zlen (A ++ [x])) by llia.
    replace (zlen A + zlen (g :: G) + 1) with (zlen (A ++ [x]) + zlen (G ++ [x])) by llia.
    rewrite E; exists G'; split; [rewrite <- app_assoc; reflexivity|llia].
Qed.

(** Leading words of zero are removed and the others moved to the front. *)
Lemma mul_finish_spec i f l s out post : 0 <= i -> 0 <= f -> 0 < l -> zlen (out ++ post) = l ->
  zlen out = i + round_up f -> Forall word_ok out -> (10 ^ (9 * round_up f - f) | wval out) ->
  exists r,
    (let? (p, intg1, d_to_move) := mul_strip (S (Z.to_nat (i * 9))) (out ++ post) 0 (i * 9) (i + round_up f) in
     let? t := if 0 <? p then move_up (Z.to_nat d_to_move) (out ++ post) 0 p else Some (out ++ post) in
     Some (mkDecimal intg1 f l s t)) = Some r /\
    wf r /\ frac r = f /\ len r = l /\ sign r = s /\ mant r = wval out.
Proof.
  intros Hi Hf Hl La Lo Ho Hd; pose proof (round_up_bounds f Hf).
  destruct (zsplit i out) as (I & F & -> & LI & LF); [lia|].
  apply Forall_app in Ho as [HI HF].
  destruct (mul_strip_spec (S (Z.to_nat (i * 9))) I [] (F ++ post) (i + round_up f)) as (z & I' & -> & E); [lia|llia|].
  cbn [app] in E; change (zlen (@nil Z)) with 0 in E; rewrite <- (app_assoc _ F post).
  rewrite LI in E; rewrite E; cbn [obind]; rewrite Z.add_0_l; clear E.
  apply Forall_app in HI as [_ HI']; rewrite zlen_app, zlen_repeat in LI.
  assert (Forall word_ok (I' ++ F)) as Hok by (apply Forall_app; auto).
  assert (wval ((repeat 0 z ++ I') ++ F) = wval (I' ++ F)) as EV
    by (rewrite <- app_assoc, (wval_app (repeat 0 z)), wval_zeros; lia).
  rewrite EV in *.
  assert (exists G, (if 0 <? Z.of_nat z then move_up (Z.to_nat (i + round_up f - Z.of_nat z)) ((repeat 0 z ++ I') ++ F ++ post) 0 (Z.of_nat z)
    else Some ((repeat 0 z ++ I') ++ F ++ post)) = Some ((I' ++ F) ++ G ++ post) /\ zlen G = Z.of_nat z) as (G & -> & LG).
  { destruct z as [|z]; [exists []; cbn [repeat app Z.of_nat Z.ltb Z.compare]; rewrite <- app_assoc; auto|].
    replace (0 <? Z.of_nat (S z)) with true by lia.
    destruct (move_up_eq (I' ++ F) [] (repeat 0 (S z)) post) as (G & E & LG); [rewrite zlen_repeat; lia|].
    change (zlen (@nil Z)) with 0 in E; rewrite zlen_repeat, Z.add_0_l in *; cbn [app] in E.
    exists G; split; [|exact LG]; regroup ((repeat 0 (S z) ++ I') ++ F ++ post) (repeat 0 (S z) ++ (I' ++ F) ++ post).
    replace (Z.to_nat (i + round_up f - Z.of_nat (S z))) with (List.length (I' ++ F)); [exact E|].
    apply Nat2Z.inj; change (Z.of_nat (List.length (I' ++ F))) with (zlen (I' ++ F)); llia. }
  cbn [obind]; eexists; split; [reflexivity|].
  assert (zlen (I' ++ F) = zlen I' + round_up f) as Lof by llia.
  rewrite build_mant by (rewrite round_up_mul by llia; exact Lof).
  split; [|auto]; change (zlen I' * 9) with (zlen I' * DIG_PER_DEC1).
  apply build_words_wf; try assumption; llia.
Qed.

(** The words below the fraction of the product are zero. *)
Lemma mul_low_zero a b W : wf a -> wf b -> Forall word_ok W -> wval W = mant a * mant b ->
  let f := frac a + frac b in
  nfrac a + nfrac b - round_up f <= zlen W ->
  exists out low, W = out ++ low /\ zlen low = nfrac a + nfrac b - round_up f /\
    wval out * DIG_BASE ^ zlen low = mant a * mant b /\ (10 ^ (9 * round_up f - f) | wval out).
Proof.
  intros Wa Wb HW EW f Hl; pose proof (nfrac_bounds a Wa); pose proof (nfrac_bounds b Wb).
  pose proof (wf_frac _ Wa); pose proof (wf_frac _ Wb); pose proof (round_up_bounds f ltac:(lia)).
  destruct (wf_tail _ Wa) as (qa & Ea), (wf_tail _ Wb) as (qb & Eb).
  destruct (zsplit (zlen W - (nfrac a + nfrac b - round_up f)) W) as (out & low & -> & Lo & Ll); [lia|].
  exists out, low; split; [reflexivity|split; [lia|]].
  set (g := nfrac a + nfrac b - round_up f) in *; set (h := 9 * round_up f - f) in *.
  assert (mant a * mant b = qa * qb * 10 ^ h * DIG_BASE ^ g) as EP.
  { rewrite Ea, Eb, base_pow by lia.
    transitivity (qa * qb * 10 ^ ((9 * nfrac a - frac a) + (9 * nfrac b - frac b))); [rewrite Z.pow_add_r by lia; ring|].
    replace ((9 * nfrac a - frac a) + (9 * nfrac b - frac b)) with (h + 9 * g) by lia.
    rewrite Z.pow_add_r by lia; ring. }
  replace (zlen low) with g by lia; apply Forall_app in HW as [_ HL].
  assert (wval out = qa * qb * 10 ^ h) as ->.
  { pose proof (bval_div DIG_BASE base_gt1 out low HL : wval (out ++ low) / DIG_BASE ^ zlen low = wval out) as D.
    rewrite EW, EP in D; replace (zlen low) with g in D by lia.
    rewrite Z.div_mul in D by (pose proof (base_pow_pos g); lia); symmetry; exact D. }
  split; [symmetry; exact EP|exists (qa * qb); reflexivity].
Qed.

Lemma product_bound a b : wf a -> wf b ->
  mant a * mant b < DIG_BASE ^ (round_up (intg a + intg b) + (nfrac a + nfrac b)).
Proof.
  intros Wa Wb; pose proof (nfrac_bounds a Wa); pose proof (nfrac_bounds b Wb).
  pose proof (wf_intg _ Wa); pose proof (wf_intg _ Wb); pose proof (wf_lead _ Wa); pose proof (wf_lead _ Wb).
  pose proof (mant_bounds a Wa); pose proof (mant_bounds b Wb); pose proof (round_up_bounds (intg a + intg b) ltac:(lia)).
  rewrite base_pow by lia.
  apply Z.lt_le_trans with (10 ^ (intg a + 9 * nfrac a) * 10 ^ (intg b + 9 * nfrac b)); [nia|].
  rewrite <- Z.pow_add_r by lia; apply Z.pow_le_mono_r; lia.
Qed.

Lemma dec_Q_mul a b r g : wf a -> wf b -> 0 <= g -> 0 <= nfrac r ->
  mant r * DIG_BASE ^ g = mant a * mant b -> nfrac r + g = nfrac a + nfrac b ->
  sign r = xorb (sign a) (sign b) -> dec_Q r == dec_Q a * dec_Q b.
Proof.
  intros Wa Wb Hg Hr EM EN ES; pose proof (nfrac_bounds a Wa); pose proof (nfrac_bounds b Wb).
  assert (forall n, 0 <= n -> Z.pos (Z.to_pos (DIG_BASE ^ n)) = DIG_BASE ^ n) as U
    by (intros n Hn; apply Z2Pos.id, base_pow_pos, Hn).
  unfold dec_Q, Qmult, Qeq; cbn [Qnum Qden]; rewrite Pos2Z.inj_mul, !U, ES by lia.
  rewrite <- Z.pow_add_r, <- EN, Z.pow_add_r by lia.
  transitivity (signed (xorb (sign a) (sign b)) (mant r * DIG_BASE ^ g) * DIG_BASE ^ nfrac r);
    [destruct (xorb _ _); cbn [signed]; ring|].
  rewrite EM; destruct (sign a), (sign b); cbn [signed xorb]; ring.
Qed.

(** The rows of two well-formed factors with room for their product. *)
Lemma mul_words a b t L : wf a -> wf b -> nint a + nint b <= round_up (intg a + intg b) + 1 ->
  L = round_up (intg a + intg b) + (nfrac a + nfrac b) -> L <= zlen t ->
  exists W post, t = ztake L t ++ post /\ zlen W = L /\ Forall word_ok W /\ wval W = mant a * mant b /\
    (let? (t, _) := fill_up (Z.to_nat L) 0 t 0 in
     mul_rows (Z.to_nat (nint a + nfrac a)) (Z.to_nat (nint b + nfrac b)) (buf a) (buf b) t (L - 1)
       (nint a + nfrac a - 1) (nint b + nfrac b - 1)) = Some (false, W ++ post).
Proof.
  intros Wa Wb Hi EL Ht.
  pose proof (nfrac_bounds a Wa); pose proof (nfrac_bounds b Wb); pose proof (nint_bounds a Wa); pose proof (nint_bounds b Wb).
  pose proof (wf_intg _ Wa); pose proof (wf_intg _ Wb); pose proof (round_up_bounds (intg a + intg b) ltac:(lia)).
  destruct (wf_layout a Wa) as (I1 & F1 & R1 & E1 & LI1 & LF1 & Ew1 & _ & HI1 & HF1 & _).
  destruct (wf_layout b Wb) as (I2 & F2 & R2 & E2 & LI2 & LF2 & Ew2 & _ & HI2 & HF2 & _).
  destruct (zsplit L t) as (mid & post & -> & Lm & Lp); [lia|].
  change (mid ++ post) with ([] ++ mid ++ post) at 3; rewrite fill_up_eq by llia; cbn [obind app].
  destruct (mul_rows_spec (Z.to_nat (nint a + nfrac a)) (words a) [] (words b) (repeat 0 (Z.to_nat L)) post
    [] R1 [] R2 (L - 1) (nint a + nfrac a - 1) (nint b + nfrac b - 1)) as (f & W & E & LW & Ff & Ft);
    rewrite ?app_nil_r, ?Ew1, ?Ew2, ?zlen_repeat; try llia; try (apply Forall_app; auto).
  { apply word_ok_zeros. }
  { rewrite wval_zeros; reflexivity. }
  rewrite Ew1, Ew2, app_nil_r in *; rewrite zlen_repeat in *; cbn [app] in E.
  replace (Z.to_nat (zlen (I2 ++ F2))) with (Z.to_nat (nint b + nfrac b)) in E by llia.
  rewrite <- !app_assoc in E; rewrite E1, E2, E.
  pose proof (product_bound a b Wa Wb) as PB; unfold mant in PB; rewrite Ew1, Ew2 in PB.
  destruct f; [specialize (Ft eq_refl); rewrite Z2Nat.id, EL in Ft by lia; lia|].
  destruct (Ff eq_refl) as [HW EW]; exists W, post.
  split; [rewrite ztake_app by lia; reflexivity|split; [lia|split; [exact HW|split; [|reflexivity]]]].
  unfold mant; rewrite Ew1, Ew2; exact EW.
Qed.

(** The result of the rows [out ++ low], where [low] is zero: either it is
    kept, or it is a zero with a minus sign and becomes plain zero. *)
Lemma mul_finish_correct i f l s out low post : 0 <= i -> 0 <= f -> 0 < l -> zlen (out ++ low ++ post) = l ->
  zlen out = i + round_up f -> 0 < zlen (out ++ low) -> Forall word_ok out -> Forall word_ok low -> wval low = 0 ->
  (10 ^ (9 * round_up f - f) | wval out) ->
  exists r, mul_finish (mkDecimal (i * DIG_PER_DEC1) f l s (out ++ low ++ post)) i (zlen low + round_up f) = Some r /\
    wf r /\ len r = l /\ neg_zero r = false /\
    ((frac r = f /\ sign r = s /\ mant r = wval out) \/ (wval out = 0 /\ mant r = 0)).
Proof.
  intros Hi Hf Hl La Lo Hp Ho Hlow Zl Hd; unfold mul_finish; cbn [sign]; change (i * DIG_PER_DEC1) with (i * 9).
  assert (zlen ((out ++ low) ++ post) = l) as La' by (rewrite <- app_assoc; exact La).
  destruct (mul_finish_spec i f l s out (low ++ post) Hi Hf Hl La Lo Ho Hd) as (r & E & Wr & Fr & Lr & Sr & Mr).
  destruct s; cbn [obind].
  - replace (i + (zlen low + round_up f)) with (zlen (out ++ low)) by llia.
    destruct (Z.eqb_spec (zlen (out ++ low)) 0); [lia|]; cbn [buf].
    pose proof (all_zero_eq (Z.to_nat (zlen (out ++ low))) (out ++ low) [] post 0) as AZ; cbn [app] in AZ.
    rewrite <- app_assoc in AZ; rewrite AZ by (lia || reflexivity || (apply Forall_app; auto)); cbn [obind].
    rewrite wval_app, Zl, Z.add_0_r; pose proof (wval_bounds _ Ho).
    pose proof (base_pow_pos (zlen low) ltac:(llia)).
    destruct (Z.eqb_spec (wval out * DIG_BASE ^ zlen low) 0) as [E0|N0].
    + assert (wval out = 0) as V0 by nia.
      destruct (set_zero_wf (mkDecimal (i * 9) f l true (out ++ low ++ post))) as (z & Ez & Wz & _ & Mz & Sz & Lz);
        [split; assumption|]; rewrite Ez; cbn [obind].
      unfold set_zero in Ez; cbn [buf] in Ez; destruct (out ++ low ++ post) as [|w b]; [llia|].
      rewrite wr_0 in Ez; cbn [obind] in Ez; injection Ez as <-; cbn [intg buf frac len sign].
      change (Z.to_nat 1) with 1%nat; cbn [mul_strip]; rewrite rd_0; cbn [obind andb Z.eqb Z.gtb Z.compare DIG_PER_DEC1 Pos.compare Pos.compare_cont Z.ltb].
      eexists; split; [reflexivity|split; [exact Wz|split; [reflexivity|split; [reflexivity|right; auto]]]].
    + cbn [obind intg buf frac len sign]; rewrite E; exists r; split; [reflexivity|split; [exact Wr|split; [exact Lr|]]].
      split; [|left; auto]; unfold neg_zero; rewrite Sr, Mr; cbn [andb]; apply Z.eqb_neq; nia.
  - cbn [intg buf frac len sign]; rewrite E; exists r; unfold neg_zero; rewrite Sr.
    split; [reflexivity|split; [exact Wr|split; [exact Lr|split; [reflexivity|left; auto]]]].
Qed.

Lemma dec_Q_zero d : mant d = 0 -> dec_Q d == 0.
Proof. intros E; unfold dec_Q; rewrite E; destruct (sign d); reflexivity. Qed.



(** When the fraction must be cut, words of the integer part of a factor
    are left out as well: the product of 10^36 + 1 and 1.0 (seventy-two
    zeros) is given as 10^36, and reported as a truncation only. *)
Theorem mul_truncation_loses_integer_digits : exists a b to r, wf a /\ wf b /\ target to /\
  decimal_mul a b to = Some (E_DEC_TRUNCATED, r) /\
  dec_Q a * dec_Q b == inject_Z (10 ^ 36 + 1) /\ dec_Q r == inject_Z (10 ^ 36).
Proof.
  eexists (mkDecimal 37 0 9 false [1; 0; 0; 0; 1; 0; 0; 0; 0]),
    (mkDecimal 1 72 9 false [1; 0; 0; 0; 0; 0; 0; 0; 0]), (Decimal_init 0 0 false), _.
  split; [apply wf_b_correct; vm_compute; reflexivity|split; [apply wf_b_correct; vm_compute; reflexivity|]].
  split; [split; reflexivity|]; split; [vm_compute; reflexivity|split; vm_compute; reflexivity].
Qed.
