(* ===== verification/DecDiv.v ===== *)
(** Division and remainder of decimals: [do_div_mod], [decimal_div] and
    [decimal_mod] of [src/drizzled/type/decimal.cc].

    Algorithm D of Knuth on words of nine digits.  The dividend is copied to an
    array of its own, [tmp1], in which each step takes the next word of the
    quotient off; the divisor is not copied, and not normalized either: only
    the guess of a word of the quotient is made with its first two words
    scaled up.  An assertion that fails gives [None], as an access outside of an
    array does.  The result is not one of the operands. *)

From Stdlib Require Import ZArith Lia ZifyBool List Bool.
From S2P Require Import Prelude Words Decimal.
Import ListNotations.
Local Open Scope Z_scope.
Local Open Scope fail_scope.

(** src/drizzled/type/decimal.cc:2273-2299 do_div_mod

    An operand without its leading zeros: the digits left and the position of
    the first word; [None] inside if the operand is zero. *)
Definition div_operand (from : decimal_t) : option (option (Z * Z)) :=
  let prec := intg from + round_up (frac from) * DIG_PER_DEC1 in
  let i := Z.rem (prec - 1) DIG_PER_DEC1 + 1 in
  let? (prec, p) := skip_zero_words (S (Z.to_nat prec)) (buf from) prec i 0 in
  if prec <=? 0 then Some None
  else
    let? w := rd (buf from) p in
    let? prec := skip_zero_digits 10 w prec (Z.rem (prec - 1) DIG_PER_DEC1) in
    if prec >? 0 then Some (Some (prec, p)) else None.

(** src/drizzled/type/decimal.cc:2360-2363 do_div_mod

    The last word of the divisor that is not zero, going down from [stop2]. *)
Fixpoint last_word (fuel : nat) (b2 : list Z) (start2 stop2 : Z) : option Z :=
  match fuel with
  | O => None
  | S fuel' =>
      let? w := rd b2 stop2 in
      if (w =? 0) && (stop2 >=? start2) then last_word fuel' b2 start2 (stop2 - 1) else Some stop2
  end.

(** src/drizzled/type/decimal.cc:2391-2405 do_div_mod

    The guess, from the carry and the next two words of the dividend and the
    first words of the divisor, the second one if it has two. *)
Definition div_guess (norm_factor norm2 dcarry u0 y b : Z) (c : option Z) : option Z :=
  let x := i64 (u0 + i64 (dcarry * DIG_BASE)) in
  let guess := i64 (i64 (norm_factor * x) + i64 (norm_factor * y) ÷ DIG_BASE) ÷ norm2 in
  let guess := if guess >=? DIG_BASE then DIG_BASE - 1 else guess in
  match c with
  | None => Some guess
  | Some c =>
      let over g := i64 (c * g) >? i64 (i64 (i64 (x - i64 (g * b)) * DIG_BASE) + y) in
      let guess := if over guess then guess - 1 else guess in
      let guess := if over guess then guess - 1 else guess in
      if over guess then None else Some guess
  end.

(** src/drizzled/type/decimal.cc:2407-2419 do_div_mod

    [n] words of the divisor are left. *)
Fixpoint div_sub (n : nat) (guess : Z) (b2 t : list Z) (p1 p2 carry : Z) : option (list Z * Z) :=
  match n with
  | O => Some (t, carry)
  | S n' =>
      let? y := rd b2 (p2 - 1) in
      let x := i64 (guess * y) in
      let hi := i32 (x ÷ DIG_BASE) in
      let lo := i32 (i64 (x - i64 (hi * DIG_BASE))) in
      let? w := rd t p1 in
      let '(w, carry) := sub2 w lo carry in
      let? t := wr t p1 w in
      div_sub n' guess b2 t (p1 - 1) (p2 - 1) (i32 (carry + hi))
  end.

(** src/drizzled/type/decimal.cc:2427-2432 do_div_mod *)
Fixpoint div_add (n : nat) (b2 t : list Z) (p1 p2 carry : Z) : option (list Z) :=
  match n with
  | O => Some t
  | S n' =>
      let? y := rd b2 (p2 - 1) in
      let? w := rd t p1 in
      let '(w, carry) := add w y carry in
      let? t := wr t p1 w in
      div_add n' b2 t (p1 - 1) (p2 - 1) carry
  end.

(** src/drizzled/type/decimal.cc:2386-2434 do_div_mod

    A word of the quotient, and what is left of the dividend.  The divisor is
    the words of [b2] from [start2], [len2] and one of them. *)
Definition div_word (norm_factor norm2 dcarry : Z) (b2 t : list Z) (start1 start2 len2 : Z) : option (Z * list Z) :=
  let? u0 := rd t start1 in
  let? b := rd b2 start2 in
  if (dcarry =? 0) && (u0 <? b) then Some (0, t)
  else
    let? y := rd t (start1 + 1) in
    let? c := if len2 >? 0 then let? c := rd b2 (start2 + 1) in Some (Some c) else Some None in
    let? guess := div_guess norm_factor norm2 dcarry u0 y b c in
    if start1 + len2 <? zlen t then
      let? (t, carry) := div_sub (Z.to_nat (len2 + 1)) guess b2 t (start1 + len2) (start2 + len2 + 1) 0 in
      if dcarry <? carry then
        let? t := div_add (Z.to_nat (len2 + 1)) b2 t (start1 + len2) (start2 + len2 + 1) 0 in
        Some (guess - 1, t)
      else Some (guess, t)
    else None.

(** src/drizzled/type/decimal.cc:2383-2439 do_div_mod

    [n] words of the quotient are left; [out] is the buffer for it, from [p0],
    unless only the remainder is wanted. *)
Fixpoint div_loop (n : nat) (norm_factor norm2 dcarry : Z) (b2 t : list Z) (start1 start2 len2 : Z)
    (out : option (list Z)) (p0 : Z) : option (option (list Z) * list Z * Z * Z) :=
  match n with
  | O => Some (out, t, start1, dcarry)
  | S n' =>
      let? (guess, t) := div_word norm_factor norm2 dcarry b2 t start1 start2 len2 in
      let? out := match out with Some o => let? o := wr o p0 (i32 guess) in Some (Some o) | None => Some None end in
      let? dcarry := rd t start1 in
      div_loop n' norm_factor norm2 dcarry b2 t (start1 + 1) start2 len2 out (p0 + 1)
  end.

(** src/drizzled/type/decimal.cc:2348-2439 do_div_mod

    The division proper: [i] words of the dividend from [p1], and the divisor of
    [prec2] digits from [start2]; [extra] words after the dividend.  The
    quotient and [tmp1] as the loop leaves it. *)
Definition div_run (n : nat) (b1 b2 : list Z) (p1 i extra start2 prec2 : Z) (out : option (list Z)) (p0 : Z)
    : option (option (list Z) * list Z * Z * Z) :=
  let len1 := Z.max (i + extra + 1) 3 in
  if (p1 + i <=? zlen b1) && (0 <=? i) && (i <=? len1) then
    let tmp1 := ztake i (zdrop p1 b1) ++ repeat 0 (Z.to_nat (len1 - i)) in
    let stop2 := start2 + round_up prec2 - 1 in
    let? stop2 := last_word (S (Z.to_nat (round_up prec2))) b2 start2 stop2 in
    let len2 := stop2 - start2 in
    let? b := rd b2 start2 in
    let norm_factor := DIG_BASE ÷ (b + 1) in
    let norm2 := i32 (norm_factor * b) in
    let? norm2 :=
      if len2 >? 0 then let? c := rd b2 (start2 + 1) in Some (i32 (norm2 + i32 (i64 (norm_factor * c) ÷ DIG_BASE)))
      else Some norm2 in
    let? u0 := rd tmp1 0 in
    let '(dcarry, start1) := if u0 <? b then (u0, 1) else (0, 0) in
    div_loop n norm_factor norm2 dcarry b2 tmp1 start1 start2 len2 out p0
  else None.

(** src/drizzled/type/decimal.cc:2493-2494 do_div_mod *)
Fixpoint copy_up (n : nat) (s t : list Z) (p1 p0 : Z) : option (list Z) :=
  match n with
  | O => Some t
  | S n' => let? w := rd s p1 in let? t := wr t p0 w in copy_up n' s t (p1 + 1) (p0 + 1)
  end.

(** src/drizzled/type/decimal.cc:2440-2495 do_div_mod

    The remainder from [tmp1]; [to] has its sign and [frac]. *)
Definition mod_result (to : decimal_t) (tmp1 : list Z) (start1 dcarry e1 intg2 : Z) : option (Z * decimal_t) :=
  let? (tmp1, start1) :=
    if dcarry =? 0 then Some (tmp1, start1) else let? t := wr tmp1 (start1 - 1) dcarry in Some (t, start1 - 1) in
  let intg0 := e1 - start1 in
  let frac0 := round_up (frac to) in
  let finish (to_intg intg0 frac0 stop1 p0 : Z) (b : list Z) :=
    let '(stop1, to_frac, error) :=
      if intg0 + frac0 >? len to then (stop1 - (frac0 + intg0 - len to), (len to - intg0) * DIG_PER_DEC1, E_DEC_TRUNCATED)
      else (stop1, frac to, E_DEC_OK) in
    if p0 + (stop1 - start1) <=? len to then
      let? b := copy_up (Z.to_nat (stop1 - start1)) tmp1 b start1 p0 in
      Some (error, mkDecimal to_intg to_frac (len to) (sign to) b)
    else None in
  if (frac0 =? 0) && (intg0 =? 0) then let? r := set_zero to in Some (E_DEC_OK, r)
  else if intg0 <=? 0 then
    if - intg0 >=? len to then let? r := set_zero to in Some (E_DEC_TRUNCATED, r)
    else
      let? (b, p0) := fill_up (Z.to_nat (- intg0)) 0 (buf to) 0 in
      finish 0 1 (frac0 + intg0) (start1 + frac0) p0 b
  else if intg0 >? len to then Some (E_DEC_OVERFLOW, to)
  else if intg0 <=? round_up intg2 then
    finish (Z.min (intg0 * DIG_PER_DEC1) intg2) intg0 frac0 (start1 + frac0 + intg0) 0 (buf to)
  else None.

(** src/drizzled/type/decimal.cc:2258-2498 do_div_mod

    [modulo]: the remainder is wanted. *)
Definition do_div_mod (from1 from2 to : decimal_t) (modulo : bool) (scale_incr : Z) : option (Z * decimal_t) :=
  let frac1 := round_up (frac from1) * DIG_PER_DEC1 in
  let frac2 := round_up (frac from2) * DIG_PER_DEC1 in
  let? o2 := div_operand from2 in
  match o2 with
  | None => Some (E_DEC_DIV_ZERO, to)
  | Some (prec2, p2) =>
      let? o1 := div_operand from1 in
      match o1 with
      | None => let? r := set_zero to in Some (E_DEC_OK, r)
      | Some (prec1, p1) =>
          let scale_incr := Z.max (scale_incr - (frac1 - frac from1 + frac2 - frac from2)) 0 in
          let? w1 := rd (buf from1) p1 in
          let? w2 := rd (buf from2) p2 in
          let dintg := (prec1 - frac1) - (prec2 - frac2) + Z.b2z (w1 >=? w2) in
          let '(dintg, intg0) := if dintg <? 0 then (dintg ÷ DIG_PER_DEC1, 0) else (dintg, round_up dintg) in
          let run n := div_run n (buf from1) (buf from2) p1 (round_up prec1) (round_up (2 * frac2 + scale_incr + 1)) p2 prec2 in
          if modulo then
            let to := mkDecimal (intg to) (Z.max (frac from1) (frac from2)) (len to) (sign from1) (buf to) in
            let? (_, tmp1, start1, dcarry) := run (Z.to_nat intg0) None 0 in
            mod_result to tmp1 start1 dcarry (round_up (prec1 - frac1)) (intg from2)
          else
            let '(intg0, frac0, error) := fix_intg_frac_error (len to) intg0 (round_up (frac1 + frac2 + scale_incr)) in
            let? (b, p0) := fill_up (Z.to_nat (- dintg)) 0 (buf to) 0 in
            let? (out, _, _, _) := run (Z.to_nat (intg0 + frac0 - p0)) (Some b) p0 in
            match out with
            | Some b =>
                Some (error, mkDecimal (intg0 * DIG_PER_DEC1) (frac0 * DIG_PER_DEC1) (len to) (xorb (sign from1) (sign from2)) b)
            | None => None
            end
      end
  end.

(** src/drizzled/type/decimal.cc:2513-2517 decimal_div *)
Definition decimal_div (from1 from2 to : decimal_t) (scale_incr : Z) : option (Z * decimal_t) :=
  do_div_mod from1 from2 to false scale_incr.

(** src/drizzled/type/decimal.cc:2544-2547 decimal_mod *)
Definition decimal_mod (from1 from2 to : decimal_t) : option (Z * decimal_t) :=
  do_div_mod from1 from2 to true 0.
