(* ===== verification/DecGuess.v ===== *)
(** A word of a quotient: the guess of [do_div_mod] and its correction.

    The guess is made with the first word of the divisor scaled up to at least
    half of the base, and the first two words tell whether it is too great.  It
    never is too small, after two corrections it is not greater than the
    quotient of the first words, which exceeds the quotient of the numbers by
    one at most. *)

From Stdlib Require Import ZArith Lia ZifyBool List Bool.
From S2P Require Import Prelude Words Decimal DecDiv.
Import ListNotations.
Local Open Scope Z_scope.
Local Open Scope fail_scope.

Local Abbreviation B := DIG_BASE.

(** The first word of the divisor scaled up. *)
Definition nf (b : Z) : Z := B / (b + 1).
Definition scaled_word (b : Z) (c : option Z) : Z := nf b * b + match c with Some c => nf b * c / B | None => 0 end.

Lemma nf_bounds b : 1 <= b < B -> 1 <= nf b /\ nf b * (b + 1) <= B < (nf b + 1) * (b + 1).
Proof.
  intros Hb; unfold nf; pose proof (Z.mul_div_le B (b + 1) ltac:(lia)); pose proof (Z.mul_succ_div_gt B (b + 1) ltac:(lia)).
  pose proof (Z.div_le_mono (b + 1) B (b + 1) ltac:(lia) ltac:(lia)) as H1; rewrite Z.div_same in H1 by lia; lia.
Qed.

(** At least half of the base. *)
Lemma nf_half b : 1 <= b < B -> B <= 2 * (nf b * b).
Proof.
  intros Hb; destruct (nf_bounds b Hb) as (H1 & H2 & H3); set (k := nf b) in *; clearbody k.
  destruct (Z.eq_dec k 1) as [->|Hk]; [unfold DIG_BASE in *; lia|].
  destruct (Z.eq_dec b 1) as [->|Hb1]; [unfold DIG_BASE in *; lia|]; nia.
Qed.

Lemma scaled_bounds b c : 1 <= b < B -> (forall c0, c = Some c0 -> word_ok c0) -> 0 < scaled_word b c <= B.
Proof.
  intros Hb Hc; destruct (nf_bounds b Hb) as (H1 & H2 & H3); unfold scaled_word.
  destruct c as [c|]; [|nia]; specialize (Hc c eq_refl); unfold word_ok, digit_ok in Hc.
  assert (0 <= nf b * c / B < nf b + 1) as Hd; [|nia].
  split; [apply Z.div_pos; [nia|reflexivity]|apply Z.div_lt_upper_bound; [reflexivity|nia]].
Qed.

Section two_words.
Context (b c x y : Z) (Hb : 1 <= b < B) (Hc : 0 <= c < B) (Hx : 0 <= x) (Hy : 0 <= y < B).
Context (Hd : x * B + y < B * (b * B + c + 1)).

Local Abbreviation N := (nf b * x + nf b * y / B).
Local Abbreviation W := (b * B + c).
Local Abbreviation V := (x * B + y).

Lemma scaled_two : scaled_word b (Some c) = nf b * W / B.
Proof.
  unfold scaled_word; replace (nf b * W) with (nf b * c + (nf b * b) * B) by ring.
  rewrite Z.div_add by discriminate; lia.
Qed.

Lemma scaled_dividend : N = nf b * V / B.
Proof.
  replace (nf b * V) with (nf b * y + (nf b * x) * B) by ring; rewrite Z.div_add by discriminate; lia.
Qed.

(** The guess is not below the quotient of the first words... *)
Lemma guess_lower : V / W <= N / scaled_word b (Some c).
Proof.
  pose proof (nf_bounds b Hb) as (K1 & _ & _); pose proof (scaled_bounds b (Some c) Hb ltac:(intros ? [= <-]; exact Hc)) as [Hs _].
  apply Z.div_le_lower_bound; [exact Hs|]; rewrite scaled_dividend; apply Z.div_le_lower_bound; [reflexivity|].
  rewrite scaled_two in *; pose proof (Z.mul_div_le (nf b * W) B ltac:(reflexivity)).
  pose proof (Z.mul_div_le V W ltac:(unfold DIG_BASE in *; lia)); assert (0 <= V / W) by (apply Z.div_pos; unfold DIG_BASE in *; lia).
  set (q := V / W) in *; set (s := nf b * W / B) in *; clearbody q s; nia.
Qed.

(** ... and above it by two at most, unless the quotient is the base. *)
Lemma guess_upper : V / W < B -> N / scaled_word b (Some c) <= V / W + 2.
Proof.
  intros Hq; pose proof (nf_bounds b Hb) as (K1 & _ & _); pose proof (nf_half b Hb) as Hh.
  pose proof (scaled_bounds b (Some c) Hb ltac:(intros ? [= <-]; exact Hc)) as [Hs _].
  assert (nf b * b <= scaled_word b (Some c)) as Hsb.
  { unfold scaled_word; assert (0 <= nf b * c / B) by (apply Z.div_pos; [nia|reflexivity]); lia. }
  apply Z.lt_succ_r, Z.div_lt_upper_bound; [exact Hs|]; rewrite scaled_dividend, scaled_two in *.
  pose proof (Z.mul_succ_div_gt (nf b * W) B ltac:(reflexivity)) as G.
  pose proof (Z.mul_succ_div_gt V W ltac:(unfold DIG_BASE in *; lia)) as GV.
  apply Z.div_lt_upper_bound; [reflexivity|].
  assert (0 <= V / W) as Hq0 by (apply Z.div_pos; unfold DIG_BASE in *; lia).
  set (q := V / W) in *; set (s := nf b * W / B) in *; clearbody q s.
  apply Z.lt_le_trans with (nf b * (W * Z.succ q)); [apply Z.mul_lt_mono_pos_l; lia|].
  apply Z.le_trans with (B * Z.succ s * Z.succ q); [nia|].
  assert (Z.succ s * Z.succ q <= s * Z.succ (q + 2)) by nia; nia.
Qed.

End two_words.

Lemma word_mul x y : word_ok x -> word_ok y -> 0 <= x * y < B * B.
Proof. unfold word_ok, digit_ok; intros; nia. Qed.

(** The test of a guess, on 64 bit integers. *)
Lemma over_exact b c x y g : 1 <= b < B -> 0 <= c < B -> 0 <= y < B -> 0 <= x < B * B -> 0 <= g < B ->
  g * (b * B + c) <= x * B + y + 2 * (b * B + c) -> x * B + y < (g + 1) * (b * B + c) + B ->
  (i64 (c * g) >? i64 (i64 (i64 (x - i64 (g * b)) * B) + y)) = ((x * B + y) / (b * B + c) <? g).
Proof.
  intros Hb Hc Hy Hx Hg H1 H2; pose proof (word_mul g b Hg ltac:(unfold word_ok, digit_ok; lia)) as G1; pose proof (word_mul c g Hc Hg) as G2.
  assert (- (4 * B) <= x - g * b <= 3 * B) as G3 by (unfold DIG_BASE in *; lia).
  rewrite (i64_small (g * b)), (i64_small (c * g)), (i64_small (x - g * b)) by (unfold DIG_BASE in *; lia).
  rewrite (i64_small ((x - g * b) * B)) by (unfold DIG_BASE in *; lia).
  rewrite i64_small by (unfold DIG_BASE in *; lia).
  rewrite Z.gtb_ltb; apply Bool.eq_iff_eq_true; rewrite !Z.ltb_lt; split; intros H.
  - apply Z.div_lt_upper_bound; [unfold DIG_BASE in *|]; lia.
  - pose proof (Z.mul_succ_div_gt (x * B + y) (b * B + c) ltac:(unfold DIG_BASE in *; lia)) as G.
    pose proof (Z.mul_le_mono_nonneg_l (Z.succ ((x * B + y) / (b * B + c))) g (b * B + c) ltac:(unfold DIG_BASE in *; lia) ltac:(lia)); lia.
Qed.

Lemma nf_mul b z k : 1 <= b < B -> 0 <= z <= (b + 1) * k -> 0 <= nf b * z <= B * k.
Proof. intros Hb Hz; destruct (nf_bounds b Hb) as (K1 & K2 & _); nia. Qed.

(** The guess before its corrections. *)
Definition first_guess (b c x y : Z) : Z :=
  let g := (nf b * x + nf b * y / B) / scaled_word b (Some c) in if g >=? B then B - 1 else g.

Lemma first_guess_range b c x y : 1 <= b < B -> 0 <= c < B -> 0 <= x -> 0 <= y < B ->
  Z.min (B - 1) ((x * B + y) / (b * B + c)) <= first_guess b c x y <= Z.min (B - 1) ((x * B + y) / (b * B + c) + 2).
Proof.
  intros Hb Hc Hx Hy; pose proof (guess_lower b c x y Hb Hc Hx Hy) as GL; pose proof (guess_upper b c x y Hb Hc Hx Hy) as GU.
  unfold first_guess; rewrite Z.geb_leb; set (q := (x * B + y) / (b * B + c)) in *; clearbody q.
  destruct (Z.leb_spec B ((nf b * x + nf b * y / B) / scaled_word b (Some c))); lia.
Qed.

(** The guess of a divisor of two words or more: the quotient of the first two
    words, or the greatest word. *)
Lemma div_guess_two b c d u0 y : 1 <= b < B -> word_ok c -> word_ok u0 -> word_ok y -> 0 <= d ->
  (u0 + d * B) * B + y < B * (b * B + c + 1) ->
  div_guess (nf b) (scaled_word b (Some c)) d u0 y b (Some c)
  = Some (Z.min (B - 1) (((u0 + d * B) * B + y) / (b * B + c))).
Proof.
  unfold word_ok, digit_ok; intros Hb Hc Hu Hy Hd HD; unfold div_guess.
  pose proof (scaled_bounds b (Some c) Hb ltac:(intros ? [= <-]; exact Hc)) as Hs.
  assert (d <= b) as Hdb by (unfold DIG_BASE in *; lia).
  rewrite (i64_small (d * B)), (i64_small (u0 + d * B)) by (unfold DIG_BASE in *; lia).
  set (x := u0 + d * B) in *; assert (0 <= x < (b + 1) * B) as Hx by (unfold x, DIG_BASE in *; lia).
  pose proof (nf_mul b x B Hb ltac:(lia)) as G1.
  pose proof (nf_mul b y B Hb ltac:(unfold DIG_BASE in *; lia)) as G2.
  rewrite (i64_small (nf b * x)), (i64_small (nf b * y)) by (unfold DIG_BASE in *; lia).
  rewrite (Z.quot_div_nonneg (nf b * y) B) by (unfold DIG_BASE in *; lia).
  assert (0 <= nf b * y / B <= B) as G3 by (split; [apply Z.div_pos; lia|apply Z.div_le_upper_bound; unfold DIG_BASE in *; lia]).
  rewrite (i64_small (nf b * x + nf b * y / B)) by (unfold DIG_BASE in *; lia).
  rewrite Z.quot_div_nonneg by lia; change (if _ >=? B then B - 1 else _) with (first_guess b c x y).
  pose proof (first_guess_range b c x y Hb Hc ltac:(lia) Hy) as R; set (g := first_guess b c x y) in *; clearbody g.
  assert (0 < b * B + c) as HW by (unfold DIG_BASE in *; lia).
  pose proof (Z.mul_div_le (x * B + y) (b * B + c) HW) as Q1; pose proof (Z.mul_succ_div_gt (x * B + y) (b * B + c) HW) as Q2.
  assert (0 <= (x * B + y) / (b * B + c)) as Q0 by (apply Z.div_pos; unfold DIG_BASE in *; lia).
  assert (forall g, Z.min (B - 1) ((x * B + y) / (b * B + c)) <= g <= Z.min (B - 1) ((x * B + y) / (b * B + c) + 2) ->
    (i64 (c * g) >? i64 (i64 (i64 (x - i64 (g * b)) * B) + y)) = ((x * B + y) / (b * B + c) <? g)) as Ov.
  { intros g0 Hg0; set (q := (x * B + y) / (b * B + c)) in *.
    apply over_exact; try assumption; [nia|unfold DIG_BASE in *; lia|clearbody q; nia|clearbody q].
    destruct (Z.le_gt_cases q g0); [nia|]; replace (g0 + 1) with B by lia; lia. }
  set (q := (x * B + y) / (b * B + c)) in *; clearbody q; cbv zeta.
  rewrite (Ov g R); destruct (Z.ltb_spec q g).
  - rewrite (Ov (g - 1)) by lia; destruct (Z.ltb_spec q (g - 1)).
    + rewrite (Ov (g - 1 - 1)) by lia; destruct (Z.ltb_spec q (g - 1 - 1)); [lia|f_equal; lia].
    + rewrite (Ov (g - 1)) by lia; destruct (Z.ltb_spec q (g - 1)); [lia|f_equal; lia].
  - rewrite (Ov g R); destruct (Z.ltb_spec q g); [lia|]; rewrite (Ov g R).
    destruct (Z.ltb_spec q g); [lia|f_equal; lia].
Qed.

(** The guess of a divisor of one word: the quotient. *)
Lemma div_guess_one b d u0 y : 1 <= b < B -> word_ok u0 -> word_ok y -> 0 <= d < b ->
  div_guess (nf b) (scaled_word b None) d u0 y b None = Some ((u0 + d * B) / b).
Proof.
  unfold word_ok, digit_ok; intros Hb Hu Hy Hd; unfold div_guess.
  pose proof (scaled_bounds b None Hb ltac:(discriminate)) as Hs; destruct (nf_bounds b Hb) as (K1 & K2 & _).
  rewrite (i64_small (d * B)), (i64_small (u0 + d * B)) by (unfold DIG_BASE in *; lia).
  set (x := u0 + d * B) in *; assert (0 <= x < b * B) as Hx by (unfold x; nia).
  pose proof (nf_mul b x B Hb ltac:(lia)) as G1; pose proof (nf_mul b y B Hb ltac:(unfold DIG_BASE in *; lia)) as G2.
  rewrite (i64_small (nf b * x)), (i64_small (nf b * y)) by (unfold DIG_BASE in *; lia).
  rewrite (Z.quot_div_nonneg (nf b * y) B) by (unfold DIG_BASE in *; lia).
  assert (0 <= nf b * y / B < nf b) as G3 by (split; [apply Z.div_pos; lia|apply Z.div_lt_upper_bound; nia]).
  rewrite (i64_small (nf b * x + nf b * y / B)) by (unfold DIG_BASE in *; lia).
  rewrite Z.quot_div_nonneg by lia; unfold scaled_word; rewrite Z.add_0_r.
  assert ((nf b * x + nf b * y / B) / (nf b * b) = x / b) as ->.
  { symmetry; apply Z.div_unique_pos with (nf b * (x mod b) + nf b * y / B).
    - pose proof (Z.mod_pos_bound x b ltac:(lia)); nia.
    - pose proof (Z.div_mod x b ltac:(lia)); nia. }
  rewrite Z.geb_leb; destruct (Z.leb_spec B (x / b)) as [H|H]; [|reflexivity].
  exfalso; pose proof (Z.mul_div_le x b ltac:(lia)); nia.
Qed.
