(* ===== verification/DecQuot.v ===== *)
(** The quotient of two decimals, word by word: the main loop of [do_div_mod]
    divides.

    A row taken off the dividend is a function on lists ([subrow]), which
    computes [T - x * Y - c]; a step of the loop ([div_word]) gives the next word
    of the quotient and leaves the remainder, and the loop the quotient of as
    many words as the result has. *)

From Stdlib Require Import ZArith Lia ZifyBool List Bool.
From S2P Require Import Prelude Words Decimal DecArith DecDiv DecGuess.
Import ListNotations.
Local Open Scope Z_scope.
Local Open Scope fail_scope.

Local Abbreviation B := DIG_BASE.

(** ** Rows *)

Lemma sub2_ok x y c : word_ok x -> word_ok y -> word_ok c ->
  exists w c', sub2 x y c = (w, c') /\ word_ok w /\ 0 <= c' <= 2 /\ w - c' * B = x - y - c.
Proof.
  unfold word_ok, digit_ok, sub2, DIG_BASE; intros Hx Hy Hc; unwrap.
  destruct (Z.ltb_spec (x - y - c) 0); unwrap;
    case_if; unwrap; eexists _, _; (split; [reflexivity|lia]).
Qed.

(** One word of a row. *)
Definition substep (x y w c : Z) : Z * Z :=
  let p := i64 (x * y) in
  let hi := i32 (p ÷ B) in
  let lo := i32 (i64 (p - i64 (hi * B))) in
  let '(w, c) := sub2 w lo c in (w, i32 (c + hi)).

Lemma substep_ok x y w c : word_ok x -> word_ok y -> word_ok w -> word_ok c ->
  exists w' c', substep x y w c = (w', c') /\ word_ok w' /\ word_ok c' /\ w' - c' * B = w - x * y - c.
Proof.
  intros Hx Hy Hw Hc; unfold substep.
  assert (0 <= x * y <= 999999998000000001) as Hp by (unfold word_ok, digit_ok, DIG_BASE in *; nia).
  rewrite (i64_small (x * y)) by lia; rewrite Z.quot_div_nonneg by (unfold DIG_BASE; lia).
  set (p := x * y) in *; clearbody p.
  assert (0 <= p / B <= 999999998) as Hh by (unfold DIG_BASE; dlia).
  rewrite (i32_small (p / B)) by lia; rewrite (i64_small (p / B * B)) by (unfold DIG_BASE in *; lia).
  assert (p - p / B * B = p mod B) as -> by (unfold DIG_BASE; dlia).
  pose proof (Z.mod_pos_bound p B ltac:(reflexivity)) as Hl.
  rewrite (i64_small (p mod B)), i32_small by (unfold DIG_BASE in *; lia).
  destruct (sub2_ok w (p mod B) c Hw Hl Hc) as (w' & c' & -> & Hw' & Hc' & E).
  pose proof (Z.div_mod p B ltac:(discriminate)) as D.
  unfold word_ok, digit_ok, DIG_BASE in *; rewrite i32_small by lia.
  eexists _, _; split; [reflexivity|]; lia.
Qed.

Fixpoint subrow (x : Z) (Y T : list Z) (c : Z) : list Z * Z :=
  match Y, T with
  | y :: Y', w :: T' =>
      let '(r, c) := subrow x Y' T' c in
      let '(w, c) := substep x y w c in (w :: r, c)
  | _, _ => ([], c)
  end.

Lemma subrow_spec x Y : forall T c, word_ok x -> Forall word_ok Y -> Forall word_ok T ->
  zlen Y = zlen T -> word_ok c ->
  exists r c', subrow x Y T c = (r, c') /\ zlen r = zlen T /\ Forall word_ok r /\ word_ok c' /\
    wval r - c' * B ^ zlen T = wval T - x * wval Y - c.
Proof.
  induction Y as [|y Y IH]; intros [|w T] c Hx HY HT L Hc; try (exfalso; llia).
  - exists [], c; change (B ^ zlen []) with 1; change (wval []) with 0.
    repeat split; [apply Forall_nil|apply Hc|apply Hc|lia].
  - apply Forall_cons_iff in HY as [Hy HY], HT as [Hw HT].
    destruct (IH T c Hx HY HT ltac:(llia) Hc) as (r & c1 & E & Lr & Hr & Hc1 & V).
    destruct (substep_ok x y w c1 Hx Hy Hw Hc1) as (w' & c2 & Es & Hw' & Hc2 & Vs).
    exists (w' :: r), c2; cbn [subrow]; rewrite E, Es; split; [reflexivity|].
    split; [llia|split; [apply Forall_cons; assumption|split; [exact Hc2|]]].
    rewrite !wval_cons, Lr, zlen_cons, Z.pow_add_r, Z.pow_1_r by llia.
    replace (zlen Y) with (zlen T) by llia; pose proof (base_pow_pos (zlen T) ltac:(llia)); nia.
Qed.

Lemma subrow_snoc x Y : forall T y w c, List.length Y = List.length T ->
  subrow x (Y ++ [y]) (T ++ [w]) c
  = let '(w, c) := substep x y w c in let '(r, c) := subrow x Y T c in (r ++ [w], c).
Proof.
  induction Y as [|y1 Y IH]; intros [|w1 T] y w c L; try discriminate L.
  - cbn; destruct (substep x y w c); reflexivity.
  - cbn [app subrow]; rewrite IH by (injection L; auto); destruct (substep x y w c) as [w' c1].
    destruct (subrow x Y T c1) as [r c2]; destruct (substep x y1 w1 c2); reflexivity.
Qed.

Lemma div_sub_eq n : forall x Y T pre post pre2 post2 p1 p2 c,
  zlen Y = Z.of_nat n -> zlen T = Z.of_nat n ->
  p1 = zlen pre + Z.of_nat n - 1 -> p2 = zlen pre2 + Z.of_nat n ->
  div_sub n x (pre2 ++ Y ++ post2) (pre ++ T ++ post) p1 p2 c
  = let '(r, c') := subrow x Y T c in Some (pre ++ r ++ post, c').
Proof.
  induction n as [|n IH]; intros x Y T pre post pre2 post2 p1 p2 c LY LT -> ->.
  - rewrite (zlen_zero Y), (zlen_zero T) by lia; reflexivity.
  - snoc Y as Y0 y; snoc T as T0 w; autorewrite with zlen in *.
    rewrite subrow_snoc by (apply Nat2Z.inj; change (zlen Y0 = zlen T0); lia).
    cbn [div_sub]; regroup (pre2 ++ (Y0 ++ [y]) ++ post2) ((pre2 ++ Y0) ++ y :: post2).
    regroup (pre ++ (T0 ++ [w]) ++ post) ((pre ++ T0) ++ w :: post).
    rewrite rd_at by llia; cbn [obind]; rewrite rd_at by llia; cbn [obind].
    unfold substep; cbv zeta; destruct (sub2 w _ c) as [w' c1]; rewrite wr_at by llia; cbn [obind].
    rewrite <- !app_assoc; rewrite IH by llia.
    destruct (subrow x Y0 T0 _) as [r c2]; rewrite <- app_assoc; reflexivity.
Qed.

Lemma div_add_eq n : forall Y T pre post pre2 post2 p1 p2 c,
  zlen Y = Z.of_nat n -> zlen T = Z.of_nat n ->
  p1 = zlen pre + Z.of_nat n - 1 -> p2 = zlen pre2 + Z.of_nat n ->
  div_add n (pre2 ++ Y ++ post2) (pre ++ T ++ post) p1 p2 c = Some (pre ++ fst (addl T Y c) ++ post).
Proof.
  induction n as [|n IH]; intros Y T pre post pre2 post2 p1 p2 c LY LT -> ->.
  - rewrite (zlen_zero Y), (zlen_zero T) by lia; reflexivity.
  - snoc Y as Y0 y; snoc T as T0 w; autorewrite with zlen in *.
    rewrite addl_snoc by (apply Nat2Z.inj; change (zlen T0 = zlen Y0); lia).
    cbn [div_add]; regroup (pre2 ++ (Y0 ++ [y]) ++ post2) ((pre2 ++ Y0) ++ y :: post2).
    regroup (pre ++ (T0 ++ [w]) ++ post) ((pre ++ T0) ++ w :: post).
    rewrite rd_at by llia; cbn [obind]; rewrite rd_at by llia; cbn [obind].
    destruct (add w y c) as [w' c1]; rewrite wr_at by llia; cbn [obind].
    rewrite <- !app_assoc; rewrite IH by llia.
    destruct (addl T0 Y0 c1) as [r c2]; cbn [fst]; rewrite <- app_assoc; reflexivity.
Qed.

(** ** A word of the quotient *)

(** The quotient of the first words exceeds the quotient by one at most. *)
Lemma leading_quotient V W K U0 D0 : 0 < K -> B <= W -> 0 <= V -> 0 <= U0 < K -> 0 <= D0 < K ->
  V * K + U0 < (W * K + D0) * B ->
  (V * K + U0) / (W * K + D0) <= Z.min (B - 1) (V / W) <= (V * K + U0) / (W * K + D0) + 1 /\ V < B * (W + 1).
Proof.
  intros HK HW HV HU HD H; assert (0 < B) by reflexivity.
  assert (V < B * (W + 1)) as HB by (apply Z.mul_lt_mono_pos_r with K; nia).
  set (q := (V * K + U0) / (W * K + D0)).
  assert (0 < W * K + D0) as HDp by nia.
  pose proof (Z.mul_div_le (V * K + U0) (W * K + D0) HDp) as Q1; pose proof (Z.mul_succ_div_gt (V * K + U0) (W * K + D0) HDp) as Q2.
  fold q in Q1, Q2; assert (0 <= q) as Q0 by (apply Z.div_pos; nia); assert (q < B) as QB by (apply Z.div_lt_upper_bound; nia).
  clearbody q; split; [split|exact HB].
  - apply Z.min_glb; [lia|]; apply Z.div_le_lower_bound; [lia|]; assert (W * q < V + 1); [apply Z.mul_lt_mono_pos_r with K; nia|lia].
  - apply Z.le_trans with (V / W); [lia|]; apply Z.lt_succ_r, Z.div_lt_upper_bound; [lia|].
    assert (V < (W + 1) * (q + 1)) by (apply Z.mul_lt_mono_pos_r with K; nia); nia.
Qed.

(** The second word of the divisor, if it has one. *)
Definition second (l : list Z) : option Z := match l with c :: _ => Some c | [] => None end.

Lemma second_rd P x L : rd (P ++ x :: L) (zlen P + 1) = second L.
Proof.
  regroup (P ++ x :: L) ((P ++ [x]) ++ L).
  destruct L as [|z L]; [apply rd_None; llia|apply rd_at; llia].
Qed.

Lemma digits_below m r q p : 0 <= m < q -> 0 <= r < p -> m * p + r < q * p.
Proof. intros Hm Hr; nia. Qed.

Section divisor.
Context (b : Z) (Ds : list Z) (pre2 post2 : list Z).
Context (Hb : 1 <= b < B) (HDs : Forall word_ok Ds).

Local Abbreviation D := (wval (b :: Ds)).
Local Abbreviation b2 := (pre2 ++ (b :: Ds) ++ post2).
Local Abbreviation n2 := (zlen Ds + 1).

Lemma divisor_words : Forall word_ok (b :: Ds).
Proof. apply Forall_cons; [unfold word_ok, digit_ok; lia|exact HDs]. Qed.

Lemma divisor_bounds : B ^ zlen Ds <= D < B ^ n2 /\ 0 < B ^ zlen Ds.
Proof.
  pose proof (wval_bounds _ HDs); pose proof (wval_bounds _ divisor_words) as H1; rewrite zlen_cons in H1.
  pose proof (base_pow_pos (zlen Ds) ltac:(llia)); rewrite wval_cons in *; nia.
Qed.

(** The guess is the word of the quotient, or one more. *)
Lemma guess_spec d u0 Xs y : word_ok u0 -> Forall word_ok Xs -> zlen Xs = zlen Ds -> word_ok y ->
  (forall y', second Xs = Some y' -> y = y') -> 0 <= d -> d * B ^ n2 + wval (u0 :: Xs) < D * B ->
  exists g, div_guess (nf b) (scaled_word b (second Ds)) d u0 y b (second Ds) = Some g /\ word_ok g /\
    (d * B ^ n2 + wval (u0 :: Xs)) / D <= g <= (d * B ^ n2 + wval (u0 :: Xs)) / D + 1.
Proof.
  intros Hu HX LX Hy Ey Hd HU; destruct Ds as [|c D2], Xs as [|y' X2]; try (exfalso; llia).
  - change (wval [u0]) with (u0 * 1 + 0) in *; change (wval [b]) with (b * 1 + 0) in *.
    change (B ^ (zlen (@nil Z) + 1)) with B in *; unfold word_ok, digit_ok in *.
    exists ((u0 + d * B) / b); cbn [second]; split; [apply div_guess_one; try assumption; nia|].
    replace (d * B + (u0 * 1 + 0)) with (u0 + d * B) in * by lia; rewrite Z.mul_1_r, Z.add_0_r in *.
    split; [|lia]; split; [apply Z.div_pos; nia|apply Z.div_lt_upper_bound; lia].
  - cbn [second] in *; rewrite (Ey y' eq_refl) in *; clear Ey; rewrite !zlen_cons in *.
    apply Forall_cons_iff in HDs as [Hc HD2], HX as [Hy' HX2].
    assert (zlen X2 = zlen D2) as L2 by lia; rewrite !wval_cons, !zlen_cons, L2 in *.
    pose proof (wval_bounds _ HD2) as BD; pose proof (wval_bounds _ HX2) as BX; rewrite L2 in BX.
    rewrite !Z.pow_add_r, !Z.pow_1_r in * by llia; pose proof (base_pow_pos (zlen D2) ltac:(llia)) as HK.
    set (K := B ^ zlen D2) in *; clearbody K; unfold word_ok, digit_ok in *.
    replace (d * (K * B * B) + (u0 * (K * B) + (y' * K + wval X2))) with (((u0 + d * B) * B + y') * K + wval X2) in * by ring.
    replace (b * (K * B) + (c * K + wval D2)) with ((b * B + c) * K + wval D2) in * by ring.
    assert (0 <= (u0 + d * B) * B + y') as HV0 by (unfold DIG_BASE; lia).
    destruct (leading_quotient ((u0 + d * B) * B + y') (b * B + c) K (wval X2) (wval D2)) as [R HV]; [lia|unfold DIG_BASE; lia|lia..|].
    exists (Z.min (B - 1) (((u0 + d * B) * B + y') / (b * B + c))).
    split; [apply div_guess_two; assumption|]; split; [|exact R]; split; [|unfold DIG_BASE; lia].
    apply Z.min_glb; [discriminate|apply Z.div_pos; nia].
Qed.

(** What a word of the quotient times the divisor leaves. *)
Lemma remainder_unique U k r q : 0 <= r < B ^ n2 -> 0 <= U - q * D < D -> U - q * D = r + k * B ^ n2 -> r = U mod D /\ q = U / D.
Proof.
  intros Hr HU E; pose proof divisor_bounds as [Hd _]; assert (k = 0) as -> by nia; rewrite Z.mul_0_l, Z.add_0_r in E.
  split; [apply Z.mod_unique_pos with q|apply Z.div_unique_pos with r]; lia.
Qed.

(** Steps D4 to D6: the row is taken off, and given back once if the guess was
    too great. *)
Lemma div_take_spec g d P X R : word_ok g -> Forall word_ok X -> zlen X = n2 -> 0 <= d ->
  (d * B ^ n2 + wval X) / D <= g <= (d * B ^ n2 + wval X) / D + 1 ->
  exists X',
    (let? (t, carry) := div_sub (Z.to_nat n2) g b2 (P ++ X ++ R) (zlen P + zlen Ds) (zlen pre2 + zlen Ds + 1) 0 in
     if d <? carry then
       let? t := div_add (Z.to_nat n2) b2 t (zlen P + zlen Ds) (zlen pre2 + zlen Ds + 1) 0 in Some (g - 1, t)
     else Some (g, t)) = Some ((d * B ^ n2 + wval X) / D, P ++ X' ++ R) /\
    zlen X' = n2 /\ Forall word_ok X' /\ wval X' = (d * B ^ n2 + wval X) mod D.
Proof.
  intros Hg HX LX Hd Gr; pose proof divisor_bounds as [HD HK]; pose proof (zlen_nonneg Ds).
  destruct (subrow_spec g (b :: Ds) X 0) as (r & c & Es & Lr & Hr & Hc & Vr);
    [exact Hg|apply divisor_words|exact HX|llia|unfold word_ok, digit_ok, DIG_BASE; lia|].
  rewrite (div_sub_eq (Z.to_nat n2) g (b :: Ds) X P R pre2 post2) by llia; rewrite Es; cbn [obind]; rewrite LX in *.
  set (U := d * B ^ n2 + wval X) in *; pose proof (Z.div_mod U D ltac:(lia)) as Ed; pose proof (Z.mod_pos_bound U D ltac:(lia)) as Em.
  pose proof (wval_bounds _ Hr) as Br; rewrite Lr in Br.
  assert (U - g * D = wval r + (d - c) * B ^ n2) as EU by (unfold U; lia); clearbody U.
  destruct (Z.ltb_spec d c) as [Hdc|Hdc].
  - assert (g = U / D + 1) as -> by nia.
    rewrite (div_add_eq (Z.to_nat n2) (b :: Ds) r P R pre2 post2) by llia; cbn [obind].
    destruct (addl_spec r (b :: Ds) 0 Hr divisor_words) as (r' & c' & -> & Lr' & Hr' & Hc' & Vr'); [llia|lia|]; cbn [fst].
    pose proof (wval_bounds _ Hr') as Br'; rewrite Lr', Lr in *.
    destruct (remainder_unique U (c' + d - c) (wval r') (U / D)) as [E _]; [lia|lia|nia|].
    exists r'; rewrite Z.add_simpl_r; auto.
  - assert (g = U / D) as -> by nia; destruct (remainder_unique U (d - c) (wval r) (U / D)) as [E _]; [lia|lia|lia|].
    exists r; auto.
Qed.

(** A step of the loop: the next word of the quotient, and the remainder in
    place of the words of the dividend. *)
Lemma div_word_spec d P X R : Forall word_ok X -> zlen X = n2 -> Forall word_ok R -> 2 <= zlen (X ++ R) -> 0 <= d ->
  d * B ^ n2 + wval X < D * B ->
  exists X', div_word (nf b) (scaled_word b (second Ds)) d b2 (P ++ X ++ R) (zlen P) (zlen pre2) (zlen Ds)
    = Some ((d * B ^ n2 + wval X) / D, P ++ X' ++ R) /\
    zlen X' = n2 /\ Forall word_ok X' /\ wval X' = (d * B ^ n2 + wval X) mod D.
Proof.
  intros HX LX HR L2 Hd HU; pose proof divisor_bounds as [HD HK]; pose proof (zlen_nonneg Ds).
  destruct X as [|u0 Xs]; [llia|]; pose proof HX as HX'; apply Forall_cons_iff in HX' as [Hu HXs]; rewrite zlen_cons in LX.
  unfold div_word; cbn [app]; rewrite rd_at by reflexivity; cbn [obind]; rewrite rd_at by reflexivity; cbn [obind].
  destruct ((d =? 0) && (u0 <? b)) eqn:E0.
  - assert (d = 0 /\ u0 < b) as [-> Hlt] by lia; exists (u0 :: Xs).
    assert (wval (u0 :: Xs) < D) as Hs.
    { pose proof (wval_head u0 Xs HXs); pose proof (wval_bounds _ HDs); rewrite (wval_cons b); replace (zlen Xs) with (zlen Ds) in * by lia; nia. }
    pose proof (wval_bounds _ HX); rewrite Z.mul_0_l, Z.add_0_l in *; rewrite Z.div_small, Z.mod_small by lia.
    repeat split; try llia; exact HX.
  - rewrite second_rd; destruct (Xs ++ R) as [|y XR] eqn:EX; [apply (f_equal zlen) in EX; llia|]; cbn [second obind].
    assert (Forall word_ok (y :: XR)) as [Hy _]%Forall_cons_iff by (rewrite <- EX; apply Forall_app; auto).
    assert ((if zlen Ds >? 0 then let? c := rd (pre2 ++ b :: Ds ++ post2) (zlen pre2 + 1) in Some (Some c) else Some None) = Some (second Ds)) as ->.
    { rewrite second_rd; destruct Ds as [|c D2]; [reflexivity|]; assert ((zlen (c :: D2) >? 0) = true) as -> by llia; reflexivity. }
    cbn [obind]; destruct (guess_spec d u0 Xs y Hu HXs ltac:(lia) Hy) as (g & -> & Hg & Gr); [|exact Hd|exact HU|].
    { intros y' Es; destruct Xs as [|x1 X1]; [discriminate Es|injection Es as <-; injection EX as ->; reflexivity]. }
    rewrite <- EX; cbn [obind]; assert ((zlen P + zlen Ds <? zlen (P ++ u0 :: Xs ++ R)) = true) as -> by llia.
    destruct (div_take_spec g d P (u0 :: Xs) R Hg HX ltac:(llia) Hd Gr) as (X' & E & F); exists X'; split; [exact E|exact F].
Qed.

Lemma divisor_pos : 0 < D.
Proof. pose proof divisor_bounds as [HD HK]; lia. Qed.

Lemma quotient_word U : 0 <= U < D * B -> word_ok (U / D) /\ 0 <= U mod D < D.
Proof.
  intros HU; pose proof divisor_pos as HD; split; [|apply Z.mod_pos_bound, HD].
  split; [apply Z.div_pos; lia|apply Z.div_lt_upper_bound; lia].
Qed.

(** ** The loop *)

(** The buffer of the quotient, if there is one. *)
Definition obuf (wanted : bool) (l : list Z) : option (list Z) := if wanted then Some l else None.

(** The words of the dividend from [start1] and the carry before them are below
    the divisor, so that the next word of the quotient is below the base. *)
Lemma window d U : 0 <= d -> Forall word_ok U -> n2 <= zlen U -> d * B ^ zlen U + wval U < D * B ^ (zlen U - zlen Ds) ->
  exists X R, U = X ++ R /\ zlen X = n2 /\ zlen R = zlen U - n2 /\ Forall word_ok X /\ Forall word_ok R /\ d * B ^ n2 + wval X < D * B /\
    d * B ^ zlen U + wval U = (d * B ^ n2 + wval X) * B ^ zlen R + wval R.
Proof.
  intros Hd HU LU H; pose proof (zlen_nonneg Ds); destruct (zsplit n2 U) as (X & R & -> & LX & LR); [lia|].
  apply Forall_app in HU as [HX HR]; exists X, R; rewrite wval_app, zlen_app in *; pose proof (wval_bounds _ HR) as BR.
  assert (d * B ^ (zlen X + zlen R) + (wval X * B ^ zlen R + wval R) = (d * B ^ n2 + wval X) * B ^ zlen R + wval R) as E
    by (rewrite LX, Z.pow_add_r by llia; ring).
  repeat split; try assumption; try lia; rewrite E in H; replace (zlen X + zlen R - zlen Ds) with (1 + zlen R) in H by lia.
  rewrite (Z.pow_add_r B 1), Z.pow_1_r in H by llia; pose proof (base_pow_pos (zlen R) ltac:(llia)).
  apply Z.mul_lt_mono_pos_r with (B ^ zlen R); lia.
Qed.

Lemma div_loop_spec wanted n : forall d P U o1 mid o2, word_ok d -> Forall word_ok U ->
  n2 + Z.of_nat n - 1 <= zlen U -> 1 + Z.of_nat n <= zlen U -> zlen mid = Z.of_nat n ->
  d * B ^ zlen U + wval U < D * B ^ (zlen U - zlen Ds) ->
  exists Q d' P' U',
    div_loop n (nf b) (scaled_word b (second Ds)) d b2 (P ++ U) (zlen P) (zlen pre2) (zlen Ds) (obuf wanted (o1 ++ mid ++ o2)) (zlen o1)
    = Some (obuf wanted (o1 ++ Q ++ o2), P' ++ U', zlen P', d') /\
    zlen Q = Z.of_nat n /\ Forall word_ok Q /\ word_ok d' /\ Forall word_ok U' /\ zlen U' = zlen U - Z.of_nat n /\ zlen P' = zlen P + Z.of_nat n /\
    d * B ^ zlen U + wval U = wval Q * D * B ^ (zlen U' - zlen Ds) + (d' * B ^ zlen U' + wval U') /\
    d' * B ^ zlen U' + wval U' < D * B ^ (zlen U' - zlen Ds) /\
    (P' = P /\ d' = d \/ exists P0, P' = P0 ++ [d']).
Proof.
  induction n as [|n IH]; intros d P U o1 mid o2 Hwd HU L1 L2 Lm H; pose proof (proj1 Hwd) as Hd.
  - exists [], d, P, U; rewrite (zlen_zero mid) by lia; change (wval []) with 0; rewrite !Z.mul_0_l, !Z.sub_0_r, !Z.add_0_r.
    repeat split; try assumption; try apply Forall_nil; try apply Hwd; auto.
  - pose proof (zlen_nonneg Ds); destruct (window d U Hd HU ltac:(lia) H) as (X & R & -> & LX & LR & HX & HR & HW & E).
    destruct (div_word_spec d P X R HX LX HR ltac:(lia) Hd HW) as (X' & Ew & LX' & HX' & VX').
    assert (0 <= d * B ^ n2 + wval X) as HW0.
    { apply Z.add_nonneg_nonneg; [apply Z.mul_nonneg_nonneg; [exact Hd|apply Z.pow_nonneg; discriminate]|apply wval_bounds, HX]. }
    destruct (quotient_word (d * B ^ n2 + wval X) (conj HW0 HW)) as [Hq Hm].
    pose proof (Z.div_mod (d * B ^ n2 + wval X) D ltac:(pose proof divisor_pos; lia)) as Ed.
    set (q := (d * B ^ n2 + wval X) / D) in *; set (m := (d * B ^ n2 + wval X) mod D) in *; clearbody q m.
    destruct mid as [|z mid]; [llia|]; destruct X' as [|x X']; [llia|]; apply Forall_cons_iff in HX' as [Hx HX'].
    assert (x * B ^ zlen (X' ++ R) + wval (X' ++ R) = m * B ^ zlen R + wval R) as Er
      by (rewrite <- VX', wval_cons, wval_app, zlen_app, Z.pow_add_r by llia; ring).
    assert (zlen (X' ++ R) = zlen (X ++ R) - 1 /\ zlen (X ++ R) = zlen R + n2) as [LL LL2] by (clear - LX LX'; llia).
    destruct (IH x (P ++ [x]) (X' ++ R) (o1 ++ [q]) mid o2) as (Q & d' & P' & U' & EL & LQ & HQ & Hd' & HU' & LU' & LP' & EV & Lt & EP).
    { exact Hx. } { apply Forall_app; auto. } { clear - L1 LL; lia. } { clear - L2 LL; lia. } { clear - Lm; llia. }
    { rewrite Er; replace (zlen (X' ++ R) - zlen Ds) with (zlen R) by (clear - LL LL2; lia).
      apply digits_below; [exact Hm|apply wval_bounds, HR]. }
    exists (q :: Q), d', P', U'; cbn [div_loop]; rewrite Ew; cbn [obind app].
    assert (match obuf wanted (o1 ++ z :: mid ++ o2) with Some o => let? o := wr o (zlen o1) (i32 q) in Some (Some o) | None => Some None end
            = Some (obuf wanted ((o1 ++ [q]) ++ mid ++ o2))) as ->.
    { rewrite i32_small by (clear - Hq; unfold word_ok, digit_ok, DIG_BASE in Hq; lia); destruct wanted; cbn [obuf]; [|reflexivity].
      rewrite wr_at by reflexivity; cbn [obind]; rewrite <- app_assoc; reflexivity. }
    cbn [obind]; rewrite rd_at by reflexivity; cbn [obind].
    rewrite <- app_assoc in EL; cbn [app] in EL; rewrite zlen_app in EL, LP'; change (zlen [x]) with 1 in *.
    rewrite zlen_app in EL; change (zlen [q]) with 1 in EL; rewrite EL, <- app_assoc; split; [reflexivity|].
    split; [clear - LQ; llia|]; split; [apply Forall_cons; assumption|]; split; [exact Hd'|]; split; [exact HU'|].
    split; [clear - LU' LL; lia|]; split; [clear - LP'; lia|]; split; [|split; [exact Lt|]].
    + rewrite E, Ed, (wval_cons q), LQ; rewrite Er in EV; clear - EV LU' LL LL2 L1.
      replace (B ^ zlen R) with (B ^ Z.of_nat n * B ^ (zlen U' - zlen Ds)) in *
        by (rewrite <- Z.pow_add_r by (pose proof (zlen_nonneg R); lia); f_equal; lia).
      lia.
    + right; destruct EP as [[-> ->]|EP]; [exists P; reflexivity|exact EP].
Qed.
End divisor.
