(* ===== verification/DecDivSpec.v ===== *)
(** Division of decimals: what [decimal_div] and [decimal_mod] give.

    The operands without their leading zeros ([div_operand_spec]), the words of
    the quotient before and after the point, and the division proper
    ([div_run_spec]) come together in the theorems on the results. *)

From Stdlib Require Import ZArith Lia ZifyBool List Bool QArith Qabs.
From S2P Require Import Prelude Words Decimal DecArith DecSub DecDiv DecGuess DecQuot.
Import ListNotations.
Local Open Scope Z_scope.
Local Open Scope fail_scope.

Local Abbreviation B := DIG_BASE.

(** ** The operands *)

(** An operand that is not zero: its words from the first one that is not zero,
    and its digits. *)
Record operand (d : decimal_t) (prec p w : Z) (m post : list Z) : Prop := {
  o_buf : buf d = repeat 0 (Z.to_nat p) ++ (w :: m) ++ post;
  o_pos : 0 <= p;
  o_word : 1 <= w < B;
  o_words : Forall word_ok m;
  o_mant : wval (w :: m) = mant d;
  o_count : p + (zlen m + 1) = nint d + nfrac d;
  o_prec : 9 * zlen m < prec <= 9 * zlen m + 9;
  o_digits : 10 ^ (prec - 1 - 9 * zlen m) <= w < 10 ^ (prec - 9 * zlen m) }.

Lemma lead_digits w m k : Forall word_ok m -> 9 * zlen m < k -> 10 ^ (k - 1) <= wval (w :: m) < 10 ^ k ->
  10 ^ (k - 1 - 9 * zlen m) <= w < 10 ^ (k - 9 * zlen m).
Proof.
  intros Hm Hk BL; pose proof (wval_bounds _ Hm) as Bm; pose proof (zlen_nonneg m); rewrite wval_cons, base_pow in * by lia.
  replace (k - 1) with (k - 1 - 9 * zlen m + 9 * zlen m) in BL at 1 by lia; replace k with (k - 9 * zlen m + 9 * zlen m) in BL at 2 by lia.
  rewrite !Z.pow_add_r in BL by flia; pose proof (Z.pow_pos_nonneg 10 (9 * zlen m) ltac:(lia) ltac:(flia)); nia.
Qed.

Lemma div_operand_spec d : wf d ->
  (mant d = 0 /\ div_operand d = Some None) \/
  (exists prec p w m post, div_operand d = Some (Some (prec, p)) /\ operand d prec p w m post).
Proof.
  intros W; pose proof (nint_bounds d W) as Hn; pose proof (nfrac_bounds d W) as Hf.
  destruct (wf_layout d W) as (I & F & R & E & LI & LF & Ew & _ & HI & HF & _).
  pose proof (wf_intg _ W); pose proof (wf_lead _ W) as HL; unfold div_operand; fold (nfrac d); unfold DIG_PER_DEC1.
  set (k := intg d + nfrac d * 9); assert (round_up k = zlen (I ++ F)) as Hk.
  { apply round_up_unique; unfold k; rewrite ?zlen_app; lia. }
  destruct (skip_zero_words_eq (S (Z.to_nat k)) (I ++ F) [] R k (Z.rem (k - 1) 9 + 1)) as (z & m & Em & Hm & ES);
    [rewrite zlen_app; unfold k; lia|unfold k; lia|exact Hk|reflexivity|].
  cbn [app] in ES; change (zlen (@nil Z)) with 0 in ES; rewrite <- app_assoc, <- E in ES; rewrite ES; cbn [obind Z.add]; clear ES.
  assert (Forall word_ok (I ++ F)) as HIF by (apply Forall_app; auto); rewrite Em in HIF; apply Forall_app in HIF as [_ Hmo].
  assert (mant d = wval m) as Emt by (unfold mant; rewrite Ew, Em, wval_app, wval_zeros; lia).
  assert (zlen (I ++ F) = Z.of_nat z + zlen m) as Lz by (rewrite Em; llia); rewrite zlen_app in Lz.
  set (k0 := if (z =? 0)%nat then k else 9 * zlen m).
  assert (0 <= k0 /\ round_up k0 = zlen m /\ wval m < 10 ^ k0) as (Hk0 & Hr & HB).
  { pose proof (zlen_nonneg m); unfold k0; destruct (Nat.eqb_spec z 0).
    - rewrite Hk, zlen_app; repeat split; [unfold k; lia|lia|rewrite <- Emt; unfold k; rewrite (Z.mul_comm _ 9); exact HL].
    - rewrite Z.mul_comm, round_up_mul, (Z.mul_comm _ 9), <- base_pow by lia; repeat split; [lia|apply wval_bounds, Hmo]. }
  clearbody k0; pose proof (round_up_bounds k0 Hk0) as Hb; rewrite Hr in Hb; destruct Hm as [->|Hm].
  - left; change (zlen (@nil Z)) with 0 in *; assert ((k0 <=? 0) = true) as -> by lia; rewrite Emt; auto.
  - right; destruct m as [|w m]; [cbn in Hm; lia|]; cbn [hd] in Hm; rewrite zlen_cons in *; pose proof (zlen_nonneg m).
    assert ((k0 <=? 0) = false) as -> by lia; rewrite E, app_assoc, Em, <- app_assoc; cbn [app].
    rewrite rd_at by (rewrite zlen_repeat; reflexivity); cbn [obind].
    destruct (first_word_digits w m k0) as (prec & ED & Hp & Hrp & BL); [assumption..|].
    change 9 with DIG_PER_DEC1 at 1; rewrite ED; cbn [obind]; assert ((prec >? 0) = true) as -> by lia.
    exists prec, (Z.of_nat z), w, m, R; split; [reflexivity|].
    pose proof (round_up_bounds prec ltac:(lia)) as Hpb; rewrite Hrp in Hpb; apply Forall_cons_iff in Hmo as [Hw Hmo].
    unfold word_ok, digit_ok in Hw; constructor; try lia; rewrite ?Nat2Z.id; try assumption.
    + rewrite E, app_assoc, Em, <- app_assoc; reflexivity.
    + apply lead_digits; assumption || lia.
Qed.

(** ** The words of the quotient *)

(** The words of the quotient before the point, or the zeros after it: with the
    first word [w] at least the other one, one more than the difference. *)
Definition quot_int (w1 n1 f1 w2 n2 f2 : Z) : Z := (n1 - f1) - (n2 - f2) + Z.b2z (w1 >=? w2).

Lemma digits_order w1 k1 w2 k2 : 1 <= k1 -> 1 <= k2 -> 10 ^ (k1 - 1) <= w1 < 10 ^ k1 -> 10 ^ (k2 - 1) <= w2 < 10 ^ k2 ->
  (w2 <= w1 -> k2 <= k1) /\ (w1 < w2 -> k1 <= k2).
Proof.
  intros H1 H2 B1 B2; split; intros H; apply Z.nlt_ge; intros G;
    [pose proof (Z.pow_le_mono_r 10 k1 (k2 - 1) ltac:(lia) ltac:(lia))|pose proof (Z.pow_le_mono_r 10 k2 (k1 - 1) ltac:(lia) ltac:(lia))]; lia.
Qed.

Lemma quot_int_digits a prec1 p1 w1 m1 post1 b prec2 p2 w2 m2 post2 : operand a prec1 p1 w1 m1 post1 -> operand b prec2 p2 w2 m2 post2 ->
  let dintg := prec1 - nfrac a * 9 - (prec2 - nfrac b * 9) + Z.b2z (w1 >=? w2) in
  let qi := quot_int w1 (zlen m1 + 1) (nfrac a) w2 (zlen m2 + 1) (nfrac b) in
  (dintg < 0 -> dintg ÷ 9 = qi /\ qi <= 0) /\ (0 <= dintg -> round_up dintg = qi /\ 0 <= qi).
Proof.
  intros A1 A2; pose proof (o_prec _ _ _ _ _ _ A1); pose proof (o_prec _ _ _ _ _ _ A2).
  destruct (digits_order w1 (prec1 - 9 * zlen m1) w2 (prec2 - 9 * zlen m2)) as [H1 H2]; [lia|lia| | |].
  { pose proof (o_digits _ _ _ _ _ _ A1) as E; replace (prec1 - 1 - 9 * zlen m1) with (prec1 - 9 * zlen m1 - 1) in E by lia; exact E. }
  { pose proof (o_digits _ _ _ _ _ _ A2) as E; replace (prec2 - 1 - 9 * zlen m2) with (prec2 - 9 * zlen m2 - 1) in E by lia; exact E. }
  unfold quot_int; rewrite Z.geb_leb; cbv zeta; destruct (Z.leb_spec w2 w1) as [Hw|Hw]; cbn [Z.b2z];
    [specialize (H1 Hw)|specialize (H2 Hw)]; (split; intros Hd; [|rewrite round_up_eq by lia]); dlia.
Qed.

(** ** The division proper *)

Lemma last_word_eq b m : forall fuel pre post, b <> 0 -> (Z.to_nat (zlen m) < fuel)%nat ->
  exists Ds z, m = Ds ++ repeat 0 z /\ last_word fuel (pre ++ (b :: m) ++ post) (zlen pre) (zlen pre + zlen m) = Some (zlen pre + zlen Ds).
Proof.
  induction m as [|x m IH] using rev_ind; intros [|fuel] pre post Hb Hf; try llia; cbn [last_word].
  - exists [], 0%nat; split; [reflexivity|]; cbn [app]; rewrite rd_at by llia; cbn [obind].
    destruct (Z.eqb_spec b 0); [contradiction|reflexivity].
  - assert (pre ++ (b :: m ++ [x]) ++ post = (pre ++ b :: m) ++ x :: post) as -> by (cbn [app]; rewrite <- !app_assoc; reflexivity).
    rewrite rd_at by llia; cbn [obind].
    assert ((zlen pre + zlen (m ++ [x]) >=? zlen pre) = true) as -> by llia; rewrite andb_true_r.
    destruct (Z.eqb_spec x 0) as [->|Hx].
    + destruct (IH fuel pre (0 :: post) Hb ltac:(llia)) as (Ds & z & -> & E); exists Ds, (S z); split.
      * rewrite <- app_assoc; f_equal; change [0] with (repeat 0 1); rewrite <- repeat_app; f_equal; lia.
      * rewrite <- E; cbn [app]; rewrite <- (app_assoc pre); cbn [app]; f_equal; llia.
    + exists (m ++ [x]), 0%nat; rewrite app_nil_r; auto.
Qed.

(** The dividend, as a carry and the words from [start1]: the carry is its first
    word if that is below the first word of the divisor. *)
Lemma first_carry w1 T b Ds : 1 <= w1 < B -> Forall word_ok T -> 1 <= b < B -> Forall word_ok Ds ->
  exists d P U, (if w1 <? b then (w1, 1) else (0, 0)) = (d, zlen P) /\ w1 :: T = P ++ U /\ word_ok d /\ Forall word_ok U /\
    zlen P = Z.b2z (w1 <? b) /\ zlen U = zlen T + 1 - Z.b2z (w1 <? b) /\
    d * B ^ zlen U + wval U = wval (w1 :: T) /\
    (zlen Ds <= zlen U -> d * B ^ zlen U + wval U < wval (b :: Ds) * B ^ (zlen U - zlen Ds)) /\
    (P = [] /\ d = 0 \/ P = [d] /\ 0 < d).
Proof.
  intros Hw HT Hb HDs; pose proof (divisor_bounds b Ds Hb HDs) as [HD HK]; pose proof (zlen_nonneg Ds).
  assert (Forall word_ok (w1 :: T)) as HwT by (apply Forall_cons; [unfold word_ok, digit_ok; lia|exact HT]).
  destruct (Z.ltb_spec w1 b) as [Hlt|Hge]; cbn [Z.b2z] in *.
  - exists w1, [w1], T; repeat split; try apply (Forall_inv HwT); try assumption; try reflexivity; try lia; [intros HL|right; split; [reflexivity|lia]].
    pose proof (wval_head w1 T HT) as Hh; rewrite wval_cons in Hh.
    assert (b * B ^ zlen T <= wval (b :: Ds) * B ^ (zlen T - zlen Ds)); [|pose proof (base_pow_pos (zlen T) ltac:(llia)); nia].
    replace (B ^ zlen T) with (B ^ zlen Ds * B ^ (zlen T - zlen Ds)) by (rewrite <- Z.pow_add_r by lia; f_equal; lia).
    rewrite wval_cons; pose proof (wval_bounds _ HDs); pose proof (base_pow_pos (zlen T - zlen Ds) ltac:(lia)); nia.
  - exists 0, [], (w1 :: T); rewrite Z.mul_0_l, Z.add_0_l, zlen_cons; repeat split; try assumption; try reflexivity; try (unfold DIG_BASE; lia); try lia; [intros HL|auto].
    pose proof (wval_bounds _ HwT) as [_ H1]; rewrite zlen_cons in H1.
    apply Z.lt_le_trans with (1 := H1); replace (zlen T + 1) with (zlen Ds + (zlen T + 1 - zlen Ds)) at 1 by lia.
    rewrite Z.pow_add_r by lia; pose proof (base_pow_pos (zlen T + 1 - zlen Ds) ltac:(lia)); nia.
Qed.

(** The scaled word, as the code computes it. *)
Lemma norm2_eq b Ds L pre : 1 <= b < B -> Forall word_ok Ds ->
  (if zlen Ds >? 0 then
     let? c := rd (pre ++ b :: Ds ++ L) (zlen pre + 1) in Some (i32 (i32 (nf b * b) + i32 (i64 (nf b * c) ÷ B)))
   else Some (i32 (nf b * b))) = Some (scaled_word b (second Ds)).
Proof.
  intros Hb HDs; rewrite second_rd; destruct (nf_bounds b Hb) as (K1 & K2 & _).
  assert (0 <= nf b * b <= B) as Hn by nia; rewrite (i32_small (nf b * b)) by (unfold DIG_BASE in *; lia).
  pose proof (scaled_bounds b (second Ds) Hb) as Hs; unfold scaled_word in *; destruct Ds as [|c Ds]; cbn [second app obind] in *.
  - rewrite Z.add_0_r; reflexivity.
  - apply Forall_cons_iff in HDs as [Hc _]; specialize (Hs ltac:(intros ? [= <-]; exact Hc)).
    assert ((zlen (c :: Ds) >? 0) = true) as -> by llia; unfold word_ok, digit_ok in Hc; pose proof (nf_mul b c B Hb ltac:(unfold DIG_BASE in *; lia)) as G.
    assert (0 <= nf b * c / B) by (apply Z.div_pos; unfold DIG_BASE in *; lia).
    rewrite (i64_small (nf b * c)) by (unfold DIG_BASE in *; lia); rewrite Z.quot_div_nonneg by (unfold DIG_BASE in *; lia).
    rewrite (i32_small (nf b * c / B)) by (unfold DIG_BASE in *; lia); rewrite i32_small by (unfold DIG_BASE in *; lia); reflexivity.
Qed.

(** What the main loop starts from: the divisor without its last zeros, the
    dividend with zeros after it. *)
Lemma div_run_start n a prec1 p1 w1 m1 post1 b prec2 p2 w2 m2 post2 extra out p0 :
  operand a prec1 p1 w1 m1 post1 -> operand b prec2 p2 w2 m2 post2 -> 0 <= extra ->
  let s := Z.b2z (w1 <? w2) in
  let len1 := Z.max (zlen m1 + 1 + extra + 1) 3 in
  exists Ds z d P U, m2 = Ds ++ repeat 0 z /\ word_ok d /\ Forall word_ok Ds /\ Forall word_ok U /\ zlen P = s /\ zlen U = len1 - s /\
    (P = [] /\ d = 0 \/ P = [d] /\ 0 < d) /\
    d * B ^ zlen U + wval U = mant a * B ^ (len1 - (zlen m1 + 1)) /\
    (zlen Ds <= zlen U -> d * B ^ zlen U + wval U < wval (w2 :: Ds) * B ^ (zlen U - zlen Ds)) /\
    div_run n (buf a) (buf b) p1 (round_up prec1) extra p2 prec2 out p0
    = div_loop n (nf w2) (scaled_word w2 (second Ds)) d (repeat 0 (Z.to_nat p2) ++ (w2 :: Ds) ++ repeat 0 z ++ post2) (P ++ U) (zlen P)
        (zlen (repeat 0 (Z.to_nat p2))) (zlen Ds) out p0.
Proof.
  intros A1 A2 Hex s len1.
  pose proof (o_pos _ _ _ _ _ _ A1); pose proof (o_prec _ _ _ _ _ _ A1); pose proof (o_prec _ _ _ _ _ _ A2); pose proof (o_pos _ _ _ _ _ _ A2).
  pose proof (zlen_nonneg m1); pose proof (zlen_nonneg m2); pose proof (o_word _ _ _ _ _ _ A1) as Hw1; pose proof (o_word _ _ _ _ _ _ A2) as Hw2.
  unfold div_run; replace (round_up prec1) with (zlen m1 + 1) by (symmetry; apply round_up_unique; lia).
  replace (round_up prec2) with (zlen m2 + 1) by (symmetry; apply round_up_unique; lia).
  fold len1; rewrite (o_buf _ _ _ _ _ _ A1), (o_buf _ _ _ _ _ _ A2); set (Z1 := repeat 0 (Z.to_nat p1)); set (Z2 := repeat 0 (Z.to_nat p2)).
  assert (zlen Z1 = p1 /\ zlen Z2 = p2) as [L1 L2] by (unfold Z1, Z2; rewrite !zlen_repeat; lia).
  assert ((p1 + (zlen m1 + 1) <=? zlen (Z1 ++ (w1 :: m1) ++ post1)) && (0 <=? zlen m1 + 1) && (zlen m1 + 1 <=? len1) = true) as ->
    by (unfold len1; llia).
  rewrite zdrop_app, ztake_app by llia; replace (p2 + (zlen m2 + 1) - 1) with (zlen Z2 + zlen m2) by lia.
  destruct (last_word_eq w2 m2 (S (Z.to_nat (zlen m2 + 1))) Z2 post2) as (Ds & z & Em & EL); [lia|lia|].
  rewrite <- L2, EL; cbn [obind]; clear EL; cbn [app]; rewrite rd_at by reflexivity; cbn [obind].
  subst m2; pose proof (o_words _ _ _ _ _ _ A2) as Hm2; apply Forall_app in Hm2 as [HDs _].
  replace (zlen Z2 + zlen Ds - zlen Z2) with (zlen Ds) by lia; replace (B ÷ (w2 + 1)) with (nf w2) by (unfold nf; rewrite Z.quot_div_nonneg; lia).
  rewrite <- (app_assoc Ds), (norm2_eq w2 Ds _ Z2 Hw2 HDs); cbn [obind]; rewrite rd_0; cbn [obind].
  set (T := m1 ++ repeat 0 (Z.to_nat (len1 - (zlen m1 + 1)))).
  assert (Forall word_ok T) as HT by (apply Forall_app; split; [apply (o_words _ _ _ _ _ _ A1)|apply word_ok_zeros]).
  assert (zlen T = len1 - 1) as LT by (unfold T; rewrite zlen_app, zlen_repeat; unfold len1; lia).
  destruct (first_carry w1 T w2 Ds Hw1 HT Hw2 HDs) as (d & P & U & Ec & ET & Hd & HU & LP & LU & EV & Lt & EP).
  exists Ds, z, d, P, U; rewrite EV in Lt; rewrite Ec, ET, EV; fold s in LP, LU; repeat split; try assumption; try apply Hd; try lia.
  unfold T; rewrite app_comm_cons, wval_app, wval_zeros, (o_mant _ _ _ _ _ _ A1), zlen_repeat, Z2Nat.id by (unfold len1; lia); lia.
Qed.

(** The quotient of [n] words and the remainder, in the words that the dividend
    has been filled up to. *)
Lemma div_run_spec wanted a prec1 p1 w1 m1 post1 b prec2 p2 w2 m2 post2 n extra o1 mid o2 :
  operand a prec1 p1 w1 m1 post1 -> operand b prec2 p2 w2 m2 post2 -> 0 <= extra -> (0 < n)%nat -> zlen mid = Z.of_nat n ->
  let s := Z.b2z (w1 <? w2) in
  let len1 := Z.max (zlen m1 + 1 + extra + 1) 3 in
  let rest := len1 - s - Z.of_nat n in
  zlen m2 <= rest -> 1 <= rest ->
  exists Q d' P' U',
    div_run n (buf a) (buf b) p1 (round_up prec1) extra p2 prec2 (obuf wanted (o1 ++ mid ++ o2)) (zlen o1)
    = Some (obuf wanted (o1 ++ Q ++ o2), P' ++ U', zlen P', d') /\
    zlen Q = Z.of_nat n /\ Forall word_ok Q /\ word_ok d' /\ Forall word_ok U' /\ zlen U' = rest /\ zlen P' = s + Z.of_nat n /\
    (exists P0, P' = P0 ++ [d']) /\
    mant a * B ^ (len1 - (zlen m1 + 1)) = wval Q * (mant b * B ^ (rest - zlen m2)) + (d' * B ^ rest + wval U') /\
    d' * B ^ rest + wval U' < mant b * B ^ (rest - zlen m2).
Proof.
  intros A1 A2 Hex Hn Lm s len1 rest Hr2 Hr1.
  destruct (div_run_start n a prec1 p1 w1 m1 post1 b prec2 p2 w2 m2 post2 extra (obuf wanted (o1 ++ mid ++ o2)) (zlen o1) A1 A2 Hex)
    as (Ds & z & d & P & U & Em & Hd & HDs & HU & LP & LU & EP & EV & Lt & ->); fold s len1 in LP, LU, EV.
  assert (zlen m2 = zlen Ds + Z.of_nat z) as Lm2 by (rewrite Em; llia).
  assert (mant b = wval (w2 :: Ds) * B ^ Z.of_nat z) as Emb
    by (rewrite <- (o_mant _ _ _ _ _ _ A2), Em, app_comm_cons, wval_app, wval_zeros, zlen_repeat; lia).
  pose proof (zlen_nonneg Ds).
  destruct (div_loop_spec w2 Ds (repeat 0 (Z.to_nat p2)) (repeat 0 z ++ post2) (o_word _ _ _ _ _ _ A2) HDs wanted n d P U o1 mid o2 Hd HU)
    as (Q & d' & P' & U' & EL & LQ & HQ & Hd' & HU' & LU' & LP' & EV' & Lt' & EP'); [flia|flia|exact Lm|apply Lt; flia|].
  rewrite EL; exists Q, d', P', U'; assert (zlen U' = rest) as LUr by flia; rewrite EV in EV'; rewrite LUr in EV', Lt'.
  assert (mant b * B ^ (rest - zlen m2) = wval (w2 :: Ds) * B ^ (rest - zlen Ds)) as ->.
  { rewrite Emb, <- Z.mul_assoc, <- Z.pow_add_r by flia; do 2 f_equal; flia. }
  rewrite Z.mul_assoc; split; [reflexivity|]; repeat (split; [assumption || flia|]).
  split; [|split; assumption]; destruct EP' as [[-> _]|EP']; [exfalso; flia|exact EP'].
Qed.

(** ** The quotient *)

(** [r] has the magnitude of the quotient, cut after its last word. *)
Definition quotient (a b : decimal_t) (q k : Z) : Prop :=
  q * (mant b * B ^ nfrac a) <= mant a * B ^ (nfrac b + k) < (q + 1) * (mant b * B ^ nfrac a).

Lemma scale_cmp N M q X Y F G : 0 <= X -> 0 <= Y -> 0 <= F -> 0 <= G -> Y + F = X + G ->
  q * (M * B ^ X) <= N * B ^ Y < (q + 1) * (M * B ^ X) -> q * (M * B ^ F) <= N * B ^ G < (q + 1) * (M * B ^ F).
Proof.
  intros HX HY HF HG E H; pose proof (base_pow_pos X HX) as PX; pose proof (base_pow_pos F HF) as PF.
  assert (B ^ Y * B ^ F = B ^ X * B ^ G) as EP by (rewrite <- !Z.pow_add_r by assumption; f_equal; exact E).
  assert (N * B ^ G * B ^ X = N * B ^ Y * B ^ F) as EN by (rewrite <- !Z.mul_assoc, EP; ring).
  split; [apply Z.mul_le_mono_pos_r with (B ^ X)|apply Z.mul_lt_mono_pos_r with (B ^ X)]; try exact PX; rewrite EN.
  - replace (q * (M * B ^ F) * B ^ X) with (q * (M * B ^ X) * B ^ F) by ring; apply Z.mul_le_mono_pos_r; [exact PF|apply H].
  - replace ((q + 1) * (M * B ^ F) * B ^ X) with ((q + 1) * (M * B ^ X) * B ^ F) by ring; apply Z.mul_lt_mono_pos_r; [exact PF|apply H].
Qed.

(** Without a word the quotient is zero. *)
Lemma quotient_zero a prec1 p1 w1 m1 post1 b prec2 p2 w2 m2 post2 k : wf a -> wf b -> 0 <= k ->
  operand a prec1 p1 w1 m1 post1 -> operand b prec2 p2 w2 m2 post2 ->
  quot_int w1 (zlen m1 + 1) (nfrac a) w2 (zlen m2 + 1) (nfrac b) + k <= 0 -> quotient a b 0 k.
Proof.
  intros Wa Wb Hk A1 A2 Hq; pose proof (nfrac_bounds a Wa); pose proof (nfrac_bounds b Wb).
  pose proof (zlen_nonneg m1); pose proof (zlen_nonneg m2); pose proof (o_word _ _ _ _ _ _ A1) as Hw1; pose proof (o_word _ _ _ _ _ _ A2) as Hw2.
  unfold quotient; rewrite Z.mul_0_l, Z.add_0_l, Z.mul_1_l; pose proof (mant_bounds a Wa) as Ma.
  split; [apply Z.mul_nonneg_nonneg; [lia|apply Z.pow_nonneg; discriminate]|].
  pose proof (wval_head w1 m1 (o_words _ _ _ _ _ _ A1)) as B1; pose proof (wval_bounds _ (o_words _ _ _ _ _ _ A2)) as B2.
  assert (w2 * B ^ zlen m2 <= mant b) as Lb by (rewrite <- (o_mant _ _ _ _ _ _ A2), wval_cons; lia); rewrite (o_mant _ _ _ _ _ _ A1) in B1.
  pose proof (base_pow_pos (nfrac b + k) ltac:(flia)) as P1; pose proof (base_pow_pos (nfrac a) ltac:(flia)) as P2.
  assert ((w1 + 1) * B ^ (zlen m1 + (nfrac b + k)) <= w2 * B ^ (zlen m2 + nfrac a)) as G.
  { clear Ma B1 B2 Lb P1 P2; unfold quot_int in Hq; rewrite Z.geb_leb in Hq; pose proof (base_pow_pos (zlen m1 + (nfrac b + k)) ltac:(flia)) as P.
    destruct (Z.leb_spec w2 w1) as [Hw|Hw]; cbn [Z.b2z] in Hq.
    - pose proof (Z.pow_le_mono_r B (zlen m1 + (nfrac b + k) + 1) (zlen m2 + nfrac a) ltac:(reflexivity) ltac:(flia)) as M.
      rewrite Z.pow_add_r, Z.pow_1_r in M by flia; clear - Hw1 Hw2 P M; nia.
    - pose proof (Z.pow_le_mono_r B (zlen m1 + (nfrac b + k)) (zlen m2 + nfrac a) ltac:(reflexivity) ltac:(flia)) as M.
      clear - Hw1 Hw2 P M Hw; nia. }
  rewrite !Z.pow_add_r in G by flia; rewrite Z.pow_add_r in * by flia.
  apply Z.lt_le_trans with ((w1 + 1) * B ^ zlen m1 * (B ^ nfrac b * B ^ k)); [apply Z.mul_lt_mono_pos_r; [exact P1|exact B1]|].
  apply Z.le_trans with (w2 * B ^ zlen m2 * B ^ nfrac a); [lia|apply Z.mul_le_mono_nonneg_r; lia].
Qed.

(** The words of the quotient with [k] words after the point, in the buffer [t]. *)
Lemma quotient_words a prec1 p1 w1 m1 post1 b prec2 p2 w2 m2 post2 k si t : wf a -> wf b ->
  operand a prec1 p1 w1 m1 post1 -> operand b prec2 p2 w2 m2 post2 ->
  let qi := quot_int w1 (zlen m1 + 1) (nfrac a) w2 (zlen m2 + 1) (nfrac b) in
  let n := Z.max qi 0 + k in
  0 <= si -> 0 <= k <= nfrac a + nfrac b + round_up si -> n <= zlen t -> - qi <= zlen t ->
  exists out post tmp s1 d, zlen out = n /\ Forall word_ok out /\ zlen (out ++ post) = zlen t /\ quotient a b (wval out) k /\
    (let? (b0, p0) := fill_up (Z.to_nat (- qi)) 0 t 0 in
     div_run (Z.to_nat (n - p0)) (buf a) (buf b) p1 (round_up prec1) (round_up (2 * (nfrac b * 9) + si + 1)) p2 prec2 (Some b0) p0)
    = Some (Some (out ++ post), tmp, s1, d).
Proof.
  intros Wa Wb A1 A2 qi n Hsi Hk Hn Hz; pose proof (nfrac_bounds a Wa); pose proof (nfrac_bounds b Wb).
  assert (round_up (2 * (nfrac b * 9) + si + 1) = 2 * nfrac b + round_up (si + 1)) as ->.
  { apply round_up_unique; pose proof (round_up_bounds (si + 1) ltac:(lia)); lia. }
  pose proof (round_up_bounds si Hsi); pose proof (round_up_bounds (si + 1) ltac:(lia)).
  assert (round_up si <= round_up (si + 1)) as Hrs by lia.
  destruct (zsplit (Z.max (- qi) 0) t) as (zs & t' & -> & Lzs & Lt'); [lia|].
  pose proof (fill_up_eq (Z.to_nat (- qi)) 0 zs [] t' 0) as Ef; cbn [app] in Ef; rewrite Ef by llia; cbn [obind]; clear Ef.
  set (Zs := repeat 0 (Z.to_nat (- qi))); assert (zlen Zs = Z.max (- qi) 0) as LZ by (unfold Zs; rewrite zlen_repeat; lia).
  replace (zlen [] + Z.of_nat (Z.to_nat (- qi))) with (zlen Zs) by (change (zlen (@nil Z)) with 0; lia).
  destruct (Z.le_gt_cases (qi + k) 0) as [Hs|Hs].
  - replace (Z.to_nat (n - zlen Zs)) with 0%nat by lia.
    destruct (div_run_start 0 a prec1 p1 w1 m1 post1 b prec2 p2 w2 m2 post2 (2 * nfrac b + round_up (si + 1)) (Some (Zs ++ t')) (zlen Zs) A1 A2)
      as (Ds & z & d & P & U & _ & _ & _ & _ & _ & _ & _ & _ & _ & ->); [lia|]; cbn [div_loop].
    destruct (zsplit n Zs) as (out & z' & EZ & Lo & Lz'); [lia|].
    assert (Forall word_ok out /\ wval out = 0) as [Ho Vo].
    { unfold Zs in EZ; destruct (app_eq_repeat 0 out z' _ (eq_sym EZ)) as [Eo _]; rewrite Eo; split; [apply word_ok_zeros|apply wval_zeros]. }
    exists out, (z' ++ t'), (P ++ U), (zlen P), d; rewrite EZ, <- app_assoc, Vo; repeat split; try assumption; try reflexivity.
    + rewrite app_assoc, <- EZ; llia.
    + apply (quotient_zero a prec1 p1 w1 m1 post1 b prec2 p2 w2 m2 post2 k); assumption || lia.
    + apply (quotient_zero a prec1 p1 w1 m1 post1 b prec2 p2 w2 m2 post2 k); assumption || lia.
  - replace (Z.to_nat (n - zlen Zs)) with (Z.to_nat (qi + k)) by lia.
    destruct (zsplit (qi + k) t') as (mid & o2 & -> & Lm & Lo2); [llia|].
    assert (Z.b2z (w1 >=? w2) = 1 - Z.b2z (w1 <? w2)) as Eg by (rewrite Z.geb_leb, Z.leb_antisym; destruct (w1 <? w2); reflexivity).
    assert (qi = zlen m1 - nfrac a - zlen m2 + nfrac b + 1 - Z.b2z (w1 <? w2)) as Eqi by (unfold qi, quot_int; lia).
    pose proof (zlen_nonneg m1); pose proof (zlen_nonneg m2); assert (0 <= Z.b2z (w1 <? w2) <= 1) by (destruct (w1 <? w2); cbn; lia).
    destruct (div_run_spec true a prec1 p1 w1 m1 post1 b prec2 p2 w2 m2 post2 (Z.to_nat (qi + k)) (2 * nfrac b + round_up (si + 1)) Zs mid o2 A1 A2)
      as (Q & d & P & U & ER & LQ & HQ & Hd & HU & LU & LP & _ & EV & Lt); [lia|lia|lia|lia|lia|].
    cbn [obuf] in ER; rewrite ER; rewrite Z2Nat.id in * by lia.
    exists (Zs ++ Q), o2, (P ++ U), (zlen P), d; rewrite wval_app; unfold Zs at 4; rewrite wval_zeros, Z.mul_0_l, Z.add_0_l.
    set (len1 := Z.max (zlen m1 + 1 + (2 * nfrac b + round_up (si + 1)) + 1) 3) in *.
    set (rest := len1 - Z.b2z (w1 <? w2) - (qi + k)) in *.
    split; [flia|split; [apply Forall_app; split; [apply word_ok_zeros|exact HQ]|split; [flia|split; [|rewrite <- app_assoc; reflexivity]]]].
    unfold quotient; apply (scale_cmp (mant a) (mant b) (wval Q) (rest - zlen m2) (len1 - (zlen m1 + 1))); [flia..|].
    pose proof (wval_bounds _ HU) as BU; pose proof (base_pow_pos rest ltac:(flia)) as BR; rewrite EV; clear - Lt BU BR Hd; unfold word_ok, digit_ok in Hd; nia.
Qed.

(** ** The results *)

(** The increase of the scale that is left after the fractions are filled up to
    whole words. *)
Definition scale_left (a b : decimal_t) (si : Z) : Z :=
  Z.max (si - (nfrac a * 9 - frac a + nfrac b * 9 - frac b)) 0.

(** The function on operands that are not zero, with the words of the quotient
    counted. *)
Lemma do_div_mod_eq a b to modulo si prec1 p1 w1 m1 post1 prec2 p2 w2 m2 post2 : wf a -> wf b ->
  div_operand a = Some (Some (prec1, p1)) -> div_operand b = Some (Some (prec2, p2)) ->
  operand a prec1 p1 w1 m1 post1 -> operand b prec2 p2 w2 m2 post2 ->
  let si' := scale_left a b si in
  let qi := quot_int w1 (zlen m1 + 1) (nfrac a) w2 (zlen m2 + 1) (nfrac b) in
  let run n := div_run n (buf a) (buf b) p1 (round_up prec1) (round_up (2 * (nfrac b * 9) + si' + 1)) p2 prec2 in
  do_div_mod a b to modulo si =
    if modulo then
      let? (_, tmp1, start1, dcarry) := run (Z.to_nat qi) None 0 in
      mod_result (mkDecimal (intg to) (Z.max (frac a) (frac b)) (len to) (sign a) (buf to)) tmp1 start1 dcarry (round_up (prec1 - nfrac a * 9)) (intg b)
    else
      let '(intg0, frac0, error) := fix_intg_frac_error (len to) (Z.max qi 0) (nfrac a + nfrac b + round_up si') in
      let? (b0, p0) := fill_up (Z.to_nat (- qi)) 0 (buf to) 0 in
      let? (out, _, _, _) := run (Z.to_nat (intg0 + frac0 - p0)) (Some b0) p0 in
      match out with
      | Some o => Some (error, mkDecimal (intg0 * 9) (frac0 * 9) (len to) (xorb (sign a) (sign b)) o)
      | None => None
      end.
Proof.
  intros Wa Wb E1 E2 A1 A2 si' qi run; pose proof (nfrac_bounds a Wa); pose proof (nfrac_bounds b Wb).
  unfold do_div_mod; fold (nfrac a) (nfrac b); rewrite E1, E2; cbn [obind].
  rewrite (o_buf _ _ _ _ _ _ A1); cbn [app]; rewrite rd_at by (rewrite zlen_repeat; pose proof (o_pos _ _ _ _ _ _ A1); lia); cbn [obind].
  rewrite (o_buf _ _ _ _ _ _ A2); cbn [app]; rewrite rd_at by (rewrite zlen_repeat; pose proof (o_pos _ _ _ _ _ _ A2); lia); cbn [obind].
  change (w1 :: m1 ++ post1) with ((w1 :: m1) ++ post1); change (w2 :: m2 ++ post2) with ((w2 :: m2) ++ post2).
  rewrite <- (o_buf _ _ _ _ _ _ A1), <- (o_buf _ _ _ _ _ _ A2).
  unfold DIG_PER_DEC1; fold (scale_left a b si); fold si'.
  destruct (quot_int_digits a prec1 p1 w1 m1 post1 b prec2 p2 w2 m2 post2 A1 A2) as [Dn Dp].
  set (dintg := prec1 - nfrac a * 9 - (prec2 - nfrac b * 9) + Z.b2z (w1 >=? w2)) in *; fold qi in Dn, Dp.
  assert (0 <= si') as Hs by (unfold si', scale_left; lia).
  assert (round_up (nfrac a * 9 + nfrac b * 9 + si') = nfrac a + nfrac b + round_up si') as ->
    by (apply round_up_unique; pose proof (round_up_bounds si' Hs); lia).
  destruct (Z.ltb_spec dintg 0) as [Hd|Hd]; [destruct (Dn Hd) as [-> Hq]|destruct (Dp Hd) as [-> Hq]].
  - replace (Z.max qi 0) with 0 by lia; replace (Z.to_nat qi) with 0%nat by lia; reflexivity.
  - replace (Z.max qi 0) with qi by lia; replace (Z.to_nat (- qi)) with (Z.to_nat (- dintg)) by lia; reflexivity.
Qed.

(** The quotient of two decimals that are not zero. *)
Lemma div_nonzero_spec a b to si prec1 p1 w1 m1 post1 prec2 p2 w2 m2 post2 : wf a -> wf b -> target to ->
  div_operand a = Some (Some (prec1, p1)) -> div_operand b = Some (Some (prec2, p2)) ->
  operand a prec1 p1 w1 m1 post1 -> operand b prec2 p2 w2 m2 post2 -> nfrac a + nint b <= len to ->
  exists e r, decimal_div a b to si = Some (e, r) /\ len r = len to /\
    (nint a + nfrac b <= len to -> e = E_DEC_OK \/ e = E_DEC_TRUNCATED) /\
    (e = E_DEC_OK \/ e = E_DEC_TRUNCATED -> wf r /\ quotient a b (mant r) (nfrac r) /\ sign r = xorb (sign a) (sign b)) /\
    (e = E_DEC_OK -> nfrac a + nfrac b <= nfrac r /\ frac a + frac b + si <= frac r) /\
    (e = E_DEC_TRUNCATED -> nint r + nfrac r = len to).
Proof.
  intros Wa Wb [Tl Tb] E1 E2 A1 A2 Hz; unfold decimal_div.
  rewrite (do_div_mod_eq a b to false si prec1 p1 w1 m1 post1 prec2 p2 w2 m2 post2 Wa Wb E1 E2 A1 A2).
  pose proof (nfrac_bounds a Wa); pose proof (nfrac_bounds b Wb); pose proof (nint_bounds a Wa); pose proof (nint_bounds b Wb).
  pose proof (o_count _ _ _ _ _ _ A1); pose proof (o_count _ _ _ _ _ _ A2); pose proof (o_pos _ _ _ _ _ _ A1); pose proof (o_pos _ _ _ _ _ _ A2).
  pose proof (zlen_nonneg m1); pose proof (zlen_nonneg m2).
  set (si' := scale_left a b si); assert (0 <= si') as Hs by (unfold si', scale_left; lia); pose proof (round_up_bounds si' Hs).
  set (qi := quot_int w1 (zlen m1 + 1) (nfrac a) w2 (zlen m2 + 1) (nfrac b)).
  assert (zlen m1 - nfrac a - zlen m2 + nfrac b <= qi <= zlen m1 - nfrac a - zlen m2 + nfrac b + 1) as Hq
    by (unfold qi, quot_int; destruct (w1 >=? w2); cbn; lia).
  destruct (Z.le_gt_cases qi (len to)) as [Hn|Hn].
  - destruct (fix_cases (len to) (Z.max qi 0) (nfrac a + nfrac b + round_up si')) as (e & -> & He1 & He2 & _); [lia|lia|].
    set (f0 := Z.min (nfrac a + nfrac b + round_up si') (len to - Z.max qi 0)) in *.
    destruct (quotient_words a prec1 p1 w1 m1 post1 b prec2 p2 w2 m2 post2 f0 si' (buf to) Wa Wb A1 A2) as (out & post & tmp & s1 & d & Lo & Ho & Lop & Q & E);
      [lia|lia|fold qi; lia|fold qi; lia|]; fold qi in E, Lo.
    destruct (fill_up (Z.to_nat (- qi)) 0 (buf to) 0) as [[b0 p0]|]; [|discriminate E]; cbn [obind] in *; rewrite E; cbn [obind].
    exists e; eexists; split; [reflexivity|]; split; [reflexivity|]; split; [intros _; destruct (Z.eq_dec e E_DEC_OK); [auto|right; apply He2; assumption]|].
    assert (round_up (Z.max qi 0 * 9) + round_up (f0 * 9) = zlen out) as Lr by (rewrite !round_up_mul; lia).
    assert (forall s o, nfrac (mkDecimal (Z.max qi 0 * 9) (f0 * 9) (len to) s o) = f0) as En by (intros; apply round_up_mul; lia).
    rewrite !En; cbn [frac sign]; split.
    + intros _; split; [|split; [rewrite build_mant by lia; exact Q|reflexivity]].
      apply build_words_wf; rewrite ?round_up_mul by lia; try assumption; try lia.
      replace (9 * f0 - f0 * 9) with 0 by lia; apply Z.divide_1_l.
    + split; [intros He; specialize (He1 He); unfold si', scale_left in *; lia|intros He].
      unfold nint; cbn [intg]; rewrite round_up_mul by lia; destruct He2 as [_ He2]; [rewrite He; discriminate|lia].
  - rewrite fix_overflow by lia; replace (Z.to_nat (- qi)) with 0%nat by lia; cbn [fill_up obind].
    replace (Z.to_nat (len to + 0 - 0)) with (Z.to_nat (len to)) by lia.
    destruct (div_run_spec true a prec1 p1 w1 m1 post1 b prec2 p2 w2 m2 post2 (Z.to_nat (len to)) (round_up (2 * (nfrac b * 9) + si' + 1)) [] (buf to) [] A1 A2)
      as (Q & d & P & U & ER & _); try lia.
    { pose proof (round_up_bounds (2 * (nfrac b * 9) + si' + 1) ltac:(lia)); lia. }
    { pose proof (round_up_bounds (2 * (nfrac b * 9) + si' + 1) ltac:(lia)); destruct (w1 <? w2); cbn [Z.b2z]; lia. }
    { pose proof (round_up_bounds (2 * (nfrac b * 9) + si' + 1) ltac:(lia)); destruct (w1 <? w2); cbn [Z.b2z]; lia. }
    cbn [obuf app] in ER; change (zlen (@nil Z)) with 0 in ER; rewrite app_nil_r in ER; rewrite ER; cbn [obind].
    exists E_DEC_OVERFLOW; eexists; split; [reflexivity|]; split; [reflexivity|]; split; [lia|]; split; [intros [He|He]; discriminate He|split; discriminate].
Qed.

(** The quotient of two decimals, of which the second one is not zero. *)
Lemma decimal_div_spec a b to si : wf a -> wf b -> target to -> mant b <> 0 -> nfrac a + nint b <= len to ->
  exists e r, decimal_div a b to si = Some (e, r) /\ len r = len to /\
    (nint a + nfrac b <= len to -> e = E_DEC_OK \/ e = E_DEC_TRUNCATED) /\
    (e = E_DEC_OK \/ e = E_DEC_TRUNCATED -> wf r /\ quotient a b (mant r) (nfrac r) /\ (mant a = 0 \/ sign r = xorb (sign a) (sign b))) /\
    (e = E_DEC_OK -> mant a = 0 \/ nfrac a + nfrac b <= nfrac r /\ frac a + frac b + si <= frac r) /\
    (e = E_DEC_TRUNCATED -> nint r + nfrac r = len to).
Proof.
  intros Wa Wb T Hb Hz.
  destruct (div_operand_spec b Wb) as [[E _]|(prec2 & p2 & w2 & m2 & post2 & E2 & A2)]; [contradiction|].
  destruct (div_operand_spec a Wa) as [[Ez E1]|(prec1 & p1 & w1 & m1 & post1 & E1 & A1)].
  - unfold decimal_div, do_div_mod; rewrite E1, E2; cbn [obind].
    destruct (set_zero_wf to T) as (r & -> & Wr & _ & Mr & Sr & Lr); exists E_DEC_OK, r; cbn [obind].
    split; [reflexivity|split; [exact Lr|split; [auto|split; [intros _|split; [auto|discriminate]]]]].
    split; [exact Wr|split; [|auto]]; unfold quotient; rewrite Mr, Ez.
    pose proof (mant_bounds b Wb); pose proof (nfrac_bounds a Wa); pose proof (base_pow_pos (nfrac a) ltac:(lia)); nia.
  - destruct (div_nonzero_spec a b to si prec1 p1 w1 m1 post1 prec2 p2 w2 m2 post2 Wa Wb T E1 E2 A1 A2 Hz) as (e & r & E & Lr & H1 & H2 & H3 & H4).
    exists e, r; repeat split; try assumption; try (apply H2; assumption); auto; right; apply H2; assumption.
Qed.

(** The magnitude of a decimal. *)
Definition mag (d : decimal_t) : Q := mant d # Z.to_pos (B ^ nfrac d).

Lemma dec_Q_mag d : dec_Q d == if sign d then - mag d else mag d.
Proof. unfold dec_Q, mag; destruct (sign d); reflexivity. Qed.

Lemma mag_nonneg d : wf d -> (0 <= mag d)%Q.
Proof. intros W; unfold mag, Qle; cbn; pose proof (mant_bounds d W); lia. Qed.

Lemma mag_pos d : wf d -> mant d <> 0 -> (0 < mag d)%Q.
Proof. intros W N; unfold mag, Qlt; cbn; pose proof (mant_bounds d W); lia. Qed.

Lemma mag_zero d : mant d = 0 -> mag d == 0.
Proof. intros E; unfold mag; rewrite E; reflexivity. Qed.

Lemma Qabs_dec d : wf d -> Qabs (dec_Q d) == mag d.
Proof.
  intros W; rewrite dec_Q_mag; pose proof (mag_nonneg d W); destruct (sign d); [rewrite Qabs_opp|]; apply Qabs_pos; assumption.
Qed.

Lemma Qabs_quot a b : wf a -> wf b -> mant b <> 0 -> Qabs (dec_Q a / dec_Q b) == mag a / mag b.
Proof.
  intros Wa Wb N; unfold Qdiv; rewrite Qabs_Qmult, Qabs_dec by assumption.
  assert (Qabs (/ dec_Q b) == / mag b) as ->; [|reflexivity].
  rewrite dec_Q_mag; pose proof (mag_pos b Wb N); destruct (sign b).
  - assert (/ - mag b == - / mag b) as -> by (field; intros E; rewrite E in *; discriminate).
    rewrite Qabs_opp; apply Qabs_pos, Qinv_le_0_compat, Qlt_le_weak; assumption.
  - apply Qabs_pos, Qinv_le_0_compat, Qlt_le_weak; assumption.
Qed.

(** The quotient in units of the last word, as a rational. *)
Lemma quotient_Q a b q k : wf a -> wf b -> mant b <> 0 -> 0 <= k -> quotient a b q k ->
  (q # Z.to_pos (B ^ k) <= mag a / mag b /\ mag a / mag b < (q + 1) # Z.to_pos (B ^ k))%Q.
Proof.
  intros Wa Wb N Hk [H1 H2]; pose proof (mag_pos b Wb N) as Hb; pose proof (nfrac_bounds a Wa); pose proof (nfrac_bounds b Wb).
  assert (forall x, (x # Z.to_pos (B ^ k)) * mag b == (x * mant b) # (Z.to_pos (B ^ k) * Z.to_pos (B ^ nfrac b)))%Q as E by (intros; reflexivity).
  rewrite Z.pow_add_r in * by lia; pose proof (base_pow_pos k Hk); pose proof (base_pow_pos (nfrac a) ltac:(lia)); pose proof (base_pow_pos (nfrac b) ltac:(lia)).
  split; [apply Qle_shift_div_l|apply Qlt_shift_div_r]; try exact Hb; rewrite E; unfold mag, Qle, Qlt; cbn [Qnum Qden];
    rewrite Pos2Z.inj_mul, !unit_pos by lia; nia.
Qed.

Lemma quot_sign a b r : wf a -> wf b -> wf r -> mant b <> 0 -> mant a = 0 \/ sign r = xorb (sign a) (sign b) ->
  (0 <= dec_Q r * (dec_Q a / dec_Q b))%Q.
Proof.
  intros Wa Wb Wr N S; rewrite !dec_Q_mag; pose proof (mag_pos b Wb N) as Hb; pose proof (mag_nonneg a Wa); pose proof (mag_nonneg r Wr).
  assert (~ mag b == 0) as Nb by (intros E; rewrite E in Hb; discriminate).
  destruct S as [E|S]; [destruct (sign r), (sign a), (sign b); rewrite (mag_zero a E); apply Qle_lteq; right; field; exact Nb|].
  assert (0 <= mag r * (mag a / mag b))%Q as P by (apply Qmult_le_0_compat; [|apply Qle_shift_div_l; [|rewrite Qmult_0_l]]; assumption).
  rewrite S; destruct (sign a), (sign b); cbn [xorb]; (eapply Qle_trans; [exact P|]); apply Qle_lteq; right; field; exact Nb.
Qed.



(** A quotient far below one: the zeros before its first word are written past
    the end of the buffer of the result, for operands of 65 digits and 30
    digits after the point at most. *)
Theorem decimal_div_overruns : exists a b, wf a /\ wf b /\ mant b <> 0 /\ intg a <= 1 /\ frac a <= 30 /\ intg b <= 65 /\ frac b = 0 /\
  decimal_div a b (Decimal_init 0 0 false) 4 = None.
Proof.
  exists (mkDecimal 0 30 9 false [0; 0; 0; 1000000; 0; 0; 0; 0; 0]), (mkDecimal 65 0 9 false [10; 0; 0; 0; 0; 0; 0; 0; 0]).
  split; [apply wf_b_correct; vm_compute; reflexivity|]; split; [apply wf_b_correct; vm_compute; reflexivity|].
  repeat split; vm_compute; congruence.
Qed.
