(* ===== verification/DecMod.v ===== *)
(** The remainder of two decimals: [decimal_mod] of
    [src/drizzled/type/decimal.cc].

    The main loop leaves the remainder in the copy of the dividend, from
    [start1] on; [mod_result] copies the words that belong to the result. *)

From Stdlib Require Import ZArith Lia ZifyBool List Bool QArith Qabs.
From S2P Require Import Prelude Words Decimal DecArith DecSub DecDiv DecGuess DecQuot DecDivSpec.
Import ListNotations.
Local Open Scope Z_scope.
Local Open Scope fail_scope.

Local Abbreviation B := DIG_BASE.

Lemma copy_up_eq m : forall pre1 post1 pre mid post, zlen mid = zlen m ->
  copy_up (Z.to_nat (zlen m)) (pre1 ++ m ++ post1) (pre ++ mid ++ post) (zlen pre1) (zlen pre) = Some (pre ++ m ++ post).
Proof.
  induction m as [|x m IH]; intros pre1 post1 pre mid post L.
  - rewrite (zlen_zero mid) by exact L; reflexivity.
  - pose proof (zlen_nonneg m); rewrite zlen_cons in *; destruct mid as [|y mid]; [exfalso; rewrite zlen_nil in L; clear IH; lia|].
    rewrite zlen_cons in L.
    replace (Z.to_nat (zlen m + 1)) with (S (Z.to_nat (zlen m))) by (clear - H; lia).
    cbn [copy_up app]; rewrite rd_at by reflexivity; cbn [obind]; rewrite wr_at by reflexivity; cbn [obind].
    specialize (IH (pre1 ++ [x]) post1 (pre ++ [x]) mid post ltac:(llia)).
    rewrite <- !app_assoc in IH; cbn [app] in IH; rewrite !zlen_app in IH; exact IH.
Qed.

(** The words of the remainder: all those from [start1], which is moved back to
    the carry unless that is zero. *)
Lemma mod_start P U d : word_ok d -> Forall word_ok U -> (exists P0, P = P0 ++ [d]) \/ P = [] /\ d = 0 ->
  exists A W, P ++ U = A ++ W /\ Forall word_ok W /\ zlen A = zlen P - Z.b2z (negb (d =? 0)) /\ wval W = d * B ^ zlen U + wval U /\
    (if d =? 0 then Some (P ++ U, zlen P) else let? t := wr (P ++ U) (zlen P - 1) d in Some (t, zlen P - 1)) = Some (A ++ W, zlen A).
Proof.
  intros Hd HU [[P0 ->]|[-> ->]].
  - destruct (Z.eqb_spec d 0) as [->|N]; cbn [negb Z.b2z].
    + exists (P0 ++ [0]), U; rewrite Z.mul_0_l, Z.sub_0_r; auto.
    + exists P0, (d :: U); rewrite <- app_assoc; cbn [app]; rewrite zlen_app; change (zlen [d]) with 1.
      rewrite wr_at by lia; cbn [obind]; split; [reflexivity|split; [apply Forall_cons; assumption|]].
      repeat split; try lia; repeat f_equal; lia.
  - exists [], U; rewrite Z.mul_0_l; auto.
Qed.

(** The low words of a number that a power of the base divides. *)
Lemma low_zeros W k : Forall word_ok W -> 0 <= k <= zlen W -> (B ^ k | wval W) ->
  exists H, W = H ++ repeat 0 (Z.to_nat k) /\ zlen H = zlen W - k /\ wval W = wval H * B ^ k.
Proof.
  intros HW Hk HD; destruct (zsplit (zlen W - k) W) as (H & L & -> & LH & LL); [lia|].
  apply Forall_app in HW as [HH HL]; rewrite zlen_app in *.
  assert (wval L = 0) as E0.
  { rewrite wval_app, LL in HD; replace (zlen H + zlen L - (zlen H + zlen L - k)) with k in HD by lia.
    apply Z.divide_add_cancel_r in HD; [|apply Z.divide_factor_r].
    pose proof (wval_bounds L HL) as BL; replace (zlen L) with k in BL by lia.
    apply Z.mod_divide in HD; [|pose proof (base_pow_pos k); lia]; rewrite Z.mod_small in HD by lia; exact HD. }
  exists H; split; [|split; [lia|]].
  - rewrite (bval_zero B base_gt1 L HL E0) at 1; do 2 f_equal; unfold zlen in *; lia.
  - rewrite wval_app, E0, Z.add_0_r; do 2 f_equal; lia.
Qed.

(** What [mod_result] promises of the words [W] from [start1], of which [i] are
    before the point and [F] after it. *)
Definition mod_words (to : decimal_t) (F i : Z) (W : list Z) (r : decimal_t) : Prop :=
  wf r /\ nfrac r <= F /\ mant r * B ^ (F - nfrac r) * B ^ (zlen W - (F + i)) = wval W /\ (mant r <> 0 -> sign r = sign to).

Section remainder.
Context (to : decimal_t) (A H : list Z) (F i z intg2 : Z).
Context (T : target to) (Hf : 0 <= frac to) (EF : F = round_up (frac to)) (H2 : 0 <= intg2).
Context (HH : Forall word_ok H) (LH : zlen H = F + i) (Hz : 0 <= z).
Context (HT : (10 ^ (9 * F - frac to) | wval H)).

Local Abbreviation W := (H ++ repeat 0 (Z.to_nat z)).

Lemma mod_words_build n r : wf r -> nfrac r = F -> mant r = wval H -> sign r = sign to -> zlen W = F + i + n ->
  mod_words to F i W r.
Proof.
  intros Wr En Em Es L; unfold mod_words; rewrite En, Em, wval_app, wval_zeros, zlen_app, zlen_repeat, LH, Z.sub_diag.
  split; [exact Wr|split; [lia|split; [|intros _; exact Es]]].
  rewrite Z.pow_0_r, Z.mul_1_r, Z.add_0_r; do 2 f_equal; lia.
Qed.

(** The remainder is below one: zeros after the point, and the words of the
    remainder with as many zeros after them. *)
Lemma mod_fraction : i <= 0 -> - i <= z -> 0 < F -> F - i <= len to ->
  exists b0 r, fill_up (Z.to_nat (- i)) 0 (buf to) 0 = Some (b0, - i) /\
    (let? b := copy_up (Z.to_nat F) (A ++ W) b0 (zlen A) (- i) in Some (mkDecimal 0 (frac to) (len to) (sign to) b)) = Some r /\
    mod_words to F i W r.
Proof.
  intros Hi Hiz HF Hl; destruct T as [Tl Tb].
  destruct (zsplit (- i) (buf to)) as (zs & t & E & Lzs & Lt); [lia|]; destruct (zsplit F t) as (mid & post & -> & Lm & Lp); [lia|].
  set (Zi := repeat 0 (Z.to_nat (- i))); assert (zlen Zi = - i) as LZ by (unfold Zi; rewrite zlen_repeat; lia).
  assert (W = (H ++ Zi) ++ repeat 0 (Z.to_nat (z + i))) as EW.
  { unfold Zi; rewrite <- app_assoc, <- repeat_app; do 2 f_equal; lia. }
  assert (zlen (H ++ Zi) = F) as LHZ by (rewrite zlen_app; lia).
  exists (Zi ++ mid ++ post), (mkDecimal 0 (frac to) (len to) (sign to) ((Zi ++ H) ++ Zi ++ post)).
  rewrite E; pose proof (fill_up_eq (Z.to_nat (- i)) 0 zs [] (mid ++ post) 0) as Ef; cbn [app] in Ef.
  split; [rewrite Ef by llia; fold Zi; do 2 f_equal; llia|].
  rewrite EW at 1; pose proof (copy_up_eq (H ++ Zi) A (repeat 0 (Z.to_nat (z + i))) Zi mid post ltac:(lia)) as Ec.
  rewrite LHZ, LZ in Ec; rewrite Ec; cbn [obind]; split; [rewrite <- !app_assoc; reflexivity|].
  assert (zlen (Zi ++ H) = round_up 0 + round_up (frac to)) as Lr by (change (round_up 0) with 0; llia).
  apply (mod_words_build z); [|symmetry; exact EF|rewrite build_mant by exact Lr; unfold Zi; rewrite wval_app, wval_zeros; lia|reflexivity|llia].
  apply build_wf; try assumption; try lia; [llia|apply Forall_app; split; [apply word_ok_zeros|exact HH]| |].
  - unfold Zi; rewrite wval_app, wval_zeros, <- EF, Z.mul_0_l, !Z.add_0_l, <- base_pow by lia.
    apply Z.lt_le_trans with (1 := proj2 (wval_bounds H HH)); apply Z.pow_le_mono_r; [reflexivity|lia].
  - unfold Zi; rewrite wval_app, wval_zeros, <- EF; exact HT.
Qed.

(** The remainder has words before the point. *)
Lemma mod_integer : 0 < i -> i + F <= len to -> i <= round_up intg2 -> wval H < 10 ^ intg2 * B ^ F ->
  exists r, (let? b := copy_up (Z.to_nat (F + i)) (A ++ W) (buf to) (zlen A) 0 in
             Some (mkDecimal (Z.min (i * DIG_PER_DEC1) intg2) (frac to) (len to) (sign to) b)) = Some r /\
    mod_words to F i W r.
Proof.
  intros Hi Hl Hr HB; destruct T as [Tl Tb]; pose proof (round_up_bounds (frac to) Hf); pose proof (round_up_bounds intg2 H2); unfold DIG_PER_DEC1.
  destruct (zsplit (F + i) (buf to)) as (mid & post & E & Lm & Lp); [lia|].
  assert (round_up (Z.min (i * 9) intg2) = i) as Ei by (apply round_up_unique; lia).
  pose proof (copy_up_eq H A (repeat 0 (Z.to_nat z)) [] mid post ltac:(lia)) as Ec; cbn [app] in Ec; rewrite LH, <- E in Ec.
  change (zlen (@nil Z)) with 0 in Ec; rewrite Ec; cbn [obind].
  eexists; split; [reflexivity|].
  assert (zlen H = round_up (Z.min (i * 9) intg2) + round_up (frac to)) as Lr by lia.
  apply (mod_words_build z); [|symmetry; exact EF|apply build_mant; exact Lr|reflexivity|llia].
  apply build_wf; try assumption; try lia; [llia| |rewrite <- EF; exact HT].
  rewrite <- EF, Z.pow_add_r, <- base_pow by lia; pose proof (proj2 (wval_bounds H HH)) as BH; rewrite LH, Z.pow_add_r in BH by lia.
  destruct (Z.min_spec (i * 9) intg2) as [[_ ->]|[_ ->]]; [|exact HB].
  rewrite (Z.mul_comm i 9), <- base_pow by lia; lia.
Qed.
End remainder.

(** The result, from the words [A ++ W] of which the remainder has those from
    [zlen A]. *)
Lemma mod_result_spec to A W d P U e1 intg2 F i : target to -> 0 <= frac to -> F = round_up (frac to) -> 0 <= intg2 ->
  (if d =? 0 then Some (P ++ U, zlen P) else let? t := wr (P ++ U) (zlen P - 1) d in Some (t, zlen P - 1)) = Some (A ++ W, zlen A) ->
  i = e1 - zlen A -> Forall word_ok W -> 0 <= F + i -> F <= zlen W -> F + i <= zlen W ->
  i <= round_up intg2 -> Z.max i 1 + F <= len to -> F - i <= len to ->
  wval W < 10 ^ intg2 * B ^ (zlen W - i) -> (10 ^ (9 * F - frac to) * B ^ (zlen W - (F + i)) | wval W) ->
  exists r, mod_result to (P ++ U) (zlen P) d e1 intg2 = Some (E_DEC_OK, r) /\ mod_words to F i W r.
Proof.
  intros T Hf EF H2 ES Ei HW Hi HFW HiW Hr Hl1 Hl2 HB HT; pose proof (round_up_bounds (frac to) Hf) as HRF.
  unfold mod_result; rewrite ES; cbn [obind]; rewrite <- EF, <- Ei; clear ES.
  destruct (low_zeros W (zlen W - (F + i)) HW) as (H & EW & LH & VW); [lia|eapply Z.divide_trans; [apply Z.divide_factor_r|exact HT]|].
  set (z := zlen W - (F + i)) in *; pose proof (base_pow_pos z ltac:(lia)) as Pz.
  assert (Forall word_ok H) as HH by (rewrite EW in HW; apply Forall_app in HW; apply HW).
  assert (10 ^ (9 * F - frac to) | wval H) as HT' by (rewrite VW in HT; apply Z.mul_divide_cancel_r in HT; [exact HT|lia]).
  destruct ((F =? 0) && (i =? 0)) eqn:E0.
  - assert (F = 0 /\ i = 0) as [F0 I0] by lia; destruct (set_zero_wf to T) as (r & Er & Wr & _ & Mr & Sr & Lr); rewrite Er; cbn [obind].
    exists r; split; [reflexivity|]; unfold mod_words; fold z; rewrite Mr, VW, (zlen_zero H) by lia.
    split; [exact Wr|split; [|split; [reflexivity|contradiction]]].
    unfold set_zero in Er; destruct (wr (buf to) 0 0); [|discriminate Er]; injection Er as <-; rewrite F0; reflexivity || discriminate.
  - destruct (Z.leb_spec i 0) as [Hi0|Hi0].
    + assert ((- i >=? len to) = false) as -> by lia.
      destruct (mod_fraction to A H F i z T Hf EF HH ltac:(lia) ltac:(lia) HT' Hi0 ltac:(lia) ltac:(lia) ltac:(lia)) as (b0 & r & -> & Ec & M); cbn [obind].
      assert ((1 + (F + i) >? len to) = false) as -> by lia.
      replace (zlen A + F - zlen A) with F by lia; assert ((- i + F <=? len to) = true) as -> by lia.
      rewrite EW; destruct (copy_up _ _ b0 _ _) as [b1|]; [|discriminate Ec]; cbn [obind] in *; injection Ec as <-.
      eexists; split; [reflexivity|exact M].
    + assert ((i >? len to) = false) as -> by lia; assert ((i <=? round_up intg2) = true) as -> by lia.
      assert ((i + F >? len to) = false) as -> by lia; replace (zlen A + F + i - zlen A) with (F + i) by lia.
      assert ((0 + (F + i) <=? len to) = true) as -> by lia.
      destruct (mod_integer to A H F i z intg2 T Hf EF H2 HH ltac:(lia) ltac:(lia) HT' Hi0 ltac:(lia) Hr) as (r & Ec & M).
      { rewrite VW in HB; replace (zlen W - i) with (F + z) in HB by lia; rewrite Z.pow_add_r in HB by lia.
        apply Z.mul_lt_mono_pos_r with (B ^ z); lia. }
      rewrite EW; destruct (copy_up _ _ (buf to) _ _) as [b1|]; [|discriminate Ec]; cbn [obind] in *; injection Ec as <-.
      eexists; split; [reflexivity|exact M].
Qed.

(** ** The remainder *)

(** What the main loop leaves: the dividend less a multiple of the divisor, both
    in units of the last word of [tmp1]. *)
Lemma mod_loop_spec a prec1 p1 w1 m1 post1 b prec2 p2 w2 m2 post2 : wf a -> wf b ->
  operand a prec1 p1 w1 m1 post1 -> operand b prec2 p2 w2 m2 post2 -> nfrac a <= zlen m1 + 1 ->
  let qi := quot_int w1 (zlen m1 + 1) (nfrac a) w2 (zlen m2 + 1) (nfrac b) in
  let tail := nfrac a + 2 * nfrac b + 2 in
  exists P U d k, div_run (Z.to_nat qi) (buf a) (buf b) p1 (round_up prec1) (round_up (2 * (nfrac b * 9) + 0 + 1)) p2 prec2 None 0
    = Some (None, P ++ U, zlen P, d) /\
    word_ok d /\ Forall word_ok U /\ ((exists P0, P = P0 ++ [d]) \/ P = [] /\ d = 0) /\
    zlen P + zlen U = zlen m1 + 1 - nfrac a + tail /\
    - nfrac b <= zlen m1 + 1 - nfrac a - (zlen P - Z.b2z (negb (d =? 0))) <= nint b /\ 0 <= k /\
    mant a * B ^ (tail - nfrac a) = k * (mant b * B ^ (tail - nfrac b)) + (d * B ^ zlen U + wval U) /\
    d * B ^ zlen U + wval U < mant b * B ^ (tail - nfrac b).
Proof.
  intros Wa Wb A1 A2 Hn qi tail; pose proof (nfrac_bounds a Wa); pose proof (nfrac_bounds b Wb); pose proof (nint_bounds b Wb).
  pose proof (zlen_nonneg m1); pose proof (zlen_nonneg m2); pose proof (o_count _ _ _ _ _ _ A2); pose proof (o_pos _ _ _ _ _ _ A2).
  replace (round_up (2 * (nfrac b * 9) + 0 + 1)) with (2 * nfrac b + 1) by (symmetry; apply round_up_unique; lia).
  assert (qi = zlen m1 - nfrac a - zlen m2 + nfrac b + 1 - Z.b2z (w1 <? w2)) as Eqi.
  { unfold qi, quot_int; rewrite Z.geb_leb, Z.leb_antisym; destruct (w1 <? w2); cbn; lia. }
  assert (0 <= Z.b2z (w1 <? w2) <= 1) by (destruct (w1 <? w2); cbn; lia).
  destruct (Z.le_gt_cases qi 0) as [Hq|Hq].
  - replace (Z.to_nat qi) with 0%nat by lia.
    destruct (div_run_start 0 a prec1 p1 w1 m1 post1 b prec2 p2 w2 m2 post2 (2 * nfrac b + 1) None 0 A1 A2)
      as (Ds & z & d & P & U & _ & Hd & _ & HU & LP & LU & EP & EV & _ & ->); [lia|]; cbn [div_loop].
    replace (Z.max (zlen m1 + 1 + (2 * nfrac b + 1) + 1) 3) with (zlen m1 + 1 - nfrac a + tail) in * by lia.
    exists P, U, d, 0; replace (zlen m1 + 1 - nfrac a + tail - (zlen m1 + 1)) with (tail - nfrac a) in EV by lia.
    rewrite EV; split; [reflexivity|]; split; [exact Hd|]; split; [exact HU|].
    split; [destruct EP as [EP|[-> _]]; [right; exact EP|left; exists []; reflexivity]|].
    split; [clear - LU LP; lia|]; split; [|split; [lia|split; [reflexivity|]]].
    + assert (zlen P - Z.b2z (negb (d =? 0)) = 0) as ->; [|flia].
      destruct EP as [[-> ->]|[-> Ed]]; [reflexivity|]; destruct (Z.eqb_spec d 0); [lia|reflexivity].
    + rewrite <- (Z.mul_1_l (mant b * _)); change 1 with (0 + 1).
      destruct (scale_cmp (mant a) (mant b) 0 (nfrac a) (nfrac b) (tail - nfrac b) (tail - nfrac a)) as [_ G]; [unfold tail; flia..| |exact G].
      destruct (quotient_zero a prec1 p1 w1 m1 post1 b prec2 p2 w2 m2 post2 0 Wa Wb ltac:(lia) A1 A2) as [Q1 Q2]; [fold qi; lia|].
      rewrite Z.add_0_r in *; auto.
  - destruct (div_run_spec false a prec1 p1 w1 m1 post1 b prec2 p2 w2 m2 post2 (Z.to_nat qi) (2 * nfrac b + 1) [] (repeat 0 (Z.to_nat qi)) [] A1 A2)
      as (Q & d & P & U & ER & LQ & HQ & Hd & HU & LU & LP & EP & EV & Lt); [lia|lia|rewrite zlen_repeat; lia|unfold tail in *; lia..|].
    cbn [obuf] in ER; change (zlen (@nil Z)) with 0 in ER; rewrite ER; rewrite Z2Nat.id in * by lia.
    replace (Z.max (zlen m1 + 1 + (2 * nfrac b + 1) + 1) 3) with (zlen m1 + 1 - nfrac a + tail) in * by (unfold tail; lia).
    exists P, U, d, (wval Q); split; [reflexivity|split; [exact Hd|split; [exact HU|split; [left; exact EP|]]]].
    split; [clear - LU LP; lia|]; split; [destruct (Z.eqb_spec d 0); cbn [negb Z.b2z]; unfold tail in *; flia|].
    split; [apply wval_bounds, HQ|]; rewrite LU.
    replace (zlen m1 + 1 - nfrac a + tail - (zlen m1 + 1)) with (tail - nfrac a) in EV by lia.
    replace (zlen m1 + 1 - nfrac a + tail - Z.b2z (w1 <? w2) - qi - zlen m2) with (tail - nfrac b) in EV, Lt by flia.
    split; [exact EV|exact Lt].
Qed.

(** A multiple of the unit that the result's fraction counts in. *)
Lemma mant_unit d F f c : wf d -> nfrac d <= F -> frac d <= f <= 9 * F -> 0 <= c ->
  (10 ^ (9 * F - f) * B ^ c | mant d * B ^ (F + c - nfrac d)).
Proof.
  intros W HF Hf Hc; pose proof (nfrac_bounds d W); replace (F + c - nfrac d) with (F - nfrac d + c) by lia.
  rewrite Z.pow_add_r, Z.mul_assoc, <- cut_exact by (assumption || lia).
  apply Z.mul_divide_mono_r, cut_divide; assumption.
Qed.

(** The dividend is a multiple of the divisor and the remainder, in units of the
    longer fraction. *)
Definition remainder_of (a b r : decimal_t) (k : Z) : Prop :=
  let F := Z.max (nfrac a) (nfrac b) in
  0 <= k /\ nfrac r <= F /\
  mant a * B ^ (F - nfrac a) = k * (mant b * B ^ (F - nfrac b)) + mant r * B ^ (F - nfrac r) /\
  mant r * B ^ (F - nfrac r) < mant b * B ^ (F - nfrac b).

Lemma mod_nonzero_spec a b to prec1 p1 w1 m1 post1 prec2 p2 w2 m2 post2 : wf a -> wf b -> target to ->
  div_operand a = Some (Some (prec1, p1)) -> div_operand b = Some (Some (prec2, p2)) ->
  operand a prec1 p1 w1 m1 post1 -> operand b prec2 p2 w2 m2 post2 -> nfrac a <= zlen m1 + 1 ->
  Z.max (nint b) 1 + Z.max (nfrac a) (nfrac b) <= len to -> nfrac b + Z.max (nfrac a) (nfrac b) <= len to ->
  exists r k, decimal_mod a b to = Some (E_DEC_OK, r) /\ wf r /\ remainder_of a b r k /\ (mant r <> 0 -> sign r = sign a).
Proof.
  intros Wa Wb [Tl Tb] E1 E2 A1 A2 Hn Hl1 Hl2; unfold decimal_mod.
  rewrite (do_div_mod_eq a b to true 0 prec1 p1 w1 m1 post1 prec2 p2 w2 m2 post2 Wa Wb E1 E2 A1 A2).
  pose proof (nfrac_bounds a Wa); pose proof (nfrac_bounds b Wb); pose proof (o_prec _ _ _ _ _ _ A1); pose proof (zlen_nonneg m1).
  replace (scale_left a b 0) with 0 by (unfold scale_left; lia).
  replace (round_up (prec1 - nfrac a * 9)) with (zlen m1 + 1 - nfrac a).
  2: { destruct (Z.eq_dec (nfrac a) (zlen m1 + 1)) as [->|N]; [|symmetry; apply round_up_unique; lia].
       unfold round_up, DIG_PER_DEC1; rewrite Z.quot_small by lia; lia. }
  destruct (mod_loop_spec a prec1 p1 w1 m1 post1 b prec2 p2 w2 m2 post2 Wa Wb A1 A2 Hn) as (P & U & d & k & -> & Hd & HU & HP & LPU & Hi & Hk & EV & Lt).
  set (tail := nfrac a + 2 * nfrac b + 2) in *; set (F := Z.max (nfrac a) (nfrac b)) in *; set (f := Z.max (frac a) (frac b)).
  assert (F = round_up f) as EF by (unfold F, f; symmetry; apply round_up_max; [apply (wf_frac _ Wa)|apply (wf_frac _ Wb)]).
  destruct (mod_start P U d Hd HU HP) as (A & W & EPU & HW & LA & VW & ES); rewrite <- LA in Hi; rewrite <- VW in EV, Lt.
  assert (zlen A + zlen W = zlen m1 + 1 - nfrac a + tail) as LAW by (apply (f_equal zlen) in EPU; rewrite !zlen_app in EPU; lia).
  set (i := zlen m1 + 1 - nfrac a - zlen A) in *; cbn [obind].
  set (c := tail - F); assert (0 <= c) as Hc by (flat; unfold c, tail, F; lia).
  assert (zlen W - i = F + c /\ zlen W - (F + i) = c) as [L1 L2] by (flat; unfold i, c; lia).
  assert (10 ^ (9 * F - f) * B ^ c | wval W) as HD.
  { replace (wval W) with (mant a * B ^ (F + c - nfrac a) - k * (mant b * B ^ (F + c - nfrac b)))
      by (replace (F + c) with tail by (flat; unfold c; lia); clear - EV; lia).
    pose proof (round_up_bounds f ltac:(pose proof (wf_frac _ Wa); flat; unfold f; lia)).
    apply Z.divide_sub_r; [|apply Z.divide_mul_r]; apply mant_unit; try assumption; flat; unfold F, f in *; lia. }
  pose proof (wf_intg _ Wb); pose proof (wf_lead _ Wb) as Lb; rewrite Z.pow_add_r, <- base_pow in Lb by (flat; lia).
  pose proof (base_pow_pos c Hc) as Pc; pose proof (base_pow_pos (F + c - nfrac b) ltac:(flat; unfold F in *; lia)) as Pt.
  destruct (mod_result_spec (mkDecimal (intg to) f (len to) (sign a) (buf to)) A W d P U (zlen m1 + 1 - nfrac a) (intg b) F i)
    as (r & -> & Wr & Hf & EM & Hs); cbn [frac len sign]; try assumption; try (flat; unfold F, f, i, c, tail in *; lia).
  { split; assumption. } { pose proof (wf_frac _ Wa); flat; unfold f; lia. } { exact (proj2 Hi). }
  { rewrite L1; replace (F + c) with (nfrac b + (F + c - nfrac b)) by (flat; lia); rewrite Z.pow_add_r by (flat; unfold F; lia).
    replace (F + c - nfrac b) with (tail - nfrac b) in * by (flat; unfold c; lia); clear - Lt Lb Pt; nia. }
  { rewrite L2; exact HD. }
  exists r, k; split; [reflexivity|split; [exact Wr|split; [|exact Hs]]]; rewrite L2 in EM.
  replace (tail - nfrac a) with (F - nfrac a + c) in EV by (flat; unfold c; lia).
  replace (tail - nfrac b) with (F - nfrac b + c) in EV, Lt by (flat; unfold c; lia).
  rewrite (Z.pow_add_r B (F - nfrac a)) in EV by (flat; unfold F; lia); rewrite (Z.pow_add_r B (F - nfrac b)) in EV, Lt by (flat; unfold F; lia).
  rewrite <- EM in EV, Lt; unfold remainder_of; fold F.
  split; [exact Hk|split; [exact Hf|]]; clear - EV Lt Pc.
  split; [apply Z.mul_cancel_r with (B ^ c)|apply Z.mul_lt_mono_pos_r with (B ^ c)]; lia.
Qed.

(** The remainder as a rational: of the sign of the dividend, below the divisor,
    and apart from the dividend by a multiple of the divisor. *)
Lemma remainder_Q a b r k : wf a -> wf b -> wf r -> remainder_of a b r k ->
  mag a == inject_Z k * mag b + mag r /\ (mag r < mag b)%Q.
Proof.
  intros Wa Wb Wr (Hk & Hf & E & L); pose proof (nfrac_bounds a Wa); pose proof (nfrac_bounds b Wb); pose proof (nfrac_bounds r Wr).
  set (F := Z.max (nfrac a) (nfrac b)) in *; unfold mag.
  rewrite (Qunit (mant a) F (nfrac a)), (Qunit (mant b) F (nfrac b)), (Qunit (mant r) F (nfrac r)) by (flat; unfold F; lia).
  split; [|apply Qlt_unit; exact L].
  rewrite E; unfold Qeq, Qplus, Qmult, inject_Z; cbn [Qnum Qden]; rewrite !Pos2Z.inj_mul; ring.
Qed.

(** With the signs: the quotient is negative if the signs differ. *)
Lemma remainder_signed a b r k : wf a -> wf b -> wf r -> remainder_of a b r k -> (mant r <> 0 -> sign r = sign a) ->
  dec_Q a == inject_Z (signed (xorb (sign a) (sign b)) k) * dec_Q b + dec_Q r /\
  (Qabs (dec_Q r) < Qabs (dec_Q b) /\ 0 <= dec_Q r * dec_Q a)%Q.
Proof.
  intros Wa Wb Wr R S; destruct (remainder_Q a b r k Wa Wb Wr R) as [E L]; rewrite !Qabs_dec by assumption.
  pose proof (mag_nonneg a Wa) as Pa; pose proof (mag_nonneg r Wr) as Pr.
  assert (dec_Q r == if sign a then - mag r else mag r) as Er.
  { destruct (Z.eq_dec (mant r) 0) as [Z0|N]; [|rewrite dec_Q_mag, (S N); reflexivity].
    rewrite dec_Q_mag; destruct (sign r), (sign a); rewrite (mag_zero r Z0); reflexivity. }
  rewrite (dec_Q_mag a), (dec_Q_mag b), Er; split; [|split; [exact L|]].
  - destruct (sign a), (sign b); cbn [xorb signed]; rewrite ?inject_Z_opp, E; ring.
  - assert (0 <= mag r * mag a)%Q as P by (apply Qmult_le_0_compat; assumption).
    destruct (sign a); [|exact P]; eapply Qle_trans; [exact P|]; apply Qle_lteq; right; ring.
Qed.

(** C28. The remainder of a dividend that is zero or at least [10^-9] by a divisor
    that is not zero: the dividend less a multiple of the divisor, below the
    divisor in magnitude, of the sign of the dividend.  Two conditions on the
    buffer: it has room for the longer fraction and the words of the divisor
    before the point (one at least), and for the longer fraction and as many words
    again as the divisor's fraction has, the zeros that may come before it. *)
Theorem decimal_mod_correct a b to : wf a -> wf b -> target to -> mant b <> 0 ->
  mant a = 0 \/ DIG_BASE ^ nfrac a <= mant a * DIG_BASE ->
  Z.max (nint b) 1 + Z.max (nfrac a) (nfrac b) <= len to -> nfrac b + Z.max (nfrac a) (nfrac b) <= len to ->
  exists r k, decimal_mod a b to = Some (E_DEC_OK, r) /\ wf r /\ dec_Q a == inject_Z k * dec_Q b + dec_Q r /\
    (Qabs (dec_Q r) < Qabs (dec_Q b) /\ 0 <= dec_Q r * dec_Q a)%Q.
Proof.
  intros Wa Wb T N Ha Hl1 Hl2.
  destruct (div_operand_spec b Wb) as [[E _]|(prec2 & p2 & w2 & m2 & post2 & E2 & A2)]; [contradiction|].
  destruct (div_operand_spec a Wa) as [[Ez E1]|(prec1 & p1 & w1 & m1 & post1 & E1 & A1)].
  - unfold decimal_mod, do_div_mod; rewrite E1, E2; cbn [obind].
    destruct (set_zero_wf to T) as (r & -> & Wr & Dr & Mr & Sr & Lr); exists r, 0; cbn [obind].
    assert (dec_Q a == 0) as Da by (rewrite dec_Q_mag; destruct (sign a); rewrite (mag_zero a Ez); reflexivity).
    split; [reflexivity|split; [exact Wr|]]; rewrite Qabs_dec, Qabs_dec, Da, Dr, (mag_zero r Mr) by assumption.
    split; [ring|split; [apply mag_pos; assumption|discriminate]].
  - assert (nfrac a <= zlen m1 + 1) as Hn.
    { pose proof (nfrac_bounds a Wa); pose proof (mant_bounds a Wa); pose proof (wval_bounds _ (o_words _ _ _ _ _ _ A1)) as Bm.
      pose proof (o_word _ _ _ _ _ _ A1); pose proof (o_mant _ _ _ _ _ _ A1) as Em; pose proof (zlen_nonneg m1); rewrite wval_cons in Em.
      pose proof (base_pow_pos (zlen m1) ltac:(lia)); apply Z.lt_succ_r, (Z.pow_lt_mono_r_iff B); [reflexivity|lia|].
      replace (Z.succ (zlen m1 + 1)) with (zlen m1 + 1 + 1) by lia; rewrite !Z.pow_add_r, !Z.pow_1_r by lia.
      apply Z.le_lt_trans with (mant a * B); [lia|apply Z.mul_lt_mono_pos_r; [reflexivity|]]; clear - Em Bm H1 H3; nia. }
    destruct (mod_nonzero_spec a b to prec1 p1 w1 m1 post1 prec2 p2 w2 m2 post2 Wa Wb T E1 E2 A1 A2 Hn Hl1 Hl2) as (r & k & E & Wr & R & S).
    exists r, (signed (xorb (sign a) (sign b)) k); split; [exact E|split; [exact Wr|]]; apply remainder_signed; assumption.
Qed.

Lemma decimal_mod_correct_witness :
  let a := mkDecimal 1 1 9 true [7; 500000000; 0; 0; 0; 0; 0; 0; 0] in
  let b := mkDecimal 1 0 9 false [2; 0; 0; 0; 0; 0; 0; 0; 0] in
  exists r k, decimal_mod a b (Decimal_init 0 0 false) = Some (E_DEC_OK, r) /\ wf r /\ dec_Q a == inject_Z k * dec_Q b + dec_Q r /\
    (Qabs (dec_Q r) < Qabs (dec_Q b) /\ 0 <= dec_Q r * dec_Q a)%Q.
Proof.
  cbv zeta; apply (decimal_mod_correct (mkDecimal 1 1 9 true [7; 500000000; 0; 0; 0; 0; 0; 0; 0])
    (mkDecimal 1 0 9 false [2; 0; 0; 0; 0; 0; 0; 0; 0]) (Decimal_init 0 0 false));
    [apply wf_b_correct; vm_compute; reflexivity|apply wf_b_correct; vm_compute; reflexivity|split; reflexivity|vm_compute; discriminate|
     right; vm_compute; discriminate|vm_compute; discriminate..].
Defined.

(** The remainder of a smaller dividend is misplaced: [0.0000000001] modulo one is
    [0.1], because the words before the point are counted with a division that
    rounds towards zero. *)
Theorem decimal_mod_misplaced : exists a b r, wf a /\ wf b /\ (0 < dec_Q a)%Q /\ (dec_Q a < dec_Q b)%Q /\
  decimal_mod a b (Decimal_init 0 0 false) = Some (E_DEC_OK, r) /\ dec_Q r == 1000000000 * dec_Q a.
Proof.
  exists (mkDecimal 0 10 9 false [0; 100000000; 0; 0; 0; 0; 0; 0; 0]), (mkDecimal 1 0 9 false [1; 0; 0; 0; 0; 0; 0; 0; 0]).
  eexists; split; [apply wf_b_correct; vm_compute; reflexivity|]; split; [apply wf_b_correct; vm_compute; reflexivity|].
  repeat split; vm_compute; reflexivity.
Qed.

(** The assertion on the room for the remainder fails for a product of two
    numbers of 30 digits after the point. *)
Lemma decimal_mod_asserts : exists a b, wf a /\ wf b /\ frac a = 60 /\ dec_Q b == 1 /\
  decimal_mod a b (Decimal_init 0 0 false) = None.
Proof.
  exists (mkDecimal 0 60 9 false [0; 0; 0; 0; 0; 0; 1000; 0; 0]), (mkDecimal 1 0 9 false [1; 0; 0; 0; 0; 0; 0; 0; 0]).
  split; [apply wf_b_correct; vm_compute; reflexivity|]; split; [apply wf_b_correct; vm_compute; reflexivity|].
  repeat split; vm_compute; reflexivity.
Qed.
