(* ===== verification/DecRound.v ===== *)
(** Rounding of decimals: [decimal_round] of [src/drizzled/type/decimal.cc].

    The words are copied to the result, with a zero before them if the first
    one is [DIG_MAX]; the last word that is kept is rounded, the words after it
    are cleared, and a carry goes up.  Without room for the carry the number is
    moved up by a word.  An assertion that fails gives [None], as an access
    outside of an array does. *)

From Stdlib Require Import ZArith Lia ZifyBool List Bool QArith Qabs.
From S2P Require Import Prelude Words Decimal DecArith DecSub.
Import ListNotations.
Local Open Scope Z_scope.
Local Open Scope fail_scope.

(** ** Model *)

(** src/drizzled/type/decimal.cc:1679-1686 decimal_round

    The digit from which on the number is rounded up. *)
Definition round_digit (mode : decimal_round_mode) (s : bool) : Z :=
  match mode with
  | HALF_UP | HALF_EVEN => 5
  | CEILING => if s then 10 else 0
  | FLOOR => if s then 0 else 10
  | TRUNCATE => 10
  end.

Definition is_half_up (mode : decimal_round_mode) : bool := match mode with HALF_UP => true | _ => false end.

(** src/drizzled/type/decimal.cc:1733-1758 decimal_round

    Whether the word at [p] is incremented: the [cut] words after it are dropped. *)
Definition round_inc (mode : decimal_round_mode) (digit : Z) (t : list Z) (p cut : Z) (some_kept : bool) : option bool :=
  if digit =? 0 then let? z := all_zero (Z.to_nat cut) t (p + 1) in Some (negb z)
  else if digit =? 5 then
    let? w := rd t (p + 1) in
    let x := w ÷ DIG_MASK in
    if x >? 5 then Some true
    else if x =? 5 then
      if is_half_up mode then Some true
      else if some_kept then let? w := rd t p in Some (negb (Z.land w 1 =? 0)) else Some false
    else Some false
  else Some false.

(** src/drizzled/type/decimal.cc:1775-1782 decimal_round

    The word [w] rounded above its last [pos] and one digits. *)
Definition round_word (mode : decimal_round_mode) (digit w pos : Z) : option Z :=
  let? pw := rd powers10 pos in
  let x := w ÷ pw in
  let y := Z.rem x 10 in
  let x := if (y >? digit) || ((digit =? 5) && (y =? 5) && (is_half_up mode || negb (Z.land (x ÷ 10) 1 =? 0))) then x + 10 else x in
  Some (i32 (pw * (x - y))).

(** src/drizzled/type/decimal.cc:1806-1807 decimal_round

    The carry from the word at [p]; the last argument of the result tells
    whether it is left over. *)
Fixpoint round_carry (fuel : nat) (t : list Z) (p : Z) : option (list Z * Z * bool) :=
  match fuel with
  | O => None
  | S fuel' =>
      let p := p - 1 in
      if p >=? 0 then
        let? w := rd t p in
        let '(w, carry) := add w 0 1 in
        let? t := wr t p w in
        if carry =? 0 then Some (t, p, false) else round_carry fuel' t p
      else Some (t, p, true)
  end.

(** src/drizzled/type/decimal.cc:1817-1820 decimal_round *)
Fixpoint shift_up (n : nat) (t : list Z) : option (list Z) :=
  match n with
  | O => Some t
  | S n' => let? w := rd t (Z.of_nat n') in let? t := wr t (Z.of_nat n) w in shift_up n' t
  end.

(** src/drizzled/type/decimal.cc:1827-1842 decimal_round

    The last word up to [p] that is not zero; [None] inside if there is none. *)
Fixpoint last_nonzero (fuel : nat) (t : list Z) (p : Z) : option (option Z) :=
  match fuel with
  | O => None
  | S fuel' =>
      let? w := rd t p in
      if negb (w =? 0) then Some (Some p) else if p =? 0 then Some None else last_nonzero fuel' t (p - 1)
  end.

(** src/drizzled/type/decimal.cc:1784-1855 decimal_round

    After the word at [p] has been rounded. *)
Definition round_finish (to : decimal_t) (t : list Z) (p intg0 frac0 frac1 scale error : Z) : option (Z * decimal_t) :=
  let n := len to in
  let finish (t : list Z) (p frac0 scale error intg1 : Z) :=
    let first_dig := Z.rem intg1 DIG_PER_DEC1 in
    let? w := rd t p in
    let? grow := if first_dig =? 0 then Some false else let? pw := rd powers10 first_dig in Some (w >=? pw) in
    Some (error, mkDecimal (if (grow : bool) then intg1 + 1 else intg1) (Z.max scale 0) n (sign to) t) in
  let? t :=
    if frac0 <? frac1 then
      let from := if (scale =? 0) && (intg0 =? 0) then 1 else intg0 + frac0 in
      let? (t, _) := fill_up (Z.to_nat (n - from)) 0 t from in Some t
    else Some t in
  let? w := rd t p in
  if w >=? DIG_BASE then
    let? t := wr t p (w - DIG_BASE) in
    let? (t, p, over) := round_carry (S (Z.to_nat (p + 1))) t p in
    if (over : bool) then
      let '(frac0, scale, error) :=
        if frac0 + intg0 >=? n then (frac0 - 1, (frac0 - 1) * DIG_PER_DEC1, E_DEC_TRUNCATED) else (frac0, scale, error) in
      let? t := shift_up (Z.to_nat (intg0 + Z.max frac0 0)) t in
      let? t := wr t 0 1 in
      finish t 0 frac0 scale error (intg to + 1)
    else finish t p frac0 scale error (intg to)
  else
    let? l := last_nonzero (S (Z.to_nat (p + 1))) t p in
    match l with
    | Some p => finish t p frac0 scale error (intg to)
    | None =>
        let? (t, _) := fill_up (Z.to_nat (frac0 + 1)) 0 t 0 in
        Some (E_DEC_OK, mkDecimal 1 (Z.max scale 0) n false t)
    end.

(** src/drizzled/type/decimal.cc:1706-1707 decimal_round

    The words moved within one buffer. *)
Fixpoint move_down (n : nat) (t : list Z) (p1 p0 : Z) : option (list Z) :=
  match n with
  | O => Some t
  | S n' => let? w := rd t (p0 - 1) in let? t := wr t (p1 - 1) w in move_down n' t (p1 - 1) (p0 - 1)
  end.

(** src/drizzled/type/decimal.cc:1665-1856 decimal_round

    [same]: [from] and [to] are the same object. *)
Definition decimal_round (from to : decimal_t) (same : bool) (scale : Z) (mode : decimal_round_mode) : option (Z * decimal_t) :=
  let frac0 := if scale >? 0 then round_up scale else scale ÷ DIG_PER_DEC1 in
  let frac1 := round_up (frac from) in
  let intg0 := round_up (intg from) in
  let n := len to in
  let? nines := if intg0 + frac0 >? 0 then let? w := rd (buf from) 0 in Some (w =? DIG_MAX) else Some false in
  let intg1 := round_up (intg from + Z.b2z nines) in
  let digit := round_digit mode (sign from) in
  let '(frac0, scale, error) :=
    if frac0 + intg0 >? n then (n - intg0, (n - intg0) * DIG_PER_DEC1, E_DEC_TRUNCATED) else (frac0, scale, E_DEC_OK) in
  if scale + intg from <? 0 then let? r := set_zero to in Some (E_DEC_OK, r)
  else
    let? (to, intg0) :=
      if negb same || (intg1 >? intg0) then
        let k := Z.max frac1 frac0 in
        let? t :=
          if same then
            move_down (Z.to_nat (intg0 + k)) (buf from) (intg1 + k) (intg0 + k)
          else let? (t, _, _) := copy_down (Z.to_nat (intg0 + k)) (buf from) (buf to) (intg1 + k) (intg0 + k) in Some t in
        let? t := if intg1 >? intg0 then wr t 0 0 else Some t in
        Some (mkDecimal (Z.min intg1 n * DIG_PER_DEC1) (frac to) n (sign from) t, intg1)
      else Some (to, intg0) in
    let set_frac (t : list Z) := mkDecimal (intg to) scale n (sign to) t in
    if frac0 >? frac1 then
      let? (t, _) := fill_up (Z.to_nat (frac0 - frac1)) 0 (buf to) (intg0 + frac1) in Some (error, set_frac t)
    else if scale >=? frac from then Some (error, set_frac (buf to))
    else
      let p := intg0 + frac0 - 1 in
      let t := buf to in
      if scale =? frac0 * DIG_PER_DEC1 then
        if frac0 + intg0 >=? 0 then
          let? inc := round_inc mode digit t p (frac1 - frac0) (frac0 + intg0 >? 0) in
          if (inc : bool) then
            if frac0 + intg0 >? 0 then
              let? w := rd t p in let? t := wr t p (i32 (w + 1)) in
              round_finish to t p intg0 frac0 frac1 scale error
            else
              let? t := wr t (p + 1) DIG_BASE in
              round_finish to t (p + 1) intg0 frac0 frac1 scale error
          else if frac0 + intg0 =? 0 then let? r := set_zero to in Some (E_DEC_OK, r)
          else round_finish to t p intg0 frac0 frac1 scale error
        else None
      else if frac0 + intg0 >? 0 then
        let? w := rd t p in
        let? w := round_word mode digit w (frac0 * DIG_PER_DEC1 - scale - 1) in
        let? t := wr t p w in
        round_finish to t p intg0 frac0 frac1 scale error
      else None.

(** src/drizzled/type/decimal.h:304-309 class_decimal_round *)
Definition class_decimal_round (from to : decimal_t) (same : bool) (scale : Z) (truncate : bool) : option (Z * decimal_t) :=
  decimal_round from to same scale (if truncate then TRUNCATE else HALF_UP).

(** src/drizzled/type/decimal.h:312-316 class_decimal_floor *)
Definition class_decimal_floor (from to : decimal_t) (same : bool) : option (Z * decimal_t) :=
  decimal_round from to same 0 FLOOR.

(** src/drizzled/type/decimal.h:319-323 class_decimal_ceiling *)
Definition class_decimal_ceiling (from to : decimal_t) (same : bool) : option (Z * decimal_t) :=
  decimal_round from to same 0 CEILING.
