(* ===== verification/DecRoundSpec.v ===== *)
(** Rounding of decimals: what [decimal_round] gives, for a result in a buffer of
    its own and for a number that is rounded in place.

    The words that are kept, with the last one rounded, denote a number
    ([round_finish_spec]); it is the number of the operand rounded to a multiple
    of the unit of the scale. *)

From Stdlib Require Import ZArith Lia ZifyBool List Bool QArith Qabs Qround.
From S2P Require Import Prelude Words Decimal DecArith DecSub DecRound.
Import ListNotations.
Local Open Scope Z_scope.
Local Open Scope fail_scope.

Local Abbreviation B := DIG_BASE.

(** ** The carry *)

Lemma add_one x : word_ok x -> add x 0 1 = if x =? B - 1 then (0, 1) else (x + 1, 0).
Proof.
  intros [H0 H1]; unfold add, DIG_BASE in *; rewrite (i32_small (x + 0)), (i32_small (x + 0 + 1)), Z.geb_leb by lia.
  destruct (Z.eqb_spec x (1000000000 - 1)) as [->|N]; [reflexivity|].
  destruct (Z.leb_spec 1000000000 (x + 0 + 1)); [lia|]; f_equal; lia.
Qed.

(** The carry through the words [H]; [true] if it leaves them, all zero then. *)
Lemma round_carry_spec fuel : forall H post, (Z.to_nat (zlen H) < fuel)%nat -> Forall word_ok H ->
  exists H' p over, round_carry fuel (H ++ post) (zlen H) = Some (H' ++ post, p, over) /\ zlen H' = zlen H /\ Forall word_ok H' /\
    wval H + 1 = wval H' + Z.b2z over * B ^ zlen H /\
    (over = true -> p = -1) /\ (over = false -> 0 <= p < zlen H /\ exists x, rd (H' ++ post) p = Some x /\ 0 < x).
Proof.
  induction fuel as [|fuel IH]; intros H post Hf HH; [lia|]; cbn [round_carry].
  destruct (Z.eq_dec (zlen H) 0) as [E|E].
  - rewrite (zlen_zero H E); change (zlen (@nil Z)) with 0; cbn [Z.sub Z.add Z.opp Z.geb Z.compare].
    exists [], (-1), true; repeat split; try apply Forall_nil; discriminate.
  - snoc H as H0 x; apply Forall_app in HH as [HH0 [Hx _]%Forall_cons_iff]; rewrite zlen_app in *; change (zlen [x]) with 1 in *; pose proof (zlen_nonneg H0).
    replace (zlen H0 + 1 - 1) with (zlen H0) by lia; assert ((zlen H0 >=? 0) = true) as -> by lia.
    rewrite <- app_assoc; cbn [app]; rewrite rd_at by reflexivity; cbn [obind]; rewrite add_one by exact Hx.
    rewrite wval_app; change (wval [x]) with (x * 1 + 0); change (B ^ zlen [x]) with B; rewrite Z.pow_add_r, Z.pow_1_r by lia.
    unfold word_ok, digit_ok in Hx; destruct (Z.eqb_spec x (B - 1)) as [->|N]; rewrite wr_at by reflexivity; cbn [obind Z.eqb].
    + destruct (IH H0 (0 :: post) ltac:(lia) HH0) as (H' & p & over & Er & L & HW & EV & O1 & O2); rewrite Er.
      exists (H' ++ [0]), p, over; rewrite <- app_assoc, zlen_app, wval_app; change (wval [0]) with 0; change (B ^ zlen [0]) with B; change (zlen [0]) with 1.
      split; [reflexivity|split; [lia|split; [apply Forall_app; split; [exact HW|apply (word_ok_zeros 1)]|]]].
      split; [nia|split; [exact O1|intros O; destruct (O2 O) as [O3 O4]; split; [lia|exact O4]]].
    + exists (H0 ++ [x + 1]), (zlen H0), false; rewrite <- app_assoc, zlen_app, wval_app; change (zlen [x + 1]) with 1; change (B ^ zlen [x + 1]) with B.
      change (wval [x + 1]) with ((x + 1) * 1 + 0); cbn [Z.b2z].
      split; [reflexivity|split; [lia|split; [|split; [lia|split; [discriminate|intros _; split; [lia|]]]]]].
      * apply Forall_app; split; [exact HH0|apply Forall_cons; [unfold word_ok, digit_ok; lia|apply Forall_nil]].
      * exists (x + 1); split; [apply rd_at; reflexivity|lia].
Qed.

(** ** The zeros *)

Lemma last_nonzero_spec fuel : forall H post, (Z.to_nat (zlen H) <= fuel)%nat -> 0 < zlen H -> Forall word_ok H ->
  exists l, last_nonzero fuel (H ++ post) (zlen H - 1) = Some l /\
    (l = None -> wval H = 0) /\ (forall p, l = Some p -> 0 <= p < zlen H /\ exists x, rd (H ++ post) p = Some x /\ 0 < x).
Proof.
  induction fuel as [|fuel IH]; intros H post Hf HL HH; [lia|]; cbn [last_nonzero].
  snoc H as H0 x; apply Forall_app in HH as [HH0 [Hx _]%Forall_cons_iff]; rewrite zlen_app in *; change (zlen [x]) with 1 in *; pose proof (zlen_nonneg H0).
  replace (zlen H0 + 1 - 1) with (zlen H0) by lia; rewrite <- app_assoc; cbn [app]; rewrite rd_at by reflexivity; cbn [obind].
  destruct (Z.eqb_spec x 0) as [->|N]; cbn [negb].
  - destruct (Z.eqb_spec (zlen H0) 0) as [E|E].
    + exists None; rewrite (zlen_zero H0 E); repeat split; discriminate.
    + destruct (IH H0 (0 :: post) ltac:(lia) ltac:(lia) HH0) as (l & -> & L1 & L2); exists l; split; [reflexivity|split].
      * intros El; rewrite wval_app, (L1 El); reflexivity.
      * intros p Ep; destruct (L2 p Ep) as [L3 L4]; split; [lia|exact L4].
  - exists (Some (zlen H0)); split; [reflexivity|split; [discriminate|intros p [= <-]; split; [lia|]]].
    exists x; split; [apply rd_at; reflexivity|destruct Hx; lia].
Qed.

Lemma shift_up_eq n : forall m x post, zlen m = Z.of_nat n -> exists h, shift_up n (m ++ x :: post) = Some (h :: m ++ post).
Proof.
  induction n as [|n IH]; intros m x post L.
  - rewrite (zlen_zero m L); exists x; reflexivity.
  - snoc m as m0 w; rewrite zlen_app in L; change (zlen [w]) with 1 in L; cbn [shift_up]; rewrite <- app_assoc; cbn [app].
    rewrite rd_at by lia; cbn [obind]; regroup (m0 ++ w :: x :: post) ((m0 ++ [w]) ++ x :: post).
    rewrite wr_at by llia; cbn [obind]; rewrite <- app_assoc; cbn [app].
    destruct (IH m0 w (w :: post)) as [h E]; [lia|]; exists h; rewrite E, <- app_assoc; reflexivity.
Qed.

(** Words of which only the first one is not zero. *)
Lemma top_word out post c p x : Forall word_ok out -> wval out = c * B ^ (zlen out - 1) -> 0 <= p < zlen out ->
  rd (out ++ post) p = Some x -> 0 < x -> p = 0 /\ x = c.
Proof.
  intros HO E Hp Er Hx; destruct out as [|y l]; [llia|]; rewrite zlen_cons in *.
  apply Forall_cons_iff in HO as [_ Hl]; rewrite wval_cons in E; replace (zlen l + 1 - 1) with (zlen l) in E by lia.
  pose proof (wval_bounds _ Hl) as Bl; assert (y = c) as -> by (revert E Bl; clear; nia); assert (wval l = 0) as El by lia.
  destruct (Z.eq_dec p 0) as [->|N]; [cbn [app] in Er; rewrite rd_0 in Er; injection Er as ->; auto|exfalso].
  destruct (zsplit (p - 1) l) as (l1 & l2 & -> & L1 & L2); [lia|]; destruct l2 as [|z l2]; [rewrite zlen_nil in L2; lia|].
  replace ((c :: l1 ++ z :: l2) ++ post) with ((c :: l1) ++ z :: l2 ++ post) in Er by (cbn [app]; rewrite <- app_assoc; reflexivity).
  rewrite rd_at in Er by (rewrite zlen_cons; lia); injection Er as ->.
  apply (bval_zero B base_gt1) in El; [|exact Hl].
  assert (x = 0); [|lia]; apply (repeat_spec (List.length (l1 ++ x :: l2)) 0); rewrite <- El; apply in_elt.
Qed.

(** ** The end of the rounding *)

(** The result [r] in the buffer [to] has the magnitude [v], in units of its
    last word. *)
Record settled (to : decimal_t) (scale v : Z) (r : decimal_t) : Prop := {
  settled_wf : wf r;
  settled_frac : frac r = Z.max scale 0;
  settled_mant : mant r = v;
  settled_sign : v <> 0 -> sign r = sign to;
  settled_len : len r = len to
}.

(** The words after the last one that is kept are cleared. *)
Lemma clear_tail H w X n intg0 frac0 frac1 scale : zlen H + 1 = intg0 + frac0 -> frac0 <= frac1 -> 0 <= frac1 -> 0 <= intg0 ->
  zlen (H ++ w :: X) = n -> intg0 + Z.max frac0 0 <= n -> (scale = 0 -> frac0 = 0) ->
  exists post, (if frac0 <? frac1 then
      let from := if (scale =? 0) && (intg0 =? 0) then 1 else intg0 + frac0 in
      let? (t, _) := fill_up (Z.to_nat (n - from)) 0 (H ++ w :: X) from in Some t
    else Some (H ++ w :: X)) = Some (H ++ w :: repeat 0 (Z.to_nat (- frac0)) ++ post) /\
    zlen (H ++ w :: repeat 0 (Z.to_nat (- frac0)) ++ post) = n.
Proof.
  intros L Hf Hf1 Hi Hn Hr Hs; pose proof (zlen_nonneg H); destruct (Z.ltb_spec frac0 frac1) as [C|C].
  - assert ((scale =? 0) && (intg0 =? 0) = false) as -> by lia; cbv zeta.
    rewrite zlen_app, zlen_cons in Hn.
    rewrite <- (app_nil_r X); regroup (H ++ w :: X ++ []) ((H ++ [w]) ++ X ++ []).
    rewrite (fill_up_eq _ _ X) by llia; cbn [obind]; rewrite app_nil_r.
    exists (repeat 0 (Z.to_nat (n - (intg0 + frac0)) - Z.to_nat (- frac0))).
    rewrite <- repeat_app, <- app_assoc; cbn [app].
    replace (Z.to_nat (- frac0) + (Z.to_nat (n - (intg0 + frac0)) - Z.to_nat (- frac0)))%nat with (Z.to_nat (n - (intg0 + frac0))) by lia.
    split; [reflexivity|llia].
  - exists X; replace (Z.to_nat (- frac0)) with O by lia; split; [reflexivity|exact Hn].
Qed.

(** The words [out] as a result with [n] digits of the integer part. *)
Lemma settle_words to s out post scale n : target to -> zlen (out ++ post) = len to -> 0 <= n -> Forall word_ok out ->
  zlen out = round_up n + round_up (Z.max scale 0) -> wval out < 10 ^ (n + 9 * round_up (Z.max scale 0)) ->
  (10 ^ (9 * round_up (Z.max scale 0) - Z.max scale 0) | wval out) -> s = sign to ->
  settled to scale (wval out) (mkDecimal n (Z.max scale 0) (len to) s (out ++ post)).
Proof.
  intros [T _] L Hn HO LO HV HT ->; constructor; try reflexivity.
  - apply build_wf; auto; lia.
  - apply build_mant; exact LO.
Qed.

Lemma wval_then_zeros H w k : wval (H ++ w :: repeat 0 (Z.to_nat k)) = (wval H * B + w) * B ^ Z.max k 0.
Proof.
  rewrite wval_app, wval_cons, wval_zeros, zlen_cons, zlen_repeat; replace (Z.of_nat (Z.to_nat k)) with (Z.max k 0) by lia.
  rewrite Z.pow_add_r, Z.pow_1_r by lia; ring.
Qed.

(** A zero result. *)
Lemma settle_zero to H w z post scale frac0 : target to -> zlen (H ++ w :: z ++ post) = len to ->
  Z.max frac0 0 = round_up (Z.max scale 0) -> Z.max frac0 0 + 1 <= len to -> (frac0 < 0 -> hd 0 (H ++ [w]) = 0) ->
  exists t p, fill_up (Z.to_nat (frac0 + 1)) 0 (H ++ w :: z ++ post) 0 = Some (t, p) /\
    settled to scale 0 (mkDecimal 1 (Z.max scale 0) (len to) false t).
Proof.
  intros [T0 _] L Ef Hr Hz; remember (H ++ w :: z ++ post) as t eqn:Et.
  destruct (zsplit (Z.max frac0 0 + 1) t) as (u & t' & -> & Lu & Lt); [lia|].
  assert (exists p, fill_up (Z.to_nat (frac0 + 1)) 0 (u ++ t') 0 = Some (repeat 0 (Z.to_nat (Z.max frac0 0 + 1)) ++ t', p)) as [p E].
  { destruct (Z_lt_le_dec frac0 0) as [C|C].
    - replace (Z.to_nat (frac0 + 1)) with O by lia; exists 0; cbn [fill_up]; do 2 f_equal.
      destruct u as [|x [|y u]]; rewrite ?zlen_cons, ?zlen_nil in Lu; try (pose proof (zlen_nonneg u)); try lia.
      replace (Z.max frac0 0) with 0 by lia; change (repeat 0 (Z.to_nat (0 + 1)) ++ t') with (0 :: t'); cbn [app]; f_equal.
      specialize (Hz C); destruct H as [|h H]; cbn in Et, Hz; injection Et as E1 E2; rewrite E1; exact Hz.
    - exists (Z.of_nat (Z.to_nat (frac0 + 1))); replace (Z.max frac0 0) with frac0 by lia.
      apply (fill_up_eq _ 0 u [] t'); [lia|reflexivity]. }
  exists (repeat 0 (Z.to_nat (Z.max frac0 0 + 1)) ++ t'), p; split; [exact E|].
  assert (zlen (repeat 0 (Z.to_nat (Z.max frac0 0 + 1))) = round_up 1 + round_up (Z.max scale 0)) as Lz
    by (change (round_up 1) with 1; rewrite zlen_repeat; lia).
  constructor; try reflexivity; try (intros C; contradiction).
  - apply build_wf; rewrite ?wval_zeros; try lia; try exact Lz; try apply word_ok_zeros; try apply Z.divide_0_r; llia.
  - rewrite build_mant by exact Lz; apply wval_zeros.
Qed.

Section round_finish.
Context (to : decimal_t) (H : list Z) (intg0 frac0 frac1 scale : Z).
Context (T : target to) (Hd : 0 <= intg to) (Ei : round_up (intg to) = intg0) (HH : Forall word_ok H) (L : zlen H + 1 = intg0 + frac0)
  (Hf : frac0 <= frac1) (Hf1 : 0 <= frac1) (Ef : Z.max frac0 0 = round_up (Z.max scale 0))
  (Hs : scale = 0 -> frac0 = 0) (Hr1 : intg0 + Z.max frac0 0 <= len to) (Hr2 : Z.max frac0 0 + 1 <= len to).

(** The words [H'] and [w] as the result, with [n] digits before the point. *)
Lemma settle_kept H' w post n : zlen H' = zlen H -> Forall word_ok H' -> word_ok w ->
  zlen (H' ++ w :: repeat 0 (Z.to_nat (- frac0)) ++ post) = len to -> 0 <= n -> round_up n = intg0 ->
  (wval H' * B + w) * B ^ Z.max (- frac0) 0 < 10 ^ (n + 9 * Z.max frac0 0) ->
  (10 ^ (9 * Z.max frac0 0 - Z.max scale 0) | (wval H' * B + w) * B ^ Z.max (- frac0) 0) ->
  settled to scale ((wval H' * B + w) * B ^ Z.max (- frac0) 0)
    (mkDecimal n (Z.max scale 0) (len to) (sign to) (H' ++ w :: repeat 0 (Z.to_nat (- frac0)) ++ post)).
Proof.
  intros L' HH' Hw Lt Hn En; rewrite <- !wval_then_zeros, Ef; intros Hv Hdv.
  regroup (H' ++ w :: repeat 0 (Z.to_nat (- frac0)) ++ post) ((H' ++ w :: repeat 0 (Z.to_nat (- frac0))) ++ post).
  apply settle_words; auto.
  - flia.
  - apply Forall_app; split; [exact HH'|apply Forall_cons; [exact Hw|apply word_ok_zeros]].
  - flia.
Qed.

(** One digit more before the point, if the word at [p] has outgrown the first
    one: it has if the number has. *)
Lemma settle_finish H' w post p x (v := (wval H' * B + w) * B ^ Z.max (- frac0) 0) (t := H' ++ w :: repeat 0 (Z.to_nat (- frac0)) ++ post) :
  zlen H' = zlen H -> Forall word_ok H' -> word_ok w -> zlen t = len to -> 0 <= p <= zlen H -> rd t p = Some x -> 0 < x ->
  v <= 10 ^ (intg to + 9 * Z.max frac0 0) -> (10 ^ (9 * Z.max frac0 0 - Z.max scale 0) | v) ->
  exists r, (let first_dig := Z.rem (intg to) DIG_PER_DEC1 in
    let? w := rd t p in
    let? grow := if first_dig =? 0 then Some false else let? pw := rd powers10 first_dig in Some (w >=? pw) in
    Some (E_DEC_OK, mkDecimal (if (grow : bool) then intg to + 1 else intg to) (Z.max scale 0) (len to) (sign to) t)) = Some (E_DEC_OK, r) /\
    settled to scale v r.
Proof.
  intros L' HH' Hw Lt Hp Er Hx Hle Hdv; cbv zeta; rewrite Er; cbn [obind]; set (fd := Z.rem (intg to) DIG_PER_DEC1).
  pose proof (round_up_bounds (intg to) Hd) as Rb; rewrite Ei in Rb; pose proof (zlen_nonneg H) as LH.
  assert (0 <= fd <= 8 /\ (fd = 0 -> intg to = 9 * intg0) /\ (fd <> 0 -> intg to = 9 * intg0 - 9 + fd)) as (F1 & F2 & F3).
  { subst fd; unfold DIG_PER_DEC1; clear - Hd Rb; dlia. }
  set (out := H' ++ w :: repeat 0 (Z.to_nat (- frac0))).
  assert (Forall word_ok out) as HO by (apply Forall_app; split; [exact HH'|apply Forall_cons; [exact Hw|apply word_ok_zeros]]).
  assert (zlen out = intg0 + Z.max frac0 0) as LO by (subst out; clear Lt; flia).
  assert (wval out = v) as VO by apply wval_then_zeros; assert (t = out ++ post) as Et by (subst t out; rewrite <- app_assoc; reflexivity).
  assert (exists grow, (if fd =? 0 then Some false else let? pw := rd powers10 fd in Some (x >=? pw)) = Some grow /\
      (grow = true -> fd <> 0) /\ (v = 10 ^ (intg to + 9 * Z.max frac0 0) -> grow = true)) as (grow & -> & G1 & G2).
  { destruct (Z.eqb_spec fd 0) as [E|E].
    - exists false; split; [reflexivity|split; [discriminate|intros Ev; exfalso]]; pose proof (wval_bounds _ HO) as BO.
      rewrite VO, Ev, LO, base_pow, (F2 E) in BO by (flat; lia); replace (9 * (intg0 + Z.max frac0 0)) with (9 * intg0 + 9 * Z.max frac0 0) in BO by lia; lia.
    - rewrite powers10_at by (flat; lia); cbn [obind]; eexists; split; [reflexivity|split; [intros _; exact E|intros Ev]].
      destruct (top_word out post (10 ^ fd) p x HO) as [_ ->]; [|flat; lia|rewrite <- Et; exact Er|exact Hx|apply Z.geb_le; lia].
      rewrite VO, Ev, LO, base_pow, <- Z.pow_add_r by (flat; lia); f_equal; specialize (F3 E); flat; lia. }
  cbn [obind]; eexists; split; [reflexivity|].
  assert (0 < 10 ^ (intg to + 9 * Z.max frac0 0)) as P10 by (apply Z.pow_pos_nonneg; flat; lia).
  destruct grow; apply settle_kept; try assumption; try (flat; lia).
  - specialize (G1 eq_refl); apply round_up_unique; specialize (F3 G1); flat; lia.
  - fold v; replace (intg to + 1 + 9 * Z.max frac0 0) with (Z.succ (intg to + 9 * Z.max frac0 0)) by lia; rewrite Z.pow_succ_r by (flat; lia).
    clear - Hle P10; lia.
  - fold v; destruct (Z.eq_dec v (10 ^ (intg to + 9 * Z.max frac0 0))) as [Ev|Nv]; [discriminate (G2 Ev)|clear - Hle Nv; lia].
Qed.

(** A carry out of all words. *)
Lemma settle_carry H' post (t := H' ++ 0 :: repeat 0 (Z.to_nat (- frac0)) ++ post) : zlen H' = zlen H -> wval H' = 0 -> Forall word_ok H' ->
  zlen t = len to -> intg to = 9 * intg0 -> intg0 + Z.max frac0 0 < len to ->
  exists h t', shift_up (Z.to_nat (intg0 + Z.max frac0 0)) t = Some (h :: t') /\
    settled to scale (B ^ (intg0 + Z.max frac0 0)) (mkDecimal (intg to + 1) (Z.max scale 0) (len to) (sign to) (1 :: t')).
Proof.
  intros L' V HH' Lt Ew Hlt; pose proof (zlen_nonneg H).
  assert (H' = repeat 0 (List.length H')) as EH by (apply (bval_zero B base_gt1); assumption).
  set (N := Z.to_nat (intg0 + Z.max frac0 0)).
  assert (t = repeat 0 N ++ post) as Et.
  { subst t; rewrite EH; change (0 :: repeat 0 (Z.to_nat (- frac0)) ++ post) with (repeat 0 (S (Z.to_nat (- frac0))) ++ post).
    rewrite app_assoc, <- repeat_app; do 2 f_equal; unfold zlen in *; lia. }
  rewrite Et in *; rewrite zlen_app, zlen_repeat in Lt; destruct post as [|x post]; [rewrite zlen_nil in Lt; lia|].
  destruct (shift_up_eq N (repeat 0 N) x post) as [h E]; [apply zlen_repeat|].
  exists h, (repeat 0 N ++ post); split; [exact E|]; rewrite zlen_cons in Lt; destruct T as [T0 _].
  assert (wval (1 :: repeat 0 N) = B ^ (intg0 + Z.max frac0 0)) as VN
    by (rewrite wval_cons, wval_zeros, zlen_repeat; unfold N; rewrite Z2Nat.id by lia; ring).
  assert (round_up (intg to + 1) = intg0 + 1) as Er by (apply round_up_unique; lia).
  change (1 :: repeat 0 N ++ post) with ((1 :: repeat 0 N) ++ post).
  constructor; try reflexivity.
  - apply build_wf; rewrite ?VN, ?Er, ?Ew; try lia.
    + llia.
    + llia.
    + apply Forall_cons; [split; [lia|reflexivity]|apply word_ok_zeros].
    + rewrite <- Ef, base_pow by lia; apply Z.pow_lt_mono_r; lia.
    + rewrite <- Ef, base_pow by lia; pose proof (round_up_bounds (Z.max scale 0) ltac:(lia)).
      exists (10 ^ (9 * intg0 + Z.max scale 0)); rewrite <- Z.pow_add_r by lia; f_equal; lia.
  - rewrite build_mant; [exact VN|rewrite Er; llia].
Qed.

(** After the last kept word has been rounded to [w]. *)
Lemma round_finish_spec w X p (v := (wval H * B + w) * B ^ Z.max (- frac0) 0) :
  zlen (H ++ w :: X) = len to -> 0 <= w <= B -> p = zlen H -> v <= 10 ^ (intg to + 9 * Z.max frac0 0) ->
  (v = B ^ (intg0 + Z.max frac0 0) -> intg0 + Z.max frac0 0 < len to) ->
  (10 ^ (9 * Z.max frac0 0 - Z.max scale 0) | v) ->
  exists r, round_finish to (H ++ w :: X) p intg0 frac0 frac1 scale E_DEC_OK = Some (E_DEC_OK, r) /\ settled to scale v r.
Proof.
  intros Lt Hw -> Hle Hov Hdiv; pose proof (zlen_nonneg H); pose proof (round_up_bounds (intg to) Hd) as Rb; rewrite Ei in Rb.
  destruct (clear_tail H w X (len to) intg0 frac0 frac1 scale) as (post & E & Lp); try assumption; [lia|].
  cbv zeta in E; cbv beta zeta delta [round_finish]; rewrite E; clear E Lt; cbn [obind].
  rewrite rd_at by reflexivity; cbn [obind]; rewrite Z.geb_leb; destruct (Z.leb_spec B w) as [C|C].
  - assert (w = B) by lia; subst w; clear C Hw; rewrite wr_at by reflexivity; cbn [obind]; rewrite Z.sub_diag.
    destruct (round_carry_spec (S (Z.to_nat (zlen H + 1))) H (0 :: repeat 0 (Z.to_nat (- frac0)) ++ post) ltac:(lia) HH)
      as (H' & p & over & -> & L' & HH' & V & O1 & O2); cbn [obind].
    assert (zlen (H' ++ 0 :: repeat 0 (Z.to_nat (- frac0)) ++ post) = len to) as Lp' by (revert Lp; flia).
    destruct over.
    + pose proof (wval_bounds _ HH) as B1; pose proof (wval_bounds _ HH') as B2; rewrite L' in B2; cbn [Z.b2z] in V.
      assert (v = B ^ (intg0 + Z.max frac0 0)) as Ev.
      { subst v; replace (wval H * B + B) with ((wval H + 1) * B) by ring.
        replace (wval H + 1) with (B ^ zlen H) by (clear - V B1 B2; lia).
        replace (B ^ zlen H * B) with (B ^ (zlen H + 1)) by (rewrite Z.pow_add_r, Z.pow_1_r by lia; reflexivity).
        rewrite <- Z.pow_add_r by flia; f_equal; flia. }
      assert (intg to = 9 * intg0) as Ew.
      { rewrite Ev, base_pow in Hle by (flat; lia); apply Z.pow_le_mono_r_iff in Hle; flat; lia. }
      assert ((frac0 + intg0 >=? len to) = false) as -> by (specialize (Hov Ev); lia).
      destruct (settle_carry H' post L' ltac:(lia) HH' Lp' Ew (Hov Ev)) as (h & t' & -> & S); cbn [obind].
      rewrite wr_0; cbn [obind]; rewrite rd_0; cbn [obind].
      assert (Z.rem (intg to + 1) DIG_PER_DEC1 = 1) as -> by (rewrite Ew; unfold DIG_PER_DEC1; clear - Rb Hd; dlia).
      rewrite Ev; eexists; split; [reflexivity|exact S].
    + destruct (O2 eq_refl) as (O3 & x & Ex & Px); cbn [Z.b2z] in V.
      replace v with ((wval H' * B + 0) * B ^ Z.max (- frac0) 0) in * by (subst v; f_equal; clear - V; lia).
      apply (settle_finish H' 0 post p x); auto; [split; [discriminate|reflexivity]|flat; lia].
  - assert (word_ok w) as Ww by (split; [apply Hw|exact C]).
    assert (Forall word_ok (H ++ [w])) as HW by (apply Forall_app; split; [exact HH|apply Forall_cons; [exact Ww|apply Forall_nil]]).
    destruct (last_nonzero_spec (S (Z.to_nat (zlen H + 1))) (H ++ [w]) (repeat 0 (Z.to_nat (- frac0)) ++ post)) as (l & El & N1 & N2);
      [flia|flia|exact HW|].
    rewrite <- app_assoc, zlen_app in El; cbn [app] in El; change (zlen [w]) with 1 in El; rewrite Z.add_simpl_r in El; rewrite El; cbn [obind].
    destruct l as [p|].
    + destruct (N2 p eq_refl) as (N3 & x & Ex & Px); rewrite <- app_assoc in Ex; cbn [app] in Ex; rewrite zlen_app in N3; change (zlen [w]) with 1 in N3.
      apply (settle_finish H w post p x); auto; flat; lia.
    + specialize (N1 eq_refl); assert (v = 0) as -> by (subst v; unfold wval in N1; rewrite bval_snoc in N1; unfold wval; rewrite N1; reflexivity).
      destruct (settle_zero to H w (repeat 0 (Z.to_nat (- frac0))) post scale frac0 T Lp Ef Hr2) as (t & p & -> & S).
      * intros _; apply (bval_zero B base_gt1) in N1; [|exact HW]; rewrite N1; destruct H; reflexivity.
      * cbn [obind]; eexists; split; [reflexivity|exact S].
Qed.

End round_finish.

(** ** Rounding of numbers *)

(** Whether [d] above a multiple of the unit [u] goes up to the next one. *)
Definition bump (mode : decimal_round_mode) (s : bool) (q d u : Z) : bool :=
  match mode with
  | TRUNCATE => false
  | HALF_UP => u <=? 2 * d
  | HALF_EVEN => (u <? 2 * d) || ((2 * d =? u) && Z.odd q)
  | CEILING => negb s && negb (d =? 0)
  | FLOOR => s && negb (d =? 0)
  end.

(** The magnitude [m] of a number with the sign [s], rounded to a multiple of [u]. *)
Definition round_to (mode : decimal_round_mode) (s : bool) (m u : Z) : Z :=
  (m / u + Z.b2z (bump mode s (m / u) (m mod u) u)) * u.

Lemma round_to_split mode s q d u : 0 <= d < u -> round_to mode s (q * u + d) u = (q + Z.b2z (bump mode s q d u)) * u.
Proof.
  intros Hd; unfold round_to; rewrite (Z.add_comm (q * u)), Z.div_add, Z.mod_add, Z.div_small, Z.mod_small by lia; reflexivity.
Qed.

Lemma bump_exact mode s q u : 0 < u -> bump mode s q 0 u = false.
Proof.
  intros Hu; destruct mode, s; cbn [bump negb andb]; try reflexivity; try lia.
Qed.

Lemma round_to_exact mode s m u : 0 < u -> (u | m) -> round_to mode s m u = m.
Proof.
  intros Hu [q ->]; replace (q * u) with (q * u + 0) by ring; rewrite round_to_split by lia.
  rewrite bump_exact by exact Hu; cbn [Z.b2z]; ring.
Qed.

(** The words that [scale] digits of the fraction take; negative for digits of
    the integer part. *)
Definition scale_words (scale : Z) : Z := if scale >? 0 then round_up scale else scale ÷ DIG_PER_DEC1.

Lemma scale_words_bounds scale : 9 * scale_words scale - 9 < scale <= 9 * scale_words scale /\ (0 < scale_words scale <-> 0 < scale).
Proof.
  unfold scale_words; rewrite Z.gtb_ltb; destruct (Z.ltb_spec 0 scale) as [C|C].
  - pose proof (round_up_bounds scale ltac:(lia)); lia.
  - unfold DIG_PER_DEC1; dlia.
Qed.

Lemma scale_words_max scale : Z.max (scale_words scale) 0 = round_up (Z.max scale 0).
Proof.
  pose proof (scale_words_bounds scale); symmetry; apply round_up_unique; lia.
Qed.

(** ** The last word that is kept *)

(** A mode that looks at one digit only, or a scale of whole words. *)
Definition digit_mode (mode : decimal_round_mode) : bool := match mode with TRUNCATE | HALF_UP => true | _ => false end.
Definition is_half_even (mode : decimal_round_mode) : bool := match mode with HALF_EVEN => true | _ => false end.

Lemma first_digit x : word_ok x -> x ÷ DIG_MASK = x / 100000000 /\ 0 <= x / 100000000 <= 9.
Proof. intros [H0 H1]; unfold DIG_BASE, DIG_MASK in *; rewrite Z.quot_div_nonneg by lia; dlia. Qed.

Lemma half_word x d P : 0 <= d < P -> (5 <=? x / 100000000) = (B * P <=? 2 * (x * P + d)).
Proof.
  intros Hd; destruct (Z.leb_spec 5 (x / 100000000)) as [C|C]; symmetry; unfold DIG_BASE.
  - assert (500000000 <= x) by dlia; apply Z.leb_le; nia.
  - assert (x <= 499999999) by dlia; apply Z.leb_gt; nia.
Qed.

(** The words [D] that are dropped decide on the increment. *)
Lemma round_inc_spec mode s pre D X p cut kept q : is_half_even mode = false -> Forall word_ok D -> zlen D = cut -> 0 < cut ->
  p + 1 = zlen pre ->
  round_inc mode (round_digit mode s) (pre ++ D ++ X) p cut kept = Some (bump mode s q (wval D) (B ^ cut)).
Proof.
  intros Hm HD LD Hc Hp.
  assert (all_zero (Z.to_nat cut) (pre ++ D ++ X) (p + 1) = Some (wval D =? 0)) as EZ by (apply all_zero_eq; (exact HD || lia)).
  unfold round_inc; destruct mode; try discriminate; cbn [round_digit bump is_half_up].
  - reflexivity.
  - cbn [Z.eqb Pos.eqb]; destruct D as [|x D]; [llia|]; cbn [app]; rewrite rd_at by exact Hp; cbn [obind].
    apply Forall_cons_iff in HD as [Hx HD]; destruct (first_digit x Hx) as [-> D9].
    rewrite zlen_cons in LD; rewrite wval_cons; pose proof (wval_bounds _ HD) as BD.
    replace (B ^ cut) with (B * B ^ zlen D) by (rewrite <- LD, Z.pow_add_r by apply zlen_nonneg || lia; ring).
    rewrite <- half_word by assumption; rewrite Z.gtb_ltb; clear.
    destruct (Z.ltb_spec 5 (x / 100000000)), (Z.eqb_spec (x / 100000000) 5); f_equal; lia.
  - destruct s; cbn [Z.eqb negb andb]; [reflexivity|rewrite EZ; reflexivity].
  - destruct s; cbn [Z.eqb negb andb]; [rewrite EZ; reflexivity|reflexivity].
Qed.

(** A unit in the last kept word: one digit decides. *)
Lemma round_word_spec mode s w j : digit_mode mode = true -> word_ok w -> 1 <= j <= 8 ->
  round_word mode (round_digit mode s) w (j - 1) = Some (10 ^ j * (w / 10 ^ j + Z.b2z (bump mode s 0 (w mod 10 ^ j) (10 ^ j)))).
Proof.
  intros Hm [W0 W1] Hj; unfold DIG_BASE in W1; unfold round_word.
  assert (j = 1 \/ j = 2 \/ j = 3 \/ j = 4 \/ j = 5 \/ j = 6 \/ j = 7 \/ j = 8) as C by lia.
  destruct mode; try discriminate; cbn [bump round_digit is_half_up]; decompose [or] C; subst j;
    match goal with |- context [rd powers10 ?i] => let e := eval vm_compute in (rd powers10 i) in change (rd powers10 i) with e end;
    repeat match goal with |- context [10 ^ ?e] => let v := eval vm_compute in (10 ^ e) in change (10 ^ e) with v end;
    cbn [obind Z.eqb Pos.eqb andb orb Z.b2z]; f_equal; case_if; rewrite i32_small by dlia; try case_if; cbn [Z.b2z]; dlia.
Qed.

Lemma round_word_bounds w j (b : bool) : word_ok w -> 1 <= j <= 8 -> 0 <= 10 ^ j * (w / 10 ^ j + Z.b2z b) <= B.
Proof.
  intros [W0 W1] Hj; pose proof (Z.pow_pos_nonneg 10 j ltac:(lia) ltac:(lia)) as Hp.
  assert (B = 10 ^ j * 10 ^ (9 - j)) as EB by (rewrite <- Z.pow_add_r by lia; replace (j + (9 - j)) with 9 by lia; reflexivity).
  pose proof (Z.div_pos w (10 ^ j) W0 Hp); rewrite EB in W1 |- *; pose proof (Z.div_lt_upper_bound _ _ _ Hp W1).
  destruct b; cbn [Z.b2z]; split; try apply Z.mul_le_mono_nonneg_l; nia.
Qed.

Lemma bump_more mode s q q' d e u P : digit_mode mode = true -> 0 <= e < P -> (2 | u) ->
  bump mode s q (d * P + e) (u * P) = bump mode s q' d u.
Proof.
  intros Hm He [h ->]; destruct mode; try discriminate; cbn [bump]; [reflexivity|].
  destruct (Z.leb_spec (h * 2) (2 * d)) as [C|C]; [apply Z.leb_le|apply Z.leb_gt]; nia.
Qed.

(** The number [V], of which the words [D] are dropped and [w] is rounded. *)
Lemma kept_digits mode s H w D j : digit_mode mode = true -> Forall word_ok D -> 1 <= j <= 8 ->
  round_to mode s (wval (H ++ w :: D)) (10 ^ j * B ^ zlen D)
  = (wval H * B + 10 ^ j * (w / 10 ^ j + Z.b2z (bump mode s 0 (w mod 10 ^ j) (10 ^ j)))) * B ^ zlen D.
Proof.
  intros Hm HD Hj; pose proof (wval_bounds _ HD) as BD; rewrite wval_app, wval_cons, zlen_cons, Z.pow_add_r, Z.pow_1_r by (apply zlen_nonneg || lia).
  set (P := B ^ zlen D) in *; pose proof (Z.pow_pos_nonneg 10 j ltac:(lia) ltac:(lia)) as Hp.
  pose proof (Z.mod_pos_bound w (10 ^ j) Hp) as Hw; pose proof (Z.div_mod w (10 ^ j) ltac:(lia)) as Ew.
  assert (B = 10 ^ (9 - j) * 10 ^ j) as EB by (rewrite <- Z.pow_add_r by lia; replace (9 - j + j) with 9 by lia; reflexivity).
  set (u := 10 ^ j) in *; set (q := w / u) in *; set (d := w mod u) in *; set (g := 10 ^ (9 - j)) in *.
  replace (wval H * (P * B) + (w * P + wval D)) with ((wval H * g + q) * (u * P) + (d * P + wval D)) by (rewrite EB, Ew; ring).
  rewrite round_to_split by nia; rewrite (bump_more mode s _ 0) by (assumption || (subst u; exists (5 * 10 ^ (j - 1)); replace j with (1 + (j - 1)) at 1 by lia; rewrite Z.pow_add_r by lia; ring)).
  rewrite EB; ring.
Qed.

Lemma kept_words mode s K D : Forall word_ok D -> 
  round_to mode s (wval (K ++ D)) (B ^ zlen D) = (wval K + Z.b2z (bump mode s (wval K) (wval D) (B ^ zlen D))) * B ^ zlen D.
Proof. intros HD; rewrite wval_app; apply round_to_split, wval_bounds, HD. Qed.

(** ** The copy *)

(** The words of the operand in the buffer of the result, after a zero if the
    carry may need it; [G] are words past the fraction. *)
Record copied (a to : decimal_t) (frac0 N : Z) (V G post : list Z) : Prop := {
  copied_room : nint a <= N <= nint a + 1;
  copied_V : zlen V = N + nfrac a;
  copied_G : zlen G = Z.max (frac0 - nfrac a) 0;
  copied_ok : Forall word_ok V;
  copied_val : wval V = mant a;
  copied_len : zlen (V ++ G ++ post) = len to
}.

Lemma round_copy a to frac0 nines (k := Z.max (nfrac a) frac0) (N := round_up (intg a + Z.b2z nines)) : wf a -> target to ->
  nint a + 1 + k <= len to -> nint a + k <= len a ->
  exists t V G post, copy_down (Z.to_nat (nint a + k)) (buf a) (buf to) (N + k) (nint a + k) = Some (t, N - nint a, 0) /\
    (if N >? nint a then wr t 0 0 else Some t) = Some (V ++ G ++ post) /\ copied a to frac0 N V G post.
Proof.
  intros W [T0 T1] Hr Ha; destruct (wf_layout a W) as (I & F & R & Ea & LI & LF & _ & _ & HI & HF & Em).
  pose proof (nint_bounds a W); pose proof (nfrac_bounds a W); pose proof (wf_buf _ W) as Lb.
  assert (nint a <= N <= nint a + 1) as HN.
  { pose proof (wf_intg _ W); pose proof (round_up_bounds (intg a + Z.b2z nines) ltac:(destruct nines; cbn [Z.b2z]; lia)); subst N; destruct nines; cbn [Z.b2z] in *; lia. }
  destruct (zsplit (k - nfrac a) R) as (G & R' & -> & LG & _); [rewrite Ea in Lb; llia|].
  destruct (zsplit (N - nint a) (buf to)) as (lead & t1 & Et & Ll & Lt); [lia|].
  destruct (zsplit (nint a + k) t1) as (mid & post & -> & Lm & _); [lia|].
  rewrite Ea, Et; regroup (I ++ F ++ G ++ R') ([] ++ (I ++ F ++ G) ++ R').
  rewrite (copy_down_eq _ (I ++ F ++ G) mid lead post [] R') by (subst k; llia).
  rewrite Ll; change (zlen (@nil Z)) with 0.
  exists (lead ++ (I ++ F ++ G) ++ post), (repeat 0 (Z.to_nat (N - nint a)) ++ I ++ F), G, post; split; [reflexivity|split].
  - rewrite Z.gtb_ltb; destruct (Z.ltb_spec (nint a) N) as [C|C].
    + assert (N - nint a = 1) as E1 by lia; rewrite E1 in *; destruct lead as [|x [|y lead]]; [llia| |llia].
      cbn [app]; rewrite wr_0; change (Z.to_nat 1) with 1%nat; cbn [repeat app]; rewrite <- !app_assoc; reflexivity.
    + replace (N - nint a) with 0 in * by lia; rewrite (zlen_zero lead Ll); cbn [Z.to_nat repeat app]; rewrite <- !app_assoc; reflexivity.
  - assert (len to = zlen (lead ++ mid ++ post)) by congruence.
    constructor; [exact HN|llia|subst k; llia| | |subst k; llia].
    + apply Forall_app; split; [apply word_ok_zeros|apply Forall_app; split; assumption].
    + rewrite wval_app, wval_zeros, wval_app, LF, Em; ring.
Qed.

(** Within one buffer the words move up by one. *)
Lemma move_down_shift n t : move_down n t (Z.of_nat n + 1) (Z.of_nat n) = shift_up n t.
Proof.
  revert t; induction n as [|n IH]; intros t; [reflexivity|]; cbn [move_down shift_up].
  replace (Z.of_nat (S n) - 1) with (Z.of_nat n) by lia; replace (Z.of_nat (S n) + 1 - 1) with (Z.of_nat (S n)) by lia.
  destruct (rd t (Z.of_nat n)) as [w|]; [|reflexivity]; cbn [obind]; destruct (wr t (Z.of_nat (S n)) w) as [t'|]; [|reflexivity]; cbn [obind].
  replace (Z.of_nat (S n)) with (Z.of_nat n + 1) by lia; apply IH.
Qed.

Lemma round_move a frac0 (k := Z.max (nfrac a) frac0) (N := nint a + 1) : wf a -> N + k <= len a ->
  exists t V G post, move_down (Z.to_nat (nint a + k)) (buf a) (N + k) (nint a + k) = Some t /\
    wr t 0 0 = Some (V ++ G ++ post) /\ copied a a frac0 N V G post.
Proof.
  intros W Hr; destruct (wf_layout a W) as (I & F & R & Ea & LI & LF & _ & _ & HI & HF & Em).
  pose proof (nint_bounds a W); pose proof (nfrac_bounds a W); pose proof (wf_buf _ W) as Lb; rewrite Ea in Lb.
  destruct (zsplit (k - nfrac a) R) as (G & R' & -> & LG & _); [llia|]; destruct R' as [|x R']; [llia|].
  pose proof (move_down_shift (Z.to_nat (nint a + k)) (buf a)) as E; rewrite Z2Nat.id in E by lia.
  replace (nint a + k + 1) with (N + k) in E by lia; rewrite E, Ea.
  regroup (I ++ F ++ G ++ x :: R') ((I ++ F ++ G) ++ x :: R').
  destruct (shift_up_eq (Z.to_nat (nint a + k)) (I ++ F ++ G) x R') as [h ->]; [subst k; llia|].
  exists (h :: (I ++ F ++ G) ++ R'), (0 :: I ++ F), G, R'; split; [reflexivity|].
  split; [rewrite wr_0; cbn [app]; rewrite <- !app_assoc; reflexivity|].
  constructor; [lia|subst N; llia|subst k; llia| | |subst k; llia].
  - apply Forall_cons; [split; [lia|reflexivity]|apply Forall_app; split; assumption].
  - rewrite wval_cons, wval_app, LF, Em; ring.
Qed.

(** The number that is rounded, in the buffer of the result or in its own. *)
Lemma round_start a to same frac0 nines (k := Z.max (nfrac a) frac0) (N := round_up (intg a + Z.b2z nines)) : wf a -> target to ->
  (same = true -> to = a) -> nint a + 1 + k <= len to -> nint a + k <= len a ->
  exists i V G post, (if negb same || (N >? nint a) then
      let? t := if same then move_down (Z.to_nat (nint a + k)) (buf a) (N + k) (nint a + k)
        else let? (t, _, _) := copy_down (Z.to_nat (nint a + k)) (buf a) (buf to) (N + k) (nint a + k) in Some t in
      let? t := if N >? nint a then wr t 0 0 else Some t in
      Some (mkDecimal (Z.min N (len to) * DIG_PER_DEC1) (frac to) (len to) (sign a) t, N)
    else Some (to, nint a)) = Some (mkDecimal i (frac to) (len to) (sign a) (V ++ G ++ post), N) /\
    copied a to frac0 N V G post /\ intg a <= i /\ round_up i = N.
Proof.
  intros W T Hsame Hr Ha; pose proof (nint_bounds a W); pose proof (nfrac_bounds a W); pose proof (wf_intg _ W) as Wi.
  assert (intg a <= 9 * N /\ nint a <= N <= nint a + 1) as [Hi HN].
  { pose proof (round_up_bounds (intg a + Z.b2z nines) ltac:(destruct nines; cbn [Z.b2z]; lia)); subst N; destruct nines; cbn [Z.b2z] in *; lia. }
  assert (round_up (N * DIG_PER_DEC1) = N) as RN by (apply round_up_mul; lia).
  destruct same; cbn [negb orb].
  - rewrite (Hsame eq_refl) in *; rewrite Z.gtb_ltb; destruct (Z.ltb_spec (nint a) N) as [C|C].
    + assert (N = nint a + 1) as EN by lia; destruct (round_move a frac0 W) as (t & V & G & post & E1 & E2 & Cp); [fold k; lia|].
      fold k in E1; rewrite <- EN in E1, Cp; rewrite E1; cbn [obind]; rewrite E2; cbn [obind]; replace (Z.min N (len a)) with N by lia.
      exists (N * DIG_PER_DEC1), V, G, post; split; [reflexivity|split; [exact Cp|split; [unfold DIG_PER_DEC1; lia|exact RN]]].
    + assert (N = nint a) as EN by lia; destruct (wf_layout a W) as (I & F & R & Ea & LI & LF & _ & _ & HI & HF & Em).
      pose proof (wf_buf _ W) as Lb; rewrite Ea in Lb; destruct (zsplit (k - nfrac a) R) as (G & R' & -> & LG & _); [llia|].
      exists (intg a), (I ++ F), G, R'; rewrite EN, <- app_assoc, <- Ea; split; [destruct a; reflexivity|].
      split; [|split; [lia|reflexivity]]; constructor; [lia|llia|subst k; llia|apply Forall_app; split; assumption| |llia].
      rewrite wval_app, LF, Em; reflexivity.
  - destruct (round_copy a to frac0 nines W T Hr Ha) as (t & V & G & post & E1 & E2 & Cp); fold k N in E1, E2, Cp.
    rewrite E1; cbn [obind]; rewrite E2; cbn [obind]; replace (Z.min N (len to)) with N by lia.
    exists (N * DIG_PER_DEC1), V, G, post; split; [reflexivity|split; [exact Cp|split; [unfold DIG_PER_DEC1; lia|exact RN]]].
Qed.

(** ** The result *)

(** The magnitude of [a] rounded to [scale] digits, in units of its last word. *)
Definition rounded_mant (a : decimal_t) (scale : Z) (mode : decimal_round_mode) : Z :=
  round_to mode (sign a) (mant a) (10 ^ Z.max 0 (9 * nfrac a - scale)).

Record rounded (a to : decimal_t) (scale : Z) (mode : decimal_round_mode) (r : decimal_t) : Prop := {
  rounded_wf : wf r;
  rounded_frac : frac r = Z.max scale 0;
  rounded_len : len r = len to;
  rounded_Q : dec_Q r == signed (sign a) (rounded_mant a scale mode) # Z.to_pos (B ^ nfrac a)
}.

Lemma settled_rounded a to to' scale mode v r : wf a -> settled to' scale v r -> sign to' = sign a -> len to' = len to ->
  v * B ^ nfrac a = rounded_mant a scale mode * B ^ round_up (Z.max scale 0) -> rounded a to scale mode r.
Proof.
  intros W [S1 S2 S3 S4 S5] Es El Ev; constructor; [exact S1|exact S2|congruence|].
  pose proof (nfrac_bounds a W) as [_ Ha]; pose proof (round_up_bounds (Z.max scale 0) ltac:(lia)) as [_ Hs].
  unfold dec_Q, nfrac at 1, Qeq; cbn [Qnum Qden]; rewrite S2, !unit_pos, S3 by assumption.
  rewrite <- !signed_mul, Ev; destruct (Z.eq_dec v 0) as [->|N]; [|rewrite S4, Es by exact N; reflexivity].
  rewrite <- Ev; destruct (sign r), (sign a); reflexivity.
Qed.

Lemma round_to_le mode s m u k : 0 < u -> m < k * u -> round_to mode s m u <= k * u.
Proof.
  intros Hu Hm; unfold round_to; apply Z.mul_le_mono_nonneg_r; [lia|].
  pose proof (Z.div_lt_upper_bound m u k Hu ltac:(lia)); destruct (bump _ _ _ _ _); cbn [Z.b2z]; lia.
Qed.

Lemma rounded_mant_le a scale mode : wf a -> 0 <= scale + intg a -> scale <= 9 * nfrac a ->
  rounded_mant a scale mode <= 10 ^ (intg a + 9 * nfrac a).
Proof.
  intros W H0 H1; pose proof (wf_lead _ W) as Hm; pose proof (nfrac_bounds a W); pose proof (wf_intg _ W).
  assert (10 ^ (intg a + 9 * nfrac a) = 10 ^ (scale + intg a) * 10 ^ Z.max 0 (9 * nfrac a - scale)) as E.
  { rewrite <- Z.pow_add_r by flia; f_equal; flia. }
  unfold rounded_mant; rewrite E in *; apply round_to_le; [apply Z.pow_pos_nonneg; flia|exact Hm].
Qed.

Lemma round_to_divide mode s m u : (u | round_to mode s m u).
Proof. eexists; reflexivity. Qed.

Section kept.
Context (a to : decimal_t) (scale : Z) (mode : decimal_round_mode) (i N : Z) (V G post : list Z).
Let frac0 := scale_words scale.
Context (W : wf a) (T : target to) (C : copied a to frac0 N V G post) (Hlow : frac0 <= nfrac a) (Hkeep : 0 < N + frac0)
  (Hscale : scale < frac a) (Hroom : nint a + 1 + nfrac a <= len to) (Hint : 0 <= scale + intg a)
  (Hi : intg a <= i) (EN : round_up i = N).

Let to' f t := mkDecimal i f (len to) (sign a) t.

(** [w'] is the last kept word, rounded. *)
Lemma kept_finish H w w' D f t p : V = H ++ w :: D -> zlen D = nfrac a - frac0 -> 0 <= w' <= B ->
  (wval H * B + w') * B ^ zlen D = rounded_mant a scale mode -> p = N + frac0 - 1 -> zlen t = len to ->
  exists r, round_finish (to' f t) (H ++ w' :: D ++ G ++ post) p N frac0 (nfrac a) scale E_DEC_OK = Some (E_DEC_OK, r) /\
    rounded a to scale mode r.
Proof.
  intros EV LD Hw ER Hp Lt; destruct C as [C1 C2 C3 C4 C5 C6].
  pose proof (nint_bounds a W); pose proof (nfrac_bounds a W); destruct (scale_words_bounds scale) as [Sb Sp]; fold frac0 in Sb, Sp.
  pose proof (scale_words_max scale) as Sm; fold frac0 in Sm; pose proof (wf_intg _ W) as Wi; pose proof (wf_frac _ W) as Wf.
  assert (Forall word_ok H) as HH by (rewrite EV in C4; apply Forall_app in C4; apply C4).
  assert (zlen H + 1 = N + frac0) as LH by (rewrite EV in C2; llia).
  assert ((wval H * B + w') * B ^ Z.max (- frac0) 0 * B ^ nfrac a = rounded_mant a scale mode * B ^ Z.max frac0 0) as Ev.
  { rewrite <- ER, LD, <- !Z.mul_assoc, <- !Z.pow_add_r by flia; do 2 f_equal; flia. }
  assert (rounded_mant a scale mode = round_to mode (sign a) (mant a) (10 ^ (9 * frac0 - scale) * B ^ zlen D)) as ER2.
  { unfold rounded_mant; f_equal; rewrite LD, base_pow, <- Z.pow_add_r by flia; f_equal; flia. }
  pose proof (rounded_mant_le a scale mode W Hint ltac:(flia)) as Hle; pose proof (base_pow_pos (nfrac a) ltac:(flia)) as Pf.
  pose proof (base_pow_pos (Z.max frac0 0) ltac:(flia)) as P0.
  assert ((wval H * B + w') * B ^ Z.max (- frac0) 0 <= 10 ^ (intg a + 9 * Z.max frac0 0)) as Hv.
  { apply Z.mul_le_mono_pos_r with (B ^ nfrac a); [exact Pf|]; rewrite Ev, !base_pow, <- Z.pow_add_r by flia.
    replace (intg a + 9 * Z.max frac0 0 + 9 * nfrac a) with (intg a + 9 * nfrac a + 9 * Z.max frac0 0) by flia.
    rewrite Z.pow_add_r, <- base_pow by flia; apply Z.mul_le_mono_nonneg_r; [clear - P0; lia|exact Hle]. }
  destruct (round_finish_spec (to' f t) H N frac0 (nfrac a) scale) with (w := w') (X := D ++ G ++ post) (p := p)
    as (r & E & S); cbn [to' intg len]; try assumption; try reflexivity; try flia.
  - split; [apply T|exact Lt].
  - etransitivity; [exact Hv|apply Z.pow_le_mono_r; flia].
  - intros E; destruct (Z.eq_dec N (nint a)) as [-> | HN]; [flia|exfalso].
    rewrite E, base_pow in Hv by flia; apply Z.pow_le_mono_r_iff in Hv; flia.
  - destruct (Z_lt_le_dec 0 scale) as [Sc|Sc]; [|replace (9 * Z.max frac0 0 - Z.max scale 0) with 0 by flia; apply Z.divide_1_l].
    replace (Z.max (- frac0) 0) with 0 by flia; rewrite Z.mul_1_r.
    replace (9 * Z.max frac0 0 - Z.max scale 0) with (9 * frac0 - scale) by flia.
    apply (Z.mul_divide_cancel_r _ _ (B ^ zlen D)).
    + pose proof (base_pow_pos (zlen D) (zlen_nonneg D)) as HP; clear - HP; lia.
    + rewrite ER, ER2; apply round_to_divide.
  - exists r; split; [exact E|]; rewrite Sm in Ev.
    apply (settled_rounded a to _ scale mode _ r W S eq_refl eq_refl Ev).
Qed.

(** A unit of whole words. *)
Lemma kept_whole f (t := V ++ G ++ post) (p := N + frac0 - 1) : is_half_even mode = false -> scale = frac0 * DIG_PER_DEC1 ->
  exists r, (let? inc := round_inc mode (round_digit mode (sign a)) t p (nfrac a - frac0) true in
    if (inc : bool) then let? w := rd t p in let? t' := wr t p (i32 (w + 1)) in round_finish (to' f t) t' p N frac0 (nfrac a) scale E_DEC_OK
    else round_finish (to' f t) t p N frac0 (nfrac a) scale E_DEC_OK) = Some (E_DEC_OK, r) /\ rounded a to scale mode r.
Proof.
  intros Hm Es; pose proof (nfrac_bounds a W) as Hnf; pose proof (copied_V _ _ _ _ _ _ _ C) as LV; unfold DIG_PER_DEC1 in Es.
  destruct (zsplit (N + frac0) V) as (K & D & EV & LK & LD); [lia|]; snoc K as H w.
  rewrite zlen_app in LK; change (zlen [w]) with 1 in LK.
  pose proof (copied_ok _ _ _ _ _ _ _ C) as HV; rewrite EV in HV; apply Forall_app in HV as [HK HD].
  assert (word_ok w) as [Hw0 Hw1] by (apply Forall_app in HK as [_ HK]; apply Forall_cons_iff in HK; apply HK).
  pose proof (copied_len _ _ _ _ _ _ _ C) as Lt; assert (V = H ++ w :: D) as EV' by (rewrite EV, <- app_assoc; reflexivity).
  subst t p; rewrite EV in Lt |- *; rewrite <- !app_assoc in Lt; cbn [app] in Lt; rewrite <- (app_assoc (H ++ [w]) D).
  rewrite (round_inc_spec _ _ _ _ _ _ _ _ (wval (H ++ [w]))) by (assumption || llia); cbn [obind].
  assert (rounded_mant a scale mode = (wval (H ++ [w]) + Z.b2z (bump mode (sign a) (wval (H ++ [w])) (wval D) (B ^ (nfrac a - frac0)))) * B ^ zlen D) as ER.
  { unfold rounded_mant; rewrite <- (copied_val _ _ _ _ _ _ _ C), EV; replace (nfrac a - frac0) with (zlen D) by lia.
    rewrite <- kept_words by exact HD; f_equal; rewrite base_pow by apply zlen_nonneg; f_equal; lia. }
  unfold wval in ER at 1; rewrite bval_snoc in ER; fold wval in ER.
  destruct (bump _ _ _ _ _); cbn [Z.b2z] in ER; rewrite <- !app_assoc; cbn [app].
  - rewrite rd_at by flia; cbn [obind]; rewrite wr_at by flia; cbn [obind]; rewrite i32_small by (clear - Hw0 Hw1; unfold DIG_BASE in *; lia).
    apply (kept_finish H w (w + 1) D); [exact EV'|lia|clear - Hw0 Hw1; lia|rewrite ER; ring|reflexivity|exact Lt].
  - apply (kept_finish H w w D); [exact EV'|lia|clear - Hw0 Hw1; lia|rewrite ER; ring|reflexivity|exact Lt].
Qed.

(** A unit within a word. *)
Lemma kept_part f (t := V ++ G ++ post) (p := N + frac0 - 1) : digit_mode mode = true -> scale <> frac0 * DIG_PER_DEC1 ->
  exists r, (let? w := rd t p in
    let? w := round_word mode (round_digit mode (sign a)) w (frac0 * DIG_PER_DEC1 - scale - 1) in
    let? t' := wr t p w in
    round_finish (to' f t) t' p N frac0 (nfrac a) scale E_DEC_OK) = Some (E_DEC_OK, r) /\ rounded a to scale mode r.
Proof.
  intros Hm Es; pose proof (nfrac_bounds a W) as Hnf; pose proof (copied_V _ _ _ _ _ _ _ C) as LV; unfold DIG_PER_DEC1 in *.
  destruct (scale_words_bounds scale) as [Sb _]; fold frac0 in Sb.
  destruct (zsplit (N + frac0 - 1) V) as (H & V' & EV & LH & LD); [lia|]; destruct V' as [|w D]; [rewrite zlen_nil in LD; lia|].
  rewrite zlen_cons in LD.
  pose proof (copied_ok _ _ _ _ _ _ _ C) as HV; rewrite EV in HV; apply Forall_app in HV as [_ HV]; apply Forall_cons_iff in HV as [Hw HD].
  pose proof (copied_len _ _ _ _ _ _ _ C) as Lt; subst t p; rewrite EV in Lt |- *; rewrite <- !app_assoc in Lt |- *; cbn [app] in *.
  rewrite rd_at by lia; cbn [obind]; rewrite round_word_spec by (assumption || lia); cbn [obind]; rewrite wr_at by lia; cbn [obind].
  set (j := frac0 * 9 - scale) in *; assert (1 <= j <= 8) as Hj by (subst j; lia).
  apply (kept_finish H w _ D); [exact EV|lia| | |reflexivity|exact Lt].
  - apply round_word_bounds; assumption.
  - rewrite <- kept_digits, <- EV, (copied_val _ _ _ _ _ _ _ C) by assumption; unfold rounded_mant; f_equal.
    rewrite base_pow, <- Z.pow_add_r by (apply zlen_nonneg || lia); f_equal; subst j; lia.
Qed.

End kept.

(** No word is kept: the carry is the result. *)
Lemma round_finish_unit to t frac1 : target to -> intg to = 0 -> zlen (B :: t) = len to -> 0 < frac1 ->
  exists r, round_finish to (B :: t) 0 0 0 frac1 0 E_DEC_OK = Some (E_DEC_OK, r) /\ settled to 0 1 r.
Proof.
  intros T Ei Lt Hf; rewrite zlen_cons in Lt; pose proof (zlen_nonneg t).
  cbv beta zeta delta [round_finish]; assert ((0 <? frac1) = true) as -> by lia; cbn [Z.eqb andb].
  pose proof (fill_up_eq (Z.to_nat (len to - 1)) 0 t [B] [] 1 ltac:(lia) eq_refl) as E; rewrite !app_nil_r in E; cbn [app] in E; rewrite E.
  cbn [obind]; rewrite rd_0; cbn [obind].
  change (B >=? DIG_BASE) with true; cbn iota; rewrite wr_0; cbn [obind round_carry Z.sub Z.add Z.opp Z.to_nat Z.geb Z.compare].
  assert ((0 >=? len to) = false) as -> by lia; cbn [Z.max Z.compare Z.add Z.to_nat shift_up obind]; rewrite wr_0; cbn [obind].
  rewrite rd_0, Ei; cbn [obind Z.add]; eexists; split; [reflexivity|].
  set (post := repeat 0 _); assert (zlen post = len to - 1) as Lp by (unfold post; rewrite zlen_repeat; lia).
  constructor; try reflexivity.
  - apply (build_wf 1 0 (len to) (sign to) [1] post); [lia|lia|lia|rewrite zlen_app; change (zlen [1]) with 1; lia|reflexivity| |reflexivity|apply Z.divide_1_l].
    apply Forall_cons; [split; [discriminate|reflexivity]|apply Forall_nil].
Qed.

Lemma set_zero_rounded a to to' scale mode r : wf a -> set_zero to' = Some r -> target to' -> len to' = len to -> scale <= 0 ->
  rounded_mant a scale mode = 0 -> rounded a to scale mode r.
Proof.
  intros W E T El Hs E0; destruct (set_zero_wf to' T) as (r' & E' & W' & Q' & _ & _ & L'); rewrite E in E'; injection E' as <-.
  constructor; [exact W'| |congruence|].
  - unfold set_zero in E; destruct (wr _ _ _); [|discriminate]; injection E as <-; cbn [frac]; lia.
  - rewrite Q', E0; destruct (sign a); reflexivity.
Qed.

(** The number is below a tenth of the unit. *)
Lemma below_unit a scale mode : wf a -> scale + intg a < 0 -> digit_mode mode = true -> rounded_mant a scale mode = 0.
Proof.
  intros W Hs Hm; pose proof (mant_bounds a W) as [M0 _]; pose proof (wf_lead _ W) as M1; pose proof (nfrac_bounds a W); pose proof (wf_intg _ W).
  unfold rounded_mant; set (e := Z.max 0 (9 * nfrac a - scale)).
  assert (10 * mant a < 10 ^ e) as Hu.
  { apply Z.lt_le_trans with (10 * 10 ^ (intg a + 9 * nfrac a)); [lia|].
    rewrite <- (Z.pow_succ_r 10) by flia; apply Z.pow_le_mono_r; subst e; flia. }
  unfold round_to; rewrite Z.div_small, Z.mod_small by lia.
  destruct mode; try discriminate; cbn [bump]; [reflexivity|]; assert ((10 ^ e <=? 2 * mant a) = false) as -> by lia; reflexivity.
Qed.

Lemma enough_digits a scale mode : wf a -> frac a <= scale -> rounded_mant a scale mode = mant a.
Proof.
  intros W Hs; pose proof (nfrac_bounds a W); unfold rounded_mant; apply round_to_exact; [apply Z.pow_pos_nonneg; lia|].
  apply Z.divide_trans with (10 ^ (9 * nfrac a - frac a)); [|apply (wf_tail _ W)].
  exists (10 ^ (9 * nfrac a - frac a - Z.max 0 (9 * nfrac a - scale))); rewrite <- Z.pow_add_r by lia; f_equal; lia.
Qed.

(** ** The whole function *)

(** What the code rounds as it should: a mode that looks at one digit, or a unit
    of whole words; the carry has room; the unit is not the word before the
    first one. *)
Record round_args (a to : decimal_t) (scale : Z) (mode : decimal_round_mode) : Prop := {
  ra_room : nint a + 1 + Z.max (nfrac a) (scale_words scale) <= len to;
  ra_read : nint a + Z.max (nfrac a) (scale_words scale) <= len a;
  ra_unit : scale = 0 \/ scale + 9 * nint a <> 0;
  ra_mode : digit_mode mode = true \/ is_half_even mode = false /\ (9 | scale) /\ 0 <= scale + intg a
}.

(** All digits are kept. *)
Lemma round_exact a to scale mode i N V G post (frac0 := scale_words scale) : wf a -> target to -> copied a to frac0 N V G post ->
  intg a <= i -> round_up i = N -> frac a <= scale -> zlen G = frac0 - nfrac a ->
  rounded a to scale mode (mkDecimal i scale (len to) (sign a) (V ++ repeat 0 (Z.to_nat (frac0 - nfrac a)) ++ post)) /\
  fill_up (Z.to_nat (frac0 - nfrac a)) 0 (V ++ G ++ post) (N + nfrac a)
  = Some (V ++ repeat 0 (Z.to_nat (frac0 - nfrac a)) ++ post, N + frac0).
Proof.
  intros W T [C1 C2 C3 C4 C5 C6] Hi EN Hs HG; pose proof (wf_intg _ W) as Wi.
  pose proof (nint_bounds a W); pose proof (nfrac_bounds a W); destruct (scale_words_bounds scale) as [Sb _]; fold frac0 in Sb.
  pose proof (scale_words_max scale) as Sm; fold frac0 in Sm; pose proof (wf_frac _ W).
  split; [|rewrite fill_up_eq by lia; do 2 f_equal; lia].
  assert (wval (V ++ repeat 0 (Z.to_nat (frac0 - nfrac a))) = mant a * B ^ (frac0 - nfrac a)) as EV.
  { rewrite wval_app, wval_zeros, zlen_repeat, C5, Z2Nat.id by lia; ring. }
  set (to' := mkDecimal i (frac to) (len to) (sign a) (buf to)).
  pose proof (settle_words to' (sign a) (V ++ repeat 0 (Z.to_nat (frac0 - nfrac a))) post scale i) as S.
  rewrite EV, <- app_assoc in S; replace (Z.max scale 0) with scale in S by lia; cbn [len sign to'] in S.
  apply (settled_rounded a to to' scale mode (mant a * B ^ (frac0 - nfrac a))); auto.
  - apply S; clear S; replace (Z.max scale 0) with scale in Sm by lia; auto; try flia.
    + apply Forall_app; split; [exact C4|apply word_ok_zeros].
    + replace (round_up scale) with frac0 by flia; pose proof (wf_lead _ W) as Hm; pose proof (base_pow_pos (frac0 - nfrac a) ltac:(flia)) as P0.
      apply Z.lt_le_trans with (10 ^ (intg a + 9 * nfrac a) * B ^ (frac0 - nfrac a)); [apply Z.mul_lt_mono_pos_r; assumption|].
      rewrite base_pow, <- Z.pow_add_r by flia; apply Z.pow_le_mono_r; flia.
    + replace (round_up scale) with frac0 by flia; rewrite <- cut_exact by (exact W || flia); apply cut_divide; (exact W || flia).
  - rewrite (enough_digits a scale mode W Hs), <- Sm, <- Z.mul_assoc, <- Z.pow_add_r by lia; do 2 f_equal; lia.
Qed.

(** No word is kept, with a unit of one. *)
Lemma kept_none a to mode V post f (t := V ++ post) (to' := mkDecimal 0 f (len to) (sign a) t) : wf a -> target to -> is_half_even mode = false ->
  Forall word_ok V -> zlen V = nfrac a -> wval V = mant a -> zlen t = len to -> 0 < frac a ->
  exists r, (let? inc := round_inc mode (round_digit mode (sign a)) t (-1) (nfrac a) false in
    if (inc : bool) then let? t' := wr t 0 DIG_BASE in round_finish to' t' 0 0 0 (nfrac a) 0 E_DEC_OK
    else let? r := set_zero to' in Some (E_DEC_OK, r)) = Some (E_DEC_OK, r) /\ rounded a to 0 mode r.
Proof.
  intros W T Hm HV LV EV Lt Hf; pose proof (nfrac_bounds a W); destruct T as [T0 T1].
  assert (target to') as T' by (split; assumption).
  pose proof (round_inc_spec mode (sign a) [] V post (-1) (nfrac a) false 0 Hm HV LV ltac:(lia) eq_refl) as E.
  cbn [app] in E; fold t in E; rewrite E; cbn [obind]; clear E.
  assert (rounded_mant a 0 mode = Z.b2z (bump mode (sign a) 0 (wval V) (B ^ nfrac a)) * B ^ nfrac a) as ER.
  { unfold rounded_mant; rewrite Z.sub_0_r, Z.max_r, <- base_pow, <- EV by lia.
    rewrite <- LV; apply (kept_words mode (sign a) [] V HV). }
  destruct (bump _ _ _ _ _); cbn [Z.b2z] in ER.
  - subst t; destruct V as [|x V]; [rewrite zlen_nil in LV; lia|]; cbn [app]; rewrite wr_0; cbn [obind].
    destruct (round_finish_unit to' (V ++ post) (nfrac a) T' eq_refl) as (r & E & S); [change (len to') with (len to); revert Lt; flia|lia|].
    exists r; split; [exact E|]; apply (settled_rounded a to to' 0 mode 1 r W S eq_refl eq_refl); rewrite ER; change (B ^ round_up (Z.max 0 0)) with 1; ring.
  - destruct (set_zero_wf to' T') as (r & E & _); rewrite E; exists r; split; [reflexivity|].
    apply (set_zero_rounded a to to' 0 mode r W E T' eq_refl); [lia|exact ER].
Qed.

Lemma decimal_round_spec a to same scale mode : wf a -> target to -> (same = true -> to = a) -> round_args a to scale mode ->
  exists r, decimal_round a to same scale mode = Some (E_DEC_OK, r) /\ rounded a to scale mode r.
Proof.
  intros W T Hsame [R1 R2 R3 R4]; pose proof (nint_bounds a W) as Hni; pose proof (nfrac_bounds a W) as Hnf.
  destruct (scale_words_bounds scale) as [Sb Sp]; pose proof (wf_intg _ W) as Hi; pose proof (wf_frac _ W) as Hf.
  cbv beta zeta delta [decimal_round]; fold (scale_words scale); fold (nint a) (nfrac a); set (frac0 := scale_words scale) in *.
  assert (exists nines, (if nint a + frac0 >? 0 then let? w := rd (buf a) 0 in Some (w =? DIG_MAX) else Some false) = Some nines /\
      (nines = true -> 0 < nint a + frac0)) as (nines & -> & Hnines).
  { rewrite Z.gtb_ltb; destruct (Z.ltb_spec 0 (nint a + frac0)); [|exists false; split; [reflexivity|discriminate]].
    destruct (rd_Some (buf a) 0) as [w ->]; [pose proof (wf_len _ W); pose proof (wf_buf _ W); lia|].
    eexists; split; [reflexivity|intros; assumption]. }
  cbn [obind]; assert ((frac0 + nint a >? len to) = false) as -> by lia.
  destruct (Z.ltb_spec (scale + intg a) 0) as [Cz|Cz].
  { destruct (set_zero_wf to T) as (r & E & _); rewrite E; exists r; split; [reflexivity|].
    apply (set_zero_rounded a to to scale mode r W E T eq_refl); [lia|apply below_unit; try assumption].
    destruct R4 as [R4|R4]; [exact R4|lia]. }
  destruct (round_start a to same frac0 nines W T Hsame R1 R2) as (i & V & G & post & Es & C & Hii & EN).
  rewrite Es; cbn [obind intg frac sign buf]; clear Es.
  assert (0 < nint a + frac0 \/ round_up (intg a + Z.b2z nines) = 0 /\ scale = 0 /\ frac0 = 0) as Hkeep.
  { destruct (Z_lt_le_dec 0 (nint a + frac0)) as [K|K]; [left; exact K|right]; destruct nines; [specialize (Hnines eq_refl); lia|].
    cbn [Z.b2z]; rewrite Z.add_0_r; fold (nint a); lia. }
  set (N := round_up (intg a + Z.b2z nines)) in *; clearbody N; pose proof (copied_room _ _ _ _ _ _ _ C) as CN.
  rewrite Z.gtb_ltb, Z.geb_leb; destruct (Z.ltb_spec (nfrac a) frac0) as [C1|C1].
  { destruct (round_exact a to scale mode i N V G post W T C) as [E1 E2]; [lia|exact EN|lia|pose proof (copied_G _ _ _ _ _ _ _ C); fold frac0; lia|].
    fold frac0 in E1, E2; rewrite E2; eexists; split; [reflexivity|exact E1]. }
  destruct (Z.leb_spec (frac a) scale) as [C2|C2].
  { destruct (round_exact a to scale mode i N V G post W T C) as [E1 _]; [lia|exact EN|lia|pose proof (copied_G _ _ _ _ _ _ _ C); fold frac0; lia|].
    fold frac0 in E1; pose proof (copied_G _ _ _ _ _ _ _ C) as CG; assert (frac0 - nfrac a = 0) as E0 by lia.
    rewrite (zlen_zero G) by lia; rewrite E0 in E1; eexists; split; [reflexivity|exact E1]. }
  assert (is_half_even mode = false) as Hm by (destruct R4 as [R4|[R4 _]]; [destruct mode; (discriminate || reflexivity)|exact R4]).
  destruct Hkeep as [Hkeep|(-> & -> & E0)].
  - assert ((frac0 + N >? 0) = true) as -> by lia; assert ((frac0 + N >=? 0) = true) as -> by lia.
    assert ((frac0 + N =? 0) = false) as -> by lia.
    destruct (Z.eqb_spec scale (frac0 * DIG_PER_DEC1)) as [C3|C3].
    + apply kept_whole; try assumption; lia.
    + apply kept_part; try assumption; try lia; destruct R4 as [R4|(_ & [z Hz] & _)]; [exact R4|unfold DIG_PER_DEC1 in C3; lia].
  - rewrite E0; cbn [Z.eqb Z.mul Z.add Z.geb Z.gtb Z.compare Z.sub Z.opp].
    destruct C as [_ LV LG HV EV LT]; rewrite (zlen_zero G) in * by lia; cbn [app] in *.
    destruct (kept_none a to mode V post (frac to) W T Hm HV) as (r & E & R); try assumption; try lia.
    assert (i = 0) as -> by (pose proof (round_up_bounds i ltac:(lia)); lia).
    exists r; split; [rewrite Z.sub_0_r; exact E|exact R].
Qed.

(** ** Claims *)

(** C11. Rounding, into another decimal or in place, gives a well-formed decimal with
    [scale] digits of the fraction (none for a negative scale) and with the
    multiple of the unit [10^-scale] that the mode asks for: the next one towards
    zero for [TRUNCATE], the nearest one for [HALF_UP], the next one up or down for
    [CEILING] and [FLOOR].  The conditions, [round_args]: the result has room for
    the words of the operand or of the scale, whichever are more, and for one
    word of carry; the operand's buffer has the words of the scale, which are
    copied; the unit is not the word before the first one; [CEILING] and [FLOOR]
    are asked for units of whole words only ([scale] a multiple of nine) that have
    at most one digit more than its integer part, and [HALF_EVEN] not at all. *)
Theorem decimal_round_correct a to same scale mode : wf a -> target to -> (same = true -> to = a) -> round_args a to scale mode ->
  exists r, decimal_round a to same scale mode = Some (E_DEC_OK, r) /\ wf r /\ frac r = Z.max scale 0 /\
    dec_Q r == signed (sign a) (round_to mode (sign a) (mant a) (10 ^ Z.max 0 (9 * nfrac a - scale))) # Z.to_pos (DIG_BASE ^ nfrac a).
Proof.
  intros W T Hs R; destruct (decimal_round_spec a to same scale mode W T Hs R) as (r & E & [R1 R2 _ R4]).
  exists r; split; [exact E|split; [exact R1|split; [exact R2|exact R4]]].
Qed.

(** 999999999999999999.995, rounded to two digits of the fraction. *)
Definition ex_nines : decimal_t := mkDecimal 18 3 9 true [999999999; 999999999; 995000000; 0; 0; 0; 0; 0; 0].
Definition ex_target : decimal_t := mkDecimal 0 0 9 false (repeat 7 9).

(** 99.96, rounded in place to one digit of the fraction. *)
Definition ex_place : decimal_t := mkDecimal 2 2 9 false [99; 960000000; 0; 0; 0; 0; 0; 0; 0].

Lemma decimal_round_correct_witness :
  (exists r, decimal_round ex_nines ex_target false 2 HALF_UP = Some (E_DEC_OK, r) /\ dec_Q r == -1000000000000000000 # 1) /\
  (exists r, decimal_round ex_place ex_place true 1 HALF_UP = Some (E_DEC_OK, r) /\ dec_Q r == 100 # 1).
Proof.
  split.
  - destruct (decimal_round_correct ex_nines ex_target false 2 HALF_UP) as (r & E & _ & _ & Q).
    + apply wf_b_correct; reflexivity.
    + split; reflexivity.
    + discriminate.
    + constructor; [discriminate|discriminate|right; discriminate|left; reflexivity].
    + exists r; split; [exact E|rewrite Q; reflexivity].
  - destruct (decimal_round_correct ex_place ex_place true 1 HALF_UP) as (r & E & _ & _ & Q).
    + apply wf_b_correct; reflexivity.
    + split; reflexivity.
    + reflexivity.
    + constructor; [discriminate|discriminate|right; discriminate|left; reflexivity].
    + exists r; split; [exact E|rewrite Q; reflexivity].
Defined.

Lemma Qfloor_signed m U : 0 < U -> 0 <= m -> forall s,
  signed s (round_to FLOOR s m U) = Qfloor (signed s m # Z.to_pos U) * U.
Proof.
  intros HU Hm s; unfold round_to, Qfloor; cbn [bump]; rewrite Z2Pos.id by exact HU.
  destruct s; cbn [signed andb Z.b2z]; [|ring].
  destruct (Z.eqb_spec (m mod U) 0) as [E|E]; cbn [negb Z.b2z]; [rewrite Z.div_opp_l_z by lia|rewrite Z.div_opp_l_nz by lia]; ring.
Qed.

Lemma ceiling_is_floor m U s : signed s (round_to CEILING s m U) = - signed (negb s) (round_to FLOOR (negb s) m U).
Proof. unfold round_to; cbn [bump]; destruct s; cbn [signed negb]; ring. Qed.

Lemma signed_negb s m : signed (negb s) m = - signed s m.
Proof. destruct s; cbn [signed negb]; ring. Qed.

Lemma Qwhole z U : 0 < U -> z * U # Z.to_pos U == inject_Z z.
Proof. intros HU; unfold Qeq; cbn [Qnum Qden inject_Z]; rewrite Z2Pos.id by exact HU; ring. Qed.

Lemma round_args_zero a to mode : wf a -> nint a + 1 + nfrac a <= len to -> is_half_even mode = false -> round_args a to 0 mode.
Proof.
  intros W R M; pose proof (nfrac_bounds a W); pose proof (wf_fits _ W); pose proof (wf_intg _ W).
  constructor; change (scale_words 0) with 0; rewrite ?Z.max_l by lia; [lia|lia|left; reflexivity|].
  right; split; [exact M|split; [apply Z.divide_0_r|lia]].
Qed.

(** [FLOOR] and [CEILING] to no digits of the fraction give the greatest
    integer below a decimal and the least one above it, into another decimal or in
    place, if the result has room for the words of the operand and for one word
    of carry. *)
Theorem decimal_floor_ceiling_correct a to same : wf a -> target to -> (same = true -> to = a) -> nint a + 1 + nfrac a <= len to ->
  exists r1 r2, class_decimal_floor a to same = Some (E_DEC_OK, r1) /\ class_decimal_ceiling a to same = Some (E_DEC_OK, r2) /\
    wf r1 /\ wf r2 /\ dec_Q r1 == inject_Z (Qfloor (dec_Q a)) /\ dec_Q r2 == inject_Z (Qceiling (dec_Q a)).
Proof.
  intros W T Hs R; pose proof (nfrac_bounds a W) as [_ Hf]; pose proof (mant_bounds a W) as [Hm _].
  destruct (decimal_round_spec a to same 0 FLOOR W T Hs (round_args_zero a to FLOOR W R eq_refl)) as (r1 & E1 & [W1 _ _ Q1]).
  destruct (decimal_round_spec a to same 0 CEILING W T Hs (round_args_zero a to CEILING W R eq_refl)) as (r2 & E2 & [W2 _ _ Q2]).
  exists r1, r2; split; [exact E1|split; [exact E2|split; [exact W1|split; [exact W2|]]]].
  pose proof (base_pow_pos (nfrac a) Hf) as HU; unfold rounded_mant in *.
  rewrite Z.sub_0_r, Z.max_r, <- base_pow in Q1, Q2 by lia; rewrite Q1, Q2, ceiling_is_floor, !Qfloor_signed by assumption.
  split; [apply Qwhole, HU|]; rewrite signed_negb, <- Z.mul_opp_l; apply Qwhole, HU.
Qed.

Lemma decimal_floor_ceiling_correct_witness : exists r1 r2, class_decimal_floor ex_nines ex_target false = Some (E_DEC_OK, r1) /\
  class_decimal_ceiling ex_nines ex_target false = Some (E_DEC_OK, r2) /\
  dec_Q r1 == inject_Z (-1000000000000000000) /\ dec_Q r2 == inject_Z (-999999999999999999).
Proof.
  destruct (decimal_floor_ceiling_correct ex_nines ex_target false) as (r1 & r2 & E1 & E2 & _ & _ & Q1 & Q2).
  - apply wf_b_correct; reflexivity.
  - split; reflexivity.
  - discriminate.
  - discriminate.
  - exists r1, r2; split; [exact E1|split; [exact E2|split; [rewrite Q1; reflexivity|rewrite Q2; reflexivity]]].
Defined.

(** 999999999 rounded to a multiple of 1000000000 is zero: the word that
    holds the carry is cleared with the words after the kept ones. *)
Theorem decimal_round_loses_number : exists a r, wf a /\ dec_Q a == 999999999 # 1 /\
  decimal_round a ex_target false (-9) HALF_UP = Some (E_DEC_OK, r) /\ dec_Q r == 0 /\
  round_to HALF_UP false (mant a) (10 ^ 9) = 1000000000.
Proof.
  exists (mkDecimal 9 0 9 false [999999999; 0; 0; 0; 0; 0; 0; 0; 0]); eexists.
  split; [apply wf_b_correct; reflexivity|split; [reflexivity|split; [vm_compute; reflexivity|split; reflexivity]]].
Qed.

(** A number of nine words that begins with 999999999 is written past the end of
    a buffer of nine words. *)
Lemma decimal_round_overruns : exists a, wf a /\ decimal_round a ex_target false 0 HALF_UP = None.
Proof.
  exists (mkDecimal 81 0 9 false (repeat DIG_MAX 9)); split; [apply wf_b_correct; reflexivity|vm_compute; reflexivity].
Qed.
