(* ===== verification/DecShift.v ===== *)
(** Shifting the digits of a decimal: [decimal_shift] of
    [src/drizzled/type/decimal.cc], which a number with an exponent goes through
    when it is read.

    Positions of digits are counted from the first digit of the first word.  An
    assertion that fails gives [None], as an access outside of the buffer does. *)

From Stdlib Require Import ZArith Lia ZifyBool List Bool.
From S2P Require Import Prelude Words Decimal DecArith DecRound.
Import ListNotations.
Local Open Scope Z_scope.
Local Open Scope fail_scope.

(** ** The bounds of the digits *)

(** src/drizzled/type/decimal.cc:693-694 digits_bounds *)
Fixpoint first_nonzero (n : nat) (b : list Z) (p : Z) : option Z :=
  match n with
  | O => Some p
  | S n' => let? w := rd b p in if w =? 0 then first_nonzero n' b (p + 1) else Some p
  end.

(** src/drizzled/type/decimal.cc:714-715 digits_bounds

    [for (; *buf_beg < powers10[i--]; start++) ;] at most ten times. *)
Fixpoint skip_low (fuel : nat) (w i start : Z) : option Z :=
  match fuel with
  | O => None
  | S fuel' => let? pw := rd powers10 i in if w <? pw then skip_low fuel' w (i - 1) (start + 1) else Some start
  end.

(** src/drizzled/type/decimal.cc:719-720 digits_bounds *)
Fixpoint drop_high (n : nat) (b : list Z) (p : Z) : option Z :=
  match n with
  | O => Some p
  | S n' => let? w := rd b p in if w =? 0 then drop_high n' b (p - 1) else Some p
  end.

(** src/drizzled/type/decimal.cc:733-733 digits_bounds *)
Fixpoint drop_low (fuel : nat) (w i stop : Z) : option Z :=
  match fuel with
  | O => None
  | S fuel' => let? pw := rd powers10 i in if Z.rem w pw =? 0 then drop_low fuel' w (i + 1) (stop - 1) else Some stop
  end.

(** src/drizzled/type/decimal.cc:685-735 digits_bounds

    The position of the first digit that is not zero and the one after the last. *)
Definition digits_bounds (from : decimal_t) : option (Z * Z) :=
  let last := round_up (intg from) + round_up (frac from) in
  let b := buf from in
  let? beg := first_nonzero (Z.to_nat last) b 0 in
  if beg >=? last then Some (0, 0)
  else
    let? w := rd b beg in
    let '(i, start) :=
      if (beg =? 0) && negb (intg from =? 0) then
        let i := Z.rem (intg from - 1) DIG_PER_DEC1 + 1 in (i - 1, DIG_PER_DEC1 - i)
      else (DIG_PER_DEC1 - 1, beg * DIG_PER_DEC1) in
    let? start := skip_low 11 w i start in
    let? stop := drop_high (Z.to_nat (last - 1 - beg)) b (last - 1) in
    let? w := rd b stop in
    let '(i, e) :=
      if (stop =? last - 1) && negb (frac from =? 0) then
        let i := Z.rem (frac from - 1) DIG_PER_DEC1 + 1 in (DIG_PER_DEC1 - i + 1, stop * DIG_PER_DEC1 + i)
      else (1, (stop + 1) * DIG_PER_DEC1) in
    let? e := drop_low 11 w i e in
    Some (start, e).

(** ** Shifts within the words *)

(** src/drizzled/type/decimal.cc:762-765 do_mini_left_shift *)
Fixpoint mini_left (n : nat) (high low : Z) (b : list Z) (p : Z) : option (list Z) :=
  match n with
  | O => let? x := rd b p in wr b p (i32 (Z.rem x low * high))
  | S n' =>
      let? x := rd b p in
      let? y := rd b (p + 1) in
      let? b := wr b p (i32 (i32 (Z.rem x low * high) + y ÷ low)) in
      mini_left n' high low b (p + 1)
  end.

(** src/drizzled/type/decimal.cc:753-766 do_mini_left_shift *)
Definition do_mini_left_shift (dec : decimal_t) (shift beg last : Z) : option decimal_t :=
  let from := round_up (beg + 1) - 1 in
  let e := round_up last - 1 in
  if (from >=? 0) && (e <? len dec) then
    let? low := rd powers10 (DIG_PER_DEC1 - shift) in
    let? high := rd powers10 shift in
    let? b := if Z.rem beg DIG_PER_DEC1 <? shift then let? x := rd (buf dec) from in wr (buf dec) (from - 1) (x ÷ low) else Some (buf dec) in
    let? b := mini_left (Z.to_nat (e - from)) high low b from in
    Some (set_buf dec b)
  else None.

(** src/drizzled/type/decimal.cc:790-793 do_mini_right_shift *)
Fixpoint mini_right (n : nat) (low high : Z) (b : list Z) (p : Z) : option (list Z) :=
  match n with
  | O => let? x := rd b p in wr b p (x ÷ low)
  | S n' =>
      let? x := rd b p in
      let? y := rd b (p - 1) in
      let? b := wr b p (i32 (x ÷ low + i32 (Z.rem y low * high))) in
      mini_right n' low high b (p - 1)
  end.

(** src/drizzled/type/decimal.cc:781-794 do_mini_right_shift *)
Definition do_mini_right_shift (dec : decimal_t) (shift beg last : Z) : option decimal_t :=
  let from := round_up last - 1 in
  let e := round_up (beg + 1) - 1 in
  if (from <? len dec) && (e >=? 0) then
    let? low := rd powers10 shift in
    let? high := rd powers10 (DIG_PER_DEC1 - shift) in
    let? b :=
      if DIG_PER_DEC1 - (Z.rem (last - 1) DIG_PER_DEC1 + 1) <? shift then
        let? x := rd (buf dec) from in wr (buf dec) (from + 1) (i32 (Z.rem x low * high))
      else Some (buf dec) in
    let? b := mini_right (Z.to_nat (from - e)) low high b from in
    Some (set_buf dec b)
  else None.

(** ** Shifts of whole words *)

(** src/drizzled/type/decimal.cc:937-938 decimal_shift *)
Fixpoint move_words_left (n : nat) (d : Z) (b : list Z) (p : Z) : option (list Z) :=
  match n with
  | O => Some b
  | S n' => let? x := rd b (p + d) in let? b := wr b p x in move_words_left n' d b (p + 1)
  end.

(** src/drizzled/type/decimal.cc:951-952 decimal_shift *)
Fixpoint move_words_right (n : nat) (d : Z) (b : list Z) (p : Z) : option (list Z) :=
  match n with
  | O => Some b
  | S n' => let? x := rd b (p - d) in let? b := wr b p x in move_words_right n' d b (p - 1)
  end.

(** src/drizzled/type/decimal.cc:923-961 decimal_shift

    The buffer, the bounds and the point after the words have been moved. *)
Definition shift_words (dec : decimal_t) (beg e new_point digits_int : Z) : option (list Z * Z * Z * Z) :=
  let new_front := new_point - digits_int in
  if (new_front >=? DIG_PER_DEC1) || (new_front <? 0) then
    let first := round_up (beg + 1) - 1 in
    let last := round_up e - 1 in
    if new_front >? 0 then
      let d := new_front ÷ DIG_PER_DEC1 in
      if (first - d >=? 0) && (last <? len dec) then
        let? b := move_words_left (Z.to_nat (last - first + 1)) d (buf dec) (first - d) in
        let to := Z.max (first - d) (last - d + 1) in
        let? (b, _) := fill_up (Z.to_nat (last - to + 1)) 0 b to in
        Some (b, beg - d * DIG_PER_DEC1, e - d * DIG_PER_DEC1, new_point - d * DIG_PER_DEC1)
      else None
    else
      let d := (1 - new_front) ÷ DIG_PER_DEC1 in
      if (last + d <? len dec) && (first >=? 0) then
        let? b := move_words_right (Z.to_nat (last - first + 1)) d (buf dec) (last + d) in
        let to := Z.min (last + d) (first + d - 1) in
        let? (b, _) := zero_down (Z.to_nat (to - first + 1)) b (to + 1) in
        Some (b, beg + d * DIG_PER_DEC1, e + d * DIG_PER_DEC1, new_point + d * DIG_PER_DEC1)
      else None
  else Some (buf dec, beg, e, new_point).

(** src/drizzled/type/decimal.cc:968-991 decimal_shift

    The words between the digits and the point. *)
Definition fill_gaps (b : list Z) (beg e new_point : Z) : option (list Z) :=
  let beg := round_up (beg + 1) - 1 in
  let e := round_up e - 1 in
  if new_point <? 0 then None
  else
    let new_point := if new_point =? 0 then 0 else round_up new_point - 1 in
    if new_point >? e then let? (b, _) := zero_down (Z.to_nat (new_point - e)) b (new_point + 1) in Some b
    else let? (b, _) := fill_up (Z.to_nat (beg - new_point)) 0 b new_point in Some b.

(** src/drizzled/type/decimal.cc:873-920 decimal_shift

    The number with its digits aligned to the words, and how far they have moved
    to the right. *)
Definition align_digits (dec : decimal_t) (shift beg e : Z) : option (decimal_t * Z) :=
  if Z.rem shift DIG_PER_DEC1 =? 0 then Some (dec, 0)
  else
    let space := len dec * DIG_PER_DEC1 - e in
    let r := if shift >? 0 then DIG_PER_DEC1 - Z.rem shift DIG_PER_DEC1 else Z.rem (- shift) DIG_PER_DEC1 in
    let l := DIG_PER_DEC1 - r in
    let do_left := if shift >? 0 then l <=? beg else negb (space >=? r) in
    if (if shift >? 0 then do_left || (space >=? r) else negb do_left || (l <=? beg)) then
      if do_left then let? d := do_mini_left_shift dec l beg e in Some (d, - l)
      else let? d := do_mini_right_shift dec r beg e in Some (d, r)
    else None.

(** src/drizzled/type/decimal.cc:841-870 decimal_shift

    The number cut to the words of the buffer: the result if it is known, or the
    number, the end of its digits, the digits of its fraction and the error. *)
Definition shift_room (dec : decimal_t) (point beg e digits_int digits_frac : Z) : option ((Z * decimal_t) + (decimal_t * Z * Z * Z)) :=
  let new_frac_len := round_up digits_frac in
  let new_len := round_up digits_int + new_frac_len in
  if new_len >? len dec then
    let lack := new_len - len dec in
    if new_frac_len <? lack then Some (inl (E_DEC_OVERFLOW, dec))
    else
      let new_frac_len := new_frac_len - lack in
      let diff := digits_frac - new_frac_len * DIG_PER_DEC1 in
      let? (_, dec) := decimal_round dec dec true (e - point - diff) HALF_UP in
      if e - diff <=? beg then let? r := set_zero dec in Some (inl (E_DEC_TRUNCATED, r))
      else Some (inr (dec, e - diff, new_frac_len * DIG_PER_DEC1, E_DEC_TRUNCATED))
  else Some (inr (dec, e, digits_frac, E_DEC_OK)).

(** src/drizzled/type/decimal.cc:814-996 decimal_shift *)
Definition decimal_shift (dec : decimal_t) (shift : Z) : option (Z * decimal_t) :=
  let point := round_up (intg dec) * DIG_PER_DEC1 in
  let new_point := point + shift in
  if shift =? 0 then Some (E_DEC_OK, dec)
  else
    let? (beg, e) := digits_bounds dec in
    if beg =? e then let? r := set_zero dec in Some (E_DEC_OK, r)
    else
      let digits_int := Z.max (new_point - beg) 0 in
      let digits_frac := Z.max (e - new_point) 0 in
      let? room := shift_room dec point beg e digits_int digits_frac in
      match room with
      | inl r => Some r
      | inr (dec, e, digits_frac, err) =>
          let done (b : list Z) := Some (err, mkDecimal digits_int digits_frac (len dec) (sign dec) b) in
          let? (dec, mini) := align_digits dec shift beg e in
          let new_point := new_point + mini in
          if negb (Z.rem shift DIG_PER_DEC1 =? 0) && (shift + mini =? 0) && (new_point - digits_int <? DIG_PER_DEC1) then done (buf dec)
          else
            let? (b, beg, e, new_point) := shift_words dec (beg + mini) (e + mini) new_point digits_int in
            let? b := fill_gaps b beg e new_point in
            done b
      end.
