(* ===== verification/DecText.v ===== *)
(** Decimals as text: [decimal2string] and [internal_str2dec] of
    [src/drizzled/type/decimal.cc].

    A text is the list of its bytes, a buffer for text a list of bytes that are
    written in place.  The exponent of a number that is read shifts the digits in
    their buffer ([DecShift]). *)

From Stdlib Require Import ZArith Lia ZifyBool List Bool QArith Qabs.
From S2P Require Import Prelude Words Ctype NumConv Decimal DecArith DecSub DecRound DecShift.
Import ListNotations.
Local Open Scope Z_scope.
Local Open Scope fail_scope.

(** ** Model: writing *)

(** The byte for a digit. *)
Definition digit_char (y : Z) : Z := u8 (48 + u8 y).

(** src/drizzled/type/decimal.cc:639-645 decimal2string

    [n] digits of a word, the first one first. *)
Fixpoint put_high_digits (n : nat) (x : Z) (t : list Z) (s1 : Z) : option (list Z * Z) :=
  match n with
  | O => Some (t, s1)
  | S n' =>
      let y := x ÷ DIG_MASK in
      let? t := wr t s1 (digit_char y) in
      put_high_digits n' (i32 (i32 (x - i32 (y * DIG_MASK)) * 10)) t (s1 + 1)
  end.

(** src/drizzled/type/decimal.cc:636-646 decimal2string *)
Fixpoint put_fraction (fuel : nat) (frac : Z) (b : list Z) (p : Z) (t : list Z) (s1 : Z) : option (list Z * Z) :=
  match fuel with
  | O => None
  | S fuel' =>
      if frac >? 0 then
        let? x := rd b p in
        let? (t, s1) := put_high_digits (Z.to_nat (Z.min frac DIG_PER_DEC1)) x t s1 in
        put_fraction fuel' (frac - DIG_PER_DEC1) b (p + 1) t s1
      else Some (t, s1)
  end.

(** src/drizzled/type/decimal.cc:662-667 decimal2string

    [n] digits of a word, the last one first. *)
Fixpoint put_low_digits (n : nat) (x : Z) (t : list Z) (s : Z) : option (list Z * Z) :=
  match n with
  | O => Some (t, s)
  | S n' =>
      let y := x ÷ 10 in
      let? t := wr t (s - 1) (digit_char (x - y * 10)) in
      put_low_digits n' y t (s - 1)
  end.

(** src/drizzled/type/decimal.cc:659-668 decimal2string *)
Fixpoint put_integer (fuel : nat) (intg : Z) (b : list Z) (p : Z) (t : list Z) (s : Z) : option (list Z) :=
  match fuel with
  | O => None
  | S fuel' =>
      if intg >? 0 then
        let? x := rd b (p - 1) in
        let? (t, s) := put_low_digits (Z.to_nat (Z.min intg DIG_PER_DEC1)) x t s in
        put_integer fuel' (intg - DIG_PER_DEC1) b (p - 1) t s
      else Some t
  end.

(** src/drizzled/type/decimal.cc:647-648 decimal2string

    [for(; fill; fill--) *s++=filler;], which a negative count does not end. *)
Definition put_filler (fill filler : Z) (t : list Z) (s : Z) : option (list Z * Z) :=
  if fill <? 0 then None else fill_up (Z.to_nat fill) filler t s.

(** src/drizzled/type/decimal.cc:610-623 decimal2string

    The digits when the text is longer than the buffer. *)
Definition cut_text (over intg frac : Z) : Z * Z * Z :=
  let error := if negb (frac =? 0) && (over <=? frac + 1) then E_DEC_TRUNCATED else E_DEC_OVERFLOW in
  let j := if negb (frac =? 0) && (over >=? frac + 1) then over - 1 else over in
  if j >? frac then (intg - (j - frac), 0, error) else (intg, frac - j, error).

(** src/drizzled/type/decimal.cc:570-673 decimal2string

    The error, the buffer and the length of the text. *)
Definition decimal2string (from : decimal_t) (to : list Z) (to_len fixed_precision fixed_decimals filler : Z) : option (Z * list Z * Z) :=
  let fixed := negb (fixed_precision =? 0) in
  let fixed_intg := if fixed then fixed_precision - fixed_decimals else 0 in
  let sign0 := Z.b2z (sign from) in
  if to_len <? 2 + sign0 then None
  else
    let frac0 := frac from in
    let? (p, intg0) := remove_leading_zeroes from in
    let '(b, p, intg0) := if intg0 + frac0 =? 0 then ([0], 0, 1) else (buf from, p, intg0) in
    let intg_len := if fixed then fixed_intg else intg0 in
    let intg_len := if intg_len =? 0 then 1 else intg_len in
    let frac_len := if fixed then fixed_decimals else frac0 in
    let len frac0 := sign0 + intg_len + Z.b2z (negb (frac0 =? 0)) + frac_len in
    let '(len, intg, frac, error) :=
      if fixed then
        let '(frac, error) := if frac0 >? fixed_decimals then (fixed_decimals, E_DEC_TRUNCATED) else (frac0, E_DEC_OK) in
        let '(intg, error) := if intg0 >? fixed_intg then (fixed_intg, E_DEC_OVERFLOW) else (intg0, error) in
        (len frac0, intg, frac, error)
      else if len frac0 >? to_len - 1 then
        let '(intg, frac, error) := cut_text (len frac0 - (to_len - 1)) intg0 frac0 in
        (len frac, intg, frac, error)
      else (len frac0, intg0, frac0, E_DEC_OK) in
    let? t := wr to len 0 in
    let? (t, s) := if sign from then let? t := wr t 0 45 in Some (t, 1) else Some (t, 0) in
    let? t :=
      if negb (frac =? 0) then
        let? t := wr t (s + intg_len) 46 in
        let? (t, s1) := put_fraction (S (Z.to_nat frac)) frac b (p + round_up intg) t (s + intg_len + 1) in
        let? (t, _) := put_filler (frac_len - frac) filler t s1 in
        Some t
      else Some t in
    let fill := intg_len - intg in
    let fill := if intg =? 0 then fill - 1 else fill in
    let? (t, s) := put_filler fill filler t s in
    let? t :=
      if negb (intg =? 0) then put_integer (S (Z.to_nat intg)) intg b (p + round_up intg) t (s + intg)
      else wr t s 48 in
    Some (error, t, len).

(** src/drizzled/type/decimal.h:97-100 decimal_string_size *)
Definition decimal_string_size (dec : decimal_t) : Z :=
  (if intg dec =? 0 then 1 else intg dec) + frac dec + Z.b2z (frac dec >? 0) + 2.

(** src/drizzled/type/decimal.cc:197-224 class_decimal2string

    [str]: the bytes that [str->alloc(length)] has made sure of. *)
Definition class_decimal2string (d : decimal_t) (fixed_dec : Z) (str : list Z) : option (Z * list Z * Z) :=
  decimal2string d str (decimal_string_size d) 0 fixed_dec 48.

(** ** Model: reading *)

(** src/drizzled/type/decimal.cc:1031-1032 internal_str2dec

    How many bytes at the start of a text satisfy a test. *)
Fixpoint span (test : Z -> bool) (text : list Z) : Z :=
  match text with
  | [] => 0
  | c :: rest => if test c then 1 + span test rest else 0
  end.

(** src/drizzled/type/decimal.cc:1103-1115 internal_str2dec

    [n] digits up to [s], stored downwards from [p]; [x] and [i] are the word
    that has been begun. *)
Fixpoint get_integer (n : nat) (text : list Z) (s x i : Z) (b : list Z) (p : Z) : option (list Z) :=
  match n with
  | O => if negb (i =? 0) then wr b (p - 1) x else Some b
  | S n' =>
      let? c := rd text (s - 1) in
      let? pw := rd powers10 i in
      let x := i32 (x + i32 ((c - 48) * pw)) in
      if i + 1 =? DIG_PER_DEC1 then let? b := wr b (p - 1) x in get_integer n' text (s - 1) 0 0 b (p - 1)
      else get_integer n' text (s - 1) x (i + 1) b p
  end.

(** src/drizzled/type/decimal.cc:1117-1130 internal_str2dec *)
Fixpoint get_fraction (n : nat) (text : list Z) (s x i : Z) (b : list Z) (p : Z) : option (list Z) :=
  match n with
  | O => if negb (i =? 0) then let? pw := rd powers10 (DIG_PER_DEC1 - i) in wr b p (i32 (x * pw)) else Some b
  | S n' =>
      let? c := rd text (s + 1) in
      let x := i32 ((c - 48) + i32 (x * 10)) in
      if i + 1 =? DIG_PER_DEC1 then let? b := wr b p x in get_fraction n' text (s + 1) 0 0 b (p + 1)
      else get_fraction n' text (s + 1) x (i + 1) b p
  end.

(** src/drizzled/type/decimal.cc:1063-1095 internal_str2dec

    The digits that are taken, their words and the error; [fixed]: [to_intg] and
    [to_frac] are limits. *)
Definition fit_digits (fixed : bool) (to_intg to_frac n intg frac : Z) : Z * Z * Z * Z * Z :=
  if fixed then
    let '(frac, error) := if frac >? to_frac then (to_frac, E_DEC_TRUNCATED) else (frac, E_DEC_OK) in
    let '(intg, error) := if intg >? to_intg then (to_intg, E_DEC_OVERFLOW) else (intg, error) in
    (intg, frac, round_up intg, round_up frac, if round_up intg + round_up frac >? n then E_DEC_OOM else error)
  else
    let '(intg1, frac1, error) := fix_intg_frac_error n (round_up intg) (round_up frac) in
    if negb (error =? 0) then (if error =? E_DEC_OVERFLOW then intg1 * DIG_PER_DEC1 else intg, frac1 * DIG_PER_DEC1, intg1, frac1, error)
    else (intg, frac, intg1, frac1, error).

(** src/drizzled/type/decimal.cc:1132-1160 internal_str2dec

    After the digits have been stored, at [endp]. *)
Definition read_exponent (text : list Z) (endp error : Z) (to : decimal_t) : option (Z * decimal_t * Z) :=
  let fatal (error stop : Z) := let? r := set_zero to in Some (error, r, stop) in
  let? c := if endp + 1 <? zlen text then rd text endp else Some 0 in
  if (c =? 101) || (c =? 69) then
    let '(exponent, str_error, used) := my_strtoll10 (zdrop (endp + 1) text) true in
    if negb (used =? 0) then
      let stop := endp + 1 + used in
      if str_error >? 0 then fatal E_DEC_BAD_NUM stop
      else if (exponent >? 1073741823) || ((str_error =? 0) && (exponent <? 0)) then fatal E_DEC_OVERFLOW stop
      else if (exponent <? -1073741824) && negb (error =? E_DEC_OVERFLOW) then fatal E_DEC_TRUNCATED stop
      else if negb (error =? E_DEC_OVERFLOW) then let? (error, r) := decimal_shift to exponent in Some (error, r, stop)
      else Some (error, to, stop)
    else Some (error, to, endp)
  else Some (error, to, endp).

(** src/drizzled/type/decimal.cc:1020-1166 internal_str2dec

    The error, the number and the position after the last byte that was used. *)
Definition internal_str2dec (text : list Z) (to : decimal_t) (fixed : bool) : option (Z * decimal_t * Z) :=
  let isspace := isspace ctype_utf8mb4 in
  let isdigit := isdigit ctype_utf8mb4 in
  let fatal (to : decimal_t) (error stop : Z) := let? r := set_zero to in Some (error, r, stop) in
  let s := span isspace text in
  if s =? zlen text then fatal to E_DEC_BAD_NUM s
  else
    let? c := rd text s in
    let to := set_sign to (c =? 45) in
    let s := if (c =? 45) || (c =? 43) then s + 1 else s in
    let intg := span isdigit (zdrop s text) in
    let s := s + intg in
    let? c := if s <? zlen text then rd text s else Some 0 in
    let frac := if c =? 46 then span isdigit (zdrop (s + 1) text) else 0 in
    let endp := if c =? 46 then s + 1 + frac else s in
    if frac + intg =? 0 then fatal to E_DEC_BAD_NUM endp
    else
      let '(intg, frac, intg1, frac1, error) := fit_digits fixed (Decimal.intg to) (Decimal.frac to) (len to) intg frac in
      if error =? E_DEC_OOM then fatal to E_DEC_OOM endp
      else
        let? b := get_integer (Z.to_nat intg) text s 0 0 (buf to) intg1 in
        let? b := get_fraction (Z.to_nat frac) text s 0 0 b intg1 in
        read_exponent text endp error (mkDecimal intg frac (len to) (sign to) b).
