(* ===== verification/DecTextSpec.v ===== *)
(** The text of a decimal is read as the number it shows, and what is printed is
    read back.

    The loops of [DecText] are described by the number that a list of digits
    denotes ([digits_value]) and the number that a list of words denotes
    ([wval]). *)

From Stdlib Require Import ZArith Lia ZifyBool List Bool QArith Qabs.
From S2P Require Import Prelude Words Ctype NumConv Decimal DecArith DecSub DecRound DecRoundSpec DecShift DecText.
Import ListNotations.
Local Open Scope Z_scope.
Local Open Scope fail_scope.

Local Abbreviation B := DIG_BASE.

(** ** Digits *)

Lemma digits_acc l : forall v, digits_value l v = v * 10 ^ zlen l + digits_value l 0.
Proof.
  induction l as [|c l IH]; intros v; [cbn; lia|].
  change (digits_value (c :: l) v) with (digits_value l (v * 10 + (c - 48))); change (digits_value (c :: l) 0) with (digits_value l (0 * 10 + (c - 48))).
  rewrite (IH (v * 10 + (c - 48))), (IH (0 * 10 + (c - 48))), zlen_cons, Z.pow_add_r, Z.pow_1_r by (apply zlen_nonneg || lia); ring.
Qed.

Lemma digits_cons c l : digits_value (c :: l) 0 = (c - 48) * 10 ^ zlen l + digits_value l 0.
Proof. change (digits_value (c :: l) 0) with (digits_value l (0 * 10 + (c - 48))); rewrite digits_acc; f_equal. Qed.

Lemma digits_snoc l c : digits_value (l ++ [c]) 0 = digits_value l 0 * 10 + (c - 48).
Proof. rewrite digits_value_app; reflexivity. Qed.

Lemma digits_join l l' : digits_value (l ++ l') 0 = digits_value l 0 * 10 ^ zlen l' + digits_value l' 0.
Proof. rewrite digits_value_app; apply digits_acc. Qed.

Lemma digits_bound l : Forall is_digit l -> 0 <= digits_value l 0 < 10 ^ zlen l.
Proof.
  induction 1 as [|c l Hc Hl IH]; [cbn; lia|]; unfold is_digit in Hc.
  rewrite digits_cons, zlen_cons, Z.pow_add_r, Z.pow_1_r by (apply zlen_nonneg || lia); nia.
Qed.

(** ** Reading: the loops *)

Lemma span_all test l rest : Forall (fun c => test c = true) l -> (forall c r, rest = c :: r -> test c = false) ->
  span test (l ++ rest) = zlen l.
Proof.
  intros Hl Hr; induction Hl as [|c l Hc _ IH]; cbn [app span].
  - destruct rest as [|c r]; [reflexivity|]; cbn [span]; rewrite (Hr c r eq_refl); reflexivity.
  - rewrite Hc, IH, zlen_cons; lia.
Qed.

Lemma word_step x i c : 0 <= i <= 8 -> 0 <= x < 10 ^ i -> is_digit c ->
  rd powers10 i = Some (10 ^ i) /\ i32 (x + i32 ((c - 48) * 10 ^ i)) = x + (c - 48) * 10 ^ i /\
  0 <= x + (c - 48) * 10 ^ i < 10 ^ (i + 1) /\ 10 ^ (i + 1) <= B.
Proof.
  unfold is_digit; intros Hi Hx Hc; pose proof (pow10_small i ltac:(lia)); pose proof (pow10_small (i + 1) ltac:(lia)) as P.
  rewrite Z.pow_add_r, Z.pow_1_r in * by lia; split; [apply powers10_at; lia|]; unfold DIG_BASE in *.
  assert (0 <= (c - 48) * 10 ^ i <= 9 * 10 ^ i) by nia; rewrite (i32_small ((c - 48) * 10 ^ i)), i32_small by lia; lia.
Qed.

(** The digits [I] before the point, stored from the last one on. *)
Lemma get_integer_spec n : forall I pre post x i bpre mid bpost s p, zlen I = Z.of_nat n -> Forall is_digit I ->
  s = zlen pre + Z.of_nat n -> 0 <= i <= 8 -> 0 <= x < 10 ^ i -> zlen mid = round_up (Z.of_nat n + i) -> p = zlen bpre + zlen mid ->
  exists W, get_integer n (pre ++ I ++ post) s x i (bpre ++ mid ++ bpost) p = Some (bpre ++ W ++ bpost) /\
    Forall word_ok W /\ zlen W = zlen mid /\ wval W = digits_value I 0 * 10 ^ i + x.
Proof.
  induction n as [|n IH]; intros I pre post x i bpre mid bpost s p LI HI -> Hi Hx Lm ->; cbn [get_integer].
  - rewrite (zlen_zero I LI); change (Z.of_nat 0 + i) with i in Lm.
    destruct (Z.eqb_spec i 0) as [->|Ni]; cbn [negb].
    + rewrite (zlen_zero mid Lm); exists []; change (10 ^ 0) with 1 in Hx; cbn; repeat split; [apply Forall_nil|change (0 = x); lia].
    + rewrite (round_up_unique i 1) in Lm by lia; destruct mid as [|w [|w' mid]]; [llia| |llia].
      change (zlen [w]) with 1; cbn [app]; rewrite wr_at by lia; exists [x]; pose proof (pow10_small i ltac:(lia)).
      repeat split; [apply Forall_cons; [split; lia|apply Forall_nil]|change (wval [x]) with (x * 1 + 0); cbn; lia].
  - snoc I as I' c; apply Forall_app in HI as [HI' HC]; apply Forall_cons_iff in HC as [Hc _].
    rewrite zlen_app in LI; change (zlen [c]) with 1 in LI.
    destruct (word_step x i c Hi Hx Hc) as (E1 & E2 & E3 & E4).
    rewrite <- app_assoc; cbn [app]; rewrite app_assoc, rd_at by llia; cbn [obind]; rewrite E1; cbn [obind]; rewrite E2, <- app_assoc.
    rewrite digits_snoc; destruct (Z.eqb_spec (i + 1) DIG_PER_DEC1) as [E9|N9]; unfold DIG_PER_DEC1 in *.
    + assert (zlen mid = round_up (Z.of_nat n) + 1) as Lm'.
      { rewrite Lm; apply round_up_unique; [lia|]; pose proof (round_up_bounds (Z.of_nat n)); lia. }
      pose proof (round_up_bounds (Z.of_nat n) ltac:(lia)); snoc mid as mid' w; rewrite zlen_app in *; change (zlen [w]) with 1 in *.
      rewrite <- app_assoc; cbn [app]; rewrite (app_assoc bpre), wr_at by llia; cbn [obind]; rewrite <- app_assoc.
      destruct (IH I' pre (c :: post) 0 0 bpre mid' ((x + (c - 48) * 10 ^ i) :: bpost) (zlen pre + Z.of_nat (S n) - 1) (zlen bpre + (zlen mid' + 1) - 1))
        as (W & E & HW & LW & VW); try assumption; rewrite ?Z.add_0_r; try lia.
      exists (W ++ [x + (c - 48) * 10 ^ i]); rewrite E, <- app_assoc, zlen_app; change (zlen [x + (c - 48) * 10 ^ i]) with 1.
      split; [reflexivity|split; [apply Forall_app; split; [exact HW|apply Forall_cons; [split; lia|apply Forall_nil]]|split; [lia|]]].
      unfold wval in *; rewrite bval_snoc, VW; replace i with 8 by lia; unfold DIG_BASE; change (10 ^ 0) with 1; change (10 ^ 8) with 100000000; ring.
    + destruct (IH I' pre (c :: post) (x + (c - 48) * 10 ^ i) (i + 1) bpre mid bpost (zlen pre + Z.of_nat (S n) - 1) (zlen bpre + zlen mid))
        as (W & E & HW & LW & VW); try assumption; try lia; [rewrite Lm; f_equal; lia|].
      exists W; split; [exact E|split; [exact HW|split; [exact LW|]]]; rewrite VW, Z.pow_add_r, Z.pow_1_r by lia; ring.
Qed.

Lemma fraction_step x i c : 0 <= i <= 8 -> 0 <= x < 10 ^ i -> is_digit c ->
  i32 ((c - 48) + i32 (x * 10)) = x * 10 + (c - 48) /\ 0 <= x * 10 + (c - 48) < 10 ^ (i + 1) /\ 10 ^ (i + 1) <= B.
Proof.
  unfold is_digit; intros Hi Hx Hc; pose proof (pow10_small (i + 1) ltac:(lia)) as P.
  rewrite Z.pow_add_r, Z.pow_1_r in * by lia; unfold DIG_BASE in *.
  rewrite (i32_small (x * 10)), i32_small by lia; lia.
Qed.

(** The digits [F] after the point; [x] are the [i] before them in the same word. *)
Lemma get_fraction_spec n : forall F pre post x i bpre mid bpost s p, zlen F = Z.of_nat n -> Forall is_digit F ->
  s + 1 = zlen pre -> 0 <= i <= 8 -> 0 <= x < 10 ^ i -> zlen mid = round_up (Z.of_nat n + i) -> p = zlen bpre ->
  exists W, get_fraction n (pre ++ F ++ post) s x i (bpre ++ mid ++ bpost) p = Some (bpre ++ W ++ bpost) /\
    Forall word_ok W /\ zlen W = zlen mid /\ wval W = (x * 10 ^ zlen F + digits_value F 0) * 10 ^ (9 * zlen mid - i - zlen F).
Proof.
  induction n as [|n IH]; intros F pre post x i bpre mid bpost s p LF HF Hs Hi Hx Lm ->; cbn [get_fraction].
  - rewrite (zlen_zero F LF); change (Z.of_nat 0 + i) with i in Lm; change (zlen (@nil Z)) with 0.
    destruct (Z.eqb_spec i 0) as [->|Ni]; cbn [negb].
    + change (10 ^ 0) with 1 in Hx; replace x with 0 by lia; rewrite (zlen_zero mid Lm); exists []; repeat split; apply Forall_nil.
    + rewrite (round_up_unique i 1) in Lm by lia; destruct mid as [|w [|w' mid]]; [llia| |llia].
      unfold DIG_PER_DEC1; rewrite powers10_at by lia; cbn [obind].
      assert (0 <= x * 10 ^ (9 - i) < B) as Hb.
      { change B with (10 ^ 9); replace (10 ^ 9) with (10 ^ i * 10 ^ (9 - i)) by (rewrite <- Z.pow_add_r by lia; f_equal; lia).
        pose proof (Z.pow_pos_nonneg 10 (9 - i)); nia. }
      rewrite i32_small by (unfold DIG_BASE in Hb; lia); cbn [app]; rewrite wr_at by lia; exists [x * 10 ^ (9 - i)].
      change (zlen [w]) with 1; change (digits_value [] 0) with 0; replace (9 * 1 - i - 0) with (9 - i) by lia.
      repeat split; [apply Forall_cons; [exact Hb|apply Forall_nil]|].
      change (wval [x * 10 ^ (9 - i)]) with (x * 10 ^ (9 - i) * 1 + 0); change (10 ^ 0) with 1; ring.
  - destruct F as [|c F]; [llia|]; apply Forall_cons_iff in HF as [Hc HF]; rewrite zlen_cons in LF.
    destruct (fraction_step x i c Hi Hx Hc) as (E1 & E2 & E3).
    cbn [app]; rewrite rd_at by exact Hs; cbn [obind]; rewrite E1, digits_cons, zlen_cons; clear E1.
    regroup (pre ++ c :: F ++ post) ((pre ++ [c]) ++ F ++ post).
    destruct (Z.eqb_spec (i + 1) DIG_PER_DEC1) as [E9|N9]; unfold DIG_PER_DEC1 in *.
    + pose proof (round_up_bounds (Z.of_nat n) ltac:(lia)).
      assert (zlen mid = round_up (Z.of_nat n) + 1) as Lm' by (rewrite Lm; apply round_up_unique; lia).
      destruct mid as [|w mid]; [rewrite zlen_nil in Lm'; lia|]; rewrite zlen_cons in *; cbn [app]; rewrite wr_at by reflexivity; cbn [obind].
      regroup (bpre ++ (x * 10 + (c - 48)) :: mid ++ bpost) ((bpre ++ [x * 10 + (c - 48)]) ++ mid ++ bpost).
      destruct (IH F (pre ++ [c]) post 0 0 (bpre ++ [x * 10 + (c - 48)]) mid bpost (s + 1) (zlen bpre + 1))
        as (W & E & HW & LW & VW); try assumption; rewrite ?Z.add_0_r; try lia; [llia|llia|].
      exists ((x * 10 + (c - 48)) :: W); rewrite E, <- app_assoc, zlen_cons, wval_cons.
      split; [reflexivity|split; [apply Forall_cons; [split; lia|exact HW]|split; [lia|]]].
      rewrite VW, LW, base_pow by (rewrite <- LW; apply zlen_nonneg).
      replace (9 * (zlen mid + 1) - i - (zlen F + 1)) with (9 * zlen mid - zlen F) by lia.
      replace (9 * zlen mid - 0 - zlen F) with (9 * zlen mid - zlen F) by lia.
      replace (9 * zlen mid) with (zlen F + (9 * zlen mid - zlen F)) at 1 by lia.
      rewrite (Z.pow_add_r 10 (zlen F) (9 * zlen mid - zlen F)), (Z.pow_add_r 10 (zlen F) 1), Z.pow_1_r by (rewrite ?LF; lia); ring.
    + destruct (IH F (pre ++ [c]) post (x * 10 + (c - 48)) (i + 1) bpre mid bpost (s + 1) (zlen bpre))
        as (W & E & HW & LW & VW); try assumption; try lia; [llia|rewrite Lm; f_equal; lia|].
      exists W; split; [exact E|split; [exact HW|split; [exact LW|]]]; rewrite VW.
      replace (9 * zlen mid - (i + 1) - zlen F) with (9 * zlen mid - i - (zlen F + 1)) by lia.
      rewrite (Z.pow_add_r 10 (zlen F) 1), Z.pow_1_r by (rewrite ?LF; lia); ring.
Qed.

(** ** Reading *)

(** A number as text: blanks, a sign, digits, a point and digits, and a rest that
    is not part of it. *)
Record number_text (neg : bool) (blanks sgn I : list Z) (dot : bool) (F rest : list Z) : Prop := {
  nt_blanks : Forall (fun c => isspace ctype_utf8mb4 c = true) blanks;
  nt_sign : sign_text neg sgn;
  nt_int : Forall is_digit I;
  nt_frac : Forall is_digit F;
  nt_dot : dot = false -> F = [];
  nt_some : I ++ F <> [];
  nt_rest : forall c r, rest = c :: r -> isdigit ctype_utf8mb4 c = false /\ (dot = false -> c <> 46) /\ c <> 101 /\ c <> 69
}.

Definition text_of (blanks sgn I : list Z) (dot : bool) (F rest : list Z) : list Z :=
  blanks ++ sgn ++ I ++ (if dot then 46 :: F else []) ++ rest.

Lemma digit_test l : Forall is_digit l -> Forall (fun c => isdigit ctype_utf8mb4 c = true) l.
Proof. intros H; eapply Forall_impl; [|exact H]; intros c; apply isdigit_is_digit. Qed.

Lemma digit_no_space c : is_digit c -> isspace ctype_utf8mb4 c = false.
Proof. unfold is_digit; intros Hc; rewrite isspace_utf8; lia. Qed.

(** The first byte after the blanks. *)
Lemma text_head neg blanks sgn I dot F rest : number_text neg blanks sgn I dot F rest ->
  exists c r, sgn ++ I ++ (if dot then 46 :: F else []) ++ rest = c :: r /\ isspace ctype_utf8mb4 c = false /\
    (c =? 45) = neg /\ (if (c =? 45) || (c =? 43) then 1 else 0) = zlen sgn.
Proof.
  intros [_ HS HI HF HD HN _]; unfold sign_text in HS; destruct neg.
  - subst sgn; eexists _, _; split; [reflexivity|repeat split; reflexivity].
  - destruct HS as [->| ->]; [|eexists _, _; split; [reflexivity|repeat split; reflexivity]].
    destruct I as [|c I]; cbn [app].
    + destruct dot; [eexists _, _; split; [reflexivity|repeat split; reflexivity]|].
      exfalso; apply HN; rewrite HD; reflexivity.
    + apply Forall_cons_iff in HI as [Hc _]; exists c, (I ++ (if dot then 46 :: F else []) ++ rest); split; [reflexivity|].
      split; [apply digit_no_space, Hc|]; unfold is_digit in Hc.
      assert ((c =? 45) = false) as -> by lia; assert ((c =? 43) = false) as -> by lia; split; reflexivity.
Qed.

(** No exponent follows. *)
Lemma no_exponent text pre rest error d : text = pre ++ rest -> (forall c r, rest = c :: r -> c <> 101 /\ c <> 69) ->
  read_exponent text (zlen pre) error d = Some (error, d, zlen pre).
Proof.
  intros -> Hr; unfold read_exponent; destruct (Z.ltb_spec (zlen pre + 1) (zlen (pre ++ rest))) as [C|C]; [|reflexivity].
  destruct rest as [|c r]; [llia|]; rewrite rd_at by reflexivity; cbn [obind].
  destruct (Hr c r eq_refl) as [H1 H2]; assert ((c =? 101) || (c =? 69) = false) as -> by lia; reflexivity.
Qed.

(** The number that is stored. *)
Lemma stored_number I F n s W1 W2 post : Forall is_digit I -> Forall is_digit F -> 0 < n -> zlen (W1 ++ W2 ++ post) = n ->
  Forall word_ok W1 -> Forall word_ok W2 -> zlen W1 = round_up (zlen I) -> zlen W2 = round_up (zlen F) ->
  wval W1 = digits_value I 0 -> wval W2 = digits_value F 0 * 10 ^ (9 * zlen W2 - zlen F) ->
  let r := mkDecimal (zlen I) (zlen F) n s (W1 ++ W2 ++ post) in
  wf r /\ dec_Q r == signed s (digits_value (I ++ F) 0) # Z.to_pos (10 ^ zlen F).
Proof.
  intros HI HF Hn Lt H1 H2 L1 L2 V1 V2 r; subst r.
  pose proof (zlen_nonneg I); pose proof (zlen_nonneg F); pose proof (round_up_bounds (zlen F) ltac:(lia)) as Hb; rewrite <- L2 in Hb.
  pose proof (digits_bound I HI) as BI; pose proof (wval_bounds _ H2) as B2.
  assert (wval (W1 ++ W2) = digits_value (I ++ F) 0 * 10 ^ (9 * zlen W2 - zlen F)) as V.
  { rewrite wval_app, V1, V2, digits_join, Z.mul_add_distr_r, <- Z.mul_assoc, <- Z.pow_add_r, base_pow by flia; do 3 f_equal; flia. }
  regroup (W1 ++ W2 ++ post) ((W1 ++ W2) ++ post).
  split.
  - apply build_wf; try (flia || assumption).
    + apply Forall_app; split; assumption.
    + rewrite wval_app, V1, <- L2, Z.pow_add_r, <- base_pow by flia; nia.
    + rewrite V, <- L2; eexists; reflexivity.
  - unfold dec_Q; rewrite build_mant by (rewrite zlen_app; lia); cbn [sign]; unfold nfrac, Qeq; cbn [Qnum Qden frac].
    rewrite <- L2, V, signed_mul, base_pow, !Z2Pos.id by (try apply Z.pow_pos_nonneg; flia).
    rewrite <- Z.mul_assoc, <- Z.pow_add_r by flia; do 2 f_equal; flia.
Qed.

(** The digits of the fraction, if there is a point. *)
Lemma get_fraction_text head dot F rest bpre mid bpost s p : Forall is_digit F -> (dot = false -> F = []) ->
  s = zlen head -> zlen mid = round_up (zlen F) -> p = zlen bpre ->
  exists W, get_fraction (Z.to_nat (zlen F)) (head ++ (if dot then 46 :: F else []) ++ rest) s 0 0 (bpre ++ mid ++ bpost) p
      = Some (bpre ++ W ++ bpost) /\
    Forall word_ok W /\ zlen W = zlen mid /\ wval W = digits_value F 0 * 10 ^ (9 * zlen mid - zlen F).
Proof.
  intros HF HD -> Lm ->; pose proof (zlen_nonneg F); destruct dot.
  - cbn [app]; regroup (head ++ 46 :: F ++ rest) ((head ++ [46]) ++ F ++ rest).
    destruct (get_fraction_spec (Z.to_nat (zlen F)) F (head ++ [46]) rest 0 0 bpre mid bpost (zlen head) (zlen bpre))
      as (W & E & HW & LW & VW); try assumption; rewrite ?Z.add_0_r, ?Z2Nat.id by lia; try lia; [llia|].
    exists W; rewrite Z.sub_0_r in VW; repeat split; try assumption; rewrite VW; ring.
  - rewrite (HD eq_refl) in *; rewrite (zlen_zero mid Lm); exists []; repeat split; apply Forall_nil.
Qed.

Lemma internal_str2dec_spec neg blanks sgn I dot F rest to : number_text neg blanks sgn I dot F rest -> target to ->
  round_up (zlen I) + round_up (zlen F) <= len to ->
  exists r, internal_str2dec (text_of blanks sgn I dot F rest) to false
    = Some (E_DEC_OK, r, zlen (text_of blanks sgn I dot F [])) /\ wf r /\ intg r = zlen I /\ frac r = zlen F /\ sign r = neg /\ len r = len to /\
    dec_Q r == signed neg (digits_value (I ++ F) 0) # Z.to_pos (10 ^ zlen F).
Proof.
  intros N [T0 T1] Hroom; destruct (text_head neg blanks sgn I dot F rest N) as (c & r & Ec & Hc & Es & Hs).
  destruct N as [HB _ HI HF HD HN HR]; pose proof (zlen_nonneg I); pose proof (zlen_nonneg F).
  set (text := text_of blanks sgn I dot F rest); assert (text = blanks ++ c :: r) as Et by (unfold text, text_of; rewrite Ec; reflexivity).
  unfold internal_str2dec; assert (span (isspace ctype_utf8mb4) text = zlen blanks) as ->.
  { rewrite Et; apply span_all; [exact HB|]; intros c' r' [= <- _]; exact Hc. }
  assert ((zlen blanks =? zlen text) = false) as -> by (rewrite Et; llia).
  assert (rd text (zlen blanks) = Some c) as -> by (rewrite Et; apply rd_at; reflexivity); cbn [obind].
  replace (if (c =? 45) || (c =? 43) then zlen blanks + 1 else zlen blanks) with (zlen (blanks ++ sgn))
    by (rewrite zlen_app, <- Hs; destruct ((c =? 45) || (c =? 43)); lia).
  set (tail := (if dot then 46 :: F else []) ++ rest).
  assert (text = (blanks ++ sgn) ++ I ++ tail) as Ei by (unfold text, text_of; rewrite <- app_assoc; reflexivity).
  assert (span (isdigit ctype_utf8mb4) (zdrop (zlen (blanks ++ sgn)) text) = zlen I) as ->.
  { rewrite Ei, zdrop_app by reflexivity; apply span_all; [apply digit_test, HI|].
    intros c' r' E; unfold tail in E; destruct dot; [injection E as <- _; reflexivity|]; apply (HR c' r'), E. }
  set (head := (blanks ++ sgn) ++ I); replace (zlen (blanks ++ sgn) + zlen I) with (zlen head) by (unfold head; llia).
  assert (text = head ++ tail) as Eh by (rewrite Ei; unfold head; rewrite <- !app_assoc; reflexivity).
  assert (exists c2, (if zlen head <? zlen text then rd text (zlen head) else Some 0) = Some c2 /\ (c2 =? 46) = dot) as (c2 & -> & E2).
  { rewrite Eh; unfold tail; destruct dot; cbn [app].
    - rewrite rd_at by reflexivity; assert ((zlen head <? zlen (head ++ 46 :: F ++ rest)) = true) as -> by llia; eexists; split; reflexivity.
    - destruct rest as [|c' r']; [rewrite app_nil_r, Z.ltb_irrefl; eexists; split; reflexivity|].
      rewrite rd_at by reflexivity; assert ((zlen head <? zlen (head ++ c' :: r')) = true) as -> by llia; eexists; split; [reflexivity|].
      apply Z.eqb_neq, (HR c' r' eq_refl); reflexivity. }
  cbn [obind]; rewrite E2.
  assert ((if dot then span (isdigit ctype_utf8mb4) (zdrop (zlen head + 1) text) else 0) = zlen F) as ->.
  { rewrite Eh; unfold tail; destruct dot; [|rewrite HD; reflexivity]; cbn [app].
    regroup (head ++ 46 :: F ++ rest) ((head ++ [46]) ++ F ++ rest); rewrite zdrop_app by llia.
    apply span_all; [apply digit_test, HF|intros c' r' E; apply (HR c' r' E)]. }
  assert ((if dot then zlen head + 1 + zlen F else zlen head) = zlen (text_of blanks sgn I dot F [])) as ->.
  { unfold text_of, head; destruct dot; llia. }
  assert ((zlen F + zlen I =? 0) = false) as ->.
  { apply Z.eqb_neq; intros E0; apply HN; rewrite (zlen_zero I), (zlen_zero F) by lia; reflexivity. }
  unfold fit_digits, set_sign; cbn [len]; rewrite fix_ok by exact Hroom; cbn [Z.eqb negb E_DEC_OK E_DEC_OOM buf sign].
  destruct (zsplit (round_up (zlen I)) (buf to)) as (m1 & t1 & Eb & L1 & Lt1); [pose proof (round_up_bounds (zlen I)); pose proof (round_up_bounds (zlen F)); lia|].
  destruct (zsplit (round_up (zlen F)) t1) as (m2 & post & -> & L2 & Lt2); [pose proof (round_up_bounds (zlen F)); lia|].
  destruct (get_integer_spec (Z.to_nat (zlen I)) I (blanks ++ sgn) tail 0 0 [] m1 (m2 ++ post) (zlen head) (round_up (zlen I)))
    as (W1 & E1 & HW1 & LW1 & VW1); try assumption; rewrite ?Z.add_0_r, ?Z2Nat.id by lia; try lia; [unfold head; llia|rewrite zlen_nil; lia|].
  cbn [app] in E1; rewrite Eb, Ei, E1; cbn [obind]; rewrite <- Ei, Eh.
  destruct (get_fraction_text head dot F rest W1 m2 post (zlen head) (round_up (zlen I)) HF HD eq_refl L2) as (W2 & E3 & HW2 & LW2 & VW2); [lia|].
  unfold tail; rewrite E3; cbn [obind].
  rewrite (no_exponent _ (text_of blanks sgn I dot F []) rest);
    [|unfold head, text_of; rewrite app_nil_r, <- !app_assoc; reflexivity|intros c' r' E; apply (HR c' r' E)].
  eexists; split; [reflexivity|]; cbn [intg frac sign len]; rewrite Es.
  destruct (stored_number I F (len to) neg W1 W2 post) as [Wr Q]; try assumption; try lia; [rewrite Eb in T1; llia|rewrite VW2, LW2; reflexivity|].
  split; [exact Wr|repeat (split; [reflexivity|])]; exact Q.
Qed.

(** ** Printing: the loops *)

Lemma digit_char_ok y : 0 <= y <= 9 -> digit_char y = 48 + y /\ is_digit (digit_char y).
Proof. intros H; unfold digit_char, is_digit; rewrite (u8_small y), u8_small by lia; lia. Qed.

(** The first [n] digits of a word. *)
Lemma put_high_spec n : forall x pre mid post, word_ok x -> (n <= 9)%nat -> zlen mid = Z.of_nat n ->
  exists l, put_high_digits n x (pre ++ mid ++ post) (zlen pre) = Some (pre ++ l ++ post, zlen pre + Z.of_nat n) /\
    Forall is_digit l /\ zlen l = Z.of_nat n /\ digits_value l 0 = x / 10 ^ (9 - Z.of_nat n).
Proof.
  induction n as [|n IH]; intros x pre mid post [Hx0 Hx1] Hn Lm; cbn [put_high_digits].
  - rewrite (zlen_zero mid Lm); exists []; change (9 - Z.of_nat 0) with 9; rewrite Z.div_small by (split; assumption).
    split; [f_equal; f_equal; lia|repeat split; apply Forall_nil].
  - destruct mid as [|w mid]; [rewrite zlen_nil in Lm; lia|]; rewrite zlen_cons in Lm; cbn [app]; rewrite wr_at by reflexivity; cbn [obind].
    unfold DIG_MASK, DIG_BASE in *; rewrite Z.quot_div_nonneg by lia; set (y := x / 100000000).
    assert (0 <= y <= 9 /\ 0 <= x - y * 100000000 < 100000000) as [Hy Hr] by (unfold y; dlia).
    destruct (digit_char_ok y Hy) as [Ey Dy]; rewrite (i32_small (y * 100000000)), (i32_small (x - _)), i32_small by lia.
    regroup (pre ++ digit_char y :: mid ++ post) ((pre ++ [digit_char y]) ++ mid ++ post).
    destruct (IH ((x - y * 100000000) * 10) (pre ++ [digit_char y]) mid post) as (l & E & HL & LL & VL);
      [split; unfold DIG_BASE; lia|lia|lia|].
    replace (zlen pre + 1) with (zlen (pre ++ [digit_char y])) by llia; rewrite E.
    exists (digit_char y :: l); rewrite <- app_assoc, zlen_cons, digits_cons, VL, LL, Ey, zlen_app; change (zlen [digit_char y]) with 1.
    replace (zlen pre + Z.of_nat (S n)) with (zlen pre + 1 + Z.of_nat n) by lia; split; [reflexivity|split; [apply Forall_cons; [rewrite Ey in Dy; exact Dy|exact HL]|split; [lia|]]].
    replace (48 + y - 48) with y by lia.
    replace (9 - Z.of_nat n) with (1 + (9 - Z.of_nat (S n))) by lia; rewrite Z.pow_add_r, Z.pow_1_r by lia.
    rewrite <- Z.div_div by (try apply Z.pow_pos_nonneg; lia); rewrite Z.div_mul by lia.
    replace x with ((y * 10 ^ Z.of_nat n) * 10 ^ (9 - Z.of_nat (S n)) + (x - y * 100000000)) at 2.
    + rewrite Z.div_add_l by (apply Z.pow_nonzero; lia); reflexivity.
    + rewrite <- Z.mul_assoc, <- Z.pow_add_r by lia; replace (Z.of_nat n + (9 - Z.of_nat (S n))) with 8 by lia; change (10 ^ 8) with 100000000; lia.
Qed.

(** The last [n] digits of a word. *)
Lemma put_low_spec n : forall x pre mid post, 0 <= x < 2147483648 -> zlen mid = Z.of_nat n ->
  exists l, put_low_digits n x (pre ++ mid ++ post) (zlen pre + Z.of_nat n) = Some (pre ++ l ++ post, zlen pre) /\
    Forall is_digit l /\ zlen l = Z.of_nat n /\ digits_value l 0 = x mod 10 ^ Z.of_nat n.
Proof.
  induction n as [|n IH]; intros x pre mid post Hx Lm; cbn [put_low_digits].
  - rewrite (zlen_zero mid Lm); exists []; change (10 ^ Z.of_nat 0) with 1; rewrite Z.mod_1_r.
    split; [f_equal; f_equal; lia|repeat split; apply Forall_nil].
  - snoc mid as mid' w; rewrite zlen_app in Lm; change (zlen [w]) with 1 in Lm.
    rewrite Z.quot_div_nonneg by lia; assert (0 <= x - x / 10 * 10 <= 9) as Hy by dlia; destruct (digit_char_ok _ Hy) as [Ey Dy].
    regroup (pre ++ (mid' ++ [w]) ++ post) ((pre ++ mid') ++ w :: post); rewrite wr_at by llia; cbn [obind]; rewrite <- app_assoc.
    destruct (IH (x / 10) pre mid' (digit_char (x - x / 10 * 10) :: post)) as (l & E & HL & LL & VL); [dlia|lia|].
    replace (zlen pre + Z.of_nat (S n) - 1) with (zlen pre + Z.of_nat n) by lia; rewrite E.
    exists (l ++ [digit_char (x - x / 10 * 10)]); rewrite <- app_assoc, zlen_app, digits_snoc, VL, LL, Ey; change (zlen [digit_char (x - x / 10 * 10)]) with 1.
    split; [reflexivity|split; [apply Forall_app; split; [exact HL|apply Forall_cons; [rewrite Ey in Dy; exact Dy|apply Forall_nil]]|split; [llia|]]].
    rewrite Nat2Z.inj_succ, Z.pow_succ_r, Z.rem_mul_r by (try apply Z.pow_nonzero; lia).
    replace (48 + (x - x / 10 * 10) - 48) with (x mod 10) by dlia; ring.
Qed.

(** The [k] digits of the fraction [F]. *)
Lemma put_fraction_spec fuel : forall F k b1 b2 pre mid post, (Z.to_nat k < fuel)%nat -> Forall word_ok F -> 0 <= k ->
  zlen F = round_up k -> zlen mid = k ->
  exists l, put_fraction fuel k (b1 ++ F ++ b2) (zlen b1) (pre ++ mid ++ post) (zlen pre) = Some (pre ++ l ++ post, zlen pre + k) /\
    Forall is_digit l /\ zlen l = k /\ digits_value l 0 = wval F / 10 ^ (9 * zlen F - k).
Proof.
  induction fuel as [|fuel IH]; intros F k b1 b2 pre mid post Hf HF Hk LF Lm; [lia|]; cbn [put_fraction].
  rewrite Z.gtb_ltb; destruct (Z.ltb_spec 0 k) as [C|C].
  - pose proof (round_up_bounds k Hk) as Hb; destruct F as [|x F]; [rewrite zlen_nil in LF; lia|].
    apply Forall_cons_iff in HF as [Hx HF]; rewrite zlen_cons in *; cbn [app]; rewrite rd_at by reflexivity; cbn [obind]; unfold DIG_PER_DEC1.
    set (n := Z.min k 9); destruct (zsplit n mid) as (m1 & m2 & -> & L1 & L2); [lia|].
    regroup (pre ++ (m1 ++ m2) ++ post) (pre ++ m1 ++ m2 ++ post).
    destruct (put_high_spec (Z.to_nat n) x pre m1 (m2 ++ post) Hx) as (l1 & E1 & HL1 & LL1 & VL1); [lia|lia|]; rewrite Z2Nat.id in * by lia.
    rewrite E1; cbn [obind].
    regroup (b1 ++ x :: F ++ b2) ((b1 ++ [x]) ++ F ++ b2); regroup (pre ++ l1 ++ m2 ++ post) ((pre ++ l1) ++ m2 ++ post).
    replace (zlen pre + n) with (zlen (pre ++ l1)) by (rewrite zlen_app; lia); replace (zlen b1 + 1) with (zlen (b1 ++ [x])) by llia.
    destruct (Z_le_gt_dec 9 k) as [K9|K9].
    + destruct (IH F (k - 9) (b1 ++ [x]) b2 (pre ++ l1) m2 post) as (l2 & E2 & HL2 & LL2 & VL2); try assumption; try lia;
        [symmetry; apply round_up_unique; lia|].
      rewrite E2; exists (l1 ++ l2); rewrite <- !app_assoc, !zlen_app, digits_join, wval_cons, VL1, VL2, LL2.
      replace (zlen pre + zlen l1 + (k - 9)) with (zlen pre + k) by lia.
      split; [reflexivity|split; [apply Forall_app; split; assumption|split; [lia|]]].
      replace n with 9 by lia; change (10 ^ (9 - 9)) with 1; rewrite Z.div_1_r.
      replace (9 * (zlen F + 1) - k) with (9 * zlen F - (k - 9)) by lia.
      replace (B ^ zlen F) with (10 ^ (k - 9) * 10 ^ (9 * zlen F - (k - 9))) by (rewrite base_pow, <- Z.pow_add_r by (try apply zlen_nonneg; lia); f_equal; lia).
      rewrite Z.mul_assoc, Z.div_add_l by (apply Z.pow_nonzero; lia); reflexivity.
    + assert (zlen F = 0) as F0 by lia; assert (n = k) as Ek by lia; rewrite (zlen_zero F F0) in *; rewrite (zlen_zero m2) by lia.
      destruct fuel as [|fuel]; [lia|]; cbn [put_fraction]; assert ((k - 9 >? 0) = false) as -> by lia.
      exists l1; rewrite <- app_assoc, wval_cons, zlen_app, LL1, Ek, VL1, Ek; change (zlen (@nil Z)) with 0; change (wval []) with 0.
      split; [reflexivity|split; [exact HL1|split; [lia|]]]; change (B ^ 0) with 1; rewrite Z.mul_1_r, Z.add_0_r; reflexivity.
  - replace k with 0 in * by lia; rewrite (zlen_zero mid Lm), (zlen_zero F LF); exists [].
    split; [f_equal; f_equal; lia|repeat split; apply Forall_nil].
Qed.

(** The [k] digits of the integer part [m]. *)
Lemma put_integer_spec fuel : forall m k b1 b2 pre mid post, (Z.to_nat k < fuel)%nat -> Forall word_ok m -> 0 <= k ->
  zlen m = round_up k -> zlen mid = k ->
  exists l, put_integer fuel k (b1 ++ m ++ b2) (zlen b1 + zlen m) (pre ++ mid ++ post) (zlen pre + k) = Some (pre ++ l ++ post) /\
    Forall is_digit l /\ zlen l = k /\ digits_value l 0 = wval m mod 10 ^ k.
Proof.
  induction fuel as [|fuel IH]; intros m k b1 b2 pre mid post Hf Hm Hk Lm Ll; [lia|]; cbn [put_integer].
  rewrite Z.gtb_ltb; destruct (Z.ltb_spec 0 k) as [C|C].
  - pose proof (round_up_bounds k Hk) as Hb; snoc m as m' x; rewrite zlen_app in *; change (zlen [x]) with 1 in *.
    apply Forall_app in Hm as [Hm Hx]; apply Forall_cons_iff in Hx as [[Hx0 Hx1] _]; unfold DIG_PER_DEC1, DIG_BASE in *.
    regroup (b1 ++ (m' ++ [x]) ++ b2) ((b1 ++ m') ++ x :: b2); rewrite rd_at by llia; cbn [obind]; rewrite <- app_assoc.
    set (n := Z.min k 9); destruct (zsplit (k - n) mid) as (m1 & m2 & -> & L1 & L2); [lia|].
    regroup (pre ++ (m1 ++ m2) ++ post) ((pre ++ m1) ++ m2 ++ post).
    destruct (put_low_spec (Z.to_nat n) x (pre ++ m1) m2 post) as (l2 & E2 & HL2 & LL2 & VL2); [lia|lia|]; rewrite Z2Nat.id in * by lia.
    replace (zlen pre + k) with (zlen (pre ++ m1) + n) by llia; rewrite E2; cbn [obind]; rewrite <- app_assoc.
    replace (zlen b1 + (zlen m' + 1) - 1) with (zlen b1 + zlen m') by lia.
    destruct (Z_le_gt_dec 9 k) as [K9|K9].
    + destruct (IH m' (k - 9) b1 (x :: b2) pre m1 (l2 ++ post)) as (l1 & E1 & HL1 & LL1 & VL1); try assumption; try lia;
        [symmetry; apply round_up_unique; lia|].
      replace (zlen (pre ++ m1)) with (zlen pre + (k - 9)) by llia; rewrite E1.
      exists (l1 ++ l2); rewrite <- !app_assoc, zlen_app, digits_join, VL1, VL2, LL2.
      split; [reflexivity|split; [apply Forall_app; split; assumption|split; [lia|]]].
      unfold wval; rewrite bval_snoc; fold wval; replace n with 9 by lia.
      replace k with (9 + (k - 9)) at 2 by lia; rewrite Z.pow_add_r by lia; change (10 ^ 9) with B.
      rewrite Z.rem_mul_r, Z.div_add_l, Z.add_comm with (m := x), Z.mod_add by (try (apply Z.pow_nonzero || apply Z.pow_pos_nonneg); unfold DIG_BASE; lia).
      rewrite Z.div_small, Z.add_0_r by (unfold DIG_BASE; lia); ring.
    + assert (zlen m' = 0) as M0 by lia; assert (n = k) as Ek by lia; rewrite (zlen_zero m' M0) in *; rewrite (zlen_zero m1) in * by lia.
      destruct fuel as [|fuel]; [lia|]; cbn [put_integer app]; assert ((k - 9 >? 0) = false) as -> by lia.
      exists l2; rewrite LL2, VL2, Ek; split; [reflexivity|split; [exact HL2|split; [reflexivity|]]].
      change (wval [x]) with (x * 1 + 0); f_equal; lia.
  - replace k with 0 in * by lia; rewrite (zlen_zero mid Ll); exists []; change (10 ^ 0) with 1; rewrite Z.mod_1_r.
    split; [reflexivity|repeat split; apply Forall_nil].
Qed.

(** ** Printing *)

(** The point and the digits after it. *)
Lemma print_fraction f b1 F b2 A D0 F0 post filler : Forall word_ok F -> zlen F = round_up f -> 0 <= f ->
  zlen D0 = Z.b2z (negb (f =? 0)) -> zlen F0 = f ->
  exists F', (if negb (f =? 0) then
      let? t := wr (A ++ D0 ++ F0 ++ post) (zlen A) 46 in
      let? (t, s1) := put_fraction (S (Z.to_nat f)) f (b1 ++ F ++ b2) (zlen b1) t (zlen A + 1) in
      let? (t, _) := put_filler (f - f) filler t s1 in
      Some t
    else Some (A ++ D0 ++ F0 ++ post)) = Some (A ++ (if negb (f =? 0) then [46] else []) ++ F' ++ post) /\
    Forall is_digit F' /\ zlen F' = f /\ digits_value F' 0 = wval F / 10 ^ (9 * zlen F - f).
Proof.
  intros HF LF Hf LD L0; destruct (Z.eqb_spec f 0) as [->|Nf]; cbn [negb Z.b2z] in *.
  - rewrite (zlen_zero D0 LD), (zlen_zero F0 L0), (zlen_zero F LF); exists []; repeat split; apply Forall_nil.
  - destruct D0 as [|d [|]]; [llia| |llia]; cbn [app]; rewrite wr_at by reflexivity; cbn [obind].
    regroup (A ++ 46 :: F0 ++ post) ((A ++ [46]) ++ F0 ++ post); replace (zlen A + 1) with (zlen (A ++ [46])) by llia.
    destruct (put_fraction_spec (S (Z.to_nat f)) F f b1 b2 (A ++ [46]) F0 post) as (l & E & HL & LL & VL); try assumption; try lia.
    rewrite E; cbn [obind]; rewrite Z.sub_diag; cbn [put_filler Z.ltb Z.compare Z.to_nat fill_up obind].
    exists l; rewrite <- app_assoc; split; [reflexivity|auto].
Qed.

(** The digits before the point. *)
Lemma print_integer k b1 m b2 A I0 post filler (il := Z.max k 1) : Forall word_ok m -> zlen m = round_up k -> 0 <= k -> wval m < 10 ^ k ->
  zlen I0 = il ->
  exists I, (let? (t, s) := put_filler (if k =? 0 then il - k - 1 else il - k) filler (A ++ I0 ++ post) (zlen A) in
    if negb (k =? 0) then put_integer (S (Z.to_nat k)) k (b1 ++ m ++ b2) (zlen b1 + round_up k) t (s + k)
    else wr t s 48) = Some (A ++ I ++ post) /\
    Forall is_digit I /\ zlen I = il /\ digits_value I 0 = wval m.
Proof.
  intros Hm Lm Hk Vm L0; pose proof (wval_bounds _ Hm) as Bm.
  assert ((if k =? 0 then il - k - 1 else il - k) = 0) as -> by (destruct (Z.eqb_spec k 0); lia).
  cbn [put_filler Z.ltb Z.compare Z.to_nat fill_up obind]; destruct (Z.eqb_spec k 0) as [->|Nk]; cbn [negb].
  - change il with 1 in *; destruct I0 as [|i [|]]; [llia| |llia]; cbn [app]; rewrite wr_at by reflexivity.
    exists [48]; change (10 ^ 0) with 1 in Vm; split; [reflexivity|split; [apply Forall_cons; [unfold is_digit; lia|apply Forall_nil]|]].
    split; [reflexivity|cbn; lia].
  - destruct (put_integer_spec (S (Z.to_nat k)) m k b1 b2 A I0 post) as (l & E & HL & LL & VL); try assumption; try lia.
    rewrite <- Lm, E; exists l; rewrite VL, Z.mod_small by lia; split; [reflexivity|split; [exact HL|split; [lia|reflexivity]]].
Qed.

(** The digits that are printed for the words [m] before the point and [F] after it. *)
Lemma print_digits to sg k f len b b1 m F b2 p filler (s := Z.b2z sg) (il := Z.max k 1) :
  b = b1 ++ m ++ F ++ b2 -> p = zlen b1 -> Forall word_ok m -> Forall word_ok F -> zlen m = round_up k -> zlen F = round_up f ->
  0 <= k -> 0 <= f -> wval m < 10 ^ k -> len = s + il + Z.b2z (negb (f =? 0)) + f -> len < zlen to ->
  exists I F' R, (let? t := wr to len 0 in
    let? (t, s) := if sg then let? t := wr t 0 45 in Some (t, 1) else Some (t, 0) in
    let? t :=
      if negb (f =? 0) then
        let? t := wr t (s + il) 46 in
        let? (t, s1) := put_fraction (S (Z.to_nat f)) f b (p + round_up k) t (s + il + 1) in
        let? (t, _) := put_filler (f - f) filler t s1 in
        Some t
      else Some t in
    let? (t, s) := put_filler (if k =? 0 then il - k - 1 else il - k) filler t s in
    let? t :=
      if negb (k =? 0) then put_integer (S (Z.to_nat k)) k b (p + round_up k) t (s + k)
      else wr t s 48 in
    Some (E_DEC_OK, t, len)) = Some (E_DEC_OK, (if sg then [45] else []) ++ I ++ (if negb (f =? 0) then [46] else []) ++ F' ++ 0 :: R, len) /\
    Forall is_digit I /\ Forall is_digit F' /\ zlen I = il /\ zlen F' = f /\ digits_value I 0 = wval m /\
    digits_value F' 0 = wval F / 10 ^ (9 * zlen F - f).
Proof.
  intros -> -> Hm HF Lm LF Hk Hf Vm El Hlt.
  destruct (zsplit s to) as (S0 & t1 & -> & LS & Lt1); [destruct sg; cbn [s Z.b2z] in *; lia|]; rewrite zlen_app in Hlt.
  destruct (zsplit il t1) as (I0 & t2 & -> & LI & Lt2); [lia|]; rewrite zlen_app in Hlt.
  destruct (zsplit (Z.b2z (negb (f =? 0))) t2) as (D0 & t3 & -> & LD & Lt3); [destruct (f =? 0); cbn [negb Z.b2z] in *; lia|]; rewrite zlen_app in Hlt.
  destruct (zsplit f t3) as (F0 & t4 & -> & LF0 & Lt4); [lia|]; rewrite zlen_app in Hlt.
  destruct t4 as [|z R]; [rewrite zlen_nil in Hlt; lia|].
  regroup (S0 ++ I0 ++ D0 ++ F0 ++ z :: R) ((S0 ++ I0 ++ D0 ++ F0) ++ z :: R); rewrite wr_at by llia; cbn [obind].
  assert (exists S1, (if sg then let? t := wr ((S0 ++ I0 ++ D0 ++ F0) ++ 0 :: R) 0 45 in Some (t, 1) else Some ((S0 ++ I0 ++ D0 ++ F0) ++ 0 :: R, 0))
      = Some ((S1 ++ I0) ++ D0 ++ F0 ++ 0 :: R, s) /\ S1 = (if sg then [45] else []) /\ zlen S1 = s) as (S1 & -> & ES & LS1).
  { destruct sg; cbn [s Z.b2z] in *.
    - destruct S0 as [|x [|]]; [llia| |llia]; exists [45]; cbn [app]; rewrite wr_0; cbn [obind]; rewrite <- !app_assoc; split; [reflexivity|split; reflexivity].
    - rewrite (zlen_zero S0 LS); exists []; cbn [app]; rewrite <- !app_assoc; split; [reflexivity|split; reflexivity]. }
  cbn [obind]; replace (s + il) with (zlen (S1 ++ I0)) by llia.
  regroup (b1 ++ m ++ F ++ b2) ((b1 ++ m) ++ F ++ b2); replace (zlen b1 + round_up k) with (zlen (b1 ++ m)) by llia.
  destruct (print_fraction f (b1 ++ m) F b2 (S1 ++ I0) D0 F0 (0 :: R) filler HF LF Hf LD LF0) as (F' & E1 & HF' & LF' & VF').
  rewrite E1; cbn [obind]; clear E1.
  regroup ((S1 ++ I0) ++ (if negb (f =? 0) then [46] else []) ++ F' ++ 0 :: R) (S1 ++ I0 ++ (if negb (f =? 0) then [46] else []) ++ F' ++ 0 :: R).
  destruct (print_integer k b1 m (F ++ b2) S1 I0 ((if negb (f =? 0) then [46] else []) ++ F' ++ 0 :: R) filler Hm Lm Hk Vm LI) as (I & E2 & HI & LI' & VI).
  fold il in E2; rewrite LS1 in E2; regroup ((b1 ++ m) ++ F ++ b2) (b1 ++ m ++ F ++ b2); replace (zlen (b1 ++ m)) with (zlen b1 + round_up k) by llia.
  destruct (put_filler _ _ _ _) as [[t s']|]; [|discriminate]; cbn [obind] in E2 |- *; rewrite E2; cbn [obind].
  exists I, F', R; rewrite ES; split; [reflexivity|repeat (split; [assumption|]); assumption].
Qed.

(** The characters of a decimal: a sign, the digits before the point without the
    leading zeros but one at least, the point and the fraction. *)
Definition text_length (d : decimal_t) : Z :=
  match remove_leading_zeroes d with
  | Some (_, k) => Z.b2z (sign d) + Z.max k 1 + Z.b2z (negb (frac d =? 0)) + frac d
  | None => 0
  end.

Lemma text_length_size d : wf d -> text_length d < decimal_string_size d.
Proof.
  intros W; destruct (remove_leading_zeroes_spec d W) as (p & k & m & Er & _ & _ & _ & _ & Hk & _).
  pose proof (wf_intg _ W); pose proof (wf_frac _ W); unfold text_length, decimal_string_size; rewrite Er.
  destruct (sign d), (Z.eqb_spec (intg d) 0), (Z.eqb_spec (frac d) 0), (Z.gtb_spec (frac d) 0); cbn [Z.b2z negb]; lia.
Qed.

(** The text of a decimal, followed by a zero. *)
Lemma decimal2string_spec d to n fd filler (sgn := if sign d then [45] else []) : wf d -> text_length d < n -> n <= zlen to ->
  exists I F R, decimal2string d to n 0 fd filler
      = Some (E_DEC_OK, text_of [] sgn I (negb (frac d =? 0)) F [] ++ 0 :: R, zlen (text_of [] sgn I (negb (frac d =? 0)) F [])) /\
    zlen (text_of [] sgn I (negb (frac d =? 0)) F []) = text_length d /\ Forall is_digit I /\ Forall is_digit F /\ 1 <= zlen I <= Z.max (intg d) 1 /\ zlen F = frac d /\
    digits_value (I ++ F) 0 * 10 ^ (9 * nfrac d - frac d) = mant d.
Proof.
  intros W Hn Ht; destruct (wf_layout d W) as (I0 & F0 & R0 & Eb & LI0 & LF0 & _ & EI & HI0 & HF0 & Em).
  destruct (remove_leading_zeroes_spec d W) as (p & k & m & Er & Ei & Hp & Lp & Lm & Hk & Vm & Vk & _).
  pose proof (wf_intg _ W) as Wi; pose proof (wf_frac _ W) as Wf; pose proof (nfrac_bounds d W) as Hb.
  rewrite EI in Ei, Vm; unfold decimal2string, text_length in *; rewrite Er in *; change (negb (0 =? 0)) with false; cbn iota.
  assert ((n <? 2 + Z.b2z (sign d)) = false) as -> by (destruct (frac d =? 0); cbn [negb Z.b2z] in Hn; lia).
  cbn [obind].
  assert (exists b b1 m' b2 k', (if k + frac d =? 0 then ([0], 0, 1) else (buf d, p, k)) = (b, zlen b1, k') /\ b = b1 ++ m' ++ F0 ++ b2 /\
      Forall word_ok m' /\ zlen m' = round_up k' /\ 0 <= k' <= Z.max (intg d) 1 /\ wval m' < 10 ^ k' /\ wval m' = wval I0 /\ Z.max k 1 = Z.max k' 1)
    as (b & b1 & m' & b2 & k' & -> & E & Hm' & Lm' & Hk' & Vk' & Vm' & Em1).
  { destruct (Z.eqb_spec (k + frac d) 0) as [E0|N0].
    - assert (k = 0) as -> by lia; change (10 ^ 0) with 1 in Vk; change (round_up 0) with 0 in Lm.
      assert (F0 = []) as EF by (apply zlen_zero; rewrite LF0; unfold nfrac; replace (frac d) with 0 by lia; reflexivity).
      exists [0], [], [0], [], 1; rewrite EF; repeat split; try lia; try apply (word_ok_zeros 1).
      rewrite <- Vm, (zlen_zero m Lm); reflexivity.
    - exists (buf d), (repeat 0 (Z.to_nat p)), m, R0, k; rewrite Eb, Ei, zlen_repeat, Z2Nat.id, <- app_assoc by lia.
      rewrite Ei in HI0; apply Forall_app in HI0 as [_ Hm]; rewrite Ei in Vm; repeat split; try assumption; try lia. }
  rewrite Em1 in *; cbn iota beta; replace (if k' =? 0 then 1 else k') with (Z.max k' 1) by (destruct (Z.eqb_spec k' 0); lia).
  assert ((Z.b2z (sign d) + Z.max k' 1 + Z.b2z (negb (frac d =? 0)) + frac d >? n - 1) = false) as -> by lia.
  destruct (print_digits to (sign d) k' (frac d) (Z.b2z (sign d) + Z.max k' 1 + Z.b2z (negb (frac d =? 0)) + frac d) b b1 m' F0 b2 (zlen b1) filler)
    as (I & F & R & E2 & HI & HF & LI & LF & VI & VF); try assumption; try reflexivity; try lia.
  cbv zeta in E2; rewrite E2; exists I, F, R; clear E2.
  assert (zlen (text_of [] sgn I (negb (frac d =? 0)) F []) = Z.b2z (sign d) + Z.max k' 1 + Z.b2z (negb (frac d =? 0)) + frac d) as LT.
  { unfold text_of, sgn; destruct (sign d), (Z.eqb_spec (frac d) 0); cbn [negb Z.b2z]; llia. }
  rewrite LT; split; [|split; [reflexivity|split; [exact HI|split; [exact HF|split; [lia|split; [exact LF|]]]]]].
  - unfold text_of; fold sgn; rewrite app_nil_r; destruct (Z.eqb_spec (frac d) 0) as [E0|N0]; cbn [negb app]; rewrite <- !app_assoc; [|reflexivity].
    rewrite (zlen_zero F) by lia; reflexivity.
  - assert (10 ^ (9 * nfrac d - frac d) | wval F0) as [q Eq].
    { apply (Z.divide_add_cancel_r _ (wval I0 * B ^ nfrac d)); [|rewrite <- Em; apply (wf_tail _ W)].
      apply Z.divide_mul_r; exists (10 ^ frac d); rewrite base_pow, <- Z.pow_add_r by lia; f_equal; lia. }
    rewrite digits_join, VI, Vm', VF, LF0, LF, Eq, Z.div_mul, Em, Eq, base_pow by (try apply Z.pow_nonzero; lia).
    rewrite Z.mul_add_distr_r, <- Z.mul_assoc, <- Z.pow_add_r by lia; do 3 f_equal; lia.
Qed.

Lemma read_back d I F n : wf d -> digits_value (I ++ F) 0 * 10 ^ (9 * nfrac d - frac d) = mant d -> n = frac d ->
  signed (sign d) (digits_value (I ++ F) 0) # Z.to_pos (10 ^ n) == dec_Q d.
Proof.
  intros W E ->; pose proof (nfrac_bounds d W); pose proof (wf_frac _ W); unfold dec_Q, Qeq; cbn [Qnum Qden].
  rewrite <- E, signed_mul, base_pow, !Z2Pos.id by (try apply Z.pow_pos_nonneg; lia).
  rewrite <- Z.mul_assoc, <- Z.pow_add_r by lia; do 2 f_equal; lia.
Qed.

Lemma printed_text s I dot F : Forall is_digit I -> Forall is_digit F -> 1 <= zlen I -> (dot = false -> F = []) ->
  number_text s [] (if s then [45] else []) I dot F [].
Proof.
  intros HI HF LI HD; constructor; try assumption; try apply Forall_nil; try discriminate.
  - unfold sign_text, chr_minus; destruct s; [reflexivity|left; reflexivity].
  - destruct I; [rewrite zlen_nil in LI; lia|discriminate].
Qed.

(** ** Claims *)

(** C27. A number in decimal notation (blanks, a sign, digits with or without a
    point, up to a byte that belongs to no number) is read as the number it
    shows, with its digits before and after the point, if its words fit the
    buffer; the position after it is returned. *)
Theorem str2dec_reads neg blanks sgn I dot F rest to : number_text neg blanks sgn I dot F rest -> target to ->
  round_up (zlen I) + round_up (zlen F) <= len to ->
  exists r, internal_str2dec (text_of blanks sgn I dot F rest) to false
    = Some (E_DEC_OK, r, zlen (text_of blanks sgn I dot F [])) /\ wf r /\ intg r = zlen I /\ frac r = zlen F /\ sign r = neg /\
    dec_Q r == signed neg (digits_value (I ++ F) 0) # Z.to_pos (10 ^ zlen F).
Proof.
  intros N T R; destruct (internal_str2dec_spec neg blanks sgn I dot F rest to N T R) as (r & E & W & H1 & H2 & H3 & _ & Q).
  exists r; split; [exact E|split; [exact W|split; [exact H1|split; [exact H2|split; [exact H3|exact Q]]]]].
Qed.

(** The text [-12.5;]. *)
Lemma str2dec_reads_witness : exists r, internal_str2dec [32; 45; 49; 50; 46; 53; 59] ex_target false = Some (E_DEC_OK, r, 6) /\
  dec_Q r == (-125) # 10.
Proof.
  destruct (str2dec_reads true [32] [45] [49; 50] true [53] [59] ex_target) as (r & E & _ & _ & _ & _ & Q).
  - constructor; try discriminate; try (repeat (apply Forall_cons; [unfold is_digit; lia|]); apply Forall_nil); [|reflexivity|].
    + apply Forall_cons; [reflexivity|apply Forall_nil].
    + intros c r [= <- <-]; repeat split; discriminate.
  - split; reflexivity.
  - discriminate.
  - exists r; split; [exact E|rewrite Q; reflexivity].
Defined.

(** C12. The text of a decimal, without a fixed precision, is read back as the same number, with the same
    sign and the same digits of the fraction.  The buffer of the text has the size
    of [decimal_string_size], as in [class_decimal2string], or more, and that of
    the number that is read has room for the words before the point (one at
    least) and of the fraction. *)
Theorem decimal_text_round_trip d to n fd filler t : wf d -> decimal_string_size d <= n -> n <= zlen to ->
  target t -> Z.max (nint d) 1 + nfrac d <= len t ->
  exists text R r, decimal2string d to n 0 fd filler = Some (E_DEC_OK, text ++ 0 :: R, zlen text) /\
    internal_str2dec text t false = Some (E_DEC_OK, r, zlen text) /\ wf r /\ dec_Q r == dec_Q d /\ frac r = frac d /\ sign r = sign d.
Proof.
  intros W Hn Ht T Hr; pose proof (text_length_size d W) as Hs.
  destruct (decimal2string_spec d to n fd filler W ltac:(lia) Ht) as (I & F & R & E & _ & HI & HF & LI & LF & V).
  pose proof (round_up_bounds (zlen I) ltac:(lia)) as Hb; pose proof (nint_bounds d W) as Hi.
  destruct (internal_str2dec_spec (sign d) [] (if sign d then [45] else []) I (negb (frac d =? 0)) F [] t) as (r & E' & Wr & _ & Er & Sr & _ & Q).
  - apply printed_text; try assumption; [lia|]; intros E0; apply zlen_zero; lia.
  - exact T.
  - rewrite LF; fold (nfrac d); lia.
  - eexists _, R, r; split; [exact E|split; [exact E'|split; [exact Wr|split; [rewrite Q; apply read_back; assumption|split; [lia|exact Sr]]]]].
Qed.

Lemma decimal_text_round_trip_witness : exists text R r, class_decimal2string ex_nines 0 (repeat 1 24) = Some (E_DEC_OK, text ++ 0 :: R, zlen text) /\
  internal_str2dec text ex_target false = Some (E_DEC_OK, r, zlen text) /\ dec_Q r == dec_Q ex_nines.
Proof.
  destruct (decimal_text_round_trip ex_nines (repeat 1 24) (decimal_string_size ex_nines) 0 48 ex_target) as (text & R & r & E1 & E2 & _ & Q & _).
  - apply wf_b_correct; reflexivity.
  - discriminate.
  - discriminate.
  - split; reflexivity.
  - discriminate.
  - exists text, R, r; split; [exact E1|split; [exact E2|exact Q]].
Defined.

(** The length of a text that has been cut: its point at most is not counted. *)
Lemma cut_text_length over intg0 frac0 intg1 frac1 e : 0 <= frac0 -> 0 < over -> ~ (frac0 = 1 /\ over = 1) ->
  cut_text over intg0 frac0 = (intg1, frac1, e) -> Z.b2z (negb (frac0 =? 0)) < Z.b2z (negb (frac1 =? 0)) + over.
Proof.
  unfold cut_text; intros Hf Ho Hc; destruct (Z.eqb_spec frac0 0); cbn [negb andb Z.b2z].
  - intros _; destruct (negb (frac1 =? 0)); cbn [Z.b2z]; lia.
  - destruct (Z.geb_spec over (frac0 + 1)), (Z.eqb_spec frac1 0); cbn [negb Z.b2z]; case_if; intros [= <- <- <-]; lia.
Qed.

Lemma wr_past (b : list Z) i v : zlen b <= i -> wr b i v = None.
Proof. intros Hi; destruct (wr b i v) as [b'|] eqn:E; [|reflexivity]; apply wr_split in E as (pre & x & post & -> & _ & Ei); llia. Qed.

(** C38. The text of a decimal, without a fixed precision, in a buffer of [n] bytes,
    where [n] passes the assertion of the code.  A text that leaves room for the
    terminating zero is written whole.  A longer one is not cut to the buffer: the
    terminating zero is written past its end, except for a text of [n] characters
    with one digit after the point. *)
Theorem decimal2string_overruns d to n fd filler : wf d -> 2 + Z.b2z (sign d) <= n -> zlen to = n ->
  (text_length d < n -> exists t, decimal2string d to n 0 fd filler = Some (E_DEC_OK, t, text_length d)) /\
  (n <= text_length d -> ~ (frac d = 1 /\ text_length d = n) -> decimal2string d to n 0 fd filler = None).
Proof.
  intros W Hn Ht; split.
  - intros Hl; destruct (decimal2string_spec d to n fd filler W Hl ltac:(lia)) as (I & F & R & E & <- & _); eexists; exact E.
  - intros Hl Hc; destruct (remove_leading_zeroes_spec d W) as (p & k & m & Er & _ & _ & _ & _ & Hk & _); pose proof (wf_frac _ W).
    unfold decimal2string, text_length in *; rewrite Er in *; change (negb (0 =? 0)) with false; cbn iota.
    assert ((n <? 2 + Z.b2z (sign d)) = false) as -> by lia; cbn [obind].
    assert (exists b p' k', (if k + frac d =? 0 then ([0], 0, 1) else (buf d, p, k)) = (b, p', k') /\ (if k' =? 0 then 1 else k') = Z.max k 1) as (b & p' & k' & -> & ->).
    { destruct (Z.eqb_spec (k + frac d) 0); eexists _, _, _; (split; [reflexivity|]); [replace k with 0 by lia; reflexivity|destruct (Z.eqb_spec k 0); lia]. }
    assert ((Z.b2z (sign d) + Z.max k 1 + Z.b2z (negb (frac d =? 0)) + frac d >? n - 1) = true) as -> by lia.
    destruct (cut_text _ _ _) as [[i f] e] eqn:Ec; apply cut_text_length in Ec; [|lia..].
    rewrite wr_past; [reflexivity|lia].
Qed.

(** 123.456 and buffers of seven and eight bytes. *)
Lemma decimal2string_overruns_witness :
  let d := mkDecimal 3 3 9 false [123; 456000000; 0; 0; 0; 0; 0; 0; 0] in
  decimal2string d (repeat 35 7) 7 0 0 48 = None /\ exists t, decimal2string d (repeat 35 8) 8 0 0 48 = Some (E_DEC_OK, t, 7).
Proof.
  intros d; assert (wf d) as W by (apply wf_b_correct; reflexivity); split.
  - apply (decimal2string_overruns d (repeat 35 7) 7 0 48 W); [discriminate|reflexivity|discriminate|intros [E _]; discriminate E].
  - apply (decimal2string_overruns d (repeat 35 8) 8 0 48 W); [discriminate|reflexivity|reflexivity].
Defined.

(** A number that starts with the word 999999999 and has an exponent for which
    its fraction has to be rounded is moved past the end of its buffer. *)
Lemma str2dec_exponent_overruns :
  internal_str2dec (repeat 57 9 ++ [46] ++ repeat 49 72 ++ [101; 45; 49]) ex_target false = None /\
  internal_str2dec (repeat 56 9 ++ [46] ++ repeat 49 72 ++ [101; 45; 49]) ex_target false <> None.
Proof. split; [vm_compute; reflexivity|vm_compute; discriminate]. Qed.
