(* ===== verification/DecBin.v ===== *)
(** The binary format of decimals: [decimal2bin], [bin2decimal] and
    [decimal_bin_size] of [src/drizzled/type/decimal.cc], with the byte order
    macros of [src/plugin/myisam/myisampack.h].

    A decimal of [precision] digits, [scale] of them after the point, is
    stored in a fixed number of bytes: the words of nine digits in four bytes
    each, the first and the last digits in as few as needed, inverted for a
    negative number and with the first bit flipped, so that [memcmp] orders
    the stored numbers. *)

From Stdlib Require Import ZArith Lia ZifyBool List Bool QArith.
From S2P Require Import Prelude Words Decimal DecArith DecSub.
Import ListNotations.
Local Open Scope Z_scope.
Local Open Scope fail_scope.

(** ** Model: bytes *)

Definition byte_at (x k : Z) : Z := u8 (Z.shiftr (u32 x) (8 * k)).

(** src/plugin/myisam/myisampack.h:83-83 mi_int1store *)
Definition mi_int1store (A : Z) : list Z := [u8 A].
(** src/plugin/myisam/myisampack.h:85-87 mi_int2store *)
Definition mi_int2store (A : Z) : list Z := [byte_at A 1; byte_at A 0].
(** src/plugin/myisam/myisampack.h:88-93 mi_int3store *)
Definition mi_int3store (A : Z) : list Z := [byte_at A 2; byte_at A 1; byte_at A 0].
(** src/plugin/myisam/myisampack.h:94-98 mi_int4store *)
Definition mi_int4store (A : Z) : list Z := [byte_at A 3; byte_at A 2; byte_at A 1; byte_at A 0].

(** src/plugin/myisam/myisampack.h:26-26 mi_sint1korr *)
Definition mi_sint1korr (a0 : Z) : Z := swrap 8 a0.
(** src/plugin/myisam/myisampack.h:28-29 mi_sint2korr *)
Definition mi_sint2korr (a0 a1 : Z) : Z := swrap 16 (a1 + Z.shiftl (swrap 8 a0) 8).
(** src/plugin/myisam/myisampack.h:30-37 mi_sint3korr *)
Definition mi_sint3korr (a0 a1 a2 : Z) : Z :=
  i32 (if negb (Z.land a0 128 =? 0)
       then Z.lor (Z.lor (Z.lor (Z.shiftl 255 24) (Z.shiftl a0 16)) (Z.shiftl a1 8)) a2
       else Z.lor (Z.lor (Z.shiftl a0 16) (Z.shiftl a1 8)) a2).
(** src/plugin/myisam/myisampack.h:38-41 mi_sint4korr *)
Definition mi_sint4korr (a0 a1 a2 a3 : Z) : Z :=
  i32 (a3 + Z.shiftl a2 8 + Z.shiftl a1 16 + Z.shiftl (swrap 8 a0) 24).

(** ** Model: storing *)

(** src/drizzled/type/decimal.cc:1639-1648 decimal_bin_size

    [None]: the assertion fails. *)
Definition decimal_bin_size (precision scale : Z) : option Z :=
  let intg := precision - scale in
  let intg0 := intg ÷ DIG_PER_DEC1 in
  let frac0 := scale ÷ DIG_PER_DEC1 in
  let intg0x := intg - intg0 * DIG_PER_DEC1 in
  let frac0x := scale - frac0 * DIG_PER_DEC1 in
  if (0 <=? scale) && (0 <? precision) && (scale <=? precision) then
    let? bi := rd dig2bytes intg0x in
    let? bf := rd dig2bytes frac0x in
    Some (intg0 * 4 + bi + frac0 * 4 + bf)
  else None.

(** src/drizzled/type/decimal.cc:1465-1472 decimal2bin

    The switch over the number of bytes, here and for the fraction. *)
Definition store_group (i x : Z) : option (list Z) :=
  if i =? 1 then Some (mi_int1store x)
  else if i =? 2 then Some (mi_int2store x)
  else if i =? 3 then Some (mi_int3store x)
  else if i =? 4 then Some (mi_int4store x)
  else None.

(** src/drizzled/type/decimal.cc:1477-1482 decimal2bin

    The [n] whole words from [p]. *)
Fixpoint store_full (n : nat) (b : list Z) (p mask : Z) (to : list Z) : option (list Z * Z) :=
  match n with
  | O => Some (to, p)
  | S n' =>
      let? w := rd b p in
      store_full n' b (p + 1) mask (to ++ mi_int4store (Z.lxor w mask))
  end.

(** src/drizzled/type/decimal.cc:1490-1491 decimal2bin

    At most nine steps. *)
Fixpoint widen (fuel : nat) (frac1x lim i : Z) : option Z :=
  match fuel with
  | O => None
  | S fuel' =>
      if frac1x <? lim then
        let? d := rd dig2bytes frac1x in
        if d =? i then widen fuel' (frac1x + 1) lim i else Some frac1x
      else Some frac1x
  end.

Definition b2z (b : bool) : Z := if b then 1 else 0.

(** src/drizzled/type/decimal.cc:1460-1502 decimal2bin

    The digits: the first group from the word at [p], the whole words, the
    last group; the bytes before them are in [to]. *)
Definition store_digits (b : list Z) (p mask intg1 intg1x frac1 frac1x frac0 frac0x : Z) (to : list Z)
  : option (list Z) :=
  let? (to, p) :=
    if intg1x =? 0 then Some (to, p)
    else
      let? i := rd dig2bytes intg1x in
      let? w := rd b p in
      let? pw := rd powers10 intg1x in
      let? g := store_group i (Z.lxor (Z.rem w pw) mask) in
      Some (to ++ g, p + 1) in
  let? (to, p) := store_full (Z.to_nat (intg1 + frac1)) b p mask to in
  if frac1x =? 0 then Some to
  else
    let? i := rd dig2bytes frac1x in
    let lim := if frac1 <? frac0 then DIG_PER_DEC1 else frac0x in
    let? frac1x := widen 10 frac1x lim i in
    let? w := rd b p in
    let? pw := rd powers10 (DIG_PER_DEC1 - frac1x) in
    let? g := store_group i (Z.lxor (w ÷ pw) mask) in
    Some (to ++ g).

(** src/drizzled/type/decimal.cc:1399-1515 decimal2bin

    The error and the bytes; the buffer has [decimal_bin_size] bytes.
    [None]: an array is left, or the assertion at the end fails. *)
Definition decimal2bin (from : decimal_t) (precision frac0' : Z) : option (Z * list Z) :=
  let mask := if sign from then -1 else 0 in
  let intg0 := (precision - frac0') ÷ DIG_PER_DEC1 in
  let frac0 := frac0' ÷ DIG_PER_DEC1 in
  let intg0x := precision - frac0' - intg0 * DIG_PER_DEC1 in
  let frac0x := frac0' - frac0 * DIG_PER_DEC1 in
  let frac1 := frac from ÷ DIG_PER_DEC1 in
  let frac1x := frac from - frac1 * DIG_PER_DEC1 in
  let? bi0 := rd dig2bytes intg0x in
  let? bf0 := rd dig2bytes frac0x in
  let? bf1 := rd dig2bytes frac1x in
  let isize0 := intg0 * 4 + bi0 in
  let fsize0 := frac0 * 4 + bf0 in
  let fsize1 := frac1 * 4 + bf1 in
  let orig_size := fsize0 + isize0 in
  let? (p, from_intg) := remove_leading_zeroes from in
  let '(mask, intg, b, p) :=
    if from_intg + fsize1 =? 0 then (0, 1, [0], 0) else (mask, precision - frac0', buf from, p) in
  let intg1 := from_intg ÷ DIG_PER_DEC1 in
  let intg1x := from_intg - intg1 * DIG_PER_DEC1 in
  let? bi1 := rd dig2bytes intg1x in
  let isize1 := intg1 * 4 + bi1 in
  let '(p, intg1, intg1x, error, to) :=
    if intg <? from_intg then
      (p + (intg1 - intg0 + b2z (intg1x >? 0) - b2z (intg0x >? 0)), intg0, intg0x, E_DEC_OVERFLOW, [])
    else (p, intg1, intg1x, E_DEC_OK, repeat (u8 mask) (Z.to_nat (isize0 - isize1))) in
  let '(frac1, frac1x, fsize0, error) :=
    if fsize0 <? fsize1 then (frac0, frac0x, fsize0, E_DEC_TRUNCATED)
    else if (fsize0 >? fsize1) && negb (frac1x =? 0) then
      if frac0 =? frac1 then (frac1, frac0x, fsize1, error) else (frac1 + 1, 0, fsize0, error)
    else (frac1, frac1x, fsize0, error) in
  let? to := store_digits b p mask intg1 intg1x frac1 frac1x frac0 frac0x to in
  let to :=
    if fsize0 >? fsize1
    then to ++ repeat (u8 mask) (Z.to_nat (Z.min (fsize0 - fsize1) (orig_size - zlen to)))
    else to in
  let? b0 := rd to 0 in
  let? to := wr to 0 (Z.lxor b0 128) in
  if zlen to =? orig_size then Some (error, to) else None.

(** ** Model: reading *)

(** src/drizzled/type/decimal.cc:1573-1580 bin2decimal

    The switch over the number of bytes, at position [p]. *)
Definition load_group (i : Z) (from : list Z) (p : Z) : option Z :=
  let? a0 := rd from p in
  if i =? 1 then Some (mi_sint1korr a0)
  else
    let? a1 := rd from (p + 1) in
    if i =? 2 then Some (mi_sint2korr a0 a1)
    else
      let? a2 := rd from (p + 2) in
      if i =? 3 then Some (mi_sint3korr a0 a1 a2)
      else
        let? a3 := rd from (p + 3) in
        if i =? 4 then Some (mi_sint4korr a0 a1 a2 a3) else None.

(** src/drizzled/type/decimal.cc:1585-1588 bin2decimal

    A word of zero at the start of the buffer is skipped; the digits it
    would have are taken off [intg]. *)
Definition skip_first (p intg w digits : Z) : Z * Z :=
  if (p >? 0) || negb (w =? 0) then (p + 1, intg) else (p, intg - digits).

(** src/drizzled/type/decimal.cc:1569-1589 bin2decimal

    The first group of [intg0x] digits.  The buffer, and [None] for the jump
    to [err] or the position in the buffer, the position in the bytes and the
    digits. *)
Definition load_first (from t : list Z) (q intg intg0x mask : Z) : option (list Z * option (Z * Z * Z)) :=
  if intg0x =? 0 then Some (t, Some (0, q, intg))
  else
    let? i := rd dig2bytes intg0x in
    let? x := load_group i from q in
    let w := Z.lxor x mask in
    let? t := wr t 0 w in
    let? pw := rd powers10 (intg0x + 1) in
    if u64 w >=? pw then Some (t, None)
    else let '(p, intg) := skip_first 0 intg w intg0x in Some (t, Some (p, q + i, intg)).

(** src/drizzled/type/decimal.cc:1590-1600 bin2decimal

    The [n] whole words of the integer part. *)
Fixpoint load_int (n : nat) (from t : list Z) (p q intg mask : Z)
  : option (list Z * option (Z * Z * Z)) :=
  match n with
  | O => Some (t, Some (p, q, intg))
  | S n' =>
      let? x := load_group 4 from q in
      let w := Z.lxor x mask in
      let? t := wr t p w in
      if u32 w >? DIG_MAX then Some (t, None)
      else
        let '(p, intg) := skip_first p intg w DIG_PER_DEC1 in
        load_int n' from t p (q + 4) intg mask
  end.

(** src/drizzled/type/decimal.cc:1602-1609 bin2decimal *)
Fixpoint load_frac (n : nat) (from t : list Z) (p q mask : Z) : option (list Z * option (Z * Z)) :=
  match n with
  | O => Some (t, Some (p, q))
  | S n' =>
      let? x := load_group 4 from q in
      let w := Z.lxor x mask in
      let? t := wr t p w in
      if u32 w >? DIG_MAX then Some (t, None) else load_frac n' from t (p + 1) (q + 4) mask
  end.

(** src/drizzled/type/decimal.cc:1610-1626 bin2decimal

    The last group; [false] for the jump to [err]. *)
Definition load_last (from t : list Z) (p q frac0x mask : Z) : option (list Z * bool) :=
  if frac0x =? 0 then Some (t, true)
  else
    let? i := rd dig2bytes frac0x in
    let? x := load_group i from q in
    let? pw := rd powers10 (DIG_PER_DEC1 - frac0x) in
    let w := i32 (Z.lxor x mask * pw) in
    let? t := wr t p w in
    Some (t, u32 w <=? DIG_MAX).

(** src/drizzled/type/decimal.cc:1569-1632 bin2decimal

    All groups, with the digits left before the point; [None] beside the
    buffer: the jump to [err]. *)
Definition load_digits (from t : list Z) (q intg intg0 intg0x frac0 frac0x mask : Z)
  : option (list Z * option Z) :=
  let? (t, r) := load_first from t q intg intg0x mask in
  match r with
  | None => Some (t, None)
  | Some (p, q, intg) =>
      let? (t, r) := load_int (Z.to_nat intg0) from t p q intg mask in
      match r with
      | None => Some (t, None)
      | Some (p, q, intg) =>
          if intg <? 0 then None
          else
            let? (t, r) := load_frac (Z.to_nat frac0) from t p q mask in
            match r with
            | None => Some (t, None)
            | Some (p, q) =>
                let? (t, ok) := load_last from t p q frac0x mask in
                Some (t, if (ok : bool) then Some intg else None)
            end
      end
  end.

(** src/drizzled/type/decimal.cc:1532-1632 bin2decimal *)
Definition bin2decimal (from : list Z) (to : decimal_t) (precision scale : Z) : option (Z * decimal_t) :=
  let intg := precision - scale in
  let intg0 := intg ÷ DIG_PER_DEC1 in
  let frac0 := scale ÷ DIG_PER_DEC1 in
  let intg0x := intg - intg0 * DIG_PER_DEC1 in
  let frac0x := scale - frac0 * DIG_PER_DEC1 in
  let? f0 := rd from 0 in
  let mask := if Z.land f0 128 =? 0 then -1 else 0 in
  let? bin_size := decimal_bin_size precision scale in
  if zlen from <? bin_size then None
  else
  let? from := wr (ztake bin_size from) 0 (Z.lxor f0 128) in
  let '(intg1, frac1, error) :=
    fix_intg_frac_error (len to) (intg0 + b2z (intg0x >? 0)) (frac0 + b2z (frac0x >? 0)) in
  let? bi := rd dig2bytes intg0x in
  let '(q, intg0, intg0x, frac0, frac0x) :=
    if error =? E_DEC_OK then (0, intg0, intg0x, frac0, frac0x)
    else if intg1 <? intg0 + b2z (intg0x >? 0)
    then (bi + 4 * (intg0 - intg1), intg1, 0, 0, 0)
    else (0, intg0, intg0x, frac1, 0) in
  let to_sign := negb (mask =? 0) in
  let to_frac := frac0 * DIG_PER_DEC1 + frac0x in
  let to_intg := intg0 * DIG_PER_DEC1 + intg0x in
  let? (t, r) := load_digits from (buf to) q to_intg intg0 intg0x frac0 frac0x mask in
  match r with
  | Some to_intg => Some (error, mkDecimal to_intg to_frac (len to) to_sign t)
  | None =>
      let? r := set_zero (mkDecimal to_intg to_frac (len to) to_sign t) in
      Some (E_DEC_BAD_NUM, r)
  end.

(** ** Bytes *)

(** The [n] low bytes of a number, the most significant one first. *)
Fixpoint be (n : nat) (x : Z) : list Z :=
  match n with
  | O => []
  | S n' => be n' (x / 256) ++ [x mod 256]
  end.

Definition byte_ok : Z -> Prop := digit_ok 256.
Definition byval : list Z -> Z := bval 256.

Lemma be_spec n : forall x, zlen (be n x) = Z.of_nat n /\ Forall byte_ok (be n x) /\
  byval (be n x) = x mod 256 ^ Z.of_nat n.
Proof.
  induction n as [|n IH]; intros x; cbn [be].
  - rewrite Z.mod_1_r; repeat split; apply Forall_nil.
  - destruct (IH (x / 256)) as (L & Hb & V); unfold byval in *; rewrite bval_snoc, V.
    split; [llia|split; [apply Forall_app; split; [exact Hb|]|]].
    + apply Forall_cons; [apply Z.mod_pos_bound; lia|apply Forall_nil].
    + rewrite Nat2Z.inj_succ, Z.pow_succ_r by lia.
      rewrite Z.rem_mul_r by (lia || (apply Z.pow_nonzero; lia)); ring.
Qed.

Lemma be_zlen n x : zlen (be n x) = Z.of_nat n.
Proof. apply be_spec. Qed.

Lemma be_ok n x : Forall byte_ok (be n x).
Proof. apply be_spec. Qed.

Lemma be_val n x : 0 <= x < 256 ^ Z.of_nat n -> byval (be n x) = x.
Proof. intros H; destruct (be_spec n x) as (_ & _ & ->); apply Z.mod_small, H. Qed.

Lemma be_zero n : be n 0 = repeat 0 n.
Proof.
  induction n as [|n IH]; [reflexivity|]; cbn [be]; change (0 / 256) with 0; change (0 mod 256) with 0.
  rewrite IH; cbn [repeat]; rewrite repeat_cons; reflexivity.
Qed.

Lemma byte_at_eq x k : 0 <= k <= 3 -> byte_at x k = (x / 256 ^ k) mod 256.
Proof.
  intros H; unfold byte_at, u8, u32, wrap; rewrite Z.shiftr_div_pow2 by lia.
  assert (k = 0 \/ k = 1 \/ k = 2 \/ k = 3) as C by lia.
  decompose [or] C; subst k;
    repeat match goal with |- context [?a ^ ?b] => let v := eval vm_compute in (a ^ b) in change (a ^ b) with v end; dlia.
Qed.

(** Unfold a store into the bytes of [be]. *)
Ltac be_bytes :=
  rewrite !byte_at_eq by lia; cbn [be app]; rewrite ?Z.div_div by lia;
  repeat match goal with |- context [256 ^ ?b] => let v := eval vm_compute in (256 ^ b) in change (256 ^ b) with v end;
  rewrite Z.div_1_r; reflexivity.

Lemma mi_int2store_be x : mi_int2store x = be 2 x.
Proof. unfold mi_int2store; be_bytes. Qed.

Lemma mi_int3store_be x : mi_int3store x = be 3 x.
Proof. unfold mi_int3store; be_bytes. Qed.

Lemma mi_int4store_be x : mi_int4store x = be 4 x.
Proof. unfold mi_int4store; be_bytes. Qed.

Lemma store_group_be i x : 1 <= i <= 4 -> store_group i x = Some (be (Z.to_nat i) x).
Proof.
  intros H; assert (i = 1 \/ i = 2 \/ i = 3 \/ i = 4) as C by lia.
  decompose [or] C; subst i; unfold store_group; cbn [Z.eqb Pos.eqb]; f_equal.
  - change (Z.to_nat 2) with 2%nat; apply mi_int2store_be.
  - change (Z.to_nat 3) with 3%nat; apply mi_int3store_be.
  - change (Z.to_nat 4) with 4%nat; apply mi_int4store_be.
Qed.

(** The bytes of a negative number are inverted. *)
Definition inv_byte (s : bool) (b : Z) : Z := if s then 255 - b else b.
Definition sign_mask (s : bool) : Z := if s then -1 else 0.

Lemma lxor_mask x s : Z.lxor x (sign_mask s) = if s then - x - 1 else x.
Proof.
  destruct s; cbn [sign_mask]; [rewrite Z.lxor_m1_r; unfold Z.lnot; lia|apply Z.lxor_0_r].
Qed.

Lemma be_mask n s : forall x, be n (Z.lxor x (sign_mask s)) = map (inv_byte s) (be n x).
Proof.
  intros x; rewrite lxor_mask; destruct s; [|symmetry; apply map_id].
  revert x; induction n as [|n IH]; intros x; [reflexivity|]; cbn [be]; rewrite map_app; cbn [map inv_byte].
  replace ((- x - 1) / 256) with (- (x / 256) - 1) by dlia.
  rewrite IH; do 2 f_equal; dlia.
Qed.

Lemma inv_byte_zero s : u8 (sign_mask s) = inv_byte s 0.
Proof. destruct s; reflexivity. Qed.

Lemma map_repeat {A B} (f : A -> B) x n : map f (repeat x n) = repeat (f x) n.
Proof. induction n as [|n IH]; [reflexivity|cbn; rewrite IH; reflexivity]. Qed.

(** ** Words as bytes *)

Definition enc_words (ws : list Z) : list Z := concat (map (be 4) ws).

Lemma enc_words_app a b : enc_words (a ++ b) = enc_words a ++ enc_words b.
Proof. unfold enc_words; rewrite map_app, concat_app; reflexivity. Qed.

Lemma enc_words_zeros n : enc_words (repeat 0 n) = repeat 0 (4 * n).
Proof.
  induction n as [|n IH]; [reflexivity|]; cbn [repeat]; unfold enc_words in *; cbn [map concat]; rewrite IH.
  replace (4 * S n)%nat with (4 + 4 * n)%nat by lia; rewrite repeat_app; reflexivity.
Qed.

Lemma enc_words_spec ws : Forall word_ok ws -> zlen (enc_words ws) = 4 * zlen ws /\ Forall byte_ok (enc_words ws) /\
  byval (enc_words ws) = bval 4294967296 ws.
Proof.
  induction 1 as [|w ws Hw _ (L & Hb & V)]; [repeat split; apply Forall_nil|].
  change (enc_words (w :: ws)) with (be 4 w ++ enc_words ws).
  split; [rewrite zlen_app, be_zlen, zlen_cons; lia|].
  split; [apply Forall_app; split; [apply be_ok|exact Hb]|].
  unfold byval; rewrite bval_app; fold byval; rewrite V, be_val by (unfold word_ok, digit_ok, DIG_BASE in Hw; change (256 ^ Z.of_nat 4) with 4294967296; lia).
  rewrite L, Z.pow_mul_r by llia; reflexivity.
Qed.

Lemma store_full_eq n : forall ws pre post p s to, zlen ws = Z.of_nat n -> p = zlen pre ->
  store_full n (pre ++ ws ++ post) p (sign_mask s) to
  = Some (to ++ map (inv_byte s) (enc_words ws), p + Z.of_nat n).
Proof.
  induction n as [|n IH]; intros ws pre post p s to L ->.
  - rewrite (zlen_zero ws) by lia; cbn; rewrite app_nil_r, Z.add_0_r; reflexivity.
  - destruct ws as [|w ws]; [llia|]; cbn [store_full app]; rewrite rd_at by reflexivity; cbn [obind].
    regroup (pre ++ w :: ws ++ post) ((pre ++ [w]) ++ ws ++ post).
    rewrite IH by llia; rewrite mi_int4store_be, be_mask, <- app_assoc.
    change (enc_words (w :: ws)) with (be 4 w ++ enc_words ws); rewrite map_app; do 2 f_equal; lia.
Qed.

(** ** Sizes *)

Definition d2b (k : Z) : Z := nth (Z.to_nat k) dig2bytes 0.

(** Split on a digit count of at most nine. *)
Ltac digits_cases k :=
  let C := fresh in
  assert (k = 0 \/ k = 1 \/ k = 2 \/ k = 3 \/ k = 4 \/ k = 5 \/ k = 6 \/ k = 7 \/ k = 8 \/ k = 9) as C by lia;
  decompose [or] C; clear C; subst k.

Ltac d2b_eval :=
  repeat match goal with |- context [d2b ?k] => let v := eval vm_compute in (d2b k) in change (d2b k) with v end.

Lemma d2b_at k : 0 <= k <= 9 -> rd dig2bytes k = Some (d2b k).
Proof. intros H; digits_cases k; reflexivity. Qed.

Lemma d2b_bounds k : 0 <= k <= 9 -> 0 <= d2b k <= 4 /\ (d2b k = 0 <-> k = 0).
Proof. intros H; digits_cases k; d2b_eval; lia. Qed.

Lemma d2b_mono j k : 0 <= j <= k -> k <= 9 -> d2b j <= d2b k.
Proof. intros H1 H2; digits_cases j; digits_cases k; d2b_eval; lia. Qed.

(** A group of [k] digits leaves the first bit of its bytes clear. *)
Lemma d2b_room k : 1 <= k <= 9 -> 10 ^ k <= 128 * 256 ^ (d2b k - 1).
Proof. intros H; digits_cases k; try lia; d2b_eval; vm_compute; discriminate. Qed.

Lemma widen_eq x lim : 1 <= x <= lim -> lim <= 9 -> d2b x = d2b lim -> widen 10 x lim (d2b x) = Some lim.
Proof.
  intros H1 H2 E; digits_cases lim; digits_cases x; try lia; vm_compute in E; try discriminate; reflexivity.
Qed.

(** The integer part: the first group of [k] digits, in [L] unless [k] is 0,
    and whole words. *)
Definition int_bytes (k : Z) (L M : list Z) : list Z := be (Z.to_nat (d2b k)) (hd 0 L) ++ enc_words M.

(** The fraction: whole words and the first [k] digits of the word in [T]. *)
Definition frac_bytes (M : list Z) (k : Z) (T : list Z) : list Z :=
  enc_words M ++ be (Z.to_nat (d2b k)) (hd 0 T / 10 ^ (9 - k)).

(** A group of words that has a partial word if [k] is not 0. *)
Definition group (k : Z) (L : list Z) : Prop := zlen L = b2z (k >? 0) /\ Forall word_ok L.

Lemma group_cases k L : 0 <= k -> group k L -> (k = 0 /\ L = []) \/ (0 < k /\ exists w, L = [w] /\ word_ok w).
Proof.
  intros Hk [Lk Ho]; unfold b2z in Lk; destruct (Z.gtb_spec k 0).
  - right; split; [assumption|]; destruct L as [|w [|]]; [llia| |llia].
    exists w; split; [reflexivity|]; inversion Ho; assumption.
  - left; split; [lia|apply zlen_zero, Lk].
Qed.

Lemma pow10_bytes k : 0 <= k <= 9 -> 10 ^ k <= 256 ^ d2b k.
Proof. intros H; digits_cases k; try lia; d2b_eval; vm_compute; discriminate. Qed.

Lemma int_bytes_spec k L M : 0 <= k <= 9 -> group k L -> hd 0 L < 10 ^ k -> Forall word_ok M ->
  zlen (int_bytes k L M) = d2b k + 4 * zlen M /\ Forall byte_ok (int_bytes k L M) /\
  byval (int_bytes k L M) = bval 4294967296 (L ++ M).
Proof.
  intros Hk G H HM; unfold int_bytes; destruct (enc_words_spec M HM) as (LM & OM & VM).
  pose proof (d2b_bounds k Hk) as [Hd _]; pose proof (pow10_bytes k Hk).
  split; [rewrite zlen_app, be_zlen, LM; lia|split; [apply Forall_app; split; [apply be_ok|exact OM]|]].
  unfold byval; rewrite !bval_app; fold byval; rewrite VM, LM.
  rewrite (Z.pow_mul_r 256 4) by llia; change (256 ^ 4) with 4294967296.
  destruct (group_cases k L (proj1 Hk) G) as [[-> ->]|(_ & w & -> & Hw)]; [reflexivity|].
  cbn [hd] in *; rewrite bval_one, be_val; [reflexivity|].
  unfold word_ok, digit_ok in Hw; rewrite Z2Nat.id; lia.
Qed.

(** Leading zero words are leading zero bytes. *)
Lemma int_bytes_pad k L M k1 L1 M1 z : 0 <= k <= 9 -> 0 <= k1 <= 9 -> group k L -> group k1 L1 ->
  hd 0 L < 10 ^ k -> hd 0 L1 < 10 ^ k1 -> Forall word_ok M -> Forall word_ok M1 ->
  L ++ M = repeat 0 z ++ L1 ++ M1 -> d2b k1 + 4 * zlen M1 <= d2b k + 4 * zlen M ->
  int_bytes k L M
  = repeat 0 (Z.to_nat (d2b k + 4 * zlen M - (d2b k1 + 4 * zlen M1))) ++ int_bytes k1 L1 M1.
Proof.
  intros Hk Hk1 G G1 H H1 HM HM1 E Le.
  destruct (int_bytes_spec k L M) as (A & B & C); try assumption.
  destruct (int_bytes_spec k1 L1 M1) as (A1 & B1 & C1); try assumption.
  apply (bval_inj 256); [lia|exact B| |rewrite zlen_app, zlen_repeat, A, A1; lia|].
  - apply Forall_app; split; [|exact B1].
    apply Forall_forall; intros x Hx%repeat_spec; subst x; unfold byte_ok, digit_ok; lia.
  - fold byval; rewrite C, E; unfold byval; rewrite (bval_app _ (repeat 0 z)), (bval_app 256), !bval_zeros.
    fold byval; rewrite C1; lia.
Qed.
