(* ===== verification/DecKey.v ===== *)
(** The binary format of decimals as a sort key: the bytes that [decimal2bin]
    of [src/drizzled/type/decimal.cc] writes, and that [memcmp] orders the
    stored numbers by their values, as its comment promises. *)

From Stdlib Require Import ZArith Lia ZifyBool List Bool QArith.
From S2P Require Import Prelude Words Decimal DecArith DecSub DecBin.
Import ListNotations.
Local Open Scope Z_scope.
Local Open Scope fail_scope.

(** ** Storing *)

Lemma store_digits_eq pre L M T post s intg1 intg1x frac1 frac1x frac0 frac0x to lim :
  0 <= intg1x <= 9 -> group intg1x L -> hd 0 L < 10 ^ intg1x ->
  0 <= intg1 + frac1 -> zlen M = intg1 + frac1 -> 0 <= frac1x -> group frac1x T ->
  lim = (if frac1 <? frac0 then DIG_PER_DEC1 else frac0x) ->
  (0 < frac1x -> frac1x <= lim <= 9 /\ d2b frac1x = d2b lim) ->
  store_digits (pre ++ L ++ M ++ T ++ post) (zlen pre) (sign_mask s) intg1 intg1x frac1 frac1x frac0 frac0x to
  = Some (to ++ map (inv_byte s) (int_bytes intg1x L M ++
            (if frac1x =? 0 then [] else be (Z.to_nat (d2b lim)) (hd 0 T / 10 ^ (9 - lim))))).
Proof.
  intros Hi GL HL Hn LM Hf GT -> Hw; unfold store_digits, int_bytes.
  set (lim := if frac1 <? frac0 then DIG_PER_DEC1 else frac0x) in *.
  assert (exists q, (if intg1x =? 0 then Some (to, zlen pre)
    else
      let? i := rd dig2bytes intg1x in
      let? w := rd (pre ++ L ++ M ++ T ++ post) (zlen pre) in
      let? pw := rd powers10 intg1x in
      let? g := store_group i (Z.lxor (Z.rem w pw) (sign_mask s)) in Some (to ++ g, zlen pre + 1))
    = Some (to ++ map (inv_byte s) (be (Z.to_nat (d2b intg1x)) (hd 0 L)), q) /\ q = zlen (pre ++ L))
    as (q & -> & ->).
  { destruct (group_cases intg1x L (proj1 Hi) GL) as [[-> ->]|(Hp & w & -> & Hw1)].
    - cbn; rewrite !app_nil_r; eauto.
    - destruct (Z.eqb_spec intg1x 0) as [E|_]; [lia|]; destruct (d2b_bounds intg1x Hi) as [Hd Hd0].
      cbn [hd app] in *; unfold word_ok, digit_ok in Hw1.
      rewrite d2b_at, rd_at, powers10_at by (reflexivity || lia); cbn [obind].
      rewrite Z.rem_small, store_group_be, be_mask by lia; eexists; split; [reflexivity|llia]. }
  cbn [obind]; rewrite (app_assoc pre L), (store_full_eq _ M (pre ++ L)) by (reflexivity || lia); cbn [obind].
  rewrite !map_app, !app_assoc.
  destruct (group_cases frac1x T Hf GT) as [[-> ->]|(Hp & w & -> & Hw1)]; [cbn; rewrite !app_nil_r; reflexivity|].
  destruct (Hw Hp) as [Hl Ed]; destruct (Z.eqb_spec frac1x 0) as [E|_]; [lia|].
  rewrite d2b_at by lia; cbn [obind]; rewrite widen_eq by lia; cbn [obind].
  destruct (d2b_bounds frac1x) as [Hd Hd0]; [lia|]; cbn [hd]; unfold word_ok, digit_ok in Hw1.
  regroup ((((pre ++ L) ++ M) ++ [w]) ++ post) (((pre ++ L) ++ M) ++ w :: post).
  rewrite rd_at, powers10_at by (llia || (unfold DIG_PER_DEC1; lia)); cbn [obind].
  rewrite store_group_be, Ed, be_mask, Z.quot_div_nonneg by (unfold DIG_PER_DEC1; try apply Z.pow_pos_nonneg; lia).
  reflexivity.
Qed.

(** The groups of nine digits of [n] digits, and the digits over. *)
Lemma digits_split n : 0 <= n -> 0 <= n ÷ 9 /\ 0 <= n - n ÷ 9 * 9 <= 8 /\
  round_up n = n ÷ 9 + b2z (n - n ÷ 9 * 9 >? 0).
Proof.
  intros H; rewrite Z.quot_div_nonneg by lia; unfold round_up, DIG_PER_DEC1, b2z.
  rewrite Z.quot_div_nonneg by lia; destruct (Z.gtb_spec (n - n / 9 * 9) 0); dlia.
Qed.

Lemma word_zero : word_ok 0.
Proof. unfold word_ok, digit_ok, DIG_BASE; lia. Qed.

Lemma frac_bytes_zeros M k T n : 0 <= k <= 8 -> zlen T = b2z (k >? 0) ->
  forall F, M ++ T = F ++ repeat 0 n -> zlen F <= zlen M ->
  frac_bytes M k T = enc_words F ++ repeat 0 (Z.to_nat (4 * (zlen M - zlen F) + d2b k)).
Proof.
  intros Hk LT F E LF; destruct (d2b_bounds k) as [Hd _]; [lia|].
  destruct (zsplit (zlen F) M) as (F' & Z & -> & L1 & L2); [pose proof (zlen_nonneg F); lia|].
  rewrite <- app_assoc in E; apply app_eq_len in E as [-> E]; [|exact L1].
  apply app_eq_repeat in E as [EZ ET]; rewrite ET, EZ.
  unfold frac_bytes; rewrite enc_words_app, enc_words_zeros.
  replace (hd 0 (repeat 0 (length T))) with 0 by (destruct T; reflexivity).
  rewrite Z.div_0_l, be_zero, <- app_assoc, <- repeat_app by (apply Z.pow_nonzero; lia).
  do 2 f_equal; rewrite zlen_app, zlen_repeat; unfold zlen in *; lia.
Qed.

(** What [decimal2bin] stores of a fraction [F] of [f] digits in a format of
    [sc] digits, with the zeros after it, are the bytes of the padded
    fraction [MF ++ T]. *)
Section fraction.
Context (f sc : Z) (F MF T : list Z).
Let frac0 := sc ÷ 9.
Let frac0x := sc - frac0 * 9.
Let frac1 := f ÷ 9.
Let frac1x := f - frac1 * 9.
Let fsize0 := frac0 * 4 + d2b frac0x.
Let fsize1 := frac1 * 4 + d2b frac1x.
Hypothesis Hf : 0 <= f <= sc.
Hypothesis LF : zlen F = round_up f.
Hypothesis HF : Forall word_ok F.
Hypothesis LMF : zlen MF = frac0.
Hypothesis GT : group frac0x T.
Hypothesis Epad : MF ++ T = F ++ repeat 0 (Z.to_nat (round_up sc - round_up f)).

Definition frac_stored (g1x lim : Z) (M1 T1 : list Z) : list Z :=
  enc_words M1 ++ if g1x =? 0 then [] else be (Z.to_nat (d2b lim)) (hd 0 T1 / 10 ^ (9 - lim)).

Definition frac_tail (s0 : Z) (st : list Z) : list Z :=
  if s0 >? fsize1 then repeat 0 (Z.to_nat (Z.min (s0 - fsize1) (fsize0 - zlen st))) else [].

Definition frac_done (g1 g1x s0 : Z) : Prop := exists M1 T1, F = M1 ++ T1 /\ zlen M1 = g1 /\ 0 <= g1x /\ group g1x T1 /\
  let lim := if g1 <? frac0 then DIG_PER_DEC1 else frac0x in
  (0 < g1x -> g1x <= lim <= 9 /\ d2b g1x = d2b lim) /\
  frac_stored g1x lim M1 T1 ++ frac_tail s0 (frac_stored g1x lim M1 T1) = frac_bytes MF frac0x T.

Lemma enc_words_zlen ws : Forall word_ok ws -> zlen (enc_words ws) = 4 * zlen ws.
Proof. intros H; apply enc_words_spec, H. Qed.

(** The fraction ends in a whole word of the format. *)
Lemma frac_done_words g1 s0 : g1 = round_up f -> g1 <= frac0 ->
  fsize0 - 4 * g1 <= Z.max 0 (s0 - fsize1) <= fsize0 -> frac_done g1 0 s0.
Proof.
  intros -> Hg Hs; pose proof (digits_split sc) as D0; fold frac0 frac0x in D0.
  destruct (d2b_bounds frac0x) as [Hd _]; [lia|].
  exists F, []; rewrite app_nil_r; split; [reflexivity|]; split; [exact LF|]; split; [lia|].
  split; [split; [reflexivity|apply Forall_nil]|]; split; [lia|].
  unfold frac_stored, frac_tail; cbn [Z.eqb]; rewrite app_nil_r, enc_words_zlen by exact HF.
  rewrite (frac_bytes_zeros MF frac0x T _ ltac:(lia) (proj1 GT) F Epad) by lia; f_equal.
  rewrite LF, LMF; destruct (Z.gtb_spec s0 fsize1); [f_equal; unfold fsize0 in *; lia|].
  replace (Z.to_nat _) with 0%nat by (unfold fsize0 in *; lia); reflexivity.
Qed.

(** It ends in the partial word of the format. *)
Lemma frac_done_partial g1x s0 : round_up f = frac0 + 1 -> 0 < g1x <= frac0x -> d2b g1x = d2b frac0x ->
  s0 <= fsize1 -> frac_done frac0 g1x s0.
Proof.
  intros Hr Hg Ed Hs; pose proof (digits_split sc ltac:(lia)) as D0; fold frac0 frac0x in D0.
  destruct GT as [LT HT]; rewrite (proj2 (Z.gtb_lt frac0x 0)) in * by lia; cbn [b2z] in *.
  replace (round_up sc - round_up f) with 0 in Epad by lia; rewrite app_nil_r in Epad.
  exists MF, T; split; [symmetry; exact Epad|]; split; [exact LMF|]; split; [lia|].
  split; [split; [|exact HT]; rewrite (proj2 (Z.gtb_lt g1x 0)) by lia; exact LT|].
  rewrite Z.ltb_irrefl; split; [lia|]; unfold frac_stored, frac_tail.
  rewrite (proj2 (Z.eqb_neq g1x 0)) by lia; destruct (Z.gtb_spec s0 fsize1); [lia|].
  rewrite app_nil_r; reflexivity.
Qed.

(** Its partial word is a whole word of the format. *)
Lemma frac_done_last s0 : frac0 = frac1 + 1 -> frac0x = 0 -> 0 < frac1x <= 9 -> d2b frac1x = 4 ->
  round_up f = frac1 + 1 -> s0 <= fsize1 -> frac_done frac1 frac1x s0.
Proof.
  intros E0 E0x Hx Ed Hr Hs; pose proof (digits_split sc ltac:(lia)) as D0; fold frac0 frac0x in D0.
  destruct GT as [LT _]; rewrite E0x in *; cbn [Z.gtb Z.compare b2z] in *; rewrite (zlen_zero T LT) in *.
  replace (round_up sc - round_up f) with 0 in Epad by lia; rewrite !app_nil_r in Epad.
  pose proof (digits_split f ltac:(lia)) as D1; fold frac1 frac1x in D1.
  destruct (zlen_last F) as (M1 & l & E); [lia|].
  pose proof LF as LF'; pose proof HF as HF'; rewrite E in LF', HF'; apply Forall_app in HF' as [_ Hl].
  exists M1, [l]; rewrite Epad, E; split; [reflexivity|]; split; [llia|]; split; [lia|].
  split; [split; [rewrite (proj2 (Z.gtb_lt frac1x 0)) by lia; reflexivity|exact Hl]|].
  destruct (Z.ltb_spec frac1 frac0) as [_|]; [|lia]; split; [unfold DIG_PER_DEC1; change (d2b 9) with 4; lia|].
  unfold frac_stored, frac_tail, frac_bytes; destruct (Z.gtb_spec s0 fsize1); [lia|].
  rewrite (proj2 (Z.eqb_neq frac1x 0)) by lia; cbn [hd].
  change (10 ^ (9 - DIG_PER_DEC1)) with 1; rewrite Z.div_1_r, enc_words_app.
  rewrite E0x; change (enc_words [l]) with (be 4 l ++ []); change (d2b DIG_PER_DEC1) with 4.
  change (d2b 0) with 0; cbn [Z.to_nat be]; rewrite !app_nil_r; reflexivity.
Qed.

Lemma frac_store er : exists g1 g1x s0,
  (if fsize0 <? fsize1 then (frac0, frac0x, fsize0, E_DEC_TRUNCATED)
   else if (fsize0 >? fsize1) && negb (frac1x =? 0) then
     if frac0 =? frac1 then (frac1, frac0x, fsize1, er) else (frac1 + 1, 0, fsize0, er)
   else (frac1, frac1x, fsize0, er)) = (g1, g1x, s0, er) /\ frac_done g1 g1x s0.
Proof.
  pose proof (digits_split sc ltac:(lia)) as D0; pose proof (digits_split f ltac:(lia)) as D1.
  fold frac0 frac0x in D0; fold frac1 frac1x in D1.
  destruct (d2b_bounds frac0x) as [Hd0 Ez0]; [lia|]; destruct (d2b_bounds frac1x) as [Hd1 Ez1]; [lia|].
  assert (frac1 < frac0 \/ frac1 = frac0 /\ frac1x <= frac0x) as Hle by (unfold frac0x, frac1x; lia).
  assert (fsize1 <= fsize0).
  { unfold fsize0, fsize1; destruct Hle as [|[E ?]]; [lia|rewrite E].
    pose proof (d2b_mono frac1x frac0x ltac:(lia) ltac:(lia)); lia. }
  destruct (Z.ltb_spec fsize0 fsize1) as [|_]; [lia|].
  destruct (Z.eqb_spec frac1x 0) as [E1|N1]; rewrite ?andb_false_r, ?andb_true_r; cbn [negb].
  { do 3 eexists; split; [reflexivity|]; rewrite E1; unfold b2z in D1; rewrite E1 in D1.
    apply frac_done_words; unfold fsize0, fsize1 in *; rewrite ?E1; change (d2b 0) with 0; cbn in D1; lia. }
  rewrite (proj2 (Z.gtb_lt frac1x 0)) in D1 by lia; cbn [b2z] in D1.
  destruct (Z.gtb_spec fsize0 fsize1); [destruct (Z.eqb_spec frac0 frac1) as [E|N]|];
    do 3 eexists; (split; [reflexivity|]).
  - rewrite <- E; apply frac_done_partial; lia.
  - apply frac_done_words; unfold fsize0, fsize1 in *; lia.
  - destruct Hle as [Hlt|[E ?]]; [apply frac_done_last; unfold fsize0, fsize1 in *; lia|].
    rewrite E; apply frac_done_partial; unfold fsize0, fsize1 in *; lia.
Qed.
End fraction.

(** ** The padded words of a number *)

Definition intg0 (prec sc : Z) : Z := (prec - sc) ÷ 9.
Definition intg0x (prec sc : Z) : Z := prec - sc - intg0 prec sc * 9.
Definition frac0 (sc : Z) : Z := sc ÷ 9.
Definition frac0x (sc : Z) : Z := sc - frac0 sc * 9.

(** The words of a number in the format: the first group, the whole words
    before and after the point, and the last group. *)
Record fmt (prec sc : Z) (L MI MF T : list Z) : Prop := {
  fmt_L : group (intg0x prec sc) L;
  fmt_lead : hd 0 L < 10 ^ intg0x prec sc;
  fmt_MI : zlen MI = intg0 prec sc /\ Forall word_ok MI;
  fmt_MF : zlen MF = frac0 sc /\ Forall word_ok MF;
  fmt_T : group (frac0x sc) T;
  fmt_tail : (10 ^ (9 - frac0x sc) | hd 0 T)
}.

Lemma int_format n I : 0 <= n -> zlen I = round_up n -> Forall word_ok I -> wval I < 10 ^ n ->
  exists L M, I = L ++ M /\ group (n - n ÷ 9 * 9) L /\ hd 0 L < 10 ^ (n - n ÷ 9 * 9) /\
    zlen M = n ÷ 9 /\ Forall word_ok M.
Proof.
  intros Hn LI HI V; pose proof (digits_split n Hn) as D; set (k := n - n ÷ 9 * 9) in *.
  destruct (zsplit (b2z (k >? 0)) I) as (L & M & -> & LL & LM); [unfold b2z in *; destruct (k >? 0); lia|].
  apply Forall_app in HI as [HL HM]; exists L, M; split; [reflexivity|]; split; [split; assumption|].
  split; [|split; [lia|exact HM]].
  destruct (group_cases k L) as [[-> ->]|(_ & w & -> & Hw)]; [lia|split; assumption|cbn; lia|]; cbn [hd].
  rewrite wval_app, (bval_one DIG_BASE) in V; pose proof (wval_bounds M HM).
  replace (10 ^ n) with (10 ^ k * DIG_BASE ^ zlen M) in V
    by (rewrite base_pow, <- Z.pow_add_r by llia; f_equal; unfold k; lia).
  apply (Z.mul_lt_mono_pos_r (DIG_BASE ^ zlen M)); [apply base_pow_pos, zlen_nonneg|lia].
Qed.

Lemma frac_format sc F : 0 <= sc -> zlen F = round_up sc -> Forall word_ok F ->
  (10 ^ (9 * round_up sc - sc) | wval F) ->
  exists M T, F = M ++ T /\ zlen M = sc ÷ 9 /\ Forall word_ok M /\ group (sc - sc ÷ 9 * 9) T /\
    (10 ^ (9 - (sc - sc ÷ 9 * 9)) | hd 0 T).
Proof.
  intros Hn LF HF V; pose proof (digits_split sc Hn) as D; set (k := sc - sc ÷ 9 * 9) in *.
  destruct (zsplit (sc ÷ 9) F) as (M & T & -> & LM & LT); [unfold b2z in *; destruct (k >? 0); lia|].
  apply Forall_app in HF as [HM HT]; exists M, T; do 3 (split; [assumption || reflexivity|]).
  assert (group k T) as G by (split; [lia|exact HT]); split; [exact G|].
  destruct (group_cases k T) as [[-> ->]|(Hk & w & -> & Hw)]; [lia|exact G|apply Z.divide_0_r|]; cbn [hd].
  rewrite (proj2 (Z.gtb_lt k 0)) in D by exact Hk; cbn [b2z] in D.
  replace (9 * round_up sc - sc) with (9 - k) in V by (unfold k in *; lia).
  unfold wval in V; rewrite bval_snoc in V; apply (Z.divide_add_cancel_r _ (bval DIG_BASE M * DIG_BASE)); [|exact V].
  apply Z.divide_mul_r; exists (10 ^ k); rewrite <- Z.pow_add_r by lia.
  replace (k + (9 - k)) with 9 by lia; reflexivity.
Qed.

(** The number fits the format. *)
Definition fits (prec sc : Z) (d : decimal_t) : Prop :=
  0 <= sc <= prec /\ 0 < prec /\ frac d <= sc /\ mant d < 10 ^ (prec - sc + 9 * nfrac d).

Definition pad_words (n : Z) (l : list Z) : list Z := repeat 0 (Z.to_nat (n - zlen l)).

(** The significant words [m] and the fraction [F] of a number, and the words
    of its format. *)
Record stored (prec sc : Z) (d : decimal_t) (p k : Z) (m F R L MI MF T : list Z) : Prop := {
  st_skip : remove_leading_zeroes d = Some (p, k);
  st_buf : buf d = repeat 0 (Z.to_nat p) ++ m ++ F ++ R;
  st_p : 0 <= p;
  st_m : zlen m = round_up k /\ Forall word_ok m;
  st_k : 0 <= k <= prec - sc;
  st_mk : wval m < 10 ^ k;
  st_F : zlen F = nfrac d /\ Forall word_ok F;
  st_fmt : fmt prec sc L MI MF T;
  st_int : L ++ MI = pad_words (round_up (prec - sc)) m ++ m;
  st_frac : MF ++ T = F ++ pad_words (round_up sc) F;
  st_mant : mant d = wval m * DIG_BASE ^ nfrac d + wval F;
  st_val : wval ((L ++ MI) ++ (MF ++ T)) = cut (round_up sc) d
}.

Arguments st_skip {_ _ _ _ _ _ _ _ _ _ _ _} _.
Arguments st_buf {_ _ _ _ _ _ _ _ _ _ _ _} _.
Arguments st_p {_ _ _ _ _ _ _ _ _ _ _ _} _.
Arguments st_m {_ _ _ _ _ _ _ _ _ _ _ _} _.
Arguments st_k {_ _ _ _ _ _ _ _ _ _ _ _} _.
Arguments st_mk {_ _ _ _ _ _ _ _ _ _ _ _} _.
Arguments st_F {_ _ _ _ _ _ _ _ _ _ _ _} _.
Arguments st_fmt {_ _ _ _ _ _ _ _ _ _ _ _} _.
Arguments st_int {_ _ _ _ _ _ _ _ _ _ _ _} _.
Arguments st_frac {_ _ _ _ _ _ _ _ _ _ _ _} _.
Arguments st_mant {_ _ _ _ _ _ _ _ _ _ _ _} _.
Arguments st_val {_ _ _ _ _ _ _ _ _ _ _ _} _.

Lemma round_up_mono a b : 0 <= a <= b -> round_up a <= round_up b.
Proof. unfold round_up, DIG_PER_DEC1; intros H; rewrite !Z.quot_div_nonneg by lia; dlia. Qed.

Lemma frac_divide d I F : wf d -> zlen F = nfrac d -> mant d = wval I * DIG_BASE ^ nfrac d + wval F ->
  (10 ^ (9 * nfrac d - frac d) | wval F).
Proof.
  intros W LF E; pose proof (wf_tail _ W) as D; rewrite E in D; pose proof (nfrac_bounds d W); pose proof (wf_frac _ W).
  apply (Z.divide_add_cancel_r _ (wval I * DIG_BASE ^ nfrac d)); [|exact D].
  rewrite base_pow by lia; apply Z.divide_mul_r; exists (10 ^ frac d); rewrite <- Z.pow_add_r by lia; f_equal; lia.
Qed.

Lemma stored_exists prec sc d : wf d -> fits prec sc d ->
  exists p k m F R L MI MF T, stored prec sc d p k m F R L MI MF T.
Proof.
  intros W (Hs & Hp & Hfr & Hm); destruct (remove_leading_zeroes_spec d W) as (p & k & m & E & EI & P0 & Pm & Lm & Hk & Vm & Bk & Ck).
  destruct (wf_layout d W) as (I & F & R & Eb & LI & LF & Ew & EI' & HI & HF & EM).
  rewrite EI' in EI, Vm; pose proof HI as HI'; rewrite EI in HI'; apply Forall_app in HI' as [_ Hm'].
  rewrite <- Vm in EM; pose proof (wf_frac _ W); pose proof (nfrac_bounds d W) as Hnf; pose proof (base_pow_pos (nfrac d) ltac:(lia)).
  pose proof (round_up_bounds sc ltac:(lia)) as Bsc.
  pose proof (wval_bounds F HF) as BF; pose proof (round_up_mono (frac d) sc ltac:(lia)) as Rf; fold (nfrac d) in Rf.
  assert (wval m < 10 ^ (prec - sc)) as Bm.
  { rewrite EM, Z.pow_add_r, <- base_pow in Hm by lia.
    apply (Z.mul_lt_mono_pos_r (DIG_BASE ^ nfrac d)); lia. }
  assert (k <= prec - sc) as Hkp.
  { destruct (Z.le_gt_cases k 0); [lia|].
    assert (k - 1 < prec - sc); [|lia]; apply (Z.pow_lt_mono_r_iff 10); lia. }
  pose proof (round_up_mono k (prec - sc) ltac:(lia)) as Rk.
  destruct (int_format (prec - sc) (pad_words (round_up (prec - sc)) m ++ m)) as (L & MI & E1 & G1 & H1 & L1 & O1);
    [lia|unfold pad_words; llia|apply Forall_app; split; [apply word_ok_zeros|exact Hm']| |].
  { rewrite wval_app; unfold pad_words; rewrite wval_zeros; lia. }
  assert (wval (F ++ pad_words (round_up sc) F) = wval F * DIG_BASE ^ (round_up sc - nfrac d)) as VF.
  { rewrite wval_app; unfold pad_words; rewrite wval_zeros, zlen_repeat, LF, Z2Nat.id by lia; lia. }
  destruct (frac_format sc (F ++ pad_words (round_up sc) F)) as (MF & T & E2 & L2 & O2 & G2 & D2);
    [lia|unfold pad_words; llia|apply Forall_app; split; [exact HF|apply word_ok_zeros]| |].
  { rewrite VF; apply (Z.divide_trans _ (10 ^ (9 * nfrac d - frac d) * DIG_BASE ^ (round_up sc - nfrac d))).
    - rewrite base_pow, <- Z.pow_add_r by lia; exists (10 ^ (sc - frac d)); rewrite <- Z.pow_add_r by lia; f_equal; lia.
    - apply Z.mul_divide_mono_r, (frac_divide d m F W LF EM). }
  exists p, k, m, F, R, L, MI, MF, T; constructor; try (split; assumption); try assumption;
    [rewrite Eb, EI, <- app_assoc; reflexivity|lia|constructor; auto|auto|auto|].
  rewrite <- E1, <- E2, wval_app, VF, wval_app; unfold pad_words at 1; rewrite wval_zeros, cut_exact, EM by assumption.
  rewrite zlen_app; unfold pad_words; rewrite zlen_repeat, LF, Z2Nat.id by lia.
  rewrite Z.mul_0_l, Z.add_0_l, (Z.pow_add_r _ (nfrac d)) by lia; ring.
Qed.

(** ** What [decimal2bin] writes *)

Definition flip_first (bs : list Z) : list Z := match bs with [] => [] | b :: r => Z.lxor b 128 :: r end.

Definition enc (prec sc : Z) (L MI MF T : list Z) : list Z :=
  int_bytes (intg0x prec sc) L MI ++ frac_bytes MF (frac0x sc) T.

Definition bin_size (prec sc : Z) : Z :=
  (intg0 prec sc * 4 + d2b (intg0x prec sc)) + (frac0 sc * 4 + d2b (frac0x sc)).

Lemma fmt_sizes prec sc : 0 <= sc <= prec ->
  (0 <= intg0 prec sc /\ 0 <= intg0x prec sc <= 8 /\ 0 <= d2b (intg0x prec sc) <= 4) /\
  (0 <= frac0 sc /\ 0 <= frac0x sc <= 8 /\ 0 <= d2b (frac0x sc) <= 4) /\ (0 < prec -> 0 < bin_size prec sc).
Proof.
  intros H; pose proof (digits_split (prec - sc) ltac:(lia)) as D1; pose proof (digits_split sc ltac:(lia)) as D2.
  unfold bin_size, intg0x, frac0x, intg0, frac0 in *.
  destruct (d2b_bounds (prec - sc - (prec - sc) ÷ 9 * 9)) as [B1 Z1]; [lia|].
  destruct (d2b_bounds (sc - sc ÷ 9 * 9)) as [B2 Z2]; [lia|]; lia.
Qed.

Lemma frac_bytes_zlen M k T : 0 <= k <= 9 -> Forall word_ok M -> zlen (frac_bytes M k T) = 4 * zlen M + d2b k.
Proof.
  intros Hk HM; unfold frac_bytes; rewrite zlen_app, be_zlen, enc_words_zlen by exact HM.
  destruct (d2b_bounds k Hk); lia.
Qed.

Lemma enc_key_zlen prec sc L MI MF T : 0 <= sc <= prec -> fmt prec sc L MI MF T ->
  zlen (enc prec sc L MI MF T) = bin_size prec sc.
Proof.
  intros H []; pose proof (fmt_sizes prec sc H) as S; unfold enc, bin_size; rewrite zlen_app.
  destruct (int_bytes_spec (intg0x prec sc) L MI) as (-> & _); try tauto; [lia|].
  rewrite frac_bytes_zlen by (lia || tauto); lia.
Qed.

(** The number that is stored, from where its words are read. *)
Lemma stored_source prec sc d p k m F R L MI MF T : wf d -> neg_zero d = false ->
  stored prec sc d p k m F R L MI MF T ->
  exists pre post i,
    (if k + (frac d ÷ 9 * 4 + d2b (frac d - frac d ÷ 9 * 9)) =? 0 then (0, 1, [0], 0)
     else ((if sign d then -1 else 0), prec - sc, buf d, p))
    = (sign_mask (sign d), i, pre ++ m ++ F ++ post, zlen pre) /\ k <= i.
Proof.
  intros W N S; pose proof (wf_frac _ W) as Hf; pose proof (digits_split (frac d) Hf) as D; pose proof (st_k S).
  destruct (d2b_bounds (frac d - frac d ÷ 9 * 9)) as [Hd Hz]; [lia|].
  destruct (Z.eqb_spec (k + (frac d ÷ 9 * 4 + d2b (frac d - frac d ÷ 9 * 9))) 0) as [E|E].
  - assert (k = 0) as -> by lia; assert (frac d = 0) as Ef by lia.
    destruct (st_m S) as [Lm _]; destruct (st_F S) as [LF _].
    unfold nfrac in LF; rewrite Ef in LF; pose proof (st_mant S) as EM.
    rewrite (zlen_zero m Lm), (zlen_zero F LF) in *; unfold neg_zero in N; rewrite EM in N.
    exists [], [0], 1; cbn in N; rewrite andb_true_r in N; rewrite N; split; [reflexivity|lia].
  - exists (repeat 0 (Z.to_nat p)), R, (prec - sc); split; [|lia].
    rewrite zlen_repeat, Z2Nat.id, (st_buf S) by apply (st_p S); reflexivity.
Qed.

Lemma stored_prefix prec sc s k m L1 M1 MF1 L MI rest : 0 <= sc <= prec -> 0 <= k <= prec - sc -> m = L1 ++ M1 ->
  group (k - k ÷ 9 * 9) L1 -> hd 0 L1 < 10 ^ (k - k ÷ 9 * 9) -> zlen M1 = k ÷ 9 -> Forall word_ok M1 ->
  group (intg0x prec sc) L -> hd 0 L < 10 ^ intg0x prec sc -> zlen MI = intg0 prec sc -> Forall word_ok MI ->
  L ++ MI = pad_words (round_up (prec - sc)) m ++ m ->
  repeat (u8 (sign_mask s)) (Z.to_nat (intg0 prec sc * 4 + d2b (intg0x prec sc) - (k ÷ 9 * 4 + d2b (k - k ÷ 9 * 9))))
    ++ map (inv_byte s) (int_bytes (k - k ÷ 9 * 9) L1 (M1 ++ MF1) ++ rest)
  = map (inv_byte s) (int_bytes (intg0x prec sc) L MI ++ enc_words MF1 ++ rest).
Proof.
  intros Hs Hk -> G1 H1 LM1 HM1 GL HL LMI HMI E; pose proof (fmt_sizes prec sc Hs) as (SI & _ & _).
  pose proof (digits_split k ltac:(lia)) as Dk; destruct (d2b_bounds (k - k ÷ 9 * 9)) as [Bk Zk]; [lia|].
  assert (k ÷ 9 * 4 + d2b (k - k ÷ 9 * 9) <= intg0 prec sc * 4 + d2b (intg0x prec sc)) as Le.
  { assert (k ÷ 9 < intg0 prec sc \/ k ÷ 9 = intg0 prec sc /\ k - k ÷ 9 * 9 <= intg0x prec sc) as [|[E' ?]]
      by (unfold intg0x in *; lia); [lia|rewrite E' in *].
    pose proof (d2b_mono (k - intg0 prec sc * 9) (intg0x prec sc) ltac:(lia) ltac:(lia)); lia. }
  rewrite (int_bytes_pad (intg0x prec sc) L MI (k - k ÷ 9 * 9) L1 M1 _) by (eassumption || lia).
  unfold int_bytes; rewrite inv_byte_zero, enc_words_app, !map_app, map_repeat, <- !app_assoc, LMI, LM1.
  do 2 f_equal; lia.
Qed.

Lemma stored_suffix prec sc s f s0 L MI MF T st : 0 <= sc <= prec -> fmt prec sc L MI MF T ->
  st ++ frac_tail f sc s0 st = frac_bytes MF (frac0x sc) T ->
  forall to, to = map (inv_byte s) (int_bytes (intg0x prec sc) L MI ++ st) ->
  (if s0 >? f ÷ 9 * 4 + d2b (f - f ÷ 9 * 9)
   then to ++ repeat (u8 (sign_mask s)) (Z.to_nat (Z.min (s0 - (f ÷ 9 * 4 + d2b (f - f ÷ 9 * 9)))
          (frac0 sc * 4 + d2b (frac0x sc) + (intg0 prec sc * 4 + d2b (intg0x prec sc)) - zlen to)))
   else to)
  = map (inv_byte s) (enc prec sc L MI MF T).
Proof.
  intros Hs Fm Est to Et; pose proof (fmt_sizes prec sc Hs) as (SI & _ & _).
  destruct Fm as [GL HL [LMI HMI] _ _ _].
  destruct (int_bytes_spec (intg0x prec sc) L MI) as (LI & _); [lia|assumption..|].
  assert (zlen to = d2b (intg0x prec sc) + 4 * intg0 prec sc + zlen st) as ->.
  { rewrite Et, <- LMI, <- LI, <- zlen_app; unfold zlen; rewrite length_map; reflexivity. }
  unfold enc; rewrite <- Est, app_assoc, map_app, <- Et; unfold frac_tail; fold (frac0 sc) (frac0x sc).
  destruct (Z.gtb_spec s0 (f ÷ 9 * 4 + d2b (f - f ÷ 9 * 9))); [|symmetry; apply app_nil_r].
  rewrite map_repeat, inv_byte_zero; do 2 f_equal; lia.
Qed.

Lemma decimal2bin_eq prec sc d p k m F R L MI MF T : wf d -> neg_zero d = false -> fits prec sc d ->
  stored prec sc d p k m F R L MI MF T ->
  decimal2bin d prec sc = Some (E_DEC_OK, flip_first (map (inv_byte (sign d)) (enc prec sc L MI MF T))).
Proof.
  intros W N (Hs & Hp & Hfr & _) S; pose proof (fmt_sizes prec sc Hs) as (SI & SF & SB); specialize (SB Hp).
  pose proof (wf_frac _ W) as Hf; pose proof (digits_split (frac d) Hf) as Df.
  pose proof (st_k S) as Hk; pose proof (digits_split k (proj1 Hk)) as Dk; destruct (st_m S) as [Lm Hm]; destruct (st_F S) as [LF HF].
  destruct (st_fmt S) as [GL HL [LMI HMI] [LMF HMF] GT HT].
  destruct (int_format k m (proj1 Hk) Lm Hm (st_mk S)) as (L1 & M1 & Em & G1 & H1 & LM1 & HM1).
  destruct (stored_source _ _ _ _ _ _ _ _ _ _ _ _ W N S) as (pre & post & i & Ei & Hi).
  unfold decimal2bin; change DIG_PER_DEC1 with 9.
  fold (intg0 prec sc) (frac0 sc); fold (intg0x prec sc) (frac0x sc).
  rewrite !d2b_at by lia; cbn [obind]; rewrite (st_skip S); cbn [obind]; rewrite Ei.
  rewrite d2b_at by lia; cbn [obind]; destruct (Z.ltb_spec i k) as [|_]; [lia|].
  destruct (frac_store (frac d) sc F MF T ltac:(lia) LF HF LMF GT (eq_trans (st_frac S) ltac:(unfold pad_words; rewrite LF; reflexivity)) E_DEC_OK)
    as (g1 & g1x & s0 & Eg & MF1 & T1 & EF & LMF1 & Hg1x & GT1 & Hlim & Est).
  fold (frac0 sc) in *; fold (frac0x sc) in *; rewrite Eg; clear Eg; rewrite Em, EF.
  set (lim := if g1 <? frac0 sc then DIG_PER_DEC1 else frac0x sc) in *; set (st := frac_stored g1x lim MF1 T1) in *.
  regroup (pre ++ (L1 ++ M1) ++ (MF1 ++ T1) ++ post) (pre ++ L1 ++ (M1 ++ MF1) ++ T1 ++ post).
  rewrite (store_digits_eq pre L1 (M1 ++ MF1) T1 post (sign d) _ _ _ _ _ _ _ lim)
    by (solve [assumption|reflexivity|llia]).
  cbn [obind]; rewrite stored_prefix with (L := L) (MI := MI) (prec := prec) (sc := sc) (m := m);
    [|solve [assumption|exact (st_int S)]..].
  fold (frac_stored g1x lim MF1 T1); fold st; rewrite (stored_suffix prec sc _ _ _ L MI MF T st Hs (st_fmt S) Est _ eq_refl).
  destruct (enc prec sc L MI MF T) as [|b0 bs] eqn:Ee;
    [pose proof (enc_key_zlen prec sc L MI MF T Hs (st_fmt S)) as LE; rewrite Ee in LE; change (zlen (@nil Z)) with 0 in LE; lia|].
  cbn [map]; rewrite rd_0; cbn [obind]; rewrite wr_0; cbn [obind].
  pose proof (enc_key_zlen prec sc L MI MF T Hs (st_fmt S)) as LE; rewrite Ee in LE.
  rewrite (proj2 (Z.eqb_eq _ _)); [reflexivity|]; unfold bin_size in LE; rewrite zlen_cons in *; unfold zlen in *.
  rewrite length_map; lia.
Qed.

(** ** The order of the stored numbers *)

(** Digits are ordered the same way in every base that has them. *)
Lemma bval_compare b c l : 1 < b -> 1 < c -> Forall (digit_ok b) l -> Forall (digit_ok c) l ->
  forall l', Forall (digit_ok b) l' -> Forall (digit_ok c) l' -> zlen l = zlen l' ->
  (bval b l ?= bval b l') = (bval c l ?= bval c l').
Proof.
  intros Hb Hc Ob; induction Ob as [|x l Hx Ob IH]; intros Oc [|x' l'] Ob' Oc' L; try (exfalso; llia); [reflexivity|].
  inversion_clear Oc; inversion_clear Ob'; inversion_clear Oc'; rewrite !bval_cons.
  assert (zlen l = zlen l') as E by llia.
  rewrite <- E, !compare_split by (apply bval_bounds || (rewrite E; apply bval_bounds); assumption).
  rewrite (IH ltac:(assumption) l') by assumption; reflexivity.
Qed.

Lemma frac_bytes_spec k M T : 0 <= k <= 9 -> Forall word_ok M -> group k T ->
  Forall byte_ok (frac_bytes M k T) /\
  0 <= hd 0 T / 10 ^ (9 - k) < 256 ^ d2b k /\
  byval (frac_bytes M k T) = bval 4294967296 M * 256 ^ d2b k + hd 0 T / 10 ^ (9 - k).
Proof.
  intros Hk HM G; unfold frac_bytes; destruct (enc_words_spec M HM) as (LM & OM & VM).
  destruct (d2b_bounds k Hk) as [Hd _]; pose proof (pow10_bytes k Hk).
  assert (0 <= hd 0 T / 10 ^ (9 - k) < 256 ^ d2b k) as B.
  { pose proof (Z.pow_pos_nonneg 10 (9 - k)); pose proof (Z.pow_pos_nonneg 10 k).
    destruct (group_cases k T (proj1 Hk) G) as [[-> ->]|(_ & w & -> & Hw)]; [vm_compute; split; [discriminate|reflexivity]|].
    cbn [hd]; unfold word_ok, digit_ok in Hw; split; [apply Z.div_pos; lia|].
    apply Z.lt_le_trans with (10 ^ k); [|lia]; apply Z.div_lt_upper_bound; [lia|].
    rewrite <- Z.pow_add_r by lia; replace (9 - k + k) with 9 by lia; apply Hw. }
  split; [apply Forall_app; split; [exact OM|apply be_ok]|split; [exact B|]].
  unfold byval; rewrite bval_app; fold byval; rewrite VM, be_zlen, be_val, Z2Nat.id by (rewrite ?Z2Nat.id; lia); reflexivity.
Qed.

(** The value of the bytes: the whole words in base 2^32. *)
Lemma enc_spec prec sc L MI MF T : 0 <= sc <= prec -> fmt prec sc L MI MF T ->
  Forall byte_ok (enc prec sc L MI MF T) /\
  byval (enc prec sc L MI MF T)
  = bval 4294967296 ((L ++ MI) ++ MF) * 256 ^ d2b (frac0x sc) + hd 0 T / 10 ^ (9 - frac0x sc).
Proof.
  intros Hs [GL HL [LMI HMI] [LMF HMF] GT HT]; pose proof (fmt_sizes prec sc Hs) as (SI & SF & _).
  destruct (int_bytes_spec (intg0x prec sc) L MI) as (LI & OI & VI); [lia|assumption..|].
  destruct (frac_bytes_spec (frac0x sc) MF T) as (OF & B & VF); [lia|assumption..|].
  unfold enc; split; [apply Forall_app; auto|]; unfold byval; rewrite bval_app; fold byval.
  rewrite VI, VF, frac_bytes_zlen, LMF, (bval_app _ (L ++ MI) MF) by (lia || assumption).
  rewrite LMF, Z.pow_add_r, (Z.pow_mul_r 256 4) by lia; change (256 ^ 4) with 4294967296; ring.
Qed.

Lemma word_32 l : Forall word_ok l -> Forall (digit_ok 4294967296) l.
Proof. apply Forall_impl; unfold word_ok, digit_ok, DIG_BASE; lia. Qed.

Lemma tail_compare k T T' : 0 <= k <= 9 -> group k T -> group k T' ->
  (10 ^ (9 - k) | hd 0 T) -> (10 ^ (9 - k) | hd 0 T') ->
  (hd 0 T / 10 ^ (9 - k) ?= hd 0 T' / 10 ^ (9 - k)) = (wval T ?= wval T').
Proof.
  intros Hk G G' [u E] [u' E']; pose proof (Z.pow_pos_nonneg 10 (9 - k) ltac:(lia) ltac:(lia)).
  rewrite E, E', !Z.div_mul by lia.
  destruct (group_cases k T (proj1 Hk) G) as [[-> ->]|(? & w & -> & Hw)];
    destruct (group_cases _ T' (proj1 Hk) G') as [[? ->]|(? & w' & -> & Hw')]; try lia.
  - cbn in E, E'; replace u with 0 by lia; replace u' with 0 by lia; reflexivity.
  - unfold wval; rewrite !bval_one; cbn [hd] in E, E'; rewrite E, E'; apply Zmult_compare_compat_r; lia.
Qed.

Lemma enc_compare prec sc L MI MF T L' MI' MF' T' : 0 <= sc <= prec -> fmt prec sc L MI MF T -> fmt prec sc L' MI' MF' T' ->
  (byval (enc prec sc L MI MF T) ?= byval (enc prec sc L' MI' MF' T'))
  = (wval ((L ++ MI) ++ (MF ++ T)) ?= wval ((L' ++ MI') ++ (MF' ++ T'))).
Proof.
  intros Hs Fm Fm'; destruct (enc_spec prec sc _ _ _ _ Hs Fm) as (_ & ->); destruct (enc_spec prec sc _ _ _ _ Hs Fm') as (_ & ->).
  destruct Fm as [[LL GL] HL [LMI HMI] [LMF HMF] GT HT], Fm' as [[LL' GL'] HL' [LMI' HMI'] [LMF' HMF'] GT' HT'].
  pose proof (fmt_sizes prec sc Hs) as (SI & SF & _).
  destruct (frac_bytes_spec (frac0x sc) MF T) as (_ & B & _); [lia|assumption..|].
  destruct (frac_bytes_spec (frac0x sc) MF' T') as (_ & B' & _); [lia|assumption..|].
  rewrite compare_split by assumption; rewrite !app_assoc, !(wval_app (_ ++ _)).
  rewrite (proj1 GT), (proj1 GT'), compare_split by (first [rewrite <- (proj1 GT); apply wval_bounds, GT|rewrite <- (proj1 GT'); apply wval_bounds, GT']).
  rewrite <- !wval_app, (bval_compare 4294967296 DIG_BASE) by
    first [lia|reflexivity|autorewrite with zlen; lia|repeat (apply Forall_app; split); auto using word_32].
  fold wval; rewrite (tail_compare (frac0x sc) T T') by (lia || assumption); reflexivity.
Qed.

(** A group of [k] digits leaves the first bit of its bytes clear. *)
Lemma be_top k x : 1 <= k <= 9 -> 0 <= x < 10 ^ k ->
  exists b r, be (Z.to_nat (d2b k)) x = b :: r /\ 0 <= b < 128.
Proof.
  intros Hk Hx; pose proof (d2b_room k Hk) as R; destruct (d2b_bounds k) as [Hd Hz]; [lia|].
  destruct (be_spec (Z.to_nat (d2b k)) x) as (L & O & _).
  pose proof (be_val (Z.to_nat (d2b k)) x) as V; rewrite Z2Nat.id in L, V by lia.
  specialize (V ltac:(pose proof (pow10_bytes k ltac:(lia)); lia)).
  destruct (be (Z.to_nat (d2b k)) x) as [|b r]; [exfalso; llia|]; exists b, r; split; [reflexivity|].
  inversion_clear O as [|? ? Hb Hr]; unfold byval in V; rewrite bval_cons in V; unfold byte_ok, digit_ok in Hb.
  pose proof (bval_bounds 256 ltac:(lia) r Hr); split; [lia|].
  replace (zlen r) with (d2b k - 1) in * by llia.
  apply (Z.mul_lt_mono_pos_r (256 ^ (d2b k - 1))); [apply Z.pow_pos_nonneg; lia|lia].
Qed.

Lemma word_top w : word_ok w -> exists b r, be 4 w = b :: r /\ 0 <= b < 128.
Proof. intros H; apply (be_top 9 w); [lia|exact H]. Qed.

Lemma words_top M : Forall word_ok M -> 0 < zlen M -> exists b r, enc_words M = b :: r /\ 0 <= b < 128.
Proof.
  intros [|w M' Hw _] H; [cbv in H; discriminate|]; destruct (word_top w Hw) as (b & r & E & Hb).
  unfold enc_words; cbn [map concat]; rewrite E; exists b, (r ++ enc_words M'); auto.
Qed.

Lemma top_app l l' : (exists b r, l = b :: r /\ 0 <= b < 128) -> exists b r, l ++ l' = b :: r /\ 0 <= b < 128.
Proof. intros (b & r & -> & Hb); exists b, (r ++ l'); auto. Qed.

Lemma enc_top prec sc L MI MF T : 0 <= sc <= prec -> 0 < prec -> fmt prec sc L MI MF T ->
  exists b r, enc prec sc L MI MF T = b :: r /\ 0 <= b < 128.
Proof.
  intros Hs Hp [GL HL [LMI HMI] [LMF HMF] GT HT]; pose proof (fmt_sizes prec sc Hs) as (SI & SF & _).
  unfold enc, int_bytes, frac_bytes; rewrite <- app_assoc.
  destruct (group_cases _ L (proj1 (proj1 (proj2 SI))) GL) as [[E ->]|(Hk & w & -> & Hw)].
  2: { apply top_app, be_top; [lia|]; unfold word_ok, digit_ok in Hw; cbn [hd] in *; lia. }
  rewrite E; change (be (Z.to_nat (d2b 0)) (hd 0 [])) with (@nil Z); cbn [app].
  destruct (Z.lt_ge_cases 0 (zlen MI)) as [?|N]; [apply top_app, words_top; assumption|].
  assert (MI = []) as -> by (apply zlen_zero; pose proof (zlen_nonneg MI); lia); change (enc_words []) with (@nil Z); cbn [app].
  destruct (Z.lt_ge_cases 0 (zlen MF)) as [?|N']; [apply top_app, words_top; assumption|].
  assert (MF = []) as -> by (apply zlen_zero; pose proof (zlen_nonneg MF); lia); change (enc_words []) with (@nil Z); cbn [app].
  change (zlen []) with 0 in *; unfold intg0x, frac0x in *; apply be_top; [lia|].
  destruct (group_cases _ T (proj1 (proj1 (proj2 SF))) GT) as [[? ->]|(Hk & w & -> & Hw)]; [lia|]; cbn [hd].
  unfold word_ok, digit_ok in Hw; pose proof (Z.pow_pos_nonneg 10 (9 - (sc - frac0 sc * 9)) ltac:(lia) ltac:(lia)).
  split; [apply Z.div_pos; lia|apply Z.div_lt_upper_bound; [lia|]].
  rewrite <- Z.pow_add_r by lia; replace (9 - _ + _) with 9 by lia; apply Hw.
Qed.

(** The first bit is the sign: the value of the stored bytes. *)
Definition key_value (n : Z) (s : bool) (V : Z) : Z :=
  if s then 128 * 256 ^ (n - 1) - 1 - V else 128 * 256 ^ (n - 1) + V.

Lemma inv_bytes s l : Forall byte_ok l -> Forall byte_ok (map (inv_byte s) l) /\
  byval (map (inv_byte s) l) = if s then 256 ^ zlen l - 1 - byval l else byval l.
Proof.
  destruct s; [|rewrite map_id; auto]; unfold byval, byte_ok, digit_ok.
  induction 1 as [|x l Hx _ [IH1 IH2]]; [split; [apply Forall_nil|reflexivity]|]; cbn [map inv_byte].
  split; [apply Forall_cons; [lia|exact IH1]|]; rewrite !bval_cons, IH2.
  replace (zlen (map (inv_byte true) l)) with (zlen l) by (unfold zlen; rewrite length_map; reflexivity).
  rewrite zlen_cons, Z.pow_add_r, Z.pow_1_r by llia; lia.
Qed.

Lemma lxor_128 b : 0 <= b < 256 -> Z.lxor b 128 = if b <? 128 then b + 128 else b - 128.
Proof.
  intros H; apply Z.eqb_eq, (byte_all (fun b => Z.lxor b 128 =? if b <? 128 then b + 128 else b - 128)); [vm_compute; reflexivity|exact H].
Qed.

Lemma key_spec s b r : 0 <= b < 128 -> Forall byte_ok r ->
  let key := flip_first (map (inv_byte s) (b :: r)) in
  Forall byte_ok key /\ zlen key = zlen r + 1 /\ byval key = key_value (zlen r + 1) s (byval (b :: r)).
Proof.
  intros Hb Hr; destruct (inv_bytes s r Hr) as [O V]; cbn [map flip_first].
  rewrite lxor_128 by (destruct s; cbn [inv_byte]; lia); set (c := if _ <? _ then _ else _).
  assert (c = if s then 127 - b else 128 + b) as Ec by (unfold c, inv_byte; case_if; destruct s; lia).
  unfold byval in *; rewrite !bval_cons, V.
  replace (zlen (map (inv_byte s) r)) with (zlen r) by (unfold zlen; rewrite length_map; reflexivity).
  split; [apply Forall_cons; [unfold byte_ok, digit_ok; destruct s; lia|exact O]|].
  split; [rewrite zlen_cons; unfold zlen; rewrite length_map; reflexivity|].
  unfold key_value; replace (zlen r + 1 - 1) with (zlen r) by lia; rewrite Ec; destruct s; lia.
Qed.

Lemma decimal2bin_key prec sc d : wf d -> neg_zero d = false -> fits prec sc d ->
  exists key L MI MF T, decimal2bin d prec sc = Some (E_DEC_OK, key) /\ fmt prec sc L MI MF T /\
    key = flip_first (map (inv_byte (sign d)) (enc prec sc L MI MF T)) /\
    wval ((L ++ MI) ++ (MF ++ T)) = cut (round_up sc) d /\
    Forall byte_ok key /\ zlen key = bin_size prec sc /\
    byval key = key_value (bin_size prec sc) (sign d) (byval (enc prec sc L MI MF T)).
Proof.
  intros W N Ft; destruct (stored_exists prec sc d W Ft) as (p & k & m & F & R & L & MI & MF & T & S).
  eexists; exists L, MI, MF, T; split; [exact (decimal2bin_eq _ _ _ _ _ _ _ _ _ _ _ _ W N Ft S)|].
  split; [exact (st_fmt S)|split; [reflexivity|split; [exact (st_val S)|]]].
  destruct Ft as (Hs & Hp & _); pose proof (enc_key_zlen prec sc _ _ _ _ Hs (st_fmt S)) as LE.
  destruct (enc_spec prec sc _ _ _ _ Hs (st_fmt S)) as [O _].
  destruct (enc_top prec sc _ _ _ _ Hs Hp (st_fmt S)) as (b & r & E & Hb); rewrite E in *.
  inversion_clear O as [|? ? _ Hr]; destruct (key_spec (sign d) b r Hb Hr) as (K1 & K2 & K3).
  rewrite zlen_cons in LE; rewrite <- LE; auto.
Qed.

(** The order of two keys from the order of the numbers without sign. *)
Lemma key_compare n (s s' : bool) V V' C C' : 0 <= n -> (V ?= V') = (C ?= C') -> 0 <= V -> 0 <= V' ->
  (s = true -> 0 < C) -> (s' = true -> 0 < C') -> 0 <= C -> 0 <= C' ->
  (key_value n s V ?= key_value n s' V') = (signed s C ?= signed s' C').
Proof.
  intros Hn E HV HV' Hs Hs' HC HC'; unfold key_value, signed; destruct s, s'.
  - rewrite Z.compare_opp, (Z.compare_antisym C C'), <- E, <- Z.compare_antisym.
    destruct (Z.compare_spec V' V); [apply Z.compare_eq_iff|apply Z.compare_lt_iff|apply Z.compare_gt_iff]; lia.
  - rewrite (proj2 (Z.compare_lt_iff _ _)) by lia; symmetry; apply Z.compare_lt_iff; lia.
  - rewrite (proj2 (Z.compare_gt_iff _ _)) by lia; symmetry; apply Z.compare_gt_iff; lia.
  - rewrite <- E; destruct (Z.compare_spec V V'); [apply Z.compare_eq_iff|apply Z.compare_lt_iff|apply Z.compare_gt_iff]; lia.
Qed.

Lemma bin_size_eq prec sc : 0 <= sc <= prec -> 0 < prec -> decimal_bin_size prec sc = Some (bin_size prec sc).
Proof.
  intros Hs Hp; pose proof (fmt_sizes prec sc Hs) as (SI & SF & _); unfold decimal_bin_size; change DIG_PER_DEC1 with 9.
  fold (intg0 prec sc) (frac0 sc); fold (intg0x prec sc) (frac0x sc).
  rewrite !d2b_at by lia; cbn [obind].
  destruct (Z.leb_spec 0 sc), (Z.ltb_spec 0 prec), (Z.leb_spec sc prec); try lia; cbn [andb].
  unfold bin_size; f_equal; lia.
Qed.

Lemma nfrac_mono d sc : wf d -> frac d <= sc -> nfrac d <= round_up sc.
Proof. intros W H; pose proof (wf_frac _ W); apply round_up_mono; lia. Qed.

(** C13. The stored forms of two decimals that fit the format, and of which none is
    a zero with a minus sign, have the size of the format, and [memcmp] orders
    them as the numbers are ordered. *)
Theorem decimal2bin_order prec sc a b : wf a -> wf b -> neg_zero a = false -> neg_zero b = false ->
  fits prec sc a -> fits prec sc b ->
  exists ka kb, decimal2bin a prec sc = Some (E_DEC_OK, ka) /\ decimal2bin b prec sc = Some (E_DEC_OK, kb) /\
    decimal_bin_size prec sc = Some (zlen ka) /\ zlen kb = zlen ka /\
    memcmp ka kb = (dec_Q a ?= dec_Q b)%Q.
Proof.
  intros Wa Wb Na Nb Fa Fb.
  destruct (decimal2bin_key prec sc a Wa Na Fa) as (ka & L & MI & MF & T & Ea & Ma & _ & Ca & Oa & La & Va).
  destruct (decimal2bin_key prec sc b Wb Nb Fb) as (kb & L' & MI' & MF' & T' & Eb & Mb & _ & Cb & Ob & Lb & Vb).
  exists ka, kb; split; [exact Ea|split; [exact Eb|split; [|split; [lia|]]]].
  - rewrite La; apply bin_size_eq; apply Fa.
  - destruct Fa as (Hs & Hp & Fa & _), Fb as (_ & _ & Fb & _).
    pose proof (nfrac_mono a sc Wa Fa) as Ha; pose proof (nfrac_mono b sc Wb Fb) as Hb.
    rewrite memcmp_value by (assumption || lia); fold byval; rewrite Va, Vb, (dec_Q_compare a b (round_up sc)) by (assumption || lia); unfold scaled.
    pose proof (fmt_sizes prec sc Hs) as (_ & _ & SB); pose proof (nfrac_bounds a Wa); pose proof (nfrac_bounds b Wb).
    apply key_compare; auto using cut_pos, cut_nonneg; try lia.
    + rewrite enc_compare, Ca, Cb by assumption; reflexivity.
    + apply (bval_bounds 256); [lia|apply enc_spec; assumption].
    + apply (bval_bounds 256); [lia|apply enc_spec; assumption].
    + apply cut_nonneg; [assumption|lia].
    + apply cut_nonneg; [assumption|lia].
Qed.

Lemma decimal2bin_order_witness : exists ka kb,
  decimal2bin ex_a 30 15 = Some (E_DEC_OK, ka) /\ decimal2bin ex_b 30 15 = Some (E_DEC_OK, kb) /\
  decimal_bin_size 30 15 = Some (zlen ka) /\ zlen kb = zlen ka /\
  memcmp ka kb = (dec_Q ex_a ?= dec_Q ex_b)%Q.
Proof.
  apply (decimal2bin_order 30 15 ex_a ex_b);
    [apply wf_b_correct; vm_compute; reflexivity|apply wf_b_correct; vm_compute; reflexivity
    |vm_compute; reflexivity|vm_compute; reflexivity
    |unfold fits; repeat split; vm_compute; (reflexivity || discriminate)..].
Defined.
