(* ===== verification/DecLoad.v ===== *)
(** Reading the binary format of decimals: what [bin2decimal] of
    [src/drizzled/type/decimal.cc] makes of the bytes that [decimal2bin]
    wrote, and the round trip of the two. *)

From Stdlib Require Import ZArith Lia ZifyBool List Bool QArith.
From S2P Require Import Prelude Words Decimal DecArith DecSub DecBin DecKey.
Import ListNotations.
Local Open Scope Z_scope.
Local Open Scope fail_scope.

(** ** Reading *)

Lemma land_128 b : 0 <= b < 256 -> Z.land b 128 = if b <? 128 then 0 else 128.
Proof.
  intros H; apply Z.eqb_eq, (byte_all (fun b => Z.land b 128 =? if b <? 128 then 0 else 128)); [vm_compute; reflexivity|exact H].
Qed.

Lemma lor_bytes a a1 a2 : byte_ok a1 -> byte_ok a2 ->
  Z.lor (Z.lor (a * 2 ^ 16) (a1 * 2 ^ 8)) a2 = a * 65536 + a1 * 256 + a2.
Proof.
  unfold byte_ok, digit_ok; intros H1 H2; rewrite (lor_add a 16) by (pows; lia).
  replace (a * 2 ^ 16 + a1 * 2 ^ 8) with ((a * 256 + a1) * 2 ^ 8) by (pows; lia).
  rewrite lor_add by (pows; lia); pows; lia.
Qed.

Lemma mi_sint3korr_eq a0 a1 a2 : byte_ok a0 -> byte_ok a1 -> byte_ok a2 ->
  mi_sint3korr a0 a1 a2 = swrap 24 (a0 * 65536 + a1 * 256 + a2).
Proof.
  intros H0 H1 H2; pose proof H1 as B1; pose proof H2 as B2; unfold byte_ok, digit_ok in H0, B1, B2.
  unfold mi_sint3korr; rewrite !Z.shiftl_mul_pow2, land_128 by lia.
  destruct (Z.ltb_spec a0 128); cbn [Z.eqb negb].
  - rewrite lor_bytes by assumption; unfold i32, swrap; pows; dlia.
  - rewrite (lor_add 255 24) by (pows; lia).
    replace (255 * 2 ^ 24 + a0 * 2 ^ 16) with ((65280 + a0) * 2 ^ 16) by (pows; lia).
    rewrite lor_bytes by assumption; unfold i32, swrap; pows; dlia.
Qed.

Lemma mod_byte x : byte_ok (x mod 256).
Proof. apply Z.mod_pos_bound; lia. Qed.

Lemma rd_next pre l post i : forall k, i = zlen pre + k -> 0 <= k < zlen l ->
  rd (pre ++ l ++ post) i = Some (nth (Z.to_nat k) l 0).
Proof.
  intros k -> H; unfold rd; pose proof (zlen_nonneg pre); destruct (Z.ltb_spec (zlen pre + k) 0); [lia|].
  unfold zlen in *; rewrite nth_error_app2, nth_error_app1 by lia.
  replace (Z.to_nat _ - _)%nat with (Z.to_nat k) by lia; apply nth_error_nth'; lia.
Qed.

Lemma load_group_be n x pre post : 1 <= n <= 4 -> - (128 * 256 ^ (n - 1)) <= x < 128 * 256 ^ (n - 1) ->
  load_group n (pre ++ be (Z.to_nat n) x ++ post) (zlen pre) = Some x.
Proof.
  intros Hn Hx; assert (n = 1 \/ n = 2 \/ n = 3 \/ n = 4) as C by lia; unfold load_group.
  decompose [or] C; clear C; subst n; cbn [Z.to_nat Pos.to_nat Pos.iter_op Nat.add] in *;
    rewrite (rd_next pre _ post _ 0) by (rewrite ?be_zlen; lia);
    rewrite ?(rd_next pre _ post (zlen pre + 1) 1), ?(rd_next pre _ post (zlen pre + 2) 2),
            ?(rd_next pre _ post (zlen pre + 3) 3) by (rewrite ?be_zlen; lia);
    revert Hx; pows; intros Hx.
  - change (Some (mi_sint1korr (x mod 256)) = Some x); f_equal; unfold mi_sint1korr, swrap; pows; dlia.
  - change (Some (mi_sint2korr ((x / 256) mod 256) (x mod 256)) = Some x); f_equal.
    unfold mi_sint2korr, swrap; rewrite Z.shiftl_mul_pow2 by lia; pows; dlia.
  - change (Some (mi_sint3korr ((x / 256 / 256) mod 256) ((x / 256) mod 256) (x mod 256)) = Some x); f_equal.
    rewrite mi_sint3korr_eq by apply mod_byte; unfold swrap; pows; dlia.
  - change (Some (mi_sint4korr ((x / 256 / 256 / 256) mod 256) ((x / 256 / 256) mod 256) ((x / 256) mod 256) (x mod 256)) = Some x); f_equal.
    unfold mi_sint4korr, i32, swrap; rewrite !Z.shiftl_mul_pow2 by lia; pows; dlia.
Qed.

(** A group is read back from its bytes. *)
Lemma load_key k s v pre post : 1 <= k <= 9 -> 0 <= v < 10 ^ k ->
  exists x, load_group (d2b k) (pre ++ map (inv_byte s) (be (Z.to_nat (d2b k)) v) ++ post) (zlen pre) = Some x /\
    Z.lxor x (sign_mask s) = v.
Proof.
  intros Hk Hv; pose proof (d2b_room k Hk); destruct (d2b_bounds k) as [Hd Hz]; [lia|].
  exists (Z.lxor v (sign_mask s)); rewrite <- be_mask; split.
  - apply load_group_be; [lia|]; rewrite lxor_mask; destruct s; lia.
  - rewrite Z.lxor_assoc, Z.lxor_nilpotent; apply Z.lxor_0_r.
Qed.

Lemma load_word s v pre post : word_ok v ->
  exists x, load_group 4 (pre ++ map (inv_byte s) (be 4 v) ++ post) (zlen pre) = Some x /\
    Z.lxor x (sign_mask s) = v.
Proof. intros H; apply (load_key 9); [lia|exact H]. Qed.

Lemma word_wraps v : word_ok v -> u32 v = v /\ u64 v = v /\ (v >? DIG_MAX) = false.
Proof.
  unfold word_ok, digit_ok, DIG_MAX, DIG_BASE, u32, u64, wrap; intros H; pows.
  rewrite !Z.mod_small, Z.gtb_ltb by lia; repeat split; lia.
Qed.

Lemma enc_words_split s w ws pre post :
  pre ++ map (inv_byte s) (enc_words (w :: ws)) ++ post
  = pre ++ map (inv_byte s) (be 4 w) ++ map (inv_byte s) (enc_words ws) ++ post /\
  pre ++ map (inv_byte s) (enc_words (w :: ws)) ++ post
  = (pre ++ map (inv_byte s) (be 4 w)) ++ map (inv_byte s) (enc_words ws) ++ post.
Proof.
  change (enc_words (w :: ws)) with (be 4 w ++ enc_words ws); rewrite map_app, <- !app_assoc; auto.
Qed.

Lemma zlen_map {A B} (f : A -> B) l : zlen (map f l) = zlen l.
Proof. unfold zlen; rewrite length_map; reflexivity. Qed.

Lemma same_positions {A} (t t' : A) (p p' q q' i i' : Z) : t = t' -> p = p' -> q = q' -> i = i' ->
  Some (t, Some (p, q, i)) = Some (t', Some (p', q', i')).
Proof. intros -> -> -> ->; reflexivity. Qed.

(** The same buffer and the same positions. *)
Ltac same_state :=
  apply same_positions; [reflexivity|autorewrite with zlen; rewrite ?zlen_map, ?be_zlen; lia..].

(** The whole words of the integer part: zeros before the first digit are
    skipped. *)
Lemma load_int_eq s n : forall ws sig junk pre post intg, zlen ws = Z.of_nat n -> Forall word_ok ws ->
  zlen ws <= zlen junk ->
  exists z ws' junk', ws = repeat 0 z ++ ws' /\ (sig <> [] -> z = O) /\
    zlen (sig ++ ws' ++ junk') = zlen (sig ++ junk) /\
    load_int n (pre ++ map (inv_byte s) (enc_words ws) ++ post) (sig ++ junk) (zlen sig) (zlen pre) intg (sign_mask s)
    = Some ((sig ++ ws') ++ junk', Some (zlen (sig ++ ws'), zlen pre + 4 * zlen ws, intg - 9 * Z.of_nat z)).
Proof.
  induction n as [|n IH]; intros ws sig junk pre post intg L Hw Lj.
  - rewrite (zlen_zero ws) by lia; exists O, [], junk; cbn [repeat app load_int]; rewrite app_nil_r.
    split; [reflexivity|split; [reflexivity|split; [reflexivity|same_state]]].
  - destruct ws as [|w ws]; [exfalso; llia|]; destruct junk as [|j junk]; [exfalso; llia|].
    inversion_clear Hw as [|? ? Hv Hws]; destruct (word_wraps w Hv) as (E32 & _ & Em).
    destruct (enc_words_split s w ws pre post) as [E1 E2]; cbn [load_int].
    destruct (load_word s w pre (map (inv_byte s) (enc_words ws) ++ post) Hv) as (x & Ex & Ew).
    rewrite <- E1 in Ex; rewrite Ex; cbn [obind]; rewrite Ew, wr_at by reflexivity; cbn [obind].
    rewrite E32, Em; unfold skip_first; rewrite E2.
    replace (zlen pre + 4) with (zlen (pre ++ map (inv_byte s) (be 4 w))) by (rewrite zlen_app, zlen_map, be_zlen; reflexivity).
    destruct ((zlen sig >? 0) || negb (w =? 0)) eqn:C.
    + regroup (sig ++ w :: junk) ((sig ++ [w]) ++ junk).
      destruct (IH ws (sig ++ [w]) junk (pre ++ map (inv_byte s) (be 4 w)) post intg) as (z & ws' & j' & -> & Hz & Lz & R);
        [llia|assumption|llia|].
      assert (z = O) as -> by (apply Hz; destruct sig; discriminate); cbn [repeat app] in *.
      exists O, (w :: ws'), j'; split; [reflexivity|split; [reflexivity|split; [llia|]]].
      replace (zlen sig + 1) with (zlen (sig ++ [w])) by llia; rewrite R, <- !app_assoc; cbn [app].
      same_state.
    + apply orb_false_iff in C as [C1 C2]; apply negb_false_iff, Z.eqb_eq in C2; clear x Ex Ew; subst w.
      assert (sig = []) as -> by (apply zlen_zero; pose proof (zlen_nonneg sig); lia); cbn [app] in *.
      destruct (IH ws [] (0 :: junk) (pre ++ map (inv_byte s) (be 4 0)) post (intg - 9)) as (z & ws' & j' & -> & _ & Lz & R);
        [llia|assumption|llia|]; cbn [app] in R; unfold DIG_PER_DEC1; rewrite R.
      exists (S z), ws', j'; split; [reflexivity|split; [tauto|split; [cbn [app] in *; llia|]]].
      same_state.
Qed.

Lemma load_frac_eq s n : forall ws sig junk pre post, zlen ws = Z.of_nat n -> Forall word_ok ws ->
  zlen ws <= zlen junk ->
  exists junk', zlen (sig ++ ws ++ junk') = zlen (sig ++ junk) /\
    load_frac n (pre ++ map (inv_byte s) (enc_words ws) ++ post) (sig ++ junk) (zlen sig) (zlen pre) (sign_mask s)
    = Some ((sig ++ ws) ++ junk', Some (zlen (sig ++ ws), zlen pre + 4 * zlen ws)).
Proof.
  induction n as [|n IH]; intros ws sig junk pre post L Hw Lj.
  - rewrite (zlen_zero ws) by lia; exists junk; rewrite app_nil_r; change (zlen (@nil Z)) with 0; rewrite Z.mul_0_r, Z.add_0_r; auto.
  - destruct ws as [|w ws]; [exfalso; llia|]; destruct junk as [|j junk]; [exfalso; llia|].
    inversion_clear Hw as [|? ? Hv Hws]; destruct (word_wraps w Hv) as (E32 & _ & Em).
    destruct (enc_words_split s w ws pre post) as [E1 E2]; cbn [load_frac].
    destruct (load_word s w pre (map (inv_byte s) (enc_words ws) ++ post) Hv) as (x & Ex & Ew).
    rewrite <- E1 in Ex; rewrite Ex; cbn [obind]; rewrite Ew, wr_at by reflexivity; cbn [obind].
    rewrite E32, Em, E2; regroup (sig ++ w :: junk) ((sig ++ [w]) ++ junk).
    replace (zlen pre + 4) with (zlen (pre ++ map (inv_byte s) (be 4 w))) by (rewrite zlen_app, zlen_map, be_zlen; reflexivity).
    replace (zlen sig + 1) with (zlen (sig ++ [w])) by llia.
    destruct (IH ws (sig ++ [w]) junk (pre ++ map (inv_byte s) (be 4 w)) post) as (j' & Lj' & ->);
      [llia|assumption|llia|].
    exists j'; split; [llia|]; rewrite <- !app_assoc; cbn [app]; rewrite zlen_cons.
    replace (zlen (pre ++ map (inv_byte s) (be 4 w)) + 4 * zlen ws) with (zlen pre + 4 * (zlen ws + 1))
      by (rewrite zlen_app, zlen_map, be_zlen; lia); reflexivity.
Qed.

Lemma load_last_eq s k T sig junk pre post : 0 <= k <= 8 -> group k T -> (10 ^ (9 - k) | hd 0 T) ->
  zlen T <= zlen junk ->
  exists junk', zlen (sig ++ T ++ junk') = zlen (sig ++ junk) /\
    load_last (pre ++ map (inv_byte s) (be (Z.to_nat (d2b k)) (hd 0 T / 10 ^ (9 - k))) ++ post)
      (sig ++ junk) (zlen sig) (zlen pre) k (sign_mask s) = Some ((sig ++ T) ++ junk', true).
Proof.
  intros Hk G [u D] Lj; unfold load_last.
  destruct (group_cases k T (proj1 Hk) G) as [[-> ->]|(Hp & w & -> & Hw)];
    [exists junk; rewrite app_nil_r; auto|]; cbn [hd] in *.
  destruct junk as [|j junk]; [exfalso; llia|].
  pose proof (Z.pow_pos_nonneg 10 (9 - k) ltac:(lia) ltac:(lia)) as P.
  destruct (Z.eqb_spec k 0) as [|_]; [lia|]; rewrite d2b_at by lia; cbn [obind].
  assert (0 <= w / 10 ^ (9 - k) < 10 ^ k) as Hq.
  { split; [apply Z.div_pos; [apply Hw|lia]|apply Z.div_lt_upper_bound; [lia|]].
    rewrite <- Z.pow_add_r by lia; replace (9 - k + k) with 9 by lia; apply Hw. }
  destruct (load_key k s (w / 10 ^ (9 - k)) pre post ltac:(lia) Hq) as (x & -> & Ex); cbn [obind].
  rewrite powers10_at by (unfold DIG_PER_DEC1; lia); cbn [obind]; rewrite Ex; change DIG_PER_DEC1 with 9.
  replace (w / 10 ^ (9 - k) * 10 ^ (9 - k)) with w by (rewrite D, Z.div_mul by lia; reflexivity).
  replace (i32 w) with w by (unfold word_ok, digit_ok, DIG_BASE in Hw; unfold i32, swrap; pows; dlia).
  rewrite wr_at by reflexivity; cbn [obind]; exists junk.
  destruct (word_wraps w Hw) as (-> & _ & Hm); split; [llia|].
  rewrite <- app_assoc; cbn [app]; rewrite Z.gtb_ltb, Z.ltb_antisym in Hm; apply negb_false_iff in Hm; rewrite Hm; reflexivity.
Qed.

Lemma load_first_eq s k L junk post intg : 0 <= k <= 8 -> group k L -> hd 0 L < 10 ^ k -> zlen L <= zlen junk ->
  exists z L' junk', L = repeat 0 z ++ L' /\ zlen (L' ++ junk') = zlen junk /\
    load_first (map (inv_byte s) (be (Z.to_nat (d2b k)) (hd 0 L)) ++ post) junk 0 intg k (sign_mask s)
    = Some (L' ++ junk', Some (zlen L', d2b k, intg - k * Z.of_nat z)).
Proof.
  intros Hk G HL Lj; unfold load_first.
  destruct (group_cases k L (proj1 Hk) G) as [[-> ->]|(Hp & w & -> & Hw)].
  - exists O, [], junk; repeat split; apply same_positions; auto; lia.
  - destruct junk as [|j junk]; [exfalso; llia|]; cbn [hd] in *.
    destruct (Z.eqb_spec k 0) as [|_]; [lia|]; rewrite d2b_at by lia; cbn [obind].
    destruct (load_key k s w [] post ltac:(lia)) as (x & Ex & Ew); [unfold word_ok, digit_ok in Hw; lia|].
    cbn [app] in Ex; change (zlen (@nil Z)) with 0 in Ex; rewrite Ex; cbn [obind]; rewrite Ew, wr_0, powers10_at by lia; cbn [obind].
    destruct (word_wraps w Hw) as (_ & -> & _).
    rewrite Z.geb_leb; assert (10 ^ k < 10 ^ (k + 1)) by (apply Z.pow_lt_mono_r; lia).
    destruct (Z.leb_spec (10 ^ (k + 1)) w); [lia|]; unfold skip_first; cbn [Z.gtb Z.compare orb].
    destruct (Z.eqb_spec w 0) as [E|_]; cbn [negb].
    + exists 1%nat, [], (0 :: junk); rewrite E; split; [reflexivity|split; [reflexivity|]].
      apply same_positions; try reflexivity; lia.
    + exists O, [w], junk; split; [reflexivity|split; [reflexivity|]]; apply same_positions; try reflexivity; lia.
Qed.

(** The integer part after the zeros before its first digit. *)
Lemma int_rest k n L MI z1 z2 L' MI' : 0 <= k <= 8 -> 0 <= n -> group k L -> hd 0 L < 10 ^ k -> zlen MI = n ->
  Forall word_ok MI -> L = repeat 0 z1 ++ L' -> MI = repeat 0 z2 ++ MI' -> (L' <> [] -> z2 = O) ->
  let i := n * 9 + k - k * Z.of_nat z1 - 9 * Z.of_nat z2 in
  0 <= i /\ round_up i = zlen (L' ++ MI') /\ wval (L' ++ MI') < 10 ^ i /\ wval (L ++ MI) = wval (L' ++ MI') /\
  Forall word_ok (L' ++ MI').
Proof.
  intros Hk Hn G HL LM HM EL EM Hz i; destruct L' as [|w L'].
  - assert (i = 9 * zlen MI') as -> by (subst i; rewrite app_nil_r in EL; destruct (group_cases k L (proj1 Hk) G) as [[-> ->]|(Hp & w & -> & Hw)];
      rewrite EM in LM; [destruct z1|destruct z1 as [|[|]]]; try discriminate; llia).
    rewrite EM in HM; apply Forall_app in HM as [_ HM]; pose proof (wval_bounds MI' HM) as B; rewrite base_pow in B by apply zlen_nonneg.
    cbn [app]; split; [llia|split; [rewrite Z.mul_comm; apply round_up_mul, zlen_nonneg|split; [lia|split; [|exact HM]]]].
    rewrite EL, EM, app_nil_r, !wval_app, !wval_zeros; lia.
  - specialize (Hz ltac:(discriminate)); subst z2; cbn [repeat app] in EM; subst MI'.
    destruct (group_cases k L (proj1 Hk) G) as [[-> ->]|(Hp & w' & -> & Hw)]; [destruct z1; discriminate|].
    destruct z1 as [|z1]; [|exfalso; injection EL as _ EL; destruct z1; discriminate].
    cbn [repeat app] in EL; rewrite <- EL; cbn [hd] in HL; subst i; unfold word_ok, digit_ok in Hw.
    pose proof (wval_bounds MI HM) as B; rewrite LM in B.
    split; [lia|split; [|split; [|split; [reflexivity|apply Forall_app; split; [apply G|exact HM]]]]].
    + rewrite zlen_app, LM; change (zlen [w']) with 1; unfold round_up, DIG_PER_DEC1; rewrite Z.quot_div_nonneg by lia; dlia.
    + rewrite wval_app, LM; unfold wval at 1; rewrite bval_one.
      replace (n * 9 + k - k * Z.of_nat 0 - 9 * Z.of_nat 0) with (k + 9 * n) by lia.
      rewrite Z.pow_add_r, <- base_pow by lia; nia.
Qed.

Lemma load_digits_eq s prec sc L MI MF T t : 0 <= sc <= prec -> fmt prec sc L MI MF T ->
  round_up (prec - sc) + round_up sc <= zlen t ->
  exists I i junk, 0 <= i /\ round_up i = zlen I /\ wval I < 10 ^ i /\ wval (L ++ MI) = wval I /\ Forall word_ok I /\
    zlen ((I ++ MF ++ T) ++ junk) = zlen t /\
    load_digits (map (inv_byte s) (enc prec sc L MI MF T)) t 0 (intg0 prec sc * 9 + intg0x prec sc)
      (intg0 prec sc) (intg0x prec sc) (frac0 sc) (frac0x sc) (sign_mask s) = Some ((I ++ MF ++ T) ++ junk, Some i).
Proof.
  intros Hs [GL HL [LMI HMI] [LMF HMF] GT HT] Lt; pose proof (fmt_sizes prec sc Hs) as (SI & SF & _).
  pose proof (digits_split (prec - sc) ltac:(lia)) as D1; pose proof (digits_split sc ltac:(lia)) as D2.
  fold (intg0 prec sc) (frac0 sc) in *; fold (intg0x prec sc) (frac0x sc) in *; rewrite <- (proj1 GL), <- (proj1 GT) in *.
  unfold load_digits, enc, int_bytes, frac_bytes; rewrite !map_app, <- !app_assoc.
  match goal with |- context [load_first (?a ++ ?b) _ _ _ _ _] =>
    destruct (load_first_eq s (intg0x prec sc) L t b (intg0 prec sc * 9 + intg0x prec sc) ltac:(lia) GL HL) as (z1 & L' & j1 & E1 & Lj1 & ->) end;
    [llia|]; cbn [obind].
  set (A := map (inv_byte s) (be (Z.to_nat (d2b (intg0x prec sc))) (hd 0 L))).
  assert (d2b (intg0x prec sc) = zlen A) as -> by (unfold A; rewrite zlen_map, be_zlen; lia).
  set (i1 := intg0 prec sc * 9 + _ - _).
  set (BT := map (inv_byte s) (be (Z.to_nat (d2b (frac0x sc))) _)); set (BF := map (inv_byte s) (enc_words MF)).
  assert (zlen L' <= zlen L) as LL' by (rewrite E1; llia).
  destruct (load_int_eq s (Z.to_nat (intg0 prec sc)) MI L' j1 A (BF ++ BT) i1 ltac:(lia) HMI ltac:(llia))
    as (z2 & MI' & j2 & E2 & Hz & Lj2 & ->); cbn [obind].
  destruct (int_rest (intg0x prec sc) (intg0 prec sc) L MI z1 z2 L' MI') as (Hi & Ri & Vi & Ei & Oi); try assumption; [lia..|].
  fold i1 in Hi, Ri, Vi; destruct (Z.ltb_spec (i1 - 9 * Z.of_nat z2) 0) as [|_]; [lia|].
  set (BI := map (inv_byte s) (enc_words MI)); assert (zlen MI' <= zlen MI) by (rewrite E2; llia).
  replace (zlen A + 4 * zlen MI) with (zlen (A ++ BI)) by (unfold BI; rewrite zlen_app, zlen_map, enc_words_zlen by assumption; reflexivity).
  rewrite !(app_assoc A BI).
  destruct (load_frac_eq s (Z.to_nat (frac0 sc)) MF (L' ++ MI') j2 (A ++ BI) BT ltac:(lia) HMF ltac:(llia)) as (j3 & Lj3 & R3); fold BF in R3; rewrite R3; cbn [obind].
  replace (zlen (A ++ BI) + 4 * zlen MF) with (zlen ((A ++ BI) ++ BF)) by (unfold BF; rewrite zlen_app, zlen_map, enc_words_zlen by assumption; reflexivity).
  replace ((A ++ BI) ++ BF ++ BT) with (((A ++ BI) ++ BF) ++ BT ++ []) by (rewrite app_nil_r, <- !app_assoc; reflexivity).
  destruct (load_last_eq s (frac0x sc) T ((L' ++ MI') ++ MF) j3 ((A ++ BI) ++ BF) [] ltac:(lia) GT HT ltac:(llia)) as (j4 & Lj4 & R4); fold BT in R4; rewrite R4; cbn [obind].
  exists (L' ++ MI'), (i1 - 9 * Z.of_nat z2), j4; rewrite !app_assoc in *.
  do 5 (split; [assumption|]); split; [llia|reflexivity].
Qed.

Lemma ztake_all {A} n (l : list A) : n = zlen l -> ztake n l = l.
Proof. intros ->; rewrite <- (app_nil_r l) at 2; apply ztake_app; reflexivity. Qed.

(** The digits after the last one are zeros. *)
Lemma tail_divide sc I MF T : 0 <= sc -> group (frac0x sc) T -> (10 ^ (9 - frac0x sc) | hd 0 T) ->
  zlen (MF ++ T) = round_up sc -> zlen MF = frac0 sc ->
  (10 ^ (9 * round_up sc - sc) | wval (I ++ MF ++ T)).
Proof.
  intros Hs GT HT LF LMF; pose proof (digits_split sc Hs) as D; fold (frac0 sc) in D; fold (frac0x sc) in D.
  destruct (group_cases (frac0x sc) T (proj1 (proj1 (proj2 D))) GT) as [[E0 ->]|(Hp & w & -> & Hw)].
  - replace (9 * round_up sc - sc) with 0 by (unfold frac0x in *; rewrite E0 in D; cbn [Z.gtb Z.compare b2z] in D; lia).
    apply Z.divide_1_l.
  - rewrite (proj2 (Z.gtb_lt _ 0) Hp) in D; cbn [b2z] in D.
    replace (9 * round_up sc - sc) with (9 - frac0x sc) by (unfold frac0x in *; lia).
    rewrite app_assoc; unfold wval; rewrite bval_snoc; apply Z.divide_add_r; [|exact HT].
    apply Z.divide_mul_r; exists (10 ^ frac0x sc); rewrite <- Z.pow_add_r by lia.
    replace (frac0x sc + (9 - frac0x sc)) with 9 by lia; reflexivity.
Qed.

Lemma bin2decimal_eq prec sc s L MI MF T to : 0 <= sc <= prec -> 0 < prec -> fmt prec sc L MI MF T -> target to ->
  round_up (prec - sc) + round_up sc <= len to ->
  exists r, bin2decimal (flip_first (map (inv_byte s) (enc prec sc L MI MF T))) to prec sc = Some (E_DEC_OK, r) /\
    wf r /\ frac r = sc /\ sign r = s /\ mant r = wval ((L ++ MI) ++ (MF ++ T)).
Proof.
  intros Hs Hp Fm [Hl Hb] Len; pose proof (fmt_sizes prec sc Hs) as (SI & SF & _).
  destruct (enc_top prec sc _ _ _ _ Hs Hp Fm) as (b & r & E & Hb0); pose proof (enc_key_zlen prec sc _ _ _ _ Hs Fm) as LE.
  destruct (load_digits_eq s prec sc L MI MF T (buf to) Hs Fm ltac:(lia)) as (I & i & junk & Hi & Ri & Vi & Ei & Oi & Lj & R).
  pose proof (digits_split (prec - sc) ltac:(lia)) as D1; pose proof (digits_split sc ltac:(lia)) as D2.
  fold (intg0 prec sc) (frac0 sc) in *; fold (intg0x prec sc) (frac0x sc) in *.
  unfold bin2decimal; change DIG_PER_DEC1 with 9.
  fold (intg0 prec sc) (frac0 sc); fold (intg0x prec sc) (frac0x sc).
  rewrite E in *; cbn [map flip_first] in *; rewrite rd_0; cbn [obind]; rewrite bin_size_eq by lia; cbn [obind].
  set (c := inv_byte s b) in *; assert (0 <= c < 256 /\ (c <? 128) = negb s) as [Hc Hcs] by (unfold c, inv_byte; destruct s; cbn [negb]; lia).
  rewrite zlen_cons, zlen_map, <- zlen_cons with (x := b), LE, Z.ltb_irrefl.
  rewrite ztake_all by (rewrite zlen_cons, zlen_map, <- LE, zlen_cons; reflexivity).
  rewrite wr_0; cbn [obind]; rewrite Z.lxor_assoc, Z.lxor_nilpotent, Z.lxor_0_r; change (c :: map (inv_byte s) r) with (map (inv_byte s) (b :: r)).
  assert ((if Z.land (Z.lxor c 128) 128 =? 0 then -1 else 0) = sign_mask s) as ->.
  { rewrite lxor_128, Hcs, land_128 by (rewrite ?Hcs; destruct s; cbn [negb] in *; lia).
    destruct s; cbn [negb] in *; [destruct (Z.ltb_spec (c - 128) 128)|destruct (Z.ltb_spec (c + 128) 128)]; try reflexivity; lia. }
  rewrite <- (proj2 (proj2 D1)), <- (proj2 (proj2 D2)), fix_ok, d2b_at by lia; cbn [obind Z.eqb E_DEC_OK].
  cbn [map] in R; fold c in R; cbn [map]; fold c; change (E_DEC_OK =? E_DEC_OK) with true; cbn [obind]; rewrite R; cbn [obind].
  eexists; split; [reflexivity|]; cbn [frac sign].
  pose proof (round_up_bounds sc (proj1 Hs)); destruct Fm as [GL HL [LMI HMI] [LMF HMF] GT HT].
  assert (frac0 sc * 9 + frac0x sc = sc) as -> by (unfold frac0x; lia).
  assert (zlen (I ++ MF ++ T) = round_up i + round_up sc) as Lo by (rewrite !zlen_app, Ri, (proj1 GT); lia).
  assert (wval (I ++ MF ++ T) = wval ((L ++ MI) ++ MF ++ T)) as Vo by (rewrite !(wval_app _ (MF ++ T)), Ei; reflexivity).
  split; [|rewrite build_mant by exact Lo; split; [reflexivity|split; [destruct s; reflexivity|exact Vo]]].
  assert (Forall word_ok (MF ++ T)) as OF by (apply Forall_app; split; [exact HMF|apply GT]).
  assert (zlen (MF ++ T) = round_up sc) as LF by (rewrite zlen_app, (proj1 GT); lia).
  apply build_wf; try assumption; [lia|lia|apply Forall_app; auto| |].
  - rewrite wval_app, LF, Z.pow_add_r, <- base_pow by lia; pose proof (wval_bounds _ OF) as B; rewrite LF in B; nia.
  - apply tail_divide; assumption || lia.
Qed.


