(* ===== verification/Qsort.v ===== *)
(** The sort of the server: [my_qsort] and [my_qsort2] of
    [src/drizzled/internal/mf_qsort.cc], a quicksort that keeps the ranges
    still to sort on a stack of fixed size, takes medians of three or of nine
    elements as pivots and sorts ranges of less than ten elements by
    insertion.

    The array is a list of elements of [size] bytes, a pointer into it the
    index of an element; [None] is a read or write outside the array or of
    the stack.  The two functions are the same code with and without an
    argument for the comparison, so one model serves both. *)

From Stdlib Require Import ZArith Lia ZifyBool List Bool Permutation Sorted.
From S2P Require Import Prelude Words.
Import ListNotations.
Local Open Scope Z_scope.
Local Open Scope fail_scope.

(** What the sort needs of a comparison: the sign of the result is a total
    preorder. *)
Class Comparison {A : Type} (cmp : A -> A -> Z) : Prop := {
  cmp_anti : forall x y, cmp x y < 0 <-> 0 < cmp y x;
  cmp_trans : forall x y z, cmp x y <= 0 -> cmp y z <= 0 -> cmp x z <= 0
}.

Section qsort.
Context {A : Type} (cmp : A -> A -> Z) (size : Z).

(** ** Model *)

(** src/drizzled/internal/mf_qsort.cc:32-36 CMP *)
Definition CMP (t : list A) (a b : Z) : option Z :=
  let? x := rd t a in let? y := rd t b in Some (cmp x y).

(** src/drizzled/internal/mf_qsort.cc:38-54 SWAP *)
Definition SWAP (t : list A) (a b : Z) : option (list A) :=
  let? x := rd t a in
  let? y := rd t b in
  let? t := wr t a y in
  wr t b x.

(** src/drizzled/internal/mf_qsort.cc:57-65 MEDIAN *)
Definition MEDIAN (t : list A) (low mid high : Z) : option (list A) :=
  let? c := CMP t high low in
  let? t := if c <? 0 then SWAP t high low else Some t in
  let? c := CMP t mid low in
  if c <? 0 then SWAP t mid low
  else
    let? c := CMP t high mid in
    if c <? 0 then SWAP t mid high else Some t.

(** src/drizzled/internal/mf_qsort.cc:78-78 STACK_SIZE *)
Definition STACK_SIZE : Z := 64.

(** src/drizzled/internal/mf_qsort.cc:79-79 THRESHOLD_FOR_INSERT_SORT *)
Definition THRESHOLD_FOR_INSERT_SORT : Z := 10.

(** src/drizzled/internal/mf_qsort.cc:74-74 PUSH

    The entries above [stack[0]], the top one first. *)
Definition PUSH (stack : list (Z * Z)) (low high : Z) : option (list (Z * Z)) :=
  if 1 + zlen stack <? STACK_SIZE then Some ((low, high) :: stack) else None.

(** src/drizzled/internal/mf_qsort.cc:129-131 my_qsort

    An element goes down to its place. *)
Fixpoint insert_down (fuel : nat) (t : list A) (low ptr : Z) : option (list A) :=
  match fuel with
  | O => None
  | S fuel' =>
      if ptr >? low then
        let? c := CMP t (ptr - 1) ptr in
        if c >? 0 then let? t := SWAP t ptr (ptr - 1) in insert_down fuel' t low (ptr - 1)
        else Some t
      else Some t
  end.

(** src/drizzled/internal/mf_qsort.cc:126-132 my_qsort *)
Fixpoint insert_sort (fuel : nat) (t : list A) (low low_ptr high : Z) : option (list A) :=
  match fuel with
  | O => None
  | S fuel' =>
      if low_ptr <=? high then
        let? t := insert_down (S (Z.to_nat (low_ptr - low))) t low low_ptr in
        insert_sort fuel' t low (low_ptr + 1) high
      else Some t
  end.

(** src/drizzled/internal/mf_qsort.cc:161-162 my_qsort *)
Fixpoint scan_up (fuel : nat) (t : list A) (pivot : A) (low_ptr : Z) : option Z :=
  match fuel with
  | O => None
  | S fuel' =>
      let? x := rd t low_ptr in
      if cmp x pivot <? 0 then scan_up fuel' t pivot (low_ptr + 1) else Some low_ptr
  end.

(** src/drizzled/internal/mf_qsort.cc:163-164 my_qsort *)
Fixpoint scan_down (fuel : nat) (t : list A) (pivot : A) (high_ptr : Z) : option Z :=
  match fuel with
  | O => None
  | S fuel' =>
      let? x := rd t high_ptr in
      if cmp pivot x <? 0 then scan_down fuel' t pivot (high_ptr - 1) else Some high_ptr
  end.

(** src/drizzled/internal/mf_qsort.cc:159-182 my_qsort

    The array and the two pointers when they have crossed. *)
Fixpoint partition (fuel : nat) (t : list A) (pivot : A) (low_ptr high_ptr : Z) : option (list A * Z * Z) :=
  match fuel with
  | O => None
  | S fuel' =>
      let? low_ptr := scan_up (S (length t)) t pivot low_ptr in
      let? high_ptr := scan_down (S (length t)) t pivot high_ptr in
      if low_ptr <? high_ptr then
        let? t := SWAP t low_ptr high_ptr in
        if low_ptr + 1 <=? high_ptr - 1 then partition fuel' t pivot (low_ptr + 1) (high_ptr - 1)
        else Some (t, low_ptr + 1, high_ptr - 1)
      else if low_ptr =? high_ptr then Some (t, low_ptr + 1, high_ptr - 1)
      else Some (t, low_ptr, high_ptr)
  end.

(** src/drizzled/internal/mf_qsort.cc:137-157 my_qsort

    The pivot at [mid] and the pointers from which the partition starts. *)
Definition choose_pivot (t : list A) (low high count : Z) : option (list A * A * Z * Z) :=
  let mid := low + Z.shiftr count 1 in
  let? (t, low_ptr, high_ptr) :=
    if count >? 40 then
      let step := count / 8 in
      let? t := MEDIAN t low (low + step) (low + step * 2) in
      let? t := MEDIAN t (mid - step) mid (mid + step) in
      let? t := MEDIAN t (high - 2 * step) (high - step) high in
      let? t := MEDIAN t (low + step) mid (high - step) in
      Some (t, low, high)
    else
      let? t := MEDIAN t low mid high in
      Some (t, low + 1, high - 1) in
  let? pivot := rd t mid in
  Some (t, pivot, low_ptr, high_ptr).

(** src/drizzled/internal/mf_qsort.cc:191-211 my_qsort

    The range to sort next and the stack; [None] inside: the stack was empty.
    The distances are of bytes, and two of the tests are of an [int]. *)
Definition next_range (low high low_ptr high_ptr : Z) (stack : list (Z * Z))
  : option (option (Z * Z * list (Z * Z))) :=
  if i32 (size * (high_ptr - low)) <=? 0 then
    if i32 (size * (high - low_ptr)) <=? 0 then
      Some match stack with [] => None | (l, h) :: s => Some (l, h, s) end
    else Some (Some (low_ptr, high, stack))
  else if i32 (size * (high - low_ptr)) <=? 0 then Some (Some (low, high_ptr, stack))
  else if size * (high_ptr - low) >? size * (high - low_ptr) then
    let? stack := PUSH stack low high_ptr in Some (Some (low_ptr, high, stack))
  else
    let? stack := PUSH stack low_ptr high in Some (Some (low, high_ptr, stack)).

(** src/drizzled/internal/mf_qsort.cc:118-212 my_qsort

    The loop over the ranges. *)
Fixpoint sort_ranges (fuel : nat) (t : list A) (low high : Z) (stack : list (Z * Z)) : option (list A) :=
  match fuel with
  | O => None
  | S fuel' =>
      let count := high - low + 1 in
      if count <? THRESHOLD_FOR_INSERT_SORT then
        let? t := insert_sort (S (Z.to_nat count)) t low (low + 1) high in
        match stack with
        | [] => Some t
        | (l, h) :: s => sort_ranges fuel' t l h s
        end
      else
        let? (t, pivot, low_ptr, high_ptr) := choose_pivot t low high count in
        let? (t, low_ptr, high_ptr) := partition (S (length t)) t pivot low_ptr high_ptr in
        let? r := next_range low high low_ptr high_ptr stack in
        match r with
        | None => Some t
        | Some (low, high, stack) => sort_ranges fuel' t low high stack
        end
  end.

(** src/drizzled/internal/mf_qsort.cc:91-215 my_qsort *)
Definition my_qsort (t : list A) : option (list A) :=
  let count := zlen t in
  if count <=? 1 then Some t else sort_ranges (Z.to_nat (2 * count)) t 0 (count - 1) [].

(** ** Reordering a range *)

(** [a'] is [a] with the elements from [lo] to [hi] reordered. *)
Record shuffle (lo hi : Z) (a a' : list A) : Prop := {
  sh_perm : Permutation a a';
  sh_same : forall i, ~ lo <= i <= hi -> rd a' i = rd a i;
  sh_from : forall j, lo <= j <= hi -> exists j', lo <= j' <= hi /\ rd a' j = rd a j'
}.

Lemma shuffle_refl lo hi a : shuffle lo hi a a.
Proof. split; [apply Permutation_refl|reflexivity|eauto]. Qed.

Lemma shuffle_trans lo hi a b c : shuffle lo hi a b -> shuffle lo hi b c -> shuffle lo hi a c.
Proof.
  intros [P1 S1 F1] [P2 S2 F2]; split; [eapply Permutation_trans; eassumption|intros i Hi; rewrite S2, S1 by exact Hi; reflexivity|].
  intros j Hj; destruct (F2 j Hj) as (j1 & H1 & ->); destruct (F1 j1 H1) as (j2 & H2 & ->); eauto.
Qed.

Lemma shuffle_zlen lo hi a a' : shuffle lo hi a a' -> zlen a' = zlen a.
Proof. intros [P _ _]; unfold zlen; rewrite (Permutation_length P); reflexivity. Qed.

Lemma shuffle_widen lo hi lo' hi' a a' : lo' <= lo -> hi <= hi' -> shuffle lo hi a a' -> shuffle lo' hi' a a'.
Proof.
  intros H1 H2 [P S F]; split; [exact P|intros i Hi; apply S; lia|].
  intros j Hj; destruct (Z_le_dec lo j), (Z_le_dec j hi); [destruct (F j) as (j' & ? & ->); [lia|]; exists j'; split; [lia|reflexivity]|..];
    exists j; (split; [exact Hj|apply S; lia]).
Qed.

Lemma swap_perm (p m q : list A) x y : Permutation (p ++ x :: m ++ y :: q) (p ++ y :: m ++ x :: q).
Proof.
  apply Permutation_app_head; rewrite <- (Permutation_middle m q y), <- (Permutation_middle m q x); apply perm_swap.
Qed.

Lemma SWAP_spec t i j : 0 <= i < zlen t -> 0 <= j < zlen t ->
  exists t', SWAP t i j = Some t' /\ Permutation t t' /\
    forall k, rd t' k = if k =? j then rd t i else if k =? i then rd t j else rd t k.
Proof.
  intros Hi Hj; destruct (rd_Some t i Hi) as [x Ex]; destruct (rd_Some t j Hj) as [y Ey].
  destruct (wr_Some t i y Hi) as [t1 E1]; pose proof (wr_zlen _ _ _ _ E1) as L1.
  destruct (wr_Some t1 j x) as [t2 E2]; [lia|].
  exists t2; unfold SWAP; rewrite Ex, Ey; cbn [obind]; rewrite E1; cbn [obind]; split; [exact E2|].
  split; [|intros k; rewrite (rd_wr _ _ _ _ k E2), (rd_wr _ _ _ _ k E1), (Z.eqb_sym k j), (Z.eqb_sym k i); reflexivity].
  destruct (wr_split _ _ _ _ E1) as (p & x' & q & -> & -> & ->); rewrite rd_at in Ex by reflexivity; injection Ex as ->.
  destruct (wr_split _ _ _ _ E2) as (p' & y' & q' & E & -> & ->).
  destruct (Z.lt_trichotomy (zlen p') (zlen p)) as [Lt|[Eq|Gt]].
  - destruct (zsplit (zlen p') p) as (p1 & [|z p2] & -> & La & Lb); [lia|exfalso; llia|].
    rewrite <- app_assoc in E; apply app_eq_len in E as [-> E]; [|lia]; injection E as -> <-.
    rewrite <- app_assoc in Ey; cbn [app] in Ey; rewrite rd_at in Ey by reflexivity; injection Ey as ->.
    rewrite <- app_assoc; cbn [app]; apply swap_perm.
  - apply app_eq_len in E as [-> E]; [|lia]; injection E as <- <-.
    rewrite rd_at in Ey by reflexivity; apply Permutation_refl.
  - destruct (zsplit (zlen p) p') as (p1 & [|z p2] & -> & La & Lb); [lia|exfalso; llia|].
    rewrite <- app_assoc in E; apply app_eq_len in E as [-> E]; [|lia]; injection E as <- ->.
    rewrite app_comm_cons, app_assoc, rd_at in Ey by llia; injection Ey as ->.
    rewrite <- app_assoc; cbn [app]; apply swap_perm.
Qed.

Lemma SWAP_shuffle lo hi t i j : 0 <= i < zlen t -> 0 <= j < zlen t -> lo <= i <= hi -> lo <= j <= hi ->
  exists t', SWAP t i j = Some t' /\ shuffle lo hi t t' /\
    forall k, rd t' k = if k =? j then rd t i else if k =? i then rd t j else rd t k.
Proof.
  intros Hi Hj Ri Rj; destruct (SWAP_spec t i j Hi Hj) as (t' & E & P & R); exists t'; split; [exact E|split; [|exact R]].
  split; [exact P|intros k Hk; rewrite R; destruct (Z.eqb_spec k j); [lia|destruct (Z.eqb_spec k i); [lia|reflexivity]]|].
  intros k Hk; rewrite R; destruct (Z.eqb_spec k j); [eauto|destruct (Z.eqb_spec k i); eauto].
Qed.

(** ** Order *)

Context {Hcmp : Comparison cmp}.

Definition le (x y : A) : Prop := cmp x y <= 0.

(** The elements at two positions are in order. *)
Definition le_at (t : list A) (i j : Z) : Prop := forall x y, rd t i = Some x -> rd t j = Some y -> le x y.

(** All pairs of the range are. *)
Definition sorted_on (t : list A) (lo hi : Z) : Prop := forall i j, lo <= i -> i < j -> j <= hi -> le_at t i j.

Lemma le_refl x : le x x.
Proof. unfold le; pose proof (cmp_anti x x); lia. Qed.

Lemma lt_le x y : cmp x y < 0 -> le x y.
Proof. unfold le; lia. Qed.

Lemma not_lt_le x y : ~ cmp x y < 0 -> le y x.
Proof. unfold le; intros H; pose proof (cmp_anti x y); lia. Qed.

Lemma gt_le x y : 0 < cmp x y -> le y x.
Proof. unfold le; intros H; pose proof (cmp_anti y x); lia. Qed.

Lemma le_trans x y z : le x y -> le y z -> le x z.
Proof. apply cmp_trans. Qed.

Lemma le_at_trans t i j k : 0 <= j < zlen t -> le_at t i j -> le_at t j k -> le_at t i k.
Proof. intros Hj H1 H2 x z Hx Hz; destruct (rd_Some t j Hj) as [y Hy]; eapply le_trans; eauto. Qed.

Lemma CMP_at t i j : 0 <= i < zlen t -> 0 <= j < zlen t ->
  exists x y, rd t i = Some x /\ rd t j = Some y /\ CMP t i j = Some (cmp x y).
Proof.
  intros Hi Hj; destruct (rd_Some t i Hi) as [x Ex]; destruct (rd_Some t j Hj) as [y Ey].
  exists x, y; unfold CMP; rewrite Ex, Ey; auto.
Qed.

(** Split on whether the positions of a read are the swapped ones. *)
Ltac swapped R :=
  try rewrite !R in *; repeat match goal with
  | |- context [?a =? ?b] => destruct (Z.eqb_spec a b); try lia
  | H : context [?a =? ?b] |- _ => destruct (Z.eqb_spec a b); try lia
  end.

(** ** Insertion sort *)

Lemma insert_down_spec fuel : forall t low ptr high, 0 <= low -> high < zlen t -> low <= ptr <= high ->
  ptr - low < Z.of_nat fuel ->
  (forall i j, low <= i -> i < j -> j <= high -> j <> ptr -> le_at t i j) ->
  exists t', insert_down fuel t low ptr = Some t' /\ shuffle low high t t' /\ sorted_on t' low high.
Proof.
  induction fuel as [|fuel IH]; intros t low ptr high H0 Hh Hp Hf Inv; [lia|]; cbn [insert_down].
  rewrite Z.gtb_ltb; destruct (Z.ltb_spec low ptr) as [Lt|Ge].
  2: { exists t; split; [reflexivity|split; [apply shuffle_refl|]]; intros i j Hi Hij Hj; apply Inv; lia. }
  destruct (CMP_at t (ptr - 1) ptr) as (x & y & Ex & Ey & ->); [lia..|]; cbn [obind].
  rewrite Z.gtb_ltb; destruct (Z.ltb_spec 0 (cmp x y)) as [C|C].
  - destruct (SWAP_shuffle low high t ptr (ptr - 1)) as (t1 & -> & S1 & R1); [lia..|]; cbn [obind].
    destruct (IH t1 low (ptr - 1) high) as (t2 & -> & S2 & Hs); [lia|rewrite (shuffle_zlen _ _ _ _ S1); lia|lia|lia| |].
    + intros i j Hi Hij Hj N a b; swapped R1; intros Ea Eb;
        try (eapply Inv; [..|exact Ea|exact Eb]; lia).
      replace a with y by congruence; replace b with x by congruence; apply gt_le, C.
    + exists t2; split; [reflexivity|split; [eapply shuffle_trans; eassumption|exact Hs]].
  - exists t; split; [reflexivity|split; [apply shuffle_refl|]].
    assert (le_at t (ptr - 1) ptr) as L by (intros a b Ha Hb; replace a with x by congruence; replace b with y by congruence; unfold le; lia).
    intros i j Hi Hij Hj; destruct (Z.eq_dec j ptr) as [->|N]; [|apply Inv; lia].
    destruct (Z.eq_dec i (ptr - 1)) as [->|N]; [exact L|].
    apply (le_at_trans t i (ptr - 1) ptr); [lia|apply Inv; lia|exact L].
Qed.

Lemma insert_sort_spec fuel : forall t low low_ptr high, 0 <= low -> high < zlen t -> low < low_ptr ->
  Z.max 0 (high - low_ptr + 1) < Z.of_nat fuel -> sorted_on t low (low_ptr - 1) ->
  exists t', insert_sort fuel t low low_ptr high = Some t' /\ shuffle low high t t' /\ sorted_on t' low high.
Proof.
  induction fuel as [|fuel IH]; intros t low ptr high H0 Hh Hp Hf Hs; [lia|]; cbn [insert_sort].
  destruct (Z.leb_spec ptr high) as [Le|Gt].
  - destruct (insert_down_spec (S (Z.to_nat (ptr - low))) t low ptr ptr) as (t1 & -> & S1 & H1); [lia..| |].
    { intros i j Hi Hij Hj N; apply Hs; lia. }
    cbn [obind]; destruct (IH t1 low (ptr + 1) high) as (t2 & -> & S2 & H2);
      [lia|rewrite (shuffle_zlen _ _ _ _ S1); lia|lia|lia|replace (ptr + 1 - 1) with ptr by lia; exact H1|].
    exists t2; split; [reflexivity|split; [|exact H2]].
    eapply shuffle_trans; [eapply shuffle_widen; [..|exact S1]; lia|exact S2].
  - exists t; split; [reflexivity|split; [apply shuffle_refl|]]; intros i j Hi Hij Hj; apply Hs; lia.
Qed.

(** ** Pivot *)

(** [x] at one position, [y] at another: their order from a comparison. *)
Lemma le_at_of t i j x y : rd t i = Some x -> rd t j = Some y -> le x y -> le_at t i j.
Proof. intros Ex Ey H a b Ha Hb; replace a with x by congruence; replace b with y by congruence; exact H. Qed.

(** Swap two positions if the first is below the second. *)
Lemma order_two lo hi t i j : 0 <= i < zlen t -> 0 <= j < zlen t -> lo <= i <= hi -> lo <= j <= hi -> i <> j ->
  exists c t', CMP t i j = Some c /\ (if c <? 0 then SWAP t i j else Some t) = Some t' /\ shuffle lo hi t t' /\ le_at t' j i.
Proof.
  intros Hi Hj Ri Rj N; destruct (CMP_at t i j Hi Hj) as (x & y & Ex & Ey & ->); exists (cmp x y).
  destruct (Z.ltb_spec (cmp x y) 0) as [C|C].
  - destruct (SWAP_shuffle lo hi t i j Hi Hj Ri Rj) as (t' & -> & S & R); exists t'.
    split; [reflexivity|split; [reflexivity|split; [exact S|]]].
    apply (le_at_of t' j i x y); swapped R; auto using lt_le.
  - exists t; split; [reflexivity|split; [reflexivity|split; [apply shuffle_refl|]]].
    apply (le_at_of t j i y x); [exact Ey|exact Ex|apply not_lt_le; lia].
Qed.

Lemma MEDIAN_spec lo hi t low mid high : 0 <= lo -> hi < zlen t -> lo <= low -> low < mid -> mid < high -> high <= hi ->
  exists t', MEDIAN t low mid high = Some t' /\ shuffle lo hi t t' /\ le_at t' low mid /\ le_at t' mid high.
Proof.
  intros H0 Hh H1 H2 H3 H4; unfold MEDIAN.
  destruct (order_two lo hi t high low) as (c & t1 & -> & E1 & S1 & L1); [lia..|]; cbn [obind]; rewrite E1; cbn [obind].
  pose proof (shuffle_zlen _ _ _ _ S1) as Z1; clear E1.
  destruct (CMP_at t1 mid low) as (x & y & Ex & Ey & ->); [lia..|]; cbn [obind]; destruct (Z.ltb_spec (cmp x y) 0) as [C|C].
  - destruct (SWAP_shuffle lo hi t1 mid low) as (t2 & -> & S2 & R2); [lia..|]; exists t2.
    split; [reflexivity|split; [eapply shuffle_trans; eassumption|split]].
    + apply (le_at_of t2 low mid x y); swapped R2; auto using lt_le.
    + intros a b; swapped R2; intros Ha Hb; apply L1; assumption.
  - destruct (CMP_at t1 high mid) as (z & x' & Ez & Ex' & ->); [lia..|]; cbn [obind].
    replace x' with x in * by congruence; destruct (Z.ltb_spec (cmp z x) 0) as [D|D].
    + destruct (SWAP_shuffle lo hi t1 mid high) as (t2 & -> & S2 & R2); [lia..|]; exists t2.
      split; [reflexivity|split; [eapply shuffle_trans; eassumption|split]].
      * intros a b; swapped R2; intros Ha Hb; apply L1; assumption.
      * apply (le_at_of t2 mid high z x); swapped R2; auto using lt_le.
    + exists t1; split; [reflexivity|split; [exact S1|split]].
      * apply (le_at_of t1 low mid y x); [assumption..|apply not_lt_le; lia].
      * apply (le_at_of t1 mid high x z); [assumption..|apply not_lt_le; lia].
Qed.

(** ** Partition *)

(** All elements of a range are below, or above, the pivot. *)
Definition below (t : list A) (lo hi : Z) (p : A) : Prop := forall i x, lo <= i <= hi -> rd t i = Some x -> le x p.
Definition above (t : list A) (lo hi : Z) (p : A) : Prop := forall i x, lo <= i <= hi -> rd t i = Some x -> le p x.

Lemma scan_up_spec fuel : forall t p i s x, 0 <= i <= s -> rd t s = Some x -> ~ cmp x p < 0 -> s - i < Z.of_nat fuel ->
  exists l y, scan_up fuel t p i = Some l /\ i <= l <= s /\ below t i (l - 1) p /\ rd t l = Some y /\ le p y.
Proof.
  induction fuel as [|fuel IH]; intros t p i s x Hi Ex Hx Hf; [lia|]; cbn [scan_up].
  pose proof (rd_bounds _ _ _ Ex); destruct (rd_Some t i) as [y Ey]; [lia|]; rewrite Ey; cbn [obind].
  destruct (Z.ltb_spec (cmp y p) 0) as [C|C].
  - assert (i <> s) by (intros ->; replace y with x in C by congruence; lia).
    destruct (IH t p (i + 1) s x) as (l & z & -> & Hl & B & El & Hz); [lia|exact Ex|exact Hx|lia|].
    exists l, z; split; [reflexivity|split; [lia|split; [|split; assumption]]].
    intros j w Hj Ew; destruct (Z.eq_dec j i) as [->|N]; [replace w with y by congruence; apply lt_le, C|apply (B j); [lia|exact Ew]].
  - exists i, y; split; [reflexivity|split; [lia|split; [intros j w Hj; lia|split; [exact Ey|apply not_lt_le; lia]]]].
Qed.

Lemma scan_down_spec fuel : forall t p j s x, s <= j < zlen t -> rd t s = Some x -> ~ cmp p x < 0 -> j - s < Z.of_nat fuel ->
  exists h y, scan_down fuel t p j = Some h /\ s <= h <= j /\ above t (h + 1) j p /\ rd t h = Some y /\ le y p.
Proof.
  induction fuel as [|fuel IH]; intros t p j s x Hj Ex Hx Hf; [lia|]; cbn [scan_down].
  pose proof (rd_bounds _ _ _ Ex); destruct (rd_Some t j) as [y Ey]; [lia|]; rewrite Ey; cbn [obind].
  destruct (Z.ltb_spec (cmp p y) 0) as [C|C].
  - assert (j <> s) by (intros ->; replace y with x in C by congruence; lia).
    destruct (IH t p (j - 1) s x) as (h & z & -> & Hl & B & El & Hz); [lia|exact Ex|exact Hx|lia|].
    exists h, z; split; [reflexivity|split; [lia|split; [|split; assumption]]].
    intros i w Hi Ew; destruct (Z.eq_dec i j) as [->|N]; [replace w with y by congruence; apply lt_le, C|apply (B i); [lia|exact Ew]].
  - exists j, y; split; [reflexivity|split; [lia|split; [intros i w Hi; lia|split; [exact Ey|apply not_lt_le; lia]]]].
Qed.

(** An element in the range at which a scan stops. *)
Definition stops_up (t : list A) (p : A) (lo hi : Z) : Prop := exists s x, lo <= s <= hi /\ rd t s = Some x /\ le p x.
Definition stops_down (t : list A) (p : A) (lo hi : Z) : Prop := exists s x, lo <= s <= hi /\ rd t s = Some x /\ le x p.

Lemma partition_spec fuel : forall t p low high i j, 0 <= low -> high < zlen t -> low <= i -> j <= high ->
  j - i + 1 < Z.of_nat fuel -> 0 < Z.of_nat fuel -> below t low (i - 1) p -> above t (j + 1) high p ->
  stops_up t p i high -> stops_down t p low j ->
  exists t' l h, partition fuel t p i j = Some (t', l, h) /\ shuffle low high t t' /\
    low < l /\ h < high /\ h < l /\ l <= high + 1 /\ low - 1 <= h /\ below t' low (l - 1) p /\ above t' (h + 1) high p.
Proof.
  induction fuel as [|fuel IH]; intros t p low high i j H0 Hh Hi Hj Hf Hf0 B Ab (s & x & Hs & Ex & Hx) (s' & x' & Hs' & Ex' & Hx'); [lia|].
  cbn [partition].
  destruct (scan_up_spec (S (length t)) t p i s x) as (l & y & -> & Hl & Bl & El & Hy);
    [lia|exact Ex|pose proof (cmp_anti x p); unfold le in *; lia|unfold zlen in *; lia|]; cbn [obind].
  destruct (scan_down_spec (S (length t)) t p j s' x') as (h & z & -> & Hh' & Ah & Eh & Hz);
    [lia|exact Ex'|pose proof (cmp_anti p x'); unfold le in *; lia|unfold zlen in *; lia|]; cbn [obind].
  assert (below t low (l - 1) p) as B1 by (intros k w Hk Ew; destruct (Z_lt_dec k i); [apply (B k w)|apply (Bl k w)]; (lia || exact Ew)).
  assert (above t (h + 1) high p) as A1 by (intros k w Hk Ew; destruct (Z_lt_dec j k); [apply (Ab k w)|apply (Ah k w)]; (lia || exact Ew)).
  destruct (Z.ltb_spec l h) as [Lt|Ge].
  - destruct (SWAP_shuffle low high t l h) as (t1 & -> & S1 & R1); [lia..|]; cbn [obind]; pose proof (shuffle_zlen _ _ _ _ S1) as Z1.
    assert (below t1 low l p) as B2.
    { intros k w Hk Ew; swapped R1; [replace w with z by congruence; exact Hz|apply (B1 k); [lia|exact Ew]]. }
    assert (above t1 h high p) as A2.
    { intros k w Hk Ew; swapped R1; [replace w with y by congruence; exact Hy|apply (A1 k); [lia|exact Ew]]. }
    destruct (Z.leb_spec (l + 1) (h - 1)) as [Go|Stop].
    + destruct (IH t1 p low high (l + 1) (h - 1)) as (t2 & l2 & h2 & E2 & S2 & Rest); try lia;
        [replace (l + 1 - 1) with l by lia; exact B2|replace (h - 1 + 1) with h by lia; exact A2| | |].
      * exists h, y; split; [lia|split; [swapped R1; exact El|exact Hy]].
      * exists l, z; split; [lia|split; [swapped R1; exact Eh|exact Hz]].
      * exists t2, l2, h2; split; [exact E2|split; [eapply shuffle_trans; eassumption|exact Rest]].
    + exists t1, (l + 1), (h - 1); split; [reflexivity|split; [exact S1|]]; do 5 (split; [lia|]).
      replace (l + 1 - 1) with l by lia; replace (h - 1 + 1) with h by lia; auto.
  - destruct (Z.eqb_spec l h) as [Eq|Ne].
    + subst h; exists t, (l + 1), (l - 1); split; [reflexivity|split; [apply shuffle_refl|]]; do 5 (split; [lia|]).
      split; intros k w Hk Ew; (destruct (Z.eq_dec k l) as [->|N]; [replace w with y by congruence|]).
      * replace y with z by congruence; exact Hz.
      * apply (B1 k); [lia|exact Ew].
      * exact Hy.
      * apply (A1 k); [lia|exact Ew].
    + exists t, l, h; split; [reflexivity|split; [apply shuffle_refl|]]; do 5 (split; [lia|]); auto.
Qed.

Lemma choose_pivot_spec t low high : 0 <= low -> high < zlen t -> 10 <= high - low + 1 ->
  exists t' p i j, choose_pivot t low high (high - low + 1) = Some (t', p, i, j) /\ shuffle low high t t' /\
    low <= i /\ j <= high /\ below t' low (i - 1) p /\ above t' (j + 1) high p /\
    stops_up t' p i high /\ stops_down t' p low j.
Proof.
  intros H0 Hh Hc; unfold choose_pivot; rewrite Z.shiftr_div_pow2 by lia; change (2 ^ 1) with 2.
  set (count := high - low + 1) in *; set (mid := low + count / 2).
  assert (low + 1 < mid /\ mid < high - 1) as Hm by (unfold mid, count in *; dlia).
  rewrite Z.gtb_ltb; destruct (Z.ltb_spec 40 count) as [Big|Small].
  - set (step := count / 8); assert (0 < step /\ low + 2 * step < high /\ low + step < mid /\ mid < high - step)
      as Hst by (unfold mid, step, count in *; dlia).
    destruct (MEDIAN_spec low high t low (low + step) (low + step * 2)) as (t1 & -> & S1 & _); [lia..|]; cbn [obind].
    pose proof (shuffle_zlen _ _ _ _ S1) as Z1.
    destruct (MEDIAN_spec low high t1 (mid - step) mid (mid + step)) as (t2 & -> & S2 & _); [lia..|]; cbn [obind].
    pose proof (shuffle_zlen _ _ _ _ S2) as Z2.
    destruct (MEDIAN_spec low high t2 (high - 2 * step) (high - step) high) as (t3 & -> & S3 & _); [lia..|]; cbn [obind].
    pose proof (shuffle_zlen _ _ _ _ S3) as Z3.
    destruct (MEDIAN_spec low high t3 (low + step) mid (high - step)) as (t4 & -> & S4 & _); [lia..|]; cbn [obind].
    pose proof (shuffle_zlen _ _ _ _ S4) as Z4; destruct (rd_Some t4 mid) as [p Ep]; [lia|]; rewrite Ep; cbn [obind].
    exists t4, p, low, high; split; [reflexivity|split; [eauto using shuffle_trans|]]; do 2 (split; [lia|]).
    split; [intros k w Hk; lia|split; [intros k w Hk; lia|split; exists mid, p; (split; [lia|auto using le_refl])]].
  - destruct (MEDIAN_spec low high t low mid high) as (t1 & -> & S1 & L1 & L2); [lia..|]; cbn [obind].
    pose proof (shuffle_zlen _ _ _ _ S1) as Z1; destruct (rd_Some t1 mid) as [p Ep]; [lia|]; rewrite Ep; cbn [obind].
    exists t1, p, (low + 1), (high - 1); split; [reflexivity|split; [exact S1|]]; do 2 (split; [lia|]).
    split; [intros k w Hk Ew; replace k with low in Ew by lia; exact (L1 w p Ew Ep)|].
    split; [intros k w Hk Ew; replace k with high in Ew by lia; exact (L2 p w Ep Ew)|].
    split; exists mid, p; (split; [lia|auto using le_refl]).
Qed.

(** ** The ranges still to sort *)

Definition disjoint (r r' : Z * Z) : Prop := snd r < fst r' \/ snd r' < fst r.

Definition within (lo hi : Z) (r : Z * Z) : Prop := lo <= fst r /\ fst r <= snd r /\ snd r <= hi.

(** Two positions are in order or in a range of the list. *)
Definition settled (t : list A) (rs : list (Z * Z)) (i j : Z) : Prop :=
  le_at t i j \/ exists r, In r rs /\ fst r <= i /\ j <= snd r.

Record pending (t : list A) (rs : list (Z * Z)) : Prop := {
  pd_within : Forall (within 0 (zlen t - 1)) rs;
  pd_disjoint : ForallOrdPairs disjoint rs;
  pd_settled : forall i j, 0 <= i -> i < j -> j < zlen t -> settled t rs i j
}.

Lemma pending_range t lo hi st : pending t ((lo, hi) :: st) ->
  0 <= lo <= hi /\ hi < zlen t /\ Forall (disjoint (lo, hi)) st /\ Forall (within 0 (zlen t - 1)) st /\
  ForallOrdPairs disjoint st.
Proof.
  intros [W D _]; inversion_clear W as [|? ? W1 W2]; inversion_clear D as [|? ? D1 D2].
  unfold within in W1; cbn [fst snd] in W1; repeat split; auto; lia.
Qed.

(** A position outside the range is settled with all positions in it. *)
Lemma settled_outside t lo hi st i j : pending t ((lo, hi) :: st) -> 0 <= i < zlen t -> i < lo \/ hi < i ->
  lo <= j <= hi -> (i < j -> le_at t i j) /\ (j < i -> le_at t j i).
Proof.
  intros P Hi Ho Hj; destruct (pending_range _ _ _ _ P) as (Hlo & Hhi & D & _ & _); rewrite Forall_forall in D.
  split; intros L; [destruct (pd_settled _ _ P i j) as [|(r & [<-|Hr] & H1 & H2)]|destruct (pd_settled _ _ P j i) as [|(r & [<-|Hr] & H1 & H2)]];
    try lia; auto; cbn [fst snd] in *; try lia; specialize (D r Hr); unfold disjoint in D; cbn [fst snd] in D; lia.
Qed.

(** The range on top is reordered and replaced by parts of it. *)
Lemma pending_step t t' lo hi st rs : pending t ((lo, hi) :: st) -> shuffle lo hi t t' ->
  Forall (within lo hi) rs -> ForallOrdPairs disjoint rs ->
  (forall i j, lo <= i -> i < j -> j <= hi -> settled t' rs i j) -> pending t' (rs ++ st).
Proof.
  intros P S W D Hin; destruct (pending_range _ _ _ _ P) as (Hlo & Hhi & D1 & W1 & D2); pose proof (shuffle_zlen _ _ _ _ S) as L.
  assert (Forall (fun r => Forall (disjoint r) st) rs) as D3.
  { rewrite Forall_forall in *; intros r Hr; specialize (W r Hr); apply Forall_forall; intros r' Hr'.
    specialize (D1 r' Hr'); unfold disjoint, within in *; cbn [fst snd] in *; lia. }
  split.
  - apply Forall_app; rewrite L; split; [|exact W1]; eapply Forall_impl; [|exact W]; unfold within; lia.
  - clear W Hin; induction D as [|r rs' Hr D IH]; [exact D2|]; inversion_clear D3; cbn [app].
    constructor; [apply Forall_app; auto|apply IH; assumption].
  - rewrite L; intros i j Hi Hij Hj.
    destruct (Z_le_dec lo i), (Z_le_dec i hi), (Z_le_dec lo j), (Z_le_dec j hi);
      try (destruct (Hin i j) as [|(r & Hr & ?)]; [lia..|left; assumption|right; exists r; split; [apply in_or_app; auto|assumption]]).
    all: try (left; destruct (sh_from _ _ _ _ S j) as (j' & Hj' & E); [lia|]; intros a b Ha Hb;
      rewrite E in Hb; rewrite (sh_same _ _ _ _ S) in Ha by lia;
      apply (proj1 (settled_outside t lo hi st i j' P ltac:(lia) ltac:(lia) Hj') ltac:(lia)); assumption).
    all: try (left; destruct (sh_from _ _ _ _ S i) as (i' & Hi' & E); [lia|]; intros a b Ha Hb;
      rewrite E in Ha; rewrite (sh_same _ _ _ _ S) in Hb by lia;
      apply (proj2 (settled_outside t lo hi st j i' P ltac:(lia) ltac:(lia) Hi') ltac:(lia)); assumption).
    all: destruct (pd_settled _ _ P i j) as [H|(r & [<-|Hr] & H1 & H2)]; [lia..| | |]; cbn [fst snd] in *; try lia;
      [left; intros a b; rewrite !(sh_same _ _ _ _ S) by lia; apply H|right; exists r; split; [apply in_or_app; auto|lia]].
Qed.

(** ** The loop *)

Definition range_size (r : Z * Z) : Z := snd r - fst r + 1.

(** An entry has at most [n] elements divided by two for each entry below. *)
Fixpoint halved (n : Z) (st : list (Z * Z)) : Prop :=
  match st with
  | [] => True
  | r :: s => range_size r * 2 ^ zlen s <= n /\ halved n s
  end.

(** The steps that the ranges can still take. *)
Fixpoint weight (rs : list (Z * Z)) : Z :=
  match rs with
  | [] => 0
  | r :: rs' => 2 * range_size r - 1 + weight rs'
  end.

Lemma weight_nonneg lo hi rs : Forall (within lo hi) rs -> 0 <= weight rs.
Proof.
  induction 1 as [|r rs H _ IH]; cbn [weight]; unfold within, range_size in *; lia.
Qed.

Lemma halved_top n r st : halved n (r :: st) -> 10 <= range_size r -> n < 2147483648 -> 1 + zlen st < STACK_SIZE.
Proof.
  cbn [halved]; intros [H _] Hr Hn; unfold STACK_SIZE; destruct (Z.lt_ge_cases (zlen st) 63); [lia|].
  assert (2 ^ 63 <= 2 ^ zlen st) by (apply Z.pow_le_mono_r; lia); change (2 ^ 63) with 9223372036854775808 in *; nia.
Qed.

(** The smaller part goes on, the larger one waits below it. *)
Lemma halved_push n r a b st : halved n (r :: st) -> range_size a <= range_size b ->
  range_size a + range_size b <= range_size r -> 0 <= range_size a -> halved n (a :: b :: st).
Proof.
  cbn [halved]; intros [H Hs] Hab Hr Ha; pose proof (Z.pow_pos_nonneg 2 (zlen st) ltac:(lia) (zlen_nonneg st)).
  rewrite zlen_cons, Z.pow_add_r, Z.pow_1_r by llia; repeat split; auto; nia.
Qed.

Lemma halved_shrink n r a st : halved n (r :: st) -> range_size a <= range_size r -> halved n (a :: st).
Proof.
  cbn [halved]; intros [H Hs] Ha; pose proof (Z.pow_pos_nonneg 2 (zlen st) ltac:(lia) (zlen_nonneg st)); split; auto; nia.
Qed.

Lemma pending_pop t rs : pending t rs -> (forall r, In r rs -> snd r <= fst r) -> pending t [].
Proof.
  intros P H; split; [apply Forall_nil|constructor|].
  intros i j Hi Hij Hj; destruct (pd_settled _ _ P i j Hi Hij Hj) as [|(r & Hr & H1 & H2)]; [left; assumption|].
  specialize (H r Hr); lia.
Qed.

(** After the partition only the two parts are to be sorted. *)
Lemma parts_settled t low high l h p : below t low (l - 1) p -> above t (h + 1) high p -> h < l ->
  forall i j, low <= i -> i < j -> j <= high ->
  le_at t i j \/ (low <= i /\ j <= h) \/ (l <= i /\ j <= high).
Proof.
  intros B Ab Hhl i j Hi Hij Hj; destruct (Z_le_dec j h); [auto|]; destruct (Z_le_dec l i); [auto|left].
  intros x y Hx Hy; apply (le_trans x p y); [apply (B i); [lia|exact Hx]|apply (Ab j); [lia|exact Hy]].
Qed.

Lemma i32_id x : - 2147483648 <= x < 2147483648 -> i32 x = x.
Proof. unfold i32, swrap; change (2 ^ (32 - 1)) with 2147483648; change (2 ^ 32) with 4294967296; dlia. Qed.

Lemma i32_distance d n : 0 < size -> - n <= d <= n -> size * n < 2147483648 -> (i32 (size * d) <=? 0) = (d <=? 0).
Proof. intros Hs Hd Hn; rewrite i32_id by nia; destruct (Z.leb_spec d 0), (Z.leb_spec (size * d) 0); nia. Qed.

(** What is to be sorted next: a part of the range, the smaller of two parts
    with the larger one below it, or the range on top of the stack. *)
Lemma next_range_spec t t' n low high l h st p : 0 < size -> size * n < 2147483648 -> zlen t = n ->
  10 <= high - low + 1 -> pending t ((low, high) :: st) -> halved n ((low, high) :: st) -> shuffle low high t t' ->
  low < l -> h < high -> h < l -> l <= high + 1 -> low - 1 <= h -> below t' low (l - 1) p -> above t' (h + 1) high p ->
  exists rs, next_range low high l h st = Some match rs with [] => None | (a, b) :: s => Some (a, b, s) end /\
    pending t' rs /\ halved n rs /\ weight rs < weight ((low, high) :: st).
Proof.
  intros Hs Hn Ln Hc P Hv S H1 H2 H3 H4 H5 B Ab; destruct (pending_range _ _ _ _ P) as (Hlo & Hhi & _ & Wst & _).
  pose proof (parts_settled t' low high l h p B Ab H3) as Ps; unfold next_range.
  rewrite !(i32_distance _ n) by lia.
  assert (forall rs, Forall (within low high) rs -> ForallOrdPairs disjoint rs ->
    (low < h -> In (low, h) rs) -> (l < high -> In (l, high) rs) -> pending t' (rs ++ st)) as Go.
  { intros rs W D I1 I2; apply (pending_step t t' low high st rs P S W D); intros i j Hi Hij Hj.
    destruct (Ps i j Hi Hij Hj) as [L|[[E1 E2]|[E1 E2]]]; [left; exact L|right; eexists; split; [apply I1; lia|cbn [fst snd]; lia]
      |right; eexists; split; [apply I2; lia|cbn [fst snd]; lia]]. }
  assert (within low high (low, h) \/ h < low) as W1 by (unfold within; cbn [fst snd]; lia).
  assert (within low high (l, high) \/ high < l) as W2 by (unfold within; cbn [fst snd]; lia).
  assert (forall a b, low <= a -> a <= b -> b <= high -> within low high (a, b)) as Win by (unfold within; cbn [fst snd]; lia).
  assert (disjoint (low, h) (l, high) /\ disjoint (l, high) (low, h)) as [D1 D2] by (unfold disjoint; cbn [fst snd]; lia).
  assert (forall a, ForallOrdPairs disjoint [a]) as One by (intros a; repeat constructor).
  assert (1 + zlen st < STACK_SIZE) as Hst by (apply (halved_top n (low, high)); [exact Hv|unfold range_size; cbn [fst snd]; lia|nia]).
  assert (forall a b, range_size (a, b) = b - a + 1) as Rs by reflexivity.
  destruct (Z.leb_spec (h - low) 0) as [SL|BL]; destruct (Z.leb_spec (high - l) 0) as [SR|BR].
  - exists st; split; [destruct st as [|[a b] s]; reflexivity|]; split; [apply (Go []); [constructor..|lia|lia]|].
    split; [apply Hv|cbn [weight]; rewrite Rs; lia].
  - exists ((l, high) :: st); split; [reflexivity|]; split; [apply (Go [(l, high)]); auto; [constructor; [apply Win; lia|constructor]|lia|intros _; left; reflexivity]|].
    split; [apply (halved_shrink n (low, high)); [exact Hv|rewrite !Rs; lia]|cbn [weight]; rewrite !Rs; lia].
  - exists ((low, h) :: st); split; [reflexivity|]; split; [apply (Go [(low, h)]); auto; [constructor; [apply Win; lia|constructor]|intros _; left; reflexivity|lia]|].
    split; [apply (halved_shrink n (low, high)); [exact Hv|rewrite !Rs; lia]|cbn [weight]; rewrite !Rs; lia].
  - unfold PUSH; rewrite (proj2 (Z.ltb_lt _ _) Hst); rewrite Z.gtb_ltb.
    destruct (Z.ltb_spec (size * (high - l)) (size * (h - low))) as [Lt|Ge].
    + exists ((l, high) :: (low, h) :: st); split; [reflexivity|].
      split; [apply (Go [(l, high); (low, h)]); repeat constructor; auto; try (apply Win; lia); intros _; cbn; auto|].
      split; [apply (halved_push n (low, high)); [exact Hv|rewrite !Rs; nia..]|cbn [weight]; rewrite !Rs; lia].
    + exists ((low, h) :: (l, high) :: st); split; [reflexivity|].
      split; [apply (Go [(low, h); (l, high)]); repeat constructor; auto; try (apply Win; lia); intros _; cbn; auto|].
      split; [apply (halved_push n (low, high)); [exact Hv|rewrite !Rs; nia..]|cbn [weight]; rewrite !Rs; lia].
Qed.

Lemma sort_ranges_spec fuel : forall t n low high st, 0 < size -> size * n < 2147483648 -> zlen t = n ->
  pending t ((low, high) :: st) -> halved n ((low, high) :: st) -> weight ((low, high) :: st) <= Z.of_nat fuel ->
  exists t', sort_ranges fuel t low high st = Some t' /\ Permutation t t' /\ pending t' [].
Proof.
  induction fuel as [|fuel IH]; intros t n low high st Hs Hn Ln P Hv Hf;
    destruct (pending_range _ _ _ _ P) as (Hlo & Hhi & _ & Wst & _); pose proof (weight_nonneg _ _ _ Wst) as Hw;
    assert (weight ((low, high) :: st) = 2 * (high - low + 1) - 1 + weight st) as Ew by reflexivity; [lia|].
  cbn [sort_ranges]; destruct (Z.ltb_spec (high - low + 1) THRESHOLD_FOR_INSERT_SORT) as [Small|Big]; unfold THRESHOLD_FOR_INSERT_SORT in *.
  - destruct (insert_sort_spec (S (Z.to_nat (high - low + 1))) t low (low + 1) high) as (t1 & -> & S1 & H1);
      [lia..|intros i j Hi Hij Hj; lia|]; cbn [obind].
    assert (pending t1 st) as P1.
    { apply (pending_step t t1 low high st [] P S1); [constructor..|]; intros i j Hi Hij Hj; left; apply H1; assumption. }
    destruct st as [|[a b] s]; [exists t1; split; [reflexivity|split; [apply S1|exact P1]]|].
    destruct (IH t1 n a b s) as (t2 & -> & S2 & P2); try assumption;
      [rewrite (shuffle_zlen _ _ _ _ S1); exact Ln|apply Hv|lia|].
    exists t2; split; [reflexivity|split; [eapply Permutation_trans; [apply S1|exact S2]|exact P2]].
  - destruct (choose_pivot_spec t low high) as (t1 & p & i & j & -> & S1 & Hi & Hj & B1 & A1 & U1 & D1); [lia..|]; cbn [obind].
    pose proof (shuffle_zlen _ _ _ _ S1) as Z1.
    destruct (partition_spec (S (length t1)) t1 p low high i j) as (t2 & l & h & -> & S2 & H1 & H2 & H3 & H4 & H5 & B2 & A2);
      try assumption; [lia|lia|unfold zlen in *; lia|lia|]; cbn [obind].
    assert (shuffle low high t t2) as S12 by (eapply shuffle_trans; eassumption).
    destruct (next_range_spec t t2 n low high l h st p) as (rs & -> & P2 & Hv2 & W2); try assumption; cbn [obind].
    destruct rs as [|[a b] s]; [exists t2; split; [reflexivity|split; [apply S12|exact P2]]|].
    destruct (IH t2 n a b s) as (t3 & -> & S3 & P3); try assumption; [rewrite (shuffle_zlen _ _ _ _ S12); exact Ln|lia|].
    exists t3; split; [reflexivity|split; [eapply Permutation_trans; [apply S12|exact S3]|exact P3]].
Qed.

Lemma sorted_list t : (forall i j, 0 <= i -> i < j -> j < zlen t -> le_at t i j) -> StronglySorted le t.
Proof.
  induction t as [|x t IH]; intros H; constructor.
  - apply IH; intros i j Hi Hij Hj a b Ha Hb; apply (H (i + 1) (j + 1)); [lia|lia|llia|..];
      unfold rd in *; destruct (Z.ltb_spec (i + 1) 0), (Z.ltb_spec (j + 1) 0), (Z.ltb_spec i 0), (Z.ltb_spec j 0); try lia.
    + replace (Z.to_nat (i + 1)) with (S (Z.to_nat i)) by lia; exact Ha.
    + replace (Z.to_nat (j + 1)) with (S (Z.to_nat j)) by lia; exact Hb.
  - apply Forall_forall; intros y Hy; apply In_nth_error in Hy as [k Hk].
    apply (H 0 (Z.of_nat (S k))); [lia|lia|unfold zlen; cbn [length]; assert (k < length t)%nat by (apply nth_error_Some; congruence); lia|reflexivity|].
    unfold rd; destruct (Z.ltb_spec (Z.of_nat (S k)) 0); [lia|]; rewrite Nat2Z.id; exact Hk.
Qed.

Lemma my_qsort_spec t : 0 < size -> size * zlen t < 2147483648 ->
  exists t', my_qsort t = Some t' /\ Permutation t t' /\ StronglySorted le t'.
Proof.
  intros Hs Hn; unfold my_qsort; destruct (Z.leb_spec (zlen t) 1) as [L|G].
  - exists t; split; [reflexivity|split; [apply Permutation_refl|apply sorted_list; intros i j Hi Hij Hj; lia]].
  - destruct (sort_ranges_spec (Z.to_nat (2 * zlen t)) t (zlen t) 0 (zlen t - 1) []) as (t' & E & P & Pd); try assumption; [reflexivity|..].
    + split; [constructor; [unfold within; cbn [fst snd]; lia|constructor]|repeat constructor|].
      intros i j Hi Hij Hj; right; eexists; split; [left; reflexivity|cbn [fst snd]; lia].
    + cbn; rewrite Z.mul_1_r; unfold range_size; cbn [fst snd]; split; [lia|exact I].
    + cbn [weight]; unfold range_size; cbn [fst snd]; lia.
    + exists t'; split; [exact E|split; [exact P|apply sorted_list]].
      intros i j Hi Hij Hj; destruct (pd_settled _ _ Pd i j Hi Hij Hj) as [|(r & [] & _)]; assumption.
Qed.

End qsort.

(** ** The properties *)

(** C19. For every comparison that is a total preorder and every array of less
    than 2^31 bytes, [my_qsort] ends, reads and writes only inside the array
    and its stack of 64 entries, and leaves the elements of the array in
    order. *)
Theorem my_qsort_correct {A} (cmp : A -> A -> Z) size t : Comparison cmp -> 0 < size -> size * zlen t < 2147483648 ->
  exists t', my_qsort cmp size t = Some t' /\ Permutation t t' /\ StronglySorted (fun x y => cmp x y <= 0) t'.
Proof. intros Hc; apply (my_qsort_spec cmp size t). Qed.

#[export] Instance sub_comparison : Comparison Z.sub.
Proof. split; lia. Qed.

(** Fifty numbers, so that a pivot is taken of nine elements. *)
Definition ex_array : list Z := map (fun i => (Z.of_nat i * 37 + 11) mod 53) (seq 0 50).

Lemma my_qsort_correct_witness : exists t', my_qsort Z.sub 8 ex_array = Some t' /\ Permutation ex_array t' /\
  StronglySorted (fun x y => x - y <= 0) t'.
Proof. apply (my_qsort_correct Z.sub 8 ex_array sub_comparison); [lia|vm_compute; reflexivity]. Defined.

(** A part of 2^31 bytes or more is taken for an empty one: the distance is
    cut to an [int]. *)
Lemma large_part_dropped size low high low_ptr high_ptr st :
  2147483648 <= size * (high_ptr - low) < 4294967296 -> 0 < size * (high - low_ptr) < 2147483648 ->
  next_range size low high low_ptr high_ptr st = Some (Some (low_ptr, high, st)).
Proof.
  intros H1 H2; unfold next_range; rewrite (i32_id (size * (high - low_ptr))) by lia.
  assert (i32 (size * (high_ptr - low)) = size * (high_ptr - low) - 4294967296) as ->
    by (unfold i32, swrap; change (2 ^ (32 - 1)) with 2147483648; change (2 ^ 32) with 4294967296; dlia).
  destruct (Z.leb_spec (size * (high_ptr - low) - 4294967296) 0); [|lia].
  destruct (Z.leb_spec (size * (high - low_ptr)) 0); [lia|reflexivity].
Qed.
