(* ===== verification/StrSort.v ===== *)
(** Sorting an array of pointers to strings of the same length:
    [my_string_ptr_sort] of [src/drizzled/internal/mf_sort.cc], with the
    unrolled comparisons of [src/drizzled/internal/ptr_cmp.cc] and the radix
    sort of [src/drizzled/internal/mf_radix.cc].

    A pointer is an element of a type [A], the memory the function [key] from
    a pointer to the bytes it points to; [None] is a read or write outside an
    array, or of a slot of the buffer that was not written. *)

From Stdlib Require Import ZArith Lia ZifyBool List Bool Permutation Sorted.
From S2P Require Import Prelude Words Qsort.
Import ListNotations.
Local Open Scope Z_scope.
Local Open Scope fail_scope.

(** ** Model: comparisons *)

(** src/drizzled/internal/ptr_cmp.cc:59-59 cmp

    The macro for each of the offsets: [Some] difference is the return. *)
Fixpoint cmp_bytes (first last : list Z) (p : Z) (offsets : list Z) : option (option Z) :=
  match offsets with
  | [] => Some None
  | n :: offsets' =>
      let? x := rd first (p + n) in
      let? y := rd last (p + n) in
      if x =? y then cmp_bytes first last p offsets' else Some (Some (x - y))
  end.

(** src/drizzled/internal/ptr_cmp.cc:66-72 ptr_compare *)
Fixpoint compare_loop (fuel : nat) (first last : list Z) (p length : Z) : option Z :=
  match fuel with
  | O => None
  | S fuel' =>
      let length := length - 1 in
      let? x := rd first p in
      let? y := rd last p in
      if length =? 0 then Some (x - y)
      else if x =? y then compare_loop fuel' first last (p + 1) length else Some (x - y)
  end.

(** src/drizzled/internal/ptr_cmp.cc:61-73 ptr_compare *)
Definition ptr_compare (compare_length : Z) (a b : list Z) : option Z :=
  compare_loop (S (Z.to_nat compare_length)) a b 0 (i32 compare_length).

(** src/drizzled/internal/ptr_cmp.cc:82-93 ptr_compare_0

    The loop of all four functions. *)
Fixpoint block_loop (fuel : nat) (first last : list Z) (p length : Z) : option Z :=
  match fuel with
  | O => None
  | S fuel' =>
      let? r := cmp_bytes first last p [0; 1; 2; 3] in
      match r with
      | Some d => Some d
      | None => if length - 4 =? 0 then Some 0 else block_loop fuel' first last (p + 4) (length - 4)
      end
  end.

(** src/drizzled/internal/ptr_cmp.cc:76-94 ptr_compare_0 *)
Definition ptr_compare_0 (compare_length : Z) (a b : list Z) : option Z :=
  block_loop (S (Z.to_nat compare_length)) a b 0 (i32 compare_length).

(** src/drizzled/internal/ptr_cmp.cc:97-116 ptr_compare_1 *)
Definition ptr_compare_1 (compare_length : Z) (a b : list Z) : option Z :=
  let? r := cmp_bytes a b 1 [-1] in
  match r with
  | Some d => Some d
  | None => block_loop (S (Z.to_nat compare_length)) a b 1 (i32 (compare_length - 1))
  end.

(** src/drizzled/internal/ptr_cmp.cc:118-138 ptr_compare_2 *)
Definition ptr_compare_2 (compare_length : Z) (a b : list Z) : option Z :=
  let? r := cmp_bytes a b 2 [-2; -1] in
  match r with
  | Some d => Some d
  | None => block_loop (S (Z.to_nat compare_length)) a b 2 (i32 (compare_length - 2))
  end.

(** src/drizzled/internal/ptr_cmp.cc:140-161 ptr_compare_3 *)
Definition ptr_compare_3 (compare_length : Z) (a b : list Z) : option Z :=
  let? r := cmp_bytes a b 3 [-3; -2; -1] in
  match r with
  | Some d => Some d
  | None => block_loop (S (Z.to_nat compare_length)) a b 3 (i32 (compare_length - 3))
  end.

(** src/drizzled/internal/ptr_cmp.cc:40-51 get_ptr_compare *)
Definition get_ptr_compare (size : Z) : Z -> list Z -> list Z -> option Z :=
  if size <? 4 then ptr_compare
  else if Z.land size 3 =? 0 then ptr_compare_0
  else if Z.land size 3 =? 1 then ptr_compare_1
  else if Z.land size 3 =? 2 then ptr_compare_2
  else ptr_compare_3.

(** ** Comparing is [memcmp] *)

(** The difference of the first two bytes that differ. *)
Fixpoint memdiff (a b : list Z) : Z :=
  match a, b with
  | x :: a', y :: b' => if x =? y then memdiff a' b' else x - y
  | _, _ => 0
  end.

Lemma memdiff_memcmp a : forall b, memcmp a b = (memdiff a b ?= 0).
Proof.
  induction a as [|x a IH]; intros [|y b]; cbn [memcmp memdiff]; try reflexivity.
  destruct (Z.eqb_spec x y) as [->|N]; [rewrite Z.compare_refl; apply IH|].
  destruct (Z.compare_spec x y); [congruence|symmetry; apply Z.compare_lt_iff; lia|symmetry; apply Z.compare_gt_iff; lia].
Qed.

Lemma memdiff_opp a : forall b, memdiff b a = - memdiff a b.
Proof.
  induction a as [|x a IH]; intros [|y b]; cbn [memdiff]; try reflexivity.
  rewrite (Z.eqb_sym y x); destruct (Z.eqb_spec x y); [apply IH|lia].
Qed.

Lemma memdiff_trans a : forall b c, zlen a = zlen b -> zlen b = zlen c ->
  memdiff a b <= 0 -> memdiff b c <= 0 -> memdiff a c <= 0.
Proof.
  induction a as [|x a IH]; intros [|y b] [|z c] L1 L2; cbn [memdiff]; try lia; try (exfalso; llia).
  destruct (Z.eqb_spec x y) as [->|N1]; destruct (Z.eqb_spec y z) as [->|N2].
  - apply IH; llia.
  - lia.
  - destruct (Z.eqb_spec x z); [congruence|lia].
  - destruct (Z.eqb_spec x z); lia.
Qed.

(** The offsets of [n] bytes. *)
Fixpoint offsets (n : nat) (o : Z) : list Z :=
  match n with
  | O => []
  | S n' => o :: offsets n' (o + 1)
  end.

(** Bytes that are all equal, or the difference of the rest. *)
Lemma memdiff_app u : forall v c d, zlen u = zlen v ->
  memdiff (u ++ c) (v ++ d) = if memdiff u v =? 0 then memdiff c d else memdiff u v.
Proof.
  induction u as [|x u IH]; intros [|y v] c d L; try (exfalso; llia); [reflexivity|]; cbn [app memdiff].
  destruct (Z.eqb_spec x y); [apply IH; llia|]; destruct (Z.eqb_spec (x - y) 0); [lia|reflexivity].
Qed.

Lemma cmp_bytes_eq n : forall u v pa pb c d p o, zlen u = Z.of_nat n -> zlen v = Z.of_nat n ->
  p + o = zlen pa -> p + o = zlen pb ->
  cmp_bytes (pa ++ u ++ c) (pb ++ v ++ d) p (offsets n o)
  = Some (if memdiff u v =? 0 then None else Some (memdiff u v)).
Proof.
  induction n as [|n IH]; intros u v pa pb c d p o Lu Lv Ea Eb.
  - rewrite (zlen_zero u), (zlen_zero v) by lia; reflexivity.
  - destruct u as [|x u]; [exfalso; llia|]; destruct v as [|y v]; [exfalso; llia|]; cbn [offsets cmp_bytes app memdiff].
    rewrite !rd_at by assumption; cbn [obind]; destruct (Z.eqb_spec x y) as [->|N].
    + regroup (pa ++ y :: u ++ c) ((pa ++ [y]) ++ u ++ c); regroup (pb ++ y :: v ++ d) ((pb ++ [y]) ++ v ++ d).
      apply IH; llia.
    + destruct (Z.eqb_spec (x - y) 0); [lia|reflexivity].
Qed.

Lemma compare_loop_eq fuel : forall u v pa pb p length, zlen u = length -> zlen v = length ->
  p = zlen pa -> p = zlen pb -> 1 <= length < Z.of_nat fuel ->
  compare_loop fuel (pa ++ u) (pb ++ v) p length = Some (memdiff u v).
Proof.
  induction fuel as [|fuel IH]; intros u v pa pb p len Lu Lv Ea Eb Hl; [lia|]; cbn [compare_loop].
  destruct u as [|x u]; [exfalso; llia|]; destruct v as [|y v]; [exfalso; llia|].
  rewrite !rd_at by assumption; cbn [obind memdiff]; destruct (Z.eqb_spec (len - 1) 0) as [E|N].
  - rewrite (zlen_zero u), (zlen_zero v) by llia; cbn [memdiff]; destruct (Z.eqb_spec x y); f_equal; lia.
  - destruct (Z.eqb_spec x y) as [->|_]; [|reflexivity].
    regroup (pa ++ y :: u) ((pa ++ [y]) ++ u); regroup (pb ++ y :: v) ((pb ++ [y]) ++ v); apply IH; llia.
Qed.

Lemma block_loop_eq fuel : forall u v pa pb p length k, zlen u = length -> zlen v = length ->
  p = zlen pa -> p = zlen pb -> length = 4 * k -> 1 <= k < Z.of_nat fuel ->
  block_loop fuel (pa ++ u) (pb ++ v) p length = Some (memdiff u v).
Proof.
  induction fuel as [|fuel IH]; intros u v pa pb p len k Lu Lv Ea Eb Ek Hk; [lia|]; cbn [block_loop].
  destruct (zsplit 4 u) as (u4 & u' & -> & L4 & Lu'); [lia|]; destruct (zsplit 4 v) as (v4 & v' & -> & M4 & Lv'); [lia|].
  change [0; 1; 2; 3] with (offsets 4 0); rewrite (cmp_bytes_eq 4 u4 v4 pa pb u' v' p 0) by lia; cbn [obind].
  rewrite memdiff_app by lia.
  destruct (Z.eqb_spec (memdiff u4 v4) 0) as [E|N]; [|reflexivity]; destruct (Z.eqb_spec (len - 4) 0) as [El|Nl].
  - rewrite (zlen_zero u'), (zlen_zero v') by llia; reflexivity.
  - rewrite (app_assoc pa), (app_assoc pb); apply (IH u' v' _ _ _ _ (k - 1)); llia.
Qed.

(** The first bytes and the blocks of four. *)
Lemma lead_blocks r n a b : 1 <= r <= 3 -> zlen a = r + 4 * n -> zlen b = r + 4 * n -> 1 <= n -> r + 4 * n < 2147483648 ->
  (let? d := cmp_bytes a b r (offsets (Z.to_nat r) (- r)) in
   match d with
   | Some d => Some d
   | None => block_loop (S (Z.to_nat (r + 4 * n))) a b r (i32 (r + 4 * n - r))
   end) = Some (memdiff a b).
Proof.
  intros Hr La Lb Hn Hm; destruct (zsplit r a) as (u & a' & -> & Lu & La'); [lia|].
  destruct (zsplit r b) as (v & b' & -> & Lv & Lb'); [lia|].
  pose proof (cmp_bytes_eq (Z.to_nat r) u v [] [] a' b' r (- r)) as E; change (zlen (@nil Z)) with 0 in E.
  cbn [app] in E; rewrite E by lia; cbn [obind].
  rewrite memdiff_app by lia; destruct (memdiff u v =? 0); [|reflexivity].
  rewrite i32_id by lia; apply (block_loop_eq _ a' b' u v r _ n); lia.
Qed.

Lemma land_3 n : 0 <= n -> Z.land n 3 = n mod 4.
Proof. intros H; change 3 with (Z.ones 2); rewrite Z.land_ones by lia; reflexivity. Qed.

Lemma get_ptr_compare_eq size a b : 1 <= size < 2147483648 -> zlen a = size -> zlen b = size ->
  get_ptr_compare size size a b = Some (memdiff a b).
Proof.
  intros Hs La Lb; unfold get_ptr_compare; rewrite land_3 by lia.
  destruct (Z.ltb_spec size 4) as [Lt|Ge].
  { unfold ptr_compare; rewrite i32_id by lia; apply (compare_loop_eq _ a b [] []); reflexivity || lia. }
  set (n := size / 4); assert (size = size mod 4 + 4 * n) as E by (unfold n; dlia).
  assert (0 <= size mod 4 < 4) as Hr by (apply Z.mod_pos_bound; lia); assert (1 <= n) as Hn by (unfold n; dlia); clearbody n.
  destruct (Z.eqb_spec (size mod 4) 0) as [E0|N0].
  { unfold ptr_compare_0; rewrite i32_id by lia; apply (block_loop_eq _ a b [] [] 0 size n); reflexivity || lia. }
  destruct (Z.eqb_spec (size mod 4) 1) as [E1|N1]; [rewrite E1 in E|destruct (Z.eqb_spec (size mod 4) 2) as [E2|N2]; [rewrite E2 in E|replace (size mod 4) with 3 in E by lia]].
  - rewrite E; apply (lead_blocks 1 n); lia.
  - rewrite E; apply (lead_blocks 2 n); lia.
  - rewrite E; apply (lead_blocks 3 n); lia.
Qed.

Section string_sort.
Context {A : Type} (key : A -> list Z).

(** ** Model: radix sort *)

(** src/drizzled/internal/mf_radix.cc:45-46 radixsort_for_str_ptr *)
Fixpoint tally (ptrs : list A) (pass : Z) (count : list Z) : option (list Z) :=
  match ptrs with
  | [] => Some count
  | p :: ptrs' =>
      let? b := rd (key p) pass in
      let? c := rd count b in
      let? count := wr count b (u32 (c + 1)) in
      tally ptrs' pass count
  end.

(** src/drizzled/internal/mf_radix.cc:49-54 radixsort_for_str_ptr

    The [n] counters from [k] on; [None] inside: the jump to [next]. *)
Fixpoint sum_counts (n : nat) (k number_of_elements : Z) (count : list Z) : option (option (list Z)) :=
  match n with
  | O => Some (Some count)
  | S n' =>
      let? c := rd count k in
      if c =? number_of_elements then Some None
      else
        let? prev := rd count (k - 1) in
        let? count := wr count k (u32 (c + prev)) in
        sum_counts n' (k + 1) number_of_elements count
  end.

(** src/drizzled/internal/mf_radix.cc:55-56 radixsort_for_str_ptr

    The pointers from the last one to the first. *)
Fixpoint distribute (ptrs : list A) (pass : Z) (count : list Z) (buffer : list (option A))
  : option (list (option A)) :=
  match ptrs with
  | [] => Some buffer
  | p :: ptrs' =>
      let? b := rd (key p) pass in
      let? c := rd count b in
      let c := u32 (c - 1) in
      let? count := wr count b c in
      let? buffer := wr buffer c (Some p) in
      distribute ptrs' pass count buffer
  end.

(** src/drizzled/internal/mf_radix.cc:57-58 radixsort_for_str_ptr *)
Fixpoint copy_back (n : nat) (buffer : list (option A)) (q : Z) : option (list A) :=
  match n with
  | O => Some []
  | S n' =>
      let? s := rd buffer q in
      let? p := s in
      let? r := copy_back n' buffer (q + 1) in
      Some (p :: r)
  end.

(** src/drizzled/internal/mf_radix.cc:43-60 radixsort_for_str_ptr *)
Definition radix_pass (base : list A) (pass : Z) (buffer : list (option A)) : option (list A * list (option A)) :=
  let number_of_elements := zlen base in
  let? count := tally base pass (repeat 0 256) in
  let? c := rd count 0 in
  if c =? number_of_elements then Some (base, buffer)
  else
    let? r := sum_counts 255 1 number_of_elements count in
    match r with
    | None => Some (base, buffer)
    | Some count =>
        let? buffer := distribute (rev base) pass count buffer in
        let? base := copy_back (length base) buffer 0 in
        Some (base, buffer)
    end.

(** src/drizzled/internal/mf_radix.cc:42-60 radixsort_for_str_ptr

    The passes from [n - 1] down to 0. *)
Fixpoint radix_passes (n : nat) (base : list A) (buffer : list (option A)) : option (list A) :=
  match n with
  | O => Some base
  | S n' =>
      let? (base, buffer) := radix_pass base (Z.of_nat n') buffer in
      radix_passes n' base buffer
  end.

(** src/drizzled/internal/mf_radix.cc:35-61 radixsort_for_str_ptr *)
Definition radixsort_for_str_ptr (base : list A) (size_of_element : Z) (buffer : list (option A)) : option (list A) :=
  radix_passes (Z.to_nat size_of_element) base buffer.

(** ** Model: the choice *)

(** The comparison of two pointers; [compare_length] points to [size]. *)
Definition key_cmp (size : Z) (p q : A) : Z :=
  match get_ptr_compare size size (key p) (key q) with Some d => d | None => 0 end.

(** src/drizzled/internal/mf_sort.cc:26-46 my_string_ptr_sort *)
Definition my_string_ptr_sort (base : list A) (size : Z) : option (list A) :=
  let items := zlen base in
  if (size <=? 20) && (1000 <=? items) && (items <? 100000) then
    radixsort_for_str_ptr base size (repeat None (Z.to_nat items))
  else if negb (size =? 0) && negb (items =? 0) then my_qsort (key_cmp size) 8 base
  else Some base.

(** ** Buckets *)

Lemma zlen_perm (t t' : list A) : Permutation t t' -> zlen t = zlen t'.
Proof. intros P; unfold zlen; rewrite (Permutation_length P); reflexivity. Qed.

Section pass.
Context (byte : A -> Z).

(** The elements with the byte [b], in their order. *)
Definition bucket (t : list A) (b : Z) : list A := List.filter (fun p => byte p =? b) t.

(** The first [n] buckets one after the other. *)
Definition buckets (n : nat) (t : list A) : list A := concat (map (fun i => bucket t (Z.of_nat i)) (seq 0 n)).

(** Where the bucket [n] starts. *)
Definition start (t : list A) (n : nat) : Z := zlen (buckets n t).

Lemma buckets_S n t : buckets (S n) t = buckets n t ++ bucket t (Z.of_nat n).
Proof. unfold buckets; rewrite seq_S, map_app, concat_app; cbn; rewrite app_nil_r; reflexivity. Qed.

Lemma start_S t n : start t (S n) = start t n + zlen (bucket t (Z.of_nat n)).
Proof. unfold start; rewrite buckets_S, zlen_app; reflexivity. Qed.

Lemma start_mono t n m : (n <= m)%nat -> start t n <= start t m.
Proof. induction 1 as [|m H IH]; [lia|rewrite start_S; pose proof (zlen_nonneg (bucket t (Z.of_nat m))); lia]. Qed.

Lemma bucket_cons p t b : bucket (p :: t) b = if byte p =? b then p :: bucket t b else bucket t b.
Proof. reflexivity. Qed.

Lemma bucket_app t t' b : bucket (t ++ t') b = bucket t b ++ bucket t' b.
Proof. apply filter_app. Qed.

Lemma buckets_rd t n : forall N k, (n < N)%nat -> 0 <= k < zlen (bucket t (Z.of_nat n)) ->
  rd (buckets N t) (start t n + k) = rd (bucket t (Z.of_nat n)) k.
Proof.
  induction N as [|N IH]; intros k Hn Hk; [lia|]; rewrite buckets_S.
  destruct (rd_Some _ _ Hk) as [x Ex]; rewrite Ex.
  destruct (Nat.eq_dec n N) as [->|Ne].
  - destruct (zsplit k (bucket t (Z.of_nat N))) as (l1 & [|y l2] & E & L1 & L2); [lia|exfalso; llia|].
    rewrite E in *; rewrite rd_at in Ex by lia; rewrite app_assoc; rewrite rd_at; [exact Ex|unfold start; llia].
  - specialize (IH k ltac:(lia) Hk); rewrite Ex in IH; pose proof (rd_bounds _ _ _ IH) as B.
    destruct (zsplit (start t n + k) (buckets N t)) as (l1 & [|y l2] & E & L1 & L2); [lia|exfalso; llia|].
    rewrite E in *; rewrite rd_at in IH by lia; rewrite <- app_assoc; cbn [app]; rewrite rd_at by lia; exact IH.
Qed.

Lemma start_find t N : forall i, 0 <= i < start t N ->
  exists n k, (n < N)%nat /\ i = start t n + k /\ 0 <= k < zlen (bucket t (Z.of_nat n)).
Proof.
  induction N as [|N IH]; intros i Hi; [cbn in Hi; lia|]; rewrite start_S in Hi.
  destruct (Z.lt_ge_cases i (start t N)) as [L|G]; [destruct (IH i) as (n & k & ? & ? & ?); [lia|]; exists n, k; auto|].
  exists N, (i - start t N); repeat split; lia.
Qed.

Lemma buckets_cons p t n : Permutation (buckets n (p :: t))
  (if (0 <=? byte p) && (byte p <? Z.of_nat n) then p :: buckets n t else buckets n t).
Proof.
  induction n as [|n IH].
  { destruct (Z.leb_spec 0 (byte p)), (Z.ltb_spec (byte p) (Z.of_nat 0)); cbn [andb]; (lia || reflexivity). }
  rewrite !buckets_S, IH, bucket_cons; destruct (Z.eqb_spec (byte p) (Z.of_nat n)) as [->|N].
  - rewrite (proj2 (Z.ltb_ge (Z.of_nat n) (Z.of_nat n)) ltac:(lia)), andb_false_r.
    rewrite (proj2 (Z.leb_le 0 (Z.of_nat n)) ltac:(lia)), (proj2 (Z.ltb_lt (Z.of_nat n) (Z.of_nat (S n))) ltac:(lia)); cbn [andb].
    symmetry; apply Permutation_middle.
  - replace (byte p <? Z.of_nat (S n)) with (byte p <? Z.of_nat n) by lia.
    destruct ((0 <=? byte p) && (byte p <? Z.of_nat n)); reflexivity.
Qed.

Lemma buckets_perm t : Forall (fun p => 0 <= byte p < 256) t -> Permutation t (buckets 256 t).
Proof.
  induction 1 as [|p t Hp _ IH]; [reflexivity|]; rewrite buckets_cons.
  destruct (Z.leb_spec 0 (byte p)), (Z.ltb_spec (byte p) (Z.of_nat 256)); try lia; cbn [andb]; rewrite <- IH; reflexivity.
Qed.

(** The order by the byte first. *)
Definition byte_first (R : A -> A -> Prop) (p q : A) : Prop := byte p < byte q \/ byte p = byte q /\ R p q.

Lemma key_sorted_app (R : A -> A -> Prop) l l' : StronglySorted R l -> StronglySorted R l' ->
  (forall x y, In x l -> In y l' -> R x y) -> StronglySorted R (l ++ l').
Proof.
  intros S S' H; induction S as [|x l S IH F]; [exact S'|]; cbn [app]; constructor.
  - apply IH; intros a b Ha Hb; apply H; [right; exact Ha|exact Hb].
  - apply Forall_app; split; [exact F|apply Forall_forall; intros y Hy; apply H; [left; reflexivity|exact Hy]].
Qed.

Lemma bucket_sorted R t b : StronglySorted R t -> StronglySorted (byte_first R) (bucket t b).
Proof.
  intros S; induction S as [|x t S IH F]; [constructor|]; rewrite bucket_cons.
  destruct (Z.eqb_spec (byte x) b) as [E|_]; [|exact IH]; constructor; [exact IH|].
  apply Forall_forall; intros y [Hy Ey]%filter_In; apply Z.eqb_eq in Ey; right; split; [lia|].
  rewrite Forall_forall in F; apply F, Hy.
Qed.

Lemma buckets_byte n t x : In x (buckets n t) -> byte x < Z.of_nat n.
Proof.
  induction n as [|n IH]; [intros []|]; rewrite buckets_S; intros [H|[_ H]%filter_In]%in_app_or; [apply IH in H; lia|].
  apply Z.eqb_eq in H; lia.
Qed.

Lemma buckets_sorted R t n : StronglySorted R t -> StronglySorted (byte_first R) (buckets n t).
Proof.
  intros S; induction n as [|n IH]; [constructor|]; rewrite buckets_S; apply key_sorted_app; [exact IH|apply bucket_sorted, S|].
  intros x y Hx%buckets_byte [_ Hy]%filter_In; apply Z.eqb_eq in Hy; left; lia.
Qed.

Lemma same_byte_sorted R t b : StronglySorted R t -> Forall (fun p => byte p = b) t -> StronglySorted (byte_first R) t.
Proof.
  intros S; induction S as [|x t S IH F]; intros H; [constructor|]; inversion_clear H as [|? ? Hx Ht].
  constructor; [apply IH, Ht|]; rewrite Forall_forall in *; intros y Hy; right; split; [rewrite (Ht y Hy); exact Hx|apply F, Hy].
Qed.

(** A bucket that has all elements. *)
Lemma bucket_full t b : zlen (bucket t b) = zlen t -> Forall (fun p => byte p = b) t.
Proof.
  induction t as [|p t IH]; intros H; [constructor|]; rewrite bucket_cons in H.
  assert (zlen (bucket t b) <= zlen t) by (unfold zlen, bucket; pose proof (filter_length_le (fun p => byte p =? b) t); lia).
  destruct (Z.eqb_spec (byte p) b) as [E|N]; [constructor; [exact E|apply IH; llia]|exfalso; llia].
Qed.
End pass.

(** ** A pass of the radix sort *)

Section radix.
Context (pass : Z) (byte : A -> Z).
Hypothesis byte_at : forall p, rd (key p) pass = Some (byte p).
Hypothesis byte_range : forall p, 0 <= byte p < 256.

(** The array of counters as a function. *)
Definition counts (count : list Z) (f : Z -> Z) : Prop := zlen count = 256 /\ forall b, 0 <= b < 256 -> rd count b = Some (f b).

Lemma counts_wr count f b v : counts count f -> 0 <= b < 256 ->
  exists count', wr count b v = Some count' /\ counts count' (fun b' => if b =? b' then v else f b').
Proof.
  intros [L H] Hb; destruct (wr_Some count b v) as [c' E]; [lia|]; exists c'; split; [exact E|].
  split; [rewrite (wr_zlen _ _ _ _ E); exact L|]; intros b' Hb'; rewrite (rd_wr _ _ _ _ b' E), H by exact Hb'.
  destruct (b =? b'); reflexivity.
Qed.

Lemma counts_ext count f g : counts count f -> (forall b, 0 <= b < 256 -> f b = g b) -> counts count g.
Proof. intros [L H] E; split; [exact L|]; intros b Hb; rewrite H, E by exact Hb; reflexivity. Qed.

Lemma bucket_le t b : zlen (bucket byte t b) <= zlen t.
Proof. unfold zlen, bucket; pose proof (filter_length_le (fun p => byte p =? b) t); lia. Qed.

Lemma tally_spec t : forall count f, counts count f -> (forall b, 0 <= f b /\ f b + zlen t < 4294967296) ->
  exists count', tally t pass count = Some count' /\ counts count' (fun b => f b + zlen (bucket byte t b)).
Proof.
  induction t as [|p t IH]; intros count f C Hf; cbn [tally].
  - exists count; split; [reflexivity|]; apply (counts_ext _ _ _ C); intros b _; cbn; lia.
  - rewrite byte_at; cbn [obind]; destruct C as [L H]; rewrite H by apply byte_range; cbn [obind].
    rewrite u32_small by (specialize (Hf (byte p)); pose proof (zlen_nonneg t); rewrite zlen_cons in Hf; lia).
    destruct (counts_wr count f (byte p) (f (byte p) + 1) (conj L H) (byte_range p)) as (c1 & -> & C1); cbn [obind].
    destruct (IH c1 _ C1) as (c2 & -> & C2).
    + intros b; specialize (Hf b); rewrite zlen_cons in Hf; destruct (Z.eqb_spec (byte p) b) as [->|]; lia.
    + exists c2; split; [reflexivity|]; apply (counts_ext _ _ _ C2); intros b _; rewrite bucket_cons.
      destruct (Z.eqb_spec (byte p) b) as [->|]; rewrite ?zlen_cons; lia.
Qed.

(** The counters up to [k] are sums, the others counts. *)
Definition summed (t : list A) (k b : Z) : Z :=
  if b <? k then start byte t (S (Z.to_nat b)) else zlen (bucket byte t b).

Lemma start_le t n : (n <= 256)%nat -> start byte t n <= zlen t.
Proof.
  intros H; rewrite (start_mono byte t n 256 H); unfold start; rewrite <- (zlen_perm t); [lia|].
  apply buckets_perm, Forall_forall; auto.
Qed.

Lemma sum_counts_spec t n : forall k count, 1 <= k -> k + Z.of_nat n = 256 -> zlen t < 4294967296 ->
  counts count (summed t k) ->
  (exists b, sum_counts n k (zlen t) count = Some None /\ zlen (bucket byte t b) = zlen t) \/
  (exists count', sum_counts n k (zlen t) count = Some (Some count') /\
     counts count' (fun b => start byte t (S (Z.to_nat b)))).
Proof.
  induction n as [|n IH]; intros k count Hk Hn Ht [L H]; cbn [sum_counts].
  - right; exists count; split; [reflexivity|]; split; [exact L|]; intros b Hb; rewrite H by exact Hb.
    unfold summed; destruct (Z.ltb_spec b k); [reflexivity|lia].
  - assert (summed t k k = zlen (bucket byte t k)) as Ek by (unfold summed; rewrite Z.ltb_irrefl; reflexivity).
    assert (summed t k (k - 1) = start byte t (Z.to_nat k)) as Ek1.
    { unfold summed; rewrite (proj2 (Z.ltb_lt (k - 1) k)) by lia; replace (S (Z.to_nat (k - 1))) with (Z.to_nat k) by lia; reflexivity. }
    rewrite !H by lia; cbn [obind]; rewrite Ek, Ek1.
    destruct (Z.eqb_spec (zlen (bucket byte t k)) (zlen t)) as [E|N]; [left; eauto|].
    assert (zlen (bucket byte t k) + start byte t (Z.to_nat k) = start byte t (S (Z.to_nat k))) as E
      by (rewrite start_S, Z2Nat.id by lia; lia).
    rewrite E, u32_small by (pose proof (start_le t (S (Z.to_nat k)) ltac:(lia)); unfold start in *; pose proof (zlen_nonneg (buckets byte (S (Z.to_nat k)) t)); lia).
    destruct (counts_wr count _ k (start byte t (S (Z.to_nat k))) (conj L H)) as (c1 & -> & C1); [lia|]; cbn [obind].
    apply (IH (k + 1) c1); [lia|lia|exact Ht|]; apply (counts_ext _ _ _ C1); intros b Hb; unfold summed.
    destruct (Z.eqb_spec k b) as [->|Nb]; [rewrite (proj2 (Z.ltb_lt b (b + 1))) by lia; reflexivity|].
    destruct (Z.ltb_spec b k), (Z.ltb_spec b (k + 1)); try lia; reflexivity.
Qed.

(** The buffer when the elements [s] at the end of [t] are in their place. *)
Record placed (t s : list A) (count : list Z) (buffer : list (option A)) : Prop := {
  pl_count : counts count (fun b => start byte t (S (Z.to_nat b)) - zlen (bucket byte s b));
  pl_slot : forall b k, 0 <= b < 256 -> 0 <= k < zlen (bucket byte s b) ->
    rd buffer (start byte t (S (Z.to_nat b)) - zlen (bucket byte s b) + k) = Some (rd (bucket byte s b) k)
}.

Lemma start_slot t b k : 0 <= b -> 0 <= k < zlen (bucket byte t b) ->
  start byte t (Z.to_nat b) <= start byte t (S (Z.to_nat b)) - k - 1 < start byte t (S (Z.to_nat b)).
Proof. intros Hb Hk; rewrite start_S, Z2Nat.id by exact Hb; lia. Qed.

Lemma rd_cons_pos {B} (x : B) l k : 0 < k -> rd (x :: l) k = rd l (k - 1).
Proof.
  intros H; unfold rd; destruct (Z.ltb_spec k 0), (Z.ltb_spec (k - 1) 0); try lia.
  replace (Z.to_nat k) with (S (Z.to_nat (k - 1))) by lia; reflexivity.
Qed.

Lemma distribute_spec t ptrs : forall s count buffer, t = rev ptrs ++ s -> zlen t < 4294967296 -> zlen t <= zlen buffer ->
  placed t s count buffer ->
  exists count' buffer', distribute ptrs pass count buffer = Some buffer' /\ placed t t count' buffer' /\ zlen buffer' = zlen buffer.
Proof.
  induction ptrs as [|p ptrs IH]; intros s count buffer E Ht Lb P; cbn [distribute rev] in *.
  - cbn [app] in E; subst s; eauto.
  - pose proof (byte_range p) as Hb; destruct P as [[L H] Sl]; rewrite byte_at; cbn [obind]; rewrite H by exact Hb; cbn [obind].
    set (b := byte p) in *; set (e := start byte t (S (Z.to_nat b))) in *; set (c := zlen (bucket byte s b)) in *.
    rewrite <- app_assoc in E; cbn [app] in E.
    assert (0 <= c < zlen (bucket byte t b)) as Hc.
    { rewrite E, bucket_app, bucket_cons; fold b; rewrite Z.eqb_refl; unfold c; llia. }
    pose proof (start_slot t b c ltac:(lia) Hc) as Hpos; fold e in Hpos.
    assert (0 <= start byte t (Z.to_nat b)) as H0 by apply zlen_nonneg.
    assert (e <= zlen t) as He by (apply start_le; lia).
    rewrite u32_small by lia; destruct (counts_wr count _ b (e - c - 1) (conj L H) Hb) as (c1 & -> & C1); cbn [obind].
    destruct (wr_Some buffer (e - c - 1) (Some p)) as [b1 E1]; [lia|]; rewrite E1; cbn [obind].
    destruct (IH (p :: s) c1 b1) as (c2 & b2 & -> & P2 & L2); [exact E|exact Ht|rewrite (wr_zlen _ _ _ _ E1); exact Lb| |].
    2: { exists c2, b2; split; [reflexivity|split; [exact P2|rewrite L2; apply (wr_zlen _ _ _ _ E1)]]. }
    split.
    + apply (counts_ext _ _ _ C1); intros b' Hb'; rewrite bucket_cons; fold b.
      destruct (Z.eqb_spec b b') as [Eb|N]; [rewrite <- Eb, zlen_cons; fold e c|]; lia.
    + intros b' k Hb' Hk; rewrite bucket_cons in *; fold b in Hk |- *; rewrite (rd_wr _ _ _ _ _ E1).
      destruct (Z.eqb_spec b b') as [Eb|N].
      * rewrite <- Eb in Hk |- *; clear b' Hb' Eb; rewrite zlen_cons in *; fold c in Hk; fold e c; destruct (Z.eqb_spec (e - c - 1) (e - (c + 1) + k)) as [Ek|Nk].
        { replace k with 0 by lia; reflexivity. }
        rewrite rd_cons_pos by lia; replace (e - (c + 1) + k) with (e - c + (k - 1)) by lia; apply Sl; [exact Hb|fold c; lia].
      * destruct (Z.eqb_spec (e - c - 1) (start byte t (S (Z.to_nat b')) - zlen (bucket byte s b') + k)) as [Ek|Nk]; [|apply Sl; assumption].
        exfalso; assert (zlen (bucket byte s b') <= zlen (bucket byte t b')) as Hs
          by (rewrite E, bucket_app, bucket_cons; destruct (byte p =? b'); llia).
        pose proof (start_slot t b' (zlen (bucket byte s b') - k - 1) ltac:(lia) ltac:(lia)).
        destruct (Z.lt_ge_cases b b'); [pose proof (start_mono byte t (S (Z.to_nat b)) (Z.to_nat b') ltac:(lia))
          |pose proof (start_mono byte t (S (Z.to_nat b')) (Z.to_nat b) ltac:(lia))]; unfold e in *; lia.
Qed.

Lemma copy_back_eq buffer : forall l q, (forall i, 0 <= i < zlen l -> rd buffer (q + i) = Some (rd l i)) ->
  copy_back (length l) buffer q = Some l.
Proof.
  induction l as [|x l IH]; intros q H; [reflexivity|]; cbn [length copy_back].
  replace q with (q + 0) at 1 by lia; rewrite (H 0) by llia; cbn [obind rd Z.ltb Z.compare Z.to_nat nth_error].
  rewrite (IH (q + 1)); [reflexivity|]; intros i Hi; specialize (H (i + 1) ltac:(llia)).
  replace (q + 1 + i) with (q + (i + 1)) by lia; rewrite H, rd_cons_pos by lia; do 2 f_equal; lia.
Qed.

Lemma radix_pass_spec t buffer : zlen t < 4294967296 -> zlen t <= zlen buffer ->
  exists t' buffer', radix_pass t pass buffer = Some (t', buffer') /\ zlen buffer' = zlen buffer /\ Permutation t t' /\
    forall R, StronglySorted R t -> StronglySorted (byte_first byte R) t'.
Proof.
  intros Ht Lb; unfold radix_pass.
  assert (counts (repeat 0 256) (fun _ => 0)) as C0.
  { split; [reflexivity|]; intros b Hb; destruct (rd_Some (repeat 0 256) b Hb) as [x Ex]; rewrite Ex.
    f_equal; eapply repeat_spec, rd_in, Ex. }
  destruct (tally_spec t _ _ C0) as (c1 & -> & C1); [intros b; pose proof (zlen_nonneg t); lia|]; cbn [obind].
  rewrite (proj2 C1) by lia; cbn [obind].
  assert (forall b, zlen (bucket byte t b) = zlen t -> exists t' buffer', Some (t, buffer) = Some (t', buffer') /\
    zlen buffer' = zlen buffer /\ Permutation t t' /\ forall R, StronglySorted R t -> StronglySorted (byte_first byte R) t') as Same.
  { intros b Hb; exists t, buffer; do 3 (split; [reflexivity|]); intros R S; apply (same_byte_sorted byte R t b S), bucket_full, Hb. }
  destruct (Z.eqb_spec (0 + zlen (bucket byte t 0)) (zlen t)) as [E|N]; [apply (Same 0); lia|].
  destruct (sum_counts_spec t 255 1 c1) as [(b & -> & Hb)|(c2 & -> & C2)]; [lia|lia|exact Ht| |cbn [obind]; apply (Same b Hb)|cbn [obind]].
  { apply (counts_ext _ _ _ C1); intros b Hb; unfold summed; destruct (Z.ltb_spec b 1); [|lia].
    replace b with 0 by lia; change (Z.to_nat 0) with O; rewrite start_S; change (start byte t 0) with 0; reflexivity. }
  destruct (distribute_spec t (rev t) [] c2 buffer) as (c3 & b3 & -> & P3 & L3); [rewrite rev_involutive, app_nil_r; reflexivity|exact Ht|exact Lb| |].
  { split; [apply (counts_ext _ _ _ C2); intros b Hb; change (zlen (bucket byte [] b)) with 0; lia|].
    intros b k Hb Hk; change (zlen (bucket byte [] b)) with 0 in Hk; lia. }
  cbn [obind]; pose proof (buckets_perm byte t ltac:(apply Forall_forall; auto)) as Pm.
  rewrite (Permutation_length Pm), (copy_back_eq b3 (buckets byte 256 t) 0).
  - cbn [obind]; exists (buckets byte 256 t), b3; do 2 (split; [reflexivity || assumption|]); split; [exact Pm|].
    intros R S; apply buckets_sorted, S.
  - intros i Hi; destruct (start_find byte t 256 i Hi) as (n & k & Hn & -> & Hk).
    rewrite (buckets_rd byte t n 256 k Hn Hk), Z.add_0_l.
    pose proof (pl_slot _ _ _ _ P3 (Z.of_nat n) k ltac:(lia) Hk) as Sl; rewrite Nat2Z.id, start_S in Sl.
    rewrite <- Sl; f_equal; lia.
Qed.

End radix.

(** ** All passes *)

Context (size : Z).
Hypothesis key_size : forall p, zlen (key p) = size.
Hypothesis key_bytes : forall p, Forall (digit_ok 256) (key p).

(** The order of the bytes from a position on. *)
Definition suffix_le (i : Z) (p q : A) : Prop := memcmp (zdrop i (key p)) (zdrop i (key q)) <> Gt.

Definition byte_of (i : Z) (p : A) : Z := nth (Z.to_nat i) (key p) 0.

Lemma key_split i p : 0 <= i < size -> rd (key p) i = Some (byte_of i p) /\ 0 <= byte_of i p < 256 /\
  zdrop i (key p) = byte_of i p :: zdrop (i + 1) (key p).
Proof.
  intros Hi; destruct (zsplit i (key p)) as (l & [|x r] & E & L1 & L2); [rewrite key_size; lia|exfalso; rewrite key_size in L2; llia|].
  pose proof (key_bytes p) as B; unfold byte_of; rewrite E in *; apply Forall_app in B as [_ B]; inversion_clear B as [|? ? Hx _].
  rewrite rd_at by lia; replace (Z.to_nat i) with (length l) by (unfold zlen in L1; lia); rewrite nth_middle.
  split; [reflexivity|split; [exact Hx|]]; rewrite zdrop_app by lia; f_equal.
  regroup (l ++ x :: r) ((l ++ [x]) ++ r); symmetry; apply zdrop_app; llia.
Qed.

Lemma byte_first_suffix i p q : 0 <= i < size -> byte_first (byte_of i) (suffix_le (i + 1)) p q -> suffix_le i p q.
Proof.
  intros Hi H; unfold suffix_le in *; destruct (key_split i p Hi) as (_ & _ & ->); destruct (key_split i q Hi) as (_ & _ & ->).
  cbn [memcmp]; destruct H as [L|[-> H]]; [rewrite (proj2 (Z.compare_lt_iff _ _) L); discriminate|rewrite Z.compare_refl; exact H].
Qed.

Lemma StronglySorted_impl (R R' : A -> A -> Prop) l : (forall x y, R x y -> R' x y) -> StronglySorted R l -> StronglySorted R' l.
Proof. intros H S; induction S as [|x l S IH F]; constructor; [exact IH|eapply Forall_impl; [|exact F]; auto]. Qed.

Lemma radix_passes_spec n : forall t buffer, Z.of_nat n <= size -> zlen t < 4294967296 -> zlen t <= zlen buffer ->
  StronglySorted (suffix_le (Z.of_nat n)) t ->
  exists t', radix_passes n t buffer = Some t' /\ Permutation t t' /\ StronglySorted (suffix_le 0) t'.
Proof.
  induction n as [|n IH]; intros t buffer Hn Ht Lb So; cbn [radix_passes]; [eauto|].
  destruct (radix_pass_spec (Z.of_nat n) (byte_of (Z.of_nat n)) ltac:(intros p; apply key_split; lia)
    ltac:(intros p; apply key_split; lia) t buffer Ht Lb) as (t1 & b1 & -> & L1 & P1 & S1); cbn [obind].
  destruct (IH t1 b1) as (t2 & -> & P2 & S2); [lia|rewrite <- (zlen_perm _ _ P1); exact Ht|rewrite <- (zlen_perm _ _ P1), L1; exact Lb| |].
  - apply (StronglySorted_impl (byte_first (byte_of (Z.of_nat n)) (suffix_le (Z.of_nat n + 1)))); [intros x y; apply byte_first_suffix; lia|].
    apply S1; replace (Z.of_nat n + 1) with (Z.of_nat (S n)) by lia; exact So.
  - exists t2; split; [reflexivity|split; [eapply Permutation_trans; eassumption|exact S2]].
Qed.

(** All pointers are in order when no byte is compared. *)
Lemma all_sorted (R : A -> A -> Prop) t : (forall x y, R x y) -> StronglySorted R t.
Proof. intros H; induction t; constructor; [assumption|apply Forall_forall; auto]. Qed.

Lemma suffix_le_end p q : suffix_le size p q.
Proof.
  unfold suffix_le, zdrop; rewrite !skipn_all2 by (pose proof (key_size p); pose proof (key_size q); unfold zlen in *; lia).
  cbn; discriminate.
Qed.

(** ** The comparison of two pointers *)

Lemma key_cmp_eq p q : 1 <= size < 2147483648 -> key_cmp size p q = memdiff (key p) (key q).
Proof. intros H; unfold key_cmp; rewrite get_ptr_compare_eq by auto; reflexivity. Qed.

#[local] Instance key_cmp_comparison : 1 <= size < 2147483648 -> Comparison (key_cmp size).
Proof.
  intros Hs; split; intros; rewrite !key_cmp_eq in * by exact Hs.
  - rewrite (memdiff_opp (key x)); lia.
  - apply (memdiff_trans _ (key y)); rewrite ?key_size; auto.
Qed.

Lemma my_string_ptr_sort_spec t : size < 2147483648 -> 8 * zlen t < 2147483648 ->
  exists t', my_string_ptr_sort t size = Some t' /\ Permutation t t' /\ StronglySorted (suffix_le 0) t'.
Proof.
  intros Hs Ht; unfold my_string_ptr_sort.
  destruct ((size <=? 20) && (1000 <=? zlen t) && (zlen t <? 100000)) eqn:C.
  - apply radix_passes_spec; [|lia|rewrite zlen_repeat; lia|].
    + destruct t as [|p t]; [change (zlen (@nil A)) with 0 in C; lia|]; pose proof (key_size p); pose proof (zlen_nonneg (key p)); lia.
    + apply all_sorted; intros p q; pose proof (suffix_le_end p q) as H; rewrite Z2Nat.id; [exact H|].
      pose proof (key_size p); pose proof (zlen_nonneg (key p)); lia.
  - destruct (Z.eqb_spec size 0) as [E|N]; cbn [negb andb].
    { exists t; do 2 (split; [reflexivity|]); apply all_sorted; rewrite <- E; exact suffix_le_end. }
    destruct (Z.eqb_spec (zlen t) 0) as [E|N']; cbn [negb].
    { rewrite (zlen_zero t E); exists []; repeat constructor. }
    assert (1 <= size) as H1 by (destruct t as [|p t]; [cbn in N'; lia|pose proof (key_size p); pose proof (zlen_nonneg (key p)); lia]).
    pose proof (key_cmp_comparison ltac:(lia)) as Hc.
    destruct (my_qsort_spec (key_cmp size) 8 t) as (t' & E & P & S); [lia|exact Ht|].
    exists t'; split; [exact E|split; [exact P|]]; eapply StronglySorted_impl; [|exact S].
    intros x y; unfold le, suffix_le; rewrite key_cmp_eq, memdiff_memcmp by lia; intros H G; apply Z.compare_gt_iff in G; unfold zdrop in G; cbn in G; lia.
Qed.

End string_sort.

(** ** The properties *)

(** The comparison that [get_ptr_compare] chooses for strings of a length,
    unrolled by four bytes, has the sign of [memcmp]. *)
Theorem get_ptr_compare_memcmp size a b : 1 <= size < 2147483648 -> zlen a = size -> zlen b = size ->
  exists d, get_ptr_compare size size a b = Some d /\ (d ?= 0) = memcmp a b.
Proof.
  intros Hs La Lb; exists (memdiff a b); rewrite memdiff_memcmp; split; [apply get_ptr_compare_eq; assumption|reflexivity].
Qed.

Lemma get_ptr_compare_memcmp_witness : exists d,
  get_ptr_compare 7 7 [1; 2; 3; 4; 5; 6; 7] [1; 2; 3; 4; 5; 9; 0] = Some d /\
  (d ?= 0) = memcmp [1; 2; 3; 4; 5; 6; 7] [1; 2; 3; 4; 5; 9; 0].
Proof. apply (get_ptr_compare_memcmp 7); [lia|reflexivity|reflexivity]. Defined.

(** C20. Whichever algorithm it chooses, [my_string_ptr_sort] ends with the same
    pointers in the order of [memcmp] of the strings of [size] bytes they
    point to, for less than 2^28 pointers and strings of less than 2^31 bytes. *)
Theorem my_string_ptr_sort_correct {A} (key : A -> list Z) size t :
  (forall p, zlen (key p) = size) -> (forall p, Forall (digit_ok 256) (key p)) ->
  size < 2147483648 -> 8 * zlen t < 2147483648 ->
  exists t', my_string_ptr_sort key t size = Some t' /\ Permutation t t' /\
    StronglySorted (fun p q => memcmp (key p) (key q) <> Gt) t'.
Proof. intros Hk Hb; apply (my_string_ptr_sort_spec key size Hk Hb t). Qed.

(** Pointers that are numbers, to strings of three digits in base 256. *)
Definition ex_key (p : Z) : list Z := [p / 65536 mod 256; p / 256 mod 256; p mod 256].

Lemma my_string_ptr_sort_correct_witness : exists t',
  my_string_ptr_sort ex_key (map (fun p => (p * 7919) mod 100003) (map Z.of_nat (seq 0 1000))) 3 = Some t' /\
  Permutation (map (fun p => (p * 7919) mod 100003) (map Z.of_nat (seq 0 1000))) t' /\
  StronglySorted (fun p q => memcmp (ex_key p) (ex_key q) <> Gt) t'.
Proof.
  apply (my_string_ptr_sort_correct ex_key 3);
    [reflexivity|intros p; repeat (apply Forall_cons; [apply Z.mod_pos_bound; reflexivity|]); apply Forall_nil
    |reflexivity|vm_compute; reflexivity].
Defined.
