(* ===== verification/Utf8.v ===== *)
(** UTF-8: the character conversions of the server's character set,
    [my_mb_wc_utf8mb4] and [my_wc_mb_utf8mb4] of
    [src/drizzled/ctype-utf8.cc], and the library
    [src/drizzled/utf8/core.h] and [src/drizzled/utf8/checked.h].

    A pointer [s] with its end [e] is the list of the bytes between them. *)

From Stdlib Require Import ZArith Lia ZifyBool List Bool.
From S2P Require Import Prelude Words.
Import ListNotations.
Local Open Scope Z_scope.
Local Open Scope fail_scope.

(** ** Model: the character set *)

(** src/drizzled/charset.h:44-44 MY_CS_ILSEQ *)
Definition MY_CS_ILSEQ : Z := 0.
(** src/drizzled/charset.h:45-45 MY_CS_ILUNI *)
Definition MY_CS_ILUNI : Z := 0.
(** src/drizzled/charset.h:46-50 MY_CS_TOOSMALL

    Too few bytes for a character of [n]. *)
Definition MY_CS_TOOSMALL (n : Z) : Z := -100 - n.

(** The value that is returned, with the character behind [pwc] if it is
    written. *)
Inductive mb_result : Type :=
| NoChar (code : Z)
| Char (wc res : Z).

(** src/drizzled/ctype-utf8.cc:1970-2025 my_mb_wc_utf8mb4 *)
Definition my_mb_wc_utf8mb4 (s : list Z) : mb_result :=
  match s with
  | [] => NoChar (MY_CS_TOOSMALL 1)
  | c :: s' =>
      if c <? 128 then Char c 1
      else if c <? 194 then NoChar MY_CS_ILSEQ
      else if c <? 224 then
        match s' with
        | s1 :: _ =>
            if negb (Z.lxor s1 128 <? 64) then NoChar MY_CS_ILSEQ
            else Char (Z.lor (Z.shiftl (Z.land c 31) 6) (Z.lxor s1 128)) 2
        | _ => NoChar (MY_CS_TOOSMALL 2)
        end
      else if c <? 240 then
        match s' with
        | s1 :: s2 :: _ =>
            if negb ((Z.lxor s1 128 <? 64) && (Z.lxor s2 128 <? 64) && ((225 <=? c) || (160 <=? s1)))
            then NoChar MY_CS_ILSEQ
            else Char (Z.lor (Z.lor (Z.shiftl (Z.land c 15) 12) (Z.shiftl (Z.lxor s1 128) 6)) (Z.lxor s2 128)) 3
        | _ => NoChar (MY_CS_TOOSMALL 3)
        end
      else if c <? 248 then
        match s' with
        | s1 :: s2 :: s3 :: _ =>
            if negb ((Z.lxor s1 128 <? 64) && (Z.lxor s2 128 <? 64) && (Z.lxor s3 128 <? 64)
                     && ((241 <=? c) || (144 <=? s1)))
            then NoChar MY_CS_ILSEQ
            else Char (Z.lor (Z.lor (Z.lor (Z.shiftl (Z.land c 7) 18) (Z.shiftl (Z.lxor s1 128) 12))
                                    (Z.shiftl (Z.lxor s2 128) 6)) (Z.lxor s3 128)) 4
        | _ => NoChar (MY_CS_TOOSMALL 4)
        end
      else NoChar MY_CS_ILSEQ
  end.

(** src/drizzled/ctype-utf8.cc:2090-2102 my_wc_mb_utf8mb4

    The bytes of a character; 0 if it has none. *)
Definition wc_count (wc : Z) : Z :=
  if wc <? 128 then 1 else if wc <? 2048 then 2 else if wc <? 65536 then 3
  else if wc <? 2097152 then 4 else 0.

(** src/drizzled/ctype-utf8.cc:2107-2114 my_wc_mb_utf8mb4

    The switch that falls through its cases. *)
Definition wc_bytes (count wc : Z) : list Z :=
  let tail wc := u8 (Z.lor 128 (Z.land wc 63)) in
  let '(wc, r) := if count =? 4 then (Z.lor (Z.shiftr wc 6) 65536, [tail wc]) else (wc, []) in
  let '(wc, r) := if 3 <=? count then (Z.lor (Z.shiftr wc 6) 2048, tail wc :: r) else (wc, r) in
  let '(wc, r) := if 2 <=? count then (Z.lor (Z.shiftr wc 6) 192, tail wc :: r) else (wc, r) in
  u8 wc :: r.

(** src/drizzled/ctype-utf8.cc:2086-2115 my_wc_mb_utf8mb4

    The value that is returned and the bytes written to [r], which has room
    for [room] bytes. *)
Definition my_wc_mb_utf8mb4 (wc room : Z) : Z * list Z :=
  if room <=? 0 then (MY_CS_TOOSMALL 1, [])
  else
    let count := wc_count wc in
    if count =? 0 then (MY_CS_ILUNI, [])
    else if room <? count then (-100 - count, [])
    else (count, wc_bytes count wc).

(** src/drizzled/ctype-utf8.cc:2615-2628 my_mbcharlen_utf8mb4 *)
Definition my_mbcharlen_utf8mb4 (c : Z) : Z :=
  if c <? 128 then 1 else if c <? 194 then 0 else if c <? 224 then 2 else if c <? 240 then 3
  else if c <? 248 then 4 else 0.

(** src/drizzled/ctype-utf8.cc:2607-2612 my_ismbchar_utf8mb4 *)
Definition my_ismbchar_utf8mb4 (s : list Z) : Z :=
  match my_mb_wc_utf8mb4 s with
  | Char _ res => if res >? 1 then res else 0
  | NoChar _ => 0
  end.

(** src/drizzled/ctype-mb.cc:179-190 my_numchars_mb

    Every step is of one byte or more, so the length of the string is fuel
    enough. *)
Fixpoint my_numchars_mb (fuel : nat) (s : list Z) (count : Z) : option Z :=
  match s, fuel with
  | [], _ => Some count
  | _, O => None
  | _, S fuel' =>
      let mb_len := my_ismbchar_utf8mb4 s in
      my_numchars_mb fuel' (zdrop (if mb_len =? 0 then 1 else mb_len) s) (count + 1)
  end.

(** src/drizzled/ctype-mb.cc:193-204 my_charpos_mb

    The offset from the start; [n] counts the characters that are left. *)
Fixpoint my_charpos_mb (n : nat) (s : list Z) (pos : Z) : Z :=
  match s, n with
  | _, O => pos
  | [], S _ => pos + 2
  | _, S n' =>
      let mb_len := my_ismbchar_utf8mb4 s in
      let mb_len := if mb_len =? 0 then 1 else mb_len in
      my_charpos_mb n' (zdrop mb_len s) (pos + mb_len)
  end.

(** src/drizzled/ctype-mb.cc:207-226 my_well_formed_len_mb

    The bytes of at most [n] characters, and the error. *)
Fixpoint my_well_formed_len_mb (n : nat) (s : list Z) (len : Z) : Z * bool :=
  match n with
  | O => (len, false)
  | S n' =>
      match my_mb_wc_utf8mb4 s with
      | Char _ res => my_well_formed_len_mb n' (zdrop res s) (len + res)
      | NoChar _ => (len, 0 <? zlen s)
      end
  end.

(** ** Model: the library *)

Module utf8.

(** src/drizzled/utf8/core.h:128-128 utf_error *)
Inductive utf_error : Type :=
| UTF8_OK | NOT_ENOUGH_ROOM | INVALID_LEAD | INCOMPLETE_SEQUENCE | OVERLONG_SEQUENCE | INVALID_CODE_POINT.

(** src/drizzled/utf8/core.h:80-84 is_surrogate *)
Definition is_surrogate (cp : Z) : bool := (55296 <=? cp) && (cp <=? 57343).

(** src/drizzled/utf8/core.h:86-90 is_code_point_valid *)
Definition is_code_point_valid (cp : Z) : bool :=
  (cp <=? 1114111) && negb (is_surrogate cp) && negb (cp =? 65534) && negb (cp =? 65535).

(** src/drizzled/utf8/core.h:62-66 is_trail *)
Definition is_trail (oc : Z) : bool := Z.shiftr oc 6 =? 2.

(** src/drizzled/utf8/core.h:92-107 sequence_length *)
Definition sequence_length (lead : Z) : Z :=
  if lead <? 128 then 1
  else if Z.shiftr lead 5 =? 6 then 2
  else if Z.shiftr lead 4 =? 14 then 3
  else if Z.shiftr lead 3 =? 30 then 4
  else 0.

(** src/drizzled/utf8/core.h:109-126 is_overlong_sequence *)
Definition is_overlong_sequence (cp length : Z) : bool :=
  if cp <? 128 then negb (length =? 1)
  else if cp <? 2048 then negb (length =? 2)
  else if cp <? 65536 then negb (length =? 3)
  else false.

(** src/drizzled/utf8/core.h:132-243 get_sequence_1

    The four functions for sequences of one to four octets: the error, the
    code point and the octets after the sequence. *)
Definition get_sequence (length : Z) (it : list Z) : utf_error * Z * list Z :=
  match it with
  | [] => (NOT_ENOUGH_ROOM, 0, it)
  | c :: it1 =>
      if length =? 1 then (UTF8_OK, c, it1)
      else
        match it1 with
        | [] => (NOT_ENOUGH_ROOM, 0, it)
        | c1 :: it2 =>
            if negb (is_trail c1) then (INCOMPLETE_SEQUENCE, 0, it)
            else if length =? 2 then
              (UTF8_OK, u32 (Z.land (u32 (Z.shiftl c 6)) 2047 + Z.land c1 63), it2)
            else
              match it2 with
              | [] => (NOT_ENOUGH_ROOM, 0, it)
              | c2 :: it3 =>
                  if negb (is_trail c2) then (INCOMPLETE_SEQUENCE, 0, it)
                  else if length =? 3 then
                    (UTF8_OK, u32 (u32 (Z.land (u32 (Z.shiftl c 12)) 65535 + Z.land (Z.shiftl c1 6) 4095)
                                   + Z.land c2 63), it3)
                  else
                    match it3 with
                    | [] => (NOT_ENOUGH_ROOM, 0, it)
                    | c3 :: it4 =>
                        if negb (is_trail c3) then (INCOMPLETE_SEQUENCE, 0, it)
                        else
                          (UTF8_OK, u32 (u32 (u32 (Z.land (u32 (Z.shiftl c 18)) 2097151
                                                   + Z.land (Z.shiftl c1 12) 262143)
                                              + Z.land (Z.shiftl c2 6) 4095) + Z.land c3 63), it4)
                    end
              end
        end
  end.

(** src/drizzled/utf8/core.h:245-296 validate_next

    [None]: the octet at the end is read. *)
Definition validate_next (it : list Z) : option (utf_error * Z * list Z) :=
  match it with
  | [] => None
  | c :: _ =>
      let length := sequence_length c in
      if length =? 0 then Some (INVALID_LEAD, 0, it)
      else
        match get_sequence length it with
        | (UTF8_OK, cp, it') =>
            if negb (is_code_point_valid cp) then Some (INVALID_CODE_POINT, 0, it)
            else if is_overlong_sequence cp length then Some (OVERLONG_SEQUENCE, 0, it)
            else Some (UTF8_OK, cp, it')
        | (err, _, _) => Some (err, 0, it)
        end
  end.

(** src/drizzled/utf8/core.h:310-320 find_invalid

    The octets from the first that is invalid. *)
Fixpoint find_invalid (fuel : nat) (it : list Z) : option (list Z) :=
  match it, fuel with
  | [], _ => Some []
  | _, O => None
  | _, S fuel' =>
      let? (err, _, it') := validate_next it in
      match err with UTF8_OK => find_invalid fuel' it' | _ => Some it end
  end.

(** src/drizzled/utf8/core.h:322-326 is_valid *)
Definition is_valid (it : list Z) : bool :=
  match find_invalid (length it) it with Some [] => true | _ => false end.

(** src/drizzled/utf8/checked.h:113-136 append

    [None]: the exception. *)
Definition append (cp : Z) : option (list Z) :=
  if negb (is_code_point_valid cp) then None
  else Some
    (if cp <? 128 then [u8 cp]
     else if cp <? 2048 then [u8 (Z.lor (Z.shiftr cp 6) 192); u8 (Z.lor (Z.land cp 63) 128)]
     else if cp <? 65536 then
       [u8 (Z.lor (Z.shiftr cp 12) 224); u8 (Z.lor (Z.land (Z.shiftr cp 6) 63) 128); u8 (Z.lor (Z.land cp 63) 128)]
     else
       [u8 (Z.lor (Z.shiftr cp 18) 240); u8 (Z.lor (Z.land (Z.shiftr cp 12) 63) 128);
        u8 (Z.lor (Z.land (Z.shiftr cp 6) 63) 128); u8 (Z.lor (Z.land cp 63) 128)]).

(** src/drizzled/utf8/checked.h:139-156 next

    [None]: an exception. *)
Definition next (it : list Z) : option (Z * list Z) :=
  let? (err, cp, it') := validate_next it in
  match err with UTF8_OK => Some (cp, it') | _ => None end.

(** src/drizzled/utf8/checked.h:205-229 utf16to8 *)
Fixpoint utf16to8 (start : list Z) : option (list Z) :=
  match start with
  | [] => Some []
  | cp :: start' =>
      if (55296 <=? cp) && (cp <=? 56319) then
        match start' with
        | [] => None
        | trail_surrogate :: start'' =>
            if (56320 <=? trail_surrogate) && (trail_surrogate <=? 57343) then
              let? r := append (u32 (u32 (Z.shiftl cp 10) + trail_surrogate + u32 (65536 - Z.shiftl 55296 10 - 56320))) in
              let? rest := utf16to8 start'' in
              Some (r ++ rest)
            else None
        end
      else if (56320 <=? cp) && (cp <=? 57343) then None
      else
        let? r := append cp in
        let? rest := utf16to8 start' in
        Some (r ++ rest)
  end.

(** src/drizzled/utf8/checked.h:232-244 utf8to16 *)
Fixpoint utf8to16 (fuel : nat) (start : list Z) : option (list Z) :=
  match start, fuel with
  | [], _ => Some []
  | _, O => None
  | _, S fuel' =>
      let? (cp, start') := next start in
      let? rest := utf8to16 fuel' start' in
      Some ((if cp >? 65535
             then [wrap 16 (Z.shiftr cp 10 + (55296 - Z.shiftr 65536 10)); wrap 16 (Z.land cp 1023 + 56320)]
             else [wrap 16 cp]) ++ rest)
  end.

End utf8.

(** ** The encoding by arithmetic *)

Definition enc (wc : Z) : list Z :=
  if wc <? 128 then [wc]
  else if wc <? 2048 then [192 + wc / 64; 128 + wc mod 64]
  else if wc <? 65536 then [224 + wc / 4096; 128 + wc / 64 mod 64; 128 + wc mod 64]
  else [240 + wc / 262144; 128 + wc / 4096 mod 64; 128 + wc / 64 mod 64; 128 + wc mod 64].

Definition is_wc (wc : Z) : Prop := 0 <= wc < 2097152.

(** A byte of the tail, and its six bits. *)
Lemma tail_byte b : 0 <= b < 256 -> (Z.lxor b 128 <? 64) = (128 <=? b) && (b <? 192) /\
  (128 <= b < 192 -> Z.lxor b 128 = b - 128).
Proof.
  intros H; pose proof (byte_all (fun b => Bool.eqb (Z.lxor b 128 <? 64) ((128 <=? b) && (b <? 192)) &&
    (negb ((128 <=? b) && (b <? 192)) || (Z.lxor b 128 =? b - 128))) ltac:(vm_compute; reflexivity) b H) as P.
  apply andb_true_iff in P as [P1 P2]; apply Bool.eqb_prop in P1; split; [exact P1|].
  intros Hb; destruct (Z.leb_spec 128 b), (Z.ltb_spec b 192); try lia; cbn [andb negb orb] in P2; lia.
Qed.

Lemma lead_bits c : 0 <= c < 256 -> (192 <= c < 224 -> Z.land c 31 = c - 192) /\
  (224 <= c < 240 -> Z.land c 15 = c - 224) /\ (240 <= c < 248 -> Z.land c 7 = c - 240).
Proof.
  intros H; pose proof (byte_all (fun c => (negb ((192 <=? c) && (c <? 224)) || (Z.land c 31 =? c - 192)) &&
    (negb ((224 <=? c) && (c <? 240)) || (Z.land c 15 =? c - 224)) &&
    (negb ((240 <=? c) && (c <? 248)) || (Z.land c 7 =? c - 240))) ltac:(vm_compute; reflexivity) c H) as P.
  apply andb_true_iff in P as [P P3]; apply andb_true_iff in P as [P1 P2]; lia.
Qed.

Lemma shift_or a n b : 0 <= n -> 0 <= b < 2 ^ n -> Z.lor (Z.shiftl a n) b = a * 2 ^ n + b.
Proof. intros Hn Hb; rewrite Z.shiftl_mul_pow2 by exact Hn; apply lor_add; assumption. Qed.

Lemma or_two a b c : 0 <= b < 64 -> 0 <= c < 64 ->
  Z.lor (Z.lor (Z.shiftl a 12) (Z.shiftl b 6)) c = a * 4096 + b * 64 + c.
Proof.
  intros Hb Hc; rewrite (Z.shiftl_mul_pow2 b) by lia; rewrite shift_or by (pows; lia).
  replace (a * 2 ^ 12 + b * 2 ^ 6) with ((a * 64 + b) * 2 ^ 6) by (pows; lia); rewrite lor_add by (pows; lia); pows; lia.
Qed.

Lemma or_three a b c d : 0 <= b < 64 -> 0 <= c < 64 -> 0 <= d < 64 ->
  Z.lor (Z.lor (Z.lor (Z.shiftl a 18) (Z.shiftl b 12)) (Z.shiftl c 6)) d = a * 262144 + b * 4096 + c * 64 + d.
Proof.
  intros Hb Hc Hd; rewrite (Z.shiftl_mul_pow2 b), (Z.shiftl_mul_pow2 c) by lia; rewrite shift_or by (pows; lia).
  replace (a * 2 ^ 18 + b * 2 ^ 12) with ((a * 64 + b) * 2 ^ 12) by (pows; lia); rewrite lor_add by (pows; lia).
  replace ((a * 64 + b) * 2 ^ 12 + c * 2 ^ 6) with (((a * 64 + b) * 64 + c) * 2 ^ 6) by (pows; lia).
  rewrite lor_add by (pows; lia); pows; lia.
Qed.

(** Split a byte string. *)
Ltac bytes_of H := repeat match type of H with Forall _ (_ :: _) => let b := fresh "B" in inversion_clear H as [|? ? b H']; rename H' into H; unfold digit_ok in b end.

Lemma mb_wc_enc wc rest : is_wc wc -> my_mb_wc_utf8mb4 (enc wc ++ rest) = Char wc (zlen (enc wc)).
Proof.
  unfold is_wc, enc; intros H.
  destruct (Z.ltb_spec wc 128); [cbn [app my_mb_wc_utf8mb4]; rewrite (proj2 (Z.ltb_lt wc 128)) by lia; reflexivity|].
  assert (0 <= wc mod 64 < 64) as M0 by (apply Z.mod_pos_bound; lia).
  assert (0 <= wc / 64 mod 64 < 64) as M1 by (apply Z.mod_pos_bound; lia).
  assert (0 <= wc / 4096 mod 64 < 64) as M2 by (apply Z.mod_pos_bound; lia).
  destruct (tail_byte (128 + wc mod 64)) as [T0 X0]; [lia|]; destruct (tail_byte (128 + wc / 64 mod 64)) as [T1 X1]; [lia|].
  destruct (tail_byte (128 + wc / 4096 mod 64)) as [T2 X2]; [lia|].
  specialize (X0 ltac:(lia)); specialize (X1 ltac:(lia)); specialize (X2 ltac:(lia)).
  destruct (Z.ltb_spec wc 2048); [|destruct (Z.ltb_spec wc 65536)]; cbn [app my_mb_wc_utf8mb4].
  - assert (2 <= wc / 64 < 32) as Hq by dlia; destruct (lead_bits (192 + wc / 64)) as (L1 & _); [lia|].
    destruct (Z.ltb_spec (192 + wc / 64) 128), (Z.ltb_spec (192 + wc / 64) 194), (Z.ltb_spec (192 + wc / 64) 224); try lia.
    rewrite T0, X0, L1, shift_or by (pows; lia); replace (negb _) with false by lia.
    f_equal; pows; dlia.
  - assert (0 <= wc / 4096 < 16) as Hq by dlia; destruct (lead_bits (224 + wc / 4096)) as (_ & L2 & _); [lia|].
    destruct (Z.ltb_spec (224 + wc / 4096) 128), (Z.ltb_spec (224 + wc / 4096) 194), (Z.ltb_spec (224 + wc / 4096) 224),
      (Z.ltb_spec (224 + wc / 4096) 240); try lia.
    assert (wc / 4096 = 0 -> 32 <= wc / 64 mod 64) by (intros; dlia).
    rewrite T0, T1, X0, X1, L2, or_two by lia; replace (negb _) with false by lia; f_equal; dlia.
  - assert (0 <= wc / 262144 < 8) as Hq by dlia; destruct (lead_bits (240 + wc / 262144)) as (_ & _ & L3); [lia|].
    destruct (Z.ltb_spec (240 + wc / 262144) 128), (Z.ltb_spec (240 + wc / 262144) 194), (Z.ltb_spec (240 + wc / 262144) 224),
      (Z.ltb_spec (240 + wc / 262144) 240), (Z.ltb_spec (240 + wc / 262144) 248); try lia.
    assert (wc / 262144 = 0 -> 16 <= wc / 4096 mod 64) by (intros; dlia).
    rewrite T0, T1, T2, X0, X1, X2, L3, or_three by lia; replace (negb _) with false by lia; f_equal; dlia.
Qed.

Lemma enc_two a b : 2 <= a < 32 -> 0 <= b < 64 -> enc (a * 64 + b) = [192 + a; 128 + b].
Proof.
  intros Ha Hb; unfold enc; destruct (Z.ltb_spec (a * 64 + b) 128), (Z.ltb_spec (a * 64 + b) 2048); try lia.
  repeat f_equal; dlia.
Qed.

Lemma enc_three a b c : 0 <= a < 16 -> 0 <= b < 64 -> 0 <= c < 64 -> (a = 0 -> 32 <= b) ->
  enc (a * 4096 + b * 64 + c) = [224 + a; 128 + b; 128 + c].
Proof.
  intros Ha Hb Hc H; unfold enc; set (wc := a * 4096 + b * 64 + c).
  destruct (Z.ltb_spec wc 128), (Z.ltb_spec wc 2048), (Z.ltb_spec wc 65536); try (unfold wc in *; lia).
  assert (wc / 4096 = a /\ wc / 64 mod 64 = b /\ wc mod 64 = c) as (-> & -> & ->) by (unfold wc; dlia); reflexivity.
Qed.

Lemma enc_four a b c d : 0 <= a < 8 -> 0 <= b < 64 -> 0 <= c < 64 -> 0 <= d < 64 -> (a = 0 -> 16 <= b) ->
  enc (a * 262144 + b * 4096 + c * 64 + d) = [240 + a; 128 + b; 128 + c; 128 + d].
Proof.
  intros Ha Hb Hc Hd H; unfold enc; set (wc := a * 262144 + b * 4096 + c * 64 + d).
  destruct (Z.ltb_spec wc 128), (Z.ltb_spec wc 2048), (Z.ltb_spec wc 65536); try (unfold wc in *; lia).
  assert (wc / 262144 = a /\ wc / 4096 mod 64 = b /\ wc / 64 mod 64 = c /\ wc mod 64 = d) as (-> & -> & -> & ->)
    by (unfold wc; dlia); reflexivity.
Qed.

(** The bytes that a character is read from are its encoding. *)
Lemma mb_wc_inv s wc res : Forall (digit_ok 256) s -> my_mb_wc_utf8mb4 s = Char wc res ->
  is_wc wc /\ exists rest, s = enc wc ++ rest /\ res = zlen (enc wc).
Proof.
  intros F; destruct s as [|c s]; [discriminate|]; cbn [my_mb_wc_utf8mb4].
  inversion_clear F as [|? ? Hc F1]; unfold digit_ok in Hc; destruct (lead_bits c Hc) as (L1 & L2 & L3); unfold is_wc.
  destruct (Z.ltb_spec c 128).
  { intros [= <- <-]; split; [lia|]; exists s; unfold enc; destruct (Z.ltb_spec c 128); [auto|lia]. }
  destruct (Z.ltb_spec c 194); [discriminate|]; destruct (Z.ltb_spec c 224); [|destruct (Z.ltb_spec c 240); [|destruct (Z.ltb_spec c 248); [|discriminate]]].
  - destruct s as [|s1 s]; [discriminate|]; inversion_clear F1 as [|? ? K1 F2]; unfold digit_ok in K1.
    destruct (tail_byte s1 K1) as [-> X1]; destruct (negb _) eqn:C; [discriminate|]; rewrite X1, L1, shift_or by (pows; lia).
    intros [= <- <-]; change (2 ^ 6) with 64; split; [lia|]; exists s; rewrite enc_two by lia.
    split; [cbn [app]; repeat f_equal; lia|reflexivity].
  - destruct s as [|s1 [|s2 s]]; try discriminate; inversion_clear F1 as [|? ? K1 F2]; inversion_clear F2 as [|? ? K2 F3]; unfold digit_ok in K1, K2.
    destruct (tail_byte s1 K1) as [-> X1]; destruct (tail_byte s2 K2) as [-> X2]; destruct (negb _) eqn:C; [discriminate|].
    rewrite X1, X2, L2, or_two by lia; intros [= <- <-]; split; [lia|]; exists s; rewrite enc_three by lia.
    split; [cbn [app]; repeat f_equal; lia|reflexivity].
  - destruct s as [|s1 [|s2 [|s3 s]]]; try discriminate; inversion_clear F1 as [|? ? K1 F2]; inversion_clear F2 as [|? ? K2 F3];
      inversion_clear F3 as [|? ? K3 F4]; unfold digit_ok in K1, K2, K3.
    destruct (tail_byte s1 K1) as [-> X1]; destruct (tail_byte s2 K2) as [-> X2]; destruct (tail_byte s3 K3) as [-> X3].
    destruct (negb _) eqn:C; [discriminate|].
    rewrite X1, X2, X3, L3, or_three by lia; intros [= <- <-]; split; [lia|]; exists s; rewrite enc_four by lia.
    split; [cbn [app]; repeat f_equal; lia|reflexivity].
Qed.

Lemma enc_zlen wc : is_wc wc -> zlen (enc wc) = wc_count wc /\ 1 <= zlen (enc wc) <= 4.
Proof.
  intros H; unfold is_wc in H; unfold enc, wc_count; destruct (Z.ltb_spec wc 128), (Z.ltb_spec wc 2048), (Z.ltb_spec wc 65536), (Z.ltb_spec wc 2097152);
    try lia; unfold zlen; cbn; lia.
Qed.

Lemma enc_bytes wc : is_wc wc -> Forall (digit_ok 256) (enc wc).
Proof.
  unfold is_wc; intros H; unfold enc; assert (0 <= wc mod 64 < 64) by (apply Z.mod_pos_bound; lia).
  assert (0 <= wc / 64 mod 64 < 64) by (apply Z.mod_pos_bound; lia); assert (0 <= wc / 4096 mod 64 < 64) by (apply Z.mod_pos_bound; lia).
  destruct (Z.ltb_spec wc 128), (Z.ltb_spec wc 2048), (Z.ltb_spec wc 65536); try lia;
    repeat (apply Forall_cons; [unfold digit_ok; try lia; dlia|]); apply Forall_nil.
Qed.

Lemma tail_of x : u8 (Z.lor 128 (Z.land x 63)) = 128 + x mod 64.
Proof.
  change 63 with (Z.ones 6); rewrite Z.land_ones by lia; change (2 ^ 6) with 64.
  pose proof (Z.mod_pos_bound x 64); change 128 with (2 * 2 ^ 6) at 1; rewrite lor_add by (pows; lia).
  unfold u8, wrap; pows; rewrite Z.mod_small by lia; lia.
Qed.

Lemma or_high x n a : 0 <= n -> 0 <= x < 2 ^ n -> Z.lor x (a * 2 ^ n) = x + a * 2 ^ n.
Proof. intros Hn Hx; rewrite Z.lor_comm, lor_add by assumption; lia. Qed.

Lemma shr6 x : Z.shiftr x 6 = x / 64.
Proof. rewrite Z.shiftr_div_pow2 by lia; reflexivity. Qed.


Lemma wc_bytes_enc wc : is_wc wc -> wc_bytes (wc_count wc) wc = enc wc.
Proof.
  unfold is_wc; intros H; unfold wc_count, enc.
  destruct (Z.ltb_spec wc 128); [change (wc_bytes 1 wc) with [u8 wc]; rewrite u8_small by lia; reflexivity|].
  set (tail x := u8 (Z.lor 128 (Z.land x 63))); assert (forall x, tail x = 128 + x mod 64) as Et by (intros; apply tail_of).
  destruct (Z.ltb_spec wc 2048); [|destruct (Z.ltb_spec wc 65536); [|destruct (Z.ltb_spec wc 2097152); [|lia]]];
    [change (wc_bytes 2 wc) with [u8 (Z.lor (Z.shiftr wc 6) 192); tail wc]
    |change (wc_bytes 3 wc) with (let x := Z.lor (Z.shiftr wc 6) 2048 in [u8 (Z.lor (Z.shiftr x 6) 192); tail x; tail wc])
    |change (wc_bytes 4 wc) with (let x := Z.lor (Z.shiftr wc 6) 65536 in let y := Z.lor (Z.shiftr x 6) 2048 in
       [u8 (Z.lor (Z.shiftr y 6) 192); tail y; tail x; tail wc])]; cbv zeta; rewrite !Et, ?shr6; clear tail Et.
  - assert (0 <= wc / 64 < 32) by dlia; change 192 with (3 * 2 ^ 6) at 1; rewrite or_high by (pows; lia).
    rewrite u8_small by (pows; lia); f_equal; pows; lia.
  - assert (0 <= wc / 64 < 1024) by dlia; change 2048 with (1 * 2 ^ 11); rewrite or_high by (pows; lia); pows.
    assert ((wc / 64 + 1 * 2048) / 64 = wc / 4096 + 32) as -> by dlia; assert (0 <= wc / 4096 < 16) by dlia.
    change 192 with (3 * 2 ^ 6) at 1; replace (wc / 4096 + 32) with (wc / 4096 + 32) by lia.
    rewrite or_high by (pows; lia); rewrite u8_small by (pows; lia); pows.
    assert ((wc / 64 + 1 * 2048) mod 64 = wc / 64 mod 64) as -> by dlia; f_equal; lia.
  - assert (0 <= wc / 64 < 32768) by dlia; change 65536 with (1 * 2 ^ 16); rewrite or_high by (pows; lia); pows.
    assert ((wc / 64 + 1 * 65536) / 64 = wc / 4096 + 1024) as -> by dlia; assert (0 <= wc / 4096 < 512) by dlia.
    change 2048 with (1 * 2 ^ 11); rewrite or_high by (pows; lia); pows.
    assert ((wc / 4096 + 1024 + 1 * 2048) / 64 = wc / 262144 + 48) as -> by dlia; assert (0 <= wc / 262144 < 8) by dlia.
    change 192 with (3 * 2 ^ 6) at 1; rewrite or_high by (pows; lia); rewrite u8_small by (pows; lia); pows.
    assert ((wc / 4096 + 1024 + 1 * 2048) mod 64 = wc / 4096 mod 64) as -> by dlia.
    assert ((wc / 64 + 1 * 65536) mod 64 = wc / 64 mod 64) as -> by dlia; f_equal; lia.
Qed.

(** ** The library *)

Module utf8_facts.
Import utf8.

Lemma is_trail_eq b : 0 <= b < 256 -> is_trail b = (128 <=? b) && (b <? 192).
Proof.
  intros H; apply Bool.eqb_prop, (byte_all (fun b => Bool.eqb (is_trail b) ((128 <=? b) && (b <? 192)))); [vm_compute; reflexivity|exact H].
Qed.

Lemma sequence_length_eq c : 0 <= c < 256 -> sequence_length c =
  if c <? 128 then 1 else if c <? 192 then 0 else if c <? 224 then 2 else if c <? 240 then 3 else if c <? 248 then 4 else 0.
Proof.
  intros H; apply Z.eqb_eq, (byte_all (fun c => sequence_length c =?
    if c <? 128 then 1 else if c <? 192 then 0 else if c <? 224 then 2 else if c <? 240 then 3 else if c <? 248 then 4 else 0));
    [vm_compute; reflexivity|exact H].
Qed.

(** The end of [validate_next]: the checks of a code point. *)
Definition checked (cp length : Z) (it rest : list Z) : option (utf_error * Z * list Z) :=
  if negb (is_code_point_valid cp) then Some (INVALID_CODE_POINT, 0, it)
  else if is_overlong_sequence cp length then Some (OVERLONG_SEQUENCE, 0, it)
  else Some (UTF8_OK, cp, rest).

Lemma land_mod x n m : m = 2 ^ n - 1 -> 0 <= n -> Z.land x m = x mod 2 ^ n.
Proof. intros -> Hn; replace (2 ^ n - 1) with (Z.ones n) by (rewrite Z.ones_equiv; lia); apply Z.land_ones, Hn. Qed.

(** A lead byte and the error for the octets after it. *)
Lemma validate_two a b rest : 0 <= a < 32 -> 0 <= b < 64 ->
  validate_next (192 + a :: 128 + b :: rest) = checked (a * 64 + b) 2 (192 + a :: 128 + b :: rest) rest.
Proof.
  intros Ha Hb; unfold validate_next; rewrite sequence_length_eq by lia.
  destruct (Z.ltb_spec (192 + a) 128), (Z.ltb_spec (192 + a) 192), (Z.ltb_spec (192 + a) 224); try lia.
  change (2 =? 0) with false; cbv iota; unfold get_sequence; cbn [Z.eqb Pos.eqb]; rewrite is_trail_eq by lia.
  destruct (Z.leb_spec 128 (128 + b)), (Z.ltb_spec (128 + b) 192); try lia; cbn [andb negb].
  rewrite (land_mod _ 11), (land_mod _ 6), Z.shiftl_mul_pow2 by (reflexivity || lia); pows.
  rewrite (u32_small ((192 + a) * 64)) by lia; assert ((192 + a) * 64 mod 2048 + (128 + b) mod 64 = a * 64 + b) as -> by dlia.
  rewrite u32_small by lia; reflexivity.
Qed.

Lemma validate_three a b c rest : 0 <= a < 16 -> 0 <= b < 64 -> 0 <= c < 64 ->
  validate_next (224 + a :: 128 + b :: 128 + c :: rest)
  = checked (a * 4096 + b * 64 + c) 3 (224 + a :: 128 + b :: 128 + c :: rest) rest.
Proof.
  intros Ha Hb Hc; unfold validate_next; rewrite sequence_length_eq by lia.
  destruct (Z.ltb_spec (224 + a) 128), (Z.ltb_spec (224 + a) 192), (Z.ltb_spec (224 + a) 224), (Z.ltb_spec (224 + a) 240); try lia.
  change (3 =? 0) with false; cbv iota; unfold get_sequence; cbn [Z.eqb Pos.eqb]; rewrite !is_trail_eq by lia.
  destruct (Z.leb_spec 128 (128 + b)), (Z.ltb_spec (128 + b) 192), (Z.leb_spec 128 (128 + c)), (Z.ltb_spec (128 + c) 192); try lia; cbn [andb negb].
  rewrite (land_mod _ 16), (land_mod _ 12), (land_mod _ 6), !Z.shiftl_mul_pow2 by (reflexivity || lia); pows.
  rewrite (u32_small ((224 + a) * 4096)) by lia.
  assert ((224 + a) * 4096 mod 65536 = a * 4096 /\ (128 + b) * 64 mod 4096 = b * 64 /\ (128 + c) mod 64 = c) as (-> & -> & ->) by dlia.
  rewrite !u32_small by (rewrite ?u32_small; lia); reflexivity.
Qed.

Lemma validate_four a b c d rest : 0 <= a < 8 -> 0 <= b < 64 -> 0 <= c < 64 -> 0 <= d < 64 ->
  validate_next (240 + a :: 128 + b :: 128 + c :: 128 + d :: rest)
  = checked (a * 262144 + b * 4096 + c * 64 + d) 4 (240 + a :: 128 + b :: 128 + c :: 128 + d :: rest) rest.
Proof.
  intros Ha Hb Hc Hd; unfold validate_next; rewrite sequence_length_eq by lia.
  destruct (Z.ltb_spec (240 + a) 128), (Z.ltb_spec (240 + a) 192), (Z.ltb_spec (240 + a) 224), (Z.ltb_spec (240 + a) 240),
    (Z.ltb_spec (240 + a) 248); try lia.
  change (4 =? 0) with false; cbv iota; unfold get_sequence; cbn [Z.eqb Pos.eqb]; rewrite !is_trail_eq by lia.
  destruct (Z.leb_spec 128 (128 + b)), (Z.ltb_spec (128 + b) 192), (Z.leb_spec 128 (128 + c)), (Z.ltb_spec (128 + c) 192); try lia.
  destruct (Z.leb_spec 128 (128 + d)), (Z.ltb_spec (128 + d) 192); try lia; cbn [andb negb].
  rewrite (land_mod _ 21), (land_mod _ 18), (land_mod _ 12), (land_mod _ 6), !Z.shiftl_mul_pow2 by (reflexivity || lia); pows.
  rewrite (u32_small ((240 + a) * 262144)) by lia.
  assert ((240 + a) * 262144 mod 2097152 = a * 262144 /\ (128 + b) * 4096 mod 262144 = b * 4096 /\
    (128 + c) * 64 mod 4096 = c * 64 /\ (128 + d) mod 64 = d) as (-> & -> & -> & ->) by dlia.
  rewrite (u32_small (a * 262144 + b * 4096)), (u32_small (a * 262144 + b * 4096 + c * 64)), u32_small by lia; reflexivity.
Qed.

Lemma valid_is_wc cp : 0 <= cp -> is_code_point_valid cp = true -> is_wc cp.
Proof. unfold is_code_point_valid, is_wc; intros H0 H; lia. Qed.

Lemma validate_next_enc cp rest : 0 <= cp -> is_code_point_valid cp = true ->
  validate_next (enc cp ++ rest) = Some (UTF8_OK, cp, rest).
Proof.
  intros H0 Hv; pose proof (valid_is_wc cp H0 Hv) as Hw; unfold is_wc in Hw.
  assert (forall len it, is_overlong_sequence cp len = false -> checked cp len it rest = Some (UTF8_OK, cp, rest)) as Ok
    by (intros len it Ho; unfold checked; rewrite Hv, Ho; reflexivity).
  destruct (Z.ltb_spec cp 128) as [L|L].
  { unfold enc; rewrite (proj2 (Z.ltb_lt cp 128)) by lia; cbn [app]; unfold validate_next; rewrite sequence_length_eq by lia.
    rewrite (proj2 (Z.ltb_lt cp 128)) by lia; change (1 =? 0) with false; cbv iota; cbn [get_sequence Z.eqb Pos.eqb].
    apply (Ok 1); unfold is_overlong_sequence; rewrite (proj2 (Z.ltb_lt cp 128)) by lia; reflexivity. }
  destruct (Z.ltb_spec cp 2048) as [L2|L2]; [|destruct (Z.ltb_spec cp 65536) as [L3|L3]].
  - replace cp with (cp / 64 * 64 + cp mod 64) at 1 by dlia; rewrite enc_two by dlia; cbn [app]; rewrite validate_two by dlia.
    replace (cp / 64 * 64 + cp mod 64) with cp by dlia; apply Ok; unfold is_overlong_sequence.
    destruct (Z.ltb_spec cp 128), (Z.ltb_spec cp 2048); try lia; reflexivity.
  - replace cp with (cp / 4096 * 4096 + cp / 64 mod 64 * 64 + cp mod 64) at 1 by dlia; rewrite enc_three by dlia; cbn [app]; rewrite validate_three by dlia.
    replace (cp / 4096 * 4096 + cp / 64 mod 64 * 64 + cp mod 64) with cp by dlia; apply Ok; unfold is_overlong_sequence.
    destruct (Z.ltb_spec cp 128), (Z.ltb_spec cp 2048), (Z.ltb_spec cp 65536); try lia; reflexivity.
  - replace cp with (cp / 262144 * 262144 + cp / 4096 mod 64 * 4096 + cp / 64 mod 64 * 64 + cp mod 64) at 1 by dlia.
    rewrite enc_four by dlia; cbn [app]; rewrite validate_four by dlia.
    replace (cp / 262144 * 262144 + cp / 4096 mod 64 * 4096 + cp / 64 mod 64 * 64 + cp mod 64) with cp by dlia; apply Ok.
    unfold is_overlong_sequence; destruct (Z.ltb_spec cp 128), (Z.ltb_spec cp 2048), (Z.ltb_spec cp 65536); try lia; reflexivity.
Qed.

(** A byte that is a trail, as its six bits. *)
Lemma trail_form b : 0 <= b < 256 -> is_trail b = true -> exists x, b = 128 + x /\ 0 <= x < 64.
Proof. intros H T; rewrite is_trail_eq in T by exact H; exists (b - 128); lia. Qed.

Lemma checked_ok cp len it rest cp' it' : checked cp len it rest = Some (UTF8_OK, cp', it') ->
  cp' = cp /\ it' = rest /\ is_code_point_valid cp = true /\ is_overlong_sequence cp len = false.
Proof.
  unfold checked; destruct (is_code_point_valid cp), (is_overlong_sequence cp len); cbn [negb]; try discriminate.
  intros [= <- <-]; auto.
Qed.

(** The octets of a sequence that is complete. *)
Lemma get_sequence_trails n c s cp rest : get_sequence n (c :: s) = (UTF8_OK, cp, rest) ->
  (n = 2 -> exists c1, s = c1 :: rest /\ is_trail c1 = true) /\
  (n = 3 -> exists c1 c2, s = c1 :: c2 :: rest /\ is_trail c1 = true /\ is_trail c2 = true) /\
  (n = 4 -> exists c1 c2 c3, s = c1 :: c2 :: c3 :: rest /\ is_trail c1 = true /\ is_trail c2 = true /\ is_trail c3 = true).
Proof.
  unfold get_sequence; intros H; repeat split; intros ->; cbn [Z.eqb Pos.eqb] in H.
  - destruct s as [|c1 s]; [discriminate|]; destruct (is_trail c1) eqn:T1; cbn [negb] in H; [|discriminate].
    injection H as _ <-; eauto.
  - destruct s as [|c1 [|c2 s]]; [discriminate|destruct (is_trail c1); discriminate|]; destruct (is_trail c1) eqn:T1; cbn [negb] in H; [|discriminate].
    destruct (is_trail c2) eqn:T2; cbn [negb] in H; [|discriminate]; injection H as _ <-; eauto 6.
  - destruct s as [|c1 [|c2 [|c3 s]]]; [discriminate|destruct (is_trail c1); discriminate|destruct (is_trail c1), (is_trail c2); discriminate|].
    destruct (is_trail c1) eqn:T1; cbn [negb] in H; [|discriminate]; destruct (is_trail c2) eqn:T2; cbn [negb] in H; [|discriminate].
    destruct (is_trail c3) eqn:T3; cbn [negb] in H; [|discriminate]; injection H as _ <-; eauto 9.
Qed.

Lemma validate_next_sequence c s cp rest : validate_next (c :: s) = Some (UTF8_OK, cp, rest) ->
  sequence_length c <> 0 /\ get_sequence (sequence_length c) (c :: s) = (UTF8_OK, cp, rest).
Proof.
  unfold validate_next; destruct (Z.eqb_spec (sequence_length c) 0) as [|N]; [discriminate|]; intros H; split; [exact N|].
  destruct (get_sequence (sequence_length c) (c :: s)) as [[err cp'] it']; destruct err; try discriminate.
  destruct (negb (is_code_point_valid cp')); [discriminate|]; destruct (is_overlong_sequence cp' (sequence_length c)); [discriminate|].
  injection H as -> ->; reflexivity.
Qed.

Lemma validate_next_inv s cp rest : Forall (digit_ok 256) s -> validate_next s = Some (UTF8_OK, cp, rest) ->
  0 <= cp /\ is_code_point_valid cp = true /\ s = enc cp ++ rest.
Proof.
  intros F H; destruct s as [|c s]; [discriminate|]; inversion_clear F as [|? ? Hc F1]; unfold digit_ok in Hc.
  destruct (validate_next_sequence _ _ _ _ H) as [N G]; rewrite sequence_length_eq in N, G by exact Hc.
  destruct (Z.ltb_spec c 128) as [L|L].
  { unfold validate_next in H; rewrite sequence_length_eq, (proj2 (Z.ltb_lt c 128)) in H by lia.
    apply (checked_ok c 1 (c :: s) s) in H as (-> & -> & V & _); split; [lia|split; [exact V|]].
    unfold enc; rewrite (proj2 (Z.ltb_lt c 128)) by lia; reflexivity. }
  destruct (get_sequence_trails _ _ _ _ _ G) as (G2 & G3 & G4); clear G.
  destruct (Z.ltb_spec c 192); [lia|]; destruct (Z.ltb_spec c 224); [|destruct (Z.ltb_spec c 240); [|destruct (Z.ltb_spec c 248); [|lia]]].
  - destruct (G2 eq_refl) as (c1 & -> & T1); inversion_clear F1 as [|? ? K1 _].
    destruct (trail_form c1 K1 T1) as (x & -> & Hx); replace c with (192 + (c - 192)) in H |- * by lia.
    rewrite validate_two in H by lia; apply checked_ok in H as (-> & _ & V & O); unfold is_overlong_sequence in O.
    destruct (Z.ltb_spec ((c - 192) * 64 + x) 128); [discriminate|].
    split; [lia|split; [exact V|rewrite enc_two by lia; reflexivity]].
  - destruct (G3 eq_refl) as (c1 & c2 & -> & T1 & T2); inversion_clear F1 as [|? ? K1 F2]; inversion_clear F2 as [|? ? K2 _].
    destruct (trail_form c1 K1 T1) as (x & -> & Hx); destruct (trail_form c2 K2 T2) as (y & -> & Hy); replace c with (224 + (c - 224)) in H |- * by lia.
    rewrite validate_three in H by lia; apply checked_ok in H as (-> & _ & V & O); unfold is_overlong_sequence in O.
    destruct (Z.ltb_spec ((c - 224) * 4096 + x * 64 + y) 128); [discriminate|]; destruct (Z.ltb_spec ((c - 224) * 4096 + x * 64 + y) 2048); [discriminate|].
    split; [lia|split; [exact V|rewrite enc_three by lia; reflexivity]].
  - destruct (G4 eq_refl) as (c1 & c2 & c3 & -> & T1 & T2 & T3); inversion_clear F1 as [|? ? K1 F2]; inversion_clear F2 as [|? ? K2 F3]; inversion_clear F3 as [|? ? K3 _].
    destruct (trail_form c1 K1 T1) as (x & -> & Hx); destruct (trail_form c2 K2 T2) as (y & -> & Hy); destruct (trail_form c3 K3 T3) as (z & -> & Hz).
    replace c with (240 + (c - 240)) in H |- * by lia; rewrite validate_four in H by lia; apply checked_ok in H as (-> & _ & V & O).
    unfold is_overlong_sequence in O; set (cp := (c - 240) * 262144 + x * 4096 + y * 64 + z) in *.
    destruct (Z.ltb_spec cp 128); [discriminate|]; destruct (Z.ltb_spec cp 2048); [discriminate|]; destruct (Z.ltb_spec cp 65536); [discriminate|].
    unfold cp in *; split; [lia|split; [exact V|rewrite enc_four by lia; reflexivity]].
Qed.

(** ** Writing *)

Lemma append_enc cp : 0 <= cp -> is_code_point_valid cp = true -> append cp = Some (enc cp).
Proof.
  intros H0 Hv; pose proof (valid_is_wc cp H0 Hv) as Hw; unfold append, is_wc in *; rewrite Hv; cbn [negb]; f_equal; unfold enc.
  assert (forall x, u8 (Z.lor (Z.land x 63) 128) = 128 + x mod 64) as Et by (intros x; rewrite Z.lor_comm; apply tail_of).
  rewrite !Et, !Z.shiftr_div_pow2 by lia; pows.
  destruct (Z.ltb_spec cp 128); [rewrite u8_small by lia; reflexivity|].
  destruct (Z.ltb_spec cp 2048); [|destruct (Z.ltb_spec cp 65536)].
  - change 192 with (3 * 2 ^ 6) at 1; rewrite or_high by (pows; dlia); rewrite u8_small by (pows; dlia); f_equal; pows; lia.
  - change 224 with (7 * 2 ^ 5) at 1; rewrite or_high by (pows; dlia); rewrite u8_small by (pows; dlia); f_equal; pows; lia.
  - change 240 with (15 * 2 ^ 4) at 1; rewrite or_high by (pows; dlia); rewrite u8_small by (pows; dlia); f_equal; pows; lia.
Qed.

(** The code point of a surrogate pair. *)
Lemma surrogate_pair a b : 55296 <= a <= 56319 -> 56320 <= b <= 57343 ->
  let cp := u32 (u32 (Z.shiftl a 10) + b + u32 (65536 - Z.shiftl 55296 10 - 56320)) in
  cp = 65536 + (a - 55296) * 1024 + (b - 56320) /\ 65536 <= cp <= 1114111 /\
  wrap 16 (Z.shiftr cp 10 + (55296 - Z.shiftr 65536 10)) = a /\ wrap 16 (Z.land cp 1023 + 56320) = b.
Proof.
  intros Ha Hb cp; assert (cp = 65536 + (a - 55296) * 1024 + (b - 56320)) as E.
  { unfold cp, u32, wrap; rewrite !Z.shiftl_mul_pow2 by lia; pows; dlia. }
  rewrite E; clear E cp; set (cp := 65536 + (a - 55296) * 1024 + (b - 56320)); split; [reflexivity|split; [unfold cp; lia|]].
  rewrite (land_mod cp 10), !Z.shiftr_div_pow2 by (reflexivity || lia); unfold wrap, cp; pows; split; dlia.
Qed.

Lemma next_enc cp rest : 0 <= cp -> is_code_point_valid cp = true -> next (enc cp ++ rest) = Some (cp, rest).
Proof. intros H0 Hv; unfold next; rewrite validate_next_enc by assumption; reflexivity. Qed.

Lemma utf16_enc u : Forall (fun w => 0 <= w < 65536) u -> forall r, utf16to8 u = Some r -> forall fuel, (length r <= fuel)%nat -> utf8to16 fuel r = Some u.
Proof.
  assert (forall cp rest fuel u', 0 <= cp -> is_code_point_valid cp = true -> (length (enc cp ++ rest) <= fuel)%nat ->
    (forall f, (length rest <= f)%nat -> utf8to16 f rest = Some u') ->
    utf8to16 fuel (enc cp ++ rest) = Some ((if cp >? 65535
      then [wrap 16 (Z.shiftr cp 10 + (55296 - Z.shiftr 65536 10)); wrap 16 (Z.land cp 1023 + 56320)] else [wrap 16 cp]) ++ u')) as Step.
  { intros cp rest fuel u' H0 Hv Hf IH; destruct (enc_zlen cp (valid_is_wc cp H0 Hv)) as [_ L].
    rewrite length_app in Hf; unfold zlen in L; destruct fuel as [|fuel]; [lia|].
    pose proof (next_enc cp rest H0 Hv) as E; destruct (enc cp ++ rest) as [|x l] eqn:El; [discriminate|].
    cbn [utf8to16]; rewrite E; cbn [obind]; rewrite IH by lia; reflexivity. }
  remember (length u) as n eqn:En; assert (length u <= n)%nat as Ln by lia; clear En; revert u Ln.
  induction n as [|n IH]; intros u Ln Hu r H fuel Hf.
  - destruct u; [|cbn in Ln; lia]; injection H as <-; destruct fuel; reflexivity.
  - destruct u as [|a u]; [injection H as <-; destruct fuel; reflexivity|]; inversion_clear Hu as [|? ? Ha Hu']; cbn [utf16to8] in H; cbn [length] in Ln.
    destruct ((55296 <=? a) && (a <=? 56319)) eqn:C1.
    + destruct u as [|b u]; [discriminate|]; inversion_clear Hu' as [|? ? Hb Hu'']; destruct ((56320 <=? b) && (b <=? 57343)) eqn:C2; [|discriminate].
      destruct (surrogate_pair a b) as (_ & Bc & Ea & Eb); [lia..|]; set (cp := u32 _) in *; cbn [length] in Ln.
      assert (is_code_point_valid cp = true) as V by (unfold is_code_point_valid, is_surrogate; lia).
      bind_in H r1 H1; rewrite append_enc in H1 by (exact V || lia); injection H1 as <-; bind_in H r2 H2; injection H as <-.
      rewrite (Step cp r2 fuel u); [|lia|exact V|exact Hf|intros f Hf'; apply (IH u); (assumption || lia)].
      destruct (Z.gtb_spec cp 65535); [rewrite Ea, Eb; reflexivity|lia].
    + destruct ((56320 <=? a) && (a <=? 57343)) eqn:C2; [discriminate|]; bind_in H r1 H1; bind_in H r2 H2; injection H as <-.
      assert (is_code_point_valid a = true) as V by (unfold append in H1; destruct (is_code_point_valid a); [reflexivity|discriminate]).
      rewrite append_enc in H1 by (exact V || lia); injection H1 as <-.
      rewrite (Step a r2 fuel u); [|lia|exact V|exact Hf|intros f Hf'; apply (IH u); (assumption || lia)].
      destruct (Z.gtb_spec a 65535); [lia|]; unfold wrap; pows; rewrite Z.mod_small by lia; reflexivity.
Qed.
End utf8_facts.

(** ** The properties *)

(** C31. Writing and reading a character of the character set are inverse: what
    [my_wc_mb_utf8mb4] writes is read back by [my_mb_wc_utf8mb4] whatever
    follows it, and every byte sequence that is read is the one that would be
    written. *)
Theorem utf8mb4_round_trip :
  (forall wc room rest, 0 <= wc < 2097152 -> wc_count wc <= room ->
    exists bs, my_wc_mb_utf8mb4 wc room = (zlen bs, bs) /\ my_mb_wc_utf8mb4 (bs ++ rest) = Char wc (zlen bs)) /\
  (forall s wc res, Forall (digit_ok 256) s -> my_mb_wc_utf8mb4 s = Char wc res ->
    0 <= wc < 2097152 /\ my_wc_mb_utf8mb4 wc res = (res, ztake res s)).
Proof.
  split.
  - intros wc room rest H Hr; exists (enc wc); destruct (enc_zlen wc H) as [L B]; rewrite mb_wc_enc by exact H; split; [|reflexivity].
    unfold my_wc_mb_utf8mb4; destruct (Z.leb_spec room 0), (Z.eqb_spec (wc_count wc) 0), (Z.ltb_spec room (wc_count wc)); try lia.
    rewrite wc_bytes_enc by exact H; rewrite L; reflexivity.
  - intros s wc res F H; destruct (mb_wc_inv s wc res F H) as (Hw & rest & -> & ->); split; [exact Hw|].
    destruct (enc_zlen wc Hw) as [L B]; unfold my_wc_mb_utf8mb4; rewrite L in *.
    destruct (Z.leb_spec (wc_count wc) 0), (Z.eqb_spec (wc_count wc) 0), (Z.ltb_spec (wc_count wc) (wc_count wc)); try lia.
    rewrite wc_bytes_enc, ztake_app by (exact Hw || lia); reflexivity.
Qed.

(** The two decoders agree: [validate_next] of the library accepts a
    sequence exactly if [my_mb_wc_utf8mb4] reads it as the same code point and
    the code point is valid (no surrogate, not above 10FFFF, not FFFE or
    FFFF). *)
Theorem utf8_decoders_agree s cp : Forall (digit_ok 256) s ->
  (exists rest, utf8.validate_next s = Some (utf8.UTF8_OK, cp, rest)) <->
  (exists res, my_mb_wc_utf8mb4 s = Char cp res) /\ utf8.is_code_point_valid cp = true.
Proof.
  intros F; split.
  - intros [rest H]; destruct (utf8_facts.validate_next_inv s cp rest F H) as (H0 & V & ->); split; [|exact V].
    exists (zlen (enc cp)); apply mb_wc_enc, utf8_facts.valid_is_wc; assumption.
  - intros [[res H] V]; destruct (mb_wc_inv s cp res F H) as (Hw & rest & -> & _); exists rest.
    apply utf8_facts.validate_next_enc; [apply Hw|exact V].
Qed.

Lemma utf8_decoders_agree_witness :
  (exists rest, utf8.validate_next [226; 130; 172; 33] = Some (utf8.UTF8_OK, 8364, rest)) <->
  (exists res, my_mb_wc_utf8mb4 [226; 130; 172; 33] = Char 8364 res) /\ utf8.is_code_point_valid 8364 = true.
Proof.
  apply (utf8_decoders_agree [226; 130; 172; 33] 8364).
  repeat (apply Forall_cons; [split; [discriminate|reflexivity]|]); apply Forall_nil.
Defined.

(** The character set takes surrogates and characters above 10FFFF, which
    the library refuses. *)
Lemma utf8mb4_takes_surrogates :
  my_mb_wc_utf8mb4 [237; 160; 128] = Char 55296 3 /\ utf8.is_valid [237; 160; 128] = false /\
  my_mb_wc_utf8mb4 [247; 191; 191; 191] = Char 2097151 4 /\ utf8.is_valid [247; 191; 191; 191] = false.
Proof. vm_compute; repeat split. Qed.

(** UTF-16 that is converted to UTF-8 is converted back. *)
Lemma utf16_round_trip u r : Forall (fun w => 0 <= w < 65536) u -> utf8.utf16to8 u = Some r ->
  utf8.utf8to16 (length r) r = Some u.
Proof. intros Hu H; apply (utf8_facts.utf16_enc u Hu r H); lia. Qed.
