(* ===== verification/Collation.v ===== *)
(** The collation [utf8mb4_general_ci] of [src/drizzled/ctype-utf8.cc]:
    comparison with padding by spaces, sort keys, hash and case mapping, with
    the tables of [Unicase].

    A string is the list of its bytes.  The tables are an argument, as
    [cs->caseinfo] is; the properties are about [my_unicase_default]. *)

From Stdlib Require Import ZArith Lia ZifyBool List Bool.
From S2P Require Import Prelude Words Unicase Utf8.
Import ListNotations.
Local Open Scope Z_scope.
Local Open Scope fail_scope.

Definition planes : Type := list (option (list MY_UNICASE_INFO)).

(** ** Model: characters *)

(** The entry of a character below 10000, if its plane has a table. *)
Definition unicase (uni : planes) (wc : Z) : option MY_UNICASE_INFO :=
  match nth_error uni (Z.to_nat (Z.shiftr wc 8)) with
  | Some (Some t) => nth_error t (Z.to_nat (Z.land wc 255))
  | _ => None
  end.

(** src/drizzled/ctype-utf8.cc:2150-2150 REPLACEMENT_CHAR *)
Definition REPLACEMENT_CHAR : Z := 65533.

(** src/drizzled/ctype-utf8.cc:2153-2159 my_tolower_utf8mb4 *)
Definition my_tolower_utf8mb4 (uni : planes) (wc : Z) : Z :=
  if Z.shiftr wc 8 <? 256 then match unicase uni wc with Some u => tolower u | None => wc end else wc.

(** src/drizzled/ctype-utf8.cc:2162-2168 my_toupper_utf8mb4 *)
Definition my_toupper_utf8mb4 (uni : planes) (wc : Z) : Z :=
  if Z.shiftr wc 8 <? 256 then match unicase uni wc with Some u => toupper u | None => wc end else wc.

(** src/drizzled/ctype-utf8.cc:2171-2184 my_tosort_utf8mb4 *)
Definition my_tosort_utf8mb4 (uni : planes) (wc : Z) : Z :=
  if Z.shiftr wc 8 <? 256 then match unicase uni wc with Some u => sort u | None => wc end
  else REPLACEMENT_CHAR.

(** ** Model: comparison *)

(** src/drizzled/ctype-utf8.cc:1959-1967 bincmp_utf8mb4

    [memcmp] is known up to its sign. *)
Definition bincmp_utf8mb4 (s t : list Z) : Z :=
  let len := Z.min (zlen s) (zlen t) in
  match memcmp (ztake len s) (ztake len t) with
  | Lt => -1
  | Gt => 1
  | Eq => i32 (zlen s) - i32 (zlen t)
  end.

(** src/drizzled/ctype-utf8.cc:2415-2436 my_strnncollsp_utf8mb4

    The characters of both strings: the result, or what is left of them. *)
Fixpoint compare_chars (fuel : nat) (uni : planes) (s t : list Z) : option (Z + list Z * list Z) :=
  match s, t, fuel with
  | [], _, _ => Some (inr (s, t))
  | _, [], _ => Some (inr (s, t))
  | _, _, O => None
  | _, _, S fuel' =>
      match my_mb_wc_utf8mb4 s, my_mb_wc_utf8mb4 t with
      | Char s_wc s_res, Char t_wc t_res =>
          let s_wc := my_tosort_utf8mb4 uni s_wc in
          let t_wc := my_tosort_utf8mb4 uni t_wc in
          if negb (s_wc =? t_wc) then Some (inl (if s_wc >? t_wc then 1 else -1))
          else compare_chars fuel' uni (zdrop s_res s) (zdrop t_res t)
      | _, _ => Some (inl (bincmp_utf8mb4 s t))
      end
  end.

(** src/drizzled/ctype-utf8.cc:2465-2469 my_strnncollsp_utf8mb4 *)
Fixpoint end_space (s : list Z) (swap : Z) : Z :=
  match s with
  | [] => 0
  | c :: s' => if negb (c =? 32) then (if c <? 32 then - swap else swap) else end_space s' swap
  end.

(** src/drizzled/ctype-utf8.cc:2400-2472 my_strnncollsp_utf8mb4

    [VARCHAR_WITH_DIFF_ENDSPACE_ARE_DIFFERENT_FOR_UNIQUE] is not defined. *)
Definition my_strnncollsp_utf8mb4 (uni : planes) (s t : list Z) : option Z :=
  let? r := compare_chars (length s) uni s t in
  match r with
  | inl res => Some res
  | inr (s, t) =>
      if zlen s =? zlen t then Some 0
      else if zlen s <? zlen t then Some (end_space t (-1))
      else Some (end_space s 1)
  end.

(** src/drizzled/ctype-utf8.cc:2336-2370 my_strnncoll_utf8mb4 *)
Definition my_strnncoll_utf8mb4 (uni : planes) (s t : list Z) (t_is_prefix : bool) : option Z :=
  let? r := compare_chars (length s) uni s t in
  match r with
  | inl res => Some res
  | inr (s, t) => Some (i32 (if t_is_prefix then - zlen t else zlen s - zlen t))
  end.

(** ** Model: sort keys *)

(** src/drizzled/ctype-utf8.cc:2576-2588 my_strnxfrm_utf8mb4

    The weights, two bytes each, while there is room for two in the [room]
    bytes left: the bytes, the room and the number of weights left. *)
Fixpoint xfrm_weights (nweights : nat) (uni : option planes) (src : list Z) (room : Z) : list Z * Z * nat :=
  match nweights with
  | O => ([], room, O)
  | S n =>
      if room >? 1 then
        match my_mb_wc_utf8mb4 src with
        | Char wc res =>
            let wc := match uni with Some uni => my_tosort_utf8mb4 uni wc | None => wc end in
            let '(dst, room, n) := xfrm_weights n uni (zdrop res src) (room - 2) in
            (u8 (Z.shiftr wc 8) :: u8 (Z.land wc 255) :: dst, room, n)
        | NoChar _ => ([], room, nweights)
        end
      else ([], room, nweights)
  end.

(** src/drizzled/ctype-utf8.cc:2593-2597 my_strnxfrm_utf8mb4 *)
Fixpoint xfrm_spaces (nweights : nat) (room : Z) : list Z * Z :=
  match nweights with
  | O => ([], room)
  | S n =>
      if room >? 1 then let '(dst, room) := xfrm_spaces n (room - 2) in (0 :: 32 :: dst, room)
      else ([], room)
  end.

(** src/drizzled/ctype-utf8.cc:2563-2604 my_strnxfrm_utf8mb4

    With the flag [MY_STRXFRM_PAD_WITH_SPACE] alone, for which
    [my_strxfrm_desc_and_reverse] does nothing; [uni] is [None] for a
    collation with [MY_CS_BINSORT]. *)
Definition my_strnxfrm_utf8mb4 (uni : option planes) (dstlen : Z) (nweights : nat) (src : list Z) : list Z :=
  let '(dst, room, nweights) := xfrm_weights nweights uni src dstlen in
  if (room >? 0) && negb (Nat.eqb nweights 0) then
    let '(pad, room) := xfrm_spaces nweights room in
    dst ++ pad ++ (if room >? 0 then [0] else [])
  else dst.

(** src/drizzled/charset.h:343-346 strnxfrm *)
Definition strnxfrm (uni : option planes) (dstlen : Z) (src : list Z) : list Z :=
  my_strnxfrm_utf8mb4 uni dstlen (Z.to_nat dstlen) src.

(** ** Model: hash *)

(** src/drizzled/ctype-utf8.cc:2209-2214 my_hash_add *)
Definition my_hash_add (n : Z * Z) (ch : Z) : Z * Z :=
  let '(n1, n2) := n in
  (Z.lxor n1 (u32 (u32 (u32 (Z.land n1 63 + n2) * ch) + u32 (Z.shiftl n1 8))), u32 (n2 + 3)).

(** src/drizzled/ctype-utf8.cc:2230-2231 my_hash_sort_utf8mb4

    The string without the spaces at its end, from the string in reverse. *)
Fixpoint skip_spaces (r : list Z) : list Z :=
  match r with
  | c :: r' => if c =? 32 then skip_spaces r' else r
  | [] => []
  end.

(** src/drizzled/ctype-utf8.cc:2233-2250 my_hash_sort_utf8mb4 *)
Fixpoint hash_chars (fuel : nat) (uni : planes) (s : list Z) (n : Z * Z) : option (Z * Z) :=
  match my_mb_wc_utf8mb4 s, fuel with
  | NoChar _, _ => Some n
  | _, O => None
  | Char wc res, S fuel' =>
      let wc := my_tosort_utf8mb4 uni wc in
      let n := my_hash_add n (Z.land wc 255) in
      let n := my_hash_add n (Z.land (Z.shiftr wc 8) 255) in
      let n := if wc >? 65535 then my_hash_add n (Z.land (Z.shiftr wc 16) 255) else n in
      hash_chars fuel' uni (zdrop res s) n
  end.

(** src/drizzled/ctype-utf8.cc:2217-2251 my_hash_sort_utf8mb4 *)
Definition my_hash_sort_utf8mb4 (uni : planes) (s : list Z) (n : Z * Z) : option (Z * Z) :=
  hash_chars (S (length s)) uni (rev (skip_spaces (rev s))) n.

(** ** Model: case *)

(** src/drizzled/ctype-utf8.cc:2187-2206 my_caseup_utf8mb4

    The bytes written to [dst], which has room for [room]; with [map] the
    lower case this is also [my_casedn_utf8mb4], of lines 2276 to 2295. *)
Fixpoint map_case (fuel : nat) (map : Z -> Z) (src : list Z) (room : Z) : option (list Z) :=
  match src, fuel with
  | [], _ => Some []
  | _, O => None
  | _, S fuel' =>
      match my_mb_wc_utf8mb4 src with
      | NoChar _ => Some []
      | Char wc srcres =>
          let '(dstres, bytes) := my_wc_mb_utf8mb4 (map wc) room in
          if dstres <=? 0 then Some []
          else
            let? rest := map_case fuel' map (zdrop srcres src) (room - dstres) in
            Some (bytes ++ rest)
      end
  end.

(** src/drizzled/ctype-utf8.cc:2187-2206 my_caseup_utf8mb4 *)
Definition my_caseup_utf8mb4 (uni : planes) (src : list Z) (dstlen : Z) : option (list Z) :=
  map_case (length src) (my_toupper_utf8mb4 uni) src dstlen.

(** src/drizzled/ctype-utf8.cc:2276-2295 my_casedn_utf8mb4 *)
Definition my_casedn_utf8mb4 (uni : planes) (src : list Z) (dstlen : Z) : option (list Z) :=
  map_case (length src) (my_tolower_utf8mb4 uni) src dstlen.

(** ** The tables *)

(** What the properties need of an entry. *)
Definition entry_ok (uni : planes) (wc : Z) (u : MY_UNICASE_INFO) : bool :=
  (0 <=? sort u) && (sort u <? 65536) && Bool.eqb (sort u <? 32) (wc <? 32) && Bool.eqb (sort u =? 32) (wc =? 32) &&
  (0 <=? toupper u) && (wc_count (toupper u) <=? wc_count wc) && (toupper u <? 65536) &&
  (0 <=? tolower u) && (wc_count (tolower u) <=? wc_count wc) && (tolower u <? 65536) &&
  (my_tosort_utf8mb4 uni (toupper u) =? sort u) && (my_tosort_utf8mb4 uni (sort u) =? sort u).

Fixpoint check_entries (uni : planes) (wc : Z) (t : list MY_UNICASE_INFO) : bool :=
  match t with
  | [] => true
  | u :: t' => entry_ok uni wc u && check_entries uni (wc + 1) t'
  end.

Fixpoint check_planes (uni : planes) (wc : Z) (l : planes) : bool :=
  match l with
  | [] => true
  | None :: l' => check_planes uni (wc + 256) l'
  | Some t :: l' => check_entries uni wc t && check_planes uni (wc + 256) l'
  end.

Lemma check_entries_nth uni t : forall wc i u, check_entries uni wc t = true -> nth_error t i = Some u ->
  entry_ok uni (wc + Z.of_nat i) u = true.
Proof.
  induction t as [|v t IH]; intros wc i u H E; [destruct i; discriminate|]; cbn [check_entries] in H; apply andb_true_iff in H as [H1 H2].
  destruct i as [|i]; cbn [nth_error] in E; [injection E as <-; rewrite Z.add_0_r; exact H1|].
  replace (wc + Z.of_nat (S i)) with (wc + 1 + Z.of_nat i) by lia; apply (IH (wc + 1) i u H2 E).
Qed.

Lemma check_planes_nth uni l : forall wc p t i u, check_planes uni wc l = true -> nth_error l p = Some (Some t) ->
  nth_error t i = Some u -> entry_ok uni (wc + 256 * Z.of_nat p + Z.of_nat i) u = true.
Proof.
  induction l as [|o l IH]; intros wc p t i u H Ep Ei; [destruct p; discriminate|]; destruct p as [|p]; cbn [nth_error] in Ep.
  - injection Ep as ->; cbn [check_planes] in H; apply andb_true_iff in H as [H _].
    rewrite Z.mul_0_r, Z.add_0_r; apply (check_entries_nth uni t wc i u H Ei).
  - replace (wc + 256 * Z.of_nat (S p) + Z.of_nat i) with (wc + 256 + 256 * Z.of_nat p + Z.of_nat i) by lia.
    apply (IH (wc + 256) p t i u); [|exact Ep|exact Ei]; destruct o; cbn [check_planes] in H; [apply andb_true_iff in H; apply H|exact H].
Qed.

Lemma default_checked : check_planes my_unicase_default 0 my_unicase_default = true.
Proof. vm_compute; reflexivity. Qed.

Abbreviation U := my_unicase_default.

Lemma unicase_ok wc u : 0 <= wc -> unicase U wc = Some u -> entry_ok U wc u = true.
Proof.
  intros H0 H; unfold unicase in H; destruct (nth_error U (Z.to_nat (Z.shiftr wc 8))) as [[t|]|] eqn:Ep; try discriminate.
  pose proof (check_planes_nth U U 0 _ t _ u default_checked Ep H) as E.
  rewrite Z.shiftr_div_pow2, utf8_facts.land_mod with (n := 8) in E by (reflexivity || lia); change (2 ^ 8) with 256 in E.
  replace wc with (0 + 256 * Z.of_nat (Z.to_nat (wc / 256)) + Z.of_nat (Z.to_nat (wc mod 256))); [exact E|].
  rewrite !Z2Nat.id by (try apply Z.mod_pos_bound; try apply Z.div_pos; lia); dlia.
Qed.

(** The weight of a character. *)
Definition weight (wc : Z) : Z := my_tosort_utf8mb4 U wc.

Lemma weight_facts wc : is_wc wc -> 0 <= weight wc < 65536 /\ (weight wc <? 32) = (wc <? 32) /\ (weight wc =? 32) = (wc =? 32).
Proof.
  intros [H0 _]; unfold weight, my_tosort_utf8mb4; rewrite Z.shiftr_div_pow2 by lia; change (2 ^ 8) with 256.
  destruct (Z.ltb_spec (wc / 256) 256) as [L|L]; [|unfold REPLACEMENT_CHAR; assert (65536 <= wc) by dlia; split; lia].
  destruct (unicase U wc) as [u|] eqn:E; [|assert (wc < 65536) by dlia; split; lia].
  pose proof (unicase_ok wc u H0 E) as K; unfold entry_ok in K; repeat (apply andb_true_iff in K as [K ?]).
  repeat match goal with H : Bool.eqb _ _ = true |- _ => apply Bool.eqb_prop in H end; split; [lia|auto].
Qed.

Lemma weight_idem wc : 0 <= wc < 65536 -> weight (weight wc) = weight wc.
Proof.
  intros H; unfold weight, my_tosort_utf8mb4 at 2 3; rewrite Z.shiftr_div_pow2 by lia; change (2 ^ 8) with 256.
  rewrite (proj2 (Z.ltb_lt (wc / 256) 256)) by dlia; destruct (unicase U wc) as [u|] eqn:E.
  - pose proof (unicase_ok wc u (proj1 H) E) as K; unfold entry_ok in K; repeat (apply andb_true_iff in K as [K ?]).
    apply Z.eqb_eq; assumption.
  - unfold my_tosort_utf8mb4; rewrite E; destruct (_ <? _) eqn:L; [reflexivity|].
    rewrite Z.shiftr_div_pow2 in L by lia; apply Z.ltb_ge in L; change (2 ^ 8) with 256 in L; dlia.
Qed.

Lemma toupper_facts wc : is_wc wc -> is_wc (my_toupper_utf8mb4 U wc) /\ wc_count (my_toupper_utf8mb4 U wc) <= wc_count wc /\
  weight (my_toupper_utf8mb4 U wc) = weight wc.
Proof.
  intros Hw; pose proof Hw as [H0 _]; unfold my_toupper_utf8mb4, weight.
  destruct (Z.shiftr wc 8 <? 256) eqn:L; [|split; [exact Hw|split; [lia|reflexivity]]].
  destruct (unicase U wc) as [u|] eqn:E; [|split; [exact Hw|split; [lia|reflexivity]]].
  pose proof (unicase_ok wc u H0 E) as K; unfold entry_ok in K; repeat (apply andb_true_iff in K as [K ?]).
  split; [unfold is_wc; lia|split; [lia|]]; unfold my_tosort_utf8mb4 at 2; rewrite L, E; apply Z.eqb_eq; assumption.
Qed.

Lemma tolower_facts wc : is_wc wc -> is_wc (my_tolower_utf8mb4 U wc) /\ wc_count (my_tolower_utf8mb4 U wc) <= wc_count wc.
Proof.
  intros Hw; pose proof Hw as [H0 _]; unfold my_tolower_utf8mb4.
  destruct (Z.shiftr wc 8 <? 256) eqn:L; [|split; [exact Hw|lia]]; destruct (unicase U wc) as [u|] eqn:E; [|split; [exact Hw|lia]].
  pose proof (unicase_ok wc u H0 E) as K; unfold entry_ok in K; repeat (apply andb_true_iff in K as [K ?]).
  split; [unfold is_wc; lia|lia].
Qed.

(** ** Strings of characters *)

(** The bytes of a string of characters. *)
Definition str (ws : list Z) : list Z := concat (map enc ws).

Lemma str_cons w ws : str (w :: ws) = enc w ++ str ws.
Proof. reflexivity. Qed.

Lemma str_app ws vs : str (ws ++ vs) = str ws ++ str vs.
Proof. unfold str; rewrite map_app, concat_app; reflexivity. Qed.

Lemma str_zlen ws : Forall is_wc ws -> zlen ws <= zlen (str ws).
Proof. induction 1 as [|w ws Hw _ IH]; [reflexivity|]; rewrite str_cons; destruct (enc_zlen w Hw); llia. Qed.

Lemma well_formed_str ws : Forall is_wc ws -> forall n len, zlen ws <= Z.of_nat n ->
  my_well_formed_len_mb n (str ws) len = (len + zlen (str ws), false).
Proof.
  induction 1 as [|w ws Hw F IH]; intros n len L.
  - change (zlen (str [])) with 0; rewrite Z.add_0_r; destruct n; reflexivity.
  - destruct n as [|n]; [exfalso; llia|]; rewrite str_cons; cbn [my_well_formed_len_mb]; rewrite mb_wc_enc, zdrop_app by (exact Hw || reflexivity).
    rewrite IH by llia; f_equal; llia.
Qed.

(** Every string of bytes is a string of characters and a rest that no
    character starts. *)
Lemma str_split n : forall s, zlen s <= Z.of_nat n -> Forall (digit_ok 256) s ->
  exists ws tail e, s = str ws ++ tail /\ Forall is_wc ws /\ my_mb_wc_utf8mb4 tail = NoChar e.
Proof.
  induction n as [|n IH]; intros s L F; destruct (my_mb_wc_utf8mb4 s) as [e|wc res] eqn:E; try (exists [], s, e; auto; fail).
  - destruct (mb_wc_inv s wc res F E) as (Hw & rest & -> & _); destruct (enc_zlen wc Hw); exfalso; llia.
  - destruct (mb_wc_inv s wc res F E) as (Hw & rest & -> & _); destruct (enc_zlen wc Hw).
    apply Forall_app in F as [_ F]; destruct (IH rest ltac:(llia) F) as (ws & tail & e & -> & Fw & Et).
    exists (wc :: ws), tail, e; rewrite str_cons, <- app_assoc; auto.
Qed.

(** A string without an error of [my_well_formed_len_mb]. *)
Definition well_formed (s : list Z) : Prop := my_well_formed_len_mb (length s) s 0 = (zlen s, false).

Lemma well_formed_spec s : Forall (digit_ok 256) s -> well_formed s <-> exists ws, Forall is_wc ws /\ s = str ws.
Proof.
  intros F; split.
  - intros H; destruct (str_split (length s) s (Z.le_refl _) F) as (ws & tail & e & -> & Fw & Et); exists ws; split; [exact Fw|].
    assert (forall n len, zlen ws < Z.of_nat n -> my_well_formed_len_mb n (str ws ++ tail) len = (len + zlen (str ws), 0 <? zlen tail)) as K.
    { clear H F; induction Fw as [|w ws Hw Fw IH]; intros n len L; (destruct n as [|n]; [exfalso; llia|]).
      - cbn [app str map concat my_well_formed_len_mb]; rewrite Et, Z.add_0_r; reflexivity.
      - rewrite str_cons, <- app_assoc; cbn [my_well_formed_len_mb]; rewrite mb_wc_enc, zdrop_app, IH by (exact Hw || reflexivity || llia).
        f_equal; llia. }
    unfold well_formed in H; destruct tail as [|x tail]; [rewrite app_nil_r; reflexivity|].
    rewrite K in H; [injection H as H; exfalso; llia|]; pose proof (str_zlen ws Fw); rewrite length_app; unfold zlen in *; cbn; lia.
  - intros (ws & Fw & ->); unfold well_formed; rewrite well_formed_str by (exact Fw || apply (str_zlen ws Fw)); reflexivity.
Qed.

Lemma str_bytes ws : Forall is_wc ws -> Forall (digit_ok 256) (str ws).
Proof. induction 1; [constructor|]; rewrite str_cons; apply Forall_app; auto using enc_bytes. Qed.

(** The first byte of a character: below, at or above a space like it. *)
Lemma enc_head w : is_wc w -> exists c r, enc w = c :: r /\ (c <? 32) = (w <? 32) /\ (c =? 32) = (w =? 32) /\ (c = 32 -> r = []).
Proof.
  intros [H0 _]; unfold enc; destruct (Z.ltb_spec w 128); [exists w, []; auto|].
  assert (0 <= w / 64 /\ 0 <= w / 4096 /\ 0 <= w / 262144) as (? & ? & ?) by (repeat split; apply Z.div_pos; lia).
  destruct (Z.ltb_spec w 2048), (Z.ltb_spec w 65536); eexists _, _; (split; [reflexivity|]); lia.
Qed.

Lemma enc_last w : is_wc w -> exists c r, enc w = r ++ [c] /\ (c =? 32) = (w =? 32).
Proof.
  intros [H0 _]; unfold enc; destruct (Z.ltb_spec w 128); [exists w, []; auto|].
  assert (0 <= w mod 64) by (apply Z.mod_pos_bound; lia).
  destruct (Z.ltb_spec w 2048); [exists (128 + w mod 64), [192 + w / 64]; split; [reflexivity|lia]|].
  destruct (Z.ltb_spec w 65536); [exists (128 + w mod 64), [224 + w / 4096; 128 + w / 64 mod 64]; split; [reflexivity|lia]|].
  exists (128 + w mod 64), [240 + w / 262144; 128 + w / 4096 mod 64; 128 + w / 64 mod 64]; split; [reflexivity|lia].
Qed.

(** ** Comparison *)

(** The weights of a string, padded with spaces to [n] characters. *)
Definition padded (n : nat) (u : list Z) : list Z := u ++ repeat 32 (n - length u).

Definition weights (ws : list Z) : list Z := map weight ws.

Lemma weights_length ws : length (weights ws) = length ws.
Proof. apply length_map. Qed.

(** Comparison of two strings of weights as if the shorter one went on with
    spaces. *)
Definition pad_compare (u v : list Z) : comparison :=
  let n := Nat.max (length u) (length v) in
  memcmp (padded n u) (padded n v).

Lemma padded_zlen n u : (length u <= n)%nat -> zlen (padded n u) = Z.of_nat n.
Proof. intros H; unfold padded; autorewrite with zlen; unfold zlen; lia. Qed.

Lemma padded_more n m u : (length u <= n)%nat -> (n <= m)%nat -> padded m u = padded n u ++ repeat 32 (m - n).
Proof.
  intros H L; unfold padded; rewrite <- app_assoc, <- repeat_app; do 2 f_equal; lia.
Qed.

Lemma pad_compare_any n u v : (length u <= n)%nat -> (length v <= n)%nat ->
  memcmp (padded n u) (padded n v) = pad_compare u v.
Proof.
  intros Hu Hv; unfold pad_compare; set (m := Nat.max (length u) (length v)).
  rewrite (padded_more m n u), (padded_more m n v) by lia; rewrite memcmp_app by (rewrite !padded_zlen by lia; reflexivity).
  rewrite memcmp_refl; destruct (memcmp _ _); reflexivity.
Qed.

Lemma pad_compare_cons x y u v : pad_compare (x :: u) (y :: v) = match x ?= y with Eq => pad_compare u v | c => c end.
Proof. reflexivity. Qed.

Lemma pad_compare_nil_l v : pad_compare [] v = memcmp (repeat 32 (length v)) v.
Proof. unfold pad_compare, padded; cbn [length Nat.max app]; rewrite Nat.sub_0_r, Nat.sub_diag, app_nil_r; reflexivity. Qed.

Lemma pad_compare_antisym u v : pad_compare v u = CompOpp (pad_compare u v).
Proof.
  unfold pad_compare; rewrite Nat.max_comm; generalize (padded (Nat.max (length u) (length v)) u) (padded (Nat.max (length u) (length v)) v).
  clear; intros a; induction a as [|x a IH]; intros [|y b]; try reflexivity; cbn [memcmp].
  rewrite Z.compare_antisym; destruct (x ?= y); cbn [CompOpp]; auto.
Qed.

(** What is left of a string against the end of the other, for weights [f]
    that keep the place of the space. *)
Definition keeps_space (f : Z -> Z) (w : Z) : Prop := (f w <? 32) = (w <? 32) /\ (f w =? 32) = (w =? 32).

Lemma end_space_str f vs swap : Forall is_wc vs -> Forall (keeps_space f) vs -> swap = 1 \/ swap = -1 ->
  (end_space (str vs) swap ?= 0) = (if swap =? 1 then pad_compare (map f vs) [] else pad_compare [] (map f vs)).
Proof.
  intros F K Hs; enough ((end_space (str vs) (-1) ?= 0) = pad_compare [] (map f vs) /\ end_space (str vs) 1 = - end_space (str vs) (-1)) as [E1 E2].
  - destruct Hs as [-> | ->]; [|exact E1]; rewrite pad_compare_antisym, <- E1, E2; cbn [Z.eqb Pos.eqb].
    rewrite <- Z.compare_antisym; destruct (end_space (str vs) (-1)); reflexivity.
  - rewrite pad_compare_nil_l, length_map; clear Hs; induction F as [|v vs Hv F IH]; [split; reflexivity|].
    inversion_clear K as [|? ? [WL WE] K']; specialize (IH K').
    rewrite str_cons; destruct (enc_head v Hv) as (c & r & -> & L & E & N).
    cbn [map length repeat memcmp app end_space]; rewrite E.
    destruct (Z.eqb_spec v 32) as [Ev|Ev]; cbn [negb].
    + rewrite N by lia; replace (f v) with 32 by lia; exact IH.
    + destruct (Z.ltb_spec c 32);
        [rewrite (proj2 (Z.compare_gt_iff 32 (f v))) by lia|rewrite (proj2 (Z.compare_lt_iff 32 (f v))) by lia]; split; reflexivity.
Qed.

(** The end of a comparison, when one of the strings is used up. *)
Lemma end_compare f ws vs : Forall is_wc ws -> Forall is_wc vs -> Forall (keeps_space f) ws -> Forall (keeps_space f) vs -> ws = [] \/ vs = [] ->
  ((if zlen (str ws) =? zlen (str vs) then 0 else if zlen (str ws) <? zlen (str vs) then end_space (str vs) (-1) else end_space (str ws) 1) ?= 0)
  = pad_compare (map f ws) (map f vs).
Proof.
  intros F G KF KG N; pose proof (str_zlen ws F); pose proof (str_zlen vs G).
  destruct (Z.eqb_spec (zlen (str ws)) (zlen (str vs))) as [E|E].
  - assert (ws = [] /\ vs = []) as [-> ->]; [|reflexivity].
    destruct N; subst; change (zlen (str [])) with 0 in *; split; auto; apply zlen_zero; llia.
  - destruct (Z.ltb_spec (zlen (str ws)) (zlen (str vs))); rewrite (end_space_str f) by auto;
      destruct N; subst; change (zlen (str [])) with 0 in *; try reflexivity; exfalso; llia.
Qed.

Lemma weight_keeps_space ws : Forall is_wc ws -> Forall (keeps_space weight) ws.
Proof. apply Forall_impl; intros w Hw; apply (weight_facts w Hw). Qed.

Lemma compare_chars_cons fuel w v x y : is_wc w -> is_wc v ->
  compare_chars (S fuel) U (enc w ++ x) (enc v ++ y) =
  if negb (weight w =? weight v) then Some (inl (if weight w >? weight v then 1 else -1)) else compare_chars fuel U x y.
Proof.
  intros Hw Hv; destruct (enc_head w Hw) as (c & r & Ec & _), (enc_head v Hv) as (d & q & Ed & _).
  pose proof (mb_wc_enc w x Hw) as M; pose proof (mb_wc_enc v y Hv) as N.
  rewrite <- (zdrop_app (zlen (enc w)) (enc w) x eq_refl) at 2; rewrite <- (zdrop_app (zlen (enc v)) (enc v) y eq_refl) at 2.
  rewrite Ec in M |- *; rewrite Ed in N |- *; cbn [app compare_chars] in M, N |- *; rewrite M, N; reflexivity.
Qed.

Lemma compare_chars_str ws : Forall is_wc ws -> forall vs fuel, Forall is_wc vs -> zlen ws <= Z.of_nat fuel ->
  exists r, compare_chars fuel U (str ws) (str vs) = Some r /\
    match r with
    | inl c => (c ?= 0) = pad_compare (weights ws) (weights vs) /\ c <> 0
    | inr (s, t) => exists ws' vs', s = str ws' /\ t = str vs' /\ Forall is_wc ws' /\ Forall is_wc vs' /\ (ws' = [] \/ vs' = []) /\
        pad_compare (weights ws) (weights vs) = pad_compare (weights ws') (weights vs')
    end.
Proof.
  induction 1 as [|w ws Hw F IH]; intros vs fuel G L.
  { exists (inr ([], str vs)); split; [destruct fuel; reflexivity|]; exists [], vs; repeat split; auto. }
  destruct G as [|v vs Hv G].
  { exists (inr (str (w :: ws), [])); split; [rewrite str_cons; destruct (enc_head w Hw) as (c & r & -> & _), fuel; reflexivity|].
    exists (w :: ws), []; repeat split; auto. }
  destruct fuel as [|fuel]; [exfalso; llia|]; rewrite !str_cons.
  rewrite compare_chars_cons by assumption.
  cbn [weights map]; rewrite pad_compare_cons; rewrite Z.gtb_ltb; destruct (Z.compare_spec (weight w) (weight v)) as [E|E|E].
  - rewrite E, Z.eqb_refl; apply IH; [exact G|llia].
  - eexists; split; [rewrite (proj2 (Z.eqb_neq _ _)), (proj2 (Z.ltb_ge _ _)) by lia; reflexivity|split; [reflexivity|discriminate]].
  - eexists; split; [rewrite (proj2 (Z.eqb_neq _ _)), (proj2 (Z.ltb_lt _ _)) by lia; reflexivity|split; [reflexivity|discriminate]].
Qed.

Lemma strnncollsp_str ws vs : Forall is_wc ws -> Forall is_wc vs ->
  exists c, my_strnncollsp_utf8mb4 U (str ws) (str vs) = Some c /\ (c ?= 0) = pad_compare (weights ws) (weights vs).
Proof.
  intros F G; unfold my_strnncollsp_utf8mb4.
  destruct (compare_chars_str ws F vs (length (str ws)) G) as (r & -> & H); [apply (str_zlen ws F)|].
  destruct r as [c|[s t]]; [exists c; split; [reflexivity|apply H]|].
  destruct H as (ws' & vs' & -> & -> & F' & G' & N & ->).
  eexists; split; [|apply (end_compare weight ws' vs'); auto using weight_keeps_space].
  cbn [obind]; destruct (zlen (str ws') =? zlen (str vs')), (zlen (str ws') <? zlen (str vs')); reflexivity.
Qed.

(** ** Sort keys *)

(** A weight in the sort key. *)
Definition two (w : Z) : list Z := [w / 256; w mod 256].

Lemma two_eq w : 0 <= w < 65536 -> [u8 (Z.shiftr w 8); u8 (Z.land w 255)] = two w.
Proof.
  intros H; rewrite Z.shiftr_div_pow2, utf8_facts.land_mod with (n := 8) by (reflexivity || lia); change (2 ^ 8) with 256.
  rewrite !u8_small; [reflexivity| |]; dlia.
Qed.

(** The weight written for a character. *)
Definition weigh (uni : option planes) (w : Z) : Z :=
  match uni with Some uni => my_tosort_utf8mb4 uni w | None => w end.

Lemma xfrm_weights_str uni ws : Forall is_wc ws -> Forall (fun w => 0 <= weigh uni w < 65536) ws ->
  forall k room, zlen ws <= Z.of_nat k -> 2 * zlen ws <= room ->
  xfrm_weights k uni (str ws) room = (concat (map two (map (weigh uni) ws)), room - 2 * zlen ws, (k - length ws)%nat).
Proof.
  intros F B; induction F as [|w ws Hw F IH]; intros k room Hk Hr.
  - change (zlen (@nil Z)) with 0; rewrite Z.mul_0_r, Z.sub_0_r, Nat.sub_0_r; destruct k; [reflexivity|].
    cbn [xfrm_weights str map concat my_mb_wc_utf8mb4]; destruct (room >? 1); reflexivity.
  - inversion_clear B as [|? ? Bw B']; destruct k as [|k]; [exfalso; llia|]; rewrite str_cons; cbn [xfrm_weights].
    rewrite Z.gtb_ltb, (proj2 (Z.ltb_lt 1 room)) by llia.
    rewrite mb_wc_enc, zdrop_app, IH by (assumption || reflexivity || llia); fold (weigh uni w); autorewrite with zlen.
    cbn [map concat length]; rewrite <- two_eq by exact Bw; f_equal; f_equal; lia.
Qed.

Lemma xfrm_spaces_eq m : forall k, (m <= k)%nat -> xfrm_spaces k (2 * Z.of_nat m) = (concat (map two (repeat 32 m)), 0).
Proof.
  induction m as [|m IH]; intros k L; [destruct k; reflexivity|]; destruct k as [|k]; [lia|]; cbn [xfrm_spaces].
  rewrite Z.gtb_ltb, (proj2 (Z.ltb_lt _ _)) by lia; replace (2 * Z.of_nat (S m) - 2) with (2 * Z.of_nat m) by lia.
  rewrite IH by lia; reflexivity.
Qed.

Lemma strnxfrm_str uni n ws : Forall is_wc ws -> Forall (fun w => 0 <= weigh uni w < 65536) ws -> (length ws <= n)%nat ->
  strnxfrm uni (2 * Z.of_nat n) (str ws) = concat (map two (padded n (map (weigh uni) ws))).
Proof.
  intros F B L; unfold strnxfrm, my_strnxfrm_utf8mb4; rewrite xfrm_weights_str by (assumption || unfold zlen; lia).
  unfold padded; rewrite map_app, concat_app, length_map.
  replace (2 * Z.of_nat n - 2 * zlen ws) with (2 * Z.of_nat (n - length ws)) by (unfold zlen; lia).
  destruct (Nat.eq_dec (length ws) n) as [E|E].
  - rewrite E, Nat.sub_diag; cbn [Z.of_nat Z.mul Z.gtb Z.compare andb repeat map concat]; symmetry; apply app_nil_r.
  - rewrite Z.gtb_ltb, (proj2 (Z.ltb_lt _ _)), (proj2 (Nat.eqb_neq _ _)) by lia; cbn [negb andb].
    rewrite xfrm_spaces_eq by lia; cbn [Z.gtb Z.compare]; rewrite app_nil_r; reflexivity.
Qed.

Lemma padded_Forall (P : Z -> Prop) n u : Forall P u -> P 32 -> Forall P (padded n u).
Proof. intros F H; apply Forall_app; split; [exact F|]; apply Forall_forall; intros x ->%repeat_spec; exact H. Qed.

Lemma memcmp_two u : Forall (fun w => 0 <= w < 65536) u -> forall v, Forall (fun w => 0 <= w < 65536) v -> zlen u = zlen v ->
  memcmp (concat (map two u)) (concat (map two v)) = memcmp u v.
Proof.
  induction 1 as [|x u Hx F IH]; intros [|y v] G L; try (exfalso; llia); [reflexivity|]; inversion_clear G.
  cbn [map concat two app memcmp]; rewrite IH by (assumption || llia).
  replace (x ?= y) with (x / 256 * 256 + x mod 256 ?= y / 256 * 256 + y mod 256) by (f_equal; dlia).
  rewrite compare_split by (apply Z.mod_pos_bound; lia).
  destruct (x / 256 ?= y / 256), (x mod 256 ?= y mod 256); reflexivity.
Qed.

(** The order of the keys of two strings that both fit. *)
Lemma strnxfrm_compare uni n ws vs : Forall is_wc ws -> Forall is_wc vs ->
  Forall (fun w => 0 <= weigh uni w < 65536) ws -> Forall (fun w => 0 <= weigh uni w < 65536) vs -> (length ws <= n)%nat -> (length vs <= n)%nat ->
  memcmp (strnxfrm uni (2 * Z.of_nat n) (str ws)) (strnxfrm uni (2 * Z.of_nat n) (str vs))
  = pad_compare (map (weigh uni) ws) (map (weigh uni) vs).
Proof.
  intros F G B C Lw Lv; rewrite !strnxfrm_str by assumption.
  rewrite memcmp_two; [|apply padded_Forall; [apply Forall_map; assumption|lia] ..|]; rewrite ?padded_zlen by (rewrite length_map; assumption); [|reflexivity].
  apply pad_compare_any; rewrite length_map; assumption.
Qed.

Lemma weights_range ws : Forall is_wc ws -> Forall (fun w => 0 <= weigh (Some U) w < 65536) ws.
Proof. apply Forall_impl; intros w Hw; apply (weight_facts w Hw). Qed.

(** ** Hash *)

(** A string without the spaces at its end. *)
Definition strip (l : list Z) : list Z := rev (skip_spaces (rev l)).

Lemma strip_spaces l k : strip (l ++ repeat 32 k) = strip l.
Proof.
  unfold strip; rewrite rev_app_distr; f_equal; induction k as [|k IH]; [reflexivity|].
  cbn [repeat]; rewrite repeat_cons, rev_app_distr; exact IH.
Qed.

(** [strip] follows a map by pieces whose last element is a space exactly if
    they are of a space. *)
Lemma strip_concat (f : Z -> list Z) ws : Forall (fun w => exists c r, f w = r ++ [c] /\ (c =? 32) = (w =? 32) /\ (c = 32 -> r = [])) ws ->
  strip (concat (map f ws)) = concat (map f (strip ws)).
Proof.
  induction ws as [|w ws IH] using rev_ind; intros F; [reflexivity|].
  apply Forall_app in F as [F Fw]; inversion_clear Fw as [|? ? (c & r & E & S & N) _].
  unfold strip in *; rewrite map_app, concat_app, !rev_app_distr; cbn [map concat rev app]; rewrite app_nil_r, E, rev_app_distr.
  cbn [rev app skip_spaces]; rewrite S; destruct (w =? 32) eqn:Ew; [rewrite (N (proj1 (Z.eqb_eq _ _) S)); apply IH, F|].
  cbn [rev]; rewrite !rev_app_distr, !rev_involutive; cbn [rev app]; rewrite map_app, concat_app; cbn [map concat].
  rewrite app_nil_r, E, app_assoc; reflexivity.
Qed.

Lemma strip_Forall (P : Z -> Prop) ws : Forall P ws -> Forall P (strip ws).
Proof.
  intros F; unfold strip; apply Forall_rev; apply Forall_rev in F; induction F as [|c r]; cbn [skip_spaces]; [constructor|].
  destruct (c =? 32); [assumption|constructor; assumption].
Qed.

Lemma strip_zlen ws : zlen (strip ws) <= zlen ws.
Proof.
  unfold strip, zlen; rewrite <- (length_rev ws), length_rev; induction (rev ws) as [|c r]; cbn [skip_spaces length]; [lia|].
  destruct (c =? 32); cbn [length]; lia.
Qed.

Lemma strip_str ws : Forall is_wc ws -> strip (str ws) = str (strip ws).
Proof.
  intros F; apply strip_concat; eapply Forall_impl, F; intros w Hw; destruct (enc_last w Hw) as (c & r & E & S).
  exists c, r; repeat split; auto; intros ->; destruct (enc_head w Hw) as (d & q & E' & _ & S' & N).
  rewrite Z.eqb_refl in S; rewrite <- S in S'; apply Z.eqb_eq in S'; rewrite E', N in E by exact S'.
  destruct r as [|x [|y r]]; [reflexivity|discriminate|discriminate].
Qed.

Lemma strip_weights ws : Forall is_wc ws -> strip (weights ws) = weights (strip ws).
Proof.
  intros F; assert (forall l, weights l = concat (map (fun w => [weight w]) l)) as E by (induction l as [|w l IH]; [|cbn [map concat app]; rewrite <- IH]; reflexivity).
  rewrite !E; apply strip_concat; eapply Forall_impl, F; intros w Hw; exists (weight w), [].
  destruct (weight_facts w Hw) as (_ & _ & S); auto.
Qed.

(** The hash of a string is a function of its weights. *)
Definition hash_weight (n : Z * Z) (wc : Z) : Z * Z :=
  let n := my_hash_add n (Z.land wc 255) in
  let n := my_hash_add n (Z.land (Z.shiftr wc 8) 255) in
  if wc >? 65535 then my_hash_add n (Z.land (Z.shiftr wc 16) 255) else n.

Lemma hash_chars_str ws tail e : Forall is_wc ws -> my_mb_wc_utf8mb4 tail = NoChar e -> forall fuel n, zlen ws <= Z.of_nat fuel ->
  hash_chars fuel U (str ws ++ tail) n = Some (fold_left hash_weight (weights ws) n).
Proof.
  intros F E; induction F as [|w ws Hw F IH]; intros fuel n L; [destruct fuel; cbn [app str map concat hash_chars]; rewrite E; reflexivity|].
  destruct fuel as [|fuel]; [exfalso; llia|]; rewrite str_cons, <- app_assoc; cbn [hash_chars]; rewrite mb_wc_enc, zdrop_app by (exact Hw || reflexivity).
  rewrite IH by llia; reflexivity.
Qed.

Lemma hash_sort_str ws n : Forall is_wc ws ->
  my_hash_sort_utf8mb4 U (str ws) n = Some (fold_left hash_weight (strip (weights ws)) n).
Proof.
  intros F; unfold my_hash_sort_utf8mb4; fold (strip (str ws)); rewrite strip_str by exact F.
  rewrite <- (app_nil_r (str (strip ws))), (hash_chars_str _ [] (MY_CS_TOOSMALL 1)); [rewrite strip_weights by exact F; reflexivity|apply strip_Forall, F|reflexivity|].
  pose proof (strip_zlen ws); pose proof (str_zlen ws F); unfold zlen in *; lia.
Qed.

Lemma pad_compare_Eq u v : pad_compare u v = Eq -> strip u = strip v.
Proof.
  unfold pad_compare; intros H; apply memcmp_Eq in H; [|rewrite !padded_zlen by lia; reflexivity].
  apply (f_equal strip) in H; unfold padded in H; rewrite !strip_spaces in H; exact H.
Qed.

(** ** Case *)

Lemma map_case_str f ws : Forall is_wc ws -> (forall w, is_wc w -> is_wc (f w) /\ wc_count (f w) <= wc_count w) ->
  forall fuel room, zlen ws <= Z.of_nat fuel -> zlen (str ws) <= room -> map_case fuel f (str ws) room = Some (str (map f ws)).
Proof.
  intros F Hf; induction F as [|w ws Hw F IH]; intros fuel room L R; [destruct fuel; reflexivity|].
  destruct fuel as [|fuel]; [exfalso; llia|]; destruct (Hf w Hw) as [Hfw C]; destruct (enc_zlen w Hw) as [E B], (enc_zlen (f w) Hfw) as [E' B'].
  pose proof (mb_wc_enc w (str ws) Hw) as M; rewrite str_cons in *; autorewrite with zlen in *.
  assert (my_wc_mb_utf8mb4 (f w) room = (zlen (enc (f w)), enc (f w))) as W.
  { pose proof (zlen_nonneg (str ws)); unfold my_wc_mb_utf8mb4; destruct (Z.leb_spec room 0), (Z.eqb_spec (wc_count (f w)) 0), (Z.ltb_spec room (wc_count (f w))); try lia.
    rewrite wc_bytes_enc, E' by exact Hfw; reflexivity. }
  assert (map_case (S fuel) f (enc w ++ str ws) room = let? rest := map_case fuel f (str ws) (room - zlen (enc (f w))) in Some (enc (f w) ++ rest)) as ->.
  { destruct (enc_head w Hw) as (c & r & Ec & _); rewrite <- (zdrop_app (zlen (enc w)) (enc w) (str ws) eq_refl) at 2.
    rewrite Ec in M |- *; cbn [app map_case] in M |- *; rewrite M, W; destruct (Z.leb_spec (zlen (enc (f w))) 0); [lia|reflexivity]. }
  rewrite IH by llia; reflexivity.
Qed.

Lemma map_case_zlen f ws : Forall is_wc ws -> (forall w, is_wc w -> is_wc (f w) /\ wc_count (f w) <= wc_count w) ->
  Forall is_wc (map f ws) /\ zlen (str (map f ws)) <= zlen (str ws).
Proof.
  intros F Hf; induction F as [|w ws Hw F [IH1 IH2]]; [split; [constructor|reflexivity]|]; destruct (Hf w Hw) as [H1 H2].
  split; [constructor; assumption|]; cbn [map]; rewrite !str_cons; destruct (enc_zlen w Hw), (enc_zlen _ H1); llia.
Qed.

Lemma map_case_ok f s room : Forall (digit_ok 256) s -> well_formed s -> zlen s <= room ->
  (forall w, is_wc w -> is_wc (f w) /\ wc_count (f w) <= wc_count w) ->
  exists r, map_case (length s) f s room = Some r /\ well_formed r /\ Forall (digit_ok 256) r /\ zlen r <= zlen s.
Proof.
  intros B (ws & F & ->)%well_formed_spec R Hf; [|exact B]; destruct (map_case_zlen f ws F Hf) as [G L].
  exists (str (map f ws)); split; [apply map_case_str; auto; apply (str_zlen ws F)|].
  split; [apply well_formed_spec; [apply str_bytes, G|eauto]|split; [apply str_bytes, G|exact L]].
Qed.

(** ** Properties *)

(** C33. Case mapping keeps strings well formed: of a well-formed string, with a
    destination as long, [my_caseup_utf8mb4] and [my_casedn_utf8mb4] return a
    well-formed string that is no longer. *)
Theorem case_keeps_well_formed s room : Forall (digit_ok 256) s -> well_formed s -> zlen s <= room ->
  (exists r, my_caseup_utf8mb4 my_unicase_default s room = Some r /\ well_formed r /\ Forall (digit_ok 256) r /\ zlen r <= zlen s) /\
  (exists r, my_casedn_utf8mb4 my_unicase_default s room = Some r /\ well_formed r /\ Forall (digit_ok 256) r /\ zlen r <= zlen s).
Proof.
  intros B W R; split; apply map_case_ok; auto using tolower_facts; intros w Hw; destruct (toupper_facts w Hw) as (? & ? & _); auto.
Qed.

Lemma case_keeps_well_formed_witness :
  (exists r, my_caseup_utf8mb4 my_unicase_default [195; 164; 98] 3 = Some r /\ well_formed r /\ Forall (digit_ok 256) r /\ zlen r <= 3) /\
  (exists r, my_casedn_utf8mb4 my_unicase_default [195; 164; 98] 3 = Some r /\ well_formed r /\ Forall (digit_ok 256) r /\ zlen r <= 3).
Proof.
  apply (case_keeps_well_formed [195; 164; 98] 3); [repeat constructor; discriminate|reflexivity|discriminate].
Defined.

(** The comparison of two well-formed strings is the comparison of their
    weights, character by character, as if the shorter string went on with
    spaces; it always returns. *)
Theorem strnncollsp_pads ws vs : Forall is_wc ws -> Forall is_wc vs ->
  exists c, my_strnncollsp_utf8mb4 my_unicase_default (str ws) (str vs) = Some c /\
    (c ?= 0) = pad_compare (weights ws) (weights vs).
Proof. apply strnncollsp_str. Qed.

Lemma strnncollsp_pads_witness :
  exists c, my_strnncollsp_utf8mb4 my_unicase_default (str [83; 196; 10]) (str [115; 97; 32]) = Some c /\
    (c ?= 0) = pad_compare (weights [83; 196; 10]) (weights [115; 97; 32]).
Proof. apply (strnncollsp_pads [83; 196; 10] [115; 97; 32]); repeat constructor; discriminate. Defined.

(** C17. Sort keys order well-formed strings as the comparison does: with the weights
    of the default table and keys that have room for all characters of both
    strings, [memcmp] of the keys is the sign of [my_strnncollsp_utf8mb4] on the
    strings.  The strings are the encodings of characters below 0x200000. *)
Theorem sort_keys_agree n ws vs : Forall is_wc ws -> Forall is_wc vs -> (length ws <= n)%nat -> (length vs <= n)%nat ->
  exists c, my_strnncollsp_utf8mb4 my_unicase_default (str ws) (str vs) = Some c /\
    memcmp (strnxfrm (Some my_unicase_default) (2 * Z.of_nat n) (str ws))
           (strnxfrm (Some my_unicase_default) (2 * Z.of_nat n) (str vs)) = (c ?= 0).
Proof.
  intros F G Lw Lv; destruct (strnncollsp_str ws vs F G) as (c & E & S); exists c; split; [exact E|].
  rewrite strnxfrm_compare, S by auto using weights_range; reflexivity.
Qed.

Lemma sort_keys_agree_witness :
  exists c, my_strnncollsp_utf8mb4 my_unicase_default (str [83; 196]) (str [115; 97; 32]) = Some c /\
    memcmp (strnxfrm (Some my_unicase_default) 8 (str [83; 196])) (strnxfrm (Some my_unicase_default) 8 (str [115; 97; 32])) = (c ?= 0).
Proof.
  apply (sort_keys_agree 4 [83; 196] [115; 97; 32]); try (cbn; lia); repeat constructor; discriminate.
Defined.

(** C18. Well-formed strings that compare equal have the same hash, from any state of the
    hash: spaces at the end, case and accents do not matter to it. *)
Theorem equal_strings_hash_equal ws vs n : Forall is_wc ws -> Forall is_wc vs ->
  my_strnncollsp_utf8mb4 my_unicase_default (str ws) (str vs) = Some 0 ->
  exists h, my_hash_sort_utf8mb4 my_unicase_default (str ws) n = Some h /\ my_hash_sort_utf8mb4 my_unicase_default (str vs) n = Some h.
Proof.
  intros F G E; destruct (strnncollsp_str ws vs F G) as (c & E' & S); rewrite E in E'; injection E' as <-.
  rewrite !hash_sort_str, (pad_compare_Eq (weights ws) (weights vs)) by (assumption || (symmetry; exact S)); eauto.
Qed.

Lemma equal_strings_hash_equal_witness :
  exists h, my_hash_sort_utf8mb4 my_unicase_default (str [83; 196]) (1, 4) = Some h /\
    my_hash_sort_utf8mb4 my_unicase_default (str [115; 97; 32]) (1, 4) = Some h.
Proof.
  apply (equal_strings_hash_equal [83; 196] [115; 97; 32] (1, 4)); [repeat constructor; discriminate ..|vm_compute; reflexivity].
Defined.

(** Upper case keeps a string equal to itself for the collation: with a
    destination as long as the source, every character is mapped, the result
    is well formed and compares equal to the source. *)
Theorem caseup_compares_equal ws room : Forall is_wc ws -> zlen (str ws) <= room ->
  exists us, my_caseup_utf8mb4 my_unicase_default (str ws) room = Some (str us) /\ zlen us = zlen ws /\ Forall is_wc us /\
    my_strnncollsp_utf8mb4 my_unicase_default (str us) (str ws) = Some 0.
Proof.
  intros F R; exists (map (my_toupper_utf8mb4 U) ws); assert (Forall is_wc (map (my_toupper_utf8mb4 U) ws)) as G.
  { apply Forall_map; eapply Forall_impl, F; intros w Hw; apply (toupper_facts w Hw). }
  split; [apply map_case_str; auto; [intros w Hw; destruct (toupper_facts w Hw) as (? & ? & _); auto|apply (str_zlen ws F)]|].
  split; [unfold zlen; rewrite length_map; reflexivity|split; [exact G|]].
  destruct (strnncollsp_str _ ws G F) as (c & E & S); rewrite E; f_equal.
  assert (weights (map (my_toupper_utf8mb4 U) ws) = weights ws) as W.
  { unfold weights; rewrite map_map; apply map_ext_Forall; eapply Forall_impl, F; intros w Hw; apply (toupper_facts w Hw). }
  rewrite W in S; unfold pad_compare in S; rewrite memcmp_refl in S; apply Z.compare_eq, S.
Qed.

Lemma caseup_compares_equal_witness :
  exists us, my_caseup_utf8mb4 my_unicase_default (str [115; 228; 32]) 4 = Some (str us) /\ zlen us = zlen [115; 228; 32] /\ Forall is_wc us /\
    my_strnncollsp_utf8mb4 my_unicase_default (str us) (str [115; 228; 32]) = Some 0.
Proof. apply (caseup_compares_equal [115; 228; 32] 4); [repeat constructor; discriminate|discriminate]. Defined.
