(* ===== verification/CollBin.v ===== *)
(** The binary collations: [utf8mb4_bin] of [src/drizzled/ctype-mb.cc] and the
    8-bit one of [src/drizzled/ctype-bin.cc], with the removal of spaces of
    [src/drizzled/internal/m_string.h].

    A string is the list of its bytes; where the code reads past a string, the
    list is the memory from the string on and the length is apart. *)

From Stdlib Require Import ZArith Lia ZifyBool List Bool.
From S2P Require Import Prelude Words Unicase Utf8 Collation.
Import ListNotations.
Local Open Scope Z_scope.
Local Open Scope fail_scope.

(** ** Model *)

(** src/drizzled/ctype-mb.cc:336-341 my_strnncollsp_mb_bin

    The result, or what is left of the strings. *)
Fixpoint bin_loop (a b : list Z) : Z + list Z * list Z :=
  match a, b with
  | x :: a', y :: b' => if negb (x =? y) then inl (x - y) else bin_loop a' b'
  | _, _ => inr (a, b)
  end.

(** src/drizzled/ctype-mb.cc:322-367 my_strnncollsp_mb_bin

    [VARCHAR_WITH_DIFF_ENDSPACE_ARE_DIFFERENT_FOR_UNIQUE] is not defined. *)
Definition my_strnncollsp_mb_bin (a b : list Z) : Z :=
  match bin_loop a b with
  | inl res => res
  | inr (a, b) =>
      if zlen a =? zlen b then 0
      else if zlen a <? zlen b then end_space b (-1)
      else end_space a 1
  end.

(** src/drizzled/ctype-bin.cc:160-203 my_strnncollsp_8bit_bin *)
Definition my_strnncollsp_8bit_bin (a b : list Z) : Z :=
  match bin_loop a b with
  | inl res => res
  | inr (a, b) =>
      if zlen a =? zlen b then 0
      else if zlen a <? zlen b then end_space b (-1)
      else end_space a 1
  end.

(** src/drizzled/ctype-mb.cc:286-294 my_strnncoll_mb_bin

    [memcmp] is known up to its sign. *)
Definition my_strnncoll_mb_bin (s t : list Z) (t_is_prefix : bool) : Z :=
  let len := Z.min (zlen s) (zlen t) in
  match memcmp (ztake len s) (ztake len t) with
  | Lt => -1
  | Gt => 1
  | Eq => i32 ((if t_is_prefix then len else zlen s) - zlen t)
  end.

(** [isspace] of the C locale. *)
Definition isspace (c : Z) : bool := (c =? 32) || ((9 <=? c) && (c <=? 13)).

(** src/drizzled/internal/m_string.h:90-92 skip_trailing_space

    From [end], a number of bytes after [ptr]. *)
Fixpoint skip_back (mem : list Z) (end_ : nat) : option Z :=
  match end_ with
  | O => Some (0 + 1)
  | S e =>
      let? c := rd mem (Z.of_nat e) in
      if isspace c then skip_back mem e else Some (Z.of_nat e + 1)
  end.

(** src/drizzled/internal/m_string.h:85-93 skip_trailing_space *)
Definition skip_trailing_space (mem : list Z) (len : Z) : option Z := skip_back mem (Z.to_nat len).

(** src/drizzled/ctype-simple.cc:903-910 my_lengthsp_8bit *)
Definition my_lengthsp_8bit (mem : list Z) (length : Z) : option Z := skip_trailing_space mem length.

(** src/drizzled/ctype-mb.cc:495-500 my_hash_sort_mb_bin *)
Fixpoint hash_bytes (n : nat) (mem : list Z) (pos : Z) (nr : Z * Z) : option (Z * Z) :=
  match n with
  | O => Some nr
  | S n' =>
      let? c := rd mem pos in
      let '(nr1, nr2) := nr in
      let nr1 := Z.lxor nr1 (u32 (u32 (u32 (Z.land nr1 63 + nr2) * c) + u32 (Z.shiftl nr1 8))) in
      hash_bytes n' mem (pos + 1) (nr1, u32 (nr2 + 3))
  end.

(** src/drizzled/ctype-mb.cc:483-501 my_hash_sort_mb_bin *)
Definition my_hash_sort_mb_bin (mem : list Z) (len : Z) (nr : Z * Z) : option (Z * Z) :=
  let? key := skip_trailing_space mem len in
  hash_bytes (Z.to_nat key) mem 0 nr.

(** src/drizzled/ctype-bin.cc:267-286 my_hash_sort_8bit_bin *)
Definition my_hash_sort_8bit_bin (mem : list Z) (len : Z) (nr : Z * Z) : option (Z * Z) :=
  let? key := skip_trailing_space mem len in
  hash_bytes (Z.to_nat key) mem 0 nr.

(** src/drizzled/ctype-bin.cc:289-303 my_hash_sort_bin *)
Definition my_hash_sort_bin (mem : list Z) (len : Z) (nr : Z * Z) : option (Z * Z) :=
  hash_bytes (Z.to_nat len) mem 0 nr.

(** ** Order *)

Lemma bin_loop_swap a : forall b, bin_loop b a = match bin_loop a b with inl d => inl (- d) | inr (x, y) => inr (y, x) end.
Proof.
  induction a as [|x a IH]; intros [|y b]; try reflexivity; cbn [bin_loop]; rewrite (Z.eqb_sym y x).
  destruct (x =? y); cbn [negb]; [apply IH|f_equal; lia].
Qed.

Lemma bin_loop_app p a b : bin_loop (p ++ a) (p ++ b) = bin_loop a b.
Proof. induction p as [|x p IH]; [reflexivity|]; cbn [app bin_loop]; rewrite Z.eqb_refl; exact IH. Qed.

Lemma bin_loop_head x y a b : x < y -> bin_loop (x :: a) (y :: b) = inl (x - y).
Proof. intros H; cbn [bin_loop]; rewrite (proj2 (Z.eqb_neq x y)) by lia; reflexivity. Qed.

Lemma bin_loop_same x y a b : x = y -> bin_loop (x :: a) (y :: b) = bin_loop a b.
Proof. intros ->; cbn [bin_loop]; rewrite Z.eqb_refl; reflexivity. Qed.

(** Compare the heads of both strings. *)
Ltac heads :=
  lazymatch goal with |- exists d, bin_loop (?x :: _) (?y :: _) = inl d /\ _ =>
    let Hd := fresh "Hd" in
    destruct (Z.lt_trichotomy x y) as [Hd|[Hd|Hd]];
    [exists (x - y); split; [apply bin_loop_head, Hd|lia] | rewrite (bin_loop_same x y) by exact Hd | exfalso]
  end.

(** The order of the bytes of two characters is that of the characters. *)
Lemma enc_order w v a b : is_wc w -> is_wc v -> w < v -> exists d, bin_loop (enc w ++ a) (enc v ++ b) = inl d /\ d < 0.
Proof.
  unfold is_wc; intros Hw Hv L; unfold enc.
  destruct (Z.ltb_spec w 128), (Z.ltb_spec v 128), (Z.ltb_spec w 2048), (Z.ltb_spec v 2048), (Z.ltb_spec w 65536), (Z.ltb_spec v 65536);
    try (exfalso; lia); cbn [app]; repeat heads; try dlia.
Qed.

Lemma bin_loop_str ws : Forall is_wc ws -> forall vs, Forall is_wc vs ->
  match bin_loop (str ws) (str vs) with
  | inl d => (d ?= 0) = pad_compare ws vs
  | inr (a, b) => exists ws' vs', a = str ws' /\ b = str vs' /\ Forall is_wc ws' /\ Forall is_wc vs' /\ (ws' = [] \/ vs' = []) /\
      pad_compare ws vs = pad_compare ws' vs'
  end.
Proof.
  induction 1 as [|w ws Hw F IH]; intros vs G; [exists [], vs; auto 10|].
  destruct G as [|v vs Hv G].
  { rewrite bin_loop_swap; cbn [bin_loop str map concat]; exists (w :: ws), []; auto 10. }
  rewrite pad_compare_cons, !str_cons; destruct (Z.compare_spec w v) as [->|L|L].
  - rewrite bin_loop_app; apply IH, G.
  - destruct (enc_order w v (str ws) (str vs) Hw Hv L) as (d & -> & D); exact D.
  - rewrite bin_loop_swap; destruct (enc_order v w (str vs) (str ws) Hv Hw L) as (d & -> & D); apply Z.compare_gt_iff; lia.
Qed.

Lemma collsp_mb_bin_str ws vs : Forall is_wc ws -> Forall is_wc vs ->
  (my_strnncollsp_mb_bin (str ws) (str vs) ?= 0) = pad_compare ws vs.
Proof.
  intros F G; unfold my_strnncollsp_mb_bin; pose proof (bin_loop_str ws F vs G) as H.
  destruct (bin_loop (str ws) (str vs)) as [d|[a b]]; [exact H|]; destruct H as (ws' & vs' & -> & -> & F' & G' & N & ->).
  assert (forall l, Forall (keeps_space (fun w => w)) l) as K by (intros l; apply Forall_forall; split; reflexivity).
  pose proof (end_compare (fun w => w) ws' vs' F' G' (K _) (K _) N) as E; rewrite !map_id in E; exact E.
Qed.

(** ** Hash *)

(** The string that is hashed, for one with a byte that is not blank. *)
Fixpoint unblank (r : list Z) : list Z :=
  match r with
  | c :: r' => if isspace c then unblank r' else r
  | [] => []
  end.

Lemma skip_back_eq a rest : existsb (fun c => negb (isspace c)) a = true ->
  skip_back (a ++ rest) (length a) = Some (zlen (unblank (rev a))).
Proof.
  revert rest; induction a as [|c a IH] using rev_ind; intros rest H; [discriminate|].
  rewrite length_app, Nat.add_1_r, rev_app_distr; cbn [skip_back rev app unblank].
  rewrite <- app_assoc; cbn [app]; rewrite rd_at by reflexivity; cbn [obind].
  rewrite existsb_app in H; cbn [existsb] in H; rewrite orb_false_r in H; destruct (isspace c) eqn:E.
  - cbn [negb] in H; rewrite orb_false_r in H; apply (IH (c :: rest) H).
  - f_equal; unfold zlen; cbn [length]; rewrite length_rev; lia.
Qed.

Definition hash_byte (nr : Z * Z) (c : Z) : Z * Z :=
  let '(nr1, nr2) := nr in
  (Z.lxor nr1 (u32 (u32 (u32 (Z.land nr1 63 + nr2) * c) + u32 (Z.shiftl nr1 8))), u32 (nr2 + 3)).

Lemma hash_bytes_eq a : forall pre rest nr, hash_bytes (length a) (pre ++ a ++ rest) (zlen pre) nr = Some (fold_left hash_byte a nr).
Proof.
  induction a as [|c a IH]; intros pre rest [nr1 nr2]; [reflexivity|]; cbn [length hash_bytes app]; rewrite rd_at by reflexivity; cbn [obind fold_left].
  specialize (IH (pre ++ [c]) rest); rewrite <- app_assoc in IH; cbn [app] in IH.
  replace (zlen pre + 1) with (zlen (pre ++ [c])) by llia; rewrite IH; reflexivity.
Qed.

Lemma unblank_split r : exists sp, r = sp ++ unblank r.
Proof.
  induction r as [|c r [sp IH]]; [exists []; reflexivity|]; cbn [unblank]; destruct (isspace c); [exists (c :: sp); cbn; congruence|exists []; reflexivity].
Qed.

Lemma hash_mb_bin_eq a rest nr : existsb (fun c => negb (isspace c)) a = true ->
  my_hash_sort_mb_bin (a ++ rest) (zlen a) nr = Some (fold_left hash_byte (rev (unblank (rev a))) nr).
Proof.
  intros H; unfold my_hash_sort_mb_bin, skip_trailing_space; unfold zlen at 1; rewrite Nat2Z.id, skip_back_eq by exact H; cbn [obind].
  destruct (unblank_split (rev a)) as [sp E]; apply (f_equal (@rev Z)) in E; rewrite rev_involutive, rev_app_distr in E.
  rewrite E at 2; rewrite <- app_assoc; unfold zlen; rewrite Nat2Z.id, <- length_rev.
  apply (hash_bytes_eq _ [] (rev sp ++ rest)).
Qed.

Lemma unblank_spaces k r : unblank (repeat 32 k ++ r) = unblank r.
Proof. induction k; auto. Qed.

Lemma bin_loop_inr a : forall b x y, bin_loop a b = inr (x, y) -> exists p, a = p ++ x /\ b = p ++ y /\ (x = [] \/ y = []).
Proof.
  induction a as [|c a IH]; intros b x y H; [injection H as <- <-; exists []; auto|].
  destruct b as [|d b]; [injection H as <- <-; exists []; auto|]; cbn [bin_loop] in H.
  destruct (Z.eqb_spec c d) as [->|]; [|discriminate]; cbn [negb] in H.
  destruct (IH b x y H) as (p & -> & -> & N); exists (d :: p); auto.
Qed.

Lemma end_space_zero s swap : swap <> 0 -> end_space s swap = 0 -> exists k, s = repeat 32 k.
Proof.
  intros N; induction s as [|c s IH]; [exists O; reflexivity|]; cbn [end_space]; destruct (Z.eqb_spec c 32) as [->|]; cbn [negb].
  - intros H; destruct (IH H) as [k ->]; exists (S k); reflexivity.
  - destruct (c <? 32); lia.
Qed.

Lemma bin_loop_inl a : forall b d, bin_loop a b = inl d -> d <> 0.
Proof.
  induction a as [|x a IH]; intros [|y b] d H; try discriminate; cbn [bin_loop] in H.
  destruct (Z.eqb_spec x y); cbn [negb] in H; [apply (IH b d H)|injection H as <-; lia].
Qed.

(** Strings equal for the collation differ in spaces at the end. *)
Lemma collsp_mb_bin_zero a b : my_strnncollsp_mb_bin a b = 0 -> exists p i j, a = p ++ repeat 32 i /\ b = p ++ repeat 32 j.
Proof.
  unfold my_strnncollsp_mb_bin; destruct (bin_loop a b) as [d|[x y]] eqn:E; [intros ->; destruct (bin_loop_inl a b 0 E eq_refl)|].
  destruct (bin_loop_inr a b x y E) as (p & -> & -> & N); intros H; exists p.
  assert (exists i j, x = repeat 32 i /\ y = repeat 32 j) as (i & j & -> & ->); [|eauto].
  destruct (Z.eqb_spec (zlen x) (zlen y)) as [L|L].
  - exists O, O; assert (zlen x = 0 /\ zlen y = 0) as [Ex Ey] by (destruct N; subst; change (zlen (@nil Z)) with 0 in *; lia).
    rewrite (zlen_zero x Ex), (zlen_zero y Ey); auto.
  - pose proof (zlen_nonneg x); pose proof (zlen_nonneg y); destruct (Z.ltb_spec (zlen x) (zlen y)), N as [N|N]; rewrite N in *;
      change (zlen (@nil Z)) with 0 in *; try lia; apply end_space_zero in H as [k ->]; try lia.
    + exists O, k; auto.
    + exists k, O; auto.
Qed.

Lemma hash_mb_bin_spaces p i rest nr : existsb (fun c => negb (isspace c)) p = true ->
  my_hash_sort_mb_bin ((p ++ repeat 32 i) ++ rest) (zlen (p ++ repeat 32 i)) nr = my_hash_sort_mb_bin p (zlen p) nr.
Proof.
  intros H; rewrite <- (app_nil_r p) at 3; rewrite !hash_mb_bin_eq by (rewrite ?existsb_app, H; reflexivity).
  rewrite rev_app_distr, rev_repeat, unblank_spaces; reflexivity.
Qed.

Lemma spaces_blank i : existsb (fun c => negb (isspace c)) (repeat 32 i) = false.
Proof. induction i; auto. Qed.

(** ** Properties *)

(** C32. The binary collation orders well-formed strings by the numbers of their
    characters, as if the shorter string went on with spaces: comparing the
    bytes of UTF-8 is comparing the characters. *)
Theorem mb_bin_orders_by_character ws vs : Forall is_wc ws -> Forall is_wc vs ->
  (my_strnncollsp_mb_bin (str ws) (str vs) ?= 0) = pad_compare ws vs.
Proof. apply collsp_mb_bin_str. Qed.

Lemma mb_bin_orders_by_character_witness :
  (my_strnncollsp_mb_bin (str [97; 65535]) (str [97; 65536; 32]) ?= 0) = pad_compare [97; 65535] [97; 65536; 32].
Proof. apply (mb_bin_orders_by_character [97; 65535] [97; 65536; 32]); repeat constructor; discriminate. Defined.

(** Strings equal for the binary collation have the same hash, whatever is
    in memory after them, if they have a byte that is not blank. *)
Theorem mb_bin_equal_hash_equal a b ra rb nr : my_strnncollsp_mb_bin a b = 0 -> existsb (fun c => negb (isspace c)) a = true ->
  exists h, my_hash_sort_mb_bin (a ++ ra) (zlen a) nr = Some h /\ my_hash_sort_mb_bin (b ++ rb) (zlen b) nr = Some h.
Proof.
  intros E H; destruct (collsp_mb_bin_zero a b E) as (p & i & j & -> & ->).
  rewrite existsb_app, spaces_blank, orb_false_r in H; rewrite !hash_mb_bin_spaces by exact H.
  pose proof (hash_mb_bin_eq p [] nr H) as Eh; rewrite app_nil_r in Eh; rewrite Eh; eauto.
Qed.

Lemma mb_bin_equal_hash_equal_witness :
  exists h, my_hash_sort_mb_bin ([65; 32] ++ [7]) 2 (1, 4) = Some h /\ my_hash_sort_mb_bin ([65] ++ []) 1 (1, 4) = Some h.
Proof. apply (mb_bin_equal_hash_equal [65; 32] [65] [7] [] (1, 4)); reflexivity. Defined.

(** The condition is needed: [skip_trailing_space] keeps the first byte even
    of a string of spaces and takes one byte more than an empty string has.
    The empty string and one space are equal for the collation, but the hash
    of the empty string is that of the byte after it, and their hashes
    differ. *)
Theorem blank_strings_hash_apart :
  my_strnncollsp_mb_bin [] [32] = 0 /\
  my_hash_sort_mb_bin [] 0 (1, 4) = None /\
  (forall c rest nr, my_hash_sort_mb_bin (c :: rest) 0 nr = my_hash_sort_bin (c :: rest) 1 nr) /\
  my_hash_sort_mb_bin [0] 0 (1, 4) <> my_hash_sort_mb_bin [32; 0] 1 (1, 4) /\
  my_lengthsp_8bit [0] 0 = Some 1.
Proof. repeat split; discriminate. Qed.

(** The sort keys of the binary collation order the strings as the comparison
    does while every character is below 10000. *)
Lemma mb_bin_sort_keys n ws vs : Forall (fun w => 0 <= w < 65536) ws -> Forall (fun w => 0 <= w < 65536) vs ->
  (length ws <= n)%nat -> (length vs <= n)%nat ->
  memcmp (strnxfrm None (2 * Z.of_nat n) (str ws)) (strnxfrm None (2 * Z.of_nat n) (str vs))
  = (my_strnncollsp_mb_bin (str ws) (str vs) ?= 0).
Proof.
  intros F G Lw Lv; assert (forall l, Forall (fun w => 0 <= w < 65536) l -> Forall is_wc l) as W by (intros l; apply Forall_impl; unfold is_wc; lia).
  rewrite strnxfrm_compare, collsp_mb_bin_str by auto; cbn [weigh]; rewrite !map_id; reflexivity.
Qed.

(** Above it they do not: the keys drop the plane of a character. *)
Lemma mb_bin_sort_keys_drop_plane :
  my_strnncollsp_mb_bin (str [65601]) (str [65]) > 0 /\ strnxfrm None 8 (str [65601]) = strnxfrm None 8 (str [65]).
Proof. split; vm_compute; reflexivity. Qed.
