(* ===== verification/Like.v ===== *)
(** LIKE: [my_wildcmp_unicode] of [src/drizzled/ctype-utf8.cc], which the
    collation [utf8mb4_general_ci] uses, with its reference, the matching of a
    list of characters with a list of pattern elements.

    Strings are lists of bytes, pointers into them the rest of the list.  The
    results are 0 for a match, 1 for none and -1 for none in any rest of the
    string.  The loops take fuel and return [None] without it; one more than the
    length of the pattern is enough for the recursion, and the lengths of the
    strings for the loops, as [wildcmp_matches] shows. *)

From Stdlib Require Import ZArith Lia ZifyBool List Bool.
From S2P Require Import Prelude Words Unicase Utf8 Collation.
Import ListNotations.
Local Open Scope Z_scope.
Local Open Scope fail_scope.

(** ** Model: the matcher for Unicode *)

Section like.
Context (escape w_one w_many : Z) (weights : option planes).

(** src/drizzled/ctype-utf8.cc:1855-1861 my_wildcmp_unicode

    The weight from the tables, by the low 16 bits. *)
Definition table_weight (wc : Z) : Z :=
  match weights with
  | None => wc
  | Some uni =>
      let plane := Z.land (Z.shiftr wc 8) 255 in
      match nth_error uni (Z.to_nat plane) with
      | Some (Some t) => match nth_error t (Z.to_nat (Z.land wc 255)) with Some u => sort u | None => wc end
      | _ => wc
      end
  end.

(** src/drizzled/ctype-utf8.cc:1742-1794 my_wildcmp_unicode

    The characters before the first [w_many]: the result, or the rest of both
    strings at the [w_many]. *)
Fixpoint match_chars (fuel : nat) (s wild : list Z) : option (Z + list Z * list Z) :=
  match fuel with
  | O => None
  | S fuel' =>
      match my_mb_wc_utf8mb4 wild with
      | NoChar _ => Some (inl 1)
      | Char w_wc scan =>
          if w_wc =? w_many then Some (inr (s, wild))
          else
            let wild := zdrop scan wild in
            let esc :=
              if (w_wc =? escape) && (0 <? zlen wild) then
                match my_mb_wc_utf8mb4 wild with
                | NoChar _ => None
                | Char w_wc scan => Some (w_wc, zdrop scan wild, true)
                end
              else Some (w_wc, wild, false) in
            match esc with
            | None => Some (inl 1)
            | Some (w_wc, wild, escaped) =>
                match my_mb_wc_utf8mb4 s with
                | NoChar _ => Some (inl 1)
                | Char s_wc scan =>
                    let s := zdrop scan s in
                    let weigh wc := if wc <? 65536 then table_weight wc else wc in
                    if (negb escaped && (w_wc =? w_one)) || (weigh s_wc =? weigh w_wc) then
                      if zlen wild =? 0 then Some (inl (if zlen s =? 0 then 0 else 1))
                      else match_chars fuel' s wild
                    else Some (inl 1)
                end
            end
      end
  end.

(** src/drizzled/ctype-utf8.cc:1801-1823 my_wildcmp_unicode

    The wildcards after a [w_many]: 1, or the rest of both strings. *)
Fixpoint skip_wild (fuel : nat) (s wild : list Z) : option (Z + list Z * list Z) :=
  match wild, fuel with
  | [], _ => Some (inr (s, wild))
  | _, O => None
  | _, S fuel' =>
      match my_mb_wc_utf8mb4 wild with
      | NoChar _ => Some (inl 1)
      | Char w_wc scan =>
          if w_wc =? w_many then skip_wild fuel' s (zdrop scan wild)
          else if w_wc =? w_one then
            match my_mb_wc_utf8mb4 s with
            | NoChar _ => Some (inl 1)
            | Char _ scan' => skip_wild fuel' (zdrop scan' s) (zdrop scan wild)
            end
          else Some (inr (s, wild))
      end
  end.

(** src/drizzled/ctype-utf8.cc:1850-1870 my_wildcmp_unicode

    Up to the first character that weighs as [w_wc]: the result, or the string
    after the character and the weight that [w_wc] has become. *)
Fixpoint find_char (fuel : nat) (s : list Z) (w_wc : Z) : option (Z + list Z * Z) :=
  match s, fuel with
  | [], _ => Some (inl (-1))
  | _, O => None
  | _, S fuel' =>
      match my_mb_wc_utf8mb4 s with
      | NoChar _ => Some (inl 1)
      | Char s_wc scan =>
          let s_wc := table_weight s_wc in
          let w_wc := table_weight w_wc in
          if s_wc =? w_wc then Some (inr (zdrop scan s, w_wc))
          else find_char fuel' (zdrop scan s) w_wc
      end
  end.

(** src/drizzled/ctype-utf8.cc:1847-1874 my_wildcmp_unicode

    The match of the rest of the pattern, [rec], after each such character. *)
Fixpoint try_from (fuel : nat) (rec : list Z -> option Z) (s : list Z) (w_wc : Z) : option Z :=
  match fuel with
  | O => None
  | S fuel' =>
      let? f := find_char (length s) s w_wc in
      match f with
      | inl res => Some res
      | inr (s, w_wc) =>
          let? result := rec s in
          if result <=? 0 then Some result else try_from fuel' rec s w_wc
      end
  end.

(** src/drizzled/ctype-utf8.cc:1728-1878 my_wildcmp_unicode

    The outer loop does not come round: every path after a [w_many] returns. *)
Fixpoint my_wildcmp_unicode (fuel : nat) (s wild : list Z) : option Z :=
  match fuel with
  | O => None
  | S fuel' =>
      if zlen wild =? 0 then Some (if zlen s =? 0 then 0 else 1)
      else
        let? r := match_chars (length wild) s wild in
        match r with
        | inl res => Some res
        | inr (s, wild) =>
            let? r := skip_wild (length wild) s wild in
            match r with
            | inl res => Some res
            | inr (s, wild) =>
                if zlen wild =? 0 then Some 0
                else if zlen s =? 0 then Some (-1)
                else
                  match my_mb_wc_utf8mb4 wild with
                  | NoChar _ => Some 1
                  | Char w_wc scan =>
                      let wild := zdrop scan wild in
                      let esc :=
                        if (w_wc =? escape) && (0 <? zlen wild) then
                          match my_mb_wc_utf8mb4 wild with
                          | NoChar _ => None
                          | Char w_wc scan => Some (w_wc, zdrop scan wild)
                          end
                        else Some (w_wc, wild) in
                      match esc with
                      | None => Some 1
                      | Some (w_wc, wild) =>
                          try_from (S (length s)) (fun s => my_wildcmp_unicode fuel' s wild) s w_wc
                      end
                  end
            end
        end
  end.

(** ** Reference *)

(** The elements of a pattern. *)
Inductive tok : Type :=
| Many
| One
| Lit (c : Z).

(** The elements of a pattern of characters: an escape makes a literal of the
    next character, or of itself at the end. *)
Fixpoint tokens (wild : list Z) : list tok :=
  match wild with
  | [] => []
  | c :: w =>
      if c =? w_many then Many :: tokens w
      else if c =? escape then
        match w with
        | [] => [Lit c]
        | d :: w' => Lit d :: tokens w'
        end
      else if c =? w_one then One :: tokens w
      else Lit c :: tokens w
  end.

End like.

(** A string of characters matches a pattern, for weights [f]. *)
Inductive like (f : Z -> Z) : list Z -> list tok -> Prop :=
| like_nil : like f [] []
| like_many s1 s2 p : like f s2 p -> like f (s1 ++ s2) (Many :: p)
| like_one c s p : like f s p -> like f (c :: s) (One :: p)
| like_lit c d s p : f c = f d -> like f s p -> like f (c :: s) (Lit d :: p).

(** ** Matching *)

Section matching.
Context (f : Z -> Z).

Lemma like_many_inv s p : like f s (Many :: p) -> exists s1 s2, s = s1 ++ s2 /\ like f s2 p.
Proof. inversion_clear 1; eauto. Qed.

Lemma like_skip k s p : like f (skipn k s) (Many :: p) -> like f s (Many :: p).
Proof.
  intros (s1 & s2 & E & H)%like_many_inv; rewrite <- (firstn_skipn k s), E, app_assoc; apply like_many, H.
Qed.

(** A literal after [Many]: somewhere in the string. *)
Lemma like_many_lit s c p : like f s (Many :: Lit c :: p) <-> exists pre d rest, s = pre ++ d :: rest /\ f d = f c /\ like f rest p.
Proof.
  split.
  - intros (s1 & s2 & -> & H)%like_many_inv; inversion_clear H as [| | |d ? s ? E H']; eauto 6.
  - intros (pre & d & rest & -> & E & H); apply like_many, like_lit; assumption.
Qed.

(** The match of [s] with [p] is that of the rest after [k] characters with
    [q], and every string that matches [p] has these characters. *)
Definition reduces (k : nat) (p q : list tok) (s : list Z) : Prop :=
  (k <= length s)%nat /\ (like f (skipn k s) q -> like f s p) /\
  forall t, like f t p -> (k <= length t)%nat /\ like f (skipn k t) q.

Lemma reduces_refl p s : reduces 0 p p s.
Proof. split; [lia|split; [auto|]]; intros t H; split; [lia|exact H]. Qed.

Lemma reduces_trans k j p q r s : reduces k p q s -> reduces j q r (skipn k s) -> reduces (k + j) p r s.
Proof.
  intros (L1 & B1 & F1) (L2 & B2 & F2); rewrite length_skipn in L2; unfold reduces; rewrite skipn_skipn in B2; rewrite (Nat.add_comm j k) in B2.
  split; [lia|split; [auto|]]; intros t H; destruct (F1 t H) as [T1 H1]; destruct (F2 _ H1) as [T2 H2].
  rewrite skipn_skipn in H2; rewrite (Nat.add_comm j k) in H2; rewrite length_skipn in T2; split; [lia|exact H2].
Qed.

Lemma reduces_one c s p : reduces 1 (One :: p) p (c :: s).
Proof.
  split; [cbn; lia|split; [intros H; apply like_one, H|]]; intros t H; inversion_clear H; split; [cbn; lia|assumption].
Qed.

Lemma reduces_lit c d s p : f c = f d -> reduces 1 (Lit d :: p) p (c :: s).
Proof.
  intros E; split; [cbn; lia|split; [intros H; apply like_lit; [exact E|exact H]|]]; intros t H; inversion_clear H; split; [cbn; lia|assumption].
Qed.

Lemma reduces_many_many s p : reduces 0 (Many :: Many :: p) (Many :: p) s.
Proof.
  split; [lia|split; [apply (like_many f []) |]]; intros t (s1 & s2 & -> & (s3 & s4 & -> & H)%like_many_inv)%like_many_inv.
  split; [lia|]; rewrite app_assoc; apply like_many, H.
Qed.

Lemma reduces_many_double s p : reduces 0 (Many :: p) (Many :: Many :: p) s.
Proof.
  split; [lia|split]; [apply (reduces_many_many s p)|]; intros t H; split; [lia|apply (like_many f []), H].
Qed.

Lemma reduces_many_one c s p : reduces 1 (Many :: One :: p) (Many :: p) (c :: s).
Proof.
  split; [cbn; lia|split].
  - intros (s1 & s2 & E & H)%like_many_inv; cbn [skipn] in E; rewrite E.
    destruct (exists_last (l := c :: s1) ltac:(discriminate)) as (s0 & d & E0).
    change (c :: s1 ++ s2) with ((c :: s1) ++ s2); rewrite E0, <- app_assoc; apply like_many, like_one, H.
  - intros t (s1 & s2 & -> & H)%like_many_inv; inversion_clear H as [| |d s' ? H'|]; destruct s1 as [|x s1].
    + split; [cbn; lia|apply (like_many f []), H'].
    + split; [cbn; lia|]; cbn [app skipn]; rewrite <- (app_nil_l (d :: s')), app_assoc, <- (app_nil_l s').
      change ((s1 ++ []) ++ d :: [] ++ s') with ((s1 ++ []) ++ [d] ++ s'); rewrite app_assoc; apply like_many, H'.
Qed.

(** What the results promise. *)
Definition result_ok (r : Z) (s : list Z) (p : list tok) : Prop :=
  (r = 0 /\ like f s p) \/ (r = 1 /\ ~ like f s p) \/ (r = -1 /\ forall k, ~ like f (skipn k s) p).

Lemma result_reduces r k p q s : reduces k p q s -> result_ok r (skipn k s) q -> result_ok r s p.
Proof.
  intros (L & B & F) [[-> H]|[[-> H]|[-> H]]]; [left; auto|right; left; split; [reflexivity|]|right; right; split; [reflexivity|]].
  - intros K; apply H, (F s K).
  - intros i K; destruct (F _ K) as [_ K']; apply (H i); rewrite skipn_skipn in *; rewrite Nat.add_comm; exact K'.
Qed.

End matching.

(** ** The code on well-formed strings *)

Definition is_bmp (w : Z) : Prop := 0 <= w < 65536.

Lemma bmp_wc ws : Forall is_bmp ws -> Forall is_wc ws.
Proof. apply Forall_impl; unfold is_bmp, is_wc; lia. Qed.

Lemma table_weight_bmp w : is_bmp w -> table_weight (Some my_unicase_default) w = weight w.
Proof.
  intros [H0 H1]; unfold table_weight, weight, my_tosort_utf8mb4, unicase.
  assert (Z.land (Z.shiftr w 8) 255 = Z.shiftr w 8) as ->.
  { rewrite utf8_facts.land_mod with (n := 8), Z.shiftr_div_pow2 by (reflexivity || lia); change (2 ^ 8) with 256; dlia. }
  replace (Z.shiftr w 8 <? 256) with true; [destruct (nth_error my_unicase_default _) as [[t|]|]; reflexivity|].
  symmetry; apply Z.ltb_lt; rewrite Z.shiftr_div_pow2 by lia; change (2 ^ 8) with 256; dlia.
Qed.

Lemma weight_bmp w : is_bmp w -> is_bmp (weight w).
Proof. intros H; apply (weight_facts w); unfold is_bmp, is_wc in *; lia. Qed.

Lemma decode_cons w ws : is_bmp w -> my_mb_wc_utf8mb4 (str (w :: ws)) = Char w (zlen (enc w)) /\ zdrop (zlen (enc w)) (str (w :: ws)) = str ws.
Proof. intros H; rewrite str_cons; split; [apply mb_wc_enc; unfold is_bmp, is_wc in *; lia|apply zdrop_app; reflexivity]. Qed.

Lemma str_empty ws : Forall is_bmp ws -> (zlen (str ws) =? 0) = match ws with [] => true | _ => false end.
Proof.
  intros F; pose proof (str_zlen ws (bmp_wc ws F)); destruct ws; [reflexivity|]; apply Z.eqb_neq; llia.
Qed.

Lemma str_more ws : Forall is_bmp ws -> (0 <? zlen (str ws)) = match ws with [] => false | _ => true end.
Proof.
  intros F; pose proof (str_zlen ws (bmp_wc ws F)); destruct ws; [reflexivity|]; apply Z.ltb_lt; llia.
Qed.

(** A string with a character is not the empty list of bytes. *)
Lemma str_match w ws {A} (a b : A) : is_bmp w -> match str (w :: ws) with [] => a | _ => b end = b.
Proof.
  intros H; rewrite str_cons; destruct (enc_head w) as (c & r & -> & _); [unfold is_bmp, is_wc in *; lia|reflexivity].
Qed.

Section code.
Context (escape w_one w_many : Z).
Hypothesis escape_one : escape <> w_one.
Hypothesis escape_many : escape <> w_many.

Local Abbreviation uni := (Some my_unicase_default).
Local Abbreviation tokens := (tokens escape w_one w_many).
Local Abbreviation match_chars := (match_chars escape w_one w_many uni).
Local Abbreviation skip_wild := (skip_wild w_one w_many).
Local Abbreviation find_char := (find_char uni).
Local Abbreviation try_from := (try_from uni).
Local Abbreviation wildcmp := (my_wildcmp_unicode escape w_one w_many uni).

(** The character that [c], the head of a pattern, stands for, the rest, and
    whether it is escaped. *)
Definition unescape (c : Z) (w : list Z) : Z * list Z * bool :=
  if c =? escape then match w with [] => (c, [], false) | d :: w' => (d, w', true) end else (c, w, false).

Lemma unescape_ok c w d w' e : is_bmp c -> Forall is_bmp w -> unescape c w = (d, w', e) ->
  is_bmp d /\ Forall is_bmp w' /\ (length w' <= length w)%nat.
Proof.
  unfold unescape; intros Hc Hw; destruct (c =? escape); [destruct Hw as [|x w Hx Hw]|]; intros [= <- <- <-]; cbn; auto.
Qed.

Lemma unescape_code c w d w' e : Forall is_bmp w -> unescape c w = (d, w', e) ->
  (if (c =? escape) && (0 <? zlen (str w)) then
     match my_mb_wc_utf8mb4 (str w) with
     | NoChar _ => None
     | Char w_wc scan => Some (w_wc, zdrop scan (str w), true)
     end
   else Some (c, str w, false)) = Some (d, str w', e).
Proof.
  unfold unescape; intros F; rewrite str_more by exact F; destruct (c =? escape); cbn [andb]; [|intros [= <- <- <-]; reflexivity].
  destruct F as [|x w Hx F]; intros [= <- <- <-]; [reflexivity|]; destruct (decode_cons x w Hx) as [-> ->]; reflexivity.
Qed.

(** The same in [my_wildcmp_unicode], which forgets the escape. *)
Lemma unescape_code' c w d w' e : Forall is_bmp w -> unescape c w = (d, w', e) ->
  (if (c =? escape) && (0 <? zlen (str w)) then
     match my_mb_wc_utf8mb4 (str w) with
     | NoChar _ => None
     | Char w_wc scan => Some (w_wc, zdrop scan (str w))
     end
   else Some (c, str w)) = Some (d, str w').
Proof.
  intros F E; pose proof (unescape_code c w d w' e F E) as H; destruct ((c =? escape) && _); [destruct (my_mb_wc_utf8mb4 (str w))|]; congruence.
Qed.

Lemma tokens_unescape c w d w' e : c <> w_many -> unescape c w = (d, w', e) ->
  tokens (c :: w) = (if negb e && (d =? w_one) then One else Lit d) :: tokens w'.
Proof.
  unfold unescape; intros N; cbn [Like.tokens]; rewrite (proj2 (Z.eqb_neq c w_many)) by exact N; destruct (Z.eqb_spec c escape) as [->|].
  - destruct w as [|x w]; intros [= <- <- <-]; [rewrite (proj2 (Z.eqb_neq escape w_one)) by exact escape_one|]; reflexivity.
  - intros [= <- <- <-]; destruct (c =? w_one); reflexivity.
Qed.

Lemma match_chars_str n : forall ws ss fuel, (length ws <= n)%nat -> (length ws <= fuel)%nat -> ws <> [] -> Forall is_bmp ws -> Forall is_bmp ss ->
  exists r, match_chars fuel (str ss) (str ws) = Some r /\
    match r with
    | inl c => result_ok weight c ss (tokens ws)
    | inr (s, w) => exists k ws', s = str (skipn k ss) /\ w = str (w_many :: ws') /\ Forall is_bmp (w_many :: ws') /\
        (length ws' < length ws)%nat /\ reduces weight k (tokens ws) (Many :: tokens ws') ss
    end.
Proof.
  induction n as [|n IH]; intros ws ss fuel Ln Lf N F G; [destruct ws; [contradiction|cbn in Ln; lia]|].
  destruct F as [|c w Hc F]; [contradiction|]; cbn [length] in Ln, Lf; destruct fuel as [|fuel]; [lia|].
  cbn [Like.match_chars]; destruct (decode_cons c w Hc) as [-> ->]; destruct (Z.eqb_spec c w_many) as [->|Nc].
  { exists (inr (str ss, str (w_many :: w))); split; [reflexivity|]; exists O, w.
    refine (conj eq_refl (conj eq_refl (conj (Forall_cons _ Hc F) (conj (Nat.lt_succ_diag_r _) _)))); cbn [Like.tokens]; rewrite Z.eqb_refl; apply reduces_refl. }
  destruct (unescape c w) as [[d w'] e] eqn:E; rewrite (unescape_code c w d w' e F E); rewrite (tokens_unescape c w d w' e Nc E).
  destruct (unescape_ok c w d w' e Hc F E) as (Hd & F' & L).
  destruct G as [|x ss Hx G].
  { exists (inl 1); split; [reflexivity|]; right; left; split; [reflexivity|]; destruct (negb e && _); inversion 1. }
  destruct (decode_cons x ss Hx) as [-> ->]; rewrite !(proj2 (Z.ltb_lt _ 65536)) by (apply Hx || apply Hd); rewrite !table_weight_bmp by assumption.
  destruct (negb e && (d =? w_one) || (weight x =? weight d)) eqn:M.
  - assert (reduces weight 1 ((if negb e && (d =? w_one) then One else Lit d) :: tokens w') (tokens w') (x :: ss)) as R.
    { destruct (negb e && (d =? w_one)); [apply reduces_one|apply reduces_lit, Z.eqb_eq, M]. }
    rewrite (str_empty w' F'), (str_empty ss G); destruct F' as [|y w' Hy F'].
    + eexists; split; [reflexivity|]; apply (result_reduces weight _ 1 _ _ _ R); destruct ss; [left|right; left]; split; auto; [constructor|inversion 1].
    + destruct (IH (y :: w') ss fuel) as (r & -> & H); try (cbn [length] in *; lia); auto; [discriminate|].
      exists r; split; [reflexivity|]; destruct r as [c'|[s u]]; [apply (result_reduces weight _ 1 _ _ _ R H)|].
      destruct H as (k & ws' & -> & -> & B & L' & R'); exists (S k), ws'.
      refine (conj eq_refl (conj eq_refl (conj B (conj _ _)))); [cbn [length] in *; lia|]; apply (reduces_trans weight 1 k _ _ _ _ R R').
  - exists (inl 1); split; [reflexivity|]; right; left; split; [reflexivity|]; apply orb_false_iff in M as [-> M]; inversion_clear 1; lia.
Qed.

Lemma skip_wild_str ws : Forall is_bmp ws -> forall ss fuel, (length ws <= fuel)%nat -> Forall is_bmp ss ->
  exists r, skip_wild fuel (str ss) (str ws) = Some r /\
    match r with
    | inl c => result_ok weight c ss (Many :: tokens ws)
    | inr (s, w) => exists k ws', s = str (skipn k ss) /\ w = str ws' /\ Forall is_bmp ws' /\ (length ws' <= length ws)%nat /\
        match ws' with c :: _ => c <> w_many /\ c <> w_one | [] => True end /\
        reduces weight k (Many :: tokens ws) (Many :: tokens ws') ss
    end.
Proof.
  induction 1 as [|c w Hc F IH]; intros ss fuel L G.
  { exists (inr (str ss, [])); split; [destruct fuel; reflexivity|]; exists O, []; refine (conj eq_refl (conj eq_refl (conj _ (conj _ (conj I _))))); auto; apply reduces_refl. }
  cbn [length] in L; destruct fuel as [|fuel]; [lia|].
  assert (forall s u, skip_wild (S fuel) s (str (c :: u)) = if c =? w_many then skip_wild fuel s (str u) else
    if c =? w_one then match my_mb_wc_utf8mb4 s with NoChar _ => Some (inl 1) | Char _ scan' => skip_wild fuel (zdrop scan' s) (str u) end
    else Some (inr (s, str (c :: u)))) as ->.
  { intros s u; destruct (decode_cons c u Hc) as [D1 D2]; cbn [Like.skip_wild]; rewrite D1, D2.
    destruct (str (c :: u)) eqn:Es; [|reflexivity]; pose proof (str_match c u true false Hc) as K; rewrite Es in K; discriminate. }
  cbn [Like.tokens]; destruct (Z.eqb_spec c w_many) as [->|N1].
  - destruct (IH ss fuel ltac:(lia) G) as (r & -> & H); exists r; split; [reflexivity|].
    pose proof (reduces_many_many weight ss (tokens w)) as R; destruct r as [c'|[s u]]; [apply (result_reduces weight _ 0 _ _ _ R H)|].
    destruct H as (k & ws' & -> & -> & B & L' & K & R'); exists k, ws'.
    refine (conj eq_refl (conj eq_refl (conj B (conj _ (conj K _))))); [cbn [length]; lia|].
    apply (reduces_trans weight 0 k _ _ _ _ R R').
  - destruct (Z.eqb_spec c w_one) as [->|N2]; cycle 1.
    { eexists; split; [reflexivity|]; exists O, (c :: w).
      refine (conj eq_refl (conj eq_refl (conj _ (conj _ (conj (conj N1 N2) _))))); auto; cbn [Like.tokens]; rewrite (proj2 (Z.eqb_neq c w_many)), (proj2 (Z.eqb_neq c w_one)) by assumption; apply reduces_refl. }
    rewrite (proj2 (Z.eqb_neq w_one escape)) by auto.
    destruct G as [|x ss Hx G].
    { exists (inl 1); split; [reflexivity|]; right; left; split; [reflexivity|]; intros (s1 & s2 & E & H)%like_many_inv.
      symmetry in E; apply app_eq_nil in E as [-> ->]; inversion H. }
    destruct (decode_cons x ss Hx) as [-> ->]; destruct (IH ss fuel ltac:(lia) G) as (r & -> & H); exists r; split; [reflexivity|].
    pose proof (reduces_many_one weight x ss (tokens w)) as R; destruct r as [c'|[s u]]; [apply (result_reduces weight _ 1 _ _ _ R H)|].
    destruct H as (k & ws' & -> & -> & B & L' & K & R'); exists (S k), ws'.
    refine (conj eq_refl (conj eq_refl (conj B (conj _ (conj K _))))); [cbn [length]; lia|].
    apply (reduces_trans weight 1 k _ _ _ _ R R').
Qed.

Lemma find_char_str ss : Forall is_bmp ss -> forall fuel w, (length ss <= fuel)%nat -> is_bmp w ->
  exists r, find_char fuel (str ss) w = Some r /\
    match r with
    | inl c => c = -1 /\ forall d, In d ss -> weight d <> weight w
    | inr (s, w') => exists pre d rest, ss = pre ++ d :: rest /\ s = str rest /\ (forall x, In x pre -> weight x <> weight w) /\
        weight d = weight w /\ weight w' = weight w /\ is_bmp w'
    end.
Proof.
  induction 1 as [|x ss Hx F IH]; intros fuel w L Hw; [exists (inl (-1)); split; [destruct fuel; reflexivity|split; [reflexivity|intros d []]]|].
  cbn [length] in L; destruct fuel as [|fuel]; [lia|].
  assert (find_char (S fuel) (str (x :: ss)) w = if weight x =? weight w then Some (inr (str ss, weight w)) else find_char fuel (str ss) (weight w)) as ->.
  { destruct (decode_cons x ss Hx) as [D1 D2]; cbn [Like.find_char]; rewrite D1, D2, !table_weight_bmp by assumption.
    destruct (str (x :: ss)) eqn:Es; [|reflexivity]; pose proof (str_match x ss true false Hx) as K; rewrite Es in K; discriminate. }
  pose proof (weight_idem w Hw) as I; destruct (Z.eqb_spec (weight x) (weight w)) as [E|E].
  - eexists; split; [reflexivity|]; exists [], x, ss.
    refine (conj eq_refl (conj eq_refl (conj _ (conj E (conj I (weight_bmp w Hw)))))); intros y [].
  - destruct (IH fuel (weight w) ltac:(lia) (weight_bmp w Hw)) as (r & -> & H); exists r; split; [reflexivity|]; rewrite I in H.
    destruct r as [c|[s w']]; [destruct H as [-> H]; split; [reflexivity|intros d [<-|Hd]; auto]|].
    destruct H as (pre & d & rest & -> & -> & Hp & Ed & Ew & B); exists (x :: pre), d, rest.
    refine (conj eq_refl (conj eq_refl (conj _ (conj Ed (conj Ew B))))); intros y [<-|Hy]; auto.
Qed.

(** The results of a literal after [Many], from those of the rest. *)
Lemma try_from_str rec p c n : (forall ss, Forall is_bmp ss -> exists r, rec (str ss) = Some r /\ result_ok weight r ss p) ->
  forall ss w, (length ss < n)%nat -> Forall is_bmp ss -> is_bmp w -> weight w = weight c ->
  exists r, try_from n rec (str ss) w = Some r /\ result_ok weight r ss (Many :: Lit c :: p).
Proof.
  intros Hrec; induction n as [|n IH]; intros ss w L F Hw Ew; [lia|]; cbn [Like.try_from].
  destruct (find_char_str ss F (length (str ss)) w) as (r & -> & H); [pose proof (str_zlen ss (bmp_wc ss F)); unfold zlen in *; lia|exact Hw|].
  assert (forall t, ~ like weight t (Many :: Lit c :: p) -> result_ok weight (-1) t (Many :: Lit c :: p)) as Minus.
  { intros t Nt; right; right; split; [reflexivity|]; intros k K; apply Nt, (like_skip weight k t), K. }
  cbn [obind]; destruct r as [c'|[s w']].
  { destruct H as [-> H]; exists (-1); split; [reflexivity|]; apply Minus; intros (pre & d & rest & -> & E & _)%like_many_lit.
    apply (H d); [apply in_elt|congruence]. }
  destruct H as (pre & d & rest & -> & -> & Hp & Ed & Ew' & B); apply Forall_app in F as [Fp Fd]; inversion_clear Fd as [|? ? Hd Fr].
  destruct (Hrec rest Fr) as (r & -> & K); cbn [obind].
  assert (forall t, like weight (pre ++ d :: rest) (Many :: Lit c :: p) -> t = rest -> like weight rest p \/ like weight rest (Many :: Lit c :: p)) as Split.
  { intros t (pre' & d' & rest' & E & E' & H')%like_many_lit _; apply app_eq_app in E as (l & [[-> El]|[-> El]]).
    - destruct l as [|y l]; [injection El as <- <-; auto|]; injection El as <- El; destruct (Hp d'); [apply in_elt|congruence].
    - destruct l as [|y l]; [injection El as <- <-; auto|]; injection El as <- ->; right; apply like_many_lit; eauto 6. }
  destruct K as [[-> K]|[[-> K]|[-> K]]]; cbn [Z.leb Z.compare].
  - exists 0; split; [reflexivity|left; split; [reflexivity|]]; apply like_many_lit; exists pre, d, rest; repeat split; auto; congruence.
  - destruct (IH rest w') as (r & -> & R); auto; [rewrite length_app in L; cbn in L; lia|congruence|].
    exists r; split; [reflexivity|]; destruct R as [[-> R]|[[-> R]|[-> R]]]; [left|right; left|right; right]; (split; [reflexivity|]).
    + apply like_many_lit in R as (q & y & z & -> & Ey & Rz); apply like_many_lit; exists (pre ++ d :: q), y, z; rewrite <- app_assoc; auto.
    + intros [H|H]%(fun h => Split rest h eq_refl); contradiction.
    + intros k [H|H]%like_skip%(fun h => Split rest h eq_refl); [contradiction|apply (R O), H].
  - exists (-1); split; [reflexivity|]; apply Minus; intros [H|H]%(fun h => Split rest h eq_refl); [apply (K O), H|].
    apply like_many_lit in H as (q & y & z & -> & _ & H); apply (K (S (length q))).
    rewrite skipn_app, skipn_all2 by lia; replace (S (length q) - length q)%nat with 1%nat by lia; exact H.
Qed.

(** The code after the wildcards that follow a [w_many]. *)
Lemma after_many fuel ws ss : (forall ws ss, (length ws < fuel)%nat -> Forall is_bmp ws -> Forall is_bmp ss ->
    exists r, wildcmp fuel (str ss) (str ws) = Some r /\ result_ok weight r ss (tokens ws)) ->
  (length ws <= fuel)%nat -> Forall is_bmp ws -> Forall is_bmp ss -> match ws with c :: _ => c <> w_many /\ c <> w_one | [] => True end ->
  exists r,
    (if zlen (str ws) =? 0 then Some 0
     else if zlen (str ss) =? 0 then Some (-1)
     else
       match my_mb_wc_utf8mb4 (str ws) with
       | NoChar _ => Some 1
       | Char w_wc scan =>
           let wild := zdrop scan (str ws) in
           let esc :=
             if (w_wc =? escape) && (0 <? zlen wild) then
               match my_mb_wc_utf8mb4 wild with
               | NoChar _ => None
               | Char w_wc scan => Some (w_wc, zdrop scan wild)
               end
             else Some (w_wc, wild) in
           match esc with
           | None => Some 1
           | Some (w_wc, wild) => try_from (S (length (str ss))) (fun s => wildcmp fuel s wild) (str ss) w_wc
           end
       end) = Some r /\ result_ok weight r ss (Many :: tokens ws).
Proof.
  intros IH L F G K; rewrite (str_empty ws F), (str_empty ss G); destruct F as [|c ws Hc F].
  { exists 0; split; [reflexivity|left; split; [reflexivity|]]; rewrite <- (app_nil_r ss); apply like_many, like_nil. }
  destruct K as [N1 N2]; destruct (unescape c ws) as [[d w'] e] eqn:E.
  assert (tokens (c :: ws) = Lit d :: tokens w') as ->.
  { rewrite (tokens_unescape c ws d w' e N1 E); replace (negb e && (d =? w_one)) with false; [reflexivity|].
    unfold unescape in E; destruct (c =? escape), ws; injection E as <- <- <-; cbn [negb andb]; lia. }
  destruct (unescape_ok c ws d w' e Hc F E) as (Hd & F' & L'); cbn [length] in L.
  destruct G as [|x ss Hx G].
  { exists (-1); split; [reflexivity|right; right; split; [reflexivity|]]; intros k; rewrite skipn_nil.
    intros (pre & y & rest & Ey & _)%like_many_lit; destruct pre; discriminate. }
  destruct (decode_cons c ws Hc) as [-> ->]; cbv zeta; rewrite (unescape_code' c ws d w' e F E).
  apply try_from_str; auto; [intros s Fs; apply IH; auto; lia|].
  pose proof (str_zlen (x :: ss) (bmp_wc _ (Forall_cons x Hx G))); unfold zlen in *; lia.
Qed.

Lemma wildcmp_str fuel : forall ws ss, (length ws < fuel)%nat -> Forall is_bmp ws -> Forall is_bmp ss ->
  exists r, wildcmp fuel (str ss) (str ws) = Some r /\ result_ok weight r ss (tokens ws).
Proof.
  induction fuel as [|fuel IH]; intros ws ss L F G; [lia|]; cbn [my_wildcmp_unicode]; rewrite (str_empty ws F), (str_empty ss G).
  destruct ws as [|c ws].
  { eexists; split; [reflexivity|]; destruct ss; [left; split; [reflexivity|constructor]|right; left; split; [reflexivity|inversion 1]]. }
  assert (forall l, Forall is_bmp l -> (length l <= length (str l))%nat) as Ls by (intros l Fl; pose proof (str_zlen l (bmp_wc l Fl)); unfold zlen in *; lia).
  destruct (match_chars_str _ (c :: ws) ss _ (Nat.le_refl _) (Ls _ F) ltac:(discriminate) F G) as (r & -> & H); cbn [obind].
  destruct r as [r|[s w]]; [eauto|]; destruct H as (k & ws1 & -> & -> & F1 & L1 & R1).
  assert (Forall is_bmp (skipn k ss)) as G1 by (rewrite <- (firstn_skipn k ss) in G; apply Forall_app in G; apply G).
  destruct (skip_wild_str _ F1 (skipn k ss) _ (Ls _ F1) G1) as (r & -> & H); cbn [obind].
  assert (tokens (w_many :: ws1) = Many :: tokens ws1) as Et by (cbn [Like.tokens]; rewrite Z.eqb_refl; reflexivity); rewrite Et in H.
  pose proof (reduces_trans weight k 0 _ _ _ _ R1 (reduces_many_double weight (skipn k ss) (tokens ws1))) as R2; rewrite Nat.add_0_r in R2.
  destruct r as [r|[s w]]; [exists r; split; [reflexivity|apply (result_reduces weight r k _ _ _ R2 H)]|].
  destruct H as (j & ws2 & -> & -> & F2 & L2 & K & R3); pose proof (reduces_trans weight k j _ _ _ _ R2 R3) as R.
  rewrite skipn_skipn, (Nat.add_comm j k) in *; set (s2 := skipn (k + j) ss) in *.
  enough (forall x, (exists r, x = Some r /\ result_ok weight r s2 (Many :: tokens ws2)) -> exists r, x = Some r /\ result_ok weight r ss (tokens (c :: ws))) as Fin.
  { apply Fin, after_many; auto; [cbn [length] in *; lia|]; unfold s2; rewrite <- (firstn_skipn (k + j) ss) in G; apply Forall_app in G; apply G. }
  intros x (r & -> & Hr); exists r; split; [reflexivity|apply (result_reduces weight r (k + j) _ _ _ R Hr)].
Qed.

End code.

(** src/drizzled/ctype-utf8.cc:2547-2553 my_wildcmp_utf8mb4 *)
Definition my_wildcmp_utf8mb4 (s wild : list Z) (escape w_one w_many : Z) : option Z :=
  my_wildcmp_unicode escape w_one w_many (Some my_unicase_default) (S (length wild)) s wild.

(** C16. LIKE matches what the pattern says: for strings of characters below
    10000 and an escape that is no wildcard, the matcher returns, with 0
    exactly if the string matches the pattern by weights, and -1 only if no
    rest of the string does. *)
Theorem wildcmp_matches escape w_one w_many ss ws : escape <> w_one -> escape <> w_many ->
  Forall is_bmp ss -> Forall is_bmp ws ->
  exists r, my_wildcmp_utf8mb4 (str ss) (str ws) escape w_one w_many = Some r /\
    (r = 0 <-> like weight ss (tokens escape w_one w_many ws)) /\
    (r = -1 -> forall k, ~ like weight (skipn k ss) (tokens escape w_one w_many ws)).
Proof.
  intros H1 H2 F G; destruct (wildcmp_str escape w_one w_many H1 H2 (S (length (str ws))) ws ss) as (r & E & R); auto.
  { pose proof (str_zlen ws (bmp_wc ws G)); unfold zlen in *; lia. }
  exists r; split; [exact E|]; destruct R as [[-> R]|[[-> R]|[-> R]]]; (split; [split|]); auto; try discriminate; intros K; [contradiction|].
  destruct (R O K).
Qed.

Lemma wildcmp_matches_witness :
  exists r, my_wildcmp_utf8mb4 (str [97; 228; 37]) (str [65; 95; 92; 37]) 92 95 37 = Some r /\
    (r = 0 <-> like weight [97; 228; 37] (tokens 92 95 37 [65; 95; 92; 37])) /\
    (r = -1 -> forall k, ~ like weight (skipn k [97; 228; 37]) (tokens 92 95 37 [65; 95; 92; 37])).
Proof.
  apply (wildcmp_matches 92 95 37 [97; 228; 37] [65; 95; 92; 37]); try discriminate; repeat constructor; discriminate.
Defined.

(** Above 10000 it does not: after a [w_many] the tables are read by the low 16
    bits of a character, so U+10041 matches the pattern of any string and an
    A, and not the pattern of an A. *)
Lemma wildcmp_drops_plane :
  my_wildcmp_utf8mb4 (str [65601]) (str [37; 65]) 92 95 37 = Some 0 /\
  my_wildcmp_utf8mb4 (str [65601]) (str [65]) 92 95 37 = Some 1.
Proof. split; vm_compute; reflexivity. Qed.
