(* ===== verification/LikeBin.v ===== *)
(** The LIKE of the binary collation, [my_wildcmp_mb_bin] of
    [src/drizzled/ctype-mb.cc], and [my_wildcmp_mb], which differs from it in
    the comparison of bytes.

    Both call [inc_ptr] to go to the next character and drop its result, so
    the calls change nothing: they do not appear in the model but as comments.
    Strings are as in [Like]; [None] is a run that needs more fuel. *)

From Stdlib Require Import ZArith Lia ZifyBool List Bool.
From S2P Require Import Prelude Words Unicase Utf8 Collation.
Import ListNotations.
Local Open Scope Z_scope.
Local Open Scope fail_scope.

(** ** Model *)

(** A [char], which is signed. *)
Definition schar (c : Z) : Z := swrap 8 c.

(** Whether a string begins with the first [l] bytes of [w]. *)
Definition has_prefix (l : Z) (s w : list Z) : bool :=
  negb (zlen s <? l) && match memcmp (ztake l s) (ztake l w) with Eq => true | _ => false end.

Section wildcmp.
Context (escape w_one w_many : Z).

(** The comparison of a byte of the pattern with one of the string, and of one
    of the string with [cmp]. *)
Context (same_byte is_cmp : Z -> Z -> bool).

(** src/drizzled/ctype-mb.cc:715-733 my_wildcmp_mb_bin

    The characters before a wildcard: the result, or the rest of both strings
    and the variable [result]. *)
Fixpoint match_bytes (fuel : nat) (s wild : list Z) (result : Z) : option (Z + list Z * list Z * Z) :=
  match wild, fuel with
  | [], _ => None
  | _, O => None
  | c :: w, S fuel' =>
      if (schar c =? w_many) || (schar c =? w_one) then Some (inr (s, wild, result))
      else
        let wild := if (schar c =? escape) && negb (zlen w =? 0) then w else wild in
        let l := my_ismbchar_utf8mb4 wild in
        let next :=
          if negb (l =? 0) then
            if has_prefix l s wild then Some (zdrop l s, zdrop l wild) else None
          else
            match s, wild with
            | x :: s', y :: w' => if same_byte y x then Some (s', w') else None
            | _, _ => None
            end in
        match next with
        | None => Some (inl 1)
        | Some (s, wild) =>
            if zlen wild =? 0 then Some (inl (if zlen s =? 0 then 0 else 1))
            else match_bytes fuel' s wild 1
        end
  end.

(** src/drizzled/ctype-mb.cc:734-744 my_wildcmp_mb_bin

    [wild] begins with [w_one]: the result, or the rest of the pattern. *)
Fixpoint skip_ones (s wild : list Z) (result : Z) : Z + list Z :=
  match wild with
  | c :: w =>
      if schar c =? w_one then
        if zlen s =? 0 then inl result
        else (* inc_ptr(cs,str,str_end) *) skip_ones s w result
      else inr wild
  | [] => inr wild
  end.

(** src/drizzled/ctype-mb.cc:753-765 my_wildcmp_mb_bin *)
Fixpoint skip_wilds (s wild : list Z) : Z + list Z :=
  match wild with
  | c :: w =>
      if schar c =? w_many then skip_wilds s w
      else if schar c =? w_one then
        if zlen s =? 0 then inl (-1)
        else (* inc_ptr(cs,str,str_end) *) skip_wilds s w
      else inr wild
  | [] => inr wild
  end.

(** src/drizzled/ctype-mb.cc:779-797 my_wildcmp_mb_bin

    The loop without a condition: -1, or the string after the character. *)
Fixpoint find_byte (fuel : nat) (s mb : list Z) (mb_len cmp : Z) : option (Z + list Z) :=
  match fuel with
  | O => None
  | S fuel' =>
      match s with
      | [] => Some (inl (-1))
      | x :: s' =>
          if negb (mb_len =? 0) && has_prefix mb_len s mb then Some (inr (zdrop mb_len s))
          else if (mb_len =? 0) && (my_ismbchar_utf8mb4 s =? 0) && is_cmp x cmp then Some (inr s')
          else (* inc_ptr(cs,str,str_end) *) find_byte fuel' s mb mb_len cmp
      end
  end.

(** src/drizzled/ctype-mb.cc:777-804 my_wildcmp_mb_bin *)
Fixpoint try_bytes (fuel : nat) (rec : list Z -> option Z) (s wild mb : list Z) (mb_len cmp : Z) : option Z :=
  match fuel with
  | O => None
  | S fuel' =>
      let? f := find_byte (S fuel') s mb mb_len cmp in
      match f with
      | inl res => Some res
      | inr s =>
          let? tmp := rec s in
          if tmp <=? 0 then Some tmp
          else
            match s, wild with
            | [], _ => Some (-1)
            | _, [] => None
            | _, c :: _ => if negb (schar c =? w_many) then try_bytes fuel' rec s wild mb mb_len cmp else Some (-1)
            end
      end
  end.

(** src/drizzled/ctype-mb.cc:706-808 my_wildcmp_mb_bin

    One turn of the outer loop; the variable [result] goes from turn to turn. *)
Fixpoint wildcmp_loop (fuel : nat) (s wild : list Z) (result : Z) : option Z :=
  match fuel with
  | O => None
  | S fuel' =>
      if zlen wild =? 0 then Some (if zlen s =? 0 then 0 else 1)
      else
        let? r := match_bytes (length wild) s wild result in
        match r with
        | inl res => Some res
        | inr (s, wild, result) =>
            match skip_ones s wild result with
            | inl res => Some res
            | inr [] => Some (if zlen s =? 0 then 0 else 1)
            | inr (c :: w) =>
                if schar c =? w_many then
                  match skip_wilds s w with
                  | inl res => Some res
                  | inr [] => Some 0
                  | inr (c :: w) =>
                      if zlen s =? 0 then Some (-1)
                      else
                        let '(cmp, wild) :=
                          match w with
                          | d :: _ => if c =? escape then (d, w) else (c, c :: w)
                          | [] => (c, c :: w)
                          end in
                        let mb_len := my_ismbchar_utf8mb4 wild in
                        (* inc_ptr(cs,wildstr,wildend) *)
                        try_bytes fuel' (fun s => wildcmp_loop fuel' s wild (-1)) s wild wild mb_len cmp
                  end
                else wildcmp_loop fuel' s (c :: w) result
            end
        end
  end.

End wildcmp.

(** src/drizzled/ctype-mb.cc:706-808 my_wildcmp_mb_bin *)
Definition my_wildcmp_mb_bin (fuel : nat) (s wild : list Z) (escape w_one w_many : Z) : option Z :=
  wildcmp_loop escape w_one w_many (fun y x => schar y =? schar x) (fun x cmp => schar x =? cmp) fuel s wild (-1).

(** src/drizzled/ctype-mb.cc:66-69 likeconv *)
Definition likeconv (sort_order : Z -> Z) (c : Z) : Z := sort_order c.

(** src/drizzled/ctype-mb.cc:71-176 my_wildcmp_mb *)
Definition my_wildcmp_mb (sort_order : Z -> Z) (fuel : nat) (s wild : list Z) (escape w_one w_many : Z) : option Z :=
  wildcmp_loop escape w_one w_many (fun y x => likeconv sort_order y =? likeconv sort_order x)
    (fun x cmp => likeconv sort_order x =? likeconv sort_order cmp) fuel s wild (-1).

(** ** Properties *)

Lemma schar_id c : 0 <= c < 128 -> schar c = c.
Proof. intros H; unfold schar, swrap, wrap; pows; rewrite !Z.mod_small by lia; lia. Qed.

Lemma ascii_no_mb c s : 0 <= c < 128 -> my_ismbchar_utf8mb4 (c :: s) = 0.
Proof. intros H; unfold my_ismbchar_utf8mb4; cbn [my_mb_wc_utf8mb4]; rewrite (proj2 (Z.ltb_lt c 128)) by lia; reflexivity. Qed.

(** The loop does not get past a character it does not look for. *)
Lemma find_byte_stays is_cmp fuel x s mb cmp : 0 <= x < 128 -> is_cmp x cmp = false -> find_byte is_cmp fuel (x :: s) mb 0 cmp = None.
Proof.
  intros Hx N; induction fuel as [|fuel IH]; [reflexivity|]; cbn [find_byte Z.eqb negb andb]; rewrite N, andb_false_r; exact IH.
Qed.

(** LIKE of the binary collation does not work with wildcards, because the
    result of [inc_ptr] is dropped.  With an ASCII character after the
    [w_many] and another one at the start of the string, the matcher never
    returns; and the pattern of one [w_one] does not match a string of one
    character. *)
Theorem mb_bin_like_hangs :
  (forall fuel c d s p, 0 <= c < 128 -> 0 <= d < 128 -> c <> d -> ~ In d [37; 95; 92] ->
    my_wildcmp_mb_bin fuel (c :: s) (37 :: d :: p) 92 95 37 = None) /\
  (forall fuel c, my_wildcmp_mb_bin (S fuel) [c] [95] 92 95 37 = Some 1).
Proof.
  split; [|reflexivity].
  intros fuel c d s p Hc Hd N K; cbn [In] in K; destruct fuel as [|fuel]; [reflexivity|]; unfold my_wildcmp_mb_bin; cbn [wildcmp_loop].
  replace (zlen (37 :: d :: p) =? 0) with false by (symmetry; apply Z.eqb_neq; llia).
  change (match_bytes 92 95 37 (fun y x => schar y =? schar x) (length (37 :: d :: p)) (c :: s) (37 :: d :: p) (-1)) with
    (@Some (Z + list Z * list Z * Z) (inr (c :: s, 37 :: d :: p, -1))).
  cbn [obind skip_ones]; change (schar 37 =? 95) with false; change (schar 37 =? 37) with true; cbn [skip_wilds]; rewrite !(schar_id d) by exact Hd.
  rewrite (proj2 (Z.eqb_neq d 37)), (proj2 (Z.eqb_neq d 95)), (proj2 (Z.eqb_neq d 92)) by (intros E; apply K; auto).
  replace (zlen (c :: s) =? 0) with false by (symmetry; apply Z.eqb_neq; llia).
  assert (match p with [] => (d, d :: p) | _ :: _ => (d, d :: p) end = (d, d :: p)) as -> by (destruct p; reflexivity).
  rewrite ascii_no_mb by exact Hd; destruct fuel as [|fuel]; [reflexivity|]; cbn [try_bytes]; rewrite find_byte_stays; [reflexivity|exact Hc|].
  rewrite schar_id by exact Hc; apply Z.eqb_neq, N.
Qed.
