(* ===== verification/CollHash.v ===== *)
(** The collation [utf8mb4_general_ci] as the collation of a hash table: strings
    that [my_strnncoll_utf8mb4] finds equal have the same hash, whether they
    are well formed or not, which is the law of the class [Collation] of
    [Hash]. *)

From Stdlib Require Import ZArith Lia ZifyBool List Bool.
From S2P Require Import Prelude Words Unicase Utf8 Collation Hash.
Import ListNotations.
Local Open Scope Z_scope.
Local Open Scope fail_scope.

Local Abbreviation U := my_unicase_default.

(** ** Equal strings *)

Lemma bincmp_zero s t : zlen s < 2147483648 -> zlen t < 2147483648 -> bincmp_utf8mb4 s t = 0 -> s = t.
Proof.
  intros Ls Lt; unfold bincmp_utf8mb4; pose proof (zlen_nonneg s); pose proof (zlen_nonneg t).
  destruct (memcmp _ _) eqn:E; try discriminate; rewrite !i32_small by lia; intros L.
  assert (zlen s = zlen t) as El by lia; unfold ztake in E.
  rewrite !(firstn_all2 (n := Z.to_nat (Z.min (zlen s) (zlen t)))) in E by (unfold zlen in *; lia); apply memcmp_Eq; assumption.
Qed.

Lemma enc_cons w x : is_wc w -> exists c r, enc w ++ x = c :: r.
Proof. intros Hw; destruct (enc_head w Hw) as (c & r & -> & _); eauto. Qed.

(** What is not a character differs from one. *)
Lemma tail_not_char w x tail e : is_wc w -> my_mb_wc_utf8mb4 tail = NoChar e -> enc w ++ x <> tail.
Proof. intros Hw E <-; rewrite mb_wc_enc in E by exact Hw; discriminate. Qed.

(** The comparison of a string that starts with a character and one that does
    not, or of two that do not, is that of the bytes. *)
Lemma compare_chars_tail fuel s t e : zlen s <= Z.of_nat fuel -> s <> [] -> t <> [] ->
  my_mb_wc_utf8mb4 s = NoChar e \/ my_mb_wc_utf8mb4 t = NoChar e ->
  compare_chars fuel U s t = Some (inl (bincmp_utf8mb4 s t)).
Proof.
  intros L Ns Nt H; destruct s as [|x s]; [contradiction|]; destruct t as [|y t]; [contradiction|]; destruct fuel as [|fuel]; [exfalso; llia|].
  cbn [compare_chars]; destruct H as [-> | ->]; [reflexivity|]; destruct (my_mb_wc_utf8mb4 (x :: s)); reflexivity.
Qed.

(** The result of [my_strnncoll_utf8mb4] is zero. *)
Definition zero_result (r : option (Z + list Z * list Z)) : Prop :=
  match r with
  | Some (inl r) => r = 0
  | Some (inr (s, t)) => i32 (zlen s - zlen t) = 0
  | None => False
  end.

Lemma zero_empty fuel s t : s = [] \/ t = [] -> zlen s < 2147483648 -> zlen t < 2147483648 ->
  zero_result (compare_chars fuel U s t) -> s = [] /\ t = [].
Proof.
  intros N Ls Lt H; pose proof (zlen_nonneg s); pose proof (zlen_nonneg t).
  assert (compare_chars fuel U s t = Some (inr (s, t))) as E by (destruct N as [-> | ->], fuel; try reflexivity; destruct s; reflexivity).
  rewrite E in H; cbn [zero_result] in H; rewrite i32_small in H by lia.
  destruct N as [-> | ->]; change (zlen (@nil Z)) with 0 in *; split; auto; apply zlen_zero; lia.
Qed.

Lemma strnncoll_zero ws a e : Forall is_wc ws -> my_mb_wc_utf8mb4 a = NoChar e -> forall vs b e' fuel,
  Forall is_wc vs -> my_mb_wc_utf8mb4 b = NoChar e' -> zlen (str ws ++ a) < 2147483648 -> zlen (str vs ++ b) < 2147483648 ->
  zlen (str ws ++ a) <= Z.of_nat fuel -> zero_result (compare_chars fuel U (str ws ++ a) (str vs ++ b)) -> weights ws = weights vs /\ a = b.
Proof.
  intros F Ea; induction F as [|w ws Hw F IH]; intros vs b e' fuel G Eb Ls Lt Lf H.
  - change (str [] ++ a) with a in *; assert (a = str vs ++ b) as E.
    { destruct (list_eq_dec Z.eq_dec a []) as [Na|Na]; [apply zero_empty in H as [E1 E2]; congruence || auto|].
      destruct (list_eq_dec Z.eq_dec (str vs ++ b) []) as [N|N]; [apply zero_empty in H as [E1 E2]; congruence || auto|].
      rewrite (compare_chars_tail fuel a (str vs ++ b) e Lf Na N (or_introl Ea)) in H; apply bincmp_zero; assumption. }
    destruct G as [|v vs Hv G]; [auto|]; rewrite str_cons, <- app_assoc in E; symmetry in E; destruct (tail_not_char v _ a e Hv Ea E).
  - rewrite str_cons, <- app_assoc in *; destruct G as [|v vs Hv G].
    + change (str [] ++ b) with b in *; assert (enc w ++ str ws ++ a = b) as E.
      { destruct (list_eq_dec Z.eq_dec b []) as [Nb|Nb]; [apply zero_empty in H as [E1 E2]; congruence || auto|].
        destruct (list_eq_dec Z.eq_dec (enc w ++ str ws ++ a) []) as [N|N]; [apply zero_empty in H as [E1 E2]; congruence || auto|].
        rewrite (compare_chars_tail fuel _ b e' Lf N Nb (or_intror Eb)) in H; apply bincmp_zero; assumption. }
      destruct (tail_not_char w _ b e' Hw Eb E).
    + rewrite str_cons, <- app_assoc in *; destruct (enc_zlen w Hw) as [_ B], (enc_zlen v Hv) as [_ B'].
      destruct fuel as [|fuel]; [exfalso; llia|]; rewrite compare_chars_cons in H by assumption.
      destruct (Z.eqb_spec (weight w) (weight v)) as [E|E]; cbn [negb] in H; [|destruct (weight w >? weight v); discriminate].
      destruct (IH vs b e' fuel G Eb) as [Ew Et]; [llia|llia|llia|exact H|]; split; [|exact Et].
      change (weight w :: weights ws = weight v :: weights vs); congruence.
Qed.

(** ** Their hash *)

Lemma skip_spaces_nil r : skip_spaces r = [] -> Forall (fun c => c = 32) r.
Proof. induction r as [|c r IH]; cbn [skip_spaces]; [auto|]; destruct (Z.eqb_spec c 32); [auto|discriminate]. Qed.

Lemma skip_spaces_app r x : skip_spaces r <> [] -> skip_spaces (r ++ x) = skip_spaces r ++ x.
Proof. induction r as [|c r IH]; cbn [skip_spaces app]; [contradiction|]; destruct (c =? 32); auto. Qed.

Lemma skip_spaces_split r : exists k, r = repeat 32 k ++ skip_spaces r.
Proof.
  induction r as [|c r [k IH]]; cbn [skip_spaces]; [exists O; reflexivity|].
  destruct (Z.eqb_spec c 32) as [->|]; [exists (S k); cbn [repeat app]; congruence|exists O; reflexivity].
Qed.

(** Without spaces at its end a rest that no character starts is still one. *)
Lemma strip_tail tail e : Forall (digit_ok 256) tail -> my_mb_wc_utf8mb4 tail = NoChar e -> tail <> [] ->
  skip_spaces (rev tail) <> [] /\ exists e', my_mb_wc_utf8mb4 (strip tail) = NoChar e'.
Proof.
  intros B E N; split.
  - intros S; apply skip_spaces_nil, Forall_rev in S; rewrite rev_involutive in S; destruct S as [|c tail -> _]; [contradiction|discriminate].
  - destruct (my_mb_wc_utf8mb4 (strip tail)) as [e'|wc res] eqn:D; [eauto|].
    destruct (mb_wc_inv (strip tail) wc res (strip_Forall _ _ B) D) as (Hw & rest & Es & _).
    destruct (skip_spaces_split (rev tail)) as [k Et]; apply (f_equal (@rev Z)) in Et; rewrite rev_involutive, rev_app_distr in Et.
    fold (strip tail) in Et; rewrite Es, <- app_assoc in Et; symmetry in Et; destruct (tail_not_char wc _ tail e Hw E Et).
Qed.

Lemma hash_sort_tail ws tail e n : Forall is_wc ws -> Forall (digit_ok 256) tail -> my_mb_wc_utf8mb4 tail = NoChar e -> tail <> [] ->
  my_hash_sort_utf8mb4 U (str ws ++ tail) n = Some (fold_left hash_weight (weights ws) n).
Proof.
  intros F B E N; destruct (strip_tail tail e B E N) as [S [e' D]]; unfold my_hash_sort_utf8mb4.
  rewrite rev_app_distr, (skip_spaces_app _ _ S), rev_app_distr, rev_involutive; fold (strip tail).
  apply (hash_chars_str ws (strip tail) e' F D); pose proof (str_zlen ws F); rewrite length_app; unfold zlen in *; lia.
Qed.

Lemma strnncoll_hash s t n : Forall (digit_ok 256) s -> Forall (digit_ok 256) t -> zlen s < 2147483648 -> zlen t < 2147483648 ->
  my_strnncoll_utf8mb4 U s t false = Some 0 -> exists h, my_hash_sort_utf8mb4 U s n = Some h /\ my_hash_sort_utf8mb4 U t n = Some h.
Proof.
  intros Bs Bt Ls Lt H.
  destruct (str_split (length s) s (Z.le_refl _) Bs) as (ws & a & e & -> & F & Ea), (str_split (length t) t (Z.le_refl _) Bt) as (vs & b & e' & -> & G & Eb).
  destruct (strnncoll_zero ws a e F Ea vs b e' (length (str ws ++ a)) G Eb Ls Lt (Z.le_refl _)) as [Ew <-].
  { unfold my_strnncoll_utf8mb4 in H; destruct (compare_chars _ _ _ _) as [[r|[x y]]|]; cbn [obind zero_result] in *; congruence. }
  apply Forall_app in Bs as [_ Ba]; destruct a as [|x a].
  - rewrite !app_nil_r, !hash_sort_str, Ew by assumption; eauto.
  - rewrite (hash_sort_tail ws _ e n F Ba Ea), (hash_sort_tail vs _ e n G Ba Ea) by discriminate; rewrite Ew; eauto.
Qed.

(** ** The collation of a hash table *)

Lemma lxor_u32 a b : 0 <= a < 4294967296 -> 0 <= b < 4294967296 -> 0 <= Z.lxor a b < 4294967296.
Proof.
  intros Ha Hb; change 4294967296 with (2 ^ 32) in *; assert (forall x, 0 <= x < 2 ^ 32 -> x = 0 \/ Z.log2 x < 32) as L.
  { intros x Hx; destruct (Z.eq_dec x 0); [auto|right; apply Z.log2_lt_pow2; lia]. }
  assert (0 <= Z.lxor a b) by (apply Z.lxor_nonneg; lia); split; [assumption|].
  destruct (Z.eq_dec (Z.lxor a b) 0) as [->|N]; [reflexivity|]; apply Z.log2_lt_pow2; [lia|].
  eapply Z.le_lt_trans; [apply Z.log2_lxor; lia|]; apply Z.max_lub_lt; [destruct (L a Ha) as [->|]|destruct (L b Hb) as [->|]]; auto; reflexivity.
Qed.

Definition u32_fst (n : Z * Z) : Prop := 0 <= fst n < 4294967296.

Lemma my_hash_add_u32 n ch : u32_fst n -> u32_fst (my_hash_add n ch).
Proof. destruct n as [n1 n2]; intros H; apply lxor_u32; [exact H|apply u32_range]. Qed.

Lemma hash_chars_u32 fuel : forall s n h, u32_fst n -> hash_chars fuel U s n = Some h -> u32_fst h.
Proof.
  induction fuel as [|fuel IH]; intros s n h Hn; cbn [hash_chars]; destruct (my_mb_wc_utf8mb4 s) as [e|wc res]; try (intros [= <-]; exact Hn); try discriminate.
  apply IH; destruct (_ >? _); repeat apply my_hash_add_u32; exact Hn.
Qed.

(** [calc_hash] of [src/drizzled/my_hash.cc] with this collation. *)
Definition general_ci_hash (key : list Z) : Z :=
  match my_hash_sort_utf8mb4 U (map u8 key) (1, 4) with
  | Some (nr1, _) => nr1
  | None => 0
  end.

(** The comparison of keys shorter than 2^31 bytes, for which the lengths are
    not cut to [int]. *)
Definition general_ci_coll (a b : list Z) : Z :=
  if (zlen a <? 2147483648) && (zlen b <? 2147483648) then
    match my_strnncoll_utf8mb4 U (map u8 a) (map u8 b) false with
    | Some r => r
    | None => 1
    end
  else 1.

Lemma map_u8_bytes s : Forall (digit_ok 256) (map u8 s).
Proof. apply Forall_map, Forall_forall; intros x _; unfold u8, wrap, digit_ok; pows; apply Z.mod_pos_bound; lia. Qed.

#[export] Instance general_ci_collation : Collation general_ci_hash general_ci_coll.
Proof.
  constructor.
  - intros s; unfold general_ci_hash, my_hash_sort_utf8mb4; destruct (hash_chars _ _ _ _) as [[n1 n2]|] eqn:E; [|lia].
    apply (hash_chars_u32 _ _ (1, 4) (n1, n2)) in E; [exact E|unfold u32_fst; cbn; lia].
  - intros a b; unfold general_ci_coll, general_ci_hash; destruct (Z.ltb_spec (zlen a) 2147483648), (Z.ltb_spec (zlen b) 2147483648); cbn [andb]; try discriminate.
    destruct (my_strnncoll_utf8mb4 U (map u8 a) (map u8 b) false) as [r|] eqn:E; [intros ->|discriminate].
    assert (forall l, zlen (map u8 l) = zlen l) as Z by (intros l; unfold zlen; rewrite length_map; reflexivity).
    destruct (strnncoll_hash _ _ (1, 4) (map_u8_bytes a) (map_u8_bytes b)) as (h & -> & ->); rewrite ?Z; auto.
Qed.
