(* ===== verification/HashSpec.v ===== *)
(** The hash table refines a bag of records: every sequence of insertions and
    searches of [src/drizzled/my_hash.cc] gives what a bag gives that is
    searched record by record, and a table with the collation
    [utf8mb4_general_ci] is such a table. *)

From Stdlib Require Import ZArith Lia ZifyBool.
From stdpp Require Import base gmap list numbers.
From S2P Require Import Prelude Words Unicase Utf8 Collation Hash CollHash.
Local Open Scope Z_scope.

(** ** Operations *)

Inductive op (R : Type) : Type :=
| Insert (r : R)
| Search (key : list Z).
Arguments Insert {R}.
Arguments Search {R}.

(** What an operation returns: whether the record was refused, or the record
    that was found. *)
Inductive out (R : Type) : Type :=
| Inserted (dup : bool)
| Found (r : option R).
Arguments Inserted {R}.
Arguments Found {R}.

(** ** The bag *)

Section bag.
Context {R : Type} (unique : bool) (key_of : R -> list Z) (matches : list Z -> R -> bool).

(** One operation on the bag: with [unique] a record whose key is there is
    refused; a search returns any record that matches, and none only if there
    is none. *)
Inductive bag_step (l : list R) : op R -> out R -> list R -> Prop :=
| bag_insert r : unique && existsb (matches (key_of r)) l = false -> bag_step l (Insert r) (Inserted false) (r :: l)
| bag_refuse r : unique && existsb (matches (key_of r)) l = true -> bag_step l (Insert r) (Inserted true) l
| bag_found key r : r ∈ l -> matches key r = true -> bag_step l (Search key) (Found (Some r)) l
| bag_missing key : (forall r, r ∈ l -> matches key r = false) -> bag_step l (Search key) (Found None) l.

Inductive bag_run : list R -> list (op R) -> list (out R) -> list R -> Prop :=
| bag_done l : bag_run l [] [] l
| bag_next l o x l1 ops outs l2 : bag_step l o x l1 -> bag_run l1 ops outs l2 -> bag_run l (o :: ops) (x :: outs) l2.
End bag.

(** ** The table *)

Section table.
Context {R : Type} (record_bytes : R -> list Z) (get_key : option (R -> list Z)).
Context (hash_sort : list Z -> Z) (strnncoll : list Z -> list Z -> Z) {CO : Collation hash_sort strnncoll}.

Local Abbreviation insert := (my_hash_insert record_bytes get_key hash_sort strnncoll).
Local Abbreviation search := (hash_first record_bytes get_key hash_sort strnncoll).
Local Abbreviation holds := (table_holds record_bytes get_key hash_sort).
Local Abbreviation matches := (key_matches record_bytes get_key strnncoll).
Local Abbreviation key_of := (hash_key record_bytes get_key).

Definition exec (h : HASH R) (o : op R) : option (out R * HASH R) :=
  match o with
  | Insert r => match insert h r with Some (dup, h') => Some (Inserted dup, h') | None => None end
  | Search key => match search h key (length key) with Some res => Some (Found (snd <$> res), h) | None => None end
  end.

Fixpoint run (h : HASH R) (ops : list (op R)) : option (list (out R) * HASH R) :=
  match ops with
  | [] => Some ([], h)
  | o :: ops' =>
      match exec h o with
      | None => None
      | Some (x, h1) => match run h1 ops' with Some (outs, h2) => Some (x :: outs, h2) | None => None end
      end
  end.

(** The key of an operation. *)
Definition op_key (h : HASH R) (o : op R) : list Z :=
  match o with Insert r => key_of h r | Search key => key end.

(** What never changes. *)
Definition same_config (h h' : HASH R) : Prop :=
  key_offset h' = key_offset h /\ key_length h' = key_length h /\ flags h' = flags h.

Lemma insert_config h r dup h' : insert h r = Some (dup, h') -> same_config h h'.
Proof.
  unfold my_hash_insert; destruct (if has _ _ then _ else _) as [[x|]|]; [intros [= _ <-]; split; auto| |discriminate].
  destruct (split_bucket _ _ _ h) as [[e a]|]; [|discriminate]; destruct (place_record _ _ _ h r e a); [|discriminate].
  intros [= _ <-]; split; auto.
Qed.

Lemma config_key h h' r : same_config h h' -> key_of h' r = key_of h r.
Proof. intros (E1 & E2 & _); unfold hash_key; rewrite E1, E2; reflexivity. Qed.

Lemma config_matches h h' key r : same_config h h' -> matches h' key r = matches h key r.
Proof. intros E; unfold key_matches; rewrite (config_key h h' r E); reflexivity. Qed.

Lemma config_existsb h h' key l : same_config h h' -> existsb (matches h' key) l = existsb (matches h key) l.
Proof. intros E; induction l as [|r l IH]; [reflexivity|]; cbn [existsb]; rewrite IH, (config_matches h h' key r E); reflexivity. Qed.

(** One operation: the table does what the bag of its records may do. *)
Lemma exec_ok h0 h l o : same_config h0 h -> holds h l -> records h < 2147483647 -> op_key h0 o <> [] ->
  exists x h' l', exec h o = Some (x, h') /\ same_config h0 h' /\ holds h' l' /\ records h' <= records h + 1 /\
    bag_step (has HASH_UNIQUE (flags h0)) (key_of h0) (matches h0) l o x l'.
Proof.
  intros C Hl Hn Hk; destruct o as [r|key]; cbn [exec op_key] in *.
  - destruct (hash_insert_correct record_bytes get_key hash_sort strnncoll h l r Hl Hn) as (dup & h' & E & Ed & H).
    { rewrite (config_key h0 h r C); exact Hk. }
    rewrite (config_key h0 h r C), (config_existsb h0 h _ l C) in Ed; pose proof C as (_ & _ & Ef); rewrite Ef in Ed.
    pose proof (insert_config h r dup h' E) as (I1 & I2 & I3); rewrite E; destruct dup.
    + subst h'; exists (Inserted true), h, l; repeat split; try apply C; auto; [lia|apply bag_refuse; auto].
    + destruct H as [Hh Er]; exists (Inserted false), h', (r :: l); destruct C as (C1 & C2 & C3).
      split; [reflexivity|split; [split; [|split]; congruence|split; [exact Hh|split; [lia|apply bag_insert; auto]]]].
  - destruct (hash_search_correct record_bytes get_key hash_sort strnncoll h l key Hl) as (res & E & H); [unfold NO_RECORD; lia|exact Hk|].
    rewrite E; exists (Found (snd <$> res)), h, l; split; [reflexivity|split; [exact C|split; [exact Hl|split; [lia|]]]].
    destruct res as [[i r]|]; cbn.
    + apply bag_found; [apply H|rewrite <- (config_matches h0 h key r C); apply H].
    + apply bag_missing; intros r Hr; rewrite <- (config_matches h0 h key r C); apply H, Hr.
Qed.

Lemma run_ok h0 ops : forall h l, same_config h0 h -> holds h l -> records h + Z.of_nat (length ops) <= 2147483647 ->
  Forall (fun o => op_key h0 o <> []) ops ->
  exists outs h' l', run h ops = Some (outs, h') /\ holds h' l' /\
    bag_run (has HASH_UNIQUE (flags h0)) (key_of h0) (matches h0) l ops outs l'.
Proof.
  induction ops as [|o ops IH]; intros h l C Hl Hn Hk; [exists [], h, l; repeat split; auto; constructor|].
  inversion_clear Hk as [|? ? Ho Hk']; cbn [length run] in *.
  destruct (exec_ok h0 h l o C Hl ltac:(lia) Ho) as (x & h1 & l1 & -> & C1 & H1 & N1 & S1).
  destruct (IH h1 l1 C1 H1 ltac:(lia) Hk') as (outs & h2 & l2 & -> & H2 & S2).
  exists (x :: outs), h2, l2; split; [reflexivity|split; [exact H2|econstructor; eauto]].
Qed.
End table.

(** ** Properties *)

(** C15. The hash table refines a bag: whatever insertions and searches follow its
    creation, with keys that are not empty and fewer than 2^31 operations,
    every one returns, with what the bag of the records inserted so far may
    return, and the table holds this bag at the end.  Displaced records and
    the splitting of buckets do not show. *)
Theorem hash_refines_bag {R} (record_bytes : R -> list Z) (get_key : option (R -> list Z))
    (hash_sort : list Z -> Z) (strnncoll : list Z -> list Z -> Z) {CO : Collation hash_sort strnncoll}
    (offset length : nat) (fl : Z) (ops : list (op R)) :
  Z.of_nat (List.length ops) < 2147483648 ->
  Forall (fun o => op_key record_bytes get_key (hash_init offset length fl) o <> []) ops ->
  exists outs h l,
    run record_bytes get_key hash_sort strnncoll (hash_init offset length fl) ops = Some (outs, h) /\
    table_holds record_bytes get_key hash_sort h l /\
    bag_run (has HASH_UNIQUE fl) (hash_key record_bytes get_key (hash_init offset length fl))
      (key_matches record_bytes get_key strnncoll (hash_init offset length fl)) [] ops outs l.
Proof.
  intros Hn Hk; apply (run_ok record_bytes get_key hash_sort strnncoll (hash_init offset length fl)); auto.
  - split; auto.
  - apply init_holds.
  - cbn; lia.
Qed.

(** With the collation [utf8mb4_general_ci]: the keys "a" and "A" are the same. *)
Lemma hash_refines_bag_witness :
  exists outs h l,
    run id None general_ci_hash general_ci_coll (hash_init 0 1 1) [Insert [97]; Insert [65]; Search [65]] = Some (outs, h) /\
    table_holds id None general_ci_hash h l /\
    bag_run (has HASH_UNIQUE 1) (hash_key id None (hash_init 0 1 1)) (key_matches id None general_ci_coll (hash_init 0 1 1))
      [] [Insert [97]; Insert [65]; Search [65]] outs l.
Proof.
  apply (hash_refines_bag id None general_ci_hash general_ci_coll 0 1 1 [Insert [97]; Insert [65]; Search [65]]).
  - reflexivity.
  - repeat constructor; discriminate.
Defined.

Example same_keys :
  fst <$> run id None general_ci_hash general_ci_coll (hash_init 0 1 1) [Insert [97]; Insert [65]; Search [65]; Search [98]]
  = Some [Inserted false; Inserted true; Found (Some [97]); Found None].
Proof. vm_compute; reflexivity. Qed.
