(* ===== verification/RwLock.v ===== *)
(** The read-write latch of InnoDB: [src/plugin/innobase/include/sync0rw.ic]
    and [src/plugin/innobase/sync/sync0rw.cc], with the events of
    [os/os0sync.cc] it sleeps on.

    The threads of the server run the functions of the latch at the same time.
    A thread is at a point of one of them, with its local variables: a [pc].
    One step is one access to the latch: a read, a write, a compare-and-swap,
    an atomic increment, or a call of an event, which runs under the event's
    own mutex.  Memory is sequentially consistent, which the barriers of the
    source are for.  [tstep] gives the steps a thread may take; how often a
    loop spins before the thread sleeps ([SYNC_SPIN_ROUNDS]) is left open, so a
    spinning thread has a choice.

    A thread takes a latch in shared mode once at most, and does not ask for a
    mode it would wait for itself to release: the usage the source demands of
    its callers. *)

From Stdlib Require Import ZArith Lia ZifyBool.
From stdpp Require Import base list numbers relations.
From S2P Require Import Prelude.
Local Open Scope Z_scope.

(** ** Events *)

(** src/plugin/innobase/include/os0sync.h:61-78 os_event_struct *)
Record os_event : Type := mkEvent { is_set : bool; signal_count : Z }.

(** src/plugin/innobase/os/os0sync.cc:432-460 os_event_set *)
Definition os_event_set (e : os_event) : os_event :=
  if is_set e then e else mkEvent true (signal_count e + 1).

(** src/plugin/innobase/os/os0sync.cc:470-498 os_event_reset *)
Definition os_event_reset (e : os_event) : os_event * Z := (mkEvent false (signal_count e), signal_count e).

(** src/plugin/innobase/os/os0sync.cc:584-644 os_event_wait_low

    Whether the wait returns. *)
Definition os_event_wait_low (e : os_event) (reset_sig_count : Z) : bool :=
  let old_signal_count := if negb (reset_sig_count =? 0) then reset_sig_count else signal_count e in
  is_set e || negb (signal_count e =? old_signal_count).

(** ** The latch *)

(** src/plugin/innobase/include/sync0rw.h:59-59 X_LOCK_DECR *)
Definition X_LOCK_DECR : Z := 1048576.

(** src/plugin/innobase/include/sync0rw.h:573-633 rw_lock_struct

    Without the fields for reports and the list of all latches. *)
Record rw_lock : Type := mkLock {
  lock_word : Z;
  waiters : bool;
  recursive : bool;
  writer_thread : nat;
  event : os_event;
  wait_ex_event : os_event }.

Definition set_word (w : Z) (l : rw_lock) : rw_lock :=
  mkLock w (waiters l) (recursive l) (writer_thread l) (event l) (wait_ex_event l).
Definition set_waiters (b : bool) (l : rw_lock) : rw_lock :=
  mkLock (lock_word l) b (recursive l) (writer_thread l) (event l) (wait_ex_event l).
Definition set_recursive (b : bool) (l : rw_lock) : rw_lock :=
  mkLock (lock_word l) (waiters l) b (writer_thread l) (event l) (wait_ex_event l).
Definition set_writer (t : nat) (l : rw_lock) : rw_lock :=
  mkLock (lock_word l) (waiters l) (recursive l) t (event l) (wait_ex_event l).
Definition set_event (e : os_event) (l : rw_lock) : rw_lock :=
  mkLock (lock_word l) (waiters l) (recursive l) (writer_thread l) e (wait_ex_event l).
Definition set_wait_ex (e : os_event) (l : rw_lock) : rw_lock :=
  mkLock (lock_word l) (waiters l) (recursive l) (writer_thread l) (event l) e.

(** src/plugin/innobase/sync/sync0rw.cc:235-306 rw_lock_create_func *)
Definition rw_lock_create : rw_lock :=
  mkLock X_LOCK_DECR false false 0 (mkEvent false 1) (mkEvent false 1).

(** src/plugin/innobase/include/sync0sync.h:685-689 RW_LOCK_NOT_LOCKED *)
Inductive write_status : Type := RW_LOCK_NOT_LOCKED | RW_LOCK_EX | RW_LOCK_SHARED | RW_LOCK_WAIT_EX.

(** src/plugin/innobase/include/sync0rw.ic:122-139 rw_lock_get_writer *)
Definition rw_lock_get_writer (l : rw_lock) : write_status :=
  if lock_word l >? 0 then RW_LOCK_NOT_LOCKED
  else if Z.rem (- lock_word l) X_LOCK_DECR =? 0 then RW_LOCK_EX else RW_LOCK_WAIT_EX.

(** src/plugin/innobase/include/sync0rw.ic:144-159 rw_lock_get_reader_count *)
Definition rw_lock_get_reader_count (l : rw_lock) : Z :=
  if lock_word l >? 0 then X_LOCK_DECR - lock_word l
  else if (lock_word l <? 0) && (lock_word l >? - X_LOCK_DECR) then - lock_word l else 0.

(** src/plugin/innobase/include/sync0rw.ic:176-188 rw_lock_get_x_lock_count *)
Definition rw_lock_get_x_lock_count (l : rw_lock) : Z :=
  if (lock_word l >? 0) || negb (Z.rem (- lock_word l) X_LOCK_DECR =? 0) then 0
  else Z.quot (- lock_word l) X_LOCK_DECR + 1.

(** src/plugin/innobase/sync/sync0rw.cc:347-370 rw_lock_validate

    Whether its assertions hold. *)
Definition rw_lock_validate (l : rw_lock) : bool :=
  (lock_word l >? - X_LOCK_DECR) || (Z.rem (- lock_word l) X_LOCK_DECR =? 0).

(** src/plugin/innobase/sync/sync0rw.cc:879-905 rw_lock_is_locked

    [None] is [ut_error]. *)
Definition rw_lock_is_locked (l : rw_lock) (lock_type : write_status) : option bool :=
  match lock_type with
  | RW_LOCK_SHARED => Some (rw_lock_get_reader_count l >? 0)
  | RW_LOCK_EX => Some (match rw_lock_get_writer l with RW_LOCK_EX => true | _ => false end)
  | _ => None
  end.

(** The attempt at the latch a thread makes: the first one, one after spinning,
    the last one before it sleeps, with the signal count of its cell, or the
    only one, of [rw_lock_x_lock_func_nowait]. *)
Inductive attempt : Type :=
| First
| Again
| Last (cell : Z)
| Try.

(** The exclusive locks of a thread: whether they were taken for itself, and how
    many. *)
Definition holding : Type := option (bool * nat).

Inductive pc : Type :=
| Idle
(* shared *)
| SRead (a : attempt)
| SCas (a : attempt) (w : Z)
| SLoop
| SReserve
| SFlag (cell : Z)
| SWait (cell : Z)
| SHeld
| SSignal
(* exclusive; [pass]: for another thread to unlock; [h]: held already *)
| XRead (a : attempt) (pass : bool) (h : holding)
| XCas (a : attempt) (pass : bool) (h : holding) (w : Z)
| XTry (h : holding)
| XRecursive (a : attempt) (pass : bool) (h : holding)
| XWriter (a : attempt) (pass : bool) (h : holding)
| XRelock (rec : bool) (n : nat)
| XRelockSet (rec : bool) (n : nat) (w : Z)
| XLoop (pass : bool) (h : holding)
| XReserve (pass : bool) (h : holding)
| XFlag (pass : bool) (h : holding) (cell : Z)
| XWait (pass : bool) (h : holding) (cell : Z)
(* after the decrement: [drain] waits for the readers *)
| XOwn (pass drain : bool)
| XOwnCas (pass drain : bool) (local : nat)
| XOwnRec (pass drain : bool)
| XDrain (pass : bool)
| XDrainReserve (pass : bool)
| XDrainCheck (pass : bool) (cell : Z)
| XDrainWait (pass : bool) (cell : Z)
| XHeld (rec : bool) (n : nat)
| XMove (n : nat)
| XMoveCas (n : nat) (local : nat)
| XMoveRec (n : nat)
(* unlock *)
| XClear (rec : bool) (n : nat)
| XIncr (rec : bool) (n : nat)
| XWaiters
| XReset
| XSet
(* a failed assertion *)
| Crashed.

(** ** Steps: shared mode *)

(** src/plugin/innobase/sync/sync0rw.cc:421-459 rw_lock_s_lock_spin

    Where a thread goes after an attempt that failed; lines 414-424 of
    [sync0rw.ic] for the first one. *)
Definition s_failed (a : attempt) : list pc :=
  match a with
  | First => [SLoop]
  | Again => [SLoop; SReserve]
  | Last cell => [SWait cell]
  | Try => []
  end.

(** src/plugin/innobase/sync/sync0rw.cc:374-461 rw_lock_s_lock_spin

    With [rw_lock_lock_word_decr] of lines 202 to 225 of [sync0rw.ic] and
    [rw_lock_s_lock_low] of lines 311 to 329. *)
Definition s_lock_step (l : rw_lock) (p : pc) : list (rw_lock * pc) :=
  match p with
  | SRead a => if lock_word l >? 0 then [(l, SCas a (lock_word l))] else map (pair l) (s_failed a)
  | SCas a w => if lock_word l =? w then [(set_word (w - 1) l, SHeld)] else [(l, SRead a)]
  | SLoop => (if lock_word l <=? 0 then [(l, SLoop)] else []) ++ [(l, SRead Again)]
  | SReserve => let '(e, cell) := os_event_reset (event l) in [(set_event e l, SFlag cell)]
  | SFlag cell => [(set_waiters true l, SRead (Last cell))]
  | SWait cell => if os_event_wait_low (event l) cell then [(l, SLoop)] else []
  | _ => []
  end.

(** src/plugin/innobase/include/sync0rw.ic:488-519 rw_lock_s_unlock_func

    The increment is one access, the signal another. *)
Definition s_unlock_step (l : rw_lock) (p : pc) : list (rw_lock * pc) :=
  match p with
  | SHeld => [(set_word (lock_word l + 1) l, if lock_word l + 1 =? 0 then SSignal else Idle)]
  | SSignal => [(set_wait_ex (os_event_set (wait_ex_event l)) l, Idle)]
  | _ => []
  end.

(** ** Steps: exclusive mode *)

(** The point of a thread with these locks outside of the functions. *)
Definition back (h : holding) : pc :=
  match h with None => Idle | Some (rec, n) => XHeld rec n end.

(** src/plugin/innobase/sync/sync0rw.cc:638-699 rw_lock_x_lock_func

    Where a thread goes after an attempt that failed; lines 469 to 472 of
    [sync0rw.ic] for the only one. *)
Definition x_failed (a : attempt) (pass : bool) (h : holding) : list pc :=
  match a with
  | First | Again => [XLoop pass h]
  | Last cell => [XWait pass h cell]
  | Try => [back h]
  end.

(** src/plugin/innobase/sync/sync0rw.cc:554-603 rw_lock_x_lock_low

    With [rw_lock_lock_word_decr] and
    [rw_lock_set_writer_id_and_recursion_flag] of [sync0rw.ic], lines 202 to
    225 and 267 to 296, and [rw_lock_x_lock_func_nowait], lines 438 to 483,
    for the attempt [Try]. *)
Definition x_low_step (me : nat) (l : rw_lock) (p : pc) : list (rw_lock * pc) :=
  match p with
  | XRead a pass h => [(l, if lock_word l >? 0 then XCas a pass h (lock_word l) else XRecursive a pass h)]
  | XCas a pass h w =>
      if lock_word l =? w then [(set_word (w - X_LOCK_DECR) l, XOwn pass true)] else [(l, XRead a pass h)]
  | XTry h =>
      if lock_word l =? X_LOCK_DECR then [(set_word 0 l, XOwn false false)] else [(l, XRecursive Try false h)]
  | XOwn pass drain =>
      [(l, if drain && recursive l then Crashed else XOwnCas pass drain (writer_thread l))]
  | XOwnCas pass drain local =>
      if Nat.eqb (writer_thread l) local then [(set_writer me l, XOwnRec pass drain)] else [(l, Crashed)]
  | XOwnRec pass drain => [(set_recursive (negb pass) l, if drain then XDrain pass else XHeld (negb pass) 1)]
  | XRecursive a pass h =>
      if negb pass && recursive l then [(l, XWriter a pass h)] else map (pair l) (x_failed a pass h)
  | XWriter a pass h =>
      if Nat.eqb (writer_thread l) me then
        [(l, match h with Some (rec, n) => XRelock rec n | None => XRelock true 0 end)]
      else map (pair l) (x_failed a pass h)
  | XRelock rec n => [(l, XRelockSet rec n (lock_word l))]
  | XRelockSet rec n w => [(set_word (w - X_LOCK_DECR) l, XHeld rec (S n))]
  | _ => []
  end.

(** src/plugin/innobase/sync/sync0rw.cc:487-549 rw_lock_x_lock_wait *)
Definition x_wait_step (l : rw_lock) (p : pc) : list (rw_lock * pc) :=
  match p with
  | XDrain pass =>
      if lock_word l <? 0 then [(l, XDrain pass); (l, XDrainReserve pass)] else [(l, XHeld (negb pass) 1)]
  | XDrainReserve pass =>
      let '(e, cell) := os_event_reset (wait_ex_event l) in [(set_wait_ex e l, XDrainCheck pass cell)]
  | XDrainCheck pass cell => [(l, if lock_word l <? 0 then XDrainWait pass cell else XDrain pass)]
  | XDrainWait pass cell => if os_event_wait_low (wait_ex_event l) cell then [(l, XDrain pass)] else []
  | _ => []
  end.

(** src/plugin/innobase/sync/sync0rw.cc:615-706 rw_lock_x_lock_func

    Without [rw_lock_x_lock_low]. *)
Definition x_lock_step (l : rw_lock) (p : pc) : list (rw_lock * pc) :=
  match p with
  | XLoop pass h =>
      (if lock_word l <=? 0 then [(l, XLoop pass h)] else []) ++ [(l, XRead Again pass h); (l, XReserve pass h)]
  | XReserve pass h => let '(e, cell) := os_event_reset (event l) in [(set_event e l, XFlag pass h cell)]
  | XFlag pass h cell => [(set_waiters true l, XRead (Last cell) pass h)]
  | XWait pass h cell => if os_event_wait_low (event l) cell then [(l, XRead First pass h)] else []
  | _ => []
  end.

(** src/plugin/innobase/include/sync0rw.ic:549-593 rw_lock_x_unlock_func

    The test of [lock_word] is in the first step from [XHeld]. *)
Definition x_unlock_step (l : rw_lock) (p : pc) : list (rw_lock * pc) :=
  match p with
  | XHeld rec n => [(l, if lock_word l =? 0 then XClear rec n else XIncr rec n)]
  | XClear rec n => [(set_recursive false l, XIncr false n)]
  | XIncr rec n =>
      let w := lock_word l + X_LOCK_DECR in
      [(set_word w l, if w =? X_LOCK_DECR then XWaiters else XHeld rec (pred n))]
  | XWaiters => [(l, if waiters l then XReset else Idle)]
  | XReset => [(set_waiters false l, XSet)]
  | XSet => [(set_event (os_event_set (event l)) l, Idle)]
  | _ => []
  end.

(** src/plugin/innobase/sync/sync0rw.cc:472-481 rw_lock_x_lock_move_ownership *)
Definition move_step (me : nat) (l : rw_lock) (p : pc) : list (rw_lock * pc) :=
  match p with
  | XHeld false n => [(l, XMove n)]
  | XMove n => [(l, XMoveCas n (writer_thread l))]
  | XMoveCas n local =>
      if Nat.eqb (writer_thread l) local then [(set_writer me l, XMoveRec n)] else [(l, Crashed)]
  | XMoveRec n => [(set_recursive true l, XHeld true n)]
  | _ => []
  end.

(** The calls a thread may make: any from outside, the exclusive mode again for
    a thread that has it for itself, and an attempt without waiting. *)
Definition calls (p : pc) : list pc :=
  match p with
  | Idle => [SRead First; XRead First true None; XRead First false None; XTry None]
  | XHeld rec n => XTry (Some (rec, n)) :: (if rec then [XRead First false (Some (rec, n))] else [])
  | _ => []
  end.

Definition tstep (me : nat) (l : rw_lock) (p : pc) : list (rw_lock * pc) :=
  map (pair l) (calls p) ++ s_lock_step l p ++ s_unlock_step l p ++
  x_low_step me l p ++ x_wait_step l p ++ x_lock_step l p ++ x_unlock_step l p ++ move_step me l p.

(** The latch and the threads that use it, by their numbers. *)
Definition state : Type := rw_lock * list pc.

(** A thread takes a step, or hands over the locks it took for another thread. *)
Inductive step : state -> state -> Prop :=
| step_thread i l ts p l' p' :
    ts !! i = Some p -> In (l', p') (tstep i l p) -> step (l, ts) (l', <[i := p']> ts)
| step_hand_over i j l ts n :
    ts !! i = Some (XHeld false n) -> ts !! j = Some Idle ->
    step (l, ts) (l, <[j := XHeld false n]> (<[i := Idle]> ts)).

Definition init (n : nat) : state := (rw_lock_create, replicate n Idle).
