(* ===== verification/RwInv.v ===== *)
(** The latch of [RwLock.v] as its threads see it, in every state they get to
    from a new latch: the exclusive mode excludes the others, the functions that
    read [lock_word] count the threads, and no wake-up is lost.

    All of it follows from one invariant ([inv]).  [lock_word] is [X_LOCK_DECR]
    less one for every reader and [X_LOCK_DECR] for every exclusive lock; what a
    single thread relies on between two steps is [local] to it. *)

From Stdlib Require Import ZArith Lia ZifyBool.
From stdpp Require Import base list numbers relations.
From S2P Require Import Prelude RwLock.
Local Open Scope Z_scope.

(** ** Sums over the threads *)

Definition sum (f : pc -> Z) (ts : list pc) : Z := foldr (fun p acc => f p + acc) 0 ts.

Lemma sum_insert f ts i p p' : ts !! i = Some p -> sum f (<[i := p']> ts) = sum f ts - f p + f p'.
Proof.
  revert i; induction ts as [|q ts IH]; intros [|i] H; try discriminate.
  - injection H as ->; cbn; lia.
  - change (f q + sum f (<[i := p']> ts) = f q + sum f ts - f p + f p'); rewrite (IH i H); lia.
Qed.

Lemma sum_le f g ts : (forall p, f p <= g p) -> sum f ts <= sum g ts.
Proof. intros H; induction ts as [|p ts IH]; [reflexivity|]; cbn; specialize (H p); unfold sum in IH; lia. Qed.

Lemma sum_nonneg f ts : (forall p, 0 <= f p) -> 0 <= sum f ts.
Proof. intros H; induction ts as [|p ts IH]; [reflexivity|]; cbn; specialize (H p); unfold sum in IH; lia. Qed.

Lemma sum_one f ts i p : (forall p, 0 <= f p) -> ts !! i = Some p -> f p <= sum f ts.
Proof.
  intros Hf; revert i; induction ts as [|q ts IH]; intros [|i] H; try discriminate; cbn in *; fold (sum f ts).
  - injection H as ->; pose proof (sum_nonneg f ts Hf); lia.
  - specialize (IH i H); specialize (Hf q); lia.
Qed.

Lemma sum_two f ts i j p q : (forall p, 0 <= f p) -> i <> j -> ts !! i = Some p -> ts !! j = Some q -> f p + f q <= sum f ts.
Proof.
  intros Hf; revert i j; induction ts as [|x ts IH]; intros [|i] [|j] N Hi Hj; try discriminate; try contradiction; cbn in *; fold (sum f ts).
  - injection Hi as ->; pose proof (sum_one f ts j q Hf Hj); lia.
  - injection Hj as ->; pose proof (sum_one f ts i p Hf Hi); lia.
  - specialize (IH i j ltac:(lia) Hi Hj); specialize (Hf x); lia.
Qed.

Lemma sum_pos f ts : 0 < sum f ts -> exists i p, ts !! i = Some p /\ 0 < f p.
Proof.
  induction ts as [|p ts IH]; [discriminate|]; change (sum f (p :: ts)) with (f p + sum f ts); intros H.
  destruct (Z.lt_ge_cases 0 (f p)); [exists 0%nat, p; auto|].
  destruct IH as (i & q & E & Hq); [lia|exists (S i), q; auto].
Qed.

Lemma sum_replicate f n p : sum f (replicate n p) = Z.of_nat n * f p.
Proof. induction n as [|n IH]; [reflexivity|]; cbn [replicate]; unfold sum in *; cbn [foldr]; rewrite IH; lia. Qed.

(** ** What the points mean *)

(** The exclusive lock of a thread that has decremented [lock_word]: whether the
    readers are known to be gone, how many times it has it, and whether
    [recursive] is set for it. *)
Definition of_holding (h : holding) : option (bool * nat * bool) :=
  match h with Some (rec, n) => Some (true, n, rec) | None => None end.

Definition claim (p : pc) : option (bool * nat * bool) :=
  match p with
  | XOwn _ drain | XOwnCas _ drain _ | XOwnRec _ drain => Some (negb drain, 1%nat, false)
  | XDrain pass | XDrainReserve pass | XDrainCheck pass _ | XDrainWait pass _ => Some (false, 1%nat, negb pass)
  | XHeld rec n | XClear rec n | XIncr rec n | XRelock rec n | XRelockSet rec n _ => Some (true, n, rec)
  | XMove n | XMoveCas n _ | XMoveRec n => Some (true, n, false)
  | XRead _ _ h | XCas _ _ h _ | XTry h | XRecursive _ _ h | XWriter _ _ h
  | XLoop _ h | XReserve _ h | XFlag _ h _ | XWait _ h _ => of_holding h
  | _ => None
  end.

Definition reader (p : pc) : Z := match p with SHeld => 1 | _ => 0 end.
Definition locks (p : pc) : Z := match claim p with Some (_, n, _) => Z.of_nat n | None => 0 end.
Definition claims (p : pc) : Z := match claim p with Some _ => 1 | None => 0 end.
Definition flags (p : pc) : Z := match claim p with Some (_, _, true) => 1 | _ => 0 end.
Definition drained (p : pc) : bool := match claim p with Some (d, _, _) => d | None => false end.

(** The threads that will signal. *)
Definition setting (p : pc) : Z := match p with XSet => 1 | _ => 0 end.
Definition waking (p : pc) : Z := match p with XWaiters | XReset | XSet => 1 | _ => 0 end.
Definition setting_ex (p : pc) : Z := match p with SSignal => 1 | _ => 0 end.

(** [writer_thread] is this thread. *)
Definition mine (p : pc) : bool :=
  match p with XOwnRec _ _ | XMoveRec _ => true | _ => flags p =? 1 end.

(** The copy of [writer_thread] to compare. *)
Definition seen (p : pc) : option nat :=
  match p with XOwnCas _ _ w | XMoveCas _ w => Some w | _ => None end.

Definition saved (p : pc) : option Z := match p with XRelockSet _ _ w => Some w | _ => None end.

(** The signal count of a cell for [event]; with [waiters] set; after
    [lock_word] was found not above zero. *)
Definition last (a : attempt) : option Z := match a with Last cell => Some cell | _ => None end.

Definition waits (p : pc) : option Z :=
  match p with
  | SWait cell | XWait _ _ cell => Some cell
  | XRecursive a _ _ | XWriter a _ _ => last a
  | _ => None
  end.

Definition flagged (p : pc) : option Z :=
  match p with
  | SRead a | SCas a _ | XRead a _ _ | XCas a _ _ _ => last a
  | _ => waits p
  end.

Definition cell (p : pc) : option Z :=
  match p with SFlag cell | XFlag _ _ cell => Some cell | _ => flagged p end.

(** The same for [wait_ex_event]. *)
Definition waits_ex (p : pc) : option Z := match p with XDrainWait _ cell => Some cell | _ => None end.
Definition cell_ex (p : pc) : option Z := match p with XDrainCheck _ cell => Some cell | _ => waits_ex p end.

(** The points that can be reached: what a thread with the lock does. *)
Definition wf (p : pc) : Prop :=
  match p with
  | XRead a pass (Some (rec, n)) => (1 <= n)%nat /\ pass = false /\ a = First /\ rec = true
  | XRecursive a pass (Some (rec, n)) => (1 <= n)%nat /\ pass = false /\ (a = First /\ rec = true \/ a = Try)
  | XWriter a pass (Some (rec, n)) => (1 <= n)%nat /\ rec = true
  | SCas _ w | XCas _ _ None w => 0 < w
  | XCas _ _ (Some _) _ | XLoop _ (Some _) | XReserve _ (Some _) | XFlag _ (Some _) _ | XWait _ (Some _) _ => False
  | XTry (Some (_, n)) => (1 <= n)%nat
  | XHeld _ n | XRelock _ n | XRelockSet _ n _ | XClear _ n | XMove n | XMoveCas n _ | XMoveRec n => (1 <= n)%nat
  | XIncr rec n => (1 <= n)%nat /\ (n = 1%nat -> rec = false)
  | Crashed => False
  | _ => True
  end.

(** Of another thread the function [writer_thread] is not this one. *)
Definition stranger (p : pc) : bool := match p with XWriter _ _ None => true | _ => false end.

(** ** The invariant *)

Record local (j : nat) (l : rw_lock) (readers set_ wake set_ex : Z) (p : pc) : Prop := {
  l_wf : wf p;
  l_drained : drained p = true -> readers = 0;
  l_mine : mine p = true -> writer_thread l = j;
  l_seen w : seen p = Some w -> writer_thread l = w;
  l_stranger : stranger p = true -> writer_thread l <> j;
  l_saved w : saved p = Some w -> lock_word l = w;
  l_cell c : cell p = Some c -> 1 <= c <= signal_count (event l) /\ (c = signal_count (event l) -> is_set (event l) = false);
  l_flagged c : flagged p = Some c -> c = signal_count (event l) -> waiters l = true \/ 0 < set_;
  l_waits c : waits p = Some c -> c = signal_count (event l) -> lock_word l <= 0 \/ 0 < wake;
  l_cell_ex c : cell_ex p = Some c ->
    1 <= c <= signal_count (wait_ex_event l) /\ (c = signal_count (wait_ex_event l) -> is_set (wait_ex_event l) = false);
  l_waits_ex c : waits_ex p = Some c -> c = signal_count (wait_ex_event l) -> lock_word l < 0 \/ 0 < set_ex }.

Record inv (s : state) : Prop := {
  i_few : Z.of_nat (length (snd s)) < X_LOCK_DECR;
  i_word : lock_word (fst s) = X_LOCK_DECR - sum reader (snd s) - X_LOCK_DECR * sum locks (snd s);
  i_one : sum claims (snd s) <= 1;
  i_rec : Z.b2z (recursive (fst s)) = sum flags (snd s);
  i_event : 1 <= signal_count (event (fst s)) /\ 1 <= signal_count (wait_ex_event (fst s));
  i_local j p : snd s !! j = Some p ->
    local j (fst s) (sum reader (snd s)) (sum setting (snd s)) (sum waking (snd s)) (sum setting_ex (snd s)) p }.

Lemma claims_bit p : 0 <= claims p <= 1.
Proof. unfold claims; destruct (claim p); lia. Qed.

Lemma flags_claims p : 0 <= flags p <= claims p.
Proof. unfold flags, claims; destruct (claim p) as [[[d n] [|]]|]; lia. Qed.

Lemma locks_nonneg p : 0 <= locks p.
Proof. unfold locks; destruct (claim p) as [[[d n] f]|]; lia. Qed.

Lemma reader_bit p : 0 <= reader p <= 1.
Proof. destruct p; cbn; lia. Qed.

Lemma setting_waking p : 0 <= setting p <= waking p.
Proof. destruct p; cbn; lia. Qed.

Lemma setting_ex_nonneg p : 0 <= setting_ex p.
Proof. destruct p; cbn; lia. Qed.

Lemma wf_locks p : wf p -> claims p <= locks p.
Proof.
  destruct p; try destruct h as [[rec' n']|]; try destruct drain; cbn; unfold claims, locks; cbn; lia.
Qed.

Lemma drained_claims p : drained p = true -> claims p = 1.
Proof. unfold drained, claims; destruct (claim p) as [[[d n] f]|]; [reflexivity|discriminate]. Qed.

Lemma mine_claims p : mine p = true -> claims p = 1.
Proof.
  destruct p; cbn; try reflexivity; unfold flags, claims; cbn; try discriminate;
    try destruct h as [[rec' n']|]; cbn; try discriminate; reflexivity.
Qed.

Lemma seen_claims p w : seen p = Some w -> claims p = 1.
Proof. destruct p; cbn; try discriminate; reflexivity. Qed.

Lemma saved_claims p w : saved p = Some w -> claims p = 1 /\ drained p = true.
Proof. destruct p; cbn; try discriminate; split; reflexivity. Qed.

Lemma waits_flagged p c : waits p = Some c -> flagged p = Some c.
Proof. destruct p; cbn; congruence. Qed.

Lemma flagged_cell p c : flagged p = Some c -> cell p = Some c.
Proof. destruct p; cbn; congruence. Qed.

Lemma waits_ex_cell p c : waits_ex p = Some c -> cell_ex p = Some c /\ claims p = 1.
Proof. destruct p; cbn; try discriminate; auto. Qed.

Lemma sum_locks_zero ts : sum claims ts <= 0 -> sum locks ts = 0.
Proof.
  intros H; destruct (Z.eq_dec (sum locks ts) 0) as [E|E]; [exact E|exfalso].
  pose proof (sum_nonneg locks ts locks_nonneg); destruct (sum_pos locks ts) as (i & p & E1 & Hp); [lia|].
  pose proof (sum_one claims ts i p (fun p => proj1 (claims_bit p)) E1); unfold locks, claims in *; destruct (claim p); lia.
Qed.

Lemma sum_locks_claims ts : (forall j p, ts !! j = Some p -> wf p) -> sum claims ts <= sum locks ts.
Proof.
  induction ts as [|p ts IH]; intros H; [reflexivity|].
  change (claims p + sum claims ts <= locks p + sum locks ts); pose proof (wf_locks p (H 0%nat p eq_refl)).
  specialize (IH (fun j q E => H (S j) q E)); lia.
Qed.

Lemma sum_flags_claims ts : sum flags ts <= sum claims ts.
Proof. apply sum_le; intros p; apply flags_claims. Qed.

(** The only thread with a claim has all the locks. *)
Lemma sole_claim ts i p : ts !! i = Some p -> sum claims ts <= 1 -> claims p = 1 ->
  sum locks ts = locks p /\ sum flags ts = flags p.
Proof.
  intros Hi H1 Hp; pose proof (sum_insert claims ts i p Idle Hi) as E; pose proof (sum_insert locks ts i p Idle Hi) as El.
  pose proof (sum_insert flags ts i p Idle Hi) as Ef; change (claims Idle) with 0 in E; change (locks Idle) with 0 in El; change (flags Idle) with 0 in Ef.
  rewrite (sum_locks_zero (<[i := Idle]> ts)) in El by lia; pose proof (sum_flags_claims (<[i := Idle]> ts)).
  pose proof (sum_nonneg flags (<[i := Idle]> ts) (fun p => proj1 (flags_claims p))); lia.
Qed.

Lemma readers_few ts : sum reader ts <= Z.of_nat (length ts).
Proof.
  induction ts as [|p ts IH]; [reflexivity|]; change (reader p + sum reader ts <= Z.of_nat (S (length ts))).
  pose proof (reader_bit p); lia.
Qed.

(** What the invariant says of the numbers. *)
Lemma inv_numbers l ts : inv (l, ts) ->
  0 <= sum reader ts < X_LOCK_DECR /\ 0 <= sum claims ts <= 1 /\ sum claims ts <= sum locks ts /\
  0 <= sum setting ts <= sum waking ts /\ 0 <= sum setting_ex ts /\ 0 <= sum flags ts <= sum claims ts /\
  lock_word l = X_LOCK_DECR - sum reader ts - X_LOCK_DECR * sum locks ts /\ Z.b2z (recursive l) = sum flags ts /\
  (sum claims ts = 0 -> sum locks ts = 0).
Proof.
  intros [Hf Hw H1 Hr He Hl]; cbn [fst snd] in *.
  pose proof (sum_nonneg reader ts (fun p => proj1 (reader_bit p))); pose proof (readers_few ts).
  pose proof (sum_nonneg claims ts (fun p => proj1 (claims_bit p))).
  pose proof (sum_locks_claims ts (fun j p E => l_wf _ _ _ _ _ _ _ (Hl j p E))).
  pose proof (sum_nonneg setting ts (fun p => proj1 (setting_waking p))).
  pose proof (sum_le setting waking ts (fun p => proj2 (setting_waking p))).
  pose proof (sum_nonneg setting_ex ts setting_ex_nonneg); pose proof (sum_flags_claims ts).
  pose proof (sum_nonneg flags ts (fun p => proj1 (flags_claims p))).
  repeat split; try lia; intros Hc; apply sum_locks_zero; lia.
Qed.

(** ** Every step keeps it *)

(** The sums after a thread has gone from [p] to [p']. *)
Definition after (f : pc -> Z) (ts : list pc) (p p' : pc) : Z := sum f ts - f p + f p'.

(** What a step of thread [i] has to do for the invariant: the counts follow
    [lock_word] and [recursive]; what the other threads rely on is left to
    them; the thread itself is where it may be. *)
Record moves (i : nat) (l : rw_lock) (ts : list pc) (p : pc) (l' : rw_lock) (p' : pc) : Prop := {
  m_word : lock_word l' = lock_word l + (reader p - reader p') + X_LOCK_DECR * (locks p - locks p');
  m_one : claims p' <= claims p \/ sum claims ts = 0;
  m_rec : Z.b2z (recursive l') = Z.b2z (recursive l) - flags p + flags p';
  m_event : event l' = event l \/ event l' = fst (os_event_reset (event l)) \/ event l' = os_event_set (event l);
  m_ex : wait_ex_event l' = wait_ex_event l \/ wait_ex_event l' = fst (os_event_reset (wait_ex_event l)) \/
         wait_ex_event l' = os_event_set (wait_ex_event l);
  m_reader : reader p' <= reader p \/ sum claims ts = 0;
  m_writer : writer_thread l' = writer_thread l \/ writer_thread l' = i /\ claims p = 1;
  m_saved : lock_word l' = lock_word l \/ claims p = 1 \/ sum claims ts = 0 \/ reader p = 1;
  m_flagged : is_set (event l) = false -> signal_count (event l') = signal_count (event l) ->
    waiters l = true \/ 0 < sum setting ts -> waiters l' = true \/ 0 < after setting ts p p';
  m_waits : is_set (event l) = false -> signal_count (event l') = signal_count (event l) ->
    waiters l' = true \/ 0 < after setting ts p p' -> lock_word l <= 0 \/ 0 < sum waking ts ->
    lock_word l' <= 0 \/ 0 < after waking ts p p';
  m_waits_ex : claims p = 0 -> is_set (wait_ex_event l) = false -> signal_count (wait_ex_event l') = signal_count (wait_ex_event l) ->
    lock_word l < 0 \/ 0 < sum setting_ex ts -> lock_word l' < 0 \/ 0 < after setting_ex ts p p';
  m_self : local i l' (after reader ts p p') (after setting ts p p') (after waking ts p p') (after setting_ex ts p p') p' }.

Lemma event_moves e e' : e' = e \/ e' = fst (os_event_reset e) \/ e' = os_event_set e ->
  signal_count e <= signal_count e' /\
  (forall c, 1 <= c <= signal_count e -> (c = signal_count e -> is_set e = false) ->
     1 <= c <= signal_count e' /\ (c = signal_count e' -> is_set e' = false /\ is_set e = false /\ signal_count e' = signal_count e)).
Proof.
  destruct e as [b n]; unfold os_event_set; intros [->|[->| ->]]; cbn; try destruct b eqn:Eb; cbn; split; try lia;
    intros c Hc He; split; try lia; intros E; auto; specialize (He E); congruence.
Qed.

(** What another thread relies on. *)
Lemma moves_other i l ts p l' p' j q : moves i l ts p l' p' -> ts !! i = Some p -> ts !! j = Some q -> j <> i ->
  sum claims ts <= 1 ->
  local j l (sum reader ts) (sum setting ts) (sum waking ts) (sum setting_ex ts) q ->
  local j l' (after reader ts p p') (after setting ts p p') (after waking ts p p') (after setting_ex ts p p') q.
Proof.
  intros [Mw M1 Mr Me Mx MR MW Ms Mf Mt Mtx _] Hi Hj N H1 L.
  assert (claims q = 1 -> claims p = 0 /\ sum claims ts = 1) as C.
  { intros Cq; pose proof (sum_two claims ts i j p q (fun p => proj1 (claims_bit p)) (not_eq_sym N) Hi Hj); pose proof (claims_bit p); clear - H1 Cq H H0; lia. }
  pose proof (sum_two reader ts i j p q (fun p => proj1 (reader_bit p)) (not_eq_sym N) Hi Hj) as HR.
  pose proof (reader_bit p) as R1; pose proof (reader_bit p') as R2; pose proof (reader_bit q) as R3.
  destruct (event_moves _ _ Me) as (_ & Ev), (event_moves _ _ Mx) as (_ & Ex), L as [Lwf Ld Lm Lse Lst Lsa Lc Lf Lw Lcx Lwx].
  split.
  - exact Lwf.
  - intros D; pose proof (drained_claims q D) as Cq; specialize (C Cq); specialize (Ld D); unfold after; clear - C Ld MR HR R1 R2 R3; lia.
  - intros D; pose proof (C (mine_claims q D)) as C'; specialize (Lm D); destruct MW as [->|MW]; [exact Lm|clear - C' MW; lia].
  - intros w D; pose proof (C (seen_claims q w D)) as C'; specialize (Lse w D); destruct MW as [->|MW]; [exact Lse|clear - C' MW; lia].
  - intros D; specialize (Lst D); destruct MW as [->|[-> _]]; [exact Lst|congruence].
  - intros w D; destruct (saved_claims q w D) as [Cq Dq]; specialize (C Cq); specialize (Ld Dq); specialize (Lsa w D).
    destruct Ms as [->|Ms]; [exact Lsa|clear - C Ld Ms HR R3; lia].
  - intros c D; destruct (Lc c D) as [Hc He]; destruct (Ev c Hc He) as [A B]; split; [exact A|]; intros E; apply (B E).
  - intros c D E; destruct (Lc c (flagged_cell q c D)) as [Hc He]; destruct (Ev c Hc He) as [_ B]; destruct (B E) as (_ & B1 & B2).
    apply Mf; auto; apply (Lf c D); congruence.
  - intros c D E; pose proof (waits_flagged q c D) as F; destruct (Lc c (flagged_cell q c F)) as [Hc He]; destruct (Ev c Hc He) as [_ B].
    destruct (B E) as (_ & B1 & B2); apply Mt; [exact B1|exact B2| |apply (Lw c D); congruence].
    apply Mf; auto; apply (Lf c F); congruence.
  - intros c D; destruct (Lcx c D) as [Hc He]; destruct (Ex c Hc He) as [A B]; split; [exact A|]; intros E; apply (B E).
  - intros c D E; destruct (waits_ex_cell q c D) as [D' Cq]; destruct (Lcx c D') as [Hc He]; destruct (Ex c Hc He) as [_ B].
    destruct (B E) as (_ & B1 & B2); apply Mtx; auto; [apply (C Cq)|apply (Lwx c D); congruence].
Qed.

Lemma inv_moves i l ts p l' p' : inv (l, ts) -> ts !! i = Some p -> moves i l ts p l' p' -> inv (l', <[i := p']> ts).
Proof.
  intros I Hi M; pose proof (inv_numbers l ts I) as (_ & Nc & _); destruct I as [If Iw I1 Ir Ie Il]; cbn [fst snd] in *.
  assert (forall f, sum f (<[i := p']> ts) = after f ts p p') as E by (intros f; apply sum_insert, Hi).
  split; cbn [fst snd]; rewrite ?E.
  - rewrite length_insert; exact If.
  - rewrite (m_word _ _ _ _ _ _ M), Iw; unfold after; lia.
  - pose proof (claims_bit p); pose proof (claims_bit p'); pose proof (m_one _ _ _ _ _ _ M); unfold after; lia.
  - rewrite (m_rec _ _ _ _ _ _ M), Ir; unfold after; lia.
  - destruct (event_moves _ _ (m_event _ _ _ _ _ _ M)) as [A _], (event_moves _ _ (m_ex _ _ _ _ _ _ M)) as [B _]; lia.
  - intros j q Hj; destruct (decide (j = i)) as [->|Nj].
    + rewrite list_lookup_insert_eq in Hj by (eapply lookup_lt_Some; exact Hi); injection Hj as <-; apply (m_self _ _ _ _ _ _ M).
    + rewrite list_lookup_insert_ne in Hj by auto; apply (moves_other i l ts p l' p' j q M Hi Hj Nj I1), (Il j q Hj).
Qed.

(** What is known of the thread that takes the step. *)
Lemma inv_thread i l ts p p' : inv (l, ts) -> ts !! i = Some p ->
  (0 <= sum reader ts < X_LOCK_DECR /\ 0 <= sum claims ts <= 1 /\ sum claims ts <= sum locks ts /\ 0 <= sum setting_ex ts /\ 0 <= sum setting ts /\
   lock_word l = X_LOCK_DECR - sum reader ts - X_LOCK_DECR * sum locks ts /\ Z.b2z (recursive l) = sum flags ts /\
   (sum claims ts = 0 -> sum locks ts = 0)) /\
  (reader p <= sum reader ts /\ claims p <= sum claims ts /\ setting_ex p <= sum setting_ex ts /\
   0 <= after setting ts p p' <= after waking ts p p' /\ waking p <= sum waking ts /\
   (claims p = 1 -> sum locks ts = locks p /\ sum flags ts = flags p)) /\
  1 <= signal_count (event l) /\ 1 <= signal_count (wait_ex_event l) /\
  local i l (sum reader ts) (sum setting ts) (sum waking ts) (sum setting_ex ts) p.
Proof.
  intros I Hi; pose proof (inv_numbers l ts I) as (NR & NC & NL & NS & NE & NF & NW & Nr & N0).
  split; [repeat split; try lia; exact N0|]; split; [|exact (conj (proj1 (i_event _ I)) (conj (proj2 (i_event _ I)) (i_local _ I i p Hi)))].
  pose proof (sum_one reader ts i p (fun p => proj1 (reader_bit p)) Hi).
  pose proof (sum_one claims ts i p (fun p => proj1 (claims_bit p)) Hi).
  pose proof (sum_one waking ts i p (fun p => Z.le_trans _ _ _ (proj1 (setting_waking p)) (proj2 (setting_waking p))) Hi).
  pose proof (sum_one setting_ex ts i p setting_ex_nonneg Hi).
  pose proof (sum_insert setting ts i p p' Hi); pose proof (sum_insert waking ts i p p' Hi).
  pose proof (sum_nonneg setting (<[i := p']> ts) (fun p => proj1 (setting_waking p))).
  pose proof (sum_le setting waking (<[i := p']> ts) (fun p => proj2 (setting_waking p))).
  unfold after; repeat split; try lia; intros; apply (sole_claim ts i p Hi (proj2 NC)); assumption.
Qed.

(** The cases of a list of steps. *)
Ltac steps H :=
  repeat match type of H with
  | In _ (map _ _) => cbn [map s_failed x_failed calls] in H
  | In _ (_ ++ _) => apply in_app_or in H as [H|H]
  | In _ [] => destruct H
  | In _ (_ :: _) => destruct H as [H|H]; [injection H as <- <-|]
  | False => destruct H
  | In _ (if ?b then _ else _) => let E := fresh "E" in destruct b eqn:E
  end.

(** What is known of the thread that takes the step, with names. *)
Ltac numbers I Hi :=
  lazymatch goal with |- moves ?i ?l ?ts ?p ?l' ?p' =>
    destruct (inv_thread i l ts p p' I Hi) as ((NR & NC & NL & NE & NS & NW & Nr & N0) & (PR & PC & PE & PS & PK & Sole) & He & Hx & Lp);
    pose proof (l_wf _ _ _ _ _ _ _ Lp) as Wf; pose proof (l_drained _ _ _ _ _ _ _ Lp) as Dr;
    pose proof (l_seen _ _ _ _ _ _ _ Lp) as Se; pose proof (l_saved _ _ _ _ _ _ _ Lp) as Sa; pose proof (l_mine _ _ _ _ _ _ _ Lp) as Me
  end.

(** The thread itself: what it relies on it knew before, or has just read. *)
Ltac self :=
  lazymatch goal with Lp : local _ _ _ _ _ _ _ |- local _ _ _ _ _ _ _ =>
    constructor; cbn; rewrite ?Z.sub_0_r, ?Z.add_0_r; try discriminate; try solve [eauto];
    try exact (l_cell _ _ _ _ _ _ _ Lp); try exact (l_flagged _ _ _ _ _ _ _ Lp); try exact (l_waits _ _ _ _ _ _ _ Lp);
    try exact (l_drained _ _ _ _ _ _ _ Lp); try exact (l_mine _ _ _ _ _ _ _ Lp); try exact (l_cell_ex _ _ _ _ _ _ _ Lp);
    try (intros ? [= <-]); try lia; try tauto
  end.

Ltac moving I Hi :=
  repeat lazymatch goal with |- moves _ _ _ _ _ (if ?b then _ else _) => destruct b eqn:? end;
  numbers I Hi; unfold X_LOCK_DECR, after in *; cbn in *; repeat match goal with
    | H : forall w, Some ?x = Some w -> _ |- _ => specialize (H _ eq_refl)
    | H : true = true -> _ |- _ => specialize (H eq_refl)
    end;
  try lazymatch goal with H : 1 = 1 -> _ /\ _ |- _ => destruct (H eq_refl); clear H end;
  constructor; cbn; unfold X_LOCK_DECR, after; cbn; auto; try lia; try self;
  try (unfold os_event_set; intros; repeat lazymatch goal with H : is_set _ = false |- _ => rewrite H in *; clear H end; cbn in *; lia).

Lemma s_lock_moves i l ts p l' p' : inv (l, ts) -> ts !! i = Some p -> In (l', p') (s_lock_step l p) -> moves i l ts p l' p'.
Proof.
  intros I Hi Hs; destruct p; cbn [s_lock_step os_event_reset] in Hs; try contradiction; steps Hs; try destruct a; steps Hs.
  all: moving I Hi.
Qed.

Lemma s_unlock_moves i l ts p l' p' : inv (l, ts) -> ts !! i = Some p -> In (l', p') (s_unlock_step l p) -> moves i l ts p l' p'.
Proof.
  intros I Hi Hs; destruct p; cbn [s_unlock_step] in Hs; try contradiction; steps Hs.
  all: moving I Hi.
Qed.

Lemma x_wait_moves i l ts p l' p' : inv (l, ts) -> ts !! i = Some p -> In (l', p') (x_wait_step l p) -> moves i l ts p l' p'.
Proof.
  intros I Hi Hs; destruct p; cbn [x_wait_step os_event_reset] in Hs; try contradiction; steps Hs.
  all: try destruct pass.
  all: moving I Hi.
Qed.

Lemma x_lock_moves i l ts p l' p' : inv (l, ts) -> ts !! i = Some p -> In (l', p') (x_lock_step l p) -> moves i l ts p l' p'.
Proof.
  intros I Hi Hs; destruct p; cbn [x_lock_step os_event_reset] in Hs; try contradiction; steps Hs.
  all: try destruct h as [[rec n]|].
  all: moving I Hi.
Qed.

Lemma x_unlock_moves i l ts p l' p' : inv (l, ts) -> ts !! i = Some p -> In (l', p') (x_unlock_step l p) -> moves i l ts p l' p'.
Proof.
  intros I Hi Hs; destruct p; cbn [x_unlock_step] in Hs; try contradiction; steps Hs.
  all: try destruct rec.
  all: moving I Hi.
Qed.


(** A thread without the latch finds another one in [writer_thread]. *)
Lemma writer_other i l ts p : inv (l, ts) -> ts !! i = Some p -> flags p = 0 -> recursive l = true -> writer_thread l <> i.
Proof.
  intros I Hi Hf Hr; pose proof (i_rec _ I) as Er; cbn [fst snd] in Er; rewrite Hr in Er; cbn in Er.
  destruct (sum_pos flags ts) as (j & q & Hj & Hq); [lia|]; pose proof (flags_claims q); pose proof (claims_bit q).
  pose proof (l_mine _ _ _ _ _ _ _ (i_local _ I j q Hj)) as Hm; cbn [fst] in Hm; intros E.
  assert ((flags q =? 1) = true) as F by lia; rewrite Hm in E; [subst j; rewrite Hi in Hj; injection Hj as <-; lia|unfold mine; rewrite F; destruct q; reflexivity].
Qed.

Lemma x_low_moves i l ts p l' p' : inv (l, ts) -> ts !! i = Some p -> In (l', p') (x_low_step i l p) -> moves i l ts p l' p'.
Proof.
  intros I Hi Hs; pose proof (l_wf _ _ _ _ _ _ _ (i_local _ I i p Hi)) as W; pose proof (l_stranger _ _ _ _ _ _ _ (i_local _ I i p Hi)) as St.
  pose proof (writer_other i l ts p I Hi) as Wo.
  destruct p; cbn [x_low_step] in Hs; try contradiction.
  all: try destruct a; try destruct h as [[rec' n']|]; try destruct rec; try destruct drain; try destruct pass; try destruct rec'.
  all: try (exfalso; cbn in W; intuition congruence).
  all: cbn [andb orb negb] in Hs; steps Hs.
  all: cbn in St, W, Wo.
  all: moving I Hi.
Qed.

Lemma move_moves i l ts p l' p' : inv (l, ts) -> ts !! i = Some p -> In (l', p') (move_step i l p) -> moves i l ts p l' p'.
Proof.
  intros I Hi Hs; destruct p; try destruct rec; cbn [move_step] in Hs; try contradiction; steps Hs.
  all: moving I Hi.
Qed.

Lemma calls_moves i l ts p p' : inv (l, ts) -> ts !! i = Some p -> In p' (calls p) -> moves i l ts p l p'.
Proof.
  intros I Hi Hs; destruct p; try destruct rec; cbn [calls] in Hs; try contradiction.
  all: repeat (destruct Hs as [<-|Hs]; [moving I Hi|]); try destruct Hs.
Qed.

Lemma tstep_inv i l ts p l' p' : inv (l, ts) -> ts !! i = Some p -> In (l', p') (tstep i l p) -> inv (l', <[i := p']> ts).
Proof.
  intros I Hi Hs; apply (inv_moves i l ts p l' p' I Hi); unfold tstep in Hs.
  repeat (apply in_app_or in Hs as [Hs|Hs]).
  - apply in_map_iff in Hs as (x & [= <- <-] & Hs); apply calls_moves; assumption.
  - apply s_lock_moves; assumption.
  - apply s_unlock_moves; assumption.
  - apply x_low_moves; assumption.
  - apply x_wait_moves; assumption.
  - apply x_lock_moves; assumption.
  - apply x_unlock_moves; assumption.
  - apply move_moves; assumption.
Qed.

Lemma hand_over_inv i j l ts n : inv (l, ts) -> ts !! i = Some (XHeld false n) -> ts !! j = Some Idle ->
  inv (l, <[j := XHeld false n]> (<[i := Idle]> ts)).
Proof.
  intros I Hi Hj; assert (j <> i) as N by congruence.
  assert (forall f, sum f (<[j := XHeld false n]> (<[i := Idle]> ts)) = sum f ts) as E.
  { intros f; rewrite (sum_insert f _ j Idle) by (rewrite list_lookup_insert_ne; auto); rewrite (sum_insert f ts i _ _ Hi); lia. }
  pose proof (i_local _ I i _ Hi) as L; destruct I as [If Iw I1 Ir Ie Il]; cbn [fst snd] in *.
  split; cbn [fst snd]; rewrite ?E, ?length_insert; auto.
  intros k q Hk; destruct (decide (k = j)) as [->|Nj].
  - rewrite list_lookup_insert_eq in Hk by (rewrite length_insert; eapply lookup_lt_Some; exact Hj); injection Hk as <-.
    constructor; cbn; try discriminate; [exact (l_wf _ _ _ _ _ _ _ L)|intros _; exact (l_drained _ _ _ _ _ _ _ L eq_refl)].
  - rewrite list_lookup_insert_ne in Hk by auto; destruct (decide (k = i)) as [->|Ni]; [|rewrite list_lookup_insert_ne in Hk by auto; auto].
    rewrite list_lookup_insert_eq in Hk by (eapply lookup_lt_Some; exact Hi); injection Hk as <-.
    constructor; cbn; try discriminate; exact Logic.I.
Qed.

Lemma inv_init n : Z.of_nat n < X_LOCK_DECR -> inv (init n).
Proof.
  intros Hn; split; cbn [init fst snd]; rewrite ?sum_replicate, ?length_replicate; cbn; try lia.
  intros j p H; apply lookup_replicate_1 in H as [-> _]; constructor; cbn; try discriminate; exact Logic.I.
Qed.

(** Every state the threads get to from a new latch. *)
Lemma inv_reachable n s : Z.of_nat n < X_LOCK_DECR -> rtc step (init n) s -> inv s.
Proof.
  intros Hn H; remember (init n) as s0 eqn:E; assert (inv s0) as I by (subst; apply inv_init, Hn); clear E.
  induction H as [s|s s1 s2 S _ IH]; [exact I|]; apply IH; destruct S; [eapply tstep_inv|apply hand_over_inv]; eassumption.
Qed.

(** A thread that has taken the lock again has seen the readers go. *)
Lemma locks_drained p : 2 <= locks p -> drained p = true.
Proof.
  destruct p; unfold locks, drained; cbn; try lia; try (destruct h as [[rec' n']|]; cbn; lia); try (destruct drain; cbn; lia); auto.
Qed.

(** The counts the invariant leaves open: no claim, a claim with readers left,
    or the exclusive lock. *)
Lemma inv_modes l ts : inv (l, ts) ->
  (sum claims ts = 0 /\ sum locks ts = 0) \/ (sum claims ts = 1 /\ sum locks ts = 1) \/
  (sum claims ts = 1 /\ 2 <= sum locks ts /\ sum reader ts = 0).
Proof.
  intros I; pose proof (inv_numbers l ts I) as (NR & NC & NL & _ & _ & _ & _ & _ & N0).
  destruct (Z.eq_dec (sum claims ts) 0) as [E|E]; [left; auto|right].
  destruct (sum_pos claims ts) as (j & q & Hj & Hq); [lia|]; pose proof (claims_bit q).
  destruct (sole_claim ts j q Hj (proj2 NC)) as [El _]; [lia|].
  destruct (Z.eq_dec (sum locks ts) 1) as [E1|E1]; [left; lia|right].
  repeat split; try lia; apply (l_drained _ _ _ _ _ _ _ (i_local _ I j q Hj)), locks_drained; lia.
Qed.

Lemma rem_word R n : 0 <= R < X_LOCK_DECR -> 0 <= n ->
  Z.rem (- (X_LOCK_DECR - R - X_LOCK_DECR * (n + 1))) X_LOCK_DECR = R /\
  Z.quot (- (X_LOCK_DECR - R - X_LOCK_DECR * (n + 1))) X_LOCK_DECR = n.
Proof.
  intros HR Hn; assert (X_LOCK_DECR > 0) by reflexivity.
  replace (- (X_LOCK_DECR - R - X_LOCK_DECR * (n + 1))) with (X_LOCK_DECR * n + R) by lia.
  rewrite Z.rem_mod_nonneg, Z.quot_div_nonneg by nia.
  split; symmetry; [apply Z.mod_unique with n|apply Z.div_unique with R]; lia.
Qed.

(** ** A run *)

(** The threads of a schedule take their steps, by the number of the step. *)
Fixpoint run (s : state) (schedule : list (nat * nat)) : option state :=
  match schedule with
  | [] => Some s
  | (i, k) :: schedule =>
      match snd s !! i with
      | Some p => match tstep i (fst s) p !! k with Some (l, q) => run (l, <[i := q]> (snd s)) schedule | None => None end
      | None => None
      end
  end.

Lemma run_reachable s schedule s' : run s schedule = Some s' -> rtc step s s'.
Proof.
  revert s; induction schedule as [|[i k] schedule IH]; intros [l ts] H; cbn in H; [injection H as <-; constructor|].
  destruct (ts !! i) as [p|] eqn:Hi; [|discriminate]; destruct (tstep i l p !! k) as [[l1 q]|] eqn:Hk; [|discriminate].
  apply rtc_l with (l1, <[i := q]> ts); [|apply IH, H].
  apply step_thread with p; [exact Hi|]; apply list_elem_of_In, list_elem_of_lookup; exists k; exact Hk.
Qed.

(** One thread takes the latch in exclusive mode, another one sleeps for it. *)
Definition contended : list (nat * nat) :=
  [(0, 2); (0, 0); (0, 0); (0, 0); (0, 0); (0, 0); (0, 0);
   (1, 0); (1, 0); (1, 1); (1, 1); (1, 0); (1, 0); (1, 0)]%nat.

Definition contended_latch : rw_lock := mkLock 0 true true 0 (mkEvent false 1) (mkEvent false 1).

Lemma contended_run : rtc step (init 2) (contended_latch, [XHeld true 1; SWait 1]).
Proof. apply run_reachable with contended; vm_compute; reflexivity. Qed.

(** ** No lost wake-up *)

(** The thread sleeps and no signal has been given. *)
Definition blocked (l : rw_lock) (p : pc) : bool :=
  match p with
  | SWait cell | XWait _ _ cell => negb (os_event_wait_low (event l) cell)
  | XDrainWait _ cell => negb (os_event_wait_low (wait_ex_event l) cell)
  | _ => false
  end.

(** The thread has the latch or is about to signal. *)
Definition owes (p : pc) : bool := (0 <? reader p) || (0 <? claims p) || (0 <? waking p) || (0 <? setting_ex p).

Lemma wait_low_blocks e c : 1 <= c -> os_event_wait_low e c = false -> c = signal_count e.
Proof.
  unfold os_event_wait_low; intros Hc; destruct (c =? 0) eqn:E; [lia|cbn [negb]].
  intros H; apply Bool.orb_false_iff in H as [_ H]; lia.
Qed.

Lemma owes_reader ts : 0 < sum reader ts -> exists j, ts !! j = Some SHeld.
Proof. intros H; destruct (sum_pos reader ts H) as (j & q & Hj & Hq); exists j; destruct q; cbn in Hq; try lia; exact Hj. Qed.

(** A thread the latch is not free for, or that has been promised a signal, is
    not the only one to wait. *)
Lemma claimer_moves l ts : inv (l, ts) -> 0 < sum claims ts \/ 0 < sum waking ts ->
  exists j q, ts !! j = Some q /\ owes q = true /\ blocked l q = false.
Proof.
  intros I [H|H].
  - destruct (sum_pos claims ts H) as (j & q & Hj & Hq); destruct (blocked l q) eqn:B; [|exists j, q; unfold owes; repeat split; auto; lia].
    pose proof (i_local _ I j q Hj) as L; cbn [fst snd] in L; pose proof (l_wf _ _ _ _ _ _ _ L) as W.
    destruct q; try discriminate B; try (destruct h as [[r m]|]; cbn in W; [contradiction|cbn in Hq; lia]); [cbn in Hq; lia|].
    pose proof (l_cell_ex _ _ _ _ _ _ _ L cell0 eq_refl) as [Hc _]; cbn in B; apply negb_true_iff in B.
    apply wait_low_blocks in B; [|lia]; destruct (l_waits_ex _ _ _ _ _ _ _ L cell0 eq_refl B) as [Hw|Hs].
    + pose proof (inv_numbers l ts I) as (_ & NC & _ & _ & _ & _ & NW & _); destruct (sole_claim ts j _ Hj (proj2 NC) eq_refl) as [El _].
      cbn in El; destruct (owes_reader ts) as [k Hk]; [unfold X_LOCK_DECR in *; lia|exists k, SHeld; auto].
    + destruct (sum_pos setting_ex ts Hs) as (k & r & Hk & Hr); exists k, r; destruct r; cbn in Hr; try lia; auto.
  - destruct (sum_pos waking ts H) as (j & q & Hj & Hq); exists j, q; destruct q; cbn in Hq; try lia; auto.
Qed.

(** ** What the latch promises *)

(** C5. At most one thread has the latch in exclusive mode, and then no thread has it
    in shared mode; no assertion of the functions fails. *)
Theorem rw_lock_excludes n l ts : Z.of_nat n < X_LOCK_DECR -> rtc step (init n) (l, ts) ->
  (forall i p, ts !! i = Some p -> p <> Crashed) /\
  (forall i j p q, ts !! i = Some p -> ts !! j = Some q -> i <> j -> drained p = true -> drained q = false /\ q <> SHeld).
Proof.
  intros Hn H; pose proof (inv_reachable n _ Hn H) as I; split.
  - intros i p Hi ->; exact (l_wf _ _ _ _ _ _ _ (i_local _ I i _ Hi)).
  - intros i j p q Hi Hj N Hd; pose proof (drained_claims p Hd); pose proof (i_one _ I); cbn [snd] in *.
    pose proof (sum_two claims ts i j p q (fun p => proj1 (claims_bit p)) N Hi Hj).
    pose proof (l_drained _ _ _ _ _ _ _ (i_local _ I i p Hi) Hd); cbn [snd] in *; split.
    + destruct (drained q) eqn:Dq; [pose proof (drained_claims q Dq); lia|reflexivity].
    + intros ->; pose proof (sum_one reader ts j SHeld (fun p => proj1 (reader_bit p)) Hj); cbn in *; lia.
Qed.

Lemma rw_lock_excludes_witness : drained (SWait 1) = false /\ SWait 1 <> SHeld.
Proof.
  apply (proj2 (rw_lock_excludes 2 contended_latch [XHeld true 1; SWait 1] ltac:(vm_compute; reflexivity) contended_run)
           0%nat 1%nat (XHeld true 1) (SWait 1)); try reflexivity; discriminate.
Defined.

(** The functions that read [lock_word] count the threads: its readers, and the
    times the exclusive lock is held once the readers are gone. *)
Theorem rw_lock_counts n l ts : Z.of_nat n < X_LOCK_DECR -> rtc step (init n) (l, ts) ->
  rw_lock_get_reader_count l = sum reader ts /\
  rw_lock_get_x_lock_count l = (if sum reader ts =? 0 then sum locks ts else 0) /\
  rw_lock_get_writer l =
    (if sum claims ts =? 0 then RW_LOCK_NOT_LOCKED else if sum reader ts =? 0 then RW_LOCK_EX else RW_LOCK_WAIT_EX) /\
  rw_lock_validate l = true.
Proof.
  intros Hn H; pose proof (inv_reachable n _ Hn H) as I; pose proof (inv_modes l ts I) as M.
  pose proof (inv_numbers l ts I) as (NR & NC & NL & _ & _ & _ & NW & _ & _).
  pose proof (rem_word (sum reader ts) (sum locks ts - 1) NR) as Rw; replace (sum locks ts - 1 + 1) with (sum locks ts) in Rw by lia.
  rewrite <- NW in Rw; unfold rw_lock_get_reader_count, rw_lock_get_x_lock_count, rw_lock_get_writer, rw_lock_validate.
  destruct (Z.eq_dec (sum claims ts) 0) as [E|E].
  - assert (sum locks ts = 0) as El by lia; rewrite E, El in *; assert ((lock_word l >? 0) = true) as -> by lia.
    cbn [orb Z.eqb]; repeat split; try lia; destruct (sum reader ts =? 0); reflexivity.
  - destruct Rw as [Rr Rq]; [lia|]; rewrite Rr, Rq; assert ((lock_word l >? 0) = false) as -> by (unfold X_LOCK_DECR in *; lia).
    assert ((sum claims ts =? 0) = false) as -> by lia; unfold X_LOCK_DECR in *.
    repeat split; try lia; try (destruct (sum reader ts =? 0) eqn:Er; cbn; lia).
    destruct (_ && _) eqn:B; lia.
Qed.

Lemma rw_lock_counts_witness :
  rw_lock_get_x_lock_count contended_latch = 1 /\ rw_lock_get_writer contended_latch = RW_LOCK_EX.
Proof.
  destruct (rw_lock_counts 2 contended_latch [XHeld true 1; SWait 1] ltac:(vm_compute; reflexivity) contended_run)
    as (_ & Hx & Hw & _).
  split; [rewrite Hx|rewrite Hw]; vm_compute; reflexivity.
Defined.

(** C6. While a thread sleeps on the latch, another one that has the latch, is next
    to have it, or is about to signal, does not sleep: no wake-up is lost, and
    the threads never all wait for each other. *)
Theorem sleeper_has_waker n l ts i p : Z.of_nat n < X_LOCK_DECR -> rtc step (init n) (l, ts) ->
  ts !! i = Some p -> blocked l p = true ->
  exists j q, ts !! j = Some q /\ owes q = true /\ blocked l q = false.
Proof.
  intros Hn H Hi B; pose proof (inv_reachable n _ Hn H) as I; apply (claimer_moves l ts I).
  pose proof (i_local _ I i p Hi) as L; cbn [fst snd] in L; pose proof (inv_modes l ts I) as M.
  pose proof (inv_numbers l ts I) as (NR & NC & _ & _ & _ & _ & NW & _).
  assert (waits p <> None \/ 0 < claims p) as [Hw|Hc] by (destruct p; try discriminate B; cbn; auto; right; reflexivity).
  - destruct (waits p) as [c|] eqn:Ew; [|congruence].
    assert (c = signal_count (event l)) as Ec.
    { destruct (l_cell _ _ _ _ _ _ _ L c (flagged_cell p c (waits_flagged p c Ew))) as [Hc _].
      apply wait_low_blocks; [lia|]; destruct p; try discriminate B; try discriminate Ew; injection Ew as ->; apply negb_true_iff, B. }
    destruct (l_waits _ _ _ _ _ _ _ L c Ew Ec) as [H0|H0]; [left|right; exact H0].
    unfold X_LOCK_DECR in *; lia.
  - left; pose proof (sum_one claims ts i p (fun p => proj1 (claims_bit p)) Hi); lia.
Qed.

Lemma sleeper_has_waker_witness :
  exists j q, [XHeld true 1; SWait 1] !! j = Some q /\ owes q = true /\ blocked contended_latch q = false.
Proof.
  apply (sleeper_has_waker 2 contended_latch [XHeld true 1; SWait 1] 1 (SWait 1) ltac:(vm_compute; reflexivity) contended_run);
    reflexivity.
Defined.
