(* ===== verification/InnoLock.v ===== *)
(** The lock system of InnoDB: [src/plugin/innobase/lock/lock0lock.cc].

    Transactions lock tables and records.  A lock object stands for a table, or
    for a set of records of one page given by a bitmap.  The locks of a page are
    a chain of a hash table and the locks of a table a list, both in the order of
    their creation; here all locks are one list, [locks], and the queue of a page
    or table are those of the list that belong to it.  The list of the locks of a
    transaction has the same order.  A request that conflicts with a lock ahead of
    it waits, if the search for a deadlock lets it.

    All functions run under the kernel mutex, so each one is a step.  [None] is an
    assertion that fails, or the end of the fuel of a search.  Not modelled are
    AUTO_INC locks, the moves of locks when pages are split, merged or
    reorganized, and implicit locks. *)

From Stdlib Require Import ZArith Lia List Bool PeanoNat.
From S2P Require Import Prelude Words.
Import ListNotations.
Local Open Scope Z_scope.
Local Open Scope fail_scope.

(** ** Modes *)

(** src/plugin/innobase/include/lock0types.h:35-44 lock_mode *)
Definition LOCK_IS : Z := 0.
Definition LOCK_IX : Z := 1.
Definition LOCK_S : Z := 2.
Definition LOCK_X : Z := 3.
Definition LOCK_AUTO_INC : Z := 4.
Definition LOCK_NUM : Z := 5.

(** The parts of a [type_mode], [lock0lock.h] lines 757 to 792. *)
Definition LOCK_MODE_MASK : Z := 15.
Definition LOCK_TABLE : Z := 16.
Definition LOCK_REC : Z := 32.
Definition LOCK_TYPE_MASK : Z := 240.
Definition LOCK_WAIT : Z := 256.
Definition LOCK_GAP : Z := 512.
Definition LOCK_REC_NOT_GAP : Z := 1024.
Definition LOCK_INSERT_INTENTION : Z := 2048.

Definition PAGE_HEAP_NO_SUPREMUM : nat := 1.

Definition has (m flag : Z) : bool := negb (Z.land m flag =? 0).
Definition without (m flags : Z) : Z := Z.ldiff m flags.

(** src/plugin/innobase/lock/lock0lock.cc:310-311 LK *)
Definition LK (a b : Z) : Z := Z.shiftl 1 (a * LOCK_NUM + b).
Definition LKS (a b : Z) : Z := Z.lor (LK a b) (LK b a).

(** src/plugin/innobase/lock/lock0lock.cc:317-321 LOCK_MODE_COMPATIBILITY *)
Definition LOCK_MODE_COMPATIBILITY : Z :=
  fold_left Z.lor [LK LOCK_IS LOCK_IS; LK LOCK_IX LOCK_IX; LK LOCK_S LOCK_S; LKS LOCK_IX LOCK_IS; LKS LOCK_IS LOCK_AUTO_INC;
    LKS LOCK_S LOCK_IS; LKS LOCK_AUTO_INC LOCK_IS; LKS LOCK_AUTO_INC LOCK_IX] 0.

(** src/plugin/innobase/lock/lock0lock.cc:336-342 LOCK_MODE_STRONGER_OR_EQ *)
Definition LOCK_MODE_STRONGER_OR_EQ : Z :=
  fold_left Z.lor [LK LOCK_IS LOCK_IS; LK LOCK_IX LOCK_IS; LK LOCK_IX LOCK_IX; LK LOCK_S LOCK_IS; LK LOCK_S LOCK_S;
    LK LOCK_AUTO_INC LOCK_AUTO_INC; LK LOCK_X LOCK_IS; LK LOCK_X LOCK_IX; LK LOCK_X LOCK_S; LK LOCK_X LOCK_AUTO_INC; LK LOCK_X LOCK_X] 0.

(** src/plugin/innobase/lock/lock0lock.cc:863-876 lock_mode_stronger_or_eq *)
Definition lock_mode_stronger_or_eq (mode1 mode2 : Z) : bool := has LOCK_MODE_STRONGER_OR_EQ (LK mode1 mode2).

(** src/plugin/innobase/lock/lock0lock.cc:881-894 lock_mode_compatible *)
Definition lock_mode_compatible (mode1 mode2 : Z) : bool := has LOCK_MODE_COMPATIBILITY (LK mode1 mode2).

(** ** State *)

(** What a lock is on. *)
Inductive place : Type :=
  | Page (space page_no : Z)
  | Table (table_id : Z).

Definition place_eqb (p q : place) : bool :=
  match p, q with
  | Page s n, Page s' n' => (s =? s') && (n =? n')
  | Table t, Table t' => t =? t'
  | _, _ => false
  end.

(** src/plugin/innobase/include/lock0priv.h:57-84 lock_struct

    With [lock_rec_struct]; the number stands for the address. *)
Record lock : Type := mkLock {
  l_id : nat;
  l_trx : nat;
  type_mode : Z;
  l_place : place;
  bitmap : list bool
}.

Definition set_mode (m : Z) (l : lock) : lock := mkLock (l_id l) (l_trx l) m (l_place l) (bitmap l).
Definition set_bitmap (b : list bool) (l : lock) : lock := mkLock (l_id l) (l_trx l) (type_mode l) (l_place l) b.

(** What the lock system uses of a transaction; [lock_wait] is [que_state] being
    [TRX_QUE_LOCK_WAIT]. *)
Record trx : Type := mkTrx {
  wait_lock : option nat;
  lock_wait : bool;
  undo_no : Z;
  notrans_edit : bool;
  chosen_as_victim : bool
}.

Definition set_wait_lock (w : option nat) (t : trx) : trx := mkTrx w (lock_wait t) (undo_no t) (notrans_edit t) (chosen_as_victim t).
Definition set_lock_wait (b : bool) (t : trx) : trx := mkTrx (wait_lock t) b (undo_no t) (notrans_edit t) (chosen_as_victim t).
Definition set_victim (b : bool) (t : trx) : trx := mkTrx (wait_lock t) (lock_wait t) (undo_no t) (notrans_edit t) b.

Record sys : Type := mkSys { locks : list lock; trxs : nat -> trx; next_id : nat }.

Definition upd_trx (i : nat) (f : trx -> trx) (s : sys) : sys :=
  mkSys (locks s) (fun j => if Nat.eqb j i then f (trxs s j) else trxs s j) (next_id s).

Definition upd_lock (i : nat) (f : lock -> lock) (s : sys) : sys :=
  mkSys (map (fun l => if Nat.eqb (l_id l) i then f l else l) (locks s)) (trxs s) (next_id s).

Definition the_lock (s : sys) (i : nat) : option lock := find (fun l => Nat.eqb (l_id l) i) (locks s).

(** The queue of a page ([lock_rec_get_first_on_page_addr],
    [lock_rec_get_next_on_page]) or a table. *)
Definition queue (s : sys) (p : place) : list lock := filter (fun l => place_eqb (l_place l) p) (locks s).

(** ** Lock objects *)

(** src/plugin/innobase/lock/lock0lock.cc:610-619 lock_get_mode *)
Definition lock_get_mode (l : lock) : Z := Z.land (type_mode l) LOCK_MODE_MASK.

(** src/plugin/innobase/lock/lock0lock.cc:624-638 lock_get_wait *)
Definition lock_get_wait (l : lock) : bool := has (type_mode l) LOCK_WAIT.

(** src/plugin/innobase/lock/lock0lock.cc:803-818 lock_rec_get_gap *)
Definition lock_rec_get_gap (l : lock) : bool := has (type_mode l) LOCK_GAP.

(** src/plugin/innobase/lock/lock0lock.cc:823-838 lock_rec_get_rec_not_gap *)
Definition lock_rec_get_rec_not_gap (l : lock) : bool := has (type_mode l) LOCK_REC_NOT_GAP.

(** src/plugin/innobase/lock/lock0lock.cc:843-858 lock_rec_get_insert_intention *)
Definition lock_rec_get_insert_intention (l : lock) : bool := has (type_mode l) LOCK_INSERT_INTENTION.

(** src/plugin/innobase/lock/lock0lock.cc:415-437 lock_rec_get_nth_bit *)
Definition lock_rec_get_nth_bit (l : lock) (i : nat) : bool := nth i (bitmap l) false.

Fixpoint set_nth (b : list bool) (i : nat) (v : bool) : list bool :=
  match b, i with
  | [], _ => []
  | _ :: b', O => v :: b'
  | x :: b', S i' => x :: set_nth b' i' v
  end.

(** src/plugin/innobase/lock/lock0lock.cc:1030-1048 lock_rec_set_nth_bit *)
Definition lock_rec_set_nth_bit (i : nat) (l : lock) : lock := set_bitmap (set_nth (bitmap l) i true) l.

(** src/plugin/innobase/lock/lock0lock.cc:1076-1095 lock_rec_reset_nth_bit *)
Definition lock_rec_reset_nth_bit (i : nat) (l : lock) : lock := set_bitmap (set_nth (bitmap l) i false) l.

Fixpoint find_bit (b : list bool) (i : nat) : option nat :=
  match b with
  | [] => None
  | x :: b' => if (x : bool) then Some i else find_bit b' (S i)
  end.

(** src/plugin/innobase/lock/lock0lock.cc:1055-1072 lock_rec_find_set_bit *)
Definition lock_rec_find_set_bit (l : lock) : option nat := find_bit (bitmap l) 0.

(** ** Conflicts *)

(** src/plugin/innobase/lock/lock0lock.cc:899-976 lock_rec_has_to_wait *)
Definition lock_rec_has_to_wait (t : nat) (mode : Z) (lock2 : lock) (on_supremum : bool) : bool :=
  if negb (Nat.eqb t (l_trx lock2)) && negb (lock_mode_compatible (Z.land LOCK_MODE_MASK mode) (lock_get_mode lock2)) then
    if (on_supremum || has mode LOCK_GAP) && negb (has mode LOCK_INSERT_INTENTION) then false
    else if negb (has mode LOCK_INSERT_INTENTION) && lock_rec_get_gap lock2 then false
    else if has mode LOCK_GAP && lock_rec_get_rec_not_gap lock2 then false
    else if lock_rec_get_insert_intention lock2 then false
    else true
  else false.

Definition is_rec (l : lock) : bool := match l_place l with Page _ _ => true | Table _ => false end.

(** src/plugin/innobase/lock/lock0lock.cc:981-1012 lock_has_to_wait *)
Definition lock_has_to_wait (lock1 lock2 : lock) : bool :=
  if negb (Nat.eqb (l_trx lock1) (l_trx lock2)) && negb (lock_mode_compatible (lock_get_mode lock1) (lock_get_mode lock2)) then
    if is_rec lock1 then lock_rec_has_to_wait (l_trx lock1) (type_mode lock1) lock2 (lock_rec_get_nth_bit lock1 PAGE_HEAP_NO_SUPREMUM)
    else true
  else false.

(** The locks of a queue before the lock with the number [i]. *)
Fixpoint before (ls : list lock) (i : nat) : list lock :=
  match ls with
  | [] => []
  | l :: ls' => if Nat.eqb (l_id l) i then [] else l :: before ls' i
  end.

(** src/plugin/innobase/lock/lock0lock.cc:2127-2160 lock_rec_has_to_wait_in_queue *)
Definition lock_rec_has_to_wait_in_queue (s : sys) (wait : lock) : bool :=
  match lock_rec_find_set_bit wait with
  | None => false
  | Some heap_no =>
      existsb (fun l => lock_rec_get_nth_bit l heap_no && lock_has_to_wait wait l) (before (queue s (l_place wait)) (l_id wait))
  end.

(** src/plugin/innobase/lock/lock0lock.cc:3926-3953 lock_table_has_to_wait_in_queue *)
Definition lock_table_has_to_wait_in_queue (s : sys) (wait : lock) : bool :=
  existsb (lock_has_to_wait wait) (before (queue s (l_place wait)) (l_id wait)).

Definition has_to_wait_in_queue (s : sys) (wait : lock) : bool :=
  if is_rec wait then lock_rec_has_to_wait_in_queue s wait else lock_table_has_to_wait_in_queue s wait.

(** ** Waiting and granting *)

(** src/plugin/innobase/lock/lock0lock.cc:768-780 lock_set_lock_and_trx_wait *)
Definition lock_set_lock_and_trx_wait (i t : nat) (s : sys) : sys :=
  upd_lock i (fun l => set_mode (Z.lor (type_mode l) LOCK_WAIT) l) (upd_trx t (set_wait_lock (Some i)) s).

(** src/plugin/innobase/lock/lock0lock.cc:785-798 lock_reset_lock_and_trx_wait *)
Definition lock_reset_lock_and_trx_wait (l : lock) (s : sys) : sys :=
  upd_lock (l_id l) (fun l => set_mode (without (type_mode l) LOCK_WAIT) l) (upd_trx (l_trx l) (set_wait_lock None) s).

(** src/plugin/innobase/trx/trx0trx.cc:1099-1121 trx_end_lock_wait *)
Definition trx_end_lock_wait (t : nat) (s : sys) : sys := upd_trx t (set_lock_wait false) s.

(** src/plugin/innobase/lock/lock0lock.cc:2165-2205 lock_grant *)
Definition lock_grant (l : lock) (s : sys) : sys :=
  let s := lock_reset_lock_and_trx_wait l s in
  if lock_wait (trxs s (l_trx l)) then trx_end_lock_wait (l_trx l) s else s.

(** The waiting locks among those with the numbers [ids] that do not have to wait
    any more are granted: lines 2262 to 2276, 3979 to 3989 and 4041 to 4051. *)
Definition grant_one (s : sys) (i : nat) : sys :=
  match the_lock s i with
  | Some l => if lock_get_wait l && negb (has_to_wait_in_queue s l) then lock_grant l s else s
  | None => s
  end.

Definition grant_waiting (s : sys) (ids : list nat) : sys := fold_left grant_one ids s.

Definition remove (i : nat) (s : sys) : sys := mkSys (filter (fun l => negb (Nat.eqb (l_id l) i)) (locks s)) (trxs s) (next_id s).

(** src/plugin/innobase/lock/lock0lock.cc:2236-2278 lock_rec_dequeue_from_page *)
Definition lock_rec_dequeue_from_page (l : lock) (s : sys) : sys :=
  let s := remove (l_id l) s in
  grant_waiting s (map l_id (queue s (l_place l))).

(** The locks of a queue after the lock with the number [i]. *)
Fixpoint after (ls : list lock) (i : nat) : list lock :=
  match ls with
  | [] => []
  | l :: ls' => if Nat.eqb (l_id l) i then ls' else after ls' i
  end.

(** src/plugin/innobase/lock/lock0lock.cc:3959-3990 lock_table_dequeue

    With [lock_table_remove_low]. *)
Definition lock_table_dequeue (l : lock) (s : sys) : sys :=
  let rest := map l_id (after (queue s (l_place l)) (l_id l)) in
  grant_waiting (remove (l_id l) s) rest.

Definition dequeue (l : lock) (s : sys) : sys :=
  if is_rec l then lock_rec_dequeue_from_page l s else lock_table_dequeue l s.

(** src/plugin/innobase/lock/lock0lock.cc:4125-4154 lock_cancel_waiting_and_release

    The lock whose wait flag is reset in the end is in no queue any more. *)
Definition lock_cancel_waiting_and_release (l : lock) (s : sys) : sys :=
  trx_end_lock_wait (l_trx l) (upd_trx (l_trx l) (set_wait_lock None) (dequeue l s)).

(** ** Deadlocks *)

(** src/plugin/innobase/include/trx0trx.h:422-422 TRX_WEIGHT *)
Definition TRX_WEIGHT (s : sys) (t : nat) : Z :=
  undo_no (trxs s t) + zlen (filter (fun l => Nat.eqb (l_trx l) t) (locks s)).

(** src/plugin/innobase/trx/trx0trx.cc:1802-1839 trx_weight_ge *)
Definition trx_weight_ge (s : sys) (a b : nat) : bool :=
  if negb (Bool.eqb (notrans_edit (trxs s a)) (notrans_edit (trxs s b))) then notrans_edit (trxs s a)
  else TRX_WEIGHT s a >=? TRX_WEIGHT s b.

(** src/plugin/innobase/lock/lock0lock.cc:375-377 LOCK_VICTIM_IS_START *)
Inductive verdict : Type := NO_DEADLOCK | LOCK_VICTIM_IS_START | LOCK_VICTIM_IS_OTHER | LOCK_EXCEED_MAX_DEPTH.

Definition LOCK_MAX_N_STEPS_IN_DEADLOCK_CHECK : Z := 1000000.
Definition LOCK_MAX_DEPTH_IN_DEADLOCK_CHECK : Z := 200.

Definition mem (t : nat) (ts : list nat) : bool := existsb (Nat.eqb t) ts.

(** The locks ahead of a waiting lock that the search looks at: those of the
    record from the first one on, those of a table from the last one on. *)
Definition ahead (s : sys) (wait : lock) : option (list lock) :=
  let ls := before (queue s (l_place wait)) (l_id wait) in
  if is_rec wait then
    match lock_rec_find_set_bit wait with
    | Some heap_no => Some (filter (fun l => lock_rec_get_nth_bit l heap_no) ls)
    | None => None
    end
  else Some (rev ls).

Definition found : Type := verdict * sys * Z * list nat.

(** src/plugin/innobase/lock/lock0lock.cc:3406-3560 lock_deadlock_recursive

    The loop over the locks ahead of [wait]; [search] is the recursive call. *)
Fixpoint look_ahead (search : nat -> lock -> Z -> list nat -> option found) (s : sys) (start t : nat) (wait : lock) (depth : Z)
    (ls : list lock) (cost : Z) (marks : list nat) : option found :=
  match ls with
  | [] => Some (NO_DEADLOCK, s, cost, t :: marks)
  | l :: ls' =>
      let next := look_ahead search s start t wait depth ls' in
      if lock_has_to_wait wait l then
        let too_far := (depth >? LOCK_MAX_DEPTH_IN_DEADLOCK_CHECK) || (cost >? LOCK_MAX_N_STEPS_IN_DEADLOCK_CHECK) in
        let lock_trx := l_trx l in
        if Nat.eqb lock_trx start then
          if trx_weight_ge s (l_trx wait) start then Some (LOCK_VICTIM_IS_START, s, cost, marks)
          else
            let s := upd_trx (l_trx wait) (set_victim true) s in
            Some (LOCK_VICTIM_IS_OTHER, lock_cancel_waiting_and_release wait s, cost, marks)
        else if too_far then Some (LOCK_EXCEED_MAX_DEPTH, s, cost, marks)
        else if lock_wait (trxs s lock_trx) then
          let? i := wait_lock (trxs s lock_trx) in
          let? wait' := the_lock s i in
          let? (ret, s', cost, marks) := search lock_trx wait' cost marks in
          match ret with
          | NO_DEADLOCK => next cost marks
          | _ => Some (ret, s', cost, marks)
          end
        else next cost marks
      else next cost marks
  end.

(** src/plugin/innobase/lock/lock0lock.cc:3341-3561 lock_deadlock_recursive

    The verdict, the state, the cost, and the transactions that are marked. *)
Fixpoint lock_deadlock_recursive (fuel : nat) (s : sys) (start t : nat) (wait : lock) (cost depth : Z) (marks : list nat)
    : option found :=
  match fuel with
  | O => None
  | S fuel' =>
      if mem t marks then Some (NO_DEADLOCK, s, cost, marks)
      else
        let? ls := ahead s wait in
        look_ahead (fun t wait cost marks => lock_deadlock_recursive fuel' s start t wait cost (depth + 1) marks)
          s start t wait depth ls (cost + 1) marks
  end.

(** The depth of the recursion is at most 201. *)
Definition search_fuel : nat := 203.

(** src/plugin/innobase/lock/lock0lock.cc:3259-3331 lock_deadlock_occurs

    [fuel] bounds the victims. *)
Fixpoint lock_deadlock_occurs (fuel : nat) (s : sys) (i t : nat) (cost : Z) : option (bool * sys) :=
  match fuel with
  | O => None
  | S fuel' =>
      let? l := the_lock s i in
      let? (v, s, cost, _) := lock_deadlock_recursive search_fuel s t t l cost 0 [] in
      match v with
      | LOCK_VICTIM_IS_OTHER => lock_deadlock_occurs fuel' s i t cost
      | LOCK_EXCEED_MAX_DEPTH | LOCK_VICTIM_IS_START => Some (true, s)
      | NO_DEADLOCK => Some (false, s)
      end
  end.

(** ** Requests for records *)

(** src/plugin/innobase/include/db0err.h:31-42 db_err *)
Inductive db_err : Type := DB_SUCCESS_LOCKED_REC | DB_SUCCESS | DB_LOCK_WAIT | DB_DEADLOCK.

(** src/plugin/innobase/lock/lock0lock.cc:1655-1726 lock_rec_create

    [n_heap] is [page_dir_get_n_heap] of the page.  The number of the new lock
    is returned. *)
Definition lock_rec_create (mode : Z) (p : place) (n_heap heap_no t : nat) (s : sys) : sys * nat :=
  let mode := if Nat.eqb heap_no PAGE_HEAP_NO_SUPREMUM then without mode (Z.lor LOCK_GAP LOCK_REC_NOT_GAP) else mode in
  let n_bytes := (1 + (n_heap + 64) / 8)%nat in
  let i := next_id s in
  let l := mkLock i t (Z.lor (without mode LOCK_TYPE_MASK) LOCK_REC) p (repeat false (n_bytes * 8)) in
  let s := mkSys (locks s ++ [lock_rec_set_nth_bit heap_no l]) (trxs s) (S i) in
  (if has mode LOCK_WAIT then lock_set_lock_and_trx_wait i t s else s, i).

Definition on_record (s : sys) (p : place) (heap_no : nat) : list lock :=
  filter (fun l => lock_rec_get_nth_bit l heap_no) (queue s p).

(** src/plugin/innobase/lock/lock0lock.cc:1395-1438 lock_rec_has_expl *)
Definition lock_rec_has_expl (mode : Z) (p : place) (heap_no t : nat) (s : sys) : bool :=
  let sup := Nat.eqb heap_no PAGE_HEAP_NO_SUPREMUM in
  existsb (fun l =>
    Nat.eqb (l_trx l) t && lock_mode_stronger_or_eq (lock_get_mode l) (Z.land mode LOCK_MODE_MASK) && negb (lock_get_wait l)
    && (negb (lock_rec_get_rec_not_gap l) || has mode LOCK_REC_NOT_GAP || sup)
    && (negb (lock_rec_get_gap l) || has mode LOCK_GAP || sup)
    && negb (lock_rec_get_insert_intention l)) (on_record s p heap_no).

(** src/plugin/innobase/lock/lock0lock.cc:1493-1537 lock_rec_other_has_conflicting *)
Definition lock_rec_other_has_conflicting (mode : Z) (p : place) (heap_no t : nat) (s : sys) : bool :=
  existsb (fun l => lock_rec_has_to_wait t mode l (Nat.eqb heap_no PAGE_HEAP_NO_SUPREMUM)) (on_record s p heap_no).

(** src/plugin/innobase/lock/lock0lock.cc:1544-1567 lock_rec_find_similar_on_page *)
Definition lock_rec_find_similar_on_page (mode : Z) (heap_no t : nat) (ls : list lock) : option lock :=
  find (fun l => Nat.eqb (l_trx l) t && (type_mode l =? mode) && Nat.ltb heap_no (List.length (bitmap l))) ls.

(** src/plugin/innobase/lock/lock0lock.cc:1735-1826 lock_rec_enqueue_waiting

    The query thread is not stopped for another reason. *)
Definition lock_rec_enqueue_waiting (mode : Z) (p : place) (n_heap heap_no t : nat) (s : sys) : option (db_err * sys) :=
  let '(s, i) := lock_rec_create (Z.lor mode LOCK_WAIT) p n_heap heap_no t s in
  let? (deadlock, s) := lock_deadlock_occurs (S (List.length (locks s))) s i t 0 in
  let? l := the_lock s i in
  if (deadlock : bool) then
    Some (DB_DEADLOCK, upd_lock i (lock_rec_reset_nth_bit heap_no) (lock_reset_lock_and_trx_wait l s))
  else
    match wait_lock (trxs s t) with
    | None => Some (DB_SUCCESS_LOCKED_REC, s)
    | Some _ => Some (DB_LOCK_WAIT, upd_trx t (fun x => set_victim false (set_lock_wait true x)) s)
    end.

(** src/plugin/innobase/lock/lock0lock.cc:1836-1922 lock_rec_add_to_queue *)
Definition lock_rec_add_to_queue (mode : Z) (p : place) (n_heap heap_no t : nat) (s : sys) : sys :=
  let mode := Z.lor mode LOCK_REC in
  let mode := if Nat.eqb heap_no PAGE_HEAP_NO_SUPREMUM then without mode (Z.lor LOCK_GAP LOCK_REC_NOT_GAP) else mode in
  let create := fst (lock_rec_create mode p n_heap heap_no t s) in
  if existsb (fun l => lock_get_wait l && lock_rec_get_nth_bit l heap_no) (queue s p) then create
  else if negb (has mode LOCK_WAIT) then
    match lock_rec_find_similar_on_page mode heap_no t (queue s p) with
    | Some l => upd_lock (l_id l) (lock_rec_set_nth_bit heap_no) s
    | None => create
    end
  else create.

(** src/plugin/innobase/lock/lock0lock.cc:1925-1932 lock_rec_req_status *)
Inductive lock_rec_req_status : Type := LOCK_REC_FAIL | LOCK_REC_SUCCESS | LOCK_REC_SUCCESS_CREATED.

(** src/plugin/innobase/lock/lock0lock.cc:1942-2008 lock_rec_lock_fast *)
Definition lock_rec_lock_fast (impl : bool) (mode : Z) (p : place) (n_heap heap_no t : nat) (s : sys) : lock_rec_req_status * sys :=
  match queue s p with
  | [] => (LOCK_REC_SUCCESS_CREATED, if impl then s else fst (lock_rec_create mode p n_heap heap_no t s))
  | [l] =>
      if negb (Nat.eqb (l_trx l) t) || negb (type_mode l =? Z.lor mode LOCK_REC) || Nat.leb (List.length (bitmap l)) heap_no then (LOCK_REC_FAIL, s)
      else if negb impl && negb (lock_rec_get_nth_bit l heap_no) then
        (LOCK_REC_SUCCESS_CREATED, upd_lock (l_id l) (lock_rec_set_nth_bit heap_no) s)
      else (LOCK_REC_SUCCESS, s)
  | _ => (LOCK_REC_FAIL, s)
  end.

(** src/plugin/innobase/lock/lock0lock.cc:2017-2070 lock_rec_lock_slow *)
Definition lock_rec_lock_slow (impl : bool) (mode : Z) (p : place) (n_heap heap_no t : nat) (s : sys) : option (db_err * sys) :=
  if lock_rec_has_expl mode p heap_no t s then Some (DB_SUCCESS, s)
  else if lock_rec_other_has_conflicting mode p heap_no t s then lock_rec_enqueue_waiting mode p n_heap heap_no t s
  else if negb impl then Some (DB_SUCCESS_LOCKED_REC, lock_rec_add_to_queue (Z.lor LOCK_REC mode) p n_heap heap_no t s)
  else Some (DB_SUCCESS, s).

(** src/plugin/innobase/lock/lock0lock.cc:2080-2122 lock_rec_lock *)
Definition lock_rec_lock (impl : bool) (mode : Z) (p : place) (n_heap heap_no t : nat) (s : sys) : option (db_err * sys) :=
  match lock_rec_lock_fast impl mode p n_heap heap_no t s with
  | (LOCK_REC_SUCCESS, s) => Some (DB_SUCCESS, s)
  | (LOCK_REC_SUCCESS_CREATED, s) => Some (DB_SUCCESS_LOCKED_REC, s)
  | (LOCK_REC_FAIL, s) => lock_rec_lock_slow impl mode p n_heap heap_no t s
  end.

(** src/plugin/innobase/lock/lock0lock.cc:5052-5172 lock_rec_insert_check_and_lock

    [heap_no] is the record after the place of the insertion.  Without the
    transaction number of the page. *)
Definition lock_rec_insert_check_and_lock (p : place) (n_heap heap_no t : nat) (s : sys) : option (db_err * bool * sys) :=
  match on_record s p heap_no with
  | [] => Some (DB_SUCCESS, false, s)
  | _ =>
      let mode := Z.lor LOCK_X (Z.lor LOCK_GAP LOCK_INSERT_INTENTION) in
      if lock_rec_other_has_conflicting mode p heap_no t s then
        let? (err, s) := lock_rec_enqueue_waiting mode p n_heap heap_no t s in
        Some (match err with DB_SUCCESS_LOCKED_REC => DB_SUCCESS | e => e end, true, s)
      else Some (DB_SUCCESS, true, s)
  end.

(** src/plugin/innobase/lock/lock0lock.cc:3998-4056 lock_rec_unlock

    A lock that is not found leaves a message. *)
Definition lock_rec_unlock (t : nat) (p : place) (heap_no : nat) (mode : Z) (s : sys) : option sys :=
  match find (fun l => Nat.eqb (l_trx l) t && (lock_get_mode l =? mode)) (on_record s p heap_no) with
  | None => Some s
  | Some l =>
      if lock_get_wait l then None
      else
        let ids := map l_id (on_record s p heap_no) in
        Some (grant_waiting (upd_lock (l_id l) (lock_rec_reset_nth_bit heap_no) s) ids)
  end.

(** ** Insertion and removal of records *)

(** src/plugin/innobase/lock/lock0lock.cc:2211-2230 lock_rec_cancel *)
Definition lock_rec_cancel (l : lock) (s : sys) : option sys :=
  let? heap_no := lock_rec_find_set_bit l in
  let s := upd_lock (l_id l) (lock_rec_reset_nth_bit heap_no) s in
  Some (trx_end_lock_wait (l_trx l) (lock_reset_lock_and_trx_wait l s)).

Fixpoint reset_and_release (heap_no : nat) (ids : list nat) (s : sys) : option sys :=
  match ids with
  | [] => Some s
  | i :: ids' =>
      let? l := the_lock s i in
      let? s := if lock_get_wait l then lock_rec_cancel l s else Some (upd_lock i (lock_rec_reset_nth_bit heap_no) s) in
      reset_and_release heap_no ids' s
  end.

(** src/plugin/innobase/lock/lock0lock.cc:2346-2369 lock_rec_reset_and_release_wait

    A turn of the loop changes no other lock, so the locks of the loop are those
    that are on the record at its start. *)
Definition lock_rec_reset_and_release_wait (p : place) (heap_no : nat) (s : sys) : option sys :=
  reset_and_release heap_no (map l_id (on_record s p heap_no)) s.

(** What a lock leaves to an heir: a gap lock of its mode. *)
Definition inherit (p : place) (n_heap heir : nat) (s : sys) (l : lock) : sys :=
  lock_rec_add_to_queue (Z.lor LOCK_REC (Z.lor LOCK_GAP (lock_get_mode l))) p n_heap heir (l_trx l) s.

(** src/plugin/innobase/lock/lock0lock.cc:2376-2418 lock_rec_inherit_to_gap

    Both records are on the same page.  [weak t]: the isolation level of [t] is
    READ COMMITTED or less, or [srv_locks_unsafe_for_binlog] is set.  The locks
    that the loop adds are not on the record that it goes through. *)
Definition lock_rec_inherit_to_gap (weak : nat -> bool) (p : place) (n_heap heir heap_no : nat) (s : sys) : sys :=
  fold_left (inherit p n_heap heir)
    (filter (fun l => negb (lock_rec_get_insert_intention l) && negb (weak (l_trx l) && (lock_get_mode l =? LOCK_X))) (on_record s p heap_no)) s.

(** src/plugin/innobase/lock/lock0lock.cc:2424-2455 lock_rec_inherit_to_gap_if_gap_lock *)
Definition lock_rec_inherit_to_gap_if_gap_lock (p : place) (n_heap heir heap_no : nat) (s : sys) : sys :=
  fold_left (inherit p n_heap heir)
    (filter (fun l => negb (lock_rec_get_insert_intention l) && (Nat.eqb heap_no PAGE_HEAP_NO_SUPREMUM || negb (lock_rec_get_rec_not_gap l)))
       (on_record s p heap_no)) s.

(** src/plugin/innobase/lock/lock0lock.cc:3127-3156 lock_update_insert

    [heap_no] is the new record, [next] the one after it. *)
Definition lock_update_insert (p : place) (n_heap heap_no next : nat) (s : sys) : sys :=
  lock_rec_inherit_to_gap_if_gap_lock p n_heap heap_no next s.

(** src/plugin/innobase/lock/lock0lock.cc:3160-3196 lock_update_delete *)
Definition lock_update_delete (weak : nat -> bool) (p : place) (n_heap heap_no next : nat) (s : sys) : option sys :=
  lock_rec_reset_and_release_wait p heap_no (lock_rec_inherit_to_gap weak p n_heap next heap_no s).

(** ** Requests for tables *)

(** src/plugin/innobase/lock/lock0lock.cc:3569-3616 lock_table_create *)
Definition lock_table_create (table_id mode : Z) (t : nat) (s : sys) : sys * nat :=
  let i := next_id s in
  let s := mkSys (locks s ++ [mkLock i t (Z.lor mode LOCK_TABLE) (Table table_id) []]) (trxs s) (S i) in
  (if has mode LOCK_WAIT then lock_set_lock_and_trx_wait i t s else s, i).

(** src/plugin/innobase/lock/lock0lock.cc:1354-1387 lock_table_has *)
Definition lock_table_has (t : nat) (table_id mode : Z) (s : sys) : bool :=
  existsb (fun l => Nat.eqb (l_trx l) t && lock_mode_stronger_or_eq (lock_get_mode l) mode) (rev (queue s (Table table_id))).

(** src/plugin/innobase/lock/lock0lock.cc:3828-3858 lock_table_other_has_incompatible

    With [LOCK_WAIT] for [wait], as [lock_table] calls it: waiting locks count
    too. *)
Definition lock_table_other_has_incompatible (t : nat) (table_id mode : Z) (s : sys) : bool :=
  existsb (fun l => negb (Nat.eqb (l_trx l) t) && negb (lock_mode_compatible (lock_get_mode l) mode)) (rev (queue s (Table table_id))).

(** src/plugin/innobase/lock/lock0lock.cc:3749-3822 lock_table_enqueue_waiting *)
Definition lock_table_enqueue_waiting (mode table_id : Z) (t : nat) (s : sys) : option (db_err * sys) :=
  let '(s, i) := lock_table_create table_id (Z.lor mode LOCK_WAIT) t s in
  let? (deadlock, s) := lock_deadlock_occurs (S (List.length (locks s))) s i t 0 in
  let? l := the_lock s i in
  if (deadlock : bool) then Some (DB_DEADLOCK, upd_trx (l_trx l) (set_wait_lock None) (remove i s))
  else
    match wait_lock (trxs s t) with
    | None => Some (DB_SUCCESS_LOCKED_REC, s)
    | Some _ => Some (DB_LOCK_WAIT, upd_trx t (fun x => set_victim false (set_lock_wait true x)) s)
    end.

(** src/plugin/innobase/lock/lock0lock.cc:3864-3921 lock_table

    With no flags. *)
Definition lock_table (table_id mode : Z) (t : nat) (s : sys) : option (db_err * sys) :=
  if lock_table_has t table_id mode s then Some (DB_SUCCESS, s)
  else if lock_table_other_has_incompatible t table_id mode s then lock_table_enqueue_waiting mode table_id t s
  else Some (DB_SUCCESS, fst (lock_table_create table_id mode t s)).

(** ** Release *)

(** src/plugin/innobase/lock/lock0lock.cc:4077-4115 lock_release_off_kernel

    One turn of the loop, on the last lock of the transaction; the kernel mutex
    may be released between two turns. *)
Definition release_last (t : nat) (s : sys) : option sys :=
  match rev (filter (fun l => Nat.eqb (l_trx l) t) (locks s)) with
  | [] => None
  | l :: _ => Some (dequeue l s)
  end.

(** src/plugin/innobase/lock/lock0lock.cc:4061-4120 lock_release_off_kernel

    Without the query cache. *)
Fixpoint lock_release_off_kernel (fuel : nat) (t : nat) (s : sys) : option sys :=
  match fuel with
  | O => None
  | S fuel' => match release_last t s with None => Some s | Some s => lock_release_off_kernel fuel' t s end
  end.
