(* ===== verification/InnoInv.v ===== *)
(** The invariant of the lock system of InnoDB, and that granting, releasing and
    creating locks keep it.

    Locks are numbered in the order of their creation, which is the order of
    every queue, so that a lock is ahead of another one of its queue if its
    number is less. *)

From Stdlib Require Import ZArith Lia List Bool PeanoNat Sorted Relations.
From S2P Require Import Prelude Words InnoLock.
Import ListNotations.
Local Open Scope Z_scope.

(** ** Flags *)

(** A mode without its wait flag. *)
Definition bare (m : Z) : Z := Z.ldiff m LOCK_WAIT.

Lemma has_bit m k : 0 <= k -> has m (2 ^ k) = Z.testbit m k.
Proof.
  intro Hk. unfold has.
  assert (E : Z.land m (2 ^ k) = if Z.testbit m k then 2 ^ k else 0).
  { apply Z.bits_inj'. intros n Hn. rewrite Z.land_spec, Z.pow2_bits_eqb by lia.
    destruct (Z.testbit m k) eqn:T.
    - rewrite Z.pow2_bits_eqb by lia. destruct (Z.eqb_spec k n) as [-> |]; [rewrite T|rewrite andb_false_r]; reflexivity.
    - rewrite Z.bits_0. destruct (Z.eqb_spec k n) as [<- |]; [rewrite T|rewrite andb_false_r]; reflexivity. }
  rewrite E. pose proof (Z.pow_pos_nonneg 2 k ltac:(lia) Hk). destruct (Z.testbit m k); simpl; [|reflexivity].
  apply negb_true_iff, Z.eqb_neq. lia.
Qed.

Lemma has_wait m : has m LOCK_WAIT = Z.testbit m 8.
Proof. exact (has_bit m 8 ltac:(lia)). Qed.
Lemma has_gap m : has m LOCK_GAP = Z.testbit m 9.
Proof. exact (has_bit m 9 ltac:(lia)). Qed.
Lemma has_rec_not_gap m : has m LOCK_REC_NOT_GAP = Z.testbit m 10.
Proof. exact (has_bit m 10 ltac:(lia)). Qed.
Lemma has_insert m : has m LOCK_INSERT_INTENTION = Z.testbit m 11.
Proof. exact (has_bit m 11 ltac:(lia)). Qed.

(** The mode and the flags are the only bits that matter. *)
Definition agree (ks : list Z) (m m' : Z) : Prop := forall k, In k ks -> Z.testbit m k = Z.testbit m' k.

Lemma mask_agree m m' : agree [0; 1; 2; 3] m m' -> Z.land m LOCK_MODE_MASK = Z.land m' LOCK_MODE_MASK.
Proof.
  intro H. apply Z.bits_inj'. intros n Hn. rewrite !Z.land_spec.
  destruct (Z_lt_ge_dec n 4) as [L|G].
  - f_equal. apply H. simpl. lia.
  - change LOCK_MODE_MASK with (Z.ones 4). rewrite Z.ones_spec_high by lia. now rewrite !andb_false_r.
Qed.

Ltac bits := unfold agree, without, bare; simpl In; intros;
  repeat match goal with H : _ \/ _ |- _ => destruct H as [<- |H] | H : False |- _ => destruct H end;
  rewrite ?Z.ldiff_spec, ?Z.lor_spec, ?Z.land_spec, ?Z.ldiff_spec, ?Z.lor_spec, ?Z.land_spec; try reflexivity;
  rewrite ?orb_false_r, ?andb_true_r; try reflexivity.

Lemma bare_agree m m' : bare m = bare m' -> agree [0; 1; 2; 3; 9; 10; 11] m m'.
Proof.
  intros E k Hk. assert (T : Z.testbit (bare m) k = Z.testbit (bare m') k) by now rewrite E.
  unfold bare in T. rewrite !Z.ldiff_spec in T. revert T. change LOCK_WAIT with (2 ^ 8).
  assert (0 <= k /\ k <> 8) by (simpl in Hk; lia). rewrite Z.pow2_bits_eqb by lia.
  destruct (Z.eqb_spec 8 k); [lia|]. simpl. now rewrite !andb_true_r.
Qed.

Lemma bare_set m : bare (Z.lor m LOCK_WAIT) = bare m.
Proof. apply Z.bits_inj'. intros n _. unfold bare. rewrite !Z.ldiff_spec, Z.lor_spec. now destruct (Z.testbit m n), (Z.testbit LOCK_WAIT n). Qed.
Lemma bare_reset m : bare (without m LOCK_WAIT) = bare m.
Proof. apply Z.bits_inj'. intros n _. unfold bare, without. rewrite !Z.ldiff_spec. now destruct (Z.testbit m n), (Z.testbit LOCK_WAIT n). Qed.

(** What a grant does not change of a lock. *)
Definition core (l : lock) : nat * nat * Z * place * list bool := (l_id l, l_trx l, bare (type_mode l), l_place l, bitmap l).

Lemma core_inv l l' : core l = core l' ->
  l_id l = l_id l' /\ l_trx l = l_trx l' /\ l_place l = l_place l' /\ bitmap l = bitmap l'
  /\ agree [0; 1; 2; 3; 9; 10; 11] (type_mode l) (type_mode l').
Proof. unfold core. intro E. injection E as -> -> M -> ->. auto 9 using bare_agree. Qed.

(** The mode, the gap flags and the insert flag. *)
Definition traits (m : Z) : Z * bool * bool * bool :=
  (Z.land m LOCK_MODE_MASK, has m LOCK_GAP, has m LOCK_REC_NOT_GAP, has m LOCK_INSERT_INTENTION).

Lemma traits_agree m m' : agree [0; 1; 2; 3; 9; 10; 11] m m' -> traits m = traits m'.
Proof.
  intro H. unfold traits. rewrite !has_gap, !has_rec_not_gap, !has_insert, (mask_agree m m'), (H 9), (H 10), (H 11); simpl; auto 9.
  intros k K. apply H. simpl in *. lia.
Qed.

Lemma rec_wait_traits t m m' l l' b : traits m = traits m' -> traits (type_mode l) = traits (type_mode l') -> l_trx l = l_trx l' ->
  lock_rec_has_to_wait t m l b = lock_rec_has_to_wait t m' l' b.
Proof.
  unfold traits. intros E E' T. injection E as E1 E2 E3 E4. injection E' as F1 F2 F3 F4.
  unfold lock_rec_has_to_wait, lock_get_mode, lock_rec_get_gap, lock_rec_get_rec_not_gap, lock_rec_get_insert_intention.
  rewrite !(Z.land_comm LOCK_MODE_MASK), T, E1, E2, E4, F1, F2, F3, F4. reflexivity.
Qed.

Lemma has_to_wait_core w w' l l' : core w = core w' -> core l = core l' -> lock_has_to_wait w l = lock_has_to_wait w' l'.
Proof.
  intros W L. destruct (core_inv _ _ W) as (_ & Tw & Pw & Bw & Aw), (core_inv _ _ L) as (_ & Tl & Pl & Bl & Al).
  apply traits_agree in Aw, Al. unfold lock_has_to_wait. pose proof Aw as Aw'. pose proof Al as Al'.
  unfold traits in Aw', Al'. injection Aw' as M _ _ _. injection Al' as N _ _ _.
  unfold is_rec, lock_get_mode, lock_rec_get_nth_bit. rewrite Tw, Tl, Pw, Bw, M, N.
  rewrite (rec_wait_traits _ _ (type_mode w') l l' _ Aw Al Tl). reflexivity.
Qed.

(** ** Bitmaps *)

Lemma nth_set_nth b i v j : nth j (set_nth b i v) false = if Nat.eqb j i && Nat.ltb i (List.length b) then v else nth j b false.
Proof.
  revert i j. induction b as [|x b IH]; intros [|i] [|j]; simpl; try reflexivity.
  - destruct (Nat.eqb j i); reflexivity.
  - rewrite IH. reflexivity.
Qed.

Lemma length_set_nth b i v : List.length (set_nth b i v) = List.length b.
Proof. revert i. induction b as [|x b IH]; intros [|i]; simpl; auto. Qed.

Lemma find_bit_one b h k : (forall j, nth j b false = Nat.eqb j h) -> find_bit b k = Some (k + h)%nat.
Proof.
  revert h k. induction b as [|x b IH]; intros h k H.
  - specialize (H h). rewrite Nat.eqb_refl in H. destruct h; discriminate.
  - destruct h as [|h]; simpl.
    + specialize (H 0%nat). simpl in H. subst x. f_equal. lia.
    + pose proof (H 0%nat) as E. simpl in E. subst x. rewrite (IH h); [f_equal; lia|]. intro j. exact (H (S j)).
Qed.

(** ** Queues *)

Lemma place_eqb_spec p q : reflect (p = q) (place_eqb p q).
Proof.
  destruct p as [a b|a], q as [c d|c]; simpl; try (constructor; congruence).
  - destruct (Z.eqb_spec a c), (Z.eqb_spec b d); constructor; congruence.
  - destruct (Z.eqb_spec a c); constructor; congruence.
Qed.

Lemma in_queue s p l : In l (queue s p) <-> In l (locks s) /\ l_place l = p.
Proof. unfold queue. rewrite filter_In. destruct (place_eqb_spec (l_place l) p); intuition congruence. Qed.

Lemma in_record s p h l : In l (on_record s p h) <-> In l (locks s) /\ l_place l = p /\ lock_rec_get_nth_bit l h = true.
Proof. unfold on_record. rewrite filter_In, in_queue. tauto. Qed.

Definition numbered (ls : list lock) : Prop := StronglySorted lt (map l_id ls).

Lemma numbered_filter f ls : numbered ls -> numbered (filter f ls).
Proof.
  unfold numbered. induction ls as [|l ls IH]; simpl; intro H; [constructor|]. inversion_clear H as [|? ? S F].
  destruct (f l); simpl; [constructor|]; auto. rewrite Forall_forall in *. intros x Hx. apply F.
  rewrite in_map_iff in *. destruct Hx as (y & <- & Hy). apply filter_In in Hy. exists y; tauto.
Qed.

Lemma numbered_inj ls l l' : numbered ls -> In l ls -> In l' ls -> l_id l = l_id l' -> l = l'.
Proof.
  unfold numbered. induction ls as [|x ls IH]; simpl; intros H I I' E; [easy|]. inversion_clear H as [|? ? S F].
  rewrite Forall_forall in F. destruct I as [<- |I], I' as [<- |I']; auto.
  - specialize (F (l_id l') (in_map _ _ _ I')). lia.
  - specialize (F (l_id l) (in_map _ _ _ I)). lia.
Qed.

Lemma in_before ls w l : numbered ls -> In w ls -> In l (before ls (l_id w)) <-> In l ls /\ (l_id l < l_id w)%nat.
Proof.
  unfold numbered. induction ls as [|x ls IH]; simpl; intros H I; [easy|]. inversion_clear H as [|? ? S F].
  rewrite Forall_forall in F. destruct (Nat.eqb_spec (l_id x) (l_id w)) as [E|N]; simpl.
  - split; [easy|]. intros [[<- |J] L]; [lia|]. specialize (F (l_id l) (in_map _ _ _ J)). lia.
  - destruct I as [<- |I]; [lia|]. specialize (IH S I). pose proof (F (l_id w) (in_map _ _ _ I)). intuition (subst; auto).
Qed.

Lemma in_after ls w l : numbered ls -> In w ls -> In l (after ls (l_id w)) <-> In l ls /\ (l_id w < l_id l)%nat.
Proof.
  unfold numbered. induction ls as [|x ls IH]; simpl; intros H I; [easy|]. inversion_clear H as [|? ? S F].
  rewrite Forall_forall in F. destruct (Nat.eqb_spec (l_id x) (l_id w)) as [E|N]; simpl.
  - assert (x = w) as -> by (apply (numbered_inj (x :: ls)); simpl; auto; constructor; auto; now apply Forall_forall).
    split; [|intros [[<- |J] L]; [lia|assumption]]. intro J. split; [now right|apply F, in_map, J].
  - destruct I as [<- |I]; [lia|]. specialize (IH S I). pose proof (F (l_id w) (in_map _ _ _ I)). intuition (subst; auto; lia).
Qed.

Lemma the_lock_in s i l : the_lock s i = Some l -> In l (locks s) /\ l_id l = i.
Proof. unfold the_lock. intro H. apply find_some in H. now rewrite Nat.eqb_eq in H. Qed.

Lemma the_lock_some s l : numbered (locks s) -> In l (locks s) -> the_lock s (l_id l) = Some l.
Proof.
  intros N I. unfold the_lock. destruct (find _ _) as [l'|] eqn:E.
  - apply find_some in E. rewrite Nat.eqb_eq in E. f_equal. apply (numbered_inj (locks s)); tauto.
  - apply find_none with (x := l) in E; [|assumption]. now rewrite Nat.eqb_refl in E.
Qed.

(** ** Blocking *)

(** A waiting lock is for one record, or a table. *)
Definition covers (w l : lock) : Prop :=
  if is_rec w then exists h, lock_rec_find_set_bit w = Some h /\ lock_rec_get_nth_bit l h = true else True.

(** [l] is ahead of [w], which has to wait for it. *)
Definition blocks (s : sys) (w l : lock) : Prop :=
  In l (locks s) /\ l_place l = l_place w /\ (l_id l < l_id w)%nat /\ covers w l /\ lock_has_to_wait w l = true.

Lemma in_queue_before s w l : numbered (locks s) -> In w (locks s) ->
  In l (before (queue s (l_place w)) (l_id w)) <-> In l (locks s) /\ l_place l = l_place w /\ (l_id l < l_id w)%nat.
Proof. intros N I. rewrite in_before, in_queue; [tauto|apply numbered_filter, N|now apply in_queue]. Qed.

Lemma has_to_wait_blocked s w : numbered (locks s) -> In w (locks s) ->
  has_to_wait_in_queue s w = true <-> exists l, blocks s w l.
Proof.
  intros N I. unfold has_to_wait_in_queue, lock_rec_has_to_wait_in_queue, lock_table_has_to_wait_in_queue, blocks, covers.
  destruct (is_rec w).
  - destruct (lock_rec_find_set_bit w) as [h|] eqn:H.
    + rewrite existsb_exists. setoid_rewrite (in_queue_before s w _ N I).
      split.
      * intros (l & (? & ? & ?) & B). apply andb_prop in B as [? ?]. exists l. repeat (split; [assumption|]). split; [exists h; auto|assumption].
      * intros (l & ? & ? & ? & (h' & E & ?) & ?). injection E as <-. exists l. split; [tauto|]. now apply andb_true_intro.
    + split; [easy|]. intros (l & _ & _ & _ & (h & E & _) & _). discriminate.
  - rewrite existsb_exists. setoid_rewrite (in_queue_before s w _ N I). split; intros (l & P); exists l; tauto.
Qed.

Lemma covers_core w w' l l' : core w = core w' -> core l = core l' -> covers w l <-> covers w' l'.
Proof.
  intros W L. destruct (core_inv _ _ W) as (_ & _ & Pw & Bw & _), (core_inv _ _ L) as (_ & _ & _ & Bl & _).
  unfold covers, is_rec, lock_rec_find_set_bit, lock_rec_get_nth_bit. rewrite Pw, Bw, Bl. tauto.
Qed.

Lemma ahead_blocks s w ls : numbered (locks s) -> In w (locks s) -> ahead s w = Some ls ->
  forall l, In l ls /\ lock_has_to_wait w l = true <-> blocks s w l.
Proof.
  intros N I A l. unfold ahead in A. unfold blocks, covers. destruct (is_rec w).
  - destruct (lock_rec_find_set_bit w) as [h|] eqn:H; [|discriminate]. injection A as <-.
    rewrite filter_In, (in_queue_before s w l N I). split; [intros (((? & ? & ?) & ?) & ?); repeat (split; [assumption|]); split; [exists h; auto|assumption]|].
    intros (? & ? & ? & (h' & E & ?) & ?). injection E as <-. tauto.
  - injection A as <-. rewrite <- in_rev, (in_queue_before s w l N I). tauto.
Qed.

(** ** The invariant *)

Definition is_some {A} (o : option A) : bool := match o with Some _ => true | None => false end.

(** The links between locks and transactions.  A transaction that is [busy]
    enqueues a request and is not yet in the state of waiting; one that is [gone]
    has lost the lock it waited for. *)
Record sound (busy gone : option nat) (s : sys) : Prop := mkSound {
  so_numbered : numbered (locks s);
  so_below : forall l, In l (locks s) -> (l_id l < next_id s)%nat;
  so_mode : forall l, In l (locks s) -> 0 <= lock_get_mode l <= 3;
  so_back : forall l, In l (locks s) -> lock_get_wait l = true -> wait_lock (trxs s (l_trx l)) = Some (l_id l) /\ Some (l_trx l) <> gone;
  so_forth : forall t i, Some t <> gone -> wait_lock (trxs s t) = Some i ->
    exists l, In l (locks s) /\ l_id l = i /\ l_trx l = t /\ lock_get_wait l = true;
  so_state : forall t, Some t <> busy -> Some t <> gone -> lock_wait (trxs s t) = is_some (wait_lock (trxs s t));
  so_busy : forall t, Some t = busy -> lock_wait (trxs s t) = false;
  so_bit : forall l, In l (locks s) -> lock_get_wait l = true -> is_rec l = true ->
    exists h, forall j, lock_rec_get_nth_bit l j = Nat.eqb j h
}.

(** The lock is on the record [h] itself, not on the gap before it, or on a table. *)
Definition holds_record (h : nat) (l : lock) : bool :=
  if is_rec l then lock_rec_get_nth_bit l h && negb (Nat.eqb h PAGE_HEAP_NO_SUPREMUM) && negb (lock_rec_get_gap l)
                   && negb (lock_rec_get_insert_intention l)
  else true.

(** Of two locks that exclude each other the later one waits. *)
Definition exclusive (s : sys) : Prop := forall h l1 l2, In l1 (locks s) -> In l2 (locks s) -> (l_id l1 < l_id l2)%nat ->
  l_place l1 = l_place l2 -> l_trx l1 <> l_trx l2 -> holds_record h l1 = true -> holds_record h l2 = true ->
  lock_mode_compatible (lock_get_mode l2) (lock_get_mode l1) = true \/ lock_get_wait l2 = true.

(** A waiting lock has to wait. *)
Definition blocked_if (P : lock -> Prop) (s : sys) : Prop :=
  forall w, In w (locks s) -> lock_get_wait w = true -> P w -> exists l, blocks s w l.

(** The transaction [t] waits for [u]. *)
Definition waits (s : sys) (t u : nat) : Prop :=
  lock_wait (trxs s t) = true
  /\ exists w l, In w (locks s) /\ lock_get_wait w = true /\ l_trx w = t /\ blocks s w l /\ l_trx l = u.

Definition acyclic (s : sys) : Prop := forall t, ~ clos_trans nat (waits s) t t.

Record inv (busy : option nat) (s : sys) : Prop := mkInv {
  i_sound : sound busy None s;
  i_exclusive : exclusive s;
  i_blocked : blocked_if (fun _ => True) s;
  i_acyclic : acyclic s
}.

(** ** Less of everything *)

(** [l'] is [l] with fewer records. *)
Definition part (l' l : lock) : Prop :=
  l_id l' = l_id l /\ l_trx l' = l_trx l /\ l_place l' = l_place l /\ traits (type_mode l') = traits (type_mode l)
  /\ forall j, lock_rec_get_nth_bit l' j = true -> lock_rec_get_nth_bit l j = true.

Lemma part_core l' l : core l' = core l -> part l' l.
Proof.
  intro C. apply core_inv in C as (I & T & P & B & A). unfold part, lock_rec_get_nth_bit. rewrite B. auto 9 using traits_agree.
Qed.

Lemma traits_mode m m' : traits m = traits m' -> Z.land m LOCK_MODE_MASK = Z.land m' LOCK_MODE_MASK.
Proof. unfold traits. congruence. Qed.

Lemma part_mode l' l : part l' l -> lock_get_mode l' = lock_get_mode l.
Proof. intros (_ & _ & _ & M & _). exact (traits_mode _ _ M). Qed.

Lemma part_holds h l' l : part l' l -> holds_record h l' = true -> holds_record h l = true.
Proof.
  intros (_ & _ & P & M & B). unfold traits in M. injection M as _ G _ N.
  unfold holds_record, is_rec, lock_rec_get_gap, lock_rec_get_insert_intention. rewrite P, G, N. destruct (l_place l); [|auto].
  rewrite !andb_true_iff. intuition.
Qed.

Lemma has_to_wait_part w' w l' l : part w' w -> bitmap w' = bitmap w -> part l' l -> lock_has_to_wait w' l' = lock_has_to_wait w l.
Proof.
  intros Pw Bw Pl. unfold lock_has_to_wait. rewrite (part_mode _ _ Pw), (part_mode _ _ Pl).
  destruct Pw as (_ & Tw & Qw & Mw & _), Pl as (_ & Tl & _ & Ml & _).
  unfold is_rec, lock_rec_get_nth_bit. rewrite Tw, Tl, Qw, Bw. now rewrite (rec_wait_traits _ _ _ _ l _ Mw Ml Tl).
Qed.

Lemma blocks_part s s' w' w l' l : part w' w -> bitmap w' = bitmap w -> part l' l -> In l (locks s) ->
  blocks s' w' l' -> blocks s w l.
Proof.
  intros Pw Bw Pl I (_ & Q & L & C & H). rewrite (has_to_wait_part _ _ _ _ Pw Bw Pl) in H.
  destruct Pw as (Iw & _ & Qw & _), Pl as (Il & _ & Ql & _ & Bl). unfold blocks. rewrite <- Iw, <- Il, <- Qw, <- Ql.
  repeat (split; [assumption|]). split; [|exact H]. revert C. unfold covers, is_rec, lock_rec_find_set_bit. rewrite Qw, Bw.
  destruct (l_place w); [|auto]. intros (h & E & B). eauto.
Qed.

(** [s'] has fewer locks, fewer records locked and fewer that wait. *)
Definition below (s' s : sys) : Prop :=
  (forall l', In l' (locks s') -> exists l, In l (locks s) /\ part l' l
     /\ (lock_get_wait l' = true -> lock_get_wait l = true /\ bitmap l' = bitmap l))
  /\ (forall t, lock_wait (trxs s' t) = true -> lock_wait (trxs s t) = true).

Lemma part_trans l3 l2 l1 : part l3 l2 -> part l2 l1 -> part l3 l1.
Proof. unfold part. intros (-> & -> & -> & -> & ?) (-> & -> & -> & -> & ?). auto 9. Qed.

Lemma below_refl s : below s s.
Proof. split; [intros l I; exists l; auto using part_core|auto]. Qed.

Lemma below_trans s3 s2 s1 : below s3 s2 -> below s2 s1 -> below s3 s1.
Proof.
  intros [A W] [B V]. split; [|auto]. intros l3 I. destruct (A _ I) as (l2 & I2 & P2 & Q2), (B _ I2) as (l1 & I1 & P1 & Q1).
  exists l1. split; [exact I1|]. split; [eapply part_trans; eauto|]. intro H. destruct (Q2 H) as [H2 E2], (Q1 H2) as [H1 E1].
  split; congruence.
Qed.

Lemma below_waits s' s t u : below s' s -> waits s' t u -> waits s t u.
Proof.
  intros [A W] (H & w' & l' & I & G & T & B & U). destruct (A _ I) as (w & Iw & Pw & Qw). destruct (Qw G) as [Gw Bw].
  destruct (A l' (proj1 B)) as (l & Il & Pl & _). split; [auto|]. exists w, l.
  assert (X : blocks s w l) by (eapply blocks_part; eauto). destruct Pw as (_ & Tw & _), Pl as (_ & Tl & _).
  split; [assumption|]. split; [assumption|]. split; [congruence|]. split; [assumption|congruence].
Qed.

Lemma acyclic_sub s' s : (forall t u, waits s' t u -> waits s t u) -> acyclic s -> acyclic s'.
Proof.
  intros S A t C. apply (A t). revert C. generalize t at 2 4. intros u C. induction C; [apply t_step; auto|eapply t_trans; eauto].
Qed.

(** ** Exclusion *)

Lemma lock_mode_compatible_sym a b : 0 <= a <= 3 -> 0 <= b <= 3 -> lock_mode_compatible a b = lock_mode_compatible b a.
Proof.
  intros A B. assert (a = 0 \/ a = 1 \/ a = 2 \/ a = 3) as Ha by lia. assert (b = 0 \/ b = 1 \/ b = 2 \/ b = 3) as Hb by lia.
  destruct Ha as [->|[->|[->| ->]]], Hb as [->|[->|[->| ->]]]; reflexivity.
Qed.

(** Two locks on a record that are not compatible conflict. *)
Lemma rec_conflict h t m l : t <> l_trx l -> lock_mode_compatible (Z.land m LOCK_MODE_MASK) (lock_get_mode l) = false ->
  h <> PAGE_HEAP_NO_SUPREMUM -> has m LOCK_GAP = false -> has m LOCK_INSERT_INTENTION = false ->
  is_rec l = true -> holds_record h l = true -> lock_rec_has_to_wait t m l (Nat.eqb h PAGE_HEAP_NO_SUPREMUM) = true.
Proof.
  intros T C H G N R K. unfold holds_record in K. rewrite R, !andb_true_iff, !negb_true_iff in K.
  destruct K as [[_ Gl] Nl]. unfold lock_rec_has_to_wait. apply Nat.eqb_neq in T, H. rewrite Z.land_comm, T, C, H, G, N, Gl, Nl.
  reflexivity.
Qed.

Lemma holds_blocks s h w l : (is_rec w = true -> exists h', forall j, lock_rec_get_nth_bit w j = Nat.eqb j h') ->
  In l (locks s) -> (l_id l < l_id w)%nat -> l_place l = l_place w -> l_trx l <> l_trx w ->
  holds_record h l = true -> holds_record h w = true -> lock_mode_compatible (lock_get_mode w) (lock_get_mode l) = false ->
  blocks s w l.
Proof.
  intros B I L P T Hl Hw C. unfold blocks. repeat (split; [assumption|]).
  assert (R : is_rec l = is_rec w) by (unfold is_rec; now rewrite P).
  unfold covers, lock_has_to_wait. apply not_eq_sym, Nat.eqb_neq in T as T'. rewrite T', C. simpl. destruct (is_rec w) eqn:Rw; [|auto].
  destruct (B eq_refl) as (h' & Bh). unfold holds_record in Hw. rewrite Rw, Bh in Hw. rewrite !andb_true_iff, !negb_true_iff in Hw.
  destruct Hw as [[[E N] G] J]. apply Nat.eqb_eq in E. subst h'. split.
  - exists h. split; [exact (find_bit_one _ _ 0 Bh)|]. unfold holds_record in Hl. rewrite R, !andb_true_iff in Hl. tauto.
  - rewrite Bh, Nat.eqb_sym. apply rec_conflict; auto. now apply Nat.eqb_neq.
Qed.

Lemma exclusive_part b g s s' : sound b g s -> exclusive s ->
  (forall l', In l' (locks s') -> exists l, In l (locks s) /\ part l' l
     /\ (lock_get_wait l = true -> lock_get_wait l' = true \/ (forall k, ~ blocks s l k))) ->
  exclusive s'.
Proof.
  intros So X A h l1' l2' I1 I2 L P T H1 H2. destruct (A _ I1) as (l1 & J1 & P1 & _), (A _ I2) as (l2 & J2 & P2 & W).
  rewrite (part_mode _ _ P1), (part_mode _ _ P2). pose proof (part_holds _ _ _ P1 H1) as K1. pose proof (part_holds _ _ _ P2 H2) as K2.
  destruct P1 as (D1 & T1 & Q1 & _), P2 as (D2 & T2 & Q2 & _). rewrite D1, D2 in L. rewrite Q1, Q2 in P. rewrite T1, T2 in T.
  destruct (X h l1 l2 J1 J2 L P T K1 K2) as [C|C]; [auto|]. destruct (W C) as [C'|N]; [auto|]. left.
  destruct (lock_mode_compatible _ _) eqn:E; [reflexivity|]. exfalso. apply (N l1), (holds_blocks s h); auto.
  exact (so_bit _ _ _ So _ J2 C).
Qed.

(** ** Granting *)

Lemma in_upd_lock s i f l' : In l' (locks (upd_lock i f s)) <-> exists l, In l (locks s) /\ l' = if Nat.eqb (l_id l) i then f l else l.
Proof. unfold upd_lock. simpl. rewrite in_map_iff. split; intros (l & A & B); eauto. Qed.

Lemma locks_upd_trx t f s : locks (upd_trx t f s) = locks s.
Proof. reflexivity. Qed.

Lemma trxs_upd t f s u : trxs (upd_trx t f s) u = if Nat.eqb u t then f (trxs s u) else trxs s u.
Proof. reflexivity. Qed.

Definition granted (l : lock) : lock := set_mode (without (type_mode l) LOCK_WAIT) l.

Lemma core_granted l : core (granted l) = core l.
Proof. unfold core, granted. simpl. now rewrite bare_reset. Qed.

Lemma wait_granted l : lock_get_wait (granted l) = false.
Proof. unfold lock_get_wait, granted. simpl. rewrite has_wait. unfold without. rewrite Z.ldiff_spec. apply andb_false_r. Qed.

Lemma lock_grant_locks w s : locks (lock_grant w s) = map (fun l => if Nat.eqb (l_id l) (l_id w) then granted l else l) (locks s).
Proof. unfold lock_grant. destruct (lock_wait _); reflexivity. Qed.

Lemma lock_grant_trx w s t : wait_lock (trxs (lock_grant w s) t) = (if Nat.eqb t (l_trx w) then None else wait_lock (trxs s t))
  /\ lock_wait (trxs (lock_grant w s) t) = (if Nat.eqb t (l_trx w) then false else lock_wait (trxs s t)).
Proof.
  unfold lock_grant, lock_reset_lock_and_trx_wait, trx_end_lock_wait. simpl. rewrite Nat.eqb_refl.
  destruct (lock_wait (set_wait_lock None (trxs s (l_trx w)))) eqn:E; simpl; destruct (Nat.eqb_spec t (l_trx w)) as [-> |]; auto.
Qed.

Lemma in_grant w s l' : In l' (locks (lock_grant w s)) <->
  exists l, In l (locks s) /\ l' = if Nat.eqb (l_id l) (l_id w) then granted l else l.
Proof. rewrite lock_grant_locks, in_map_iff. split; intros (l & A & B); eauto. Qed.

Lemma map_core_grant w s : map core (locks (lock_grant w s)) = map core (locks s).
Proof. rewrite lock_grant_locks, map_map. apply map_ext. intro l. destruct (Nat.eqb _ _); [apply core_granted|reflexivity]. Qed.

Lemma next_id_grant w s : next_id (lock_grant w s) = next_id s.
Proof. unfold lock_grant. destruct (lock_wait _); reflexivity. Qed.

Lemma map_core_ids ls ls' : map core ls' = map core ls -> map l_id ls' = map l_id ls.
Proof.
  intro E. change l_id with (fun l => fst (fst (fst (fst (core l))))).
  rewrite <- (map_map core (fun c => fst (fst (fst (fst c)))) ls'), E. apply map_map.
Qed.

Lemma core_wait_part l' l : core l' = core l -> lock_get_mode l' = lock_get_mode l /\ bitmap l' = bitmap l /\ is_rec l' = is_rec l.
Proof.
  intro C. split; [exact (part_mode _ _ (part_core _ _ C))|]. apply core_inv in C as (_ & _ & P & B & _). unfold is_rec. now rewrite P.
Qed.

(** A transaction waits for one lock. *)
Lemma wait_unique b g s w : sound b g s -> In w (locks s) -> lock_get_wait w = true ->
  forall l, In l (locks s) -> lock_get_wait l = true -> l_trx l = l_trx w -> l = w.
Proof.
  intros So I W l J V T. destruct (so_back _ _ _ So _ J V) as [E _], (so_back _ _ _ So _ I W) as [F _]. rewrite T, F in E.
  injection E as E. symmetry. exact (numbered_inj _ _ _ (so_numbered _ _ _ So) I J E).
Qed.

Section grant.
  Context (b g : option nat) (s : sys) (w : lock) (So : sound b g s) (I : In w (locks s)).
  Hypothesis only : forall l, In l (locks s) -> lock_get_wait l = true -> l_trx l = l_trx w -> l = w.

Lemma grant_old l' : In l' (locks (lock_grant w s)) ->
  exists l, In l (locks s) /\ core l' = core l /\ (l = w /\ lock_get_wait l' = false \/ l <> w /\ l' = l).
Proof.
  rewrite in_grant. intros (l & J & ->). exists l. split; [assumption|]. destruct (Nat.eqb_spec (l_id l) (l_id w)) as [E|N].
  - split; [apply core_granted|]. left. split; [|apply wait_granted]. exact (numbered_inj _ _ _ (so_numbered _ _ _ So) J I E).
  - split; [reflexivity|]. right. split; [congruence|reflexivity].
Qed.

Lemma grant_sound : sound b g (lock_grant w s).
Proof.
  destruct So as [A1 A2 A3 A4 A5 A6 A7 A8]. constructor.
  - unfold numbered. now rewrite (map_core_ids _ _ (map_core_grant w s)).
  - intros l' J. destruct (grant_old _ J) as (l & K & C & _). apply core_inv in C as (-> & _). rewrite next_id_grant. auto.
  - intros l' J. destruct (grant_old _ J) as (l & K & C & _). apply core_wait_part in C as (-> & _). auto.
  - intros l' J V. destruct (grant_old _ J) as (l & K & C & [[_ F]|[N ->]]); [congruence|].
    rewrite (proj1 (lock_grant_trx w s _)). destruct (Nat.eqb_spec (l_trx l) (l_trx w)) as [T|]; [|auto].
    now apply only in T.
  - intros t i G E. rewrite (proj1 (lock_grant_trx w s _)) in E. destruct (Nat.eqb_spec t (l_trx w)) as [|N]; [discriminate|].
    destruct (A5 t i G E) as (l & J & D & T & V). exists l. split; [|auto]. apply in_grant. exists l. split; [assumption|].
    destruct (Nat.eqb_spec (l_id l) (l_id w)) as [Z|]; [|reflexivity]. apply (numbered_inj _ _ _ A1 J I) in Z. congruence.
  - intros t B G. destruct (lock_grant_trx w s t) as [-> ->]. destruct (Nat.eqb t (l_trx w)); [reflexivity|auto].
  - intros t B. rewrite (proj2 (lock_grant_trx w s t)). destruct (Nat.eqb t (l_trx w)); [reflexivity|auto].
  - intros l' J V R. destruct (grant_old _ J) as (l & K & C & [[_ F]|[N ->]]); [congruence|auto].
Qed.

Lemma grant_below : below (lock_grant w s) s.
Proof.
  split.
  - intros l' J. destruct (grant_old _ J) as (l & K & C & D). exists l. split; [assumption|]. split; [now apply part_core|].
    intro V. destruct D as [[_ F]|[_ ->]]; [congruence|auto].
  - intros t. rewrite (proj2 (lock_grant_trx w s t)). destruct (Nat.eqb t (l_trx w)); [discriminate|auto].
Qed.

Lemma grant_exclusive : (forall k, ~ blocks s w k) -> exclusive s -> exclusive (lock_grant w s).
Proof.
  intros N X. apply (exclusive_part b g s); [assumption..|]. intros l' J. destruct (grant_old _ J) as (l & K & C & D).
  exists l. split; [assumption|]. split; [now apply part_core|]. intro V. destruct D as [[-> _]|[_ ->]]; auto.
Qed.

End grant.

(** Equal cores block alike. *)
Lemma blocked_core s s' w w' : map core (locks s') = map core (locks s) -> core w' = core w ->
  (exists l, blocks s w l) -> exists l, blocks s' w' l.
Proof.
  intros M C (l & B). assert (J : In (core l) (map core (locks s'))) by (rewrite M; apply in_map, B).
  apply in_map_iff in J as (l' & E & I). exists l'. apply (blocks_part s' s w w' l l'); auto using part_core, eq_sym.
  now apply core_wait_part.
Qed.

(** What a series of grants keeps. *)
Record grants (b g : option nat) (s s' : sys) : Prop := mkGrants {
  g_sound : sound b g s';
  g_exclusive : exclusive s';
  g_below : below s' s;
  g_core : map core (locks s') = map core (locks s);
  g_next : next_id s' = next_id s
}.

Lemma grants_refl b g s : sound b g s -> exclusive s -> grants b g s s.
Proof. constructor; auto using below_refl. Qed.

Lemma grants_trans b g s1 s2 s3 : grants b g s1 s2 -> grants b g s2 s3 -> grants b g s1 s3.
Proof. intros [] []. constructor; eauto using below_trans; congruence. Qed.

(** A lock that waits after the grants has waited before. *)
Lemma grants_wait b g s s' w' : sound b g s -> grants b g s s' -> In w' (locks s') -> lock_get_wait w' = true ->
  exists w, In w (locks s) /\ lock_get_wait w = true /\ core w' = core w.
Proof.
  intros So G I W. destruct (proj1 (g_below _ _ _ _ G) _ I) as (w & J & P & Q).
  assert (K : In (core w') (map core (locks s))) by (rewrite <- (g_core _ _ _ _ G); now apply in_map).
  apply in_map_iff in K as (w2 & E & K). exists w. split; [assumption|]. split; [apply Q, W|].
  assert (w2 = w) as <-; [|now symmetry]. apply (numbered_inj (locks s)); auto; [exact (so_numbered _ _ _ So)|].
  apply core_inv in E as (-> & _). apply P.
Qed.

Lemma grant_one_ok b g s i : sound b g s -> exclusive s ->
  grants b g s (grant_one s i)
  /\ (forall w, In w (locks (grant_one s i)) -> lock_get_wait w = true -> l_id w = i -> exists l, blocks (grant_one s i) w l).
Proof.
  intros So X. unfold grant_one. destruct (the_lock s i) as [l|] eqn:E.
  - apply the_lock_in in E as [I D]. destruct (has_to_wait_blocked s l (so_numbered _ _ _ So) I) as [HB _].
    destruct (lock_get_wait l) eqn:W; simpl; [destruct (has_to_wait_in_queue s l) eqn:H; simpl|].
    + split; [now apply grants_refl|]. intros w J _ Dw. assert (w = l) as -> by (apply (numbered_inj (locks s)); auto; [apply So|congruence]).
      auto.
    + assert (N : forall k, ~ blocks s l k).
      { intros k B. assert (has_to_wait_in_queue s l = true) by (apply has_to_wait_blocked; eauto; apply So). congruence. }
      pose proof (wait_unique b g s l So I W) as U.
      split; [constructor; eauto using grant_sound, grant_exclusive, grant_below, map_core_grant, next_id_grant|].
      intros w J V Dw. exfalso. destruct (grant_old b g s l So I w J) as (l0 & K & C & [[_ F]|[F ->]]); [congruence|].
      apply F, (numbered_inj (locks s)); auto; [apply So|congruence].
    + split; [now apply grants_refl|]. intros w J V Dw.
      assert (w = l) as -> by (apply (numbered_inj (locks s)); auto; [apply So|congruence]). congruence.
  - split; [now apply grants_refl|]. intros w J V Dw. unfold the_lock in E. apply find_none with (x := w) in E; [|assumption].
    rewrite Dw, Nat.eqb_refl in E. discriminate.
Qed.

Lemma grant_waiting_ok b g ids : forall s, sound b g s -> exclusive s ->
  grants b g s (grant_waiting s ids) /\ blocked_if (fun w => In (l_id w) ids) (grant_waiting s ids).
Proof.
  induction ids as [|i ids IH]; intros s So X; [split; [now apply grants_refl|intros ? _ _ []]|].
  destruct (grant_one_ok b g s i So X) as [G B]. pose proof G as [S1 X1 _ _ _].
  destruct (IH _ S1 X1) as [G' B']. change (grant_waiting s (i :: ids)) with (grant_waiting (grant_one s i) ids) in *.
  split; [eapply grants_trans; eauto|]. intros w I W [D|D]; [|now apply B'].
  destruct (grants_wait _ _ _ _ w S1 G' I W) as (w1 & I1 & W1 & C). apply (blocked_core (grant_one s i) _ w1); auto.
  - apply G'.
  - apply B; auto. apply core_inv in C as (E & _). congruence.
Qed.

(** The locks of [s'] that waited for something in [s] still do. *)
Lemma grants_blocked b g s s' P : sound b g s -> grants b g s s' -> (forall w w', core w' = core w -> P w' -> P w) ->
  blocked_if P s -> blocked_if P s'.
Proof.
  intros So G HP B w' I W Pw. destruct (grants_wait _ _ _ _ _ So G I W) as (w & J & V & C).
  apply (blocked_core s s' w); eauto. apply G.
Qed.

(** ** Removing *)

Lemma in_remove i s l : In l (locks (remove i s)) <-> In l (locks s) /\ l_id l <> i.
Proof. unfold remove. simpl. rewrite filter_In, negb_true_iff, Nat.eqb_neq. tauto. Qed.

Lemma remove_below i s : below (remove i s) s.
Proof. split; [|auto]. intros l I. apply in_remove in I as [I _]. exists l. auto using part_core. Qed.

Lemma remove_exclusive i s : exclusive s -> exclusive (remove i s).
Proof. intros X h l1 l2 I1 I2. apply in_remove in I1 as [I1 _], I2 as [I2 _]. now apply X. Qed.

Lemma remove_sound b s l : sound b None s -> In l (locks s) ->
  sound b (if lock_get_wait l then Some (l_trx l) else None) (remove (l_id l) s).
Proof.
  intros So I. pose proof So as [A1 A2 A3 A4 A5 A6 A7 A8]. constructor; try (intros k J; apply in_remove in J as [J D]).
  - now apply numbered_filter.
  - now apply A2.
  - now apply A3.
  - intro V. split; [now apply A4|]. destruct (lock_get_wait l) eqn:W; [|discriminate]. intro E. injection E as E.
    apply D. f_equal. now apply (wait_unique b None s l So I W k).
  - intros t i G E. destruct (A5 t i ltac:(discriminate) E) as (k & J & D & T & V). exists k. split; [|auto]. apply in_remove.
    split; [assumption|]. intro N. apply (numbered_inj _ _ _ A1 J I) in N. subst k. rewrite V in G. congruence.
  - intros t B G. apply A6; [assumption|discriminate].
  - exact A7.
  - now apply A8.
Qed.

(** Whoever is not behind the removed lock in its queue is blocked as before. *)
Lemma remove_blocked s l : numbered (locks s) -> In l (locks s) -> blocked_if (fun _ => True) s ->
  blocked_if (fun w => l_place w <> l_place l \/ (l_id w < l_id l)%nat) (remove (l_id l) s).
Proof.
  intros N I B w J W P. apply in_remove in J as [J D]. destruct (B w J W Logic.I) as (k & K & Q & L & C).
  exists k. split; [|auto]. apply in_remove. split; [assumption|]. intro E. apply (numbered_inj _ _ _ N K I) in E. subst k.
  destruct P; [congruence|lia].
Qed.

(** A lock is taken out of its queue: the others move up. *)
Lemma dequeue_ok b s l : inv b s -> In l (locks s) -> let g := if lock_get_wait l then Some (l_trx l) else None in
  grants b g (remove (l_id l) s) (dequeue l s) /\ blocked_if (fun _ => True) (dequeue l s).
Proof.
  intros [So X B A] I g. pose proof (remove_sound b s l So I) as So'. pose proof (remove_exclusive (l_id l) s X) as X'.
  pose proof (remove_blocked s l (so_numbered _ _ _ So) I B) as B'.
  assert (K : exists ids, dequeue l s = grant_waiting (remove (l_id l) s) ids
     /\ forall w, In w (locks (remove (l_id l) s)) -> l_place w = l_place l -> (l_id l < l_id w)%nat -> In (l_id w) ids).
  { unfold dequeue. destruct (is_rec l); [unfold lock_rec_dequeue_from_page|unfold lock_table_dequeue]; eexists; (split; [reflexivity|]);
      intros w J P L; apply in_map; [now apply in_queue|]. apply in_remove in J as [J _].
    apply in_after; [apply numbered_filter, So|now apply in_queue|]. split; [now apply in_queue|assumption]. }
  destruct K as (ids & -> & K). destruct (grant_waiting_ok b g ids _ So' X') as [G B2]. split; [exact G|].
  assert (B3 : blocked_if (fun w => l_place w <> l_place l \/ (l_id w < l_id l)%nat) (grant_waiting (remove (l_id l) s) ids)).
  { apply (grants_blocked b g (remove (l_id l) s)); auto. intros w w' C. apply core_inv in C as (-> & _ & -> & _). auto. }
  intros w J W _. destruct (grants_wait _ _ _ _ w So' G J W) as (w0 & J0 & W0 & C). apply core_inv in C as (D & _ & P & _).
  destruct (place_eqb_spec (l_place w) (l_place l)); [|apply B3; auto]. destruct (Nat.lt_trichotomy (l_id w) (l_id l)) as [?|[E|?]].
  - apply B3; auto.
  - apply in_remove in J0 as [_ N]. congruence.
  - apply B2; auto. rewrite D. apply K; congruence.
Qed.

Lemma blocks_locks s s' w l : locks s' = locks s -> blocks s w l -> blocks s' w l.
Proof. unfold blocks. now intros ->. Qed.

(** The transaction that is gone waits no more. *)
Definition let_go (t : nat) (s : sys) : sys := trx_end_lock_wait t (upd_trx t (set_wait_lock None) s).

Lemma let_go_trx t s u : wait_lock (trxs (let_go t s) u) = (if Nat.eqb u t then None else wait_lock (trxs s u))
  /\ lock_wait (trxs (let_go t s) u) = (if Nat.eqb u t then false else lock_wait (trxs s u)).
Proof. unfold let_go, trx_end_lock_wait. simpl. destruct (Nat.eqb u t); auto. Qed.

Lemma let_go_sound b t s : sound b (Some t) s -> sound b None (let_go t s).
Proof.
  intros [A1 A2 A3 A4 A5 A6 A7 A8]. constructor; auto.
  - intros l I W. destruct (A4 l I W) as [E N]. split; [|discriminate]. rewrite (proj1 (let_go_trx t s _)).
    destruct (Nat.eqb_spec (l_trx l) t); [congruence|assumption].
  - intros u i _ E. rewrite (proj1 (let_go_trx t s u)) in E. destruct (Nat.eqb_spec u t); [discriminate|]. apply A5; congruence.
  - intros u B _. destruct (let_go_trx t s u) as [-> ->]. destruct (Nat.eqb_spec u t); [reflexivity|]. apply A6; congruence.
  - intros u B. rewrite (proj2 (let_go_trx t s u)). destruct (Nat.eqb u t); auto.
Qed.

Lemma let_go_below t s : below (let_go t s) s.
Proof.
  split; [intros l I; exists l; auto using part_core|]. intro u. rewrite (proj2 (let_go_trx t s u)).
  destruct (Nat.eqb u t); [discriminate|auto].
Qed.

Lemma acyclic_below s' s : below s' s -> acyclic s -> acyclic s'.
Proof. intro B. apply acyclic_sub. intros t u. now apply below_waits. Qed.

Lemma dequeue_inv b s l : inv b s -> In l (locks s) -> lock_get_wait l = false -> inv b (dequeue l s).
Proof.
  intros H I W. destruct (dequeue_ok b s l H I) as [G B]. rewrite W in G. constructor; try apply G; [assumption|].
  apply (acyclic_below _ s); [|apply H]. apply (below_trans _ (remove (l_id l) s)); [apply G|apply remove_below].
Qed.

Lemma cancel_eq l s : lock_cancel_waiting_and_release l s = let_go (l_trx l) (dequeue l s).
Proof. reflexivity. Qed.

Lemma cancel_inv b s l : inv b s -> In l (locks s) -> lock_get_wait l = true -> inv b (lock_cancel_waiting_and_release l s).
Proof.
  intros H I W. rewrite cancel_eq. destruct (dequeue_ok b s l H I) as [G B]. rewrite W in G. constructor.
  - apply let_go_sound, G.
  - exact (g_exclusive _ _ _ _ G).
  - intros w J V _. exact (B w J V Logic.I).
  - apply (acyclic_below _ s); [|apply H]. apply (below_trans _ (dequeue l s)); [apply let_go_below|].
    apply (below_trans _ (remove (l_id l) s)); [apply G|apply remove_below].
Qed.

Lemma cancel_core b s l : inv b s -> In l (locks s) ->
  map core (locks (lock_cancel_waiting_and_release l s)) = map core (locks (remove (l_id l) s))
  /\ next_id (lock_cancel_waiting_and_release l s) = next_id s.
Proof. intros H I. destruct (dequeue_ok b s l H I) as [G _]. split; [exact (g_core _ _ _ _ G)|exact (g_next _ _ _ _ G)]. Qed.

(** Nothing else of a transaction matters. *)
Lemma upd_trx_inv b t f s : (forall x, wait_lock (f x) = wait_lock x /\ lock_wait (f x) = lock_wait x) -> inv b s -> inv b (upd_trx t f s).
Proof.
  intros F [[A1 A2 A3 A4 A5 A6 A7 A8] X B A].
  assert (E : forall u, wait_lock (trxs (upd_trx t f s) u) = wait_lock (trxs s u) /\ lock_wait (trxs (upd_trx t f s) u) = lock_wait (trxs s u))
    by (intro u; rewrite trxs_upd; destruct (Nat.eqb u t); auto).
  constructor; [constructor; auto|exact X|exact B|].
  - intros l I W. rewrite (proj1 (E _)). auto.
  - intros u i N. rewrite (proj1 (E _)). auto.
  - intros u N M. destruct (E u) as [-> ->]. auto.
  - intros u N. rewrite (proj2 (E _)). auto.
  - apply (acyclic_below _ s); [|assumption]. split; [intros l I; exists l; auto using part_core|]. intro u. now rewrite (proj2 (E u)).
Qed.

Lemma map_core_length ls ls' : map core ls' = map core ls -> List.length ls' = List.length ls.
Proof. intro E. rewrite <- (length_map core ls'), E. apply length_map. Qed.

Lemma remove_length s l : numbered (locks s) -> In l (locks s) -> S (List.length (locks (remove (l_id l) s))) = List.length (locks s).
Proof.
  unfold remove, numbered. simpl. induction (locks s) as [|x ls IH]; simpl; intros N I; [easy|]. inversion_clear N as [|? ? S F].
  rewrite Forall_forall in F. destruct (Nat.eqb_spec (l_id x) (l_id l)) as [E|D]; simpl.
  - f_equal. rewrite forallb_filter_id; [reflexivity|]. apply forallb_forall. intros k K.
    specialize (F (l_id k) (in_map _ _ _ K)). apply negb_true_iff, Nat.eqb_neq. lia.
  - destruct I as [<- |I]; [congruence|]. rewrite IH; auto.
Qed.
