(* ===== verification/InnoDead.v ===== *)
(** The search for a deadlock in the lock system of InnoDB: it ends, and a
    request that it lets wait closes no cycle. *)

From Stdlib Require Import ZArith Lia List Bool PeanoNat Relations.
From S2P Require Import Prelude Words InnoLock InnoInv.
Import ListNotations.
Local Open Scope Z_scope.

(** ** One search *)

(** A waiting lock of [u] is blocked by one of [v]. *)
Definition edge (s : sys) (u v : nat) : Prop :=
  exists w l, In w (locks s) /\ lock_get_wait w = true /\ l_trx w = u /\ blocks s w l /\ l_trx l = v.

(** The marked transactions lead nowhere else, and not to [start]. *)
Definition closed (s : sys) (start : nat) (marks : list nat) : Prop :=
  forall u v, In u marks -> edge s u v -> v <> start /\ (lock_wait (trxs s v) = true -> In v marks).

(** The search is asked about [w], the only lock that [t] may wait for. *)
Record asks (s : sys) (start t : nat) (w : lock) : Prop := mkAsks {
  as_in : In w (locks s);
  as_trx : l_trx w = t;
  as_only : forall w', In w' (locks s) -> lock_get_wait w' = true -> l_trx w' = t -> w' = w;
  as_bit : is_rec w = true -> exists h, lock_rec_find_set_bit w = Some h;
  as_wait : t = start \/ lock_get_wait w = true
}.

(** A victim other than the start has been taken out. *)
Definition victim (s : sys) (start : nat) (s' : sys) : Prop :=
  exists w, In w (locks s) /\ lock_get_wait w = true /\ l_trx w <> start
    /\ s' = lock_cancel_waiting_and_release w (upd_trx (l_trx w) (set_victim true) s).

Definition outcome (good : list nat -> Prop) (s : sys) (start : nat) (r : found) : Prop :=
  match r with
  | (NO_DEADLOCK, s', _, marks) => s' = s /\ good marks
  | (LOCK_VICTIM_IS_OTHER, s', _, _) => victim s start s'
  | (_, s', _, _) => s' = s
  end.

Definition marked (s : sys) (start t : nat) (marks marks' : list nat) : Prop := incl marks marks' /\ In t marks' /\ closed s start marks'.

Lemma trx_weight_ge_refl s t : trx_weight_ge s t t = true.
Proof. unfold trx_weight_ge. rewrite eqb_reflx. simpl. apply Z.geb_le. lia. Qed.

Section search.
  Context (s : sys) (start : nat) (So : sound (Some start) None s).

Lemma asks_next v : v <> start -> lock_wait (trxs s v) = true ->
  exists i w, wait_lock (trxs s v) = Some i /\ the_lock s i = Some w /\ asks s start v w.
Proof.
  intros N L. pose proof (so_state _ _ _ So v ltac:(congruence) ltac:(discriminate)) as E. rewrite L in E.
  destruct (wait_lock (trxs s v)) as [i|] eqn:W; [|discriminate].
  destruct (so_forth _ _ _ So v i ltac:(discriminate) W) as (w & I & <- & T & V). exists (l_id w), w. split; [reflexivity|].
  split; [apply the_lock_some; [apply So|assumption]|]. constructor; auto.
  - intros w' I' V' T'. apply (wait_unique (Some start) None s w So I V w' I' V'). congruence.
  - intro R. destruct (so_bit _ _ _ So w I V R) as (h & B). exists h. exact (find_bit_one _ _ 0 B).
Qed.

Section look.
  Context (search : nat -> lock -> Z -> list nat -> option found) (depth : Z).
  Hypothesis search_holds : depth <= LOCK_MAX_DEPTH_IN_DEADLOCK_CHECK -> forall v w cost marks, asks s start v w -> closed s start marks ->
    exists r, search v w cost marks = Some r /\ outcome (marked s start v marks) s start r.
  Context (t : nat) (w : lock) (As : asks s start t w).

Lemma look_ahead_ok ls : forall cost marks, closed s start marks -> (forall l, In l ls -> lock_has_to_wait w l = true -> blocks s w l) ->
  exists r, look_ahead search s start t w depth ls cost marks = Some r
    /\ outcome (fun marks' => exists m, marks' = t :: m /\ incl marks m /\ closed s start m
         /\ forall l, In l ls -> lock_has_to_wait w l = true -> l_trx l <> start /\ (lock_wait (trxs s (l_trx l)) = true -> In (l_trx l) m)) s start r.
Proof.
  induction ls as [|l ls IH]; intros cost marks C B; simpl.
  { eexists. split; [reflexivity|]. simpl. split; [reflexivity|]. exists marks. split; [reflexivity|]. split; [apply incl_refl|].
    split; [assumption|]. intros ? []. }
  assert (next : forall cost m, incl marks m -> closed s start m ->
    (lock_has_to_wait w l = true -> l_trx l <> start /\ (lock_wait (trxs s (l_trx l)) = true -> In (l_trx l) m)) ->
    exists r, look_ahead search s start t w depth ls cost m = Some r
    /\ outcome (fun marks' => exists m, marks' = t :: m /\ incl marks m /\ closed s start m
         /\ forall k, l = k \/ In k ls -> lock_has_to_wait w k = true ->
              l_trx k <> start /\ (lock_wait (trxs s (l_trx k)) = true -> In (l_trx k) m)) s start r).
  { intros c m Im Cm Hl. destruct (IH c m Cm ltac:(intros; apply B; simpl; auto)) as (r & -> & O). exists r. split; [reflexivity|].
    destruct r as [[[[] s'] c'] m']; simpl in *; auto. destruct O as (E & m2 & -> & Im2 & Cm2 & Hls). split; [assumption|].
    exists m2. split; [reflexivity|]. split; [eapply incl_tran; eauto|]. split; [assumption|]. intros k [<- |K] Hk; [|auto].
    destruct (Hl Hk). auto. }
  destruct (lock_has_to_wait w l) eqn:H; [|apply next; auto using incl_refl; discriminate].
  destruct (Nat.eqb_spec (l_trx l) start) as [E|N].
  { destruct (trx_weight_ge s (l_trx w) start) eqn:G; eexists; (split; [reflexivity|]); simpl; [reflexivity|].
    exists w. split; [apply As|]. assert (D : l_trx w <> start) by (intro D; rewrite D, trx_weight_ge_refl in G; discriminate).
    destruct (as_wait _ _ _ _ As) as [F|F]; [|auto]. rewrite (as_trx _ _ _ _ As) in D. contradiction. }
  destruct ((depth >? _) || _) eqn:F; [eexists; split; reflexivity|]. apply orb_false_iff in F as [F _]. rewrite Z.gtb_ltb, Z.ltb_ge in F.
  destruct (lock_wait (trxs s (l_trx l))) eqn:L; [|apply next; auto using incl_refl; split; [assumption|congruence]].
  destruct (asks_next _ N L) as (i & w' & -> & E & As'). simpl. rewrite E. simpl.
  destruct (search_holds F _ w' cost marks As' C) as (r & -> & O). destruct r as [[[[] s'] c'] m']; simpl in *; try (eexists; split; [reflexivity|exact O]).
  destruct O as (-> & Im & It & Cm). apply next; auto.
Qed.

End look.

Lemma deadlock_search_ok fuel : forall t w cost depth marks, 203 <= Z.of_nat fuel + depth -> depth <= 201 -> asks s start t w -> closed s start marks ->
  exists r, lock_deadlock_recursive fuel s start t w cost depth marks = Some r /\ outcome (marked s start t marks) s start r.
Proof.
  induction fuel as [|fuel IH]; intros t w cost depth marks F D As C; [lia|]. simpl. destruct (mem t marks) eqn:M.
  { eexists. split; [reflexivity|]. simpl. split; [reflexivity|]. split; [apply incl_refl|]. split; [|assumption].
    apply existsb_exists in M as (x & I & E). apply Nat.eqb_eq in E. now subst x. }
  assert (A : exists ls, ahead s w = Some ls).
  { unfold ahead. pose proof (as_bit _ _ _ _ As) as B. destruct (is_rec w); [|eauto]. destruct (B eq_refl) as (h & ->). eauto. }
  destruct A as (ls & A). rewrite A. simpl. pose proof (ahead_blocks s w ls (so_numbered _ _ _ So) (as_in _ _ _ _ As) A) as AB.
  edestruct (look_ahead_ok (fun v w cost marks => lock_deadlock_recursive fuel s start v w cost (depth + 1) marks) depth) as (r & E & O);
    [|exact As|exact C| |]; [..|exists r; split; [exact E|]].
  - intros L v w' c m As' C'. unfold LOCK_MAX_DEPTH_IN_DEADLOCK_CHECK in L. apply IH; auto; lia.
  - intros l I H. now apply AB.
  - destruct r as [[[[] s'] c'] m']; simpl in *; auto. destruct O as (-> & m & -> & Im & Cm & Hl). split; [reflexivity|].
    split; [now apply incl_tl|]. split; [now left|]. intros u v [<- |U] Ed.
    + destruct Ed as (w' & l & I & W & T & B & <-). rewrite (as_only _ _ _ _ As w' I W T) in B. apply AB in B as [J H].
      destruct (Hl l J H). split; [assumption|]. intro. right. auto.
    + destruct (Cm u v U Ed). split; [assumption|]. intro. right. auto.
Qed.

End search.

(** ** The whole search *)

(** The transaction [t] is enqueuing the newest lock, which was created as [l0]. *)
Record request (t : nat) (l0 : lock) (s : sys) : Prop := mkRequest {
  rq_inv : inv (Some t) s;
  rq_in : exists l, In l (locks s) /\ core l = core l0;
  rq_trx : l_trx l0 = t;
  rq_next : next_id s = S (l_id l0);
  rq_only : forall w, In w (locks s) -> lock_get_wait w = true -> l_trx w = t -> l_id w = l_id l0;
  rq_bit : is_rec l0 = true -> exists h, forall j, lock_rec_get_nth_bit l0 j = Nat.eqb j h
}.

Lemma request_lock t l0 s : request t l0 s ->
  exists l, the_lock s (l_id l0) = Some l /\ In l (locks s) /\ core l = core l0 /\ asks s t t l.
Proof.
  intros R. destruct (rq_in _ _ _ R) as (l & I & C). destruct (core_inv _ _ C) as (D & T & P & B & _).
  pose proof (so_numbered _ _ _ (i_sound _ _ (rq_inv _ _ _ R))) as N. exists l. split; [rewrite <- D; now apply the_lock_some|].
  split; [assumption|]. split; [assumption|]. constructor; auto.
  - rewrite T. apply R.
  - intros w J W V. apply (numbered_inj _ _ _ N J I). rewrite D. now apply R.
  - unfold is_rec, lock_rec_find_set_bit. rewrite P, B. intro Rec. destruct (rq_bit _ _ _ R Rec) as (h & H). exists h.
    exact (find_bit_one _ _ 0 H).
Qed.

Lemma victim_request t l0 s s' : request t l0 s -> victim s t s' ->
  request t l0 s' /\ (S (List.length (locks s')) = List.length (locks s))%nat.
Proof.
  intros [H (l & I & C) T N O B] (w & J & W & V & ->). set (s1 := upd_trx (l_trx w) (set_victim true) s).
  assert (H1 : inv (Some t) s1) by (apply upd_trx_inv; auto).
  destruct (cancel_core _ _ w H1 J) as [M E]. destruct (dequeue_ok _ _ w H1 J) as [G _]. rewrite W in G.
  pose proof (remove_sound (Some t) s1 w (i_sound _ _ H1) J) as So. rewrite W in So. split.
  - constructor; auto.
    + now apply cancel_inv.
    + assert (K : In (core l) (map core (locks (lock_cancel_waiting_and_release w s1)))).
      { rewrite M. apply in_map, in_remove. split; [exact I|]. intro D. apply V.
        apply (numbered_inj _ _ _ (so_numbered _ _ _ (i_sound _ _ H)) I J) in D. apply core_inv in C as (_ & K & _). congruence. }
      apply in_map_iff in K as (l' & F & K). exists l'. split; [assumption|congruence].
    + rewrite E. exact N.
    + intros x K X Y. destruct (grants_wait _ _ _ _ x So G K X) as (x0 & K0 & X0 & F). apply in_remove in K0 as [K0 _].
      apply core_inv in F as (-> & F & _). apply O; auto. congruence.
  - rewrite (map_core_length _ _ M). exact (remove_length s1 w (so_numbered _ _ _ (i_sound _ _ H1)) J).
Qed.

(** The search ends; if it finds no deadlock, nothing leads back to [t]. *)
Lemma occurs_ok t l0 fuel : forall s cost, (List.length (locks s) < fuel)%nat -> request t l0 s ->
  exists d s', lock_deadlock_occurs fuel s (l_id l0) t cost = Some (d, s') /\ request t l0 s'
    /\ (d = false -> exists marks, In t marks /\ closed s' t marks).
Proof.
  induction fuel as [|fuel IH]; intros s cost F R; [lia|]. destruct (request_lock _ _ _ R) as (l & E & I & C & As).
  cbn [lock_deadlock_occurs]. rewrite E. cbn [obind].
  destruct (deadlock_search_ok s t (i_sound _ _ (rq_inv _ _ _ R)) search_fuel t l cost 0 []) as (r & -> & O).
  { unfold search_fuel. lia. } { lia. } { assumption. } { intros u v []. }
  destruct r as [[[[] s'] c] marks]; simpl in O |- *.
  - destruct O as (-> & _ & M & K). exists false, s. eauto 6.
  - subst s'. exists true, s. split; [reflexivity|]. split; [assumption|discriminate].
  - destruct (victim_request _ _ _ _ R O) as [R' L]. apply IH; [lia|assumption].
  - subst s'. exists true, s. split; [reflexivity|]. split; [assumption|discriminate].
Qed.

(** ** Starting to wait *)

Lemma trans_refl_trans {A} (R : A -> A -> Prop) x y z : clos_trans A R x y -> clos_refl_trans A R y z -> clos_trans A R x z.
Proof. intros T P. apply clos_rt_rtn1 in P. induction P; [assumption|]. eapply t_trans; [eassumption|]. now apply t_step. Qed.

Lemma trans_refl {A} (R : A -> A -> Prop) x y : clos_trans A R x y -> clos_refl_trans A R x y.
Proof. induction 1; [now apply rt_step|eapply rt_trans; eauto]. Qed.

Lemma waits_edge s u v : waits s u v <-> lock_wait (trxs s u) = true /\ edge s u v.
Proof. reflexivity. Qed.

Section enter.
  Context (s s' : sys) (t : nat) (marks : list nat).
  Hypotheses (L : locks s' = locks s) (Wt : forall u, u <> t -> lock_wait (trxs s' u) = lock_wait (trxs s u)).
  Hypotheses (It : In t marks) (Cl : closed s t marks) (A : acyclic s).

Lemma edge_locks u v : edge s' u v -> edge s u v.
Proof. unfold edge, blocks. now rewrite L. Qed.

(** Nothing that [t] leads to leads back to it. *)
Lemma from_start u : clos_trans nat (waits s') t u -> u <> t /\ (lock_wait (trxs s' u) = true -> In u marks).
Proof.
  intro C. apply clos_trans_tn1 in C.
  assert (K : forall v u, In v marks -> waits s' v u -> u <> t /\ (lock_wait (trxs s' u) = true -> In u marks)).
  { intros v u' I [_ E]. destruct (Cl v u' I (edge_locks _ _ E)) as [N M]. split; [assumption|]. now rewrite Wt. }
  induction C as [u W|v u W C IH]; [now apply (K t)|]. apply (K v); [|assumption]. apply IH, W.
Qed.

Lemma old_or_through x y : clos_trans nat (waits s') x y ->
  clos_trans nat (waits s) x y \/ (clos_refl_trans nat (waits s') x t /\ clos_trans nat (waits s') t y).
Proof.
  induction 1 as [x y W|x y z C1 IH1 C2 IH2].
  - destruct (Nat.eq_dec x t) as [->|N]; [right; split; [apply rt_refl|now apply t_step]|]. left. apply t_step.
    destruct W as [W E]. split; [now rewrite <- Wt|now apply edge_locks].
  - destruct IH1 as [IH1|[P Q]]; [|right; split; [assumption|eapply t_trans; eauto]].
    destruct IH2 as [IH2|[P Q]]; [left; eapply t_trans; eauto|]. right. split; [|assumption].
    eapply rt_trans; [|exact P]. now apply trans_refl.
Qed.

Lemma acyclic_enter : acyclic s'.
Proof.
  intros x C. destruct (old_or_through x x C) as [O|[P Q]]; [now apply (A x)|].
  destruct (from_start t) as [N _]; [|now apply N]. exact (trans_refl_trans _ _ _ _ Q P).
Qed.

End enter.
