(* ===== verification/InnoReq.v ===== *)
(** The requests of the lock system of InnoDB keep its invariant, and what they
    return is true. *)

From Stdlib Require Import ZArith Lia List Bool PeanoNat Sorted Relations.
From S2P Require Import Prelude Words InnoLock InnoInv InnoDead.
Import ListNotations.
Local Open Scope Z_scope.
Local Open Scope fail_scope.

(** ** Modes of new locks *)

(** The bits that [lock_rec_create] keeps of a mode. *)
Definition stored (sup : bool) (mode : Z) : Z :=
  Z.lor (without (if sup then without mode (Z.lor LOCK_GAP LOCK_REC_NOT_GAP) else mode) LOCK_TYPE_MASK) LOCK_REC.

Lemma stored_mode sup m : Z.land (stored sup m) LOCK_MODE_MASK = Z.land m LOCK_MODE_MASK.
Proof. apply mask_agree. destruct sup; unfold stored; bits. Qed.

Lemma stored_flags sup m : has (stored sup m) LOCK_WAIT = has m LOCK_WAIT
  /\ has (stored sup m) LOCK_GAP = has m LOCK_GAP && negb sup
  /\ has (stored sup m) LOCK_REC_NOT_GAP = has m LOCK_REC_NOT_GAP && negb sup
  /\ has (stored sup m) LOCK_INSERT_INTENTION = has m LOCK_INSERT_INTENTION.
Proof.
  rewrite !has_wait, !has_gap, !has_rec_not_gap, !has_insert. unfold stored, without.
  destruct sup; rewrite !Z.lor_spec, !Z.ldiff_spec, ?Z.ldiff_spec; simpl;
    rewrite ?orb_false_r, ?andb_true_r, ?andb_false_r; auto.
Qed.

Lemma wait_flag_mode m : Z.land (Z.lor m LOCK_WAIT) LOCK_MODE_MASK = Z.land m LOCK_MODE_MASK
  /\ has (Z.lor m LOCK_WAIT) LOCK_WAIT = true /\ traits (Z.lor m LOCK_WAIT) = traits m.
Proof.
  split; [apply mask_agree; bits|]. split; [rewrite has_wait, Z.lor_spec; apply orb_true_r|].
  apply traits_agree, bare_agree, bare_set.
Qed.

(** ** Adding a lock *)

Definition append (new : lock) (s : sys) : sys := mkSys (locks s ++ [new]) (trxs s) (S (next_id s)).

Lemma in_append new s l : In l (locks (append new s)) <-> In l (locks s) \/ l = new.
Proof. simpl. rewrite in_app_iff. simpl. intuition. Qed.

Lemma append_numbered b g new s : sound b g s -> l_id new = next_id s -> numbered (locks (append new s)).
Proof.
  intros So E. pose proof (so_numbered _ _ _ So) as N. pose proof (so_below _ _ _ So) as B. simpl. unfold numbered in *.
  rewrite map_app. simpl. revert N B. rewrite <- E. clear. induction (locks s) as [|l ls IH]; simpl; intros N B; [repeat constructor|].
  inversion_clear N as [|? ? S F]. constructor; [apply IH; auto|]. apply Forall_app. split; [assumption|].
  constructor; [apply B; auto|constructor].
Qed.

Lemma append_blocks new s w l : blocks s w l -> blocks (append new s) w l.
Proof. intros (I & B). split; [apply in_append; auto|assumption]. Qed.

(** The newest lock blocks nobody. *)
Lemma append_blocks_old b g new s w l : sound b g s -> l_id new = next_id s -> In w (locks s) -> blocks (append new s) w l -> blocks s w l.
Proof.
  intros So E I (J & P & L & B). apply in_append in J as [J| ->]; [split; auto|]. pose proof (so_below _ _ _ So _ I). lia.
Qed.

(** A new lock excludes no other one. *)
Definition fits (new : lock) (s : sys) : Prop := forall h l, In l (locks s) -> l_place l = l_place new -> l_trx l <> l_trx new ->
  holds_record h l = true -> holds_record h new = true -> lock_mode_compatible (lock_get_mode new) (lock_get_mode l) = true.

Section append.
  Context (b : option nat) (s : sys) (new : lock) (H : inv b s).
  Hypotheses (Id : l_id new = next_id s) (Mo : 0 <= lock_get_mode new <= 3).

Lemma append_exclusive : fits new s \/ lock_get_wait new = true -> exclusive (append new s).
Proof.
  intros F h l1 l2 I1 I2 L P T H1 H2. pose proof (so_below _ _ _ (i_sound _ _ H)) as B.
  apply in_append in I1 as [I1| ->], I2 as [I2| ->].
  - now apply (i_exclusive _ _ H h).
  - destruct F as [F|F]; [left|now right]. apply (F h); auto.
  - specialize (B _ I2). lia.
  - lia.
Qed.

Lemma append_granted : lock_get_wait new = false -> fits new s -> inv b (append new s).
Proof.
  intros W F. pose proof H as [[A1 A2 A3 A4 A5 A6 A7 A8] X B A]. constructor; [constructor; auto|..].
  - exact (append_numbered _ None new s (i_sound _ _ H) Id).
  - intros l I. apply in_append in I as [I| ->]; simpl; [specialize (A2 _ I)|]; lia.
  - intros l I. apply in_append in I as [I| ->]; auto.
  - intros l I V. apply in_append in I as [I| ->]; [exact (A4 l I V)|congruence].
  - intros t i N E. destruct (A5 t i N E) as (l & I & K). exists l. split; [apply in_append; auto|assumption].
  - intros l I V. apply in_append in I as [I| ->]; [auto|congruence].
  - apply append_exclusive. auto.
  - intros w I V _. apply in_append in I as [I| ->]; [|congruence]. destruct (B w I V Logic.I) as (l & K). exists l. now apply append_blocks.
  - apply (acyclic_sub _ s); [|assumption]. intros t u (L & w & l & I & V & T & K & U). apply in_append in I as [I| ->]; [|congruence].
    split; [exact L|]. exists w, l. eauto 8 using append_blocks_old, i_sound.
Qed.

End append.

Definition enqueue (new : lock) (s : sys) : sys := upd_trx (l_trx new) (set_wait_lock (Some (l_id new))) (append new s).

(** A waiting lock behind one that it has to wait for. *)
Lemma enqueue_request s new : inv (Some (l_trx new)) s -> wait_lock (trxs s (l_trx new)) = None ->
  l_id new = next_id s -> 0 <= lock_get_mode new <= 3 -> lock_get_wait new = true ->
  (is_rec new = true -> exists h, forall j, lock_rec_get_nth_bit new j = Nat.eqb j h) ->
  (exists l, In l (locks s) /\ l_place l = l_place new /\ covers new l /\ lock_has_to_wait new l = true) ->
  request (l_trx new) new (enqueue new s).
Proof.
  intros H E Id Mo W Bit (l0 & I0 & P0 & C0 & H0). pose proof H as [[A1 A2 A3 A4 A5 A6 A7 A8] X B A].
  set (t := l_trx new) in *.
  assert (None_waits : forall l, In l (locks s) -> lock_get_wait l = true -> l_trx l <> t)
    by (intros l I V T; destruct (A4 l I V) as [F _]; congruence).
  assert (Wl : forall u, wait_lock (trxs (enqueue new s) u) = (if Nat.eqb u t then Some (l_id new) else wait_lock (trxs s u))
    /\ lock_wait (trxs (enqueue new s) u) = lock_wait (trxs s u)) by (intro u; unfold enqueue; rewrite trxs_upd; fold t; now destruct (Nat.eqb u t)).
  constructor; auto; [constructor; [constructor|..]|exists new; split; [now apply in_append; right|reflexivity]|simpl; congruence|].
  - exact (append_numbered _ None new s (i_sound _ _ H) Id).
  - intros l I. apply in_append in I as [I| ->]; simpl; [specialize (A2 _ I)|]; lia.
  - intros l I. apply in_append in I as [I| ->]; auto.
  - intros l I V. split; [|discriminate]. rewrite (proj1 (Wl _)). apply in_append in I as [I| ->].
    + destruct (Nat.eqb_spec (l_trx l) t); [now apply None_waits in I|now apply A4].
    + fold t. now rewrite Nat.eqb_refl.
  - intros u i _ F. rewrite (proj1 (Wl _)) in F. destruct (Nat.eqb_spec u t) as [-> |N].
    + injection F as <-. exists new. split; [apply in_append; auto|auto].
    + destruct (A5 u i ltac:(discriminate) F) as (l & I & K). exists l. split; [apply in_append; auto|assumption].
  - intros u N _. destruct (Wl u) as [-> ->]. destruct (Nat.eqb_spec u t); [congruence|]. apply A6; [assumption|discriminate].
  - intros u N. rewrite (proj2 (Wl _)). auto.
  - intros l I V. apply in_append in I as [I| ->]; auto.
  - change (exclusive (append new s)). eapply append_exclusive; eauto.
  - intros w I V _. apply in_append in I as [I| ->].
    + destruct (B w I V Logic.I) as (l & K). exists l. now apply (append_blocks new s).
    + exists l0. split; [apply in_append; auto|]. pose proof (A2 _ I0). repeat (split; [assumption || lia|]). assumption.
  - apply (acyclic_sub _ s); [|assumption]. intros u v (L & w & l & I & V & T & K & U). rewrite (proj2 (Wl u)) in L. split; [exact L|].
    apply in_append in I as [I| ->].
    + exists w, l. split; [assumption|]. split; [assumption|]. split; [assumption|]. split; [|assumption].
      now apply (append_blocks_old (Some t) None new s w l (i_sound _ _ H) Id I).
    + exfalso. unfold t in *. rewrite (A7 u) in L; [discriminate|congruence].
  - intros w I V T. apply in_append in I as [I| ->]; [|reflexivity]. now apply None_waits in I.
Qed.

(** ** Beginning and end of a request *)

Lemma busy_on s t : inv None s -> lock_wait (trxs s t) = false -> inv (Some t) s /\ wait_lock (trxs s t) = None.
Proof.
  intros [[A1 A2 A3 A4 A5 A6 A7 A8] X B A] L. split; [constructor; auto; constructor; auto|].
  - intros u N. congruence.
  - pose proof (A6 t ltac:(discriminate) ltac:(discriminate)) as E. rewrite L in E. now destruct (wait_lock (trxs s t)).
Qed.

Lemma busy_off s t : inv (Some t) s -> wait_lock (trxs s t) = None -> inv None s.
Proof.
  intros [[A1 A2 A3 A4 A5 A6 A7 A8] X B A] E. constructor; auto. constructor; auto; [|discriminate].
  intros u _ N. destruct (Nat.eq_dec u t) as [-> |D]; [|apply A6; congruence]. now rewrite E, A7.
Qed.

(** The transaction stops for its lock. *)
Definition go_to_sleep (t : nat) (s : sys) : sys := upd_trx t (fun x => set_victim false (set_lock_wait true x)) s.

Lemma go_to_sleep_trx t s u : wait_lock (trxs (go_to_sleep t s) u) = wait_lock (trxs s u)
  /\ lock_wait (trxs (go_to_sleep t s) u) = if Nat.eqb u t then true else lock_wait (trxs s u).
Proof. unfold go_to_sleep. rewrite trxs_upd. now destruct (Nat.eqb u t). Qed.

Lemma go_to_sleep_inv t s marks : inv (Some t) s -> is_some (wait_lock (trxs s t)) = true -> In t marks -> closed s t marks ->
  inv None (go_to_sleep t s).
Proof.
  intros [[A1 A2 A3 A4 A5 A6 A7 A8] X B A] E I C. constructor; auto; [constructor; auto|].
  - intros l J W. rewrite (proj1 (go_to_sleep_trx t s _)). auto.
  - intros u i. rewrite (proj1 (go_to_sleep_trx t s _)). auto.
  - intros u _ N. destruct (go_to_sleep_trx t s u) as [-> ->]. destruct (Nat.eqb_spec u t) as [-> |D]; [now symmetry|apply A6; congruence].
  - discriminate.
  - apply (acyclic_enter s _ t marks); auto. intros u N. rewrite (proj2 (go_to_sleep_trx t s u)). now apply Nat.eqb_neq in N as ->.
Qed.

(** ** A new record lock *)

Definition new_rec (mode : Z) (p : place) (n_heap heap_no t : nat) (s : sys) : lock :=
  lock_rec_set_nth_bit heap_no
    (mkLock (next_id s) t (stored (Nat.eqb heap_no PAGE_HEAP_NO_SUPREMUM) mode) p (repeat false ((1 + (n_heap + 64) / 8) * 8))).

Lemma new_rec_bit mode p n_heap h t s j : (h < n_heap)%nat -> lock_rec_get_nth_bit (new_rec mode p n_heap h t s) j = Nat.eqb j h.
Proof.
  intro L. unfold new_rec, lock_rec_get_nth_bit, lock_rec_set_nth_bit. cbn [bitmap set_bitmap]. rewrite nth_set_nth, repeat_length, nth_repeat.
  pose proof (Nat.div_mod_eq (n_heap + 64) 8). pose proof (Nat.mod_upper_bound (n_heap + 64) 8 ltac:(lia)).
  assert (Nat.ltb h ((1 + (n_heap + 64) / 8) * 8) = true) as -> by (apply Nat.ltb_lt; lia). rewrite andb_true_r. now destruct (Nat.eqb j h).
Qed.

Lemma create_granted mode p n_heap h t s : has mode LOCK_WAIT = false -> fst (lock_rec_create mode p n_heap h t s) = append (new_rec mode p n_heap h t s) s.
Proof.
  intro W. unfold lock_rec_create. cbn [fst]. unfold new_rec, stored, append. destruct (Nat.eqb h PAGE_HEAP_NO_SUPREMUM); [|now rewrite W].
  replace (has (without mode _) LOCK_WAIT) with false; [reflexivity|]. rewrite has_wait in *. unfold without. now rewrite Z.ldiff_spec, W.
Qed.

Lemma set_wait_newest b g new s : sound b g s -> l_id new = next_id s -> lock_get_wait new = true ->
  lock_set_lock_and_trx_wait (l_id new) (l_trx new) (append new s) = enqueue new s.
Proof.
  intros So E W. unfold lock_set_lock_and_trx_wait, enqueue, upd_lock, upd_trx. cbn [locks trxs next_id]. f_equal.
  change (locks (append new s)) with (locks s ++ [new]). rewrite map_app. simpl. rewrite Nat.eqb_refl. f_equal.
  - rewrite <- (map_id (locks s)) at 2. apply map_ext_in. intros l I. pose proof (so_below _ _ _ So _ I).
    destruct (Nat.eqb_spec (l_id l) (l_id new)); [lia|reflexivity].
  - f_equal. destruct new as [i t m p bm]. unfold set_mode. cbn in *. f_equal. unfold lock_get_wait in W. rewrite has_wait in W.
    apply Z.bits_inj'. intros n Hn. rewrite Z.lor_spec. change LOCK_WAIT with (2 ^ 8). rewrite Z.pow2_bits_eqb by lia.
    destruct (Z.eqb_spec 8 n) as [<- |]; [|apply orb_false_r]. cbn [type_mode] in W. now rewrite W.
Qed.

Lemma create_waiting b g mode p n_heap h t s : sound b g s -> has mode LOCK_WAIT = true ->
  lock_rec_create mode p n_heap h t s = (enqueue (new_rec mode p n_heap h t s) s, next_id s).
Proof.
  intros So W. set (new := new_rec mode p n_heap h t s).
  assert (V : lock_get_wait new = true) by (unfold lock_get_wait; cbn; now rewrite (proj1 (stored_flags _ mode))).
  rewrite <- (set_wait_newest b g new s So eq_refl V). unfold lock_rec_create. f_equal. unfold new, new_rec, stored, append.
  destruct (Nat.eqb h PAGE_HEAP_NO_SUPREMUM); [|now rewrite W].
  replace (has (without mode _) LOCK_WAIT) with true; [reflexivity|]. rewrite has_wait in *. unfold without. now rewrite Z.ldiff_spec, W.
Qed.

(** Requests for records are for the modes S and X. *)
Definition rec_mode (mode : Z) : Prop := Z.land mode LOCK_MODE_MASK = LOCK_S \/ Z.land mode LOCK_MODE_MASK = LOCK_X.

Lemma new_rec_mode mode p n_heap h t s : rec_mode mode -> 0 <= lock_get_mode (new_rec mode p n_heap h t s) <= 3.
Proof. unfold lock_get_mode, rec_mode. cbn. rewrite stored_mode. unfold LOCK_S, LOCK_X. lia. Qed.

(** A request without conflict fits. *)
Lemma no_conflict_fits mode p h t s l : lock_rec_other_has_conflicting mode p h t s = false ->
  In l (locks s) -> l_place l = p -> is_rec l = true -> l_trx l <> t -> has mode LOCK_GAP = false -> has mode LOCK_INSERT_INTENTION = false ->
  holds_record h l = true -> lock_mode_compatible (Z.land mode LOCK_MODE_MASK) (lock_get_mode l) = true.
Proof.
  intros C I P R T G N K. destruct (lock_mode_compatible _ _) eqn:E; [reflexivity|]. exfalso.
  assert (X : lock_rec_other_has_conflicting mode p h t s = true); [|congruence].
  pose proof K as K'. unfold holds_record in K'. rewrite R, !andb_true_iff, !negb_true_iff, Nat.eqb_neq in K'. destruct K' as [[[B D] _] _].
  apply existsb_exists. exists l. split; [now apply in_record|]. now apply rec_conflict.
Qed.

Lemma new_rec_fits mode p n_heap h t s sp pn : p = Page sp pn -> (h < n_heap)%nat -> lock_rec_other_has_conflicting mode p h t s = false ->
  fits (new_rec mode p n_heap h t s) s.
Proof.
  intros Ep L C h' l I P T Hl Hn. unfold holds_record in Hn. cbn [is_rec new_rec lock_rec_set_nth_bit set_bitmap l_place] in Hn.
  assert (R : is_rec (new_rec mode p n_heap h t s) = true) by (unfold is_rec; cbn; now rewrite Ep).
  rewrite R, new_rec_bit, !andb_true_iff, !negb_true_iff, Nat.eqb_neq in Hn by assumption. destruct Hn as [[[E N] G] J].
  apply Nat.eqb_eq in E. subst h'. destruct (stored_flags (Nat.eqb h PAGE_HEAP_NO_SUPREMUM) mode) as (_ & Fg & _ & Fi).
  change (has (stored (Nat.eqb h PAGE_HEAP_NO_SUPREMUM) mode) LOCK_GAP = false) in G.
  change (has (stored (Nat.eqb h PAGE_HEAP_NO_SUPREMUM) mode) LOCK_INSERT_INTENTION = false) in J.
  rewrite Fg in G. rewrite Fi in J. apply Nat.eqb_neq in N. rewrite N, andb_true_r in G.
  unfold lock_get_mode at 1. cbn. rewrite stored_mode. apply (no_conflict_fits mode p h t s); auto.
  unfold is_rec. rewrite P. cbn. now rewrite Ep.
Qed.

Lemma stored_conflict sup t mode l : lock_rec_has_to_wait t mode l sup = true -> lock_rec_has_to_wait t (stored sup (Z.lor mode LOCK_WAIT)) l sup = true
  /\ t <> l_trx l /\ lock_mode_compatible (Z.land mode LOCK_MODE_MASK) (lock_get_mode l) = false.
Proof.
  destruct (stored_flags sup (Z.lor mode LOCK_WAIT)) as (_ & Fg & _ & Fi). destruct (wait_flag_mode mode) as (Em & _ & Et).
  unfold traits in Et. injection Et as _ Eg _ Ei. unfold lock_rec_has_to_wait. rewrite !(Z.land_comm LOCK_MODE_MASK), stored_mode, Em, Fg, Fi, Eg, Ei.
  destruct (Nat.eqb_spec t (l_trx l)); [discriminate|]. destruct (lock_mode_compatible _ _); [discriminate|]. simpl. intro H.
  split; [|auto]. revert H. destruct sup, (has mode LOCK_GAP), (has mode LOCK_INSERT_INTENTION), (lock_rec_get_gap l), (lock_rec_get_rec_not_gap l),
    (lock_rec_get_insert_intention l); simpl; auto.
Qed.

(** ** Waiting for a record *)

Lemma rec_request mode p n_heap h t s sp pn : p = Page sp pn -> (h < n_heap)%nat -> rec_mode mode -> inv None s -> lock_wait (trxs s t) = false ->
  lock_rec_other_has_conflicting mode p h t s = true ->
  let new := new_rec (Z.lor mode LOCK_WAIT) p n_heap h t s in request t new (enqueue new s).
Proof.
  intros Ep L M H W C new. destruct (busy_on s t H W) as [H' E]. destruct (wait_flag_mode mode) as (Em & Ew & _).
  assert (R : is_rec new = true) by (unfold is_rec; cbn; now rewrite Ep).
  assert (Bn : forall j, lock_rec_get_nth_bit new j = Nat.eqb j h) by (intro; now apply new_rec_bit).
  apply (enqueue_request s new); auto.
  - apply new_rec_mode. unfold rec_mode. now rewrite Em.
  - unfold lock_get_wait. cbn. now rewrite (proj1 (stored_flags _ _)).
  - eauto.
  - apply existsb_exists in C as (l & I & C). apply in_record in I as (I & P & B). exists l. split; [assumption|]. split; [assumption|].
    split; [unfold covers; rewrite R; exists h; split; [exact (find_bit_one _ _ 0 Bn)|assumption]|].
    apply stored_conflict in C as (C & T & D). unfold lock_has_to_wait. rewrite R, Bn, (Nat.eqb_sym PAGE_HEAP_NO_SUPREMUM h).
    change (l_trx new) with t. unfold lock_get_mode at 1. change (type_mode new) with (stored (Nat.eqb h PAGE_HEAP_NO_SUPREMUM) (Z.lor mode LOCK_WAIT)).
    apply Nat.eqb_neq in T. rewrite stored_mode, Em, T, D, C. reflexivity.
Qed.

(** The newest lock is ahead of nobody. *)
Lemma newest_blocks_none t l0 s w l : request t l0 s -> In w (locks s) -> blocks s w l -> l_id l <> l_id l0.
Proof.
  intros R I (J & P & L & _) E. pose proof (so_below _ _ _ (i_sound _ _ (rq_inv _ _ _ R)) w I) as B. rewrite (rq_next _ _ _ R) in B. lia.
Qed.

Lemma busy_reset t s l : lock_wait (trxs s t) = false -> l_trx l = t -> lock_reset_lock_and_trx_wait l s = lock_grant l s.
Proof.
  intros W <-. unfold lock_grant. replace (lock_wait _) with false; [reflexivity|]. unfold lock_reset_lock_and_trx_wait. simpl. now rewrite Nat.eqb_refl.
Qed.

(** The bits of a lock that does not wait change. *)
Lemma rebit_sound b g s l f : sound b g s -> In l (locks s) -> lock_get_wait l = false ->
  sound b g (upd_lock (l_id l) (fun x => set_bitmap (f (bitmap x)) x) s).
Proof.
  intros So I W. pose proof So as [A1 A2 A3 A4 A5 A6 A7 A8].
  assert (K : forall x, In x (locks (upd_lock (l_id l) (fun x => set_bitmap (f (bitmap x)) x) s)) -> exists y, In y (locks s)
     /\ l_id x = l_id y /\ l_trx x = l_trx y /\ type_mode x = type_mode y /\ l_place x = l_place y /\ (lock_get_wait x = true -> x = y)).
  { intros x J. apply in_upd_lock in J as (y & J & ->). exists y. split; [assumption|].
    destruct (Nat.eqb_spec (l_id y) (l_id l)) as [E|]; [|auto 9]. apply (numbered_inj _ _ _ A1 J I) in E. subst y. cbn.
    repeat (split; [reflexivity|]). unfold lock_get_wait in *. cbn. congruence. }
  constructor; auto; try (intros x J; destruct (K x J) as (y & Jy & Ei & Et & Em & Ep & Ew)).
  - unfold numbered. replace (map l_id _) with (map l_id (locks s)); [assumption|]. unfold upd_lock. cbn. rewrite map_map.
    apply map_ext. intro x. now destruct (Nat.eqb (l_id x) (l_id l)).
  - rewrite Ei. cbn. auto.
  - unfold lock_get_mode. rewrite Em. now apply A3.
  - intro V. pose proof (Ew V). subst y. exact (A4 x Jy V).
  - intros t i G E. destruct (A5 t i G E) as (x & J & D & T & V). exists x. split; [|auto]. apply in_upd_lock. exists x. split; [assumption|].
    destruct (Nat.eqb_spec (l_id x) (l_id l)) as [F|]; [|reflexivity]. apply (numbered_inj _ _ _ A1 J I) in F. congruence.
  - intro V. pose proof (Ew V). subst y. exact (A8 x Jy V).
Qed.

(** A record request that would close a cycle: its lock stays without a record. *)
Definition abort_rec (h : nat) (l : lock) (s : sys) : sys := upd_lock (l_id l) (lock_rec_reset_nth_bit h) (lock_reset_lock_and_trx_wait l s).

Section abort.
  Context (t : nat) (l0 l : lock) (s : sys) (h : nat) (R : request t l0 s) (I : In l (locks s)) (C : core l = core l0).
  Hypotheses (Rec : is_rec l0 = true) (Bit : forall j, lock_rec_get_nth_bit l0 j = Nat.eqb j h).

Lemma abort_trx : l_trx l = t /\ l_id l = l_id l0 /\ lock_wait (trxs s t) = false.
Proof.
  apply core_inv in C as (-> & -> & _). split; [apply R|]. split; [reflexivity|]. exact (so_busy _ _ _ (i_sound _ _ (rq_inv _ _ _ R)) t eq_refl).
Qed.

Lemma abort_only x : In x (locks s) -> lock_get_wait x = true -> l_trx x = l_trx l -> x = l.
Proof.
  intros J W T. destruct abort_trx as (Tl & D & _). apply (numbered_inj (locks s)); auto; [apply (rq_inv _ _ _ R)|].
  rewrite D. apply R; auto. congruence.
Qed.

(** The locks afterwards: the others, and the aborted one without a record. *)
Lemma abort_old x : In x (locks (abort_rec h l s)) -> (In x (locks s) /\ l_id x <> l_id l)
  \/ (part x l /\ lock_get_wait x = false /\ is_rec x = true /\ forall j, lock_rec_get_nth_bit x j = false).
Proof.
  intro J. unfold abort_rec in J. apply in_upd_lock in J as (y & J & ->). apply in_upd_lock in J as (z & J & ->).
  destruct (Nat.eqb_spec (l_id z) (l_id l)) as [E|N]; [right|left].
  - apply (numbered_inj (locks s)) in E; [|apply (rq_inv _ _ _ R)|exact J|exact I]. subst z. change (l_id (set_mode _ l)) with (l_id l).
    rewrite Nat.eqb_refl. pose proof (core_inv _ _ C) as (_ & _ & P & B & _).
    assert (Z : forall j, lock_rec_get_nth_bit (lock_rec_reset_nth_bit h (granted l)) j = false).
    { intro j. unfold lock_rec_get_nth_bit in *. cbn. rewrite nth_set_nth, B. destruct (Nat.eqb_spec j h) as [-> |N].
      - destruct (Nat.ltb_spec h (List.length (bitmap l0))) as [|F]; [reflexivity|]. simpl. now apply nth_overflow.
      - simpl. rewrite Bit. now apply Nat.eqb_neq. }
    split; [|split; [exact (wait_granted l)|split; [unfold is_rec; cbn; now rewrite P|exact Z]]].
    destruct (part_core _ _ (core_granted l)) as (Q1 & Q2 & Q3 & Q4 & _). repeat (split; [assumption|]). intros j F.
    fold (granted l) in F. rewrite Z in F. discriminate.
  - apply Nat.eqb_neq in N as N'. rewrite N'. auto.
Qed.

Lemma abort_inv : inv None (abort_rec h l s).
Proof.
  destruct abort_trx as (T & D & W). pose proof (rq_inv _ _ _ R) as [So X B A].
  assert (S1 : sound (Some t) None (lock_reset_lock_and_trx_wait l s)) by (rewrite (busy_reset t); auto using grant_sound, abort_only).
  apply (busy_off _ t); [constructor|].
  - set (s1 := lock_reset_lock_and_trx_wait l s) in *. apply (rebit_sound (Some t) None s1 (granted l) (fun b => set_nth b h false)); auto using wait_granted.
    apply in_upd_lock. exists l. rewrite Nat.eqb_refl. auto.
  - intros k l1 l2 I1 I2 L P V H1 H2. apply abort_old in I1 as [[I1 _]|(_ & _ & Y & Z)]; [|unfold holds_record in H1; rewrite Y, Z in H1; discriminate].
    apply abort_old in I2 as [[I2 _]|(_ & _ & Y & Z)]; [|unfold holds_record in H2; rewrite Y, Z in H2; discriminate]. now apply (X k).
  - intros w J V _. apply abort_old in J as [[J N]|(_ & F & _)]; [|congruence]. destruct (B w J V Logic.I) as (k & K). exists k.
    pose proof (newest_blocks_none _ _ _ _ _ R J K) as M. destruct K as (Ik & K). split; [|exact K].
    rewrite <- D in M. apply in_upd_lock. exists k. apply Nat.eqb_neq in M as M'. rewrite M'. split; [|reflexivity].
    apply in_upd_lock. exists k. now rewrite M'.
  - apply (acyclic_below _ s); [|assumption]. split.
    + intros x J. apply abort_old in J as [[J N]|(P & F & _)]; [exists x; auto using part_core|]. exists l. split; [assumption|].
      split; [assumption|congruence].
    + intros u. unfold abort_rec, lock_reset_lock_and_trx_wait. simpl. destruct (Nat.eqb u (l_trx l)); auto.
  - unfold abort_rec, lock_reset_lock_and_trx_wait. simpl. rewrite T, Nat.eqb_refl. reflexivity.
Qed.

End abort.

(** ** The answers to a request *)

(** The lock has been granted. *)
Definition has_got (new : lock) (s : sys) : Prop := exists l, In l (locks s) /\ core l = core new /\ lock_get_wait l = false.

Definition answer (t : nat) (new : lock) (err : db_err) (s : sys) : Prop :=
  inv None s /\
  match err with
  | DB_LOCK_WAIT => lock_wait (trxs s t) = true
  | DB_SUCCESS_LOCKED_REC => has_got new s
  | DB_DEADLOCK => lock_wait (trxs s t) = false
  | DB_SUCCESS => False
  end.

(** The common part of the two functions that enqueue: the search, the way back
    and the wait. *)
Lemma enqueue_answer t new s0 (back : lock -> sys -> sys) : request t new s0 ->
  (forall l s, request t new s -> In l (locks s) -> core l = core new -> inv None (back l s) /\ lock_wait (trxs (back l s) t) = false) ->
  exists err s,
    (let? (deadlock, s) := lock_deadlock_occurs (S (List.length (locks s0))) s0 (l_id new) t 0 in
     let? l := the_lock s (l_id new) in
     if (deadlock : bool) then Some (DB_DEADLOCK, back l s)
     else match wait_lock (trxs s t) with
          | None => Some (DB_SUCCESS_LOCKED_REC, s)
          | Some _ => Some (DB_LOCK_WAIT, go_to_sleep t s)
          end) = Some (err, s) /\ answer t new err s.
Proof.
  intros R Back. destruct (occurs_ok t new (S (List.length (locks s0))) s0 0 (le_n _) R) as (d & s & -> & R' & M).
  cbn [obind]. destruct (request_lock _ _ _ R') as (l & -> & I & C & _). cbn [obind]. destruct d.
  - destruct (Back l s R' I C). eexists _, _. split; [reflexivity|]. split; assumption.
  - destruct (M eq_refl) as (marks & It & Cl). pose proof (rq_inv _ _ _ R') as H. destruct (wait_lock (trxs s t)) as [i|] eqn:E.
    + eexists _, _. split; [reflexivity|]. split; [|rewrite (proj2 (go_to_sleep_trx t s t)), Nat.eqb_refl; reflexivity].
      apply (go_to_sleep_inv t s marks); auto. now rewrite E.
    + eexists _, _. split; [reflexivity|]. split; [now apply (busy_off s t)|]. exists l. split; [assumption|]. split; [assumption|].
      destruct (lock_get_wait l) eqn:W; [|reflexivity]. destruct (so_back _ _ _ (i_sound _ _ H) l I W) as [F _].
      apply core_inv in C as (_ & T & _). rewrite T, (rq_trx _ _ _ R'), E in F. discriminate.
Qed.

Lemma rec_enqueue_ok mode p n_heap h t s sp pn : p = Page sp pn -> (h < n_heap)%nat -> rec_mode mode -> inv None s -> lock_wait (trxs s t) = false ->
  lock_rec_other_has_conflicting mode p h t s = true ->
  exists err s', lock_rec_enqueue_waiting mode p n_heap h t s = Some (err, s') /\ answer t (new_rec (Z.lor mode LOCK_WAIT) p n_heap h t s) err s'.
Proof.
  intros Ep L M H W C. pose proof (rec_request mode p n_heap h t s sp pn Ep L M H W C) as R. cbv zeta in R.
  unfold lock_rec_enqueue_waiting. rewrite (create_waiting None None) by (apply H || apply wait_flag_mode).
  set (new := new_rec (Z.lor mode LOCK_WAIT) p n_heap h t s) in *.
  apply (enqueue_answer t new _ (fun l s => upd_lock (l_id new) (lock_rec_reset_nth_bit h) (lock_reset_lock_and_trx_wait l s)) R).
  intros l s' R' I Cl. assert (Rec : is_rec new = true) by (unfold is_rec; cbn; now rewrite Ep).
  assert (Bn : forall j, lock_rec_get_nth_bit new j = Nat.eqb j h) by (intro; now apply new_rec_bit).
  destruct (abort_trx t new l s' R' Cl) as (T & D & V). rewrite <- D. split; [exact (abort_inv t new l s' h R' I Cl Rec Bn)|].
  unfold lock_reset_lock_and_trx_wait. simpl. rewrite T, Nat.eqb_refl. exact V.
Qed.

(** ** Waiting for a table *)

Definition new_table (table_id mode : Z) (t : nat) (s : sys) : lock := mkLock (next_id s) t (Z.lor mode LOCK_TABLE) (Table table_id) [].

Definition table_mode (mode : Z) : Prop := mode = LOCK_IS \/ mode = LOCK_IX \/ mode = LOCK_S \/ mode = LOCK_X.

Lemma table_mode_stored mode : table_mode mode -> Z.land (Z.lor mode LOCK_TABLE) LOCK_MODE_MASK = mode /\ has (Z.lor mode LOCK_TABLE) LOCK_WAIT = false
  /\ Z.land (Z.lor (Z.lor mode LOCK_WAIT) LOCK_TABLE) LOCK_MODE_MASK = mode /\ has (Z.lor (Z.lor mode LOCK_WAIT) LOCK_TABLE) LOCK_WAIT = true
  /\ has mode LOCK_WAIT = false /\ has (Z.lor mode LOCK_WAIT) LOCK_WAIT = true /\ 0 <= mode <= 3.
Proof. intros [->|[->|[->| ->]]]; repeat split; try reflexivity; discriminate. Qed.

Lemma table_create_granted table_id mode t s : has mode LOCK_WAIT = false ->
  fst (lock_table_create table_id mode t s) = append (new_table table_id mode t s) s.
Proof. intro W. unfold lock_table_create. cbn [fst]. now rewrite W. Qed.

Lemma table_fits table_id mode t s : inv None s -> table_mode mode -> lock_table_other_has_incompatible t table_id mode s = false -> fits (new_table table_id mode t s) s.
Proof.
  intros H M C h l I P T _ _. destruct (table_mode_stored mode M) as (E & _ & _ & _ & _ & _ & Rg). unfold lock_get_mode at 1. cbn [type_mode new_table].
  rewrite E. rewrite lock_mode_compatible_sym; [|assumption|now apply (i_sound _ _ H)]. destruct (lock_mode_compatible _ _) eqn:F; [reflexivity|]. exfalso.
  assert (X : lock_table_other_has_incompatible t table_id mode s = true); [|congruence]. apply existsb_exists. exists l.
  split; [apply in_rev; rewrite rev_involutive; now apply in_queue|]. cbn in T. apply Nat.eqb_neq in T. now rewrite T, F.
Qed.

Lemma table_request table_id mode t s : inv None s -> lock_wait (trxs s t) = false -> table_mode mode ->
  lock_table_other_has_incompatible t table_id mode s = true ->
  let new := new_table table_id (Z.lor mode LOCK_WAIT) t s in request t new (enqueue new s).
Proof.
  intros H W M C new. destruct (busy_on s t H W) as [H' E]. destruct (table_mode_stored mode M) as (_ & _ & Em & Ew & _ & _ & Rg).
  assert (G : lock_get_mode new = mode) by exact Em.
  apply (enqueue_request s new); auto; [now rewrite G|intro; discriminate|].
  apply existsb_exists in C as (l & I & C). apply in_rev, in_queue in I as [I P]. apply andb_prop in C as [T F].
  exists l. split; [assumption|]. split; [assumption|]. split; [exact Logic.I|]. unfold lock_has_to_wait. cbn [is_rec l_place new new_table].
  rewrite G, lock_mode_compatible_sym, F, Nat.eqb_sym; [|assumption|now apply (i_sound _ _ H)]. cbn [l_trx new new_table]. now rewrite T.
Qed.

Definition abort_table (i : nat) (l : lock) (s : sys) : sys := upd_trx (l_trx l) (set_wait_lock None) (remove i s).

Lemma abort_table_inv t new l s : request t new s -> In l (locks s) -> core l = core new -> inv None (abort_table (l_id new) l s)
  /\ lock_wait (trxs (abort_table (l_id new) l s) t) = false.
Proof.
  intros R I C. destruct (abort_trx t new l s R C) as (T & D & W). pose proof (rq_inv _ _ _ R) as [So X B A].
  assert (Wt : forall u, wait_lock (trxs (abort_table (l_id new) l s) u) = (if Nat.eqb u t then None else wait_lock (trxs s u))
    /\ lock_wait (trxs (abort_table (l_id new) l s) u) = lock_wait (trxs s u))
    by (intro u; unfold abort_table; rewrite T, trxs_upd; now destruct (Nat.eqb u t)).
  split; [|now rewrite (proj2 (Wt t))]. apply (busy_off _ t); [|now rewrite (proj1 (Wt t)), Nat.eqb_refl]. rewrite <- D in *.
  pose proof (remove_sound _ s l So I) as [A1 A2 A3 A4 A5 A6 A7 A8]. constructor; [constructor; auto|..].
  - intros x J V. split; [|discriminate]. rewrite (proj1 (Wt _)). destruct (Nat.eqb_spec (l_trx x) t) as [E|]; [|now apply A4].
    apply in_remove in J as [J N]. exfalso. apply N. rewrite D. apply R; auto.
  - intros u i _ E. rewrite (proj1 (Wt _)) in E. destruct (Nat.eqb_spec u t); [discriminate|]. apply A5; [|assumption].
    destruct (lock_get_wait l); congruence.
  - intros u N _. destruct (Wt u) as [-> ->]. destruct (Nat.eqb_spec u t); [congruence|]. apply (so_state _ _ _ So); [assumption|discriminate].
  - intros u N. rewrite (proj2 (Wt u)). now apply (so_busy _ _ _ So).
  - apply (remove_exclusive (l_id l) s X).
  - intros w J V _. apply in_remove in J as [J N]. destruct (B w J V Logic.I) as (k & K). exists k.
    pose proof (newest_blocks_none _ _ _ _ _ R J K) as M. destruct K as (Ik & K). split; [|exact K]. apply in_remove. rewrite D. auto.
  - apply (acyclic_below _ s); [|assumption]. split; [apply (remove_below (l_id l) s)|]. intro u. now rewrite (proj2 (Wt u)).
Qed.

Lemma table_enqueue_ok mode table_id t s : inv None s -> lock_wait (trxs s t) = false -> table_mode mode ->
  lock_table_other_has_incompatible t table_id mode s = true ->
  exists err s', lock_table_enqueue_waiting mode table_id t s = Some (err, s') /\ answer t (new_table table_id (Z.lor mode LOCK_WAIT) t s) err s'.
Proof.
  intros H W M C. pose proof (table_request table_id mode t s H W M C) as R. cbv zeta in R.
  destruct (table_mode_stored mode M) as (_ & _ & _ & Ew & _ & Eq & _). unfold lock_table_enqueue_waiting, lock_table_create. rewrite Eq.
  set (new := new_table table_id (Z.lor mode LOCK_WAIT) t s) in *.
  change (mkSys (locks s ++ [_]) (trxs s) (S (next_id s))) with (append new s).
  change (lock_set_lock_and_trx_wait (next_id s) t (append new s)) with (lock_set_lock_and_trx_wait (l_id new) (l_trx new) (append new s)).
  rewrite (set_wait_newest None None new s (i_sound _ _ H) eq_refl Ew).
  apply (enqueue_answer t new _ (abort_table (l_id new)) R). intros l s' R' I Cl. now apply abort_table_inv.
Qed.

(** ** A record more for a lock *)

Section set_bit.
  Context (b : option nat) (s : sys) (l : lock) (h : nat) (H : inv b s) (I : In l (locks s)) (W : lock_get_wait l = false).
  Hypothesis nobody : forall w, In w (locks s) -> l_place w = l_place l -> lock_get_wait w = true -> lock_rec_get_nth_bit w h = false.
  Hypothesis agrees : forall k, In k (locks s) -> l_place k = l_place l -> l_trx k <> l_trx l -> lock_rec_get_gap l = false ->
    lock_rec_get_insert_intention l = false -> holds_record h k = true -> lock_mode_compatible (lock_get_mode l) (lock_get_mode k) = true.

Let s' : sys := upd_lock (l_id l) (lock_rec_set_nth_bit h) s.

Lemma set_bit_more x : part x (lock_rec_set_nth_bit h x).
Proof.
  unfold part, lock_rec_get_nth_bit. cbn. repeat (split; [reflexivity|]). intros j B. rewrite nth_set_nth. now destruct (_ && _).
Qed.

Lemma set_bit_old x : In x (locks s') -> exists y, In y (locks s) /\ (x = y /\ y <> l \/ y = l /\ x = lock_rec_set_nth_bit h l).
Proof.
  intro J. apply in_upd_lock in J as (y & J & ->). exists y. split; [assumption|]. destruct (Nat.eqb_spec (l_id y) (l_id l)) as [E|].
  - apply (numbered_inj (locks s)) in E; [subst; auto|apply H|assumption..].
  - left. split; congruence.
Qed.

Lemma set_bit_new y : In y (locks s) -> exists x, In x (locks s') /\ part y x.
Proof.
  intro J. eexists. split; [apply in_upd_lock; exists y; split; [assumption|reflexivity]|].
  destruct (Nat.eqb (l_id y) (l_id l)); [apply set_bit_more|now apply part_core].
Qed.

Lemma set_bit_holds k : holds_record k (lock_rec_set_nth_bit h l) = true -> holds_record k l = true
  \/ k = h /\ (is_rec l = true -> lock_rec_get_gap l = false /\ lock_rec_get_insert_intention l = false).
Proof.
  unfold holds_record. change (is_rec (lock_rec_set_nth_bit h l)) with (is_rec l). destruct (is_rec l); [|auto].
  unfold lock_rec_get_nth_bit. cbn [bitmap lock_rec_set_nth_bit set_bitmap]. rewrite nth_set_nth, !andb_true_iff, !negb_true_iff.
  unfold lock_rec_get_gap, lock_rec_get_insert_intention. cbn [type_mode lock_rec_set_nth_bit set_bitmap].
  destruct (Nat.eqb_spec k h); [tauto|]. simpl. tauto.
Qed.

Lemma set_bit_exclusive : is_rec l = true -> exclusive s'.
Proof.
  intros R k x1 x2 J1 J2 L P T H1 H2. destruct (set_bit_old _ J1) as (y1 & I1 & E1), (set_bit_old _ J2) as (y2 & I2 & E2).
  pose proof (so_mode _ _ _ (i_sound _ _ H)) as Mo. pose proof (i_exclusive _ _ H k) as X.
  destruct E1 as [[-> N1]|[-> ->]], E2 as [[-> N2]|[-> ->]]; cbn in L; [now apply X| | |lia].
  - destruct (set_bit_holds _ H2) as [K|[-> K]]; [exact (X y1 l I1 I L P T H1 K)|]. left. apply agrees; auto; now apply K.
  - destruct (set_bit_holds _ H1) as [K|[-> K]]; [exact (X l y2 I I2 L P T K H2)|]. left.
    change (lock_get_mode (lock_rec_set_nth_bit h l)) with (lock_get_mode l). rewrite lock_mode_compatible_sym by auto.
    apply agrees; auto; now apply K.
Qed.

Lemma set_bit_inv : is_rec l = true -> inv b s'.
Proof.
  intro R. pose proof H as [So X B A]. constructor.
  - exact (rebit_sound b None s l (fun x => set_nth x h true) So I W).
  - now apply set_bit_exclusive.
  - intros w J V _. destruct (set_bit_old _ J) as (y & Jy & [[-> _]|[-> ->]]); [|unfold lock_get_wait in *; cbn in V; congruence].
    destruct (B y Jy V Logic.I) as (k & K). destruct (set_bit_new k (proj1 K)) as (k' & Ik & Pk). exists k'.
    apply (blocks_part s' s y y k k'); auto using part_core.
  - apply (acyclic_sub _ s); [|assumption]. intros t u (Lw & w & k' & J & V & T & K & U). split; [exact Lw|].
    destruct (set_bit_old _ J) as (y & Jy & [[-> _]|[-> ->]]); [|unfold lock_get_wait in *; cbn in V; congruence].
    destruct (set_bit_old _ (proj1 K)) as (k & Ik & [[-> _]|[-> ->]]); [exists y, k|exists y, l]; (repeat (split; [assumption|]); split; [|assumption]).
    + destruct K as (_ & K). split; assumption.
    + destruct K as (_ & P & L & C & F). split; [assumption|]. split; [assumption|]. split; [assumption|].
      split; [|rewrite (has_to_wait_part y y l (lock_rec_set_nth_bit h l)); auto using part_core, set_bit_more].
      unfold covers in *. destruct (is_rec y) eqn:Ry; [|exact Logic.I]. destruct C as (k & E & Bk). exists k. split; [assumption|].
      unfold lock_rec_get_nth_bit in Bk |- *. cbn in Bk. rewrite nth_set_nth in Bk. destruct (Nat.eqb_spec k h) as [-> |]; [|exact Bk].
      destruct (so_bit _ _ _ So y Jy V Ry) as (h0 & B0). assert (Some h0 = Some h) as Eh by (rewrite <- E; symmetry; exact (find_bit_one _ _ 0 B0)).
      injection Eh as ->. pose proof (nobody y Jy (eq_sym P) V) as F0. rewrite B0, Nat.eqb_refl in F0. discriminate.
Qed.

End set_bit.
