(* ===== verification/InnoRow.v ===== *)
(** Records that give up their locks: unlocking, and the inheritance of locks when
    a record is inserted or removed keep the invariant of the lock system. *)

From Stdlib Require Import ZArith Lia List Bool PeanoNat Relations.
From S2P Require Import Prelude Words InnoLock InnoInv InnoDead InnoReq.
Import ListNotations.
Local Open Scope Z_scope.
Local Open Scope fail_scope.

(** ** A record less for a lock *)

Lemma reset_less h x : part (lock_rec_reset_nth_bit h x) x.
Proof.
  unfold part, lock_rec_get_nth_bit. cbn. repeat (split; [reflexivity|]). intros j. rewrite nth_set_nth. now destruct (_ && _).
Qed.

Lemma reset_clears h x : lock_rec_get_nth_bit (lock_rec_reset_nth_bit h x) h = false.
Proof.
  unfold lock_rec_get_nth_bit. cbn. rewrite nth_set_nth, Nat.eqb_refl. destruct (Nat.ltb_spec h (List.length (bitmap x))) as [|F]; [reflexivity|].
  simpl. now apply nth_overflow.
Qed.

Lemma reset_keeps h x j : j <> h -> lock_rec_get_nth_bit (lock_rec_reset_nth_bit h x) j = lock_rec_get_nth_bit x j.
Proof. intro N. unfold lock_rec_get_nth_bit. cbn. rewrite nth_set_nth. now apply Nat.eqb_neq in N as ->. Qed.

(** Waiting for something else than the record [h] of the page [p]. *)
Definition elsewhere (p : place) (h : nat) (w : lock) : Prop := l_place w <> p \/ lock_rec_get_nth_bit w h = false.

Lemma elsewhere_covers b g s p h w k : sound b g s -> In w (locks s) -> lock_get_wait w = true -> elsewhere p h w -> l_place w = p ->
  is_rec w = true -> lock_rec_find_set_bit w = Some k -> k <> h.
Proof.
  intros So I W [P|P] Q R F ->; [contradiction|]. destruct (so_bit _ _ _ So w I W R) as (h0 & B).
  assert (Some h0 = Some h) as E by (rewrite <- F; symmetry; exact (find_bit_one _ _ 0 B)). injection E as ->.
  rewrite B, Nat.eqb_refl in P. discriminate.
Qed.

Section reset.
  Context (b g : option nat) (s : sys) (l : lock) (h : nat).
  Context (So : sound b g s) (I : In l (locks s)) (W : lock_get_wait l = false).

Let s1 : sys := upd_lock (l_id l) (lock_rec_reset_nth_bit h) s.

Lemma reset_old x : In x (locks s1) -> exists y, In y (locks s) /\ (x = y /\ y <> l \/ y = l /\ x = lock_rec_reset_nth_bit h l).
Proof.
  intro J. apply in_upd_lock in J as (y & J & ->). exists y. split; [assumption|]. destruct (Nat.eqb_spec (l_id y) (l_id l)) as [E|].
  - apply (numbered_inj (locks s)) in E; [subst; auto|apply So|assumption..].
  - left. split; congruence.
Qed.

Lemma reset_wait x : In x (locks s1) -> lock_get_wait x = true -> In x (locks s) /\ x <> l.
Proof.
  intros J V. destruct (reset_old x J) as (y & Jy & [[-> N]|[-> ->]]); [auto|]. unfold lock_get_wait in *. cbn in V. congruence.
Qed.

Lemma reset_parts x : In x (locks s1) ->
  exists y, In y (locks s) /\ part x y /\ (lock_get_wait x = true -> x = y) /\ (lock_get_wait y = true -> x = y).
Proof.
  intro J. destruct (reset_old x J) as (y & Jy & [[-> _]|[-> ->]]); exists y || exists l; (split; [assumption|]).
  - auto using part_core.
  - split; [apply reset_less|]. unfold lock_get_wait in *. cbn. split; congruence.
Qed.

Lemma reset_below : below s1 s.
Proof.
  split; [|intros t V; exact V]. intros x J. destruct (reset_parts x J) as (y & Jy & P & E & _). exists y.
  split; [assumption|]. split; [assumption|]. intro V. pose proof (E V). subst y. auto.
Qed.

Lemma reset_sound : sound b g s1.
Proof. exact (rebit_sound b g s l (fun x => set_nth x h false) So I W). Qed.

Lemma reset_exclusive : exclusive s -> exclusive s1.
Proof.
  intro X. apply (exclusive_part b g s s1 So X). intros x J. destruct (reset_parts x J) as (y & Jy & P & _ & E). exists y.
  split; [assumption|]. split; [assumption|]. intro V. pose proof (E V). subst y. auto.
Qed.

(** Who waits for another record is blocked as before. *)
Lemma reset_blocked : blocked_if (elsewhere (l_place l) h) s -> blocked_if (elsewhere (l_place l) h) s1.
Proof.
  intros B w J V P. destruct (reset_wait w J V) as [Jw _]. destruct (B w Jw V P) as (k & Ik & Pk & Lk & Ck & Hk).
  destruct (Nat.eq_dec (l_id k) (l_id l)) as [E|N].
  - apply (numbered_inj (locks s)) in E; [subst k|apply So|assumption..]. exists (lock_rec_reset_nth_bit h l).
    split; [apply in_upd_lock; exists l; rewrite Nat.eqb_refl; auto|]. split; [exact Pk|]. split; [exact Lk|].
    split; [|rewrite (has_to_wait_part w w _ l); auto using part_core, reset_less].
    unfold covers in *. destruct (is_rec w) eqn:R; [|exact Logic.I]. destruct Ck as (j & E & Bj). exists j. split; [assumption|].
    rewrite reset_keeps; [assumption|]. exact (elsewhere_covers b g s _ h w j So Jw V P (eq_sym Pk) R E).
  - exists k. split; [|auto]. apply in_upd_lock. exists k. apply Nat.eqb_neq in N. rewrite N. auto.
Qed.

End reset.

Lemma blocked_weaken P s : blocked_if (fun _ => True) s -> blocked_if P s.
Proof. intros B w I W _. exact (B w I W Logic.I). Qed.

Lemma unlock_inv s l h : inv None s -> In l (locks s) -> lock_get_wait l = false ->
  inv None (grant_waiting (upd_lock (l_id l) (lock_rec_reset_nth_bit h) s) (map l_id (on_record s (l_place l) h))).
Proof.
  intros H I W. pose proof (i_sound _ _ H) as S0. pose proof (reset_sound None None s l h S0 I W) as So.
  pose proof (reset_exclusive None None s l h S0 I W (i_exclusive _ _ H)) as X. pose proof (reset_below None None s l h S0 I W) as Be.
  pose proof (reset_blocked None None s l h S0 I W (blocked_weaken _ _ (i_blocked _ _ H))) as B.
  set (s1 := upd_lock (l_id l) (lock_rec_reset_nth_bit h) s) in *. set (ids := map l_id (on_record s (l_place l) h)).
  destruct (grant_waiting_ok None None ids s1 So X) as [G B2]. constructor; try apply G.
  - intros w J V _. destruct (grants_wait _ _ _ _ w So G J V) as (y & J1 & V1 & C). destruct (reset_wait None None s l h S0 I W y J1 V1) as [Jy _].
    destruct (place_eqb_spec (l_place y) (l_place l)) as [P|N]; [destruct (lock_rec_get_nth_bit y h) eqn:Bit|].
    + apply B2; auto. apply core_inv in C as (-> & _). apply in_map, in_record. auto.
    + apply (blocked_core s1 _ y); auto; [apply G|]. apply B; auto. now right.
    + apply (blocked_core s1 _ y); auto; [apply G|]. apply B; auto. now left.
  - apply (acyclic_below _ s); [|apply H]. apply (below_trans _ s1); [apply G|assumption].
Qed.

(** ** The locks of a record that goes away *)

(** Cancelling is granting, and taking the record away. *)
Lemma cancel_is_grant b s l h : sound b None s -> In l (locks s) -> lock_get_wait l = true -> lock_rec_find_set_bit l = Some h -> lock_wait (trxs s (l_trx l)) = true ->
  lock_rec_cancel l s = Some (upd_lock (l_id l) (lock_rec_reset_nth_bit h) (lock_grant l s)).
Proof.
  intros So I W F L. unfold lock_rec_cancel. rewrite F. cbn [obind]. f_equal. unfold lock_grant.
  replace (lock_wait _) with true by (unfold lock_reset_lock_and_trx_wait; simpl; now rewrite Nat.eqb_refl).
  unfold trx_end_lock_wait, lock_reset_lock_and_trx_wait, upd_trx, upd_lock. cbn [locks trxs next_id]. f_equal. rewrite !map_map.
  apply map_ext. intro x. destruct (Nat.eqb (l_id x) (l_id l)) eqn:E; cbn; now rewrite E.
Qed.

(** A waiting lock of the record that goes away. *)
Section cancel.
  Context (s : sys) (l : lock) (h : nat) (So : sound None None s) (I : In l (locks s)) (W : lock_get_wait l = true) (Rec : is_rec l = true).
  Hypothesis Bit : lock_rec_get_nth_bit l h = true.

Let s1 : sys := upd_lock (l_id l) (lock_rec_reset_nth_bit h) (lock_grant l s).

Lemma cancel_bits j : lock_rec_get_nth_bit l j = Nat.eqb j h.
Proof.
  destruct (so_bit _ _ _ So l I W Rec) as (h0 & B). rewrite B in *. apply Nat.eqb_eq in Bit. now subst h0.
Qed.

Lemma cancel_some : lock_rec_cancel l s = Some s1.
Proof.
  apply (cancel_is_grant None); auto; [exact (find_bit_one _ _ 0 cancel_bits)|]. destruct (so_back _ _ _ So l I W) as [E _].
  rewrite (so_state _ _ _ So _ ltac:(discriminate) ltac:(discriminate)), E. reflexivity.
Qed.

Lemma granted_in : In (granted l) (locks (lock_grant l s)).
Proof. apply in_grant. exists l. rewrite Nat.eqb_refl. auto. Qed.

Lemma cancel_sound : sound None None s1 /\ below s1 s.
Proof.
  pose proof (grant_sound None None s l So I (wait_unique None None s l So I W)) as S2.
  split; [exact (reset_sound None None _ (granted l) h S2 granted_in (wait_granted l))|].
  apply (below_trans _ (lock_grant l s)); [|exact (grant_below None None s l So I)].
  exact (reset_below None None _ (granted l) h S2 granted_in (wait_granted l)).
Qed.

(** The locks afterwards: the others, and the cancelled one without a record. *)
Lemma cancel_old x : In x (locks s1) -> (In x (locks s) /\ x <> l)
  \/ (l_id x = l_id l /\ lock_get_wait x = false /\ is_rec x = true /\ forall j, lock_rec_get_nth_bit x j = false).
Proof.
  pose proof (grant_sound None None s l So I (wait_unique None None s l So I W)) as S2. intro J.
  destruct (reset_old None None _ (granted l) h S2 granted_in x J) as (y & Jy & [[-> N]|[-> ->]]).
  - left. destruct (grant_old None None s l So I y Jy) as (z & Jz & C & [[-> V]|[M ->]]); [|auto]. exfalso. apply N.
    apply (numbered_inj _ _ _ (so_numbered _ _ _ S2) Jy granted_in). apply core_inv in C as (-> & _). reflexivity.
  - right. split; [reflexivity|]. split; [exact (wait_granted l)|]. split; [exact Rec|]. intro j. destruct (Nat.eq_dec j h) as [-> |N].
    + apply reset_clears.
    + rewrite reset_keeps by assumption. change (lock_rec_get_nth_bit (granted l) j) with (lock_rec_get_nth_bit l j).
      rewrite cancel_bits. now apply Nat.eqb_neq.
Qed.

Lemma cancel_keeps x : In x (locks s) -> x <> l -> In x (locks s1).
Proof.
  intros J N. assert (M : l_id x <> l_id l) by (intro E; exact (N (numbered_inj _ _ _ (so_numbered _ _ _ So) J I E))).
  apply Nat.eqb_neq in M. apply in_upd_lock. exists x. rewrite M. split; [|reflexivity]. apply in_grant. exists x. now rewrite M.
Qed.

Lemma cancel_exclusive : exclusive s -> exclusive s1.
Proof.
  intros X k l1 l2 I1 I2 L P V H1 H2. apply cancel_old in I1 as [[I1 _]|(_ & _ & Y & Z)]; [|unfold holds_record in H1; rewrite Y, Z in H1; discriminate].
  apply cancel_old in I2 as [[I2 _]|(_ & _ & Y & Z)]; [|unfold holds_record in H2; rewrite Y, Z in H2; discriminate]. now apply (X k).
Qed.

Lemma cancel_blocked : blocked_if (elsewhere (l_place l) h) s -> blocked_if (elsewhere (l_place l) h) s1.
Proof.
  intros B w J V P. apply cancel_old in J as [[J N]|(_ & F & _)]; [|congruence]. destruct (B w J V P) as (k & K). exists k.
  destruct K as (Ik & Pk & Lk & Ck & Hk). split; [|auto]. apply cancel_keeps; [assumption|]. intros ->.
  assert (R : is_rec w = true) by (unfold is_rec in *; now rewrite <- Pk). unfold covers in Ck. rewrite R in Ck. destruct Ck as (j & E & Bj).
  apply (elsewhere_covers None None s _ h w j So J V P (eq_sym Pk) R E). rewrite cancel_bits in Bj. now apply Nat.eqb_eq.
Qed.

End cancel.

(** Granted locks stay, on the record [h] at least. *)
Definition carries (h : nat) (s s' : sys) : Prop := forall x, In x (locks s) -> lock_get_wait x = false ->
  exists x', In x' (locks s') /\ l_trx x' = l_trx x /\ l_place x' = l_place x /\ type_mode x' = type_mode x
    /\ (lock_rec_get_nth_bit x h = true -> lock_rec_get_nth_bit x' h = true).

Lemma carries_refl h s : carries h s s.
Proof. intros x I _. exists x. auto. Qed.

Lemma carries_trans h s1 s2 s3 : carries h s1 s2 -> carries h s2 s3 -> carries h s1 s3.
Proof.
  intros A B x I W. destruct (A x I W) as (y & J & T & P & M & K). destruct (B y J) as (z & Jz & Tz & Pz & Mz & Kz).
  - unfold lock_get_wait in *. now rewrite M.
  - exists z. split; [assumption|]. repeat (split; [congruence|]). auto.
Qed.

Lemma upd_carries h s i f : (forall x, l_trx (f x) = l_trx x /\ l_place (f x) = l_place x /\ type_mode (f x) = type_mode x
  /\ (lock_rec_get_nth_bit x h = true -> lock_rec_get_nth_bit (f x) h = true)) -> carries h s (upd_lock i f s).
Proof.
  intros F x I _. eexists. split; [apply in_upd_lock; exists x; split; [exact I|reflexivity]|].
  destruct (Nat.eqb (l_id x) i); [apply F|auto].
Qed.

(** What the loop of [lock_rec_reset_and_release_wait] keeps: [left] are the locks
    that it has still to visit. *)
Record releasing (p : place) (h : nat) (left : list nat) (s0 s : sys) : Prop := mkReleasing {
  re_sound : sound None None s;
  re_exclusive : exclusive s;
  re_below : below s s0;
  re_blocked : blocked_if (elsewhere p h) s;
  re_carries : forall j, j <> h -> carries j s0 s;
  re_left : forall l, In l (locks s) -> l_place l = p -> lock_rec_get_nth_bit l h = true -> In (l_id l) left;
  re_here : forall i, In i left -> exists l, In l (locks s) /\ l_id l = i /\ l_place l = p /\ lock_rec_get_nth_bit l h = true
}.

Section release.
  Context (sp pn : Z) (h : nat) (s0 : sys).

Let p : place := Page sp pn.

(** The locks after a turn are the others as they were, and one without the record. *)
Lemma releasing_next i ids s s' l : NoDup (i :: ids) -> releasing p h (i :: ids) s0 s -> In l (locks s) -> l_id l = i ->
  sound None None s' -> exclusive s' -> below s' s -> blocked_if (elsewhere p h) s' -> (forall j, j <> h -> carries j s s') ->
  (forall x, In x (locks s') -> (In x (locks s) /\ x <> l) \/ lock_rec_get_nth_bit x h = false) ->
  (forall x, In x (locks s) -> x <> l -> In x (locks s')) -> releasing p h ids s0 s'.
Proof.
  intros ND [R1 R2 R3 R4 Rc R5 R6] I D S' X' Be B' Ca Old Keep. inversion_clear ND as [|? ? Ni ND']. constructor; auto.
  - exact (below_trans _ _ _ Be R3).
  - intros j N. exact (carries_trans _ _ _ _ (Rc j N) (Ca j N)).
  - intros x J P Bx. destruct (Old x J) as [[K N]|F]; [|congruence]. destruct (R5 x K P Bx) as [E|E]; [|assumption].
    exfalso. apply N, (numbered_inj _ _ _ (so_numbered _ _ _ R1) K I). congruence.
  - intros j J. destruct (R6 j (or_intror J)) as (x & K & E & Q). exists x. split; [|auto]. apply Keep; [assumption|]. intros ->. congruence.
Qed.

Lemma releasing_step i ids s : NoDup (i :: ids) -> releasing p h (i :: ids) s0 s ->
  exists l s', the_lock s i = Some l /\ releasing p h ids s0 s'
    /\ (if lock_get_wait l then lock_rec_cancel l s else Some (upd_lock i (lock_rec_reset_nth_bit h) s)) = Some s'.
Proof.
  intros ND R. pose proof R as [R1 R2 R3 R4 _ R5 R6]. destruct (R6 i (or_introl eq_refl)) as (l & I & D & P & B).
  assert (Rec : is_rec l = true) by (unfold is_rec; now rewrite P). rewrite <- P in R4. exists l. destruct (lock_get_wait l) eqn:W.
  - exists (upd_lock (l_id l) (lock_rec_reset_nth_bit h) (lock_grant l s)). split; [rewrite <- D; apply the_lock_some; [apply R1|assumption]|].
    split; [|now apply cancel_some]. destruct (cancel_sound s l h R1 I W).
    apply (releasing_next i ids s _ l); auto; [now apply cancel_exclusive|fold p; rewrite <- P; now apply cancel_blocked| | |].
    + intros j _ x J V. exists x. split; [|auto]. apply cancel_keeps; auto. congruence.
    + intros x J. destruct (cancel_old s l h R1 I W Rec B x J) as [K|(_ & _ & _ & K)]; auto.
    + intros x. now apply cancel_keeps.
  - exists (upd_lock (l_id l) (lock_rec_reset_nth_bit h) s). split; [rewrite <- D; apply the_lock_some; [apply R1|assumption]|].
    split; [|now rewrite D]. apply (releasing_next i ids s _ l); auto.
    + exact (reset_sound None None s l h R1 I W).
    + exact (reset_exclusive None None s l h R1 I W R2).
    + exact (reset_below None None s l h R1 I W).
    + fold p. rewrite <- P. exact (reset_blocked None None s l h R1 I W R4).
    + intros j N. apply upd_carries. intro x. repeat (split; [reflexivity|]). now rewrite reset_keeps.
    + intros x J. destruct (reset_old None None s l h R1 I x J) as (y & Jy & [[-> N]|[-> ->]]); [auto|right; apply reset_clears].
    + intros x J N. apply in_upd_lock. exists x. split; [assumption|]. destruct (Nat.eqb_spec (l_id x) (l_id l)) as [E|]; [|reflexivity].
      now apply (numbered_inj _ _ _ (so_numbered _ _ _ R1) J I) in E.
Qed.

Lemma reset_and_release_ok ids : forall s, NoDup ids -> releasing p h ids s0 s ->
  exists s', reset_and_release h ids s = Some s' /\ releasing p h [] s0 s'.
Proof.
  induction ids as [|i ids IH]; intros s ND R; [exists s; split; [reflexivity|assumption]|].
  destruct (releasing_step i ids s ND R) as (l & s1 & E & R1 & F).
  simpl. rewrite E. cbn [obind]. rewrite F. cbn [obind]. apply IH; [now inversion ND|assumption].
Qed.

End release.

Lemma numbered_nodup ls : numbered ls -> NoDup (map l_id ls).
Proof.
  unfold numbered. induction ls as [|l ls IH]; simpl; intro N; constructor; inversion_clear N as [|? ? S F]; auto.
  rewrite Forall_forall in F. intro I. specialize (F _ I). lia.
Qed.

Lemma reset_and_release_wait_ok sp pn h s : inv None s ->
  exists s', lock_rec_reset_and_release_wait (Page sp pn) h s = Some s' /\ inv None s' /\ on_record s' (Page sp pn) h = []
    /\ forall j, j <> h -> carries j s s'.
Proof.
  intro H. unfold lock_rec_reset_and_release_wait.
  destruct (reset_and_release_ok sp pn h s (map l_id (on_record s (Page sp pn) h)) s) as (s' & E & [R1 R2 R3 R4 Rc R5 _]).
  - apply numbered_nodup. unfold on_record, queue. apply numbered_filter, numbered_filter, H.
  - constructor; try apply H; [apply below_refl|exact (blocked_weaken _ _ (i_blocked _ _ H))|intros; apply carries_refl|..].
    + intros l I P B. apply in_map, in_record. auto.
    + intros i J. apply in_map_iff in J as (l & <- & J). apply in_record in J as (I & P & B). eauto.
  - exists s'. split; [assumption|]. split; [constructor; auto|split; [|assumption]].
    + intros w I W _. apply R4; auto. destruct (place_eqb_spec (l_place w) (Page sp pn)) as [P|]; [right|now left].
      destruct (lock_rec_get_nth_bit w h) eqn:B; [|reflexivity]. destruct (R5 w I P B).
    + apply (acyclic_below _ s); [assumption|apply H].
    + destruct (on_record s' (Page sp pn) h) as [|l r] eqn:Q; [reflexivity|]. exfalso.
      assert (J : In l (on_record s' (Page sp pn) h)) by (rewrite Q; now left). apply in_record in J as (I & P & B). exact (R5 l I P B).
Qed.

(** ** Inheriting *)

Lemma gap_mode_facts m : 0 <= m <= 3 -> let g := Z.lor LOCK_REC (Z.lor LOCK_GAP m) in
  Z.land g LOCK_MODE_MASK = m /\ has g LOCK_WAIT = false /\ has g LOCK_GAP = true /\ has g LOCK_REC_NOT_GAP = false
  /\ has g LOCK_INSERT_INTENTION = false /\ Z.lor g LOCK_REC = g.
Proof. intros M g. assert (m = 0 \/ m = 1 \/ m = 2 \/ m = 3) as [-> |[-> |[-> | ->]]] by lia; repeat split; reflexivity. Qed.

(** The mode of the lock that an heir gets. *)
Definition heir_mode (heir : nat) (m : Z) : Z :=
  let g := Z.lor LOCK_REC (Z.lor LOCK_GAP m) in
  if Nat.eqb heir PAGE_HEAP_NO_SUPREMUM then without g (Z.lor LOCK_GAP LOCK_REC_NOT_GAP) else g.

Lemma heir_mode_facts heir m : 0 <= m <= 3 -> Z.land (heir_mode heir m) LOCK_MODE_MASK = m /\ has (heir_mode heir m) LOCK_WAIT = false
  /\ has (heir_mode heir m) LOCK_GAP = negb (Nat.eqb heir PAGE_HEAP_NO_SUPREMUM) /\ has (heir_mode heir m) LOCK_REC_NOT_GAP = false
  /\ has (heir_mode heir m) LOCK_INSERT_INTENTION = false.
Proof.
  intro M. destruct (gap_mode_facts m M) as (Gm & Gw & Gg & Gr & Gi & _). unfold heir_mode. cbv zeta. destruct (Nat.eqb heir PAGE_HEAP_NO_SUPREMUM); [|auto].
  assert (0 <= m <= 3 -> m = 0 \/ m = 1 \/ m = 2 \/ m = 3) as K by lia. destruct (K M) as [-> |[-> |[-> | ->]]]; repeat split; reflexivity.
Qed.

Section inherit.
  Context (sp pn : Z) (n_heap heir : nat) (s : sys) (l : lock).
  Hypotheses (L : (heir < n_heap)%nat) (H : inv None s) (M : 0 <= lock_get_mode l <= 3).

Let p : place := Page sp pn.
Let m1 : Z := heir_mode heir (lock_get_mode l).
Let new : lock := new_rec m1 p n_heap heir (l_trx l) s.

Lemma inherit_cases : inherit p n_heap heir s l = append new s
  \/ exists x, In x (locks s) /\ l_place x = p /\ l_trx x = l_trx l /\ type_mode x = m1 /\ Nat.ltb heir (List.length (bitmap x)) = true
       /\ (forall w, In w (locks s) -> l_place w = p -> lock_get_wait w = true -> lock_rec_get_nth_bit w heir = false)
       /\ inherit p n_heap heir s l = upd_lock (l_id x) (lock_rec_set_nth_bit heir) s.
Proof.
  destruct (heir_mode_facts heir _ M) as (_ & W1 & _). unfold inherit, lock_rec_add_to_queue. cbv zeta.
  replace (Z.lor (Z.lor LOCK_REC (Z.lor LOCK_GAP (lock_get_mode l))) LOCK_REC) with (Z.lor LOCK_REC (Z.lor LOCK_GAP (lock_get_mode l)))
    by (symmetry; apply (gap_mode_facts _ M)).
  change (if Nat.eqb heir PAGE_HEAP_NO_SUPREMUM then _ else _) with m1. rewrite create_granted by exact W1. fold new.
  replace (has m1 LOCK_WAIT) with false by (symmetry; exact W1). cbn [negb]. destruct (existsb _ _) eqn:Q; [auto|].
  destruct (lock_rec_find_similar_on_page m1 heir (l_trx l) (queue s p)) as [x|] eqn:F; [|auto]. right. exists x.
  apply find_some in F as [I F]. apply in_queue in I as [I P]. rewrite !andb_true_iff, Nat.eqb_eq, Z.eqb_eq in F. destruct F as [[T Mx] B].
  repeat (split; [assumption|]). split; [|reflexivity]. intros w J V K. destruct (lock_rec_get_nth_bit w heir) eqn:Z; [|reflexivity]. exfalso.
  assert (Y : existsb (fun k => lock_get_wait k && lock_rec_get_nth_bit k heir) (queue s p) = true); [|congruence].
  apply existsb_exists. exists w. split; [now apply in_queue|now rewrite K, Z].
Qed.

(** A lock of this mode on the heir holds no record. *)
Lemma new_holds_none j : holds_record j new = false.
Proof.
  unfold holds_record. change (is_rec new) with true. cbv iota. replace (lock_rec_get_nth_bit new j) with (Nat.eqb j heir) by (symmetry; now apply new_rec_bit).
  destruct (Nat.eqb_spec j heir) as [-> |]; [|reflexivity]. destruct (Nat.eqb heir PAGE_HEAP_NO_SUPREMUM) eqn:S; [reflexivity|].
  change (lock_rec_get_gap new) with (has (stored (Nat.eqb heir PAGE_HEAP_NO_SUPREMUM) m1) LOCK_GAP).
  rewrite (proj1 (proj2 (stored_flags _ m1))). unfold m1. rewrite (proj1 (proj2 (proj2 (heir_mode_facts heir _ M)))), S. reflexivity.
Qed.

Lemma inherit_inv : inv None (inherit p n_heap heir s l).
Proof.
  destruct (heir_mode_facts heir _ M) as (Mm & W1 & G1 & _). destruct inherit_cases as [-> |(x & I & P & T & Mx & B & N & ->)].
  - apply append_granted; auto.
    + unfold lock_get_mode. change (type_mode new) with (stored (Nat.eqb heir PAGE_HEAP_NO_SUPREMUM) m1). rewrite stored_mode. unfold m1. lia.
    + unfold lock_get_wait. change (type_mode new) with (stored (Nat.eqb heir PAGE_HEAP_NO_SUPREMUM) m1). rewrite (proj1 (stored_flags _ m1)). exact W1.
    + intros j k _ _ _ _ Hj. rewrite new_holds_none in Hj. discriminate.
  - apply set_bit_inv; auto; [unfold lock_get_wait; now rewrite Mx|intros w J V; apply N; congruence| |unfold is_rec; now rewrite P].
    intros k J V _ G _ Hk. exfalso. unfold lock_rec_get_gap in G. rewrite Mx in G. unfold m1 in G. rewrite G1 in G. apply negb_false_iff in G.
    unfold holds_record in Hk. assert (R : is_rec k = true) by (unfold is_rec; now rewrite V, P). rewrite R, G in Hk.
    cbn [negb] in Hk. rewrite andb_false_r in Hk. discriminate.
Qed.

End inherit.

Lemma inherit_all_inv sp pn n_heap heir ls : forall s, (heir < n_heap)%nat -> inv None s -> (forall l, In l ls -> 0 <= lock_get_mode l <= 3) ->
  inv None (fold_left (inherit (Page sp pn) n_heap heir) ls s).
Proof.
  induction ls as [|l ls IH]; intros s L H M; [assumption|]. apply IH; [assumption| |intros; apply M; now right].
  apply inherit_inv; auto. apply M. now left.
Qed.

Lemma record_modes f s p h l : inv None s -> In l (filter f (on_record s p h)) -> 0 <= lock_get_mode l <= 3.
Proof. intros H I. apply filter_In in I as [I _]. apply in_record in I as [I _]. exact (so_mode _ _ _ (i_sound _ _ H) l I). Qed.

Lemma lock_update_insert_inv sp pn n_heap h next s : inv None s -> (h < n_heap)%nat -> inv None (lock_update_insert (Page sp pn) n_heap h next s).
Proof. intros H L. apply inherit_all_inv; auto. intros l. now apply record_modes. Qed.

(** ** What heirs get *)

(** The transaction [t] has a granted lock of the mode [m] on the gap before [h]. *)
Definition gap_held (m : Z) (p : place) (h t : nat) (s : sys) : Prop :=
  exists x, In x (locks s) /\ l_trx x = t /\ l_place x = p /\ lock_rec_get_nth_bit x h = true /\ lock_get_wait x = false
    /\ lock_get_mode x = m /\ lock_rec_get_rec_not_gap x = false /\ lock_rec_get_insert_intention x = false.

Lemma carries_held m p h t s s' : carries h s s' -> gap_held m p h t s -> gap_held m p h t s'.
Proof.
  intros C (x & I & T & P & B & W & R). destruct (C x I W) as (y & J & Ty & Py & My & K). exists y.
  unfold lock_get_wait, lock_get_mode, lock_rec_get_rec_not_gap, lock_rec_get_insert_intention in *. rewrite My.
  split; [assumption|]. split; [congruence|]. split; [congruence|]. auto.
Qed.

Section heirs.
  Context (sp pn : Z) (n_heap heir : nat) (L : (heir < n_heap)%nat).

Let p : place := Page sp pn.

Lemma inherit_carries s l : 0 <= lock_get_mode l <= 3 -> carries heir s (inherit p n_heap heir s l).
Proof.
  intro M. destruct (inherit_cases sp pn n_heap heir s l M) as [E|(x & _ & _ & _ & _ & _ & _ & E)]; fold p in E; rewrite E.
  - intros x I _. exists x. split; [apply in_append; auto|auto].
  - apply upd_carries. intro y. repeat (split; [reflexivity|]). apply set_bit_more.
Qed.

Lemma inherit_gives s l : 0 <= lock_get_mode l <= 3 -> gap_held (lock_get_mode l) p heir (l_trx l) (inherit p n_heap heir s l).
Proof.
  intro M. destruct (heir_mode_facts heir _ M) as (Mm & W1 & _ & R1 & I1).
  destruct (inherit_cases sp pn n_heap heir s l M) as [E|(x & I & P & T & Mx & B & _ & E)]; fold p in E; rewrite E.
  - eexists. split; [apply in_append; right; reflexivity|]. split; [reflexivity|]. split; [reflexivity|].
    split; [fold p; rewrite new_rec_bit by assumption; apply Nat.eqb_refl|].
    set (st := stored (Nat.eqb heir PAGE_HEAP_NO_SUPREMUM) (heir_mode heir (lock_get_mode l))).
    change (has st LOCK_WAIT = false /\ Z.land st LOCK_MODE_MASK = lock_get_mode l /\ has st LOCK_REC_NOT_GAP = false
      /\ has st LOCK_INSERT_INTENTION = false). unfold st.
    destruct (stored_flags (Nat.eqb heir PAGE_HEAP_NO_SUPREMUM) (heir_mode heir (lock_get_mode l))) as (F1 & _ & F2 & F3).
    rewrite stored_mode, F1, F2, F3, W1, R1, I1. auto.
  - exists (lock_rec_set_nth_bit heir x). split; [apply in_upd_lock; exists x; rewrite Nat.eqb_refl; auto|]. split; [exact T|]. split; [exact P|].
    split; [unfold lock_rec_get_nth_bit; cbn; now rewrite nth_set_nth, Nat.eqb_refl, B|].
    unfold lock_get_wait, lock_get_mode, lock_rec_get_rec_not_gap, lock_rec_get_insert_intention. cbn. rewrite Mx. auto.
Qed.

Lemma inherit_all_gives ls : forall s, (forall l, In l ls -> 0 <= lock_get_mode l <= 3) ->
  carries heir s (fold_left (inherit p n_heap heir) ls s)
  /\ forall l, In l ls -> gap_held (lock_get_mode l) p heir (l_trx l) (fold_left (inherit p n_heap heir) ls s).
Proof.
  induction ls as [|k ls IH]; intros s M; [split; [apply carries_refl|intros ? []]|].
  destruct (IH (inherit p n_heap heir s k) ltac:(intros; apply M; now right)) as [C G]. cbn [fold_left].
  pose proof (M k (or_introl eq_refl)) as Mk. split; [exact (carries_trans _ _ _ _ (inherit_carries s k Mk) C)|].
  intros l [<- |I]; [|auto]. apply (carries_held _ _ _ _ _ _ C), inherit_gives, Mk.
Qed.

End heirs.

(** A record is inserted: the locks on the gap before the next record, insert
    intentions aside, are on the gap before the new one as well. *)
Lemma lock_update_insert_gives sp pn n_heap h next s l : inv None s -> (h < n_heap)%nat -> In l (on_record s (Page sp pn) next) ->
  lock_rec_get_insert_intention l = false -> next = PAGE_HEAP_NO_SUPREMUM \/ lock_rec_get_rec_not_gap l = false ->
  gap_held (lock_get_mode l) (Page sp pn) h (l_trx l) (lock_update_insert (Page sp pn) n_heap h next s).
Proof.
  intros H L I Ni G. unfold lock_update_insert, lock_rec_inherit_to_gap_if_gap_lock. set (ls := filter _ _).
  assert (M : forall l, In l ls -> 0 <= lock_get_mode l <= 3) by (intro k; now apply record_modes).
  apply (inherit_all_gives sp pn n_heap h L ls s M), filter_In. split; [assumption|]. rewrite Ni.
  destruct G as [-> | ->]; [reflexivity|apply orb_true_r].
Qed.

(** A record is removed: nothing is left on it, and its locks but for insert
    intentions have become locks on the gap before the next record. *)
Lemma lock_update_delete_ok weak sp pn n_heap h next s : inv None s -> (next < n_heap)%nat -> h <> next ->
  exists s', lock_update_delete weak (Page sp pn) n_heap h next s = Some s' /\ inv None s' /\ on_record s' (Page sp pn) h = []
    /\ forall l, In l (on_record s (Page sp pn) h) -> lock_rec_get_insert_intention l = false -> (weak (l_trx l) && (lock_get_mode l =? LOCK_X)) = false ->
         gap_held (lock_get_mode l) (Page sp pn) next (l_trx l) s'.
Proof.
  intros H L N. unfold lock_update_delete, lock_rec_inherit_to_gap. set (ls := filter _ _).
  assert (M : forall l, In l ls -> 0 <= lock_get_mode l <= 3) by (intro l; now apply record_modes).
  destruct (inherit_all_gives sp pn n_heap next L ls s M) as [_ G].
  destruct (reset_and_release_wait_ok sp pn h _ (inherit_all_inv sp pn n_heap next ls s L H M)) as (s' & -> & H' & E & C).
  exists s'. split; [reflexivity|]. split; [assumption|]. split; [assumption|]. intros l I Ni Nw.
  apply (carries_held _ _ _ _ _ _ (C next (not_eq_sym N))), G. apply filter_In. now rewrite Ni, Nw.
Qed.
