(* ===== verification/InnoSpec.v ===== *)
(** What the lock system of InnoDB guarantees in every state that its
    transactions can reach. *)

From Stdlib Require Import ZArith Lia List Bool PeanoNat Relations.
From S2P Require Import Prelude Words InnoLock InnoInv InnoDead InnoReq InnoRow.
Import ListNotations.
Local Open Scope Z_scope.

(** ** Requests for records *)

(** The modes that callers ask for: S or X, for the gap and the record, the gap
    only or the record only. *)
Definition user_mode (mode : Z) : Prop :=
  In mode [LOCK_S; LOCK_X; Z.lor LOCK_S LOCK_GAP; Z.lor LOCK_X LOCK_GAP; Z.lor LOCK_S LOCK_REC_NOT_GAP; Z.lor LOCK_X LOCK_REC_NOT_GAP].

Definition insert_mode : Z := Z.lor LOCK_X (Z.lor LOCK_GAP LOCK_INSERT_INTENTION).

Lemma user_mode_flags mode : user_mode mode -> rec_mode mode /\ has mode LOCK_WAIT = false /\ has mode LOCK_INSERT_INTENTION = false
  /\ lock_mode_stronger_or_eq (Z.land mode LOCK_MODE_MASK) (Z.land mode LOCK_MODE_MASK) = true.
Proof. intro U. unfold rec_mode. repeat destruct U as [<- |U]; try (split; [cbn; auto|repeat split; reflexivity]). destruct U. Qed.

Section record.
  Context (mode : Z) (sp pn : Z) (n_heap h t : nat) (s : sys).
  Hypotheses (U : user_mode mode) (L : (h < n_heap)%nat) (H : inv None s) (Run : lock_wait (trxs s t) = false).

Let p : place := Page sp pn.
Let sup : bool := Nat.eqb h PAGE_HEAP_NO_SUPREMUM.

(** The lock [x] is what [mode] asks for. *)
Lemma expl_of x s' : In x (locks s') -> l_trx x = t -> l_place x = p -> lock_rec_get_nth_bit x h = true -> lock_get_wait x = false ->
  lock_get_mode x = Z.land mode LOCK_MODE_MASK -> (lock_rec_get_rec_not_gap x = true -> has mode LOCK_REC_NOT_GAP = true) ->
  (lock_rec_get_gap x = true -> has mode LOCK_GAP = true) -> lock_rec_get_insert_intention x = false ->
  lock_rec_has_expl mode p h t s' = true.
Proof.
  intros I T P B W M R G N. apply existsb_exists. exists x. split; [now apply in_record|].
  rewrite T, Nat.eqb_refl, W, M, N, (proj2 (proj2 (proj2 (user_mode_flags mode U)))). simpl.
  destruct (lock_rec_get_rec_not_gap x), (lock_rec_get_gap x); simpl; rewrite ?(R eq_refl), ?(G eq_refl); reflexivity.
Qed.

(** A lock with the traits of the stored mode. *)
Lemma expl_of_traits x s' m : In x (locks s') -> l_trx x = t -> l_place x = p -> lock_rec_get_nth_bit x h = true -> lock_get_wait x = false ->
  traits (type_mode x) = traits (stored sup m) -> traits m = traits mode -> lock_rec_has_expl mode p h t s' = true.
Proof.
  intros I T P B W Tr Tm. unfold traits in Tr, Tm. injection Tr as E1 E2 E3 E4. injection Tm as F1 F2 F3 F4.
  destruct (stored_flags sup m) as (_ & Fg & Fr & Fi). destruct (user_mode_flags mode U) as (_ & _ & Ui & _).
  apply (expl_of x); auto; unfold lock_get_mode, lock_rec_get_rec_not_gap, lock_rec_get_gap, lock_rec_get_insert_intention.
  - rewrite E1, stored_mode. exact F1.
  - rewrite E3, Fr, F3. intro Q. now apply andb_prop in Q.
  - rewrite E2, Fg, F2. intro Q. now apply andb_prop in Q.
  - now rewrite E4, Fi, F4.
Qed.

(** Flags that the queue does not look at. *)
Lemma rec_flag_traits m : traits (Z.lor m LOCK_REC) = traits m /\ has (Z.lor m LOCK_REC) LOCK_WAIT = has m LOCK_WAIT.
Proof. split; [apply traits_agree; bits|rewrite !has_wait, Z.lor_spec; apply orb_false_r]. Qed.

Lemma type_flag_traits m : traits (Z.lor (without m LOCK_TYPE_MASK) LOCK_REC) = traits m.
Proof. apply traits_agree. bits. Qed.

Lemma create_ok m : traits m = traits mode -> has m LOCK_WAIT = false -> lock_rec_other_has_conflicting m p h t s = false ->
  let s' := fst (lock_rec_create m p n_heap h t s) in inv None s' /\ lock_rec_has_expl mode p h t s' = true.
Proof.
  intros Tr W C s'. destruct (user_mode_flags mode U) as (Rm & _). unfold s'. rewrite create_granted by assumption.
  set (new := new_rec m p n_heap h t s).
  assert (Wn : lock_get_wait new = false) by (unfold lock_get_wait; cbn; now rewrite (proj1 (stored_flags _ m))).
  split.
  - apply append_granted; auto; [|apply (new_rec_fits m p n_heap h t s sp pn); auto].
    apply new_rec_mode. unfold rec_mode. now rewrite (traits_mode _ _ Tr).
  - apply (expl_of_traits new _ m); auto; [apply in_append; auto|]. unfold new. rewrite new_rec_bit by assumption. apply Nat.eqb_refl.
Qed.

Lemma conflict_traits m : traits m = traits mode -> lock_rec_other_has_conflicting m p h t s = lock_rec_other_has_conflicting mode p h t s.
Proof.
  intro Tr. unfold lock_rec_other_has_conflicting. induction (on_record s p h) as [|x l IH]; [reflexivity|]. cbn [existsb].
  now rewrite IH, (rec_wait_traits t m mode x x).
Qed.

(** Setting the bit of a lock of the transaction that nobody minds. *)
Lemma set_bit_ok x : In x (locks s) -> l_trx x = t -> l_place x = p -> lock_get_wait x = false -> Nat.ltb h (List.length (bitmap x)) = true ->
  (exists m, traits (type_mode x) = traits (stored sup m) /\ traits m = traits mode) \/ traits (type_mode x) = traits mode ->
  (forall w, In w (locks s) -> l_place w = p -> lock_get_wait w = true -> lock_rec_get_nth_bit w h = false) ->
  lock_rec_other_has_conflicting mode p h t s = false ->
  let s' := upd_lock (l_id x) (lock_rec_set_nth_bit h) s in inv None s' /\ lock_rec_has_expl mode p h t s' = true.
Proof.
  intros I T P W B Tr N C s'. pose proof (user_mode_flags mode U) as (Rm & _ & Ui & _).
  assert (R : is_rec x = true) by (unfold is_rec; now rewrite P).
  assert (Mo : lock_get_mode x = Z.land mode LOCK_MODE_MASK).
  { destruct Tr as [(m & Tx & Tm)|Tx]; apply traits_mode in Tx; unfold lock_get_mode; rewrite Tx; [rewrite stored_mode; now apply traits_mode|reflexivity]. }
  split.
  - apply set_bit_inv; auto; [intros w J Q; apply N; congruence|]. intros k J Q V G Ni K. rewrite Mo.
    assert (Hs : sup = false). { unfold holds_record in K. assert (is_rec k = true) as E by (unfold is_rec; now rewrite Q, P).
      rewrite E, !andb_true_iff, !negb_true_iff in K. apply K. }
    apply (no_conflict_fits mode p h t s); auto; try congruence; [unfold is_rec; now rewrite Q, P|].
    unfold lock_rec_get_gap in G. destruct Tr as [(m & Tx & Tm)|Tx]; unfold traits in *; [|congruence].
    injection Tx as _ Eg _ _. injection Tm as _ Fg _ _. rewrite Eg, (proj1 (proj2 (stored_flags sup m))), Hs, andb_true_r in G. congruence.
  - set (y := lock_rec_set_nth_bit h x). assert (J : In y (locks s')) by (apply in_upd_lock; exists x; rewrite Nat.eqb_refl; auto).
    assert (Y : lock_rec_get_nth_bit y h = true) by (unfold y, lock_rec_get_nth_bit; cbn; now rewrite nth_set_nth, Nat.eqb_refl, B).
    destruct Tr as [(m & Tx & Tm)|Tx]; [now apply (expl_of_traits y s' m)|]. unfold traits in Tx. injection Tx as E1 E2 E3 E4.
    apply (expl_of y); auto; unfold lock_rec_get_rec_not_gap, lock_rec_get_gap, lock_rec_get_insert_intention; cbn; congruence.
Qed.

Lemma add_to_queue_ok : lock_rec_other_has_conflicting mode p h t s = false ->
  let s' := lock_rec_add_to_queue (Z.lor LOCK_REC mode) p n_heap h t s in inv None s' /\ lock_rec_has_expl mode p h t s' = true.
Proof.
  intros C s'. destruct (user_mode_flags mode U) as (_ & Uw & Ui & _). unfold s', lock_rec_add_to_queue.
  rewrite (Z.lor_comm LOCK_REC mode), <- Z.lor_assoc, Z.lor_diag. fold sup.
  destruct (rec_flag_traits mode) as [Tr Wr]. rewrite Uw in Wr.
  set (m1 := if sup then without (Z.lor mode LOCK_REC) (Z.lor LOCK_GAP LOCK_REC_NOT_GAP) else Z.lor mode LOCK_REC).
  assert (S1 : stored sup m1 = stored sup (Z.lor mode LOCK_REC)).
  { unfold m1, stored. destruct sup; [|reflexivity]. do 2 f_equal. unfold without. apply Z.bits_inj'. intros n _. rewrite !Z.ldiff_spec.
    now destruct (Z.testbit (Z.lor mode LOCK_REC) n), (Z.testbit (Z.lor LOCK_GAP LOCK_REC_NOT_GAP) n). }
  assert (Cr : forall m, stored sup m = stored sup m1 -> new_rec m p n_heap h t s = new_rec m1 p n_heap h t s)
    by (intros m E; unfold new_rec; fold sup; now rewrite E).
  assert (W1 : has m1 LOCK_WAIT = false) by (rewrite <- (proj1 (stored_flags sup m1)), S1, (proj1 (stored_flags sup _)); exact Wr).
  assert (Create : inv None (fst (lock_rec_create m1 p n_heap h t s)) /\ lock_rec_has_expl mode p h t (fst (lock_rec_create m1 p n_heap h t s)) = true).
  { rewrite create_granted by assumption. rewrite <- (Cr (Z.lor mode LOCK_REC) (eq_sym S1)), <- create_granted by assumption.
    apply create_ok; auto. now rewrite conflict_traits. }
  rewrite W1. cbn [negb]. destruct (existsb _ _) eqn:Q; [exact Create|].
  destruct (lock_rec_find_similar_on_page m1 h t (queue s p)) as [x|] eqn:F; [|exact Create].
  apply find_some in F as [I F]. apply in_queue in I as [I P]. rewrite !andb_true_iff, Nat.eqb_eq, Z.eqb_eq in F. destruct F as [[T M] B].
  apply set_bit_ok; auto.
  - unfold lock_get_wait. now rewrite M.
  - left. exists (Z.lor mode LOCK_REC). split; [|exact Tr]. rewrite M. symmetry. unfold m1. destruct sup; apply type_flag_traits.
  - intros w J V K. destruct (lock_rec_get_nth_bit w h) eqn:Z; [|reflexivity]. exfalso. assert (X : existsb (fun l => lock_get_wait l && lock_rec_get_nth_bit l h) (queue s p) = true); [|congruence].
    apply existsb_exists. exists w. split; [now apply in_queue|now rewrite K, Z].
Qed.

(** What an answer means.  With [impl] the caller is content with an implicit lock:
    nothing is done if nobody's lock is in the way. *)
Definition answered (impl : bool) (err : db_err) (s' : sys) : Prop :=
  inv None s' /\
  match err with
  | DB_SUCCESS | DB_SUCCESS_LOCKED_REC => lock_rec_has_expl mode p h t s' = true
      \/ impl = true /\ s' = s /\ lock_rec_other_has_conflicting mode p h t s = false
  | DB_LOCK_WAIT => lock_wait (trxs s' t) = true
  | DB_DEADLOCK => lock_wait (trxs s' t) = false
  end.

Lemma lock_slow_ok impl : exists err s', lock_rec_lock_slow impl mode p n_heap h t s = Some (err, s') /\ answered impl err s'.
Proof.
  destruct (user_mode_flags mode U) as (Rm & _). unfold lock_rec_lock_slow. destruct (lock_rec_has_expl mode p h t s) eqn:E.
  { exists DB_SUCCESS, s. split; [reflexivity|]. split; auto. }
  destruct (lock_rec_other_has_conflicting mode p h t s) eqn:C.
  - destruct (rec_enqueue_ok mode p n_heap h t s sp pn eq_refl L Rm H Run C) as (err & s' & -> & A & B). exists err, s'. split; [reflexivity|].
    split; [assumption|]. destruct err; [|contradiction|exact B|exact B]. left. destruct B as (x & I & Cx & W).
    pose proof (part_core _ _ Cx) as (_ & T & P & Tr & _). apply core_inv in Cx as (_ & _ & _ & Bm & _).
    apply (expl_of_traits x s' (Z.lor mode LOCK_WAIT)); auto; [|apply wait_flag_mode].
    unfold lock_rec_get_nth_bit. rewrite Bm. change (lock_rec_get_nth_bit (new_rec (Z.lor mode LOCK_WAIT) p n_heap h t s) h = true).
    rewrite new_rec_bit by assumption. apply Nat.eqb_refl.
  - destruct impl; simpl; eexists _, _; (split; [reflexivity|]); [split; auto|].
    destruct (add_to_queue_ok C). split; auto.
Qed.

Lemma lock_rec_lock_ok impl : exists err s', lock_rec_lock impl mode p n_heap h t s = Some (err, s') /\ answered impl err s'.
Proof.
  destruct (user_mode_flags mode U) as (Rm & Uw & Ui & _). unfold lock_rec_lock, lock_rec_lock_fast. destruct (queue s p) as [|x [|y q]] eqn:Q.
  - assert (C : lock_rec_other_has_conflicting mode p h t s = false) by (unfold lock_rec_other_has_conflicting, on_record; now rewrite Q).
    eexists _, _. split; [reflexivity|]. destruct impl; [split; auto|]. destruct (create_ok mode) as [A B]; auto. split; auto.
  - assert (All : forall w, In w (locks s) -> l_place w = p -> w = x).
    { intros w J P. assert (K : In w (queue s p)) by now apply in_queue. rewrite Q in K. destruct K as [->|[]]. reflexivity. }
    assert (Ix : In x (locks s) /\ l_place x = p) by (apply in_queue; rewrite Q; now left). destruct Ix as [I P].
    destruct (Nat.eqb_spec (l_trx x) t) as [T|]; [|apply lock_slow_ok]. destruct (Z.eqb_spec (type_mode x) (Z.lor mode LOCK_REC)) as [M|]; [|apply lock_slow_ok].
    destruct (Nat.leb_spec (List.length (bitmap x)) h) as [|B]; [apply lock_slow_ok|]. cbn [negb orb].
    assert (W : lock_get_wait x = false) by (unfold lock_get_wait; rewrite M, (proj2 (rec_flag_traits mode)); exact Uw).
    pose proof (proj1 (rec_flag_traits mode)) as Tr. rewrite <- M in Tr.
    assert (C : lock_rec_other_has_conflicting mode p h t s = false).
    { unfold lock_rec_other_has_conflicting, on_record. rewrite Q. cbn [filter]. destruct (lock_rec_get_nth_bit x h); [|reflexivity].
      cbn [existsb]. unfold lock_rec_has_to_wait. now rewrite T, Nat.eqb_refl. }
    destruct impl; [eexists _, _; split; [reflexivity|]; split; auto|]. cbn [negb andb].
    destruct (lock_rec_get_nth_bit x h) eqn:Bx; cbn [negb]; (eexists _, _; split; [reflexivity|]).
    + split; [assumption|]. left. unfold traits in Tr. injection Tr as E1 E2 E3 E4.
      apply (expl_of x); auto; unfold lock_rec_get_rec_not_gap, lock_rec_get_gap, lock_rec_get_insert_intention; congruence.
    + destruct (set_bit_ok x) as [A K]; auto; [now apply Nat.ltb_lt| |split; auto].
      intros w J V K. rewrite (All w J V) in *. congruence.
  - apply lock_slow_ok.
Qed.

Lemma insert_ok : exists err inherit s', lock_rec_insert_check_and_lock p n_heap h t s = Some (err, inherit, s') /\ inv None s'
  /\ (err = DB_LOCK_WAIT -> lock_wait (trxs s' t) = true).
Proof.
  unfold lock_rec_insert_check_and_lock. destruct (on_record s p h) eqn:Q; [do 3 eexists; split; [reflexivity|]; split; [assumption|discriminate]|].
  fold insert_mode. destruct (lock_rec_other_has_conflicting insert_mode p h t s) eqn:C; [|do 3 eexists; split; [reflexivity|]; split; [assumption|discriminate]].
  destruct (rec_enqueue_ok insert_mode p n_heap h t s sp pn eq_refl L (or_intror eq_refl) H Run C) as (err & s' & -> & A & B).
  do 3 eexists. split; [reflexivity|]. split; [assumption|]. destruct err; congruence.
Qed.

End record.

(** ** Tables, unlocking, release *)

(** A transaction that runs waits for no lock. *)
Lemma running_granted s t l : inv None s -> lock_wait (trxs s t) = false -> In l (locks s) -> l_trx l = t -> lock_get_wait l = false.
Proof.
  intros H Run I T. destruct (lock_get_wait l) eqn:W; [|reflexivity]. destruct (so_back _ _ _ (i_sound _ _ H) l I W) as [E _].
  pose proof (so_state _ _ _ (i_sound _ _ H) t ltac:(discriminate) ltac:(discriminate)) as F. rewrite T in E. rewrite E, Run in F. discriminate.
Qed.

(** [t] has a granted lock on the table that is at least as strong as [mode]. *)
Definition table_held (t : nat) (table_id mode : Z) (s : sys) : Prop :=
  exists l, In l (locks s) /\ l_trx l = t /\ l_place l = Table table_id /\ lock_get_wait l = false
    /\ lock_mode_stronger_or_eq (lock_get_mode l) mode = true.

Lemma table_mode_strong mode : table_mode mode -> lock_mode_stronger_or_eq mode mode = true.
Proof. intros [->|[->|[->| ->]]]; reflexivity. Qed.

Lemma lock_table_ok table_id mode t s : inv None s -> lock_wait (trxs s t) = false -> table_mode mode ->
  exists err s', lock_table table_id mode t s = Some (err, s') /\ inv None s'
    /\ match err with
       | DB_SUCCESS => table_held t table_id mode s'
       | DB_SUCCESS_LOCKED_REC => lock_table_other_has_incompatible t table_id mode s = true /\ table_held t table_id mode s'
       | DB_LOCK_WAIT => lock_wait (trxs s' t) = true
       | DB_DEADLOCK => lock_wait (trxs s' t) = false
       end.
Proof.
  intros H Run M. destruct (table_mode_stored mode M) as (Em & Ew & Em' & _ & Wm & _ & Rg). unfold lock_table.
  destruct (lock_table_has t table_id mode s) eqn:E.
  { exists DB_SUCCESS, s. split; [reflexivity|]. split; [assumption|]. apply existsb_exists in E as (l & I & B).
    apply in_rev, in_queue in I as [I P]. apply andb_prop in B as [T B]. apply Nat.eqb_eq in T.
    exists l. repeat split; auto. exact (running_granted s t l H Run I T). }
  destruct (lock_table_other_has_incompatible t table_id mode s) eqn:C.
  - destruct (table_enqueue_ok mode table_id t s H Run M C) as (err & s' & -> & A & B). exists err, s'. split; [reflexivity|].
    split; [assumption|]. destruct err; [|contradiction|exact B|exact B]. split; [reflexivity|]. destruct B as (x & I & Cx & W).
    pose proof (part_core _ _ Cx) as (_ & T & P & Tr & _). apply traits_mode in Tr. exists x. repeat split; auto.
    unfold lock_get_mode. rewrite Tr. cbn [type_mode new_table]. rewrite Em'. now apply table_mode_strong.
  - eexists DB_SUCCESS, _. split; [reflexivity|]. rewrite table_create_granted by assumption.
    assert (Mn : lock_get_mode (new_table table_id mode t s) = mode) by (unfold lock_get_mode; cbn [type_mode new_table]; exact Em). split.
    + apply append_granted; auto; [|now apply table_fits]. now rewrite Mn.
    + exists (new_table table_id mode t s). repeat split; auto; [apply in_append; auto|]. rewrite Mn. now apply table_mode_strong.
Qed.

Lemma lock_rec_unlock_ok t sp pn h mode s : inv None s -> lock_wait (trxs s t) = false ->
  exists s', lock_rec_unlock t (Page sp pn) h mode s = Some s' /\ inv None s'.
Proof.
  intros H Run. unfold lock_rec_unlock. destruct (find _ _) as [l|] eqn:F; [|eauto]. apply find_some in F as [I F].
  apply in_record in I as (I & P & B). apply andb_prop in F as [T _]. apply Nat.eqb_eq in T.
  rewrite (running_granted s t l H Run I T). eexists. split; [reflexivity|]. rewrite <- P. apply unlock_inv; auto.
  exact (running_granted s t l H Run I T).
Qed.

Lemma release_last_in t s s' : release_last t s = Some s' -> exists l, In l (locks s) /\ l_trx l = t /\ s' = dequeue l s.
Proof.
  unfold release_last. destruct (rev _) as [|l r] eqn:E; [discriminate|]. intro F. injection F as <-. exists l.
  assert (I : In l (filter (fun l => Nat.eqb (l_trx l) t) (locks s))) by (apply in_rev; rewrite E; now left).
  apply filter_In in I as [I T]. apply Nat.eqb_eq in T. auto.
Qed.

Lemma release_last_none t s : release_last t s = None -> forall l, In l (locks s) -> l_trx l <> t.
Proof.
  unfold release_last. destruct (rev _) eqn:E; [|discriminate]. intros _ l I T.
  assert (J : In l (filter (fun l => Nat.eqb (l_trx l) t) (locks s))) by (apply filter_In; split; [assumption|now apply Nat.eqb_eq]).
  apply in_rev in J. rewrite E in J. destruct J.
Qed.

(** A turn of the release: one lock less, and the transaction goes on running. *)
Lemma release_last_ok t s s' : inv None s -> lock_wait (trxs s t) = false -> release_last t s = Some s' ->
  inv None s' /\ lock_wait (trxs s' t) = false /\ S (List.length (locks s')) = List.length (locks s).
Proof.
  intros H Run E. apply release_last_in in E as (l & I & T & ->). pose proof (running_granted s t l H Run I T) as W.
  destruct (dequeue_ok None s l H I) as [G _]. split; [now apply dequeue_inv|]. split.
  - destruct (lock_wait (trxs (dequeue l s) t)) eqn:F; [|reflexivity]. apply (g_below _ _ _ _ G) in F. simpl in F. congruence.
  - rewrite (map_core_length _ _ (g_core _ _ _ _ G)). apply remove_length; [apply H|assumption].
Qed.

Lemma release_all_ok t fuel : forall s, (List.length (locks s) < fuel)%nat -> inv None s -> lock_wait (trxs s t) = false ->
  exists s', lock_release_off_kernel fuel t s = Some s' /\ inv None s' /\ (forall l, In l (locks s') -> l_trx l <> t).
Proof.
  induction fuel as [|fuel IH]; intros s F H Run; [lia|]. simpl. destruct (release_last t s) as [s1|] eqn:E.
  - destruct (release_last_ok t s s1 H Run E) as (H1 & R1 & L). apply IH; auto. lia.
  - exists s. split; [reflexivity|]. split; [assumption|]. now apply release_last_none.
Qed.

(** ** All states *)

(** What transactions and the server do to the lock system.  A transaction that
    runs asks for a lock, gives one up, writes rows, or ends, which releases its
    locks one after the other; records are inserted in a page and removed from
    it; the wait of another transaction times out. *)
Inductive step : sys -> sys -> Prop :=
  | st_rec_lock impl mode sp pn n_heap h t s err s' :
      lock_wait (trxs s t) = false -> user_mode mode -> (h < n_heap)%nat ->
      lock_rec_lock impl mode (Page sp pn) n_heap h t s = Some (err, s') -> step s s'
  | st_insert sp pn n_heap h t s err inherit s' :
      lock_wait (trxs s t) = false -> (h < n_heap)%nat ->
      lock_rec_insert_check_and_lock (Page sp pn) n_heap h t s = Some (err, inherit, s') -> step s s'
  | st_table table_id mode t s err s' :
      lock_wait (trxs s t) = false -> table_mode mode -> lock_table table_id mode t s = Some (err, s') -> step s s'
  | st_unlock t sp pn h mode s s' :
      lock_wait (trxs s t) = false -> lock_rec_unlock t (Page sp pn) h mode s = Some s' -> step s s'
  | st_release t s s' : lock_wait (trxs s t) = false -> release_last t s = Some s' -> step s s'
  | st_update_insert sp pn n_heap h next s : (h < n_heap)%nat -> h <> next -> step s (lock_update_insert (Page sp pn) n_heap h next s)
  | st_update_delete weak sp pn n_heap h next s s' :
      (next < n_heap)%nat -> h <> next -> lock_update_delete weak (Page sp pn) n_heap h next s = Some s' -> step s s'
  | st_timeout t i l s :
      lock_wait (trxs s t) = true -> wait_lock (trxs s t) = Some i -> the_lock s i = Some l ->
      step s (lock_cancel_waiting_and_release l s)
  | st_write t n e s :
      lock_wait (trxs s t) = false ->
      step s (upd_trx t (fun x => mkTrx (wait_lock x) (lock_wait x) n e (chosen_as_victim x)) s).

Inductive reachable : sys -> Prop :=
  | re_init s : locks s = [] -> (forall t, wait_lock (trxs s t) = None /\ lock_wait (trxs s t) = false) -> reachable s
  | re_step s s' : reachable s -> step s s' -> reachable s'.

Lemma lock_init_inv s : locks s = [] -> (forall t, wait_lock (trxs s t) = None /\ lock_wait (trxs s t) = false) -> inv None s.
Proof.
  intros L T. constructor; [constructor|..]; try (intros ? I; rewrite L in I; destruct I).
  - unfold numbered. rewrite L. constructor.
  - intros t i _ E. rewrite (proj1 (T t)) in E. discriminate.
  - intros t _ _. destruct (T t) as [-> ->]. reflexivity.
  - intros t E. discriminate.
  - intros h l1 l2 I. rewrite L in I. destruct I.
  - intros t C. apply clos_trans_t1n in C. destruct C as [? [W _]|? ? [W _]]; rewrite (proj2 (T t)) in W; discriminate.
Qed.

Lemma lock_step_inv s s' : inv None s -> step s s' -> inv None s'.
Proof.
  intros H St. destruct St as [impl mode sp pn n_heap h t s err s' R U L E|sp pn n_heap h t s err inherit s' R L E|table_id mode t s err s' R M E
    |t sp pn h mode s s' R E|t s s' R E|sp pn n_heap h next s L N|weak sp pn n_heap h next s s' L N E|t i l s R W E|t n e s R].
  - destruct (lock_rec_lock_ok mode sp pn n_heap h t s U L H R impl) as (err' & s2 & E' & A & _). rewrite E in E'. congruence.
  - destruct (insert_ok sp pn n_heap h t s L H R) as (err' & inh & s2 & E' & A & _). rewrite E in E'. congruence.
  - destruct (lock_table_ok table_id mode t s H R M) as (err' & s2 & E' & A & _). rewrite E in E'. congruence.
  - destruct (lock_rec_unlock_ok t sp pn h mode s H R) as (s2 & E' & A). rewrite E in E'. congruence.
  - exact (proj1 (release_last_ok t s s' H R E)).
  - now apply lock_update_insert_inv.
  - destruct (lock_update_delete_ok weak sp pn n_heap h next s H L N) as (s2 & E' & A & _). rewrite E in E'. congruence.
  - destruct (so_forth _ _ _ (i_sound _ _ H) t i ltac:(discriminate) W) as (l' & I & <- & T & V).
    rewrite (the_lock_some s l' (so_numbered _ _ _ (i_sound _ _ H)) I) in E. injection E as <-. now apply cancel_inv.
  - apply upd_trx_inv; auto.
Qed.

Lemma lock_reachable_inv s : reachable s -> inv None s.
Proof. induction 1; [now apply lock_init_inv|eapply lock_step_inv; eauto]. Qed.

(** ** Waiting ends *)

Lemma waits_next s t : inv None s -> lock_wait (trxs s t) = true -> exists u, waits s t u.
Proof.
  intros H W. pose proof (so_state _ _ _ (i_sound _ _ H) t ltac:(discriminate) ltac:(discriminate)) as E. rewrite W in E.
  destruct (wait_lock (trxs s t)) as [i|] eqn:F; [|discriminate].
  destruct (so_forth _ _ _ (i_sound _ _ H) t i ltac:(discriminate) F) as (w & I & _ & T & V).
  destruct (i_blocked _ _ H w I V Logic.I) as (l & B). exists (l_trx l). split; [assumption|]. exists w, l. auto.
Qed.

Lemma waits_owner s t u : waits s t u -> In t (map l_trx (locks s)).
Proof. intros (_ & w & l & I & _ & <- & _). now apply in_map. Qed.

(** Following the waits from [t], past the transactions of [path], leads to one
    that runs. *)
Lemma follow_waits s n : inv None s -> forall path t, NoDup path -> incl path (map l_trx (locks s)) ->
  (forall x, In x path -> clos_trans nat (waits s) x t) -> (List.length (locks s) <= List.length path + n)%nat ->
  lock_wait (trxs s t) = true -> exists u, clos_trans nat (waits s) t u /\ lock_wait (trxs s u) = false.
Proof.
  intro H. induction n as [|n IH]; intros path t ND In_ Reach Len W; destruct (waits_next s t H W) as (u & E).
  all: assert (ND' : NoDup (t :: path)) by (constructor; [intro K; exact (i_acyclic _ _ H t (Reach t K))|assumption]).
  all: assert (In' : incl (t :: path) (map l_trx (locks s))) by (apply incl_cons; [exact (waits_owner s t u E)|assumption]).
  all: pose proof (NoDup_incl_length ND' In') as Le; rewrite length_map in Le; simpl in Le.
  - lia.
  - destruct (lock_wait (trxs s u)) eqn:Wu; [|exists u; split; [now apply t_step|assumption]].
    destruct (IH (t :: path) u ND' In') as (v & C & V); auto.
    + intros x [<- |K]; [now apply t_step|]. eapply t_trans; [now apply Reach|now apply t_step].
    + simpl. lia.
    + exists v. split; [|assumption]. eapply t_trans; [apply t_step, E|exact C].
Qed.

(** ** Theorems *)

(** C1. In every reachable state two granted locks of different transactions on
    the same record, gaps and insert intentions aside, or on the same table, have
    compatible modes. *)
Theorem granted_locks_compatible s h l1 l2 : reachable s -> In l1 (locks s) -> In l2 (locks s) -> l_trx l1 <> l_trx l2 ->
  l_place l1 = l_place l2 -> holds_record h l1 = true -> holds_record h l2 = true ->
  lock_get_wait l1 = false -> lock_get_wait l2 = false -> lock_mode_compatible (lock_get_mode l1) (lock_get_mode l2) = true.
Proof.
  intros R I1 I2 T P H1 H2 W1 W2. pose proof (lock_reachable_inv s R) as H. pose proof (so_mode _ _ _ (i_sound _ _ H)) as M.
  destruct (Nat.lt_trichotomy (l_id l1) (l_id l2)) as [L|[E|L]].
  - rewrite lock_mode_compatible_sym by auto. destruct (i_exclusive _ _ H h l1 l2 I1 I2 L P T H1 H2); congruence.
  - apply (numbered_inj _ _ _ (so_numbered _ _ _ (i_sound _ _ H)) I1 I2) in E. congruence.
  - destruct (i_exclusive _ _ H h l2 l1 I2 I1 L (eq_sym P) (not_eq_sym T) H2 H1); congruence.
Qed.

(** C8. Whoever waits has to: in every reachable state each waiting lock conflicts
    with a lock ahead of it in its queue, so no wakeup is lost. *)
Theorem waiting_lock_is_blocked s w : reachable s -> In w (locks s) -> lock_get_wait w = true -> has_to_wait_in_queue s w = true.
Proof.
  intros R I W. pose proof (lock_reachable_inv s R) as H. apply has_to_wait_blocked; auto; [apply (i_sound _ _ H)|].
  exact (i_blocked _ _ H w I W Logic.I).
Qed.

(** C2. No reachable state has a cycle of transactions that wait for each other. *)
Theorem no_deadlock s t : reachable s -> ~ clos_trans nat (waits s) t t.
Proof. intro R. exact (i_acyclic _ _ (lock_reachable_inv s R) t). Qed.

(** C9. A transaction that waits waits in the end for one that runs. *)
Theorem wait_ends_at_running s t : reachable s -> lock_wait (trxs s t) = true ->
  exists u, clos_trans nat (waits s) t u /\ lock_wait (trxs s u) = false.
Proof.
  intros R W. apply (follow_waits s (List.length (locks s)) (lock_reachable_inv s R) [] t); [constructor|intros ? []|intros ? []|simpl; lia|assumption].
Qed.

(** C10. A request for a record lock, by a transaction that runs, returns, with the
    search for deadlocks and its victims.  If it succeeds the transaction has a
    granted lock at least as strong; or the caller was content with an implicit
    lock ([impl]), no other transaction had a conflicting lock, and nothing has
    changed.  If it has to wait the transaction is stopped, and if it is refused
    the transaction runs on. *)
Theorem lock_rec_lock_answers impl mode sp pn n_heap h t s : reachable s -> lock_wait (trxs s t) = false -> user_mode mode -> (h < n_heap)%nat ->
  exists err s', lock_rec_lock impl mode (Page sp pn) n_heap h t s = Some (err, s')
    /\ match err with
       | DB_SUCCESS | DB_SUCCESS_LOCKED_REC => lock_rec_has_expl mode (Page sp pn) h t s' = true
           \/ impl = true /\ s' = s /\ lock_rec_other_has_conflicting mode (Page sp pn) h t s = false
       | DB_LOCK_WAIT => lock_wait (trxs s' t) = true
       | DB_DEADLOCK => lock_wait (trxs s' t) = false
       end.
Proof.
  intros R W U L. destruct (lock_rec_lock_ok mode sp pn n_heap h t s U L (lock_reachable_inv s R) W impl) as (err & s' & E & _ & A). eauto.
Qed.

(** C37. A request for a table lock, by a transaction that runs, returns, with the
    search for deadlocks and its victims.  If it succeeds the transaction has a
    granted lock at least as strong; the result is [DB_SUCCESS_LOCKED_REC], which
    the comment of the function does not list, only if the lock of another
    transaction was in the way when it was called.  If it has to wait the
    transaction is stopped, and if it is refused the transaction runs on. *)
Theorem lock_table_answers table_id mode t s : reachable s -> lock_wait (trxs s t) = false -> table_mode mode ->
  exists err s', lock_table table_id mode t s = Some (err, s')
    /\ match err with
       | DB_SUCCESS => table_held t table_id mode s'
       | DB_SUCCESS_LOCKED_REC => lock_table_other_has_incompatible t table_id mode s = true /\ table_held t table_id mode s'
       | DB_LOCK_WAIT => lock_wait (trxs s' t) = true
       | DB_DEADLOCK => lock_wait (trxs s' t) = false
       end.
Proof.
  intros R W M. destruct (lock_table_ok table_id mode t s (lock_reachable_inv s R) W M) as (err & s' & E & _ & A). eauto.
Qed.

(** C35. The release at the end of a transaction ends, leaves it no lock, and
    whoever still waits has to wait for another transaction. *)
Theorem lock_release_frees s t : reachable s -> lock_wait (trxs s t) = false ->
  exists s', lock_release_off_kernel (S (List.length (locks s))) t s = Some s' /\ (forall l, In l (locks s') -> l_trx l <> t)
    /\ forall w, In w (locks s') -> lock_get_wait w = true -> exists l, blocks s' w l /\ l_trx l <> t.
Proof.
  intros R W. destruct (release_all_ok t (S (List.length (locks s))) s (le_n _) (lock_reachable_inv s R) W) as (s' & E & H & N).
  exists s'. split; [assumption|]. split; [assumption|]. intros w I V. destruct (i_blocked _ _ H w I V Logic.I) as (l & B).
  exists l. split; [assumption|]. apply N, B.
Qed.

(** C36. When a record is removed from a page nobody holds or waits for a lock on it
    any more, and whoever had a lock on it, insert intentions and the X locks of
    weak isolation levels aside, has one on the gap before the next record. *)
Theorem lock_update_delete_inherits weak sp pn n_heap h next s : reachable s -> (next < n_heap)%nat -> h <> next ->
  exists s', lock_update_delete weak (Page sp pn) n_heap h next s = Some s' /\ on_record s' (Page sp pn) h = []
    /\ forall l, In l (on_record s (Page sp pn) h) -> lock_rec_get_insert_intention l = false ->
         (weak (l_trx l) && (lock_get_mode l =? LOCK_X)) = false -> gap_held (lock_get_mode l) (Page sp pn) next (l_trx l) s'.
Proof.
  intros R L N. destruct (lock_update_delete_ok weak sp pn n_heap h next s (lock_reachable_inv s R) L N) as (s' & E & _ & A). eauto.
Qed.

(** ** Examples *)

Definition ex_start : sys := mkSys [] (fun _ => mkTrx None false 0 false false) 0.
Definition ex_page : place := Page 0 7.

Definition after_rec (mode : Z) (h t : nat) (s : sys) : sys :=
  match lock_rec_lock false mode ex_page 10 h t s with Some (_, s') => s' | None => s end.
Definition after_table (mode : Z) (t : nat) (s : sys) : sys := match lock_table 1 mode t s with Some (_, s') => s' | None => s end.

Lemma ex_start_reachable : reachable ex_start.
Proof. apply re_init; [reflexivity|]. intro t. split; reflexivity. Defined.

Lemma after_rec_reachable mode h t s : reachable s -> lock_wait (trxs s t) = false -> user_mode mode -> (h < 10)%nat -> reachable (after_rec mode h t s).
Proof.
  intros R W U L. unfold after_rec. destruct (lock_rec_lock false mode ex_page 10 h t s) as [[err s']|] eqn:E; [|exact R].
  exact (re_step _ _ R (st_rec_lock false mode 0 7 10 h t s err s' W U L E)).
Defined.

Lemma after_table_reachable mode t s : reachable s -> lock_wait (trxs s t) = false -> table_mode mode -> reachable (after_table mode t s).
Proof.
  intros R W M. unfold after_table. destruct (lock_table 1 mode t s) as [[err s']|] eqn:E; [|exact R].
  exact (re_step _ _ R (st_table 1 mode t s err s' W M E)).
Defined.

(** Two readers of a record and a writer that waits for them. *)
Definition ex_readers : sys := after_rec LOCK_S 5 2 (after_rec LOCK_S 5 1 ex_start).
Definition ex_queue : sys := after_rec LOCK_X 5 3 ex_readers.

Lemma ex_readers_reachable : reachable ex_readers.
Proof. repeat (apply after_rec_reachable; [|reflexivity|unfold user_mode; simpl; tauto|lia]). exact ex_start_reachable. Defined.

Lemma ex_queue_reachable : reachable ex_queue.
Proof. apply after_rec_reachable; [exact ex_readers_reachable|reflexivity|unfold user_mode; simpl; tauto|lia]. Defined.

Definition nth_lock (n : nat) (s : sys) : lock := nth n (locks s) (mkLock 0 0 0 ex_page []).

Lemma granted_locks_compatible_witness :
  lock_mode_compatible (lock_get_mode (nth_lock 0 ex_readers)) (lock_get_mode (nth_lock 1 ex_readers)) = true.
Proof.
  apply (granted_locks_compatible ex_readers 5); try (vm_compute; reflexivity).
  - exact ex_readers_reachable.
  - vm_compute. auto.
  - vm_compute. auto.
  - vm_compute. discriminate.
Defined.

Lemma waiting_lock_is_blocked_witness : has_to_wait_in_queue ex_queue (nth_lock 2 ex_queue) = true.
Proof.
  apply (waiting_lock_is_blocked ex_queue); [exact ex_queue_reachable|vm_compute; auto|vm_compute; reflexivity].
Defined.

Lemma no_deadlock_witness : ~ clos_trans nat (waits ex_queue) 3%nat 3%nat.
Proof. apply (no_deadlock ex_queue 3). exact ex_queue_reachable. Defined.

Lemma wait_ends_at_running_witness : exists u, clos_trans nat (waits ex_queue) 3%nat u /\ lock_wait (trxs ex_queue u) = false.
Proof. apply (wait_ends_at_running ex_queue 3); [exact ex_queue_reachable|vm_compute; reflexivity]. Defined.

Lemma lock_rec_lock_answers_witness : exists err s', lock_rec_lock false LOCK_X ex_page 10 5 3 ex_readers = Some (err, s')
    /\ match err with
       | DB_SUCCESS | DB_SUCCESS_LOCKED_REC => lock_rec_has_expl LOCK_X ex_page 5 3 s' = true
           \/ false = true /\ s' = ex_readers /\ lock_rec_other_has_conflicting LOCK_X ex_page 5 3 ex_readers = false
       | DB_LOCK_WAIT => lock_wait (trxs s' 3) = true
       | DB_DEADLOCK => lock_wait (trxs s' 3) = false
       end.
Proof.
  apply (lock_rec_lock_answers false LOCK_X 0 7 10 5 3 ex_readers); [exact ex_readers_reachable|vm_compute; reflexivity|unfold user_mode; simpl; tauto|lia].
Defined.

Lemma lock_release_frees_witness : exists s', lock_release_off_kernel (S (List.length (locks ex_queue))) 1 ex_queue = Some s'
    /\ (forall l, In l (locks s') -> l_trx l <> 1%nat)
    /\ forall w, In w (locks s') -> lock_get_wait w = true -> exists l, blocks s' w l /\ l_trx l <> 1%nat.
Proof. apply (lock_release_frees ex_queue 1); [exact ex_queue_reachable|vm_compute; reflexivity]. Defined.

Lemma lock_update_delete_inherits_witness :
  exists s', lock_update_delete (fun _ => false) ex_page 10 5 6 ex_queue = Some s' /\ on_record s' ex_page 5 = []
    /\ forall l, In l (on_record ex_queue ex_page 5) -> lock_rec_get_insert_intention l = false ->
         (false && (lock_get_mode l =? LOCK_X)) = false -> gap_held (lock_get_mode l) ex_page 6 (l_trx l) s'.
Proof. apply (lock_update_delete_inherits (fun _ => false) 0 7 10 5 6 ex_queue); [exact ex_queue_reachable|lia|discriminate]. Defined.

(** The transaction 2 reads a table, 1 waits to lock all of it, and 2 now wants to
    write. *)
Definition ex_upgrade : sys := after_table LOCK_X 1 (after_table LOCK_IS 2 ex_start).

Lemma ex_upgrade_reachable : reachable ex_upgrade.
Proof. repeat (apply after_table_reachable; [|reflexivity|unfold table_mode; auto]). exact ex_start_reachable. Defined.

Lemma lock_table_answers_witness : exists err s', lock_table 1 LOCK_IX 2 ex_upgrade = Some (err, s')
    /\ match err with
       | DB_SUCCESS => table_held 2 1 LOCK_IX s'
       | DB_SUCCESS_LOCKED_REC => lock_table_other_has_incompatible 2 1 LOCK_IX ex_upgrade = true /\ table_held 2 1 LOCK_IX s'
       | DB_LOCK_WAIT => lock_wait (trxs s' 2) = true
       | DB_DEADLOCK => lock_wait (trxs s' 2) = false
       end.
Proof. apply (lock_table_answers 1 LOCK_IX 2 ex_upgrade); [exact ex_upgrade_reachable|vm_compute; reflexivity|unfold table_mode; auto]. Defined.

(** The lock is granted because the search for a deadlock has chosen another
    victim, and is reported as [DB_SUCCESS_LOCKED_REC]. *)
Lemma ex_upgrade_locked_rec :
  match lock_table 1 LOCK_IX 2 ex_upgrade with
  | Some (err, s') => err = DB_SUCCESS_LOCKED_REC /\ lock_wait (trxs s' 2) = false /\ chosen_as_victim (trxs s' 1) = true
  | None => False
  end.
Proof. vm_compute. auto. Qed.
